(* ===== verification/_CoqProject ===== *)
-Q . S2P
Prelude.v
PyStr.v
PyDict.v
Runs.v
Versions.v
TaskIds.v
Cache.v
Providers.v
TaskData.v
TaskResolve.v
ResolveEnds.v
TaskGraph.v
Stamps.v
Depends.v
DependsOk.v
Prepare.v
Sched.v
Exec.v
Execute.v
ExecFuel.v
SceneQueue.v
ExecSafe.v
ExecSteady.v
Builds.v
PrepareOk.v
Targets.v
TargetsOk.v
DataStore.v
DataStoreOk.v
DataCopy.v
VarDeps.v
VarDepsOk.v
SigGen.v
SigGenOk.v
Ast.v
RecipeSyntax.v
Events.v
RecipeFiles.v
StoreView.v
AssignOk.v
RecipeSyntaxOk.v
TasksOk.v
RecipeFilesOk.v
RecipeInfos.v
RecipeCache.v
RecipeCacheOk.v
SharedCaches.v
Layers.v
LayersOk.v
Fetch.v
FetchOk.v
FetchChecked.v
