(* ===== verification/Prelude.v ===== *)
(** * A verification library for the BitBake build engine

    The repository is a Yocto tree for the ZCU216 board; its own logic in
    Python is BitBake, under [src/sources/core/bitbake/lib/bb].  BitBake parses
    recipes, decides which recipes provide what a build asks for, turns their
    tasks into a graph, and runs the graph with a bounded number of workers,
    skipping what was built before.  This development models that path from the
    parsed recipes to the finished build, and proves that each stage keeps what
    the next relies on.  It also models how recipes are parsed, what they are
    parsed into, the data store, and the hashes computed from it, by which a
    build decides what is up to date.

    ** How Python is modelled

    - A method is a function from the state it changes to the new state and a
      result ([M], below): the writes made before an exception stay.  A function
      that only reads returns a [res].  The exceptions are the constructors of
      [exn]; [OutOfFuel] is none of Python's and marks a loop that did not end.
    - A dict keeps its insertion order, so it is an association list ([PyDict]);
      where only lookups matter it is a [gmap].
    - A set is a [gset]; the order in which Python visits one is arbitrary, so
      code that does is modelled over an arbitrary order ([SetOrder]) and every
      theorem holds for all of them.
    - Loops that are not structural take fuel; each comes with a theorem that
      the fuel its caller gives suffices, or that some fuel does and more
      makes no difference ([settles], for the resolution of targets). The
      bounds are the number of tasks (marking, weights, hashes, the walks of
      the setscene queue), the number of tasks times the number of recursive
      tasks (recursive dependencies), the number of files (failures), the
      length of the names of overrides (the choice of a variant), or the
      number of variables (what a recipe depends on). Reading a variable can
      run forever, when every expansion gives another text to expand, or into
      the limit of the interpreter's stack: of the first kind of run the
      properties say nothing, and the second is the [RecursionError] Python
      raises, for any limit ([depth]).
    - What is not in the tree is a parameter: files and their times, the
      regular expressions of PACKAGES_DYNAMIC, the values of Python
      expressions, the functions and handlers of recipes, sha256, uuids, the
      hash equivalence server, and what workers answer ([env], [sig_env],
      [parse_env]).  So are what the parsers of code find
      (bb/codeparser.py, a walk over the trees of Python's own parser), and the
      configuration where the run queue reads it, the file system and the fetch
      methods.  The properties assume of them at most that they do not raise the
      model's own exception; of what runs with a data store, that it keeps to
      that store; and of fetch methods, that they make no stamps.
    - The run queue calls its signature generator through two interfaces,
      [Stamps.SigGen] and [Prepare.PrepareSigGen]; the properties of builds hold
      for every generator, and [SigGen] implements both by those of the tree.

    ** The parts, in the order a build passes them

    - [Prelude], [PyStr], [PyDict], [Runs]: exceptions and state, string
      methods, dictionaries, and how to reason about runs.
    - [Versions] (bb/utils.py): versions are compared by a total order, and
      dependency strings round trip.
    - [TaskIds] (bb/runqueue.py): names of tasks, built and split.
    - [Cache] (bb/cache.py): the tables of parsed recipes stay consistent, and
      virtual file names round trip.
    - [Providers] (bb/providers.py): which file of a recipe is preferred, for
      build and run time targets.
    - [TaskData], [TaskResolve] (bb/taskdata.py): targets are resolved to files
      until all that is needed is provided or has failed, and failures reach
      everything that needs what failed.  [ResolveEnds]: this ends in all modes.
    - [TaskGraph] (bb/runqueue.py): the entries of the run queue; marking,
      pruning, weights, circular dependencies and the order of hashing.
    - [Stamps] (bb/build.py, bb/runqueue.py): whether a task's stamp is current.
    - [Depends], [DependsOk], [Prepare], [PrepareOk] (bb/runqueue.py):
      [RunQueueData.prepare].  [Depends] is its step A, the dependencies of
      every kind with the two loops over the recursive ones; [Prepare] marks
      what the targets need, prunes, checks and hashes.  What it returns is
      what the execution needs ([PrepareOk.ready]).
    - [Targets], [TargetsOk] (bb/cooker.py): from the targets asked for to the
      task data of all configurations and the list of targets that [Prepare]
      starts from.
    - [Sched] (bb/runqueue.py): the basic, speed and completion schedulers.
    - [Exec], [Execute] (bb/runqueue.py): [RunQueueExecute]: the state, the
      setscene queue, what happens when tasks end, [execute] and the state
      machine of [RunQueue].  A log records what the code tells the outside.
    - [ExecFuel], [SceneQueue], [ExecSafe], [ExecSteady], [Builds]: the loops of
      the execution end; the setscene queue computes what it means to; two
      invariants of all reachable states, of what is safe to start and of the
      counters; and from them the properties of whole builds: order, bounds,
      no task twice, completion.
    - [DataStore], [DataStoreOk], [DataCopy] (bb/data_smart.py): variables with
      flags, appends, prepends and removes, the variants that overrides choose,
      expansion with its cache, and copies that share with the store they were
      made from until they are written to.
    - [VarDeps], [VarDepsOk] (bb/data.py): which variables and functions the
      tasks of a recipe depend on, and the base hashes of the tasks.
    - [SigGen], [SigGenOk] (bb/siggen.py): the signature generators, which
      turn base hashes into the hashes of tasks while [Prepare] hashes.
    - [RecipeSyntax], [RecipeSyntaxOk] (bb/parse/parse_py): lines of recipes and
      configuration files into statements, and a printer that they read back.
    - [Ast] (bb/parse/ast.py, bb/build.py): the statements, and what each does
      to the data store.  [StoreView] says which entries of the store its
      methods change; with it [AssignOk] gives the meaning of assignments and
      [TasksOk] that of [addtask] and [deltask].
    - [Events] (bb/event.py): the handlers of events.
    - [RecipeFiles], [RecipeFilesOk] (bb/parse): finding and reading files,
      [include] and [inherit], and from a recipe that has been read to the
      stores of the recipe and its variants, which stay apart.
    - [RecipeInfos] (bb/cache.py, bb/cache_extra.py): from these stores to what
      is kept of a recipe, a core information and an extra one.
    - [RecipeCache], [RecipeCacheOk] (bb/cache.py, and [CookerParser] of
      bb/cooker.py): the cache on disk, when a file in it is still valid, and
      how a build loads, parses and writes it.
    - [SharedCaches] (bb/cache.py, bb/checksum.py): caches that the processes
      of a build fill together, and the checksums of local files.
    - [Layers], [LayersOk] (bb/cooker.py): the layers of the configuration
      ([handleCollections]) and the recipe files in them
      ([CookerCollectFiles]).  The stack is a parameter ([depth]), since layers
      may depend on each other in a circle; all else is structural.
    - [Fetch], [FetchOk], [FetchChecked] (bb/fetch2/__init__.py): the addresses
      of sources, their mirrors, and [Fetch.download], which takes every source
      from the first place that has it and checks what it got.  The methods
      (git, wget and the others) are an interface, the file system is a map
      from names to files, directories and links.

    ** What the properties show

    The properties of [Builds] and [PrepareOk] are about whole builds; those
    of [SceneQueue], [TaskGraph], [TaskResolve], [TaskData], [DependsOk],
    [Stamps] and [Sched] give the functional behaviour of one operation, with
    its termination, against a specification that does not mention how the
    code computes it (an inductive relation, a least set, a maximum,
    reachability); those of [Providers], [Versions], [Cache] and [TaskIds] are
    about the functions below. [TargetsOk] says that the task data of a build
    are complete, across configurations, and that making them ends.
    [DataStoreOk] says what a read returns after any number of operations on a
    variable, [DataCopy] that no operation on a copy is seen in the store it
    was made from. [VarDepsOk] says that a base hash is made of exactly the
    variables a task can reach, and [SigGenOk] that after
    [RunQueueData.prepare] the hash of every task is that of its base hash,
    the hashes of its dependencies, its files and its taint. Of recipes:
    [RecipeSyntaxOk] says that what is written is what is read, [AssignOk] and
    [TasksOk] what the statements about a variable and about the tasks come
    to, in any number and order, and [RecipeFilesOk] that the variants of a
    recipe do not see one another. Of their cache: [RecipeCacheOk] says that a
    cached recipe is used exactly if nothing it was made from has changed,
    that the files of the cache read back as written, that a recipe parsed by
    one build is found by the next, and that what is kept can always be
    entered in the tables of [Cache]; [SharedCaches] that merging what the
    processes found keeps the newest of each entry. Of layers: [LayersOk] says
    which priority each gets, which layer a file belongs to, and which of the
    recipe files of one name is used. Of sources: [FetchOk] says that
    addresses round trip and that no mirror leads out of the networks that are
    allowed, [FetchChecked] that a download that returns leaves a file with
    the checksums the recipe gives. Lemmas at the end of the files show by
    example where the code does not do what it means to.

    ** Not modelled

    Processes, pipes and files: the workers, the server, the methods of the
    fetcher and unpacking, the processes that parse, the locks and the watches
    of files, the user interfaces and the queues of events to them; log
    messages, but for the reports about circular dependencies and several
    providers. Of the data store, the histories of variables and included
    files, [expandVarref] and [get_hash]; of bb/data.py, the functions that
    print a store as shell code; of bb/siggen.py, writing and comparing the
    files of signatures and [report_unihash], which runs in the workers. And
    the rest of the tree: class libraries, scripts, tests, vendored and
    generated code. *)

From stdpp Require Export base gmap sets list strings sorting.
From Stdlib Require Export ZArith Lia.

Declare Scope py_scope.
Delimit Scope py_scope with py.
Open Scope py_scope.

Create HintDb pydb.

(** A closed decidable statement, by evaluation. *)
Ltac by_eval := apply (bool_decide_eq_true_1 _); vm_compute; reflexivity.

(** ** Python exceptions *)

(** The exceptions the modelled code raises or lets through.  [Fatal] is
    [bb.fatal] and [bb.msg.fatal]; [OutOfFuel] is not a Python exception: it
    marks a run of the model that used up the fuel it was given, so that a
    theorem can say it does not happen. *)
Inductive exn : Type :=
  | ValueError
  | KeyError
  | IndexError
  | TypeError
  | AttributeError
  | RuntimeError
  | ReError
  | OSError
  | TooManyLoops
  | NotFoundError
  | VersionStringException
  | NoProvider (item : string)
  | NoRProvider (item : string)
  | MultipleRProvider (item : string)
  | ExpansionError
  | RecursionError
  | SelfReference
  | SkipRecipe (why : string)
  | ParseError
  | NothingToBuild
  | CollectionError
  | NoSpecificMatch
  | NameError
  | FileNotFound
  | StaleHandle
  | MalformedUrl
  | UntrustedUrl
  | FetchError
  | ChecksumError (checksum : string)
  | NoChecksumError
  | NoMethodError
  | NonLocalMethod
  | MissingParameterError
  | ParameterError
  | NetworkAccess
  | Fatal
  | OutOfFuel.

#[export] Instance exn_eq_dec : EqDecision exn.
Proof. solve_decision. Defined.

(** ** Lists *)

Lemma elem_of_concat {A} (x : A) (ls : list (list A)) :
  x ∈ List.concat ls ↔ ∃ l, l ∈ ls ∧ x ∈ l.
Proof.
  rewrite list_elem_of_In, in_concat.
  by setoid_rewrite <-list_elem_of_In.
Qed.

Lemma elem_of_map {A B} (f : A → B) (y : B) (l : list A) :
  y ∈ List.map f l ↔ ∃ x, y = f x ∧ x ∈ l.
Proof. apply list_elem_of_fmap. Qed.

Lemma snoc_ne {A} (l : list A) x : l ++ [x] ≠ [].
Proof. by destruct l. Qed.

Lemma StronglySorted_app_2 {A} (R : A → A → Prop) l1 l2 :
  StronglySorted R l1 → StronglySorted R l2 → (∀ x y, x ∈ l1 → y ∈ l2 → R x y) →
  StronglySorted R (l1 ++ l2).
Proof.
  intros H1 H2. induction H1 as [|x l1 H1 IH Hx]; simpl; intros H; [done|].
  constructor.
  - apply IH. intros; apply H; [by apply list_elem_of_further|done].
  - apply Forall_app. split; [done|]. apply Forall_forall. intros. apply H; [apply list_elem_of_here|done].
Qed.

(** ** Results of code that can raise *)

Inductive res (A : Type) : Type :=
  | Ok (a : A)
  | Raise (e : exn).
Arguments Ok {A} a.
Arguments Raise {A} e.

#[export] Instance res_eq_dec `{EqDecision A} : EqDecision (res A).
Proof. solve_decision. Defined.

#[export] Instance res_ret : MRet res := λ A a, Ok a.
#[export] Instance res_bind : MBind res := λ A B f m,
  match m with Ok a => f a | Raise e => Raise e end.
#[export] Instance res_fmap : FMap res := λ A B f m,
  match m with Ok a => Ok (f a) | Raise e => Raise e end.

(** [x = d[k]]: a missing value raises [e]. *)
Definition of_option {A} (e : exn) (o : option A) : res A :=
  match o with Some a => Ok a | None => Raise e end.

Definition is_Ok {A} (r : res A) : Prop := ∃ a, r = Ok a.

Lemma of_option_Ok {A} e (o : option A) a : of_option e o = Ok a ↔ o = Some a.
Proof. destruct o; simpl; split; congruence. Qed.

Lemma res_bind_Ok {A B} (m : res A) (f : A → res B) b :
  m ≫= f = Ok b ↔ ∃ a, m = Ok a ∧ f a = Ok b.
Proof.
  destruct m; simpl; split; [eauto|by intros (? & [= ->] & ?)|done|].
  by intros (? & ? & ?).
Qed.

(** [for x in l: acc = f(acc, x)], where [f] can raise. *)
Fixpoint fold_res {A B} (f : A → B → res A) (acc : A) (l : list B) : res A :=
  match l with
  | [] => Ok acc
  | x :: l => acc ← f acc x; fold_res f acc l
  end.

Lemma fold_res_ind {A B} (P : A → Prop) (f : A → B → res A) acc l acc' :
  P acc → (∀ a x a', x ∈ l → P a → f a x = Ok a' → P a') →
  fold_res f acc l = Ok acc' → P acc'.
Proof.
  revert acc. induction l as [|x l IH]; simpl; intros acc H0 Hstep.
  { by intros [= <-]. }
  destruct (f acc x) as [a|] eqn:E; simpl; [|done].
  apply IH; [|intros; eapply Hstep; eauto; by apply list_elem_of_further].
  eapply Hstep; eauto. apply list_elem_of_here.
Qed.

Lemma fold_res_app {A B} (f : A → B → res A) acc l1 l2 :
  fold_res f acc (l1 ++ l2) = fold_res f acc l1 ≫= λ a, fold_res f a l2.
Proof.
  revert acc. induction l1 as [|x l1 IH]; intros acc; [done|]. simpl.
  destruct (f acc x); simpl; [apply IH|done].
Qed.

(** A fold whose body never raises is a left fold. *)
Lemma fold_res_pure {A B} (f : A → B → res A) (g : A → B → A) acc l :
  (∀ a x, x ∈ l → f a x = Ok (g a x)) → fold_res f acc l = Ok (foldl g acc l).
Proof.
  revert acc. induction l as [|x l IH]; intros acc H; [done|]. simpl.
  rewrite H by apply list_elem_of_here. simpl. apply IH. intros.
  apply H. by apply list_elem_of_further.
Qed.

Fixpoint map_res {A B} (f : A → res B) (l : list A) : res (list B) :=
  match l with
  | [] => Ok []
  | x :: l => y ← f x; l ← map_res f l; Ok (y :: l)
  end.

(** ** Reading the metadata

    The components read configuration variables through [cfgData.getVar];
    what they rely on is only this operation, which can raise. *)
Class DataStore (D : Type) : Type := {
  ds_getVar : D → string → res (option string)
}.

(** [not x] for a variable's value: unset or empty. *)
Definition unset (v : option string) : bool :=
  match v with None | Some "" => true | _ => false end.

(** ** State and exceptions

    A Python method that mutates [self] and can raise is a function from the
    state to the new state and a result: the writes made before an exception
    stay, as in Python. *)

Definition M (S A : Type) : Type := S → S * res A.

#[export] Instance M_ret {S} : MRet (M S) := λ A a s, (s, Ok a).
#[export] Instance M_bind {S} : MBind (M S) := λ A B f m s,
  match m s with
  | (s', Ok a) => f a s'
  | (s', Raise e) => (s', Raise e)
  end.

Definition get {S} : M S S := λ s, (s, Ok s).
Definition gets {S A} (f : S → A) : M S A := λ s, (s, Ok (f s)).
Definition modify {S} (f : S → S) : M S unit := λ s, (f s, Ok tt).
Definition raise {S A} (e : exn) : M S A := λ s, (s, Raise e).
Definition lift {S A} (r : res A) : M S A := λ s, (s, r).

(** [try: m except e if p e: h e] *)
Definition catch {S A} (m : M S A) (p : exn → bool) (h : exn → M S A) : M S A :=
  λ s, match m s with
       | (s', Raise e) => if p e then h e s' else (s', Raise e)
       | r => r
       end.

(** [for x in l: f x] *)
Fixpoint for_each {S A} (l : list A) (f : A → M S unit) : M S unit :=
  match l with
  | [] => mret tt
  | x :: l => f x ≫= λ _, for_each l f
  end.

(** A loop with an accumulator, and a list comprehension. *)
Fixpoint fold_state {S A B} (f : A → B → M S A) (acc : A) (l : list B) : M S A :=
  match l with
  | [] => mret acc
  | x :: l => f acc x ≫= λ acc, fold_state f acc l
  end.

Fixpoint map_state {S A B} (f : A → M S B) (l : list A) : M S (list B) :=
  match l with
  | [] => mret []
  | x :: l => f x ≫= λ y, map_state f l ≫= λ l, mret (y :: l)
  end.

Lemma get_bind {S B} (f : S → M S B) s : (get ≫= f) s = f s s.
Proof. done. Qed.

Lemma modify_bind {S B} (g : S → S) (f : unit → M S B) s : (modify g ≫= f) s = f tt (g s).
Proof. done. Qed.

Lemma lift_bind {S A B} (r : res A) (f : A → M S B) s :
  (lift r ≫= f) s = match r with Ok a => f a s | Raise e => (s, Raise e) end.
Proof. done. Qed.

Lemma M_bind_eq {S A B} (m : M S A) (f : A → M S B) s :
  (m ≫= f) s = match m s with (s', Ok a) => f a s' | (s', Raise e) => (s', Raise e) end.
Proof. done. Qed.

(** What a run of [m] from a state satisfying [P] does: it returns with [Q]
    between the two states, or raises an exception satisfying [E]. *)
Definition triple {S A} (P : S → Prop) (m : M S A) (Q : S → A → S → Prop) (E : exn → Prop) : Prop :=
  ∀ s, P s → match m s with
             | (s', Ok a) => Q s a s'
             | (_, Raise e) => E e
             end.

Lemma triple_bind {S A B} (P : S → Prop) (m : M S A) (f : A → M S B) Q1 (P2 : A → S → Prop) Q2 Q E :
  triple P m Q1 E → (∀ a, triple (P2 a) (f a) (Q2 a) E) →
  (∀ s a s', P s → Q1 s a s' → P2 a s') →
  (∀ s a s' b s'', P s → Q1 s a s' → Q2 a s' b s'' → Q s b s'') →
  triple P (m ≫= f) Q E.
Proof.
  intros Hm Hf HP HQ s Hs. specialize (Hm s Hs). unfold mbind, M_bind.
  destruct (m s) as [s' [a|e]]; [|done].
  specialize (Hf a s' (HP _ _ _ Hs Hm)). destruct (f a s') as [s'' [b|e]]; eauto.
Qed.

(** A loop whose body relates the states by a preorder [R] that keeps the
    loop's invariant and what was established for the earlier elements. *)
Lemma triple_for_each {S A} (I : S → Prop) (R : S → S → Prop) (Q : A → S → Prop) E l (f : A → M S unit) :
  (∀ s, R s s) → (∀ a b c, R a b → R b c → R a c) →
  (∀ s s', I s → R s s' → I s') → (∀ x s s', Q x s → R s s' → Q x s') →
  (∀ x, x ∈ l → triple I (f x) (λ s _ s', R s s' ∧ Q x s') E) →
  triple I (for_each l f) (λ s _ s', R s s' ∧ ∀ x, x ∈ l → Q x s') E.
Proof.
  intros Hrefl Htrans HI HQ. induction l as [|x l IH]; intros Hf s Hs; simpl.
  { split; [apply Hrefl|]. by intros ? ?%elem_of_nil. }
  unfold mbind, M_bind. pose proof (Hf x (list_elem_of_here _ _) s Hs) as Hx.
  destruct (f x s) as [s1 [[]|e]]; [|done]. destruct Hx as [HR Hx].
  assert (∀ x, x ∈ l → triple I (f x) (λ s _ s', R s s' ∧ Q x s') E) as Hf'
    by (intros; apply Hf; by apply list_elem_of_further).
  specialize (IH Hf' s1 (HI _ _ Hs HR)).
  destruct (for_each l f s1) as [s2 [[]|e]]; [|done]. destruct IH as [HR2 Hl].
  split; [by eapply Htrans|]. intros y [->|Hy]%elem_of_cons; [by eapply HQ|by apply Hl].
Qed.

(** [m] keeps the invariant [P] and relates the states by [R], whether it
    returns or raises, and raises only exceptions in [E]. *)
Definition always {S A} (P : S → Prop) (R : S → S → Prop) (E : exn → Prop) (m : M S A) : Prop :=
  ∀ s, P s → P (m s).1 ∧ R s (m s).1 ∧ match (m s).2 with Ok _ => True | Raise e => E e end.

Section always.
Context {S : Type} (P : S → Prop) (R : S → S → Prop) (E : exn → Prop) `{!PreOrder R}.

Lemma always_bind {A B} (m : M S A) (f : A → M S B) :
  always P R E m → (∀ a, always P R E (f a)) → always P R E (m ≫= f).
Proof.
  intros Hm Hf s Hs. rewrite M_bind_eq. destruct (Hm s Hs) as (H1 & H2 & H3).
  destruct (m s) as [s1 [a|e]]; [|done]. simpl in *. destruct (Hf a s1 H1) as (? & ? & ?).
  split; [done|]. split; [by etrans|done].
Qed.

Lemma always_ret {A} (a : A) : always P R E (mret a).
Proof. intros s Hs. split; [done|]. by split. Qed.

Lemma always_raise {A} e : E e → always P R E (raise (A := A) e).
Proof. intros He s Hs. split; [done|]. by split. Qed.

Lemma always_lift {A} (r : res A) : (∀ e, r = Raise e → E e) → always P R E (lift r).
Proof. intros He s Hs. split; [done|]. split; [done|]. simpl. destruct r; [done|by apply He]. Qed.

Lemma always_get : always P R E get.
Proof. intros s Hs. split; [done|]. by split. Qed.

Lemma always_for_each {A} (l : list A) (f : A → M S unit) :
  (∀ x, x ∈ l → always P R E (f x)) → always P R E (for_each l f).
Proof.
  induction l as [|x l IH]; intros Hf; simpl; [apply always_ret|].
  apply always_bind; [apply Hf, list_elem_of_here|]. intros _. apply IH.
  intros. apply Hf. by apply list_elem_of_further.
Qed.

Lemma always_catch {A} (m : M S A) p h (E' : exn → Prop) :
  always P R E' m → (∀ e, E' e → p e = false → E e) → (∀ e, always P R E (h e)) →
  always P R E (catch m p h).
Proof.
  intros Hm HE Hh s Hs. unfold catch. destruct (Hm s Hs) as (H1 & H2 & H3).
  destruct (m s) as [s1 [a|e]]; [done|]. simpl in *. destruct (p e) eqn:Ep; [|split; [done|split; [done|by apply HE]]].
  destruct (Hh e s1 H1) as (? & ? & ?). split; [done|]. split; [by etrans|done].
Qed.
End always.

(** ** Iterating Python sets

    A Python set is a [gset]; the order in which [for x in s] visits it is
    not specified by the language (string hashes are salted per process), so
    code that iterates a set is modelled over a [SetOrder]: some enumeration
    of every set.  A theorem with a [SetOrder] argument holds for all of
    them; [set_order_elements] is the one the examples compute with. *)
Class SetOrder (K : Type) `{Countable K} : Type := {
  set_iter : gset K → list K;
  set_iter_perm : ∀ s, set_iter s ≡ₚ elements s
}.

Lemma elem_of_set_iter `{SetOrder K} (s : gset K) x : x ∈ set_iter s ↔ x ∈ s.
Proof. by rewrite set_iter_perm, elem_of_elements. Qed.

Lemma NoDup_set_iter `{SetOrder K} (s : gset K) : NoDup (set_iter s).
Proof. rewrite set_iter_perm. apply NoDup_elements. Qed.

Definition set_order_elements `{Countable K} : SetOrder K :=
  {| set_iter := elements; set_iter_perm := λ s, reflexivity _ |}.
