(* ===== verification/PyStr.v ===== *)
(** * Python [str] operations

    The string methods the modelled code calls, on [string]: a Python string
    whose code points are below 128 is the Rocq string of the same
    characters.  Each operation is executable and comes with the laws the
    components use: splitting and joining are inverse, [rsplit] cuts at the
    last separator, [startswith] and [endswith] agree with concatenation. *)

From S2P Require Import Prelude.
From Stdlib Require Import Ascii String.

Open Scope list_scope.
Open Scope py_scope.

Abbreviation char := Ascii.ascii.

Definition code (c : char) : N := Ascii.N_of_ascii c.

Definition is_digit (c : char) : bool := ((48 <=? code c) && (code c <=? 57))%N.
Definition is_upper (c : char) : bool := ((65 <=? code c) && (code c <=? 90))%N.
Definition is_lower (c : char) : bool := ((97 <=? code c) && (code c <=? 122))%N.
Definition is_letter (c : char) : bool := is_upper c || is_lower c.

(** The ASCII characters [str.split()] and [str.strip()] take as whitespace. *)
Definition is_space (c : char) : bool :=
  ((9 <=? code c) && (code c <=? 13) || (28 <=? code c) && (code c <=? 32))%N.

Definition newline : char := "010"%char.

(** [s1 + s2] *)
Infix "+s+" := String.append (at level 60, right associativity) : py_scope.

#[global] Arguments String.append !s1 s2 /.

(** A one-character string. *)
Definition str1 (c : char) : string := String c "".

(** Membership of a character, [c in s]. *)
Fixpoint char_in (c : char) (s : string) : bool :=
  match s with
  | "" => false
  | String a s => Ascii.eqb a c || char_in c s
  end.

(** [all(p(c) for c in s)] *)
Fixpoint str_all (p : char → bool) (s : string) : bool :=
  match s with
  | "" => true
  | String a s => p a && str_all p s
  end.

(** The longest prefix whose characters satisfy [p], and the rest. *)
Fixpoint span (p : char → bool) (s : string) : string * string :=
  match s with
  | "" => ("", "")
  | String a s' =>
      if p a then let '(l, r) := span p s' in (String a l, r) else ("", s)
  end.

(** ** Splitting and joining *)

Fixpoint split_pred (p : char → bool) (s : string) : list string :=
  match s with
  | "" => [""]
  | String a s =>
      if p a then "" :: split_pred p s
      else match split_pred p s with
           | [] => [str1 a]
           | w :: ws => String a w :: ws
           end
  end.

(** [s.split(c)] for a one-character separator. *)
Definition split_on (c : char) (s : string) : list string :=
  split_pred (Ascii.eqb c) s.

Definition str_empty (s : string) : bool :=
  match s with "" => true | _ => false end.

(** [s.split()]: the non-empty runs between whitespace. *)
Definition split_ws (s : string) : list string :=
  List.filter (λ w, negb (str_empty w)) (split_pred is_space s).

(** [sep.join(l)] *)
Fixpoint join (sep : string) (l : list string) : string :=
  match l with
  | [] => ""
  | [w] => w
  | w :: ws => w +s+ sep +s+ join sep ws
  end.

(** [s.rsplit(c, 1)] is [[l; r]] when this is [Some (l, r)], [[s]] otherwise. *)
Fixpoint rsplit1 (c : char) (s : string) : option (string * string) :=
  match s with
  | "" => None
  | String a s' =>
      match rsplit1 c s' with
      | Some (l, r) => Some (String a l, r)
      | None => if Ascii.eqb a c then Some ("", s') else None
      end
  end.

(** [s.split(c, 1)], the cut at the first occurrence. *)
Fixpoint split1 (c : char) (s : string) : option (string * string) :=
  match s with
  | "" => None
  | String a s' =>
      if Ascii.eqb a c then Some ("", s')
      else match split1 c s' with
           | Some (l, r) => Some (String a l, r)
           | None => None
           end
  end.

(** ** Prefixes and suffixes *)

Definition startswith (s p : string) : bool := String.prefix p s.

Fixpoint endswith (s suf : string) : bool :=
  String.eqb s suf ||
  match s with
  | "" => false
  | String _ s' => endswith s' suf
  end.

(** [s[n:]] and [s[:n]] for [n >= 0]. *)
Fixpoint str_drop (n : nat) (s : string) : string :=
  match n, s with
  | O, _ => s
  | S n, "" => ""
  | S n, String _ s => str_drop n s
  end.

Fixpoint str_take (n : nat) (s : string) : string :=
  match n, s with
  | O, _ => ""
  | S n, "" => ""
  | S n, String a s => String a (str_take n s)
  end.

(** [s[:-n]] for [n > 0]. *)
Definition str_drop_last (n : nat) (s : string) : string :=
  str_take (String.length s - n) s.

(** [s.lstrip(chars)], [s.rstrip(chars)], [s.strip(chars)]. *)
Fixpoint lstrip (p : char → bool) (s : string) : string :=
  match s with
  | "" => ""
  | String a s' => if p a then lstrip p s' else s
  end.

Fixpoint rstrip (p : char → bool) (s : string) : string :=
  match s with
  | "" => ""
  | String a s' =>
      match rstrip p s' with
      | "" => if p a then "" else str1 a
      | r => String a r
      end
  end.

Definition strip (p : char → bool) (s : string) : string := rstrip p (lstrip p s).

(** [s.replace(c, "")] for a one-character string. *)
Fixpoint remove_char (c : char) (s : string) : string :=
  match s with
  | "" => ""
  | String a s => if Ascii.eqb a c then remove_char c s else String a (remove_char c s)
  end.

(** [s.replace(old, new)] with a non-empty [old]; [skip] counts the
    characters of a match still to be passed over. *)
Fixpoint replace_go (old new : string) (skip : nat) (s : string) : string :=
  match s with
  | "" => ""
  | String a s' =>
      match skip with
      | S k => replace_go old new k s'
      | O =>
          if String.prefix old s
          then new +s+ replace_go old new (String.length old - 1) s'
          else String a (replace_go old new 0 s')
      end
  end.

Definition replace (s old new : string) : string := replace_go old new 0 s.

(** ** Integers *)

Definition digit_val (c : char) : N := (code c - 48)%N.

(** [int(s)] of a string of decimal digits. *)
Fixpoint digits_val (acc : N) (s : string) : N :=
  match s with
  | "" => acc
  | String a s => digits_val (acc * 10 + digit_val a)%N s
  end.

(** Digits with single underscores between them, as [int] reads them. *)
Fixpoint int_body (acc : N) (last_digit : bool) (s : string) : option N :=
  match s with
  | "" => if last_digit then Some acc else None
  | String a s =>
      if is_digit a then int_body (acc * 10 + digit_val a)%N true s
      else if Ascii.eqb a "_" && last_digit
           then int_body acc false s else None
  end.

(** [int(s)]: surrounding whitespace, an optional sign, then the digits. *)
Definition py_int (s : string) : res Z :=
  let s := strip is_space s in
  let '(neg, s) :=
    match s with
    | String "-" s' => (true, s')
    | String "+" s' => (false, s')
    | _ => (false, s)
    end in
  match int_body 0 false s with
  | Some n => Ok (if neg then - Z.of_N n else Z.of_N n)%Z
  | None => Raise ValueError
  end.

(** [s1 < s2] on strings: lexicographic on code points. *)
Definition str_lt (s1 s2 : string) : bool := String.ltb s1 s2.

(** [sorted(l)] on strings. *)
Definition py_sorted (l : list string) : list string := merge_sort String.le l.

(** ** Laws *)

Lemma app_empty_r s : s +s+ "" = s.
Proof. induction s; simpl; congruence. Qed.

Lemma app_str_assoc a b c : (a +s+ b) +s+ c = a +s+ b +s+ c.
Proof. induction a; simpl; congruence. Qed.

Lemma app_str_inj_l a b c : a +s+ b = a +s+ c → b = c.
Proof. induction a as [|x a IH]; cbn; [done|]. intros [= H]. by apply IH. Qed.

Lemma length_app_str a b : String.length (a +s+ b) = String.length a + String.length b.
Proof. induction a; simpl; congruence. Qed.

Lemma char_in_app c a b : char_in c (a +s+ b) = char_in c a || char_in c b.
Proof. induction a; simpl; [done|]. rewrite IHa. apply orb_assoc. Qed.

Lemma str_all_app p a b : str_all p (a +s+ b) = str_all p a && str_all p b.
Proof. induction a; simpl; [done|]. rewrite IHa. apply andb_assoc. Qed.

(** A word: no character satisfying [p]. *)
Abbreviation no_char p := (str_all (λ c, negb (p c))).

Lemma no_char_in c s : char_in c s = false ↔ no_char (Ascii.eqb c) s = true.
Proof.
  induction s as [|a s IH]; simpl; [done|].
  rewrite orb_false_iff, andb_true_iff, IH, negb_true_iff.
  by rewrite (Ascii.eqb_sym a c).
Qed.

Lemma split_pred_word p w : no_char p w = true → split_pred p w = [w].
Proof.
  induction w as [|a w IH]; simpl; [done|].
  intros [Ha%negb_true_iff Hw]%andb_true_iff. by rewrite Ha, IH.
Qed.

Lemma split_pred_cons p w c s :
  no_char p w = true → p c = true →
  split_pred p (w +s+ String c s) = w :: split_pred p s.
Proof.
  intros Hw Hc. induction w as [|a w IH]; simpl in *; [by rewrite Hc|].
  apply andb_true_iff in Hw as [Ha%negb_true_iff Hw]. by rewrite Ha, IH.
Qed.

(** [c.join(l).split(c) == l] when no element holds the separator. *)
Lemma split_pred_join p c ws :
  p c = true → ws ≠ [] → Forall (λ w, no_char p w = true) ws →
  split_pred p (join (str1 c) ws) = ws.
Proof.
  intros Hc Hne Hws. destruct ws as [|w ws]; [done|]. clear Hne.
  revert w Hws. induction ws as [|w' ws IH]; intros w Hws;
    inversion Hws as [|?? Hw Hws']; subst.
  - by apply split_pred_word.
  - change (join (str1 c) (w :: w' :: ws)) with (w +s+ String c (join (str1 c) (w' :: ws))).
    rewrite split_pred_cons by done. f_equal. by apply IH.
Qed.

Lemma split_on_join c ws :
  ws ≠ [] → Forall (λ w, char_in c w = false) ws →
  split_on c (join (str1 c) ws) = ws.
Proof.
  intros Hne Hws. apply split_pred_join; [by rewrite Ascii.eqb_refl|done|].
  eapply Forall_impl; [exact Hws|]. intros w. apply no_char_in.
Qed.

Lemma split_pred_ne p s : split_pred p s ≠ [].
Proof.
  destruct s as [|a s]; simpl; [done|]. destruct (p a); [done|].
  by destruct (split_pred p s).
Qed.

(** [c.join(s.split(c)) == s] *)
Lemma join_split_on c s : join (str1 c) (split_on c s) = s.
Proof.
  unfold split_on. induction s as [|a s IH]; simpl; [done|].
  pose proof (split_pred_ne (Ascii.eqb c) s) as Hne.
  destruct (Ascii.eqb_spec c a) as [<-|Hca].
  - destruct (split_pred (Ascii.eqb c) s) as [|w ws]; [done|]. simpl in *. by rewrite IH.
  - destruct (split_pred (Ascii.eqb c) s) as [|w ws]; [done|].
    destruct ws; simpl in *; by rewrite IH.
Qed.

Lemma str_app_nil_r s : s +s+ "" = s.
Proof. induction s as [|a s IH]; [done|]. cbn. by rewrite IH. Qed.

(** A word that [split_ws] yields. *)
Definition is_word (w : string) : Prop := w ≠ "" ∧ no_char is_space w = true.

Lemma split_ws_join ws : Forall is_word ws → split_ws (join " " ws) = ws.
Proof.
  intros Hws. unfold split_ws. destruct ws as [|w ws]; [done|].
  change " " with (str1 " "). rewrite split_pred_join; [|done|done|].
  - induction Hws as [|? l [Hne _] Hws' IH]; simpl; [done|].
    destruct x; [done|]. simpl. by rewrite IH.
  - eapply Forall_impl; [exact Hws|]. by intros ? [_ ?].
Qed.

Lemma split_ws_words s : Forall is_word (split_ws s).
Proof.
  unfold split_ws.
  assert (Forall (λ w, no_char is_space w = true) (split_pred is_space s)) as H.
  { induction s as [|a s IH]; simpl; [by constructor|].
    destruct (is_space a) eqn:Ea; [by constructor|].
    destruct (split_pred is_space s); inversion IH; subst; constructor; simpl;
      rewrite ?Ea; simpl; auto. }
  induction H as [|w l Hw _ IH]; simpl; [done|].
  destruct w; simpl; [done|]. constructor; [by split|done].
Qed.

Lemma remove_char_app c a b : remove_char c (a +s+ b) = remove_char c a +s+ remove_char c b.
Proof. induction a as [|x a IH]; simpl; [done|]. destruct (Ascii.eqb x c); simpl; congruence. Qed.

Lemma remove_char_id c s : char_in c s = false → remove_char c s = s.
Proof.
  induction s as [|a s IH]; simpl; [done|]. intros [-> Hs]%orb_false_iff. by rewrite IH.
Qed.

Lemma join_cons sep w ws : ws ≠ [] → join sep (w :: ws) = w +s+ sep +s+ join sep ws.
Proof. by destruct ws. Qed.

Lemma join_app sep l1 l2 :
  l1 ≠ [] → l2 ≠ [] → join sep (l1 ++ l2) = join sep l1 +s+ sep +s+ join sep l2.
Proof.
  intros H1 H2. induction l1 as [|w l1 IH]; [done|].
  destruct l1 as [|w' l1].
  - change ([w] ++ l2) with (w :: l2). by rewrite join_cons.
  - change ((w :: w' :: l1) ++ l2) with (w :: (w' :: l1) ++ l2).
    rewrite join_cons by (by destruct l1).
    rewrite IH by done. rewrite (join_cons sep w (w' :: l1)) by done.
    by rewrite !app_str_assoc.
Qed.

(** Joining joined groups is joining the concatenation. *)
Lemma join_concat sep (wss : list (list string)) :
  Forall (λ ws, ws ≠ []) wss → join sep (join sep <$> wss) = join sep (List.concat wss).
Proof.
  induction 1 as [|ws wss Hws Hwss IH]; [done|].
  change (List.concat (ws :: wss)) with (ws ++ List.concat wss).
  change (join sep <$> ws :: wss) with (join sep ws :: (join sep <$> wss)).
  destruct Hwss as [|ws' wss Hws' Hwss].
  - simpl. by rewrite app_nil_r.
  - rewrite join_cons by done. rewrite IH.
    rewrite join_app; [done|done|]. simpl. by destruct ws'.
Qed.

Lemma endswith_spec s suf : endswith s suf = true ↔ ∃ p, s = p +s+ suf.
Proof.
  split.
  - induction s as [|a s IH]; cbn [endswith]; rewrite orb_true_iff, String.eqb_eq.
    + intros [<-|?]; [by exists ""|done].
    + intros [<-|H]; [by exists ""|]. destruct (IH H) as [p ->]. by exists (String a p).
  - intros [p ->]. induction p as [|a p IH].
    + change ("" +s+ suf) with suf. destruct suf; cbn [endswith]; by rewrite String.eqb_refl.
    + change (String a p +s+ suf) with (String a (p +s+ suf)). cbn [endswith].
      apply orb_true_iff. auto.
Qed.

Lemma startswith_spec s p : startswith s p = true ↔ ∃ r, s = p +s+ r.
Proof.
  unfold startswith. revert s. induction p as [|a p IH]; intros s; cbn [String.prefix].
  { split; [by exists s|by destruct s]. }
  destruct s as [|b s]; [split; [done|by intros [? ?]]|].
  destruct (Ascii.ascii_dec a b) as [->|Hab].
  - cbn [String.prefix]. destruct (Ascii.ascii_dec b b) as [_|]; [|done]. rewrite IH.
    split; intros [r H]; exists r; simpl in *; congruence.
  - cbn [String.prefix]. destruct (Ascii.ascii_dec a b); [done|].
    split; [done|]. intros [r H]. simpl in H. congruence.
Qed.

Lemma str_take_app a b : str_take (String.length a) (a +s+ b) = a.
Proof. induction a; simpl; [by destruct b|congruence]. Qed.

Lemma str_drop_app a b : str_drop (String.length a) (a +s+ b) = b.
Proof. induction a; simpl; [by destruct b|done]. Qed.

Lemma str_drop_last_app a b : str_drop_last (String.length b) (a +s+ b) = a.
Proof.
  unfold str_drop_last. rewrite length_app_str.
  replace (String.length a + String.length b - String.length b) with (String.length a) by lia.
  apply str_take_app.
Qed.

Lemma rsplit1_app c l r :
  char_in c r = false → rsplit1 c (l +s+ String c r) = Some (l, r).
Proof.
  intros Hr. assert (rsplit1 c r = None) as HN.
  { induction r as [|a r IH]; simpl in *; [done|].
    apply orb_false_iff in Hr as [Ha Hr]. rewrite IH by done. by rewrite Ha. }
  induction l as [|a l IH]; simpl.
  - rewrite HN. by rewrite Ascii.eqb_refl.
  - by rewrite IH.
Qed.

Lemma rsplit1_Some c s l r :
  rsplit1 c s = Some (l, r) → s = l +s+ String c r ∧ char_in c r = false.
Proof.
  assert (Hnone : ∀ s, rsplit1 c s = None → char_in c s = false).
  { induction s0 as [|a s0 IH]; simpl; [done|]. destruct (rsplit1 c s0) as [[??]|]; [done|].
    destruct (Ascii.eqb a c); [done|]. intros. by apply IH. }
  revert l r. induction s as [|a s IH]; simpl; [done|]. intros l r.
  destruct (rsplit1 c s) as [[l' r']|] eqn:E.
  - intros [= <- <-]. destruct (IH _ _ eq_refl) as [-> ?]. done.
  - destruct (Ascii.eqb_spec a c) as [->|]; [|done]. intros [= <- <-]. auto.
Qed.

Lemma rsplit1_None c s : rsplit1 c s = None ↔ char_in c s = false.
Proof.
  induction s as [|a s IH]; simpl; [done|].
  destruct (rsplit1 c s) as [[??]|].
  - split; [done|]. intros [_ H]%orb_false_iff. by apply IH in H.
  - destruct (Ascii.eqb a c); simpl; [done|]. by rewrite <-IH.
Qed.

Lemma remove_char_join c sep l :
  remove_char c (join sep l) = join (remove_char c sep) (remove_char c <$> l).
Proof.
  induction l as [|w l IH]; [done|]. destruct l as [|w' l]; [done|].
  rewrite join_cons by done. rewrite !remove_char_app, IH. done.
Qed.

Lemma is_word_app a b : is_word a → no_char is_space b = true → is_word (a +s+ b).
Proof.
  intros [Hne Ha] Hb. split; [by destruct a|]. by rewrite str_all_app, Ha, Hb.
Qed.

Lemma split1_app c l r : char_in c l = false → split1 c (l +s+ String c r) = Some (l, r).
Proof.
  induction l as [|a l IH]; simpl; [by rewrite Ascii.eqb_refl|].
  intros [-> H]%orb_false_iff. by rewrite IH.
Qed.

Lemma startswith_app s r : startswith (s +s+ r) s = true.
Proof. apply startswith_spec. eauto. Qed.

Lemma split_on_app c a b : split_on c (a +s+ String c b) = split_on c a ++ split_on c b.
Proof.
  unfold split_on. induction a as [|x a IH]; simpl.
  - by rewrite Ascii.eqb_refl.
  - destruct (Ascii.eqb c x); simpl; [by rewrite IH|].
    rewrite IH. pose proof (split_pred_ne (Ascii.eqb c) a).
    by destruct (split_pred (Ascii.eqb c) a).
Qed.

Lemma split_on_word c w : char_in c w = false → split_on c w = [w].
Proof. intros. by apply split_pred_word, no_char_in. Qed.

Lemma py_sorted_perm l : py_sorted l ≡ₚ l.
Proof. apply merge_sort_Permutation. Qed.

Lemma string_compare_refl s : String.compare s s = Eq.
Proof.
  induction s as [|a s IH]; simpl; [done|].
  unfold Ascii.compare. by rewrite N.compare_refl.
Qed.

Lemma string_compare_lt_trans s1 s2 s3 :
  String.compare s1 s2 = Lt → String.compare s2 s3 = Lt → String.compare s1 s3 = Lt.
Proof.
  revert s2 s3. induction s1 as [|a1 s1 IH]; intros [|a2 s2] [|a3 s3]; simpl; try done.
  destruct (Ascii.compare a1 a2) eqn:E12; try done;
    destruct (Ascii.compare a2 a3) eqn:E23; try done; intros;
    repeat match goal with
    | H : Ascii.compare _ _ = Eq |- _ => apply Ascii.compare_eq_iff in H as ->
    end.
  - unfold Ascii.compare. rewrite N.compare_refl. eauto.
  - by rewrite E23.
  - by rewrite E12.
  - assert (Ascii.compare a1 a3 = Lt) as ->; [|done].
    unfold Ascii.compare in *. rewrite N.compare_lt_iff in *. lia.
Qed.

Lemma str_lt_spec s1 s2 : str_lt s1 s2 = true ↔ String.compare s1 s2 = Lt.
Proof. unfold str_lt, String.ltb. by destruct (String.compare s1 s2). Qed.
