(* ===== verification/PyDict.v ===== *)
(** * Python dictionaries

    A [dict] keeps its keys in insertion order, and the modelled code iterates
    dictionaries, so a dictionary is an association list in that order.
    [dset] on a present key updates in place, on a new key appends;
    well-formedness ([dict_wf]) says no key occurs twice, and every operation
    preserves it. *)

From S2P Require Import Prelude.

Section dict.
Context {K V : Type} `{EqDecision K}.
Implicit Types (d : list (K * V)) (k : K) (v : V).

Definition dict_wf d : Prop := NoDup d.*1.

(** [d.get(k)] *)
Fixpoint dget d k : option V :=
  match d with
  | [] => None
  | (k', v) :: d => if decide (k' = k) then Some v else dget d k
  end.

(** [d[k] = v] *)
Fixpoint dset d k v : list (K * V) :=
  match d with
  | [] => [(k, v)]
  | (k', v') :: d => if decide (k' = k) then (k, v) :: d else (k', v') :: dset d k v
  end.

(** [del d[k]], on a present key. *)
Fixpoint ddel d k : list (K * V) :=
  match d with
  | [] => []
  | (k', v') :: d => if decide (k' = k) then d else (k', v') :: ddel d k
  end.

(** [k in d] *)
Definition dmem d k : bool := match dget d k with Some _ => true | None => false end.

(** [d.keys()] *)
Definition dkeys d : list K := d.*1.

(** [d.setdefault(k, v)] followed by [d[k] = f(d[k])]. *)
Definition dupdate (dflt : V) (f : V → V) d k : list (K * V) :=
  dset d k (f (default dflt (dget d k))).

Lemma dget_nil k : dget [] k = None.
Proof. done. Qed.

Lemma dget_dset_eq d k v : dget (dset d k v) k = Some v.
Proof.
  induction d as [|[k' v'] d IH]; simpl; [by rewrite decide_True|].
  case_decide as Hk; simpl; [by rewrite decide_True|].
  by rewrite decide_False.
Qed.

Lemma dget_dset_ne d k k' v : k ≠ k' → dget (dset d k v) k' = dget d k'.
Proof.
  intros Hne. induction d as [|[k0 v0] d IH]; simpl; [by rewrite decide_False|].
  case_decide; simplify_eq; simpl; [by rewrite !decide_False|].
  case_decide; done.
Qed.

Lemma dget_dset d k k' v :
  dget (dset d k v) k' = if decide (k = k') then Some v else dget d k'.
Proof.
  case_decide; subst; [apply dget_dset_eq|by apply dget_dset_ne].
Qed.

Lemma elem_of_dkeys d k : k ∈ dkeys d ↔ is_Some (dget d k).
Proof.
  induction d as [|[k' v'] d IH]; simpl.
  { split; [by intros ?%elem_of_nil|by intros [? ?]]. }
  unfold dkeys in *. simpl. rewrite elem_of_cons, IH.
  case_decide; subst; split; eauto. intros [->|?]; done.
Qed.

Lemma dget_None d k : dget d k = None ↔ k ∉ dkeys d.
Proof. rewrite elem_of_dkeys, eq_None_not_Some. done. Qed.

Lemma dmem_spec d k : dmem d k = true ↔ k ∈ dkeys d.
Proof.
  rewrite elem_of_dkeys. unfold dmem. destruct (dget d k); split; eauto.
  - discriminate.
  - intros [? ?]; done.
Qed.

Lemma dmem_false d k : dmem d k = false ↔ k ∉ dkeys d.
Proof. rewrite <-dmem_spec. destruct (dmem d k); split; congruence. Qed.

Lemma dget_elem_of d k v : dget d k = Some v → (k, v) ∈ d.
Proof.
  induction d as [|[k' v'] d IH]; simpl; [done|].
  case_decide; [intros [= ->]; subst; apply list_elem_of_here|].
  intros. apply list_elem_of_further. auto.
Qed.

Lemma elem_of_dget d k v : dict_wf d → (k, v) ∈ d → dget d k = Some v.
Proof.
  unfold dict_wf. induction d as [|[k' v'] d IH]; simpl; [by intros _ ?%elem_of_nil|].
  rewrite NoDup_cons. intros [Hk Hd]. rewrite elem_of_cons. intros [[= -> ->]|Hin].
  { by rewrite decide_True. }
  rewrite decide_False; [auto|]. intros ->. apply Hk.
  apply (list_elem_of_fmap_2 fst) in Hin. done.
Qed.

(** Writing what is there. *)
Lemma dset_same d k v : dget d k = Some v → dset d k v = d.
Proof.
  induction d as [|[k' v'] d IH]; simpl; [done|]. case_decide as Hk; [by intros [= ->]; subst|].
  intros H. by rewrite IH.
Qed.

Lemma dkeys_dset d k v :
  dkeys (dset d k v) = if dmem d k then dkeys d else dkeys d ++ [k].
Proof.
  unfold dkeys, dmem. induction d as [|[k' v'] d IH]; simpl; [done|].
  case_decide; subst; simpl; [done|].
  unfold fmap in IH. rewrite IH. by destruct (dget d k).
Qed.

Lemma elem_of_dkeys_dset d k v k' : k' ∈ dkeys (dset d k v) ↔ k' = k ∨ k' ∈ dkeys d.
Proof.
  rewrite !elem_of_dkeys, dget_dset. case_decide; subst; split; eauto.
  intros [->|?]; done.
Qed.

Lemma dset_wf d k v : dict_wf d → dict_wf (dset d k v).
Proof.
  unfold dict_wf. intros Hd. change (NoDup (dkeys (dset d k v))).
  rewrite dkeys_dset. destruct (dmem d k) eqn:E; [done|].
  apply NoDup_app. split; [done|]. split; [|apply NoDup_singleton].
  intros x Hx Hk. apply list_elem_of_singleton in Hk as ->.
  by apply dmem_false in E.
Qed.

Lemma dget_ddel_ne d k k' : k ≠ k' → dget (ddel d k) k' = dget d k'.
Proof.
  intros Hne. induction d as [|[k0 v0] d IH]; simpl; [done|].
  case_decide; simplify_eq; simpl; [by rewrite decide_False|].
  case_decide; done.
Qed.

Lemma dget_ddel_eq d k : dict_wf d → dget (ddel d k) k = None.
Proof.
  unfold dict_wf. induction d as [|[k0 v0] d IH]; simpl; [done|].
  rewrite NoDup_cons. intros [Hk Hd]. case_decide; subst.
  - apply dget_None. done.
  - simpl. rewrite decide_False by done. auto.
Qed.

Lemma dkeys_ddel_sublist d k : dkeys (ddel d k) `sublist_of` dkeys d.
Proof.
  unfold dkeys. induction d as [|[k0 v0] d IH]; simpl; [done|].
  case_decide; simpl; [by apply sublist_cons|by apply sublist_skip].
Qed.

Lemma ddel_wf d k : dict_wf d → dict_wf (ddel d k).
Proof.
  intros Hd. change (NoDup (dkeys (ddel d k))).
  eapply sublist_NoDup; [exact Hd|apply dkeys_ddel_sublist].
Qed.

Lemma dset_fresh d k v : k ∉ dkeys d → dset d k v = d ++ [(k, v)].
Proof.
  unfold dkeys. induction d as [|[k' v'] d IH]; simpl; [done|].
  rewrite not_elem_of_cons. intros [Hne Hk]. rewrite decide_False by done. by rewrite IH.
Qed.

Lemma dset_last d k v v' : k ∉ dkeys d → dset (d ++ [(k, v)]) k v' = d ++ [(k, v')].
Proof.
  unfold dkeys. induction d as [|[k' v0] d IH]; simpl; [by rewrite decide_True|].
  rewrite not_elem_of_cons. intros [Hne Hk]. rewrite decide_False by done. by rewrite IH.
Qed.

Lemma dget_last d k v : k ∉ dkeys d → dget (d ++ [(k, v)]) k = Some v.
Proof. intros. rewrite <-(dset_fresh d k v) by done. apply dget_dset_eq. Qed.

Lemma dict_wf_nil : dict_wf [].
Proof. apply NoDup_nil_2. Qed.

Lemma dict_ext_keys d1 d2 :
  dict_wf d1 → dict_wf d2 → dkeys d1 = dkeys d2 →
  (∀ k, k ∈ dkeys d1 → dget d1 k = dget d2 k) → d1 = d2.
Proof.
  revert d2. unfold dict_wf, dkeys.
  induction d1 as [|[k v] d1 IH]; intros [|[k2 v2] d2]; simpl; try done.
  rewrite !NoDup_cons. intros [Hk1 H1] [Hk2 H2] [= <- Hks] Hget.
  assert (v = v2) as <-.
  { specialize (Hget k (list_elem_of_here _ _)).
    rewrite !decide_True in Hget by done. by injection Hget. }
  f_equal. apply IH; [done..|]. intros k' Hk'.
  specialize (Hget k' (list_elem_of_further _ _ _ Hk')).
  assert (k ≠ k') by (by intros ->). by rewrite !decide_False in Hget.
Qed.

End dict.

#[export] Hint Resolve dict_wf_nil dset_wf ddel_wf : pydb.

Lemma dkeys_fmap_vals {K V W} (f : V → W) (d : list (K * V)) :
  dkeys (prod_map id f <$> d) = dkeys d.
Proof. unfold dkeys. rewrite <-list_fmap_compose. apply list_fmap_ext. by intros ? []. Qed.

(** Updating every value of a dictionary in place. *)
Lemma dget_fmap_vals {K V W} `{EqDecision K} (f : V → W) (d : list (K * V)) k :
  dget (prod_map id f <$> d) k = f <$> dget d k.
Proof. induction d as [|[k' v] d IH]; simpl; [done|]. by case_decide. Qed.

(** The values of a dictionary, flattened by [g]. *)
Definition dflat {K V A} (g : V → list A) (d : list (K * V)) : list A :=
  List.concat (List.map (λ kv, g kv.2) d).

(** Writing at [k] a value with the old value's elements and [x] adds [x]. *)
Lemma dflat_dset_perm {K V A} `{EqDecision K} (g : V → list A) (d : list (K * V)) k v x :
  g v ≡ₚ default [] (g <$> dget d k) ++ x → dflat g (dset d k v) ≡ₚ dflat g d ++ x.
Proof.
  unfold dflat. induction d as [|[k' v'] d IH]; simpl.
  { by rewrite app_nil_r. }
  case_decide; simpl; intros Hg; [rewrite Hg|rewrite IH by done]; rewrite <-!app_assoc; [|done].
  f_equiv. apply Permutation_app_comm.
Qed.

Lemma elem_of_dset_inv {K V} `{EqDecision K} (d : list (K * V)) k v kv :
  kv ∈ dset d k v → kv = (k, v) ∨ kv ∈ d.
Proof.
  induction d as [|[k' v'] d IH]; simpl; [by intros ?%list_elem_of_singleton; left|].
  case_decide; rewrite !elem_of_cons; intuition.
Qed.

(** ** [sorted(d)] for integer keys *)

Definition key_le {V} (x y : Z * V) : Prop := (x.1 ≤ y.1)%Z.

#[export] Instance key_le_dec {V} : RelDecision (@key_le V).
Proof. intros x y. unfold key_le. apply _. Defined.
#[export] Instance key_le_total {V} : Total (@key_le V).
Proof. intros x y. unfold key_le. lia. Qed.
#[export] Instance key_le_trans {V} : Transitive (@key_le V).
Proof. intros x y z. unfold key_le. lia. Qed.

(** The keys in [sorted] order, each with its value. *)
Definition sorted_items {V} (d : list (Z * V)) : list (Z * V) := merge_sort key_le d.

Lemma sorted_items_perm {V} (d : list (Z * V)) : sorted_items d ≡ₚ d.
Proof. apply merge_sort_Permutation. Qed.

Lemma sorted_items_strict {V} (d : list (Z * V)) :
  dict_wf d → StronglySorted (λ x y, (x.1 < y.1)%Z) (sorted_items d).
Proof.
  intros Hwf.
  assert (StronglySorted key_le (sorted_items d)) as Hs
    by (apply (StronglySorted_merge_sort _)).
  assert (NoDup (sorted_items d).*1) as Hnd by (by rewrite sorted_items_perm).
  revert Hnd. induction Hs as [|x l Hs IH Hall]; [constructor|].
  rewrite fmap_cons, NoDup_cons. intros [Hx Hl]. constructor; [by apply IH|].
  rewrite Forall_forall in *. intros y Hy. specialize (Hall y Hy). unfold key_le in Hall.
  assert (x.1 ≠ y.1); [|lia]. intros E. apply Hx. rewrite E. by apply list_elem_of_fmap_2.
Qed.

Lemma dflat_perm {K V A} (g : V → list A) (d d' : list (K * V)) : d ≡ₚ d' → dflat g d ≡ₚ dflat g d'.
Proof. unfold dflat. induction 1; simpl; [done|by f_equiv| |by etrans]. rewrite !app_assoc. f_equiv. apply Permutation_app_comm. Qed.

(** A dictionary that groups elements by the key [f] gives them. *)
Definition groups_by {A} (f : A → Z) (d : list (Z * list A)) : Prop :=
  dict_wf d ∧ ∀ k l, (k, l) ∈ d → ∀ x, x ∈ l → f x = k.

Lemma groups_by_add {A} (f : A → Z) d x :
  groups_by f d → groups_by f (dset d (f x) (default [] (dget d (f x)) ++ [x])).
Proof.
  intros [Hwf Hd]. split; [by apply dset_wf|]. intros k l [[= -> ->]|Hl]%elem_of_dset_inv y Hy; [|by eapply Hd].
  apply elem_of_app in Hy as [Hy| ->%list_elem_of_singleton]; [|done].
  destruct (dget d (f x)) as [l|] eqn:E; [|by apply elem_of_nil in Hy].
  by apply (Hd _ _ (dget_elem_of _ _ _ E)).
Qed.

(** The groups in key order: the elements in order. *)
Lemma groups_sorted {A} (f : A → Z) d :
  groups_by f d → StronglySorted (λ x y, (f x ≤ f y)%Z) (List.concat (List.map snd (sorted_items d))).
Proof.
  intros [Hwf Hd]. pose proof (sorted_items_strict d Hwf) as Hs.
  assert (∀ k l, (k, l) ∈ sorted_items d → ∀ x, x ∈ l → f x = k) as Hl.
  { intros k l. rewrite sorted_items_perm. apply Hd. }
  induction Hs as [|[k l] L Hs IH Hx]; simpl; [constructor|].
  apply StronglySorted_app_2.
  - assert (∀ x, x ∈ l → f x = k) as Hk by (apply Hl; apply list_elem_of_here).
    clear -Hk. induction l as [|x l IH]; constructor.
    + apply IH. intros. apply Hk. by apply list_elem_of_further.
    + apply Forall_forall. intros y Hy.
      rewrite !Hk; [lia|by apply list_elem_of_further|apply list_elem_of_here].
  - apply IH. intros. eapply Hl; [apply list_elem_of_further; done|done].
  - intros x y Hx' (l' & Hl' & Hy)%elem_of_concat.
    apply elem_of_map in Hl' as ([k' l''] & E & Hin). simpl in E; subst l'.
    rewrite (Hl _ _ (list_elem_of_here _ _) x Hx'), (Hl k' l'' (list_elem_of_further _ _ _ Hin) y Hy).
    rewrite Forall_forall in Hx. specialize (Hx _ Hin). simpl in Hx. lia.
Qed.

Lemma size_dkeys {V} (d : list (string * V)) : size (list_to_set (dkeys d) : gset string) ≤ List.length d.
Proof.
  unfold dkeys. rewrite <-(length_fmap fst d). generalize (d.*1). intros l.
  induction l as [|k l IH]; [done|]. rewrite list_to_set_cons, size_union_alt, size_singleton.
  assert (size (list_to_set l ∖ {[k]} : gset string) ≤ size (list_to_set l : gset string)); [|simpl; lia].
  apply subseteq_size. set_solver.
Qed.
