(* ===== verification/Runs.v ===== *)
(** * Reasoning about code that changes a state and can raise

    [runs]: what a run of a computation from one state does, with an invariant
    of the states in between, a relation that all of its steps keep, and the
    exceptions it may end in.  [fueled]: a computation that does not run out of
    fuel. *)

From S2P Require Import Prelude.
From S2P Require Import PyDict.

Create HintDb runs.
Create HintDb fueled.

(** ** Results *)

(** The model's own exception does not occur. *)
Definition fueled {A} (r : res A) : Prop := r ≠ Raise OutOfFuel.

Lemma fueled_Ok {A} (a : A) : fueled (Ok a).
Proof. done. Qed.

Lemma fueled_Raise {A} e : e ≠ OutOfFuel → fueled (Raise (A := A) e).
Proof. intros He [= ?]. done. Qed.

Lemma fueled_bind {A B} (m : res A) (f : A → res B) :
  fueled m → (∀ a, m = Ok a → fueled (f a)) → fueled (m ≫= f).
Proof. unfold fueled. destruct m as [a|e]; simpl; intros Hm Hf; [by apply Hf|congruence]. Qed.

Lemma fueled_of_option {A} e (o : option A) : e ≠ OutOfFuel → fueled (of_option e o).
Proof. destruct o; simpl; [done|apply fueled_Raise]. Qed.

Lemma fueled_fold {A B} (f : A → B → res A) acc l :
  (∀ a x, x ∈ l → fueled (f a x)) → fueled (fold_res f acc l).
Proof.
  revert acc. induction l as [|x l IH]; intros acc Hf; simpl; [done|].
  apply fueled_bind; [apply Hf, list_elem_of_here|]. intros a _. apply IH.
  intros. apply Hf. by apply list_elem_of_further.
Qed.

(** A fold with an invariant of the accumulator. *)
Lemma fueled_fold_inv {A B} (P : A → Prop) (f : A → B → res A) acc l :
  P acc → (∀ a x, x ∈ l → P a → fueled (f a x) ∧ ∀ a', f a x = Ok a' → P a') →
  fueled (fold_res f acc l).
Proof.
  revert acc. induction l as [|x l IH]; intros acc Hacc Hf; simpl; [done|].
  destruct (Hf acc x (list_elem_of_here _ _) Hacc) as [H1 H2].
  apply fueled_bind; [done|]. intros a Ha. apply IH; [by apply H2|].
  intros. apply Hf; [by apply list_elem_of_further|done].
Qed.
#[export] Hint Resolve fueled_Ok : fueled.

(** Take a computation of a result apart; what is left are the calls that are
    not in the hint database. *)
Ltac fueled :=
  repeat first
    [ solve [eauto with fueled]
    | apply fueled_Raise; discriminate
    | apply fueled_of_option; discriminate
    | apply fueled_fold; intros
    | apply fueled_bind; [|intros]
    | match goal with
      | |- fueled (match ?x with _ => _ end) => destruct x eqn:?
      | |- fueled (if ?b then _ else _) => destruct b eqn:?
      end ].

(** ** Runs *)

Section runs.
Context {S : Type} (P P' : S → Prop) (R : S → S → Prop) (E : exn → Prop) `{!PreOrder R}.

(** A run of [m] from [s] relates every state it passes by [R]; it returns [a]
    in a state with [P] and [Q a], or raises an exception in [E] in a state
    with [P']. *)
Definition runs {A} (s : S) (m : M S A) (Q : A → S → Prop) : Prop :=
  R s (m s).1 ∧
  match m s with
  | (s', Ok a) => P s' ∧ Q a s'
  | (s', Raise e) => P' s' ∧ E e
  end.

Lemma runs_mono {A} s (m : M S A) (Q Q' : A → S → Prop) :
  runs s m Q → (∀ a s', P s' → R s s' → Q a s' → Q' a s') → runs s m Q'.
Proof.
  intros [H1 H2] HQ. split; [done|]. destruct (m s) as [s' [a|e]]; simpl in *; [|done].
  destruct H2 as [HP H2]. split; [done|]. by apply HQ.
Qed.

Lemma runs_bind {A B} s (m : M S A) (f : A → M S B) Q Q' :
  runs s m Q → (∀ a s', P s' → R s s' → Q a s' → runs s' (f a) Q') → runs s (m ≫= f) Q'.
Proof.
  intros [H1 H2] Hf. unfold runs. rewrite M_bind_eq. destruct (m s) as [s' [a|e]]; simpl in *; [|done].
  destruct H2 as [HP H2]. destruct (Hf a s' HP H1 H2) as [H3 H4]. split; [by etrans|done].
Qed.

Lemma runs_ret {A} s (a : A) Q : P s → Q a s → runs s (mret a) Q.
Proof. intros HP HQ. by split. Qed.

Lemma runs_raise {A} s e (Q : A → S → Prop) : P' s → E e → runs s (raise e) Q.
Proof. intros. by split. Qed.

Lemma runs_get {B} s (f : S → M S B) Q : runs s (f s) Q → runs s (get ≫= f) Q.
Proof. done. Qed.

Lemma runs_lift {A B} s (r : res A) (f : A → M S B) Q :
  P' s → (∀ e, r = Raise e → E e) → (∀ a, r = Ok a → runs s (f a) Q) → runs s (lift r ≫= f) Q.
Proof. intros HP HE Hf. unfold runs. rewrite lift_bind. destruct r; [by apply Hf|split; [done|split; [done|by apply HE]]]. Qed.

Lemma runs_modify s (g : S → S) (Q : unit → S → Prop) : R s (g s) → P (g s) → Q tt (g s) → runs s (modify g) Q.
Proof. intros. by split. Qed.

Lemma runs_modify_bind {B} s (g : S → S) (f : unit → M S B) Q :
  R s (g s) → runs (g s) (f tt) Q → runs s (modify g ≫= f) Q.
Proof. intros HR [H1 H2]. split; [by etrans|done]. Qed.

(** A loop with an invariant that the steps keep. *)
Lemma runs_for_each {A} (I : S → Prop) s (l : list A) (f : A → M S unit) :
  P s → I s →
  (∀ x s', x ∈ l → P s' → R s s' → I s' → runs s' (f x) (λ _, I)) →
  runs s (for_each l f) (λ _, I).
Proof.
  intros HP HI Hf. assert (∀ s', P s' → R s s' → I s' → runs s' (for_each l f) (λ _, I)) as H; [|by apply H].
  induction l as [|x l IH]; intros s' HP' HR HI'; simpl; [by apply runs_ret|].
  eapply runs_bind; [apply Hf; auto using list_elem_of_here|].
  intros [] s2 HP2 HR2 HI2. apply IH; [|done|by etrans|done].
  intros. apply Hf; auto using list_elem_of_further.
Qed.
End runs.

(** ** Runs that return

    What holds when a computation returns, and nothing when it raises. *)
Section returns.
Context {S : Type}.

Definition returns {A} (s : S) (m : M S A) (Q : A → S → Prop) : Prop :=
  match m s with (s', Ok a) => Q a s' | (_, Raise _) => True end.

Lemma returns_mono {A} s (m : M S A) (Q Q' : A → S → Prop) :
  returns s m Q → (∀ a s', Q a s' → Q' a s') → returns s m Q'.
Proof. intros Hm HQ. unfold returns in *. destruct (m s) as [s' [a|e]]; [by apply HQ|done]. Qed.

Lemma returns_bind {A B} s (m : M S A) (f : A → M S B) Q Q' :
  returns s m Q → (∀ a s', Q a s' → returns s' (f a) Q') → returns s (m ≫= f) Q'.
Proof.
  intros Hm Hf. unfold returns in *. rewrite M_bind_eq. destruct (m s) as [s' [a|e]]; [|done]. by apply Hf.
Qed.

Lemma returns_then {A B} s (m : M S A) (f : A → M S B) Q :
  (∀ a s', returns s' (f a) Q) → returns s (m ≫= f) Q.
Proof. intros Hf. unfold returns in *. rewrite M_bind_eq. destruct (m s) as [s' [a|e]]; [|done]. apply Hf. Qed.

Lemma returns_Ok {A} s (m : M S A) (Q : A → S → Prop) s' a : m s = (s', Ok a) → returns s m Q → Q a s'.
Proof. unfold returns. by intros ->. Qed.

Lemma returns_ret {A} s (a : A) (Q : A → S → Prop) : Q a s → returns s (mret a) Q.
Proof. done. Qed.

Lemma returns_raise {A} s e (Q : A → S → Prop) : returns s (raise e) Q.
Proof. done. Qed.

Lemma returns_get {B} s (f : S → M S B) Q : returns s (f s) Q → returns s (get ≫= f) Q.
Proof. done. Qed.

Lemma returns_lift_bind {A B} s (r : res A) (f : A → M S B) Q :
  (∀ a, r = Ok a → returns s (f a) Q) → returns s (lift r ≫= f) Q.
Proof. intros Hf. unfold returns. rewrite lift_bind. destruct r; [by apply Hf|done]. Qed.

Lemma returns_lift {A} s (r : res A) (Q : A → S → Prop) :
  (∀ a, r = Ok a → Q a s) → returns s (lift r) Q.
Proof. intros Hf. unfold returns, lift. destruct r; [by apply Hf|done]. Qed.

Lemma returns_modify s (g : S → S) (Q : unit → S → Prop) : Q tt (g s) → returns s (modify g) Q.
Proof. done. Qed.

Lemma returns_modify_bind {B} s (g : S → S) (f : unit → M S B) Q :
  returns (g s) (f tt) Q → returns s (modify g ≫= f) Q.
Proof. done. Qed.

Lemma returns_for_each {A} (I : S → Prop) s (l : list A) (f : A → M S unit) :
  I s → (∀ x s', x ∈ l → I s' → returns s' (f x) (λ _, I)) → returns s (for_each l f) (λ _, I).
Proof.
  revert s. induction l as [|x l IH]; intros s Hs Hf; simpl; [done|].
  eapply returns_bind; [apply Hf; [apply list_elem_of_here|done]|].
  intros [] s' Hs'. apply IH; [done|]. intros. apply Hf; [by apply list_elem_of_further|done].
Qed.

Lemma returns_fold_state {A B} (I : A → S → Prop) s acc (l : list B) (f : A → B → M S A) :
  I acc s → (∀ acc x s', x ∈ l → I acc s' → returns s' (f acc x) I) → returns s (fold_state f acc l) I.
Proof.
  revert s acc. induction l as [|x l IH]; intros s acc Hs Hf; cbn [fold_state]; [done|].
  eapply returns_bind; [apply Hf; [apply list_elem_of_here|done]|].
  intros acc' s' Hs'. apply IH; [done|]. intros. apply Hf; [by apply list_elem_of_further|done].
Qed.

(** With an invariant of what is still to come. *)
Lemma returns_fold_list {A B} (I : list B → A → S → Prop) s acc (l : list B) (f : A → B → M S A) :
  I l acc s → (∀ acc x l s', I (x :: l) acc s' → returns s' (f acc x) (I l)) →
  returns s (fold_state f acc l) (I []).
Proof.
  intros Hs Hf. revert s acc Hs. induction l as [|x l IH]; intros s acc Hs; cbn [fold_state]; [done|].
  eapply returns_bind; [by apply Hf|]. intros acc' s'. apply IH.
Qed.

Lemma returns_for_list {A} (I : list A → S → Prop) s (l : list A) (f : A → M S unit) :
  I l s → (∀ x l s', I (x :: l) s' → returns s' (f x) (λ _, I l)) → returns s (for_each l f) (λ _, I []).
Proof.
  intros Hs Hf. revert s Hs. induction l as [|x l IH]; intros s Hs; cbn [for_each]; [done|].
  eapply returns_bind; [by apply Hf|]. intros [] s'. apply IH.
Qed.

Lemma returns_and {A} s (m : M S A) (Q1 Q2 : A → S → Prop) :
  returns s m Q1 → returns s m Q2 → returns s m (λ a s', Q1 a s' ∧ Q2 a s').
Proof. unfold returns. destruct (m s) as [s' [a|x]]; auto. Qed.

(** The same for all runs that return and keep an invariant. *)
Lemma runs_returns {A} P P' R E s (m : M S A) Q : runs P P' R E s m Q → returns s m (λ a s', P s' ∧ R s s' ∧ Q a s').
Proof. unfold runs, returns. destruct (m s) as [s' [a|e]]; simpl; tauto. Qed.
End returns.

Lemma M_bind_Ok {S A B} (m : M S A) (f : A → M S B) s s' b :
  (m ≫= f) s = (s', Ok b) → ∃ a s1, m s = (s1, Ok a) ∧ f a s1 = (s', Ok b).
Proof. rewrite M_bind_eq. destruct (m s) as [s1 [a|e]]; [|done]. intros E. by exists a, s1. Qed.

Lemma lift_bind_Ok {S A B} (r : res A) (f : A → M S B) s s' b :
  (lift r ≫= f) s = (s', Ok b) → ∃ a, r = Ok a ∧ f a s = (s', Ok b).
Proof. rewrite lift_bind. destruct r as [a|e]; [|done]. intros E. by exists a. Qed.

(** ** Relations that every run keeps

    [preserves R m]: whether [m] returns or raises, the state after it is
    related to the state before it. *)
Section preserves.
Context {S : Type} (R : S → S → Prop) `{!PreOrder R}.

Definition preserves {A} (m : M S A) : Prop := ∀ s, R s (m s).1.

Lemma preserves_bind {A B} (m : M S A) (f : A → M S B) :
  preserves m → (∀ a, preserves (f a)) → preserves (m ≫= f).
Proof.
  intros Hm Hf s. rewrite M_bind_eq. specialize (Hm s). destruct (m s) as [s' [a|e]]; [|done].
  etrans; [exact Hm|apply Hf].
Qed.

Lemma preserves_ret {A} (a : A) : preserves (mret a).
Proof. intros s. reflexivity. Qed.

Lemma preserves_raise {A} e : preserves (raise (A := A) e).
Proof. intros s. reflexivity. Qed.

Lemma preserves_lift {A} (r : res A) : preserves (lift r).
Proof. intros s. reflexivity. Qed.

Lemma preserves_get : preserves get.
Proof. intros s. reflexivity. Qed.

Lemma preserves_modify (g : S → S) : (∀ s, R s (g s)) → preserves (modify g).
Proof. intros Hg s. apply Hg. Qed.

Lemma preserves_catch {A} (m : M S A) p h : preserves m → (∀ e, preserves (h e)) → preserves (catch m p h).
Proof.
  intros Hm Hh s. unfold catch. specialize (Hm s). destruct (m s) as [s' [a|e]]; [done|].
  destruct (p e); [|done]. etrans; [exact Hm|apply Hh].
Qed.

Lemma preserves_for_each {A} (l : list A) (f : A → M S unit) : (∀ x, preserves (f x)) → preserves (for_each l f).
Proof. intros Hf. induction l as [|x l IH]; cbn [for_each]; [apply preserves_ret|]. by apply preserves_bind. Qed.

Lemma preserves_fold_state {A B} (f : A → B → M S A) acc l : (∀ a x, preserves (f a x)) → preserves (fold_state f acc l).
Proof.
  intros Hf. revert acc. induction l as [|x l IH]; intros acc; cbn [fold_state]; [apply preserves_ret|]. by apply preserves_bind.
Qed.

Lemma preserves_map_state {A B} (f : A → M S B) (l : list A) : (∀ x, preserves (f x)) → preserves (map_state f l).
Proof.
  intros Hf. induction l as [|x l IH]; cbn [map_state]; [apply preserves_ret|]. apply preserves_bind; [apply Hf|]. intros y.
  apply preserves_bind; [done|]. intros. apply preserves_ret.
Qed.

Lemma preserves_run {A} (m : M S A) s s' r : preserves m → m s = (s', r) → R s s'.
Proof. intros Hm E. specialize (Hm s). by rewrite E in Hm. Qed.
End preserves.

Create HintDb preserves.
#[export] Hint Extern 1 (preserves _ (mret _)) => apply (preserves_ret _) : preserves.
#[export] Hint Extern 1 (preserves _ (raise _)) => apply (preserves_raise _) : preserves.
#[export] Hint Extern 1 (preserves _ (lift _)) => apply (preserves_lift _) : preserves.
#[export] Hint Extern 1 (preserves _ get) => apply (preserves_get _) : preserves.

(** The structure of a computation, down to what the hints know. *)
Ltac preserves :=
  repeat match goal with
    | |- preserves _ (_ ≫= _) => apply (preserves_bind _); [|intros]
    | |- preserves _ (for_each _ _) => apply (preserves_for_each _); intros
    | |- preserves _ (fold_state _ _ _) => apply (preserves_fold_state _); intros
    | |- preserves _ (map_state _ _) => apply (preserves_map_state _); intros
    | |- preserves _ (catch _ _ _) => apply (preserves_catch _); [|intros]
    | |- preserves _ (match ?x with _ => _ end) => destruct x
    | |- preserves _ _ => solve [eauto with preserves]
    end.

(** ** Results without fuel trouble

    [yields r Q]: [r] is a value with [Q], or an exception of Python. *)
Definition yields {A} (r : res A) (Q : A → Prop) : Prop :=
  match r with Ok a => Q a | Raise e => e ≠ OutOfFuel end.

Lemma yields_bind {A B} (r : res A) (f : A → res B) Q Q' :
  yields r Q → (∀ a, Q a → yields (f a) Q') → yields (r ≫= f) Q'.
Proof. destruct r; simpl; auto. Qed.

Lemma yields_mono {A} (r : res A) (Q Q' : A → Prop) : yields r Q → (∀ a, Q a → Q' a) → yields r Q'.
Proof. destruct r; simpl; auto. Qed.

Lemma yields_fueled {A} (r : res A) : yields r (λ _, True) ↔ fueled r.
Proof. destruct r; unfold fueled; simpl; split; [done..|by intros H [= ?]|congruence]. Qed.

Lemma yields_Ok {A} (r : res A) Q : yields r Q ↔ fueled r ∧ ∀ a, r = Ok a → Q a.
Proof.
  destruct r; unfold fueled; simpl; split; [|by intros [_ H]; apply H| |by intros [H _] ->].
  - intros HQ. split; [done|]. by intros ? [= <-].
  - intros H. split; [congruence|done].
Qed.

Lemma yields_option {A} e (o : option A) : e ≠ OutOfFuel → yields (of_option e o) (λ a, o = Some a).
Proof. by destruct o. Qed.

Lemma yields_fold {A B} (I : A → Prop) (f : A → B → res A) acc l :
  I acc → (∀ a x, x ∈ l → I a → yields (f a x) I) → yields (fold_res f acc l) I.
Proof.
  revert acc. induction l as [|x l IH]; intros acc Hacc Hf; cbn [fold_res]; [done|].
  eapply yields_bind; [apply Hf; [apply list_elem_of_here|done]|]. intros a Ha. apply IH; [done|].
  intros. apply Hf; [by apply list_elem_of_further|done].
Qed.

(** The same for a computation on a state, from every state. *)
Definition always_yields {S A} (m : M S A) (Q : A → Prop) : Prop := ∀ s, yields (m s).2 Q.

Lemma ay_bind {S A B} (m : M S A) (f : A → M S B) Q Q' :
  always_yields m Q → (∀ a, Q a → always_yields (f a) Q') → always_yields (m ≫= f) Q'.
Proof.
  intros Hm Hf s. rewrite M_bind_eq. specialize (Hm s). destruct (m s) as [s' [a|e]]; [by apply Hf|done].
Qed.

Lemma ay_lift {S A} (r : res A) Q : yields r Q → always_yields (S := S) (lift r) Q.
Proof. by intros H s. Qed.

Lemma ay_lift_bind {S A B} (r : res A) (f : A → M S B) Q Q' :
  yields r Q → (∀ a, Q a → always_yields (f a) Q') → always_yields (lift r ≫= f) Q'.
Proof. intros Hr. by apply ay_bind, ay_lift. Qed.

Lemma ay_ret {S A} (a : A) (Q : A → Prop) : Q a → always_yields (S := S) (mret a) Q.
Proof. by intros H s. Qed.

Lemma ay_raise {S A} e (Q : A → Prop) : e ≠ OutOfFuel → always_yields (S := S) (raise e) Q.
Proof. by intros H s. Qed.

Lemma ay_mono {S A} (m : M S A) (Q Q' : A → Prop) : always_yields m Q → (∀ a, Q a → Q' a) → always_yields m Q'.
Proof. intros Hm HQ s. by eapply yields_mono. Qed.

Lemma ay_for_each {S A} (l : list A) (f : A → M S unit) :
  (∀ x, x ∈ l → always_yields (f x) (λ _, True)) → always_yields (for_each l f) (λ _, True).
Proof.
  induction l as [|x l IH]; intros Hf; cbn [for_each]; [by apply ay_ret|].
  eapply ay_bind; [apply Hf, list_elem_of_here|]. intros _ _. apply IH.
  intros. apply Hf. by apply list_elem_of_further.
Qed.

(** ** Computations that do not run out of fuel *)

Definition always_fueled {S A} (m : M S A) : Prop := ∀ s, fueled (m s).2.

Lemma af_bind {S A B} (m : M S A) (f : A → M S B) :
  always_fueled m → (∀ a, always_fueled (f a)) → always_fueled (m ≫= f).
Proof.
  intros Hm Hf s. rewrite M_bind_eq. specialize (Hm s). destruct (m s) as [s' [a|e]]; [apply Hf|].
  unfold fueled in *. cbn in *. congruence.
Qed.

Lemma af_ret {S A} (a : A) : always_fueled (S := S) (mret a).
Proof. by intros s. Qed.

Lemma af_raise {S A} e : e ≠ OutOfFuel → always_fueled (S := S) (A := A) (raise e).
Proof. unfold always_fueled, fueled, raise. cbn. congruence. Qed.

Lemma af_lift {S A} (r : res A) : fueled r → always_fueled (S := S) (lift r).
Proof. by intros H s. Qed.

Lemma af_get {S} : always_fueled (S := S) get.
Proof. by intros s. Qed.

Lemma af_modify {S} (f : S → S) : always_fueled (modify f).
Proof. by intros s. Qed.

Lemma af_for_each {S A} (l : list A) (f : A → M S unit) : (∀ x, always_fueled (f x)) → always_fueled (for_each l f).
Proof. intros Hf. induction l as [|x l IH]; cbn [for_each]; [apply af_ret|]. by apply af_bind. Qed.

Lemma af_fold_state {S A B} (f : A → B → M S A) acc l :
  (∀ a x, always_fueled (f a x)) → always_fueled (fold_state f acc l).
Proof.
  intros Hf. revert acc. induction l as [|x l IH]; intros acc; cbn [fold_state]; [apply af_ret|].
  by apply af_bind.
Qed.

#[export] Hint Resolve af_ret af_get af_modify : fueled.

(** The structure of a computation; what is lifted is left to [fueled]. *)
Ltac always_fueled :=
  repeat match goal with
    | |- always_fueled (_ ≫= _) => apply af_bind; [|intros]
    | |- always_fueled (for_each _ _) => apply af_for_each; intros
    | |- always_fueled (fold_state _ _ _) => apply af_fold_state; intros
    | |- always_fueled (raise _) => by apply af_raise
    | |- always_fueled (lift _) => apply af_lift; fueled
    | |- always_fueled (match ?x with _ => _ end) => destruct x
    | |- always_fueled _ => solve [eauto with fueled]
    end.

(** ** Computations that settle

    Loops take fuel, and what calls them passes it on.  [settles m s Q]: with
    enough fuel [m] ends, always in the same way, with [Q] if it returns. *)
Section settles.
Context {S : Type}.

Definition settles {A} (m : nat → M S A) (s : S) (Q : A → S → Prop) : Prop :=
  ∃ n s' r, (∀ n', n ≤ n' → m n' s = (s', r)) ∧
    match r with Ok a => Q a s' | Raise e => e ≠ OutOfFuel end.

Lemma settles_mono {A} (m : nat → M S A) s (Q Q' : A → S → Prop) :
  settles m s Q → (∀ a s', Q a s' → Q' a s') → settles m s Q'.
Proof. intros (n & s' & r & Hm & Hr) HQ. exists n, s', r. split; [done|]. destruct r; auto. Qed.

(** A computation without loops of this kind. *)
Lemma settles_const {A} (m : M S A) s (Q : A → S → Prop) :
  match m s with (s', Ok a) => Q a s' | (_, Raise e) => e ≠ OutOfFuel end → settles (λ _, m) s Q.
Proof. intros Hm. exists 0, (m s).1, (m s).2. by destruct (m s) as [s' [a|e]]. Qed.

Lemma settles_ret {A} (a : A) s (Q : A → S → Prop) : Q a s → settles (λ _, mret a) s Q.
Proof. intros HQ. by apply settles_const. Qed.

Lemma settles_bind {A B} (m : nat → M S A) (f : nat → A → M S B) s Q Q' :
  settles m s Q → (∀ a s', Q a s' → settles (λ n, f n a) s' Q') → settles (λ n, m n ≫= f n) s Q'.
Proof.
  intros (n & s' & [a|e] & Hm & HQ) Hf.
  - destruct (Hf a s' HQ) as (n2 & s2 & r & Hf2 & HQ2). exists (n `max` n2), s2, r. split; [|done].
    intros n' Hn. rewrite M_bind_eq, Hm by lia. apply Hf2. lia.
  - exists n, s', (Raise e). split; [|done]. intros n' Hn. by rewrite M_bind_eq, Hm.
Qed.

Lemma settles_for_each {A} (I : list A → S → Prop) (f : nat → A → M S unit) l s :
  I l s →
  (∀ x l s, I (x :: l) s → settles (λ n, f n x) s (λ _, I l)) →
  settles (λ n, for_each l (f n)) s (λ _, I []).
Proof.
  intros HI Hf. revert s HI. induction l as [|x l IH]; intros s HI; cbn [for_each]; [by apply settles_ret|].
  apply (settles_bind (λ n, f n x) (λ n _, for_each l (f n)) s (λ _, I l)); [by apply Hf|]. intros _. apply IH.
Qed.

Lemma settles_fold_state {A B} (I : list B → A → S → Prop) (f : nat → A → B → M S A) acc l s :
  I l acc s →
  (∀ acc x l s, I (x :: l) acc s → settles (λ n, f n acc x) s (I l)) →
  settles (λ n, fold_state (f n) acc l) s (I []).
Proof.
  intros HI Hf. revert acc s HI. induction l as [|x l IH]; intros acc s HI; cbn [fold_state]; [by apply settles_ret|].
  apply (settles_bind (λ n, f n acc x) (λ n acc, fold_state (f n) acc l) s (I l)); [by apply Hf|].
  intros a s'. apply IH.
Qed.

Lemma settles_ext {A} (m m' : nat → M S A) k s (Q : A → S → Prop) :
  (∀ n, k ≤ n → m' n s = m n s) → settles m s Q → settles m' s Q.
Proof.
  intros Hm (n & s' & r & Hn & Hr). exists (k `max` n), s', r. split; [|done]. intros n' Hn'.
  rewrite Hm by lia. apply Hn. lia.
Qed.

(** With one unit of fuel less. *)
Lemma settles_pred {A} (m : nat → M S A) s Q : settles m s Q → settles (λ n, m (Nat.pred n)) s Q.
Proof.
  intros (n & s' & r & Hn & Hr). exists (Datatypes.S n), s', r. split; [|done]. intros n' Hn'. apply Hn. lia.
Qed.

(** The whole run, for all fuels that are enough. *)
Lemma settles_ends {A} (m : nat → M S A) s Q : settles m s Q →
  ∃ n, (m n s).2 ≠ Raise OutOfFuel ∧ ∀ n', n ≤ n' → m n' s = m n s.
Proof.
  intros (n & s' & r & Hm & Hr). exists n. split; [|intros; by rewrite !Hm].
  rewrite Hm by done. destruct r; cbn; congruence.
Qed.
End settles.
