(* ===== verification/Versions.v ===== *)
(** * Version comparison and dependency strings (bb/utils.py)

    The version comparison every provider choice rests on, and the parser and
    printer of RDEPENDS-style strings. *)

From S2P Require Import Prelude.
From S2P Require Import PyStr.
From S2P Require Import PyDict.
From Stdlib Require Import Ascii String.

(** ** Version comparison *)

(** The second component of a token of [explode_version]: [int] or [str]. *)
Inductive vcomp : Type :=
  | VInt (n : N)
  | VStr (s : string).

#[export] Instance vcomp_eq_dec : EqDecision vcomp.
Proof. solve_decision. Defined.

Abbreviation vtok := (Z * vcomp)%type.

(** What [(.* )$] matches to the end of the string: [.] stops at a newline and
    [$] also matches before a final newline, so a match exists when the only
    newline, if any, is the last character, and does not include it. *)
Fixpoint rest_of_line (s : string) : option string :=
  match s with
  | "" => Some ""
  | String a s' =>
      if Ascii.eqb a newline
      then (if str_empty s' then Some "" else None)
      else match rest_of_line s' with
           | Some r => Some (String a r)
           | None => None
           end
  end.

(** The [while (s != '')] loop, one unit of fuel per iteration; a failed match
    is [None], and [.group] on it raises AttributeError. *)
Fixpoint explode_version_go (fuel : nat) (r : list vtok) (s : string) : res (list vtok) :=
  match fuel with
  | O => match s with "" => Ok r | _ => Raise OutOfFuel end
  | S fuel =>
      match s with
      | "" => Ok r
      | String a s' =>
          if is_digit a then
            let '(ds, rest) := span is_digit s in
            match rest_of_line rest with
            | Some s => explode_version_go fuel (r ++ [(0%Z, VInt (digits_val 0 ds))]) s
            | None => Raise AttributeError
            end
          else if is_letter a then
            let '(ls, rest) := span is_letter s in
            match rest_of_line rest with
            | Some s => explode_version_go fuel (r ++ [(1%Z, VStr ls)]) s
            | None => Raise AttributeError
            end
          else if Ascii.eqb a "~" then explode_version_go fuel (r ++ [((-1)%Z, VStr (str1 a))]) s'
          else explode_version_go fuel (r ++ [(2%Z, VStr (str1 a))]) s'
      end
  end.

Definition explode_version (s : string) : res (list vtok) :=
  explode_version_go (String.length s) [] s.

(** [s.split("-")] style cuts of [split_version]; [rsplit1] is the last one. *)
Definition is_version_strip (c : char) : bool :=
  Ascii.eqb c " " || Ascii.eqb c "<" || Ascii.eqb c ">" || Ascii.eqb c "=".

Definition split_version (s : string) : res (Z * string * string) :=
  let s := strip is_version_strip s in
  '(e, s) ← (if char_in ":" s then
               match split_on ":" s with
               | e0 :: s1 :: _ => e ← py_int e0; Ok (e, s1)
               | _ => Raise IndexError
               end
             else Ok (0%Z, s));
  match rsplit1 "-" s with
  | Some (v, r) => Ok (e, v, r)
  | None => Ok (e, s, "")
  end.

(** [ca < cb] of two components: Python raises TypeError for [int < str]. *)
Definition vcomp_lt (ca cb : vcomp) : res bool :=
  match ca, cb with
  | VInt a, VInt b => Ok (a <? b)%N
  | VStr a, VStr b => Ok (str_lt a b)
  | _, _ => Raise TypeError
  end.

(** [(0, None)] if the list is empty, else [va.pop(0)]. *)
Definition pop_tok (va : list vtok) : (Z * option vcomp) * list vtok :=
  match va with
  | [] => ((0%Z, None), [])
  | (o, c) :: va => ((o, Some c), va)
  end.

(** The [while True] loop of [vercmp_part] on the two exploded versions. *)
Fixpoint vercmp_part_loop (fuel : nat) (va vb : list vtok) : res Z :=
  match fuel with
  | O => Raise OutOfFuel
  | S fuel =>
      let '((oa, ca), va) := pop_tok va in
      let '((ob, cb), vb) := pop_tok vb in
      if bool_decide ((oa, ca) = (0%Z, None)) && bool_decide ((ob, cb) = (0%Z, None))
      then Ok 0%Z
      else if (oa <? ob)%Z then Ok (-1)%Z
      else if (ob <? oa)%Z then Ok 1%Z
      else match ca, cb with
           | None, _ => Ok (-1)%Z
           | Some _, None => Ok 1%Z
           | Some ca, Some cb =>
               lt ← vcomp_lt ca cb;
               if (lt : bool) then Ok (-1)%Z
               else gt ← vcomp_lt cb ca;
                    if (gt : bool) then Ok 1%Z
                    else vercmp_part_loop fuel va vb
           end
  end.

Definition vercmp_part (a b : string) : res Z :=
  va ← explode_version a;
  vb ← explode_version b;
  vercmp_part_loop (S (Nat.max (List.length va) (List.length vb))) va vb.

(** An epoch is the [int] [split_version] returns, or a string of PE, possibly
    [None]; [int(ea or 0)]. *)
Inductive epoch : Type :=
  | EInt (z : Z)
  | EStr (s : string)
  | ENone.

Definition epoch_int (e : epoch) : res Z :=
  match e with
  | EInt z => Ok z
  | EStr "" => Ok 0%Z
  | EStr s => py_int s
  | ENone => Ok 0%Z
  end.

Abbreviation version := (epoch * string * string)%type.

Definition vercmp (ta tb : version) : res Z :=
  let '(ea, va, ra) := ta in
  let '(eb, vb, rb) := tb in
  za ← epoch_int ea;
  zb ← epoch_int eb;
  let r := (za - zb)%Z in
  r ← (if (r =? 0)%Z then vercmp_part va vb else Ok r);
  if (r =? 0)%Z then vercmp_part ra rb else Ok r.

Definition vercmp_string (a b : string) : res Z :=
  '(ea, va, ra) ← split_version a;
  '(eb, vb, rb) ← split_version b;
  vercmp (EInt ea, va, ra) (EInt eb, vb, rb).

Definition vercmp_string_op (a b op : string) : res bool :=
  res ← vercmp_string a b;
  if bool_decide (op ∈ ["="; "=="]) then Ok (res =? 0)%Z
  else if bool_decide (op = "<=") then Ok (res <=? 0)%Z
  else if bool_decide (op = ">=") then Ok (res >=? 0)%Z
  else if bool_decide (op ∈ [">"; ">>"]) then Ok (res >? 0)%Z
  else if bool_decide (op ∈ ["<"; "<<"]) then Ok (res <? 0)%Z
  else if bool_decide (op = "!=") then Ok (negb (res =? 0)%Z)
  else Raise VersionStringException.

(** ** Dependency strings *)

(** [explode_deps]: the loop carries the result and the [flag]. *)
Fixpoint explode_deps_go (l : list string) (flag : bool) (r : list string) : list string :=
  match l with
  | [] => r
  | i :: l =>
      let flag := if startswith i "(" then true else flag in
      let r := if negb flag then r ++ [i] else r in
      let flag := if flag && endswith i ")" then false else flag in
      explode_deps_go l flag r
  end.

Definition explode_deps (s : string) : list string := explode_deps_go (split_ws s) false [].

(** The local variables of the [explode_dep_versions2] loop.  [lastdep] is
    [None] until a name is read, and can become a key of [r] as such. *)
Record dep_state : Type := DepState {
  ds_r : list (option string * list string);
  ds_lastdep : option string;
  ds_lastcmp : string;
  ds_lastver : string;
  ds_incmp : bool;
  ds_inversion : bool
}.

Definition two_char_ops : list string := ["<="; "=<"; "<<"; "=="; "!="; ">="; "=>"; ">>"].
Definition one_char_ops : list string := ["<"; ">"; "="].

(** [s.startswith(ops)] for a tuple of prefixes. *)
Definition startswith_any (s : string) (ops : list string) : bool :=
  existsb (startswith s) ops.

(** The body from [if inversion:] to its [continue]. *)
Definition dep_version_word (st : dep_state) (i : string) : dep_state :=
  let '(i, inversion, lastver) :=
    if endswith i ")" then
      let i := str_drop_last 1 i in
      (i, false, if negb (str_empty (ds_lastver st)) && negb (str_empty i)
                 then ds_lastver st +s+ " " else ds_lastver st)
    else (i, ds_inversion st, ds_lastver st) in
  if str_empty i
  then DepState (ds_r st) (ds_lastdep st) (ds_lastcmp st) lastver (ds_incmp st) inversion
  else
    let lastver := lastver +s+ i in
    let r := if dmem (ds_r st) (ds_lastdep st) then ds_r st
             else dset (ds_r st) (ds_lastdep st) [] in
    let r := dset r (ds_lastdep st)
               (default [] (dget r (ds_lastdep st)) ++ [ds_lastcmp st +s+ " " +s+ lastver]) in
    DepState r (ds_lastdep st) (ds_lastcmp st) lastver (ds_incmp st) inversion.

(** One iteration of [for i in l]. *)
Definition dep_step (st : dep_state) (i : string) : res dep_state :=
  let '(DepState r lastdep lastcmp lastver incmp inversion) := st in
  let paren := startswith i "(" in
  let i := if paren then strip is_space (str_drop 1 i) else i in
  let incmp := incmp || paren in
  if paren && str_empty i
  then Ok (DepState r lastdep lastcmp lastver incmp inversion)
  else if incmp then
    '(lastcmp, i) ←
      (if startswith_any i two_char_ops then Ok (str_take 2 i, str_drop 2 i)
       else if startswith_any i one_char_ops then Ok (str_take 1 i, str_drop 1 i)
       else Raise VersionStringException);
    let st := DepState r lastdep lastcmp lastver false true in
    if str_empty i then Ok st else Ok (dep_version_word st i)
  else if inversion then Ok (dep_version_word (DepState r lastdep lastcmp lastver incmp inversion) i)
  else
    let keep := match dget r (Some i) with Some (_ :: _) => true | _ => false end in
    Ok (DepState (if keep then r else dset r (Some i) []) (Some i) "" "" incmp inversion).

Fixpoint dep_loop (l : list string) (st : dep_state) : res dep_state :=
  match l with
  | [] => Ok st
  | i :: l => st ← dep_step st i; dep_loop l st
  end.

(** [x[0] <= y[0]] on the keys; the sort raises TypeError when it has to
    compare [None] with a name. *)
Definition dep_key_le (x y : option string * list string) : Prop :=
  match x.1, y.1 with
  | Some a, Some b => String.le a b
  | None, _ => True
  | Some _, None => False
  end.

#[export] Instance dep_key_le_dec : RelDecision dep_key_le.
Proof. intros [[a|] ?] [[b|] ?]; unfold dep_key_le; simpl; apply _. Defined.

Definition sort_deps (r : list (option string * list string)) :
    res (list (option string * list string)) :=
  if bool_decide (List.length r ≤ 1) then Ok r
  else if existsb (λ x, match x.1 with None => true | _ => false end) r
  then Raise TypeError
  else Ok (merge_sort dep_key_le r).

Definition explode_dep_versions2 (s : string) (sort : bool) :
    res (list (option string * list string)) :=
  let l := split_ws (remove_char "," s) in
  st ← dep_loop l (DepState [] None "" "" false false);
  if sort then sort_deps (ds_r st) else Ok (ds_r st).

(** The values [join_deps] accepts. *)
Inductive dep_val : Type :=
  | DList (l : list string)
  | DStr (s : string)
  | DNone.

(** [explode_dep_versions]: the first constraint of each item, or [None]. *)
Definition explode_dep_versions (s : string) : res (list (option string * dep_val)) :=
  r ← explode_dep_versions2 s true;
  Ok (List.map (prod_map id (λ l : list string, match l with [] => DNone | v :: _ => DStr v end)) r).

(** The strings [join_deps] emits for one item. *)
Definition dep_items (dep : string) (v : dep_val) : list string :=
  match v with
  | DList (v :: vs) => (λ v, dep +s+ " (" +s+ v +s+ ")") <$> v :: vs
  | DStr (String _ _ as v) => [dep +s+ " (" +s+ v +s+ ")"]
  | _ => [dep]
  end.

Definition join_deps (deps : list (string * dep_val)) (commasep : bool) : string :=
  let result := List.concat ((λ kv, dep_items kv.1 kv.2) <$> deps) in
  join (if commasep then ", " else " ") result.

(** ** Facts about the version loop *)

#[local] Arguments Z.ltb : simpl never.
#[local] Arguments Z.compare : simpl never.
#[local] Arguments N.ltb : simpl never.
#[local] Arguments N.compare : simpl never.

(** The order on tokens that the loop compares position by position. *)
Definition vcomp_cmp (a b : vcomp) : comparison :=
  match a, b with
  | VInt a, VInt b => N.compare a b
  | VStr a, VStr b => String.compare a b
  | VInt _, VStr _ => Lt
  | VStr _, VInt _ => Gt
  end.

(** End of the version sorts at class 0, before every number. *)
Definition tok_class (t : option vtok) : Z :=
  match t with None => 0%Z | Some (o, _) => o end.

Definition tok_cmp (a b : option vtok) : comparison :=
  match (tok_class a ?= tok_class b)%Z with
  | Eq => match a, b with
          | None, None => Eq
          | None, Some _ => Lt
          | Some _, None => Gt
          | Some (_, a), Some (_, b) => vcomp_cmp a b
          end
  | c => c
  end.

(** The lexicographic order of two token lists. *)
Fixpoint toks_cmp (va vb : list vtok) : comparison :=
  match va, vb with
  | [], [] => Eq
  | [], t :: _ => tok_cmp None (Some t)
  | t :: _, [] => tok_cmp (Some t) None
  | a :: va, b :: vb =>
      match tok_cmp (Some a) (Some b) with Eq => toks_cmp va vb | c => c end
  end.

Definition cmp_Z (c : comparison) : Z :=
  match c with Eq => 0 | Lt => -1 | Gt => 1 end.

(** A token as [explode_version] makes it: numbers have class 0 and all other
    classes hold strings. *)
Definition tok_ok (t : vtok) : Prop :=
  match t with
  | (o, VInt _) => o = 0%Z
  | (o, VStr _) => o ≠ 0%Z
  end.

Lemma explode_go_extends fuel r s va :
  explode_version_go fuel r s = Ok va → Forall tok_ok r → Forall tok_ok va.
Proof.
  revert r s. induction fuel as [|fuel IH]; intros r s; simpl.
  { destruct s; [|done]. by intros [= ->]. }
  destruct s as [|a s]; [by intros [= ->]|].
  intros H Hr.
  repeat (case_match; try done); (eapply IH; [exact H|]);
    apply Forall_app; split; auto; by constructor.
Qed.

Lemma explode_toks_ok s va : explode_version s = Ok va → Forall tok_ok va.
Proof. intros H. eapply explode_go_extends; [exact H|constructor]. Qed.

(** The loop, given enough fuel, computes the lexicographic order. *)
Lemma vercmp_part_loop_spec va vb fuel :
  Forall tok_ok va → Forall tok_ok vb →
  List.length va < fuel → List.length vb < fuel →
  vercmp_part_loop fuel va vb = Ok (cmp_Z (toks_cmp va vb)).
Proof.
  revert va vb. induction fuel as [|fuel IH]; intros va vb Ha Hb Hla Hlb; [lia|].
  destruct va as [|[oa ca] va], vb as [|[ob cb] vb]; simpl.
  - done.
  - rewrite (bool_decide_eq_false_2 ((ob, Some cb) = _)) by congruence. simpl.
    unfold tok_cmp; simpl. destruct (Z.compare_spec 0 ob); subst; simpl.
    + done.
    + rewrite (proj2 (Z.ltb_lt _ _)); [done|lia].
    + rewrite (proj2 (Z.ltb_ge _ _)) by lia. rewrite (proj2 (Z.ltb_lt _ _)); [done|lia].
  - rewrite (bool_decide_eq_false_2 ((oa, Some ca) = _)) by congruence. simpl.
    unfold tok_cmp; simpl. destruct (Z.compare_spec oa 0); subst; simpl.
    + done.
    + rewrite (proj2 (Z.ltb_lt _ _)); [done|lia].
    + rewrite (proj2 (Z.ltb_ge _ _)) by lia. rewrite (proj2 (Z.ltb_lt _ _)); [done|lia].
  - rewrite (bool_decide_eq_false_2 ((oa, Some ca) = _)) by congruence. simpl.
    inversion Ha as [|?? Hta Ha']; inversion Hb as [|?? Htb Hb']; subst.
    unfold tok_cmp; simpl. destruct (Z.compare_spec oa ob) as [->|?|?]; simpl.
    + rewrite Z.ltb_irrefl.
      destruct ca as [a|a], cb as [b|b]; simpl in *; try congruence.
      * destruct (N.compare_spec a b) as [->|?|?]; simpl.
        -- rewrite N.ltb_irrefl. simpl. apply IH; auto; simpl in *; lia.
        -- rewrite (proj2 (N.ltb_lt _ _)); [done|lia].
        -- rewrite (proj2 (N.ltb_ge _ _)) by lia. simpl. rewrite (proj2 (N.ltb_lt _ _)); [done|lia].
      * unfold str_lt, String.ltb. rewrite (String.compare_antisym b a).
        destruct (String.compare a b) eqn:E; simpl; try done.
        apply IH; auto; simpl in *; lia.
    + rewrite (proj2 (Z.ltb_lt _ _)); [done|lia].
    + rewrite (proj2 (Z.ltb_ge _ _)) by lia. rewrite (proj2 (Z.ltb_lt _ _)); [done|lia].
Qed.

Lemma vercmp_part_spec a b va vb :
  explode_version a = Ok va → explode_version b = Ok vb →
  vercmp_part a b = Ok (cmp_Z (toks_cmp va vb)).
Proof.
  intros Ha Hb. unfold vercmp_part. rewrite Ha, Hb. cbn [mbind res_bind].
  apply vercmp_part_loop_spec; eauto using explode_toks_ok; lia.
Qed.

Lemma vcomp_cmp_antisym a b : vcomp_cmp b a = CompOpp (vcomp_cmp a b).
Proof.
  destruct a, b; simpl; [apply N.compare_antisym|done..|apply String.compare_antisym].
Qed.

Lemma vcomp_cmp_eq a b : vcomp_cmp a b = Eq ↔ a = b.
Proof.
  destruct a, b; simpl; try done.
  - rewrite N.compare_eq_iff. split; congruence.
  - split; [intros ->%String.compare_eq_iff; done|intros [= ->]; apply string_compare_refl].
Qed.

Lemma vcomp_cmp_trans a b c :
  vcomp_cmp a b = Lt → vcomp_cmp b c = Lt → vcomp_cmp a c = Lt.
Proof.
  destruct a, b, c; simpl; try done.
  - rewrite !N.compare_lt_iff. lia.
  - apply string_compare_lt_trans.
Qed.

Lemma tok_cmp_antisym a b : tok_cmp b a = CompOpp (tok_cmp a b).
Proof.
  unfold tok_cmp. rewrite (Z.compare_antisym (tok_class a)).
  destruct (tok_class a ?= tok_class b)%Z; simpl; try done.
  destruct a as [[??]|], b as [[??]|]; try done. apply vcomp_cmp_antisym.
Qed.

Lemma tok_cmp_eq a b : tok_cmp a b = Eq ↔ a = b.
Proof.
  unfold tok_cmp. destruct (Z.compare_spec (tok_class a) (tok_class b)) as [E|E|E].
  - destruct a as [[??]|], b as [[??]|]; simpl in *; try done.
    rewrite vcomp_cmp_eq. split; congruence.
  - split; [done|]. intros ->. lia.
  - split; [done|]. intros ->. lia.
Qed.

Lemma tok_cmp_trans a b c : tok_cmp a b = Lt → tok_cmp b c = Lt → tok_cmp a c = Lt.
Proof.
  unfold tok_cmp.
  destruct (Z.compare_spec (tok_class a) (tok_class b)) as [Eab|Eab|Eab]; try done;
    destruct (Z.compare_spec (tok_class b) (tok_class c)) as [Ebc|Ebc|Ebc]; try done;
    destruct (Z.compare_spec (tok_class a) (tok_class c)) as [Eac|Eac|Eac]; try done; try lia.
  destruct a as [[??]|], b as [[??]|], c as [[??]|]; try done. apply vcomp_cmp_trans.
Qed.

Lemma toks_cmp_antisym va vb : toks_cmp vb va = CompOpp (toks_cmp va vb).
Proof.
  revert vb. induction va as [|a va IH]; intros [|b vb]; cbn [toks_cmp];
    [done|apply tok_cmp_antisym..|].
  rewrite (tok_cmp_antisym (Some a)). destruct (tok_cmp (Some a) (Some b)); simpl; auto.
Qed.

Lemma toks_cmp_eq va vb : toks_cmp va vb = Eq ↔ va = vb.
Proof.
  revert vb. induction va as [|a va IH]; intros [|b vb]; cbn [toks_cmp];
    try (rewrite tok_cmp_eq; done); [done|].
  destruct (tok_cmp (Some a) (Some b)) eqn:E.
  - apply tok_cmp_eq in E as [= ->]. rewrite IH. split; congruence.
  - split; [done|]. intros [= -> _]. by rewrite (proj2 (tok_cmp_eq _ _) eq_refl) in E.
  - split; [done|]. intros [= -> _]. by rewrite (proj2 (tok_cmp_eq _ _) eq_refl) in E.
Qed.

Lemma toks_cmp_trans va vb vc :
  toks_cmp va vb = Lt → toks_cmp vb vc = Lt → toks_cmp va vc = Lt.
Proof.
  revert vb vc. induction va as [|a va IH]; intros [|b vb] [|c vc]; cbn [toks_cmp]; try done.
  - intros H1 H2. pose proof (tok_cmp_trans _ _ _ H1 H2) as H.
    by rewrite (proj2 (tok_cmp_eq _ _) eq_refl) in H.
  - destruct (tok_cmp (Some b) (Some c)) eqn:E; try done; intros H _.
    + by apply tok_cmp_eq in E as [= ->].
    + by eapply tok_cmp_trans.
  - intros H1 H2. by rewrite (tok_cmp_trans _ _ _ H1 H2).
  - destruct (tok_cmp (Some a) (Some b)) eqn:E; try done; intros H1 H2.
    + by apply tok_cmp_eq in E as [= ->].
    + by eapply tok_cmp_trans.
  - destruct (tok_cmp (Some a) (Some b)) eqn:E; try done;
      destruct (tok_cmp (Some b) (Some c)) eqn:E2; try done; intros H1 H2.
    + apply tok_cmp_eq in E as [= ->]. apply tok_cmp_eq in E2 as [= ->].
      rewrite (proj2 (tok_cmp_eq _ _) eq_refl). eauto.
    + apply tok_cmp_eq in E as [= ->]. by rewrite E2.
    + apply tok_cmp_eq in E2 as [= ->]. by rewrite E.
    + by rewrite (tok_cmp_trans _ _ _ E E2).
Qed.

(** ** [explode_version] accepts every one-line version *)

Lemma span_length p s l r :
  span p s = (l, r) → String.length s = String.length l + String.length r.
Proof.
  revert l r. induction s as [|a s IH]; simpl; intros l r; [by intros [= <- <-]|].
  destruct (p a); [|by intros [= <- <-]].
  destruct (span p s) as [l' r'] eqn:E. intros [= <- <-]. simpl. f_equal. by apply IH.
Qed.

Lemma span_rest p s l r c : span p s = (l, r) → char_in c s = false → char_in c r = false.
Proof.
  revert l r. induction s as [|a s IH]; simpl; intros l r; [by intros [= <- <-]|].
  destruct (p a).
  - destruct (span p s) as [l' r'] eqn:E. intros [= <- <-] [_ H]%orb_false_iff. eauto.
  - by intros [= <- <-].
Qed.

Lemma rest_of_line_id s : char_in newline s = false → rest_of_line s = Some s.
Proof.
  induction s as [|a s IH]; simpl; [done|].
  intros [-> H]%orb_false_iff. by rewrite IH.
Qed.

Lemma explode_go_total fuel r s :
  char_in newline s = false → String.length s ≤ fuel →
  ∃ va, explode_version_go fuel r s = Ok va.
Proof.
  revert r s. induction fuel as [|fuel IH]; intros r s Hn Hl; simpl.
  { destruct s; simpl in *; [eauto|lia]. }
  destruct s as [|a s]; [eauto|].
  assert (Hspan : ∀ p l rest, p a = true → span p (String a s) = (l, rest) →
    char_in newline rest = false ∧ String.length rest ≤ fuel).
  { intros p l rest Hp E. split; [by eapply span_rest|].
    pose proof (span_length _ _ _ _ E). simpl in E. rewrite Hp in E.
    destruct (span p s). injection E as <- <-. simpl in *. lia. }
  simpl in Hn. apply orb_false_iff in Hn as [_ Hn].
  destruct (is_digit a) eqn:Hd; [|destruct (is_letter a) eqn:Hlt].
  - destruct (span is_digit (String a s)) as [l rest] eqn:E.
    destruct (Hspan _ _ _ Hd E) as [? ?]. rewrite rest_of_line_id by done. auto.
  - destruct (span is_letter (String a s)) as [l rest] eqn:E.
    destruct (Hspan _ _ _ Hlt E) as [? ?]. rewrite rest_of_line_id by done. auto.
  - simpl in Hl. case_match; apply IH; auto; lia.
Qed.

Lemma explode_version_total s :
  char_in newline s = false → ∃ va, explode_version s = Ok va.
Proof. intros. by apply explode_go_total. Qed.

(** ** The version order *)

(** C40: on versions of one line [vercmp_part] always returns, with -1, 0
    or 1, and is a total order up to [explode_version]: comparing the other
    way round negates the result, the result is 0 exactly on versions with
    the same tokens, and "not later than" is transitive. *)
Theorem vercmp_part_total_order a b c :
  char_in newline a = false → char_in newline b = false → char_in newline c = false →
  ∃ rab rba rbc rac,
    vercmp_part a b = Ok rab ∧ vercmp_part b a = Ok rba ∧
    vercmp_part b c = Ok rbc ∧ vercmp_part a c = Ok rac ∧
    (rab = -1 ∨ rab = 0 ∨ rab = 1)%Z ∧ rba = (- rab)%Z ∧
    (rab = 0%Z ↔ explode_version a = explode_version b) ∧
    (rab ≤ 0 → rbc ≤ 0 → rac ≤ 0)%Z.
Proof.
  intros Ha Hb Hc.
  destruct (explode_version_total a Ha) as [va Ea], (explode_version_total b Hb) as [vb Eb],
    (explode_version_total c Hc) as [vc Ec].
  rewrite !(vercmp_part_spec _ _ _ _ Ea Eb), !(vercmp_part_spec _ _ _ _ Eb Ea),
    !(vercmp_part_spec _ _ _ _ Eb Ec), !(vercmp_part_spec _ _ _ _ Ea Ec), Ea, Eb.
  do 4 eexists. repeat (split; [done|]). split; [|split; [|split]].
  - destruct (toks_cmp va vb); simpl; auto.
  - rewrite toks_cmp_antisym. by destruct (toks_cmp va vb).
  - assert (cmp_Z (toks_cmp va vb) = 0%Z ↔ toks_cmp va vb = Eq) as ->
      by (destruct (toks_cmp va vb); simpl; split; done).
    rewrite toks_cmp_eq. split; congruence.
  - destruct (toks_cmp va vb) eqn:Eab; simpl; try lia;
      destruct (toks_cmp vb vc) eqn:Ebc; simpl; try lia; intros _ _;
      try apply toks_cmp_eq in Eab as ->; try apply toks_cmp_eq in Ebc as ->.
    + by rewrite (proj2 (toks_cmp_eq _ _) eq_refl).
    + by rewrite Ebc.
    + by rewrite Eab.
    + by rewrite (toks_cmp_trans _ _ _ Eab Ebc).
Qed.

(** [vercmp] is antisymmetric whenever it returns. *)
Lemma vercmp_part_antisym a b r : vercmp_part a b = Ok r → vercmp_part b a = Ok (- r)%Z.
Proof.
  unfold vercmp_part at 1.
  destruct (explode_version a) as [va|] eqn:Ea; [|done].
  destruct (explode_version b) as [vb|] eqn:Eb; [|done].
  intros H. cbn [mbind res_bind] in H.
  rewrite vercmp_part_loop_spec in H by (eauto using explode_toks_ok; lia).
  injection H as <-. rewrite (vercmp_part_spec _ _ _ _ Eb Ea), toks_cmp_antisym.
  by destruct (toks_cmp va vb).
Qed.

Lemma vercmp_antisym ta tb r : vercmp ta tb = Ok r → vercmp tb ta = Ok (- r)%Z.
Proof.
  destruct ta as [[ea va] ra], tb as [[eb vb] rb]. unfold vercmp.
  destruct (epoch_int ea) as [za|] eqn:Eza; [|done].
  destruct (epoch_int eb) as [zb|] eqn:Ezb; [|done]. cbn [mbind res_bind].
  replace (zb - za)%Z with (- (za - zb))%Z by lia.
  generalize (za - zb)%Z. intros z.
  replace (- z =? 0)%Z with (z =? 0)%Z by lia.
  destruct (Z.eqb_spec z 0) as [->|Hz].
  - destruct (vercmp_part va vb) as [rv|] eqn:Ev; [|done]. cbn [mbind res_bind].
    rewrite (vercmp_part_antisym _ _ _ Ev). cbn [mbind res_bind].
    replace (- rv =? 0)%Z with (rv =? 0)%Z by lia.
    destruct (rv =? 0)%Z; [apply vercmp_part_antisym|by intros [= ->]].
  - cbn [mbind res_bind]. replace (- z =? 0)%Z with (z =? 0)%Z by lia.
    destruct (Z.eqb_spec z 0); [done|]. by intros [= ->].
Qed.

(** What a returned comparison says of the tokens. *)
Lemma vercmp_part_Ok a b r :
  vercmp_part a b = Ok r →
  ∃ va vb, explode_version a = Ok va ∧ explode_version b = Ok vb ∧ r = cmp_Z (toks_cmp va vb).
Proof.
  unfold vercmp_part.
  destruct (explode_version a) as [va|] eqn:Ea; [|done].
  destruct (explode_version b) as [vb|] eqn:Eb; [|done].
  intros H. cbn [mbind res_bind] in H.
  rewrite vercmp_part_loop_spec in H by (eauto using explode_toks_ok; lia).
  injection H as <-. eauto.
Qed.

Lemma vercmp_part_trans a b c r1 r2 :
  vercmp_part a b = Ok r1 → vercmp_part b c = Ok r2 → (r1 ≤ 0)%Z → (r2 ≤ 0)%Z →
  ∃ r, vercmp_part a c = Ok r ∧ (r ≤ 0)%Z ∧ (r = 0%Z ↔ r1 = 0%Z ∧ r2 = 0%Z).
Proof.
  intros (va & vb & Ea & Eb & ->)%vercmp_part_Ok (vb' & vc & Eb' & Ec & ->)%vercmp_part_Ok H1 H2.
  assert (vb' = vb) as -> by congruence.
  rewrite (vercmp_part_spec _ _ _ _ Ea Ec). eexists. split; [done|].
  destruct (toks_cmp va vb) eqn:Eab; simpl in *; try lia;
    destruct (toks_cmp vb vc) eqn:Ebc; simpl in *; try lia;
    try apply toks_cmp_eq in Eab as ->; try apply toks_cmp_eq in Ebc as ->.
  - rewrite (proj2 (toks_cmp_eq _ _) eq_refl). simpl. lia.
  - rewrite Ebc. simpl. lia.
  - rewrite Eab. simpl. lia.
  - rewrite (toks_cmp_trans _ _ _ Eab Ebc). simpl. lia.
Qed.

(** [ta] is not later than [tb]. *)
Definition vercmp_le (ta tb : version) : Prop := ∃ r, vercmp ta tb = Ok r ∧ (r ≤ 0)%Z.

#[export] Instance vercmp_le_trans : Transitive vercmp_le.
Proof.
  intros [[ea va] ra] [[eb vb] rb] [[ec vc] rc]. unfold vercmp_le, vercmp.
  destruct (epoch_int ea) as [za|]; [|intros (?&?&?); done].
  destruct (epoch_int eb) as [zb|]; [|intros (?&?&?); done].
  destruct (epoch_int ec) as [zc|]; [|intros _ (?&?&?); done]. cbn [mbind res_bind].
  intros (r1 & H1 & L1) (r2 & H2 & L2).
  destruct (Z.eqb_spec (za - zb) 0) as [E1|E1]; cbn [mbind res_bind] in H1.
  - destruct (vercmp_part va vb) as [v1|] eqn:V1; [|done]. cbn [mbind res_bind] in H1.
    destruct (Z.eqb_spec (zb - zc) 0) as [E2|E2]; cbn [mbind res_bind] in H2.
    + destruct (vercmp_part vb vc) as [v2|] eqn:V2; [|done]. cbn [mbind res_bind] in H2.
      replace (za - zc)%Z with 0%Z by lia. simpl.
      destruct (vercmp_part_trans va vb vc v1 v2) as (v & -> & Lv & Ev);
        [done|done|destruct (Z.eqb_spec v1 0); [lia|simplify_eq; lia]
        |destruct (Z.eqb_spec v2 0); [lia|simplify_eq; lia]|].
      cbn [mbind res_bind]. destruct (Z.eqb_spec v 0) as [E|E].
      * apply Ev in E as [-> ->]. simpl in *.
        destruct (vercmp_part_trans ra rb rc r1 r2) as (r & ? & ? & _); eauto.
      * eauto.
    + destruct (Z.eqb_spec (zb - zc) 0); [done|]. simplify_eq.
      replace (za - zc)%Z with (zb - zc)%Z by lia.
      destruct (Z.eqb_spec (zb - zc) 0); [done|]. cbn [mbind res_bind].
      destruct (Z.eqb_spec (zb - zc) 0); [done|]. eauto.
  - destruct (Z.eqb_spec (za - zb) 0); [done|]. simplify_eq.
    assert (zb - zc ≤ 0)%Z.
    { destruct (Z.eqb_spec (zb - zc) 0); [lia|]. cbn [mbind res_bind] in H2.
      destruct (Z.eqb_spec (zb - zc) 0); [lia|]. simplify_eq. lia. }
    destruct (Z.eqb_spec (za - zc) 0); [lia|]. cbn [mbind res_bind].
    destruct (Z.eqb_spec (za - zc) 0); [lia|]. exists (za - zc)%Z. split; [done|lia].
Qed.

Lemma vercmp_string_antisym a b r :
  vercmp_string a b = Ok r → vercmp_string b a = Ok (- r)%Z.
Proof.
  unfold vercmp_string. destruct (split_version a) as [[[??]?]|]; [|done].
  destruct (split_version b) as [[[??]?]|]; [|done]. cbn [mbind res_bind].
  apply vercmp_antisym.
Qed.

(** The comparison operators agree with one another on every pair of
    comparable versions: exactly one of [<], [==] and [>] holds, [<=], [>=]
    and [!=] are their complements, the deb and rpm spellings [<<], [>>], [=]
    mean the same, swapping the versions mirrors the operator, and any other
    operator raises VersionStringException. *)
Theorem vercmp_string_op_coherent a b r op :
  vercmp_string a b = Ok r →
  op ∉ ["="; "=="; "<="; ">="; ">"; ">>"; "<"; "<<"; "!="] →
  ∃ lt eq gt,
    vercmp_string_op a b "<" = Ok lt ∧ vercmp_string_op a b "==" = Ok eq ∧
    vercmp_string_op a b ">" = Ok gt ∧
    [lt; eq; gt] ∈ [[true; false; false]; [false; true; false]; [false; false; true]] ∧
    vercmp_string_op a b "<=" = Ok (negb gt) ∧ vercmp_string_op a b ">=" = Ok (negb lt) ∧
    vercmp_string_op a b "!=" = Ok (negb eq) ∧
    vercmp_string_op a b "<<" = Ok lt ∧ vercmp_string_op a b ">>" = Ok gt ∧
    vercmp_string_op a b "=" = Ok eq ∧
    vercmp_string_op b a "<" = Ok gt ∧ vercmp_string_op b a "==" = Ok eq ∧
    vercmp_string_op a b op = Raise VersionStringException.
Proof.
  intros H Hop. unfold vercmp_string_op.
  rewrite (vercmp_string_antisym _ _ _ H), H. cbn [mbind res_bind].
  exists (r <? 0)%Z, (r =? 0)%Z, (r >? 0)%Z.
  repeat match goal with |- _ ∧ _ => split end;
    try (cbn; f_equal; lia).
  - destruct (Z.ltb_spec r 0), (Z.eqb_spec r 0), (Z.gtb_spec r 0); try lia; set_solver.
  - rewrite !bool_decide_eq_false_2; [done|..];
      intros ?; apply Hop; set_solver.
Qed.

(** ** Printing and parsing dependency strings *)

(** A name that survives the trip: one word, no comma, no leading
    parenthesis. *)
Definition dep_name_ok (n : string) : Prop :=
  is_word n ∧ char_in "," n = false ∧ startswith n "(" = false.

(** A constraint as the parser stores it: [op ver]. *)
Definition constraint_ok (v : string) : Prop :=
  ∃ op ver, v = op +s+ " " +s+ ver ∧ op ∈ two_char_ops ++ one_char_ops ∧ dep_name_ok ver.

Definition deps_ok (d : list (string * list string)) : Prop :=
  NoDup d.*1 ∧ Forall (λ kv, dep_name_ok kv.1 ∧ Forall constraint_ok kv.2) d.

(** The words of one constraint [op ver] of [n] in the printed string. *)
Definition constraint_words (n v : string) : list string :=
  match split1 " " v with
  | Some (op, ver) => [n; "(" +s+ op; ver +s+ ")"]
  | None => [n]
  end.

Definition item_words (n : string) (vs : list string) : list (list string) :=
  match vs with
  | [] => [[n]]
  | _ => constraint_words n <$> vs
  end.

Lemma constraint_ok_words n v :
  constraint_ok v →
  ∃ op ver, v = op +s+ " " +s+ ver ∧ op ∈ two_char_ops ++ one_char_ops ∧ dep_name_ok ver ∧
    constraint_words n v = [n; "(" +s+ op; ver +s+ ")"].
Proof.
  intros (op & ver & -> & Hop & Hver). exists op, ver. repeat (split; [done|]).
  unfold constraint_words. change (op +s+ " " +s+ ver) with (op +s+ String " " ver).
  rewrite split1_app; [done|]. unfold two_char_ops, one_char_ops in Hop.
  repeat (apply elem_of_cons in Hop as [->|Hop]; [done|]). by apply elem_of_nil in Hop.
Qed.

Lemma op_words op : op ∈ two_char_ops ++ one_char_ops →
  no_char is_space op = true ∧ char_in "," op = false.
Proof.
  unfold two_char_ops, one_char_ops. intros Hop.
  repeat (apply elem_of_cons in Hop as [->|Hop]; [done|]). by apply elem_of_nil in Hop.
Qed.

(** What one item prints is its words joined, each a word without commas. *)
Lemma item_words_spec n vs :
  dep_name_ok n → Forall constraint_ok vs →
  dep_items n (DList vs) = join " " <$> item_words n vs ∧
  Forall (λ ws, ws ≠ [] ∧ Forall (λ w, is_word w ∧ char_in "," w = false) ws) (item_words n vs).
Proof.
  intros (Hw & Hc & Hp) Hvs. destruct vs as [|v vs]; simpl item_words.
  { split; [done|]. apply Forall_singleton. split; [done|]. by apply Forall_singleton. }
  split.
  - change ((λ x, n +s+ " (" +s+ x +s+ ")") <$> v :: vs =
            join " " <$> (constraint_words n <$> v :: vs)).
    rewrite <-list_fmap_compose. apply list_fmap_ext. intros i x Hx%list_elem_of_lookup_2.
    rewrite Forall_forall in Hvs. unfold compose. destruct (constraint_ok_words n x (Hvs x Hx))
      as (op & ver & -> & _ & _ & ->). simpl. by rewrite !app_str_assoc.
  - change (Forall (λ ws, ws ≠ [] ∧ Forall (λ w, is_word w ∧ char_in "," w = false) ws)
      (constraint_words n <$> v :: vs)).
    rewrite Forall_fmap. eapply Forall_impl; [exact Hvs|]. intros x Hx. simpl.
    destruct (constraint_ok_words n x Hx) as (op & ver & _ & Hop & (Hvw & Hvc & _) & ->).
    destruct (op_words op Hop) as [Hos Hoc].
    split; [done|]. rewrite !Forall_cons. split_and!; try done.
    + by apply is_word_app.
    + rewrite char_in_app, Hvc. done.
Qed.

Lemma join_deps_words d commasep :
  Forall (λ kv, dep_name_ok kv.1 ∧ Forall constraint_ok kv.2) d →
  split_ws (remove_char "," (join_deps (prod_map id DList <$> d) commasep)) =
  List.concat (List.concat ((λ kv, item_words kv.1 kv.2) <$> d)).
Proof.
  intros Hd. unfold join_deps. rewrite <-list_fmap_compose.
  assert (List.concat (((λ kv, dep_items kv.1 kv.2) ∘ prod_map id DList) <$> d) =
          join " " <$> List.concat ((λ kv, item_words kv.1 kv.2) <$> d) ∧
          Forall (λ ws, ws ≠ [] ∧ Forall (λ w, is_word w ∧ char_in "," w = false) ws)
            (List.concat ((λ kv, item_words kv.1 kv.2) <$> d))) as [-> Hws].
  { induction Hd as [|[n vs] d [Hn Hvs] _ [IH1 IH2]]; [done|].
    destruct (item_words_spec n vs Hn Hvs) as [H1 H2].
    rewrite !fmap_cons. simpl in *. rewrite H1, IH1, fmap_app. split; [done|].
    by apply Forall_app. }
  rewrite remove_char_join. assert (remove_char "," (if commasep then ", " else " ") = " ") as ->
    by by destruct commasep.
  generalize dependent (List.concat ((λ kv, item_words kv.1 kv.2) <$> d)). intros wss Hws.
  rewrite <-list_fmap_compose.
  replace ((remove_char "," ∘ join " ") <$> wss) with (join " " <$> wss).
  - rewrite join_concat by (eapply Forall_impl; [exact Hws|]; by intros ? [? _]).
    apply split_ws_join. induction Hws as [|ws wss [_ Hw] _ IH]; [done|]. simpl.
    apply Forall_app. split; [|done]. eapply Forall_impl; [exact Hw|]. by intros ? [? _].
  - apply list_fmap_ext. intros i ws Hi%list_elem_of_lookup_2.
    rewrite Forall_forall in Hws. destruct (Hws ws Hi) as [_ Hw]. simpl.
    rewrite remove_char_join. f_equal. clear Hi. induction Hw as [|w ws' [_ Hcw] _ IH]; [done|].
    rewrite fmap_cons, remove_char_id by done. f_equal. apply IH.
Qed.

#[local] Arguments dep_step : simpl never.

Lemma dep_loop_app l1 l2 st : dep_loop (l1 ++ l2) st = dep_loop l1 st ≫= dep_loop l2.
Proof.
  revert st. induction l1 as [|i l1 IH]; intros st; [done|]. simpl.
  destruct (dep_step st i); simpl; [apply IH|done].
Qed.

Lemma dep_step_name r ld lc lv n :
  dep_name_ok n →
  dep_step (DepState r ld lc lv false false) n =
  Ok (DepState (match dget r (Some n) with Some (_ :: _) => r | _ => dset r (Some n) [] end)
        (Some n) "" "" false false).
Proof.
  intros (_ & _ & Hp). unfold dep_step. rewrite Hp. simpl.
  by destruct (dget r (Some n)) as [[|??]|].
Qed.

Lemma dep_step_op r n op :
  op ∈ two_char_ops ++ one_char_ops →
  dep_step (DepState r (Some n) "" "" false false) ("(" +s+ op) =
  Ok (DepState r (Some n) op "" false true).
Proof.
  unfold two_char_ops, one_char_ops. intros Hop.
  repeat (apply elem_of_cons in Hop as [->|Hop]; [reflexivity|]). by apply elem_of_nil in Hop.
Qed.

Lemma dep_step_ver r n op ver vs :
  dep_name_ok ver → dget r (Some n) = Some vs →
  dep_step (DepState r (Some n) op "" false true) (ver +s+ ")") =
  Ok (DepState (dset r (Some n) (vs ++ [op +s+ " " +s+ ver])) (Some n) op ver false false).
Proof.
  intros ([Hne _] & _ & Hp) Hr. unfold dep_step.
  assert (startswith (ver +s+ ")") "(" = false) as ->.
  { destruct (startswith (ver +s+ ")") "(") eqn:E; [|done].
    apply startswith_spec in E as [s E]. destruct ver as [|a ver]; [done|]. simpl in E.
    injection E as -> _. by rewrite (proj2 (startswith_spec _ _)) in Hp by (by exists ver). }
  simpl. unfold dep_version_word. cbn [ds_r ds_lastdep ds_lastcmp ds_lastver ds_incmp ds_inversion].
  rewrite (proj2 (endswith_spec _ _)) by eauto.
  change 1 with (String.length ")"). rewrite str_drop_last_app.
  destruct ver as [|a ver]; [done|]. cbn [str_empty negb andb].
  unfold dmem. by rewrite !Hr.
Qed.

(** The words of one constraint add it to the entry of their item. *)
Lemma dep_loop_constraint r ld lc lv n v vs :
  dep_name_ok n → constraint_ok v → Some n ∉ dkeys r →
  ∃ lc' lv',
    dep_loop (constraint_words n v) (DepState (r ++ [(Some n, vs)]) ld lc lv false false) =
    Ok (DepState (r ++ [(Some n, vs ++ [v])]) (Some n) lc' lv' false false).
Proof.
  intros Hn Hv Hr. destruct (constraint_ok_words n v Hv) as (op & ver & -> & Hop & Hver & ->).
  exists op, ver. cbn [dep_loop]. rewrite dep_step_name by done. rewrite dget_last by done.
  assert (match vs with [] => dset (r ++ [(Some n, vs)]) (Some n) [] | _ :: _ => r ++ [(Some n, vs)] end
          = r ++ [(Some n, vs)]) as ->.
  { destruct vs; [|done]. by apply dset_last. }
  cbn [mbind res_bind]. rewrite dep_step_op by done. cbn [mbind res_bind].
  rewrite (dep_step_ver _ _ _ _ vs) by (auto using dget_last). simpl. by rewrite dset_last.
Qed.

Lemma dep_loop_constraints r ld lc lv n vs vs0 :
  dep_name_ok n → Forall constraint_ok vs → Some n ∉ dkeys r →
  ∃ ld' lc' lv',
    dep_loop (List.concat (constraint_words n <$> vs))
      (DepState (r ++ [(Some n, vs0)]) ld lc lv false false) =
    Ok (DepState (r ++ [(Some n, vs0 ++ vs)]) ld' lc' lv' false false).
Proof.
  intros Hn Hvs Hr. revert ld lc lv vs0. induction Hvs as [|v vs Hv _ IH]; intros ld lc lv vs0.
  { simpl. rewrite app_nil_r. eauto. }
  rewrite fmap_cons. simpl List.concat. rewrite dep_loop_app.
  destruct (dep_loop_constraint r ld lc lv n v vs0 Hn Hv Hr) as (lc' & lv' & ->).
  cbn [mbind res_bind]. destruct (IH (Some n) lc' lv' (vs0 ++ [v])) as (a & b & c & ->).
  rewrite <-app_assoc. eauto.
Qed.

Lemma dep_loop_item r ld lc lv n vs :
  dep_name_ok n → Forall constraint_ok vs → Some n ∉ dkeys r →
  ∃ ld' lc' lv',
    dep_loop (List.concat (item_words n vs)) (DepState r ld lc lv false false) =
    Ok (DepState (r ++ [(Some n, vs)]) ld' lc' lv' false false).
Proof.
  intros Hn Hvs Hr. assert (dget r (Some n) = None) as HN by by apply dget_None.
  destruct Hvs as [|v vs Hv Hvs].
  { simpl. rewrite dep_step_name, HN, dset_fresh by done. eauto. }
  change (item_words n (v :: vs)) with (constraint_words n <$> v :: vs).
  destruct (constraint_ok_words n v Hv) as (op & ver & Ev & Hop & Hver & Ew).
  assert (dep_loop (List.concat (constraint_words n <$> v :: vs)) (DepState r ld lc lv false false)
    = dep_loop (List.concat (constraint_words n <$> v :: vs))
        (DepState (r ++ [(Some n, [])]) ld lc lv false false)) as ->.
  { rewrite fmap_cons. simpl List.concat. rewrite Ew. simpl.
    by rewrite !dep_step_name, HN, dget_last, dset_fresh, dset_last by done. }
  by apply dep_loop_constraints; [|constructor|].
Qed.

Lemma dep_loop_items d r ld lc lv :
  Forall (λ kv, dep_name_ok kv.1 ∧ Forall constraint_ok kv.2) d →
  NoDup (dkeys r ++ (Some <$> d.*1)) →
  ∃ ld' lc' lv',
    dep_loop (List.concat (List.concat ((λ kv, item_words kv.1 kv.2) <$> d)))
      (DepState r ld lc lv false false) =
    Ok (DepState (r ++ (prod_map Some id <$> d)) ld' lc' lv' false false).
Proof.
  intros Hd. revert r ld lc lv. induction Hd as [|[n vs] d [Hn Hvs] _ IH]; intros r ld lc lv Hnd.
  { simpl. rewrite app_nil_r. eauto. }
  rewrite !fmap_cons in *. simpl in *. rewrite concat_app, dep_loop_app.
  apply NoDup_app in Hnd as Hnd'. destruct Hnd' as (_ & Hdisj & _).
  destruct (dep_loop_item r ld lc lv n vs) as (a & b & c & ->); [done..| |].
  { intros Hin. apply (Hdisj _ Hin). left. }
  cbn [mbind res_bind]. destruct (IH (r ++ [(Some n, vs)]) a b c) as (a' & b' & c' & ->).
  - unfold dkeys in *. rewrite fmap_app. simpl. by rewrite <-app_assoc.
  - rewrite <-app_assoc. eauto.
Qed.

#[export] Instance dep_key_le_total : Total dep_key_le.
Proof.
  intros [[a|] ?] [[b|] ?]; unfold dep_key_le; simpl; auto. apply (total String.le).
Qed.

#[export] Instance dep_key_le_trans : Transitive dep_key_le.
Proof.
  intros [[a|] ?] [[b|] ?] [[c|] ?]; unfold dep_key_le; simpl; auto; try done.
  apply (transitivity (R := String.le)).
Qed.

Lemma existsb_no_none (d : list (string * list string)) :
  existsb (λ x : option string * list string, match x.1 with None => true | _ => false end)
    (prod_map Some id <$> d) = false.
Proof. by induction d. Qed.

(** Printing a dictionary of dependencies with [join_deps], with
    or without commas, and parsing the string gives the dictionary back: the
    same names in the same order, each with the same constraints in the same
    order; the sorted form is that dictionary sorted by name. *)
Theorem join_explode_deps_roundtrip d commasep :
  deps_ok d →
  explode_dep_versions2 (join_deps (prod_map id DList <$> d) commasep) false =
    Ok (prod_map Some id <$> d) ∧
  ∃ sorted_d,
    explode_dep_versions2 (join_deps (prod_map id DList <$> d) commasep) true = Ok sorted_d ∧
    sorted_d ≡ₚ prod_map Some id <$> d ∧ StronglySorted dep_key_le sorted_d.
Proof.
  intros [Hnd Hd]. unfold explode_dep_versions2. rewrite join_deps_words by done.
  destruct (dep_loop_items d [] None "" "" Hd) as (a & b & c & ->).
  { cbn [dkeys]. apply (NoDup_fmap_2 Some). exact Hnd. }
  cbn [mbind res_bind ds_r]. split; [done|]. unfold sort_deps.
  cbn [app]. rewrite existsb_no_none. case_bool_decide as Hlen.
  - eexists. split; [done|]. split; [done|]. simpl in *.
    destruct (prod_map Some id <$> d) as [|x [|y l]]; simpl in *; [by constructor| |lia].
    by apply SSorted_cons; [apply SSorted_nil|].
  - eexists. split; [done|]. split; [apply merge_sort_Permutation|].
    by apply (StronglySorted_merge_sort dep_key_le).
Qed.

Lemma join_explode_deps_roundtrip_witness :
  explode_dep_versions2
    (join_deps (prod_map id DList <$> [("foo", [">= 1.0"; "< 2"]); ("bar", [])]) true) false =
    Ok [(Some "foo", [">= 1.0"; "< 2"]); (Some "bar", [])].
Proof.
  apply (join_explode_deps_roundtrip [("foo", [">= 1.0"; "< 2"]); ("bar", [])] true).
  assert (Hn : ∀ n, is_word n → char_in "," n = false → startswith n "(" = false → dep_name_ok n)
    by (unfold dep_name_ok; auto).
  split; [vm_compute; repeat constructor; set_solver|].
  repeat apply Forall_cons_2; try apply Forall_nil_2; simpl; split;
    try (apply Hn; [split; [discriminate|reflexivity]|reflexivity..]);
    repeat apply Forall_cons_2; try apply Forall_nil_2.
  - exists ">=", "1.0". split; [done|]. split; [unfold two_char_ops; set_solver|].
    apply Hn; [split; [discriminate|reflexivity]|reflexivity..].
  - exists "<", "2". split; [done|]. split; [unfold two_char_ops, one_char_ops; set_solver|].
    apply Hn; [split; [discriminate|reflexivity]|reflexivity..].
Defined.

Lemma vercmp_part_total_order_witness :
  vercmp_part "1.9" "1.10" = Ok (-1)%Z ∧ vercmp_part "1.10" "1.9" = Ok 1%Z.
Proof.
  destruct (vercmp_part_total_order "1.9" "1.10" "1.10") as (r & r' & _ & _ & H & H' & _ & _ & Hr & -> & _);
    [reflexivity..|].
  assert (r = -1)%Z as ->.
  { assert (vercmp_part "1.9" "1.10" = Ok (-1)%Z) as E by (vm_compute; reflexivity). congruence. }
  by split.
Defined.

Lemma vercmp_string_op_coherent_witness :
  ∃ lt, vercmp_string_op "1:2.0-r1" "1:2.0-r2" "<<" = Ok lt ∧ lt = true.
Proof.
  destruct (vercmp_string_op_coherent "1:2.0-r1" "1:2.0-r2" (-1)%Z "~>") as (lt & _ & _ & Hlt & _);
    [vm_compute; reflexivity|rewrite !not_elem_of_cons; repeat (split; [done|]); apply not_elem_of_nil|].
  vm_compute in Hlt. injection Hlt as <-. exists true. split; vm_compute; reflexivity.
Defined.
