(* ===== verification/TaskIds.v ===== *)
(** * Task identifiers (bb/runqueue.py)

    A task is named by a string [fn:task], or [mc:<config>:fn:task] for a task
    of a multiconfig.  The functions here take such names apart and build
    them, as the module-level functions of runqueue.py do. *)

From S2P Require Import Prelude.
From S2P Require Import PyStr.
From Stdlib Require Import Ascii String.

(** [tid.rsplit(":", 1)[0]] *)
Definition fn_from_tid (tid : string) : string :=
  match rsplit1 ":" tid with Some (l, _) => l | None => tid end.

(** [tid.rsplit(":", 1)[1]] *)
Definition taskname_from_tid (tid : string) : res string :=
  match rsplit1 ":" tid with Some (_, r) => Ok r | None => Raise IndexError end.

Definition mc_from_tid (tid : string) : string :=
  if startswith tid "mc:" then
    match split_on ":" tid with _ :: mc :: _ => mc | _ => "" end
  else "".

(** [(mc, fn, taskname, mcfn)] *)
Definition split_tid_mcfn (tid : string) : res (string * string * string * string) :=
  if startswith tid "mc:" then
    match split_on ":" tid with
    | m :: mc :: rest =>
        match List.rev (m :: mc :: rest) with
        | taskname :: _ =>
            let fn := join ":" (removelast rest) in
            Ok (mc, fn, taskname, "mc:" +s+ mc +s+ ":" +s+ fn)
        | [] => Raise IndexError
        end
    | _ => Raise IndexError
    end
  else
    match rsplit1 ":" tid with
    | Some (fn, taskname) => Ok ("", fn, taskname, fn)
    | None => Raise IndexError
    end.

Definition split_tid (tid : string) : res (string * string * string) :=
  '(mc, fn, taskname, _) ← split_tid_mcfn tid; Ok (mc, fn, taskname).

(** [_, mc, n = n.split(":", 2)]: fewer than three parts is a ValueError. *)
Definition split_mc (n : string) : res (string * string) :=
  if startswith n "mc:" then
    match split1 ":" n with
    | Some (_, rest) =>
        match split1 ":" rest with
        | Some (mc, n) => Ok (mc, n)
        | None => Raise ValueError
        end
    | None => Raise ValueError
    end
  else Ok ("", n).

Definition build_tid (mc fn taskname : string) : string :=
  if negb (str_empty mc)
  then "mc:" +s+ mc +s+ ":" +s+ fn +s+ ":" +s+ taskname
  else fn +s+ ":" +s+ taskname.

(** ** Laws *)

Lemma split_tid_mcfn_build mc fn task :
  char_in ":" mc = false → char_in ":" task = false →
  (mc = "" → startswith fn "mc:" = false ∧ startswith (fn +s+ ":" +s+ task) "mc:" = false) →
  split_tid_mcfn (build_tid mc fn task) =
    Ok (mc, fn, task, if str_empty mc then fn else "mc:" +s+ mc +s+ ":" +s+ fn).
Proof.
  intros Hmc Ht Hfn. unfold build_tid. destruct mc as [|a mc]; simpl str_empty; cbn [negb].
  - destruct (Hfn eq_refl) as [_ H]. unfold split_tid_mcfn. rewrite H.
    change (":" +s+ task) with (String ":" task). by rewrite rsplit1_app.
  - set (m := String a mc) in *. unfold split_tid_mcfn.
    rewrite (proj2 (startswith_spec _ _)) by eauto.
    change ("mc:" +s+ m +s+ ":" +s+ fn +s+ ":" +s+ task) with
      ("mc" +s+ String ":" (m +s+ String ":" (fn +s+ String ":" task))).
    rewrite !split_on_app, (split_on_word _ "mc"), (split_on_word _ m),
      (split_on_word _ task) by done.
    change (["mc"] ++ [m] ++ split_on ":" fn ++ [task]) with
      ("mc" :: m :: (split_on ":" fn ++ [task])). cbn beta iota.
    rewrite removelast_last.
    change ("mc" :: m :: split_on ":" fn ++ [task]) with (("mc" :: m :: split_on ":" fn) ++ [task]).
    rewrite List.rev_app_distr. cbn [List.rev app].
    pose proof (join_split_on ":" fn) as E. unfold str1 in E. by rewrite E.
Qed.

(** Building a task id from a configuration, a file and a task name and
    splitting it again gives the three back, with the file's [mc:]-prefixed
    name, and the same file and task name by the shorter accessors; the file
    name may itself contain colons. *)
Theorem build_split_tid_roundtrip mc fn task :
  char_in ":" mc = false → char_in ":" task = false →
  (mc = "" → startswith fn "mc:" = false ∧ startswith (fn +s+ ":" +s+ task) "mc:" = false) →
  let mcfn := if str_empty mc then fn else "mc:" +s+ mc +s+ ":" +s+ fn in
  split_tid_mcfn (build_tid mc fn task) = Ok (mc, fn, task, mcfn) ∧
  split_tid (build_tid mc fn task) = Ok (mc, fn, task) ∧
  mc_from_tid (build_tid mc fn task) = mc ∧
  taskname_from_tid (build_tid mc fn task) = Ok task ∧
  fn_from_tid (build_tid mc fn task) = mcfn ∧
  split_mc mcfn = Ok (mc, fn).
Proof.
  intros Hmc Ht Hfn mcfn. pose proof (split_tid_mcfn_build mc fn task Hmc Ht Hfn) as Hs.
  assert (Hr : rsplit1 ":" (build_tid mc fn task) = Some (mcfn, task)).
  { unfold build_tid, mcfn. destruct mc as [|a mc]; cbn [str_empty negb].
    - by apply rsplit1_app.
    - set (m := String a mc).
      replace ("mc:" +s+ m +s+ ":" +s+ fn +s+ ":" +s+ task) with
        (("mc:" +s+ m +s+ ":" +s+ fn) +s+ String ":" task) by by rewrite !app_str_assoc.
      by apply rsplit1_app. }
  split; [done|]. unfold split_tid, taskname_from_tid, fn_from_tid. rewrite Hs, Hr.
  repeat (split; [done|]).
  unfold mc_from_tid, split_mc, mcfn, build_tid in *. destruct mc as [|a mc]; cbn [str_empty negb].
  - destruct (Hfn eq_refl) as [-> ->]. done.
  - set (m := String a mc) in *. rewrite !(proj2 (startswith_spec _ "mc:")) by eauto.
    change ("mc:" +s+ m +s+ ":" +s+ fn +s+ ":" +s+ task) with
      ("mc" +s+ String ":" (m +s+ String ":" (fn +s+ String ":" task))).
    rewrite !split_on_app, (split_on_word _ "mc"), (split_on_word _ m) by done.
    do 3 (split; [done|]).
    change ("mc:" +s+ m +s+ ":" +s+ fn) with ("mc" +s+ String ":" (m +s+ String ":" fn)).
    by rewrite !split1_app.
Qed.

Lemma build_split_tid_roundtrip_witness :
  split_tid (build_tid "zynq" "/r/gr-zynq.bb" "do_compile") = Ok ("zynq", "/r/gr-zynq.bb", "do_compile").
Proof. by apply build_split_tid_roundtrip. Defined.
