(* ===== verification/Cache.v ===== *)
(** * Recipe cache data (bb/cache.py)

    [CacheData] is what the rest of the engine knows of the parsed recipes:
    who provides what, dependencies, versions.  [add_cacheData] adds one
    parsed recipe.  Virtual file names, which name a variant of a recipe file,
    are built and taken apart here too. *)

From Stdlib Require Import Ascii String.
From S2P Require Import Prelude.
From S2P Require Import PyStr.
From S2P Require Import PyDict.

Abbreviation dict V := (list (string * V)).

(** [_task_deps] of a recipe: its tasks, the tasks each must follow, and for
    every flag such as ['depends'] or ['nostamp'] the tasks that set it. *)
Record TaskDeps : Type := MkTaskDeps {
  td_tasks : list string;
  td_parents : dict (list string);
  td_flags : dict (dict string)
}.

(** [flag in task_deps and task in task_deps[flag]], with the value. *)
Definition task_flag (td : TaskDeps) (flag task : string) : option string :=
  match dget (td_flags td) flag with
  | Some tasks => dget tasks task
  | None => None
  end.

(** What is kept of a parsed recipe.  [ri_inherits] is the list of its
    classes, empty where the code has the empty string for none. *)
Record RecipeInfo : Type := MkRecipeInfo {
  ri_pn : string;
  ri_pe : string;
  ri_pv : string;
  ri_pr : string;
  ri_task_deps : TaskDeps;
  ri_defaultpref : Z;
  ri_provides : list string;
  ri_rprovides : list string;
  ri_packages : list string;
  ri_packages_dynamic : list string;
  ri_rprovides_pkg : dict (list string);
  ri_depends : list string;
  ri_rdepends : list string;
  ri_rrecommends : list string;
  ri_rdepends_pkg : dict (list string);
  ri_rrecommends_pkg : dict (list string);
  ri_not_world : string;
  ri_stamp : string;
  ri_stampclean : string;
  ri_stamp_extrainfo : dict (option string);
  ri_file_checksums : dict string;
  ri_basetaskhashes : dict string;
  ri_hashfilename : string;
  ri_inherits : list string;
  ri_fakerootenv : string;
  ri_fakerootnoenv : string;
  ri_fakerootdirs : string;
  ri_extradepsfunc : string
}.

Record CacheData : Type := MkCacheData {
  task_deps : dict TaskDeps;
  pkg_fn : dict string;
  pkg_pn : dict (list string);
  pkg_pepvpr : dict (string * string * string);
  pkg_dp : dict Z;
  stamp : dict string;
  stampclean : dict string;
  stamp_extrainfo : dict (dict (option string));
  file_checksums : dict (dict string);
  fn_provides : dict (list string);
  pn_provides : dict (list string);
  all_depends : list string;
  deps : dict (list string);
  packages : dict (list string);
  providers : dict (list string);
  rproviders : dict (list string);
  packages_dynamic : dict (list string);
  rundeps : dict (dict (list string));
  runrecs : dict (dict (list string));
  possible_world : list string;
  universe_target : list string;
  hashfn : dict string;
  basetaskhash : dict string;
  inherits : dict (list string);
  fakerootenv : dict string;
  fakerootnoenv : dict string;
  fakerootdirs : dict string;
  extradepsfunc : dict string;
  preferred : dict string;
  ignored_dependencies : list string;
  world_target : gset string;
  bbfile_priority : dict Z
}.

(** [CoreRecipeInfo.init_cacheData], with the fields [CacheData.__init__] adds. *)
Definition init_cacheData : CacheData :=
  MkCacheData [] [] [] [] [] [] [] [] [] [] [] [] [] [] [] [] [] [] [] [] [] [] [] [] [] [] [] []
    [] [] ∅ [].

(** [d[k].append(v)] of a [defaultdict(list)]. *)
Definition dappend (d : dict (list string)) (k v : string) : dict (list string) :=
  dset d k (default [] (dget d k) ++ [v]).

(** [if v not in d[k]: d[k].append(v)]; the lookup creates a missing entry. *)
Definition dappend_new (d : dict (list string)) (k v : string) : dict (list string) :=
  if bool_decide (v ∈ default [] (dget d k))
  then dset d k (default [] (dget d k)) else dappend d k v.

(** [if v not in l: l.append(v)] *)
Definition append_new (l : list string) (v : string) : list string :=
  if bool_decide (v ∈ l) then l else l ++ [v].

(** The recipe's own name first, then each PROVIDES entry once. *)
Definition provides_list (ri : RecipeInfo) : list string :=
  foldl append_new [ri_pn ri] (ri_provides ri).

Definition set_rprovides (ri : RecipeInfo) (l : list string) : RecipeInfo :=
  MkRecipeInfo (ri_pn ri) (ri_pe ri) (ri_pv ri) (ri_pr ri) (ri_task_deps ri) (ri_defaultpref ri)
    (ri_provides ri) l (ri_packages ri) (ri_packages_dynamic ri) (ri_rprovides_pkg ri)
    (ri_depends ri) (ri_rdepends ri) (ri_rrecommends ri) (ri_rdepends_pkg ri)
    (ri_rrecommends_pkg ri) (ri_not_world ri) (ri_stamp ri) (ri_stampclean ri)
    (ri_stamp_extrainfo ri) (ri_file_checksums ri) (ri_basetaskhashes ri) (ri_hashfilename ri)
    (ri_inherits ri) (ri_fakerootenv ri) (ri_fakerootnoenv ri) (ri_fakerootdirs ri)
    (ri_extradepsfunc ri).

(** The stages of [add_cacheData], each a stretch of assignments without a
    lookup that can fail. *)
Definition add_own (ri : RecipeInfo) (fn : string) (c : CacheData) : CacheData :=
  MkCacheData
    (dset (task_deps c) fn (ri_task_deps ri))
    (dset (pkg_fn c) fn (ri_pn ri))
    (dappend (pkg_pn c) (ri_pn ri) fn)
    (dset (pkg_pepvpr c) fn (ri_pe ri, ri_pv ri, ri_pr ri))
    (dset (pkg_dp c) fn (ri_defaultpref ri))
    (dset (stamp c) fn (ri_stamp ri))
    (dset (stampclean c) fn (ri_stampclean ri))
    (dset (stamp_extrainfo c) fn (ri_stamp_extrainfo ri))
    (dset (file_checksums c) fn (ri_file_checksums ri))
    (dset (fn_provides c) fn (provides_list ri))
    (foldl (λ d p, dappend_new d (ri_pn ri) p) (pn_provides c) (provides_list ri))
    (foldl append_new (all_depends c) (ri_depends ri))
    (foldl (λ d dep, dappend_new d fn dep) (deps c) (ri_depends ri))
    (packages c)
    (foldl (λ d p, dappend d p fn) (providers c) (provides_list ri))
    (rproviders c) (packages_dynamic c) (rundeps c) (runrecs c) (possible_world c)
    (universe_target c) (hashfn c) (basetaskhash c) (inherits c) (fakerootenv c) (fakerootnoenv c)
    (fakerootdirs c) (extradepsfunc c) (preferred c) (ignored_dependencies c) (world_target c)
    (bbfile_priority c).

Definition set_packages (d : dict (list string)) (c : CacheData) : CacheData :=
  MkCacheData
    (task_deps c) (pkg_fn c) (pkg_pn c) (pkg_pepvpr c) (pkg_dp c) (stamp c) (stampclean c)
    (stamp_extrainfo c) (file_checksums c) (fn_provides c) (pn_provides c) (all_depends c) (deps c)
    d
    (providers c) (rproviders c) (packages_dynamic c) (rundeps c) (runrecs c) (possible_world c)
    (universe_target c) (hashfn c) (basetaskhash c) (inherits c) (fakerootenv c) (fakerootnoenv c)
    (fakerootdirs c) (extradepsfunc c) (preferred c) (ignored_dependencies c) (world_target c)
    (bbfile_priority c).

Definition add_runtime (ri : RecipeInfo) (fn : string) (c : CacheData) : CacheData :=
  MkCacheData
    (task_deps c) (pkg_fn c) (pkg_pn c) (pkg_pepvpr c) (pkg_dp c) (stamp c) (stampclean c)
    (stamp_extrainfo c) (file_checksums c) (fn_provides c) (pn_provides c) (all_depends c) (deps c)
    (packages c) (providers c)
    (foldl (λ d p, dappend_new d p fn) (rproviders c) (ri_rprovides ri))
    (foldl (λ d package, dappend d package fn) (packages_dynamic c) (ri_packages_dynamic ri))
    (rundeps c) (runrecs c) (possible_world c) (universe_target c) (hashfn c) (basetaskhash c)
    (inherits c) (fakerootenv c) (fakerootnoenv c) (fakerootdirs c) (extradepsfunc c) (preferred c)
    (ignored_dependencies c) (world_target c) (bbfile_priority c).

Definition set_rundeps (d : dict (dict (list string))) (c : CacheData) : CacheData :=
  MkCacheData
    (task_deps c) (pkg_fn c) (pkg_pn c) (pkg_pepvpr c) (pkg_dp c) (stamp c) (stampclean c)
    (stamp_extrainfo c) (file_checksums c) (fn_provides c) (pn_provides c) (all_depends c) (deps c)
    (packages c) (providers c) (rproviders c) (packages_dynamic c)
    d
    (runrecs c) (possible_world c) (universe_target c) (hashfn c) (basetaskhash c) (inherits c)
    (fakerootenv c) (fakerootnoenv c) (fakerootdirs c) (extradepsfunc c) (preferred c)
    (ignored_dependencies c) (world_target c) (bbfile_priority c).

Definition set_runrecs (d : dict (dict (list string))) (c : CacheData) : CacheData :=
  MkCacheData
    (task_deps c) (pkg_fn c) (pkg_pn c) (pkg_pepvpr c) (pkg_dp c) (stamp c) (stampclean c)
    (stamp_extrainfo c) (file_checksums c) (fn_provides c) (pn_provides c) (all_depends c) (deps c)
    (packages c) (providers c) (rproviders c) (packages_dynamic c) (rundeps c)
    d
    (possible_world c) (universe_target c) (hashfn c) (basetaskhash c) (inherits c) (fakerootenv c)
    (fakerootnoenv c) (fakerootdirs c) (extradepsfunc c) (preferred c) (ignored_dependencies c)
    (world_target c) (bbfile_priority c).

Definition add_rest (ri : RecipeInfo) (fn : string) (c : CacheData) : CacheData :=
  MkCacheData
    (task_deps c) (pkg_fn c) (pkg_pn c) (pkg_pepvpr c) (pkg_dp c) (stamp c) (stampclean c)
    (stamp_extrainfo c) (file_checksums c) (fn_provides c) (pn_provides c) (all_depends c) (deps c)
    (packages c) (providers c) (rproviders c) (packages_dynamic c) (rundeps c) (runrecs c)
    (if str_empty (ri_not_world ri) then possible_world c ++ [fn] else possible_world c)
    (universe_target c ++ [ri_pn ri])
    (dset (hashfn c) fn (ri_hashfilename ri))
    (foldl (λ d kv, dset d (fn +s+ ":" +s+ kv.1) kv.2) (basetaskhash c) (ri_basetaskhashes ri))
    (dset (inherits c) fn (ri_inherits ri))
    (dset (fakerootenv c) fn (ri_fakerootenv ri))
    (dset (fakerootnoenv c) fn (ri_fakerootnoenv ri))
    (dset (fakerootdirs c) fn (ri_fakerootdirs ri))
    (dset (extradepsfunc c) fn (ri_extradepsfunc ri))
    (preferred c) (ignored_dependencies c) (world_target c) (bbfile_priority c).

(** A package's turn in the first loop.  [rprovides = self.rprovides] is an
    alias: the [+=] also extends the recipe info's own list. *)
Definition add_package (fn package : string) : M (CacheData * RecipeInfo) unit :=
  _ ← modify (λ s, (set_packages (dappend (packages s.1) package fn) s.1, s.2));
  s ← get;
  l ← lift (of_option KeyError (dget (ri_rprovides_pkg s.2) package));
  modify (λ s, (s.1, set_rprovides s.2 (ri_rprovides s.2 ++ l))).

(** [d[fn][package] = own + l] of a [defaultdict(dict)]. *)
Definition dset2 (d : dict (dict (list string))) (fn package : string) (l : list string) :
    dict (dict (list string)) := dset d fn (dset (default [] (dget d fn)) package l).

(** A package's turn in the second loop: [rundeps] and [runrecs]. *)
Definition add_package_deps (fn package : string) : M (CacheData * RecipeInfo) unit :=
  s ← get;
  l ← lift (of_option KeyError (dget (ri_rdepends_pkg s.2) package));
  _ ← modify (λ s, (set_rundeps (dset2 (rundeps s.1) fn package (ri_rdepends s.2 ++ l)) s.1, s.2));
  l ← lift (of_option KeyError (dget (ri_rrecommends_pkg s.2) package));
  modify (λ s, (set_runrecs (dset2 (runrecs s.1) fn package (ri_rrecommends s.2 ++ l)) s.1, s.2)).

(** [CoreRecipeInfo.add_cacheData]: the state is the cache, to which the
    recipe [fn] is added, and the recipe info, whose [rprovides] the method
    extends; both keep what was written before a KeyError. *)
Definition add_cacheData (fn : string) : M (CacheData * RecipeInfo) unit :=
  _ ← modify (λ s, (add_own s.2 fn s.1, s.2));
  s ← get;
  _ ← for_each (ri_packages s.2) (add_package fn);
  _ ← modify (λ s, (add_runtime s.2 fn s.1, s.2));
  _ ← for_each (ri_packages s.2) (add_package_deps fn);
  modify (λ s, (add_rest s.2 fn s.1, s.2)).

(** ** Virtual file names *)

(** [(fn, cls, mc)] *)
Definition virtualfn2realfn (virtualfn : string) : string * string * string :=
  let '(mc, virtualfn) :=
    if startswith virtualfn "mc:" then
      match split_on ":" virtualfn with
      | _ :: mc :: rest => (mc, join ":" rest)
      | _ => ("", virtualfn)
      end
    else ("", virtualfn) in
  if startswith virtualfn "virtual:" then
    let elems := split_on ":" virtualfn in
    (List.last elems "", join ":" (removelast (tail elems)), mc)
  else (virtualfn, "", mc).

Definition realfn2virtual (realfn cls mc : string) : string :=
  let realfn := if negb (str_empty cls) then "virtual:" +s+ cls +s+ ":" +s+ realfn else realfn in
  if negb (str_empty mc) then "mc:" +s+ mc +s+ ":" +s+ realfn else realfn.

Definition variant2virtual (realfn variant : string) : res string :=
  if str_empty variant then Ok realfn
  else if startswith variant "mc:" then
    match split_on ":" variant with
    | _ :: mc :: e2 :: rest =>
        if negb (str_empty e2)
        then Ok ("mc:" +s+ mc +s+ ":virtual:" +s+ join ":" (e2 :: rest) +s+ ":" +s+ realfn)
        else Ok ("mc:" +s+ mc +s+ ":" +s+ realfn)
    | _ => Raise IndexError
    end
  else Ok ("virtual:" +s+ variant +s+ ":" +s+ realfn).

(** ** Laws of the dictionary helpers *)

Lemma dget_dappend d k v k' :
  dget (dappend d k v) k' = if decide (k = k') then Some (default [] (dget d k) ++ [v]) else dget d k'.
Proof. apply dget_dset. Qed.

(** Adding [v] under each key of [l]. *)
Lemma dget_fold_dappend (l : list string) (d : dict (list string)) v k :
  NoDup l →
  dget (foldl (λ d k, dappend d k v) d l) k =
    if decide (k ∈ l) then Some (default [] (dget d k) ++ [v]) else dget d k.
Proof.
  revert d. induction l as [|x l IH]; intros d Hnd; simpl.
  { done. }
  apply NoDup_cons in Hnd as [Hx Hnd]. rewrite IH by done. rewrite dget_dappend.
  destruct (decide (x = k)) as [->|Hne].
  - rewrite decide_False by done. by rewrite decide_True by apply list_elem_of_here.
  - destruct (decide (k ∈ l)).
    + by rewrite decide_True by by apply list_elem_of_further.
    + rewrite decide_False; [done|]. by intros [?|?]%elem_of_cons.
Qed.

Lemma fold_dappend_wf (l : list string) (d : dict (list string)) v :
  dict_wf d → dict_wf (foldl (λ d k, dappend d k v) d l).
Proof. revert d. induction l; intros; simpl; [done|]. apply IHl. by apply dset_wf. Qed.

Lemma dget_dappend_new d k v :
  dget (dappend_new d k v) k = Some (append_new (default [] (dget d k)) v).
Proof.
  unfold dappend_new, append_new. case_bool_decide; [|unfold dappend]; by rewrite dget_dset_eq.
Qed.

Lemma dget_dappend_new_ne d k k' v : k ≠ k' → dget (dappend_new d k v) k' = dget d k'.
Proof.
  intros. unfold dappend_new. case_bool_decide; [|unfold dappend]; by rewrite dget_dset_ne.
Qed.

(** Adding each of [l] under the one key [k]. *)
Lemma dget_fold_dappend_new (l : list string) (d : dict (list string)) k k' :
  default [] (dget (foldl (λ d v, dappend_new d k v) d l) k') =
    if decide (k = k') then foldl append_new (default [] (dget d k)) l else default [] (dget d k').
Proof.
  revert d. induction l as [|v l IH]; intros d; simpl; [by case_decide; subst|].
  rewrite IH. case_decide; subst.
  - by rewrite dget_dappend_new.
  - by rewrite dget_dappend_new_ne.
Qed.

Lemma elem_of_append_new l v x : x ∈ append_new l v ↔ x ∈ l ∨ x = v.
Proof.
  unfold append_new. case_bool_decide; [|rewrite elem_of_app, list_elem_of_singleton; done].
  split; [auto|]. by intros [?| ->].
Qed.

Lemma NoDup_append_new l v : NoDup l → NoDup (append_new l v).
Proof.
  unfold append_new. case_bool_decide; [done|]. intros. apply NoDup_app. split; [done|].
  split; [|apply NoDup_singleton]. intros x Hx ->%list_elem_of_singleton. done.
Qed.

Lemma elem_of_fold_append_new l acc x :
  x ∈ foldl append_new acc l ↔ x ∈ acc ∨ x ∈ l.
Proof.
  revert acc. induction l as [|v l IH]; intros acc; simpl; [set_solver|].
  rewrite IH, elem_of_append_new, elem_of_cons. tauto.
Qed.

Lemma NoDup_fold_append_new l acc : NoDup acc → NoDup (foldl append_new acc l).
Proof. revert acc. induction l; intros; simpl; [done|]. apply IHl. by apply NoDup_append_new. Qed.

Lemma elem_of_provides_list ri p : p ∈ provides_list ri ↔ p = ri_pn ri ∨ p ∈ ri_provides ri.
Proof. unfold provides_list. rewrite elem_of_fold_append_new, list_elem_of_singleton. done. Qed.

Lemma NoDup_provides_list ri : NoDup (provides_list ri).
Proof. apply NoDup_fold_append_new, NoDup_singleton. Qed.

(** ** The cache is consistent *)

(** The files providing [p], in the order they were added. *)
Definition providers_of (c : CacheData) (p : string) : list string :=
  default [] (dget (providers c) p).

(** Every index agrees with the others: the files listed as providers of [p]
    are those whose provides list has [p]; the files listed under a recipe
    name are those with that name; a recipe provides its own name and the
    by-name provides cover the by-file ones; the per-file tables know the same
    files; no file is listed twice. *)
Record cache_ok (c : CacheData) : Prop := {
  ok_keys_deps : dkeys (task_deps c) = dkeys (pkg_fn c);
  ok_keys_pepvpr : dkeys (pkg_pepvpr c) = dkeys (pkg_fn c);
  ok_keys_dp : dkeys (pkg_dp c) = dkeys (pkg_fn c);
  ok_keys_provides : dkeys (fn_provides c) = dkeys (pkg_fn c);
  ok_wf : dict_wf (pkg_fn c);
  ok_providers : ∀ p fn, fn ∈ providers_of c p ↔ p ∈ default [] (dget (fn_provides c) fn);
  ok_nodup : ∀ p, NoDup (providers_of c p);
  ok_pn : ∀ pn fn, fn ∈ default [] (dget (pkg_pn c) pn) ↔ dget (pkg_fn c) fn = Some pn;
  ok_own : ∀ fn pn, dget (pkg_fn c) fn = Some pn → pn ∈ default [] (dget (fn_provides c) fn);
  ok_pn_provides : ∀ fn pn p, dget (pkg_fn c) fn = Some pn →
    p ∈ default [] (dget (fn_provides c) fn) → p ∈ default [] (dget (pn_provides c) pn)
}.

Lemma init_cacheData_ok : cache_ok init_cacheData.
Proof.
  split; try done; unfold providers_of; simpl; intros;
    rewrite ?elem_of_nil; try apply NoDup_nil_2; done.
Qed.

(** The tables by file, name and provided item, which only [add_own] writes. *)
Definition index_tables (c : CacheData) :=
  (task_deps c, pkg_fn c, pkg_pn c, pkg_pepvpr c, pkg_dp c, fn_provides c, pn_provides c, providers c).

Lemma dkeys_dset_same {V W} (d : dict V) (e : dict W) k v w :
  dkeys d = dkeys e → dkeys (dset d k v) = dkeys (dset e k w).
Proof.
  intros H. rewrite !dkeys_dset, H.
  assert (dmem d k = dmem e k) as ->; [|done].
  destruct (dmem e k) eqn:E.
  - apply dmem_spec. rewrite H. by apply dmem_spec.
  - apply dmem_false. rewrite H. by apply dmem_false.
Qed.

(** The tables of a parsed recipe have an entry for each of its packages. *)
Definition recipe_ok (ri : RecipeInfo) : Prop := ∀ p, p ∈ ri_packages ri →
  is_Some (dget (ri_rprovides_pkg ri) p) ∧ is_Some (dget (ri_rdepends_pkg ri) p) ∧
  is_Some (dget (ri_rrecommends_pkg ri) p).

(** What [rprovides] is after the loop over the packages. *)
Definition all_rprovides (ri : RecipeInfo) : list string :=
  ri_rprovides ri ++ List.concat (List.map (λ p, default [] (dget (ri_rprovides_pkg ri) p)) (ri_packages ri)).

Lemma add_packages_run fn l c ri :
  (∀ p, p ∈ l → is_Some (dget (ri_rprovides_pkg ri) p)) →
  ∃ c', for_each l (add_package fn) (c, ri) =
    ((c', set_rprovides ri (ri_rprovides ri ++
       List.concat (List.map (λ p, default [] (dget (ri_rprovides_pkg ri) p)) l))), Ok tt) ∧
    index_tables c' = index_tables c.
Proof.
  revert c ri. induction l as [|p l IH]; intros c ri H.
  { exists c. cbn [List.map List.concat for_each]. rewrite app_nil_r. by destruct ri. }
  destruct (H p (list_elem_of_here _ _)) as [v Hv]. cbn [for_each]. rewrite M_bind_eq. unfold add_package at 1.
  rewrite modify_bind, get_bind, lift_bind. cbn [fst snd]. rewrite Hv. cbn [of_option modify fst snd].
  destruct (IH (set_packages (dappend (packages c) p fn) c) (set_rprovides ri (ri_rprovides ri ++ v)))
    as (c' & -> & Hi); [intros q Hq; by apply H, list_elem_of_further|].
  exists c'. split; [|done]. cbn [List.map List.concat]. rewrite Hv. cbn. by rewrite <-(assoc_L (++)).
Qed.

Lemma add_package_deps_run fn l c ri :
  (∀ p, p ∈ l → is_Some (dget (ri_rdepends_pkg ri) p) ∧ is_Some (dget (ri_rrecommends_pkg ri) p)) →
  ∃ c', for_each l (add_package_deps fn) (c, ri) = ((c', ri), Ok tt) ∧ index_tables c' = index_tables c.
Proof.
  revert c. induction l as [|p l IH]; intros c H; [by exists c|].
  destruct (H p (list_elem_of_here _ _)) as [[v Hv] [w Hw]]. cbn [for_each]. rewrite M_bind_eq. unfold add_package_deps at 1.
  rewrite get_bind, lift_bind. cbn [fst snd]. rewrite Hv. cbn [of_option].
  rewrite modify_bind, lift_bind. rewrite Hw. cbn [of_option modify fst snd].
  edestruct IH as (c' & -> & Hi); [|by exists c']. intros q Hq. by apply H, list_elem_of_further.
Qed.

(** A recipe info with an entry for each package is added without an
    exception: the cache has what [add_own] enters, and the recipe info has
    the [rprovides] of its packages too. *)
Lemma add_cacheData_total ri c fn : recipe_ok ri →
  ∃ c', add_cacheData fn (c, ri) = ((c', set_rprovides ri (all_rprovides ri)), Ok tt) ∧
    index_tables c' = index_tables (add_own ri fn c).
Proof.
  intros H. unfold add_cacheData. rewrite modify_bind, get_bind, M_bind_eq. cbn [fst snd].
  destruct (add_packages_run fn (ri_packages ri) (add_own ri fn c) ri) as (c1 & -> & H1); [intros; by apply H|].
  rewrite modify_bind, M_bind_eq. cbn [fst snd]. fold (all_rprovides ri).
  set (ri' := set_rprovides ri (all_rprovides ri)).
  destruct (add_package_deps_run fn (ri_packages ri) (add_runtime ri' fn c1) ri') as (c2 & -> & H2);
    [intros p Hp; by apply (H p Hp)|].
  exists (add_rest ri' fn c2). split; [done|]. rewrite <-H1. exact H2.
Qed.

Lemma add_cacheData_inv ri c fn :
  cache_ok c → fn ∉ dkeys (pkg_fn c) → recipe_ok ri →
  ∃ c', add_cacheData fn (c, ri) = ((c', set_rprovides ri (all_rprovides ri)), Ok tt) ∧
  cache_ok c' ∧ dget (pkg_fn c') fn = Some (ri_pn ri) ∧
  (∀ p, fn ∈ providers_of c' p ↔ p = ri_pn ri ∨ p ∈ ri_provides ri) ∧
  (∀ p fn', fn' ≠ fn → (fn' ∈ providers_of c' p ↔ fn' ∈ providers_of c p)).
Proof.
  intros Hc Hfn Hri. destruct (add_cacheData_total ri c fn Hri) as (c' & Er & Et).
  exists c'. split; [done|]. unfold index_tables, add_own in Et.
  cbn [task_deps pkg_fn pkg_pn pkg_pepvpr pkg_dp fn_provides pn_provides providers] in Et.
  injection Et as Htd Hpf Hpp Hpv Hdp Hfp Hnp Hpr.
  assert (Hprov : ∀ p, providers_of c' p =
    if decide (p ∈ provides_list ri) then providers_of c p ++ [fn] else providers_of c p).
  { intros p. unfold providers_of. rewrite Hpr, dget_fold_dappend by apply NoDup_provides_list.
    by case_decide. }
  assert (Hnew : ∀ p, fn ∉ providers_of c p).
  { intros p Hin%(ok_providers _ Hc).
    assert (dget (fn_provides c) fn = None) as HN.
    { apply dget_None. by rewrite (ok_keys_provides _ Hc). }
    rewrite HN in Hin. by apply elem_of_nil in Hin. }
  assert (Hmine : ∀ p, fn ∈ providers_of c' p ↔ p ∈ provides_list ri).
  { intros p. rewrite Hprov. case_decide as Hp; [set_solver|].
    split; [by intros ?%Hnew|done]. }
  assert (Hothers : ∀ p fn', fn' ≠ fn → (fn' ∈ providers_of c' p ↔ fn' ∈ providers_of c p)).
  { intros p fn' Hne. rewrite Hprov. case_decide; [|done].
    rewrite elem_of_app, list_elem_of_singleton. tauto. }
  split; [|split; [|split]].
  - split.
    + rewrite Htd, Hpf. apply dkeys_dset_same, Hc.
    + rewrite Hpv, Hpf. apply dkeys_dset_same, Hc.
    + rewrite Hdp, Hpf. apply dkeys_dset_same, Hc.
    + rewrite Hfp, Hpf. apply dkeys_dset_same, Hc.
    + rewrite Hpf. apply dset_wf, Hc.
    + intros p fn'. rewrite Hfp, dget_dset. case_decide as E; [subst fn'; apply Hmine|].
      rewrite Hothers by done. apply Hc.
    + intros p. rewrite Hprov. case_decide; [|apply Hc]. apply NoDup_app.
      split; [apply Hc|]. split; [|apply NoDup_singleton].
      intros x Hx ->%list_elem_of_singleton. by apply (Hnew p).
    + intros pn fn'. rewrite Hpp, Hpf, dget_dappend, dget_dset.
      assert (HN : ∀ pn, fn ∉ default [] (dget (pkg_pn c) pn)).
      { intros pn' Hin%(ok_pn _ Hc). apply Hfn. apply elem_of_dkeys. eauto. }
      destruct (decide (ri_pn ri = pn)) as [<-|Hne], (decide (fn = fn')) as [<-|Hne']; simpl.
      * split; [done|]. intros _. set_solver.
      * rewrite elem_of_app, list_elem_of_singleton, (ok_pn _ Hc). naive_solver.
      * split; [by intros ?%HN|congruence].
      * apply Hc.
    + intros fn' pn. rewrite Hpf, Hfp, !dget_dset. case_decide as E; [|apply Hc].
      intros [= <-]. apply elem_of_provides_list. auto.
    + intros fn' pn p. rewrite Hpf, Hfp, Hnp, !dget_dset, dget_fold_dappend_new.
      case_decide as E; simpl.
      * intros [= <-] Hp. rewrite decide_True by done. apply elem_of_fold_append_new. auto.
      * intros Hpn Hp. pose proof (ok_pn_provides _ Hc _ _ _ Hpn Hp).
        case_decide; [|done]. subst. apply elem_of_fold_append_new. auto.
  - rewrite Hpf. apply dget_dset_eq.
  - intros p. by rewrite Hmine, elem_of_provides_list.
  - done.
Qed.

(** Adding a parsed recipe under a file name that is not in the cache
    yet succeeds, extends the recipe's own [rprovides] by those of its
    packages, and keeps the indexes of the cache consistent; the recipe is
    found under its name and as a provider of that name and of its PROVIDES,
    and no other file's provides change. *)
Theorem add_cacheData_ok ri c fn :
  cache_ok c → fn ∉ dkeys (pkg_fn c) → recipe_ok ri →
  ∃ c', add_cacheData fn (c, ri) = ((c', set_rprovides ri (all_rprovides ri)), Ok tt) ∧
  cache_ok c' ∧ dget (pkg_fn c') fn = Some (ri_pn ri) ∧
  (∀ p, fn ∈ providers_of c' p ↔ p = ri_pn ri ∨ p ∈ ri_provides ri) ∧
  (∀ p fn', fn' ≠ fn → (fn' ∈ providers_of c' p ↔ fn' ∈ providers_of c p)).
Proof. exact (add_cacheData_inv ri c fn). Qed.

(** A recipe with only a name, one PROVIDES entry and one package. *)
Definition example_recipe (pn extra : string) : RecipeInfo :=
  MkRecipeInfo pn "" "1.0" "r0" (MkTaskDeps [] [] []) 0 [extra] [] [pn] [] [(pn, [])] [] [] []
    [(pn, [])] [(pn, [])] "" "" "" [] [] [] "" [] "" "" "" "".

Lemma add_cacheData_ok_witness :
  ∃ c' ri', add_cacheData "gcc.bb" (init_cacheData, example_recipe "gcc" "virtual/cc") = ((c', ri'), Ok tt)
    ∧ cache_ok c'.
Proof.
  destruct (add_cacheData_ok (example_recipe "gcc" "virtual/cc") init_cacheData "gcc.bb")
    as (c' & E & Hok & _).
  - apply init_cacheData_ok.
  - intros H. by apply elem_of_nil in H.
  - intros p ->%list_elem_of_singleton. by_eval.
  - eexists c', _. split; [exact E|exact Hok].
Defined.

(** ** Round trip of virtual file names *)

Lemma no_colon_prefix s p : char_in ":" s = false → char_in ":" p = true → startswith s p = false.
Proof.
  intros Hs Hp. destruct (startswith s p) eqn:E; [|done].
  apply startswith_spec in E as [r ->]. by rewrite char_in_app, Hp in Hs.
Qed.

(** The part of a virtual name after the configuration. *)
Lemma virtual_part realfn cls :
  char_in ":" realfn = false → cls ≠ "" →
  split_on ":" ("virtual:" +s+ cls +s+ ":" +s+ realfn) =
    "virtual" :: split_on ":" cls ++ [realfn].
Proof.
  intros Hr Hc.
  change ("virtual:" +s+ cls +s+ ":" +s+ realfn) with
    ("virtual" +s+ String ":" (cls +s+ String ":" realfn)).
  rewrite !split_on_app. unfold split_on at 1 3. by rewrite !split_pred_word by (done || by apply no_char_in).
Qed.

(** Taking apart the virtual name built from a recipe file, a class
    extension (which may itself list several, separated by colons) and a
    configuration gives the three back. *)
Theorem virtualfn_roundtrip realfn cls mc :
  char_in ":" realfn = false → char_in ":" mc = false →
  virtualfn2realfn (realfn2virtual realfn cls mc) = (realfn, cls, mc).
Proof.
  intros Hr Hm. unfold realfn2virtual, virtualfn2realfn.
  set (v := if negb (str_empty cls) then "virtual:" +s+ cls +s+ ":" +s+ realfn else realfn).
  assert (Hv : (if startswith v "virtual:"
    then (List.last (split_on ":" v) "", join ":" (removelast (tail (split_on ":" v))), mc)
    else (v, "", mc)) = (realfn, cls, mc)).
  { unfold v. destruct cls as [|a cls]; cbn [str_empty negb].
    - by rewrite no_colon_prefix.
    - rewrite startswith_app, virtual_part by done. cbn [tail].
      rewrite removelast_last. change ("virtual" :: ?l) with (["virtual"] ++ l).
      rewrite app_assoc, last_last. pose proof (join_split_on ":" (String a cls)) as E.
      unfold str1 in E. by rewrite E. }
  assert (Hs : startswith v "mc:" = false).
  { unfold v. destruct cls as [|a cls]; cbn [str_empty negb]; [by apply no_colon_prefix|done]. }
  destruct mc as [|m mc]; cbn [str_empty negb]; [by rewrite Hs|].
  set (mc' := String m mc) in *. rewrite startswith_app.
  change ("mc:" +s+ mc' +s+ ":" +s+ v) with ("mc" +s+ String ":" (mc' +s+ String ":" v)).
  rewrite !split_on_app. unfold split_on at 1 2.
  rewrite !split_pred_word by (done || by apply no_char_in).
  cbn [app]. pose proof (join_split_on ":" v) as E. unfold str1 in E. by rewrite E.
Qed.

Lemma virtualfn_roundtrip_witness :
  virtualfn2realfn (realfn2virtual "/r/zlib.bb" "native:extend" "zynq")
    = ("/r/zlib.bb", "native:extend", "zynq").
Proof. by apply virtualfn_roundtrip. Defined.
