(* ===== verification/Providers.v ===== *)
(** * Choosing providers (bb/providers.py)

    Which recipe file builds a target: files of one recipe name are ordered by
    layer priority, a PREFERRED_VERSION or else the latest version is chosen
    per name, and PREFERRED_PROVIDER moves one name to the front. *)

From Stdlib Require Import Ascii String.
From S2P Require Import Prelude.
From S2P Require Import PyStr.
From S2P Require Import PyDict.
From S2P Require Import Versions.
From S2P Require Import Cache.

Abbreviation pepvpr := (string * string * string)%type.

(** [all_providers[pn].append((ver, fn))] over [pkg_fn]. *)
Definition allProviders (c : CacheData) : res (dict (list (pepvpr * string))) :=
  fold_res (λ d '(fn, pn),
    ver ← of_option KeyError (dget (pkg_pepvpr c) fn);
    Ok (dset d pn (default [] (dget d pn) ++ [(ver, fn)]))) [] (pkg_fn c).

(** [priorities[priority][preference].append(f)] for each file. *)
Definition collect_priorities (c : CacheData) (files : list string) :
    res (list (Z * list (Z * list string))) :=
  fold_res (λ priorities f,
    priority ← of_option KeyError (dget (bbfile_priority c) f);
    preference ← of_option KeyError (dget (pkg_dp c) f);
    let by_pref := default [] (dget priorities priority) in
    Ok (dset priorities priority
          (dset by_pref preference (default [] (dget by_pref preference) ++ [f])))) [] files.

(** [tmp_pref.extend(...)] over the sorted preferences of one priority. *)
Definition pref_files (by_pref : list (Z * list string)) : list string :=
  List.concat (List.map snd (sorted_items by_pref)).

(** [if not pkg_pn: pkg_pn = dataCache.pkg_pn]; [dataCache.pkg_pn] is a
    [defaultdict(list)], the caller's dictionary raises KeyError. *)
Definition files_of (pn : string) (c : CacheData) (pkg_pn_arg : dict (list string)) :
    res (list string) :=
  match pkg_pn_arg with
  | [] => Ok (default [] (dget (pkg_pn c) pn))
  | _ => of_option KeyError (dget pkg_pn_arg pn)
  end.

Definition sortPriorities (pn : string) (c : CacheData) (pkg_pn_arg : dict (list string)) :
    res (list (list string)) :=
  files ← files_of pn c pkg_pn_arg;
  priorities ← collect_priorities c files;
  Ok (foldl (λ tmp_pn pri, pref_files pri.2 :: tmp_pn) [] (sorted_items priorities)).

Definition preferredVersionMatch (pe pv pr : string)
    (preferred_e preferred_v preferred_r : option string) : bool :=
  if bool_decide (preferred_r = Some pr) || bool_decide (preferred_r = None) then
    if bool_decide (preferred_e = Some pe) || bool_decide (preferred_e = None) then
      if bool_decide (preferred_v = Some pv) then true
      else match preferred_v with
           | Some v => endswith v "%" && startswith pv (str_take (String.length v - 1) v)
           | None => false
           end
    else false
  else false.

(** [re.match(r'(\d+:)*(.* )(_.* )*', s)]: the repetition keeps its last
    iteration as group 1; [.*] is greedy and takes the rest of the line, so
    group 3 has nothing left to match and is always [None]. *)
Fixpoint match_epochs (fuel : nat) (last : option string) (s : string) : option string * string :=
  match fuel with
  | O => (last, s)
  | S fuel =>
      let '(ds, rest) := span is_digit s in
      match rest with
      | String ":" rest' =>
          if str_empty ds then (last, s) else match_epochs fuel (Some (ds +s+ ":")) rest'
      | _ => (last, s)
      end
  end.

Definition match_preferred (s : string) : option string * string * option string :=
  let '(g1, rest) := match_epochs (String.length s) None s in
  (g1, (span (λ c, negb (Ascii.eqb c newline)) rest).1, None).

(** The first file of [file_set] with the preferred version. *)
Fixpoint first_preferred (c : CacheData) (e v r : option string) (file_set : list string) :
    res (option (pepvpr * string)) :=
  match file_set with
  | [] => Ok None
  | f :: fs =>
      '(pe, pv, pr) ← of_option KeyError (dget (pkg_pepvpr c) f);
      if preferredVersionMatch pe pv pr e v r then Ok (Some ((pe, pv, pr), f))
      else first_preferred c e v r fs
  end.

(** [if preferred_file: break], where the empty name does not stop the loop. *)
Fixpoint first_preferred_set (c : CacheData) (e v r : option string) (acc : option (pepvpr * string))
    (sets : list (list string)) : res (option (pepvpr * string)) :=
  match sets with
  | [] => Ok acc
  | s :: sets =>
      o ← first_preferred c e v r s;
      let acc := match o with Some _ => o | None => acc end in
      match acc with
      | Some (_, f) => if str_empty f then first_preferred_set c e v r acc sets else Ok acc
      | None => first_preferred_set c e v r acc sets
      end
  end.

Section data.
Context {D : Type} `{DataStore D}.

(** PREFERRED_VERSION_pn-<pn>, then PREFERRED_VERSION_<pn>, then
    PREFERRED_VERSION. *)
Definition preferred_version_var (pn : string) (cfg : D) : res (option string) :=
  v ← ds_getVar cfg ("PREFERRED_VERSION_pn-" +s+ pn);
  v ← (if unset v then ds_getVar cfg ("PREFERRED_VERSION_" +s+ pn) else Ok v);
  if unset v then ds_getVar cfg "PREFERRED_VERSION" else Ok v.

(** [(preferred_ver, preferred_file)], both set or both [None].  The messages
    about an unavailable version are not modelled. *)
Definition findPreferredProvider (pn : string) (cfg : D) (c : CacheData)
    (sets : list (list string)) : res (option (pepvpr * string)) :=
  preferred_v ← preferred_version_var pn cfg;
  match preferred_v with
  | Some (String _ _ as pv) =>
      let '(g1, g2, g3) := match_preferred pv in
      let e := str_drop_last 1 <$> g1 in
      let r := str_drop 1 <$> g3 in
      first_preferred_set c e (Some g2) r None sets
  | _ => Ok None
  end.

(** One step of the search for the latest version; the accumulator is
    [(latest, latest_f, latest_p)]. *)
Definition latest_step (c : CacheData) (acc : option (pepvpr * string) * Z) (f : string) :
    res (option (pepvpr * string) * Z) :=
  new ← of_option KeyError (dget (pkg_pepvpr c) f);
  dp ← of_option KeyError (dget (pkg_dp c) f);
  let '(latest, latest_p) := acc in
  match latest with
  | None => Ok (Some (new, f), dp)
  | Some ((le, lv, lr), _) =>
      let '(pe, pv, pr) := new in
      newer ← (if (latest_p =? dp)%Z
               then r ← vercmp (EStr le, lv, lr) (EStr pe, pv, pr); Ok (r <? 0)%Z
               else Ok false);
      if (newer : bool) || (latest_p <? dp)%Z then Ok (Some (new, f), dp) else Ok acc
  end.

Definition findLatestProvider (c : CacheData) (file_set : list string) :
    res (option (pepvpr * string)) :=
  '(latest, _) ← fold_res (latest_step c) (None, 0%Z) file_set;
  Ok latest.

(** [(latest, latest_f, preferred_ver, preferred_file)] *)
Definition findBestProvider (pn : string) (cfg : D) (c : CacheData)
    (pkg_pn_arg : dict (list string)) :
    res (option (pepvpr * string) * option (pepvpr * string)) :=
  sets ← sortPriorities pn c pkg_pn_arg;
  pref ← findPreferredProvider pn cfg c sets;
  first ← of_option IndexError (head sets);
  latest ← findLatestProvider c first;
  Ok (latest, match pref with None => latest | Some _ => pref end).

(** [pkg_pn[pn].append(p)] for each provider. *)
Definition collate_by_pn (c : CacheData) (provs : list string) : res (dict (list string)) :=
  fold_res (λ d p, pn ← of_option KeyError (dget (pkg_fn c) p); Ok (dappend d pn p)) [] provs.

(** [list.remove(x)]: the first occurrence. *)
Fixpoint list_remove (x : string) (l : list string) : list string :=
  match l with
  | [] => []
  | y :: l => if bool_decide (x = y) then l else y :: list_remove x l
  end.

Definition to_front (x : string) (l : list string) : list string := x :: list_remove x l.

(** The first loop: the preferred version of each name, in name order.  A
    file name is never empty here, so [if preferred_versions[pn][1]] tests
    for [None]. *)
Definition add_preferred (cfg : D) (c : CacheData) (by_pn : dict (list string))
    (acc : list string * dict (list (list string)) * dict (option (pepvpr * string))) (pn : string) :
    res (list string * dict (list (list string)) * dict (option (pepvpr * string))) :=
  let '(eligible, sortpkg_pn, preferred_versions) := acc in
  sets ← sortPriorities pn c by_pn;
  pv ← findPreferredProvider pn cfg c sets;
  let eligible := match pv with
                  | Some (_, f) => if str_empty f then eligible else eligible ++ [f]
                  | None => eligible
                  end in
  Ok (eligible, dset sortpkg_pn pn sets, dset preferred_versions pn pv).

(** The second loop: the latest version of the names left over. *)
Definition add_latest (c : CacheData) (sortpkg_pn : dict (list (list string)))
    (acc : list string * dict (option (pepvpr * string))) (pn : string) :
    res (list string * dict (option (pepvpr * string))) :=
  let '(eligible, preferred_versions) := acc in
  match default None (dget preferred_versions pn) with
  | Some (_, String _ _) => Ok acc
  | _ =>
      sets ← of_option KeyError (dget sortpkg_pn pn);
      first ← of_option IndexError (head sets);
      latest ← findLatestProvider c first;
      match latest with
      | Some (_, f) => Ok (eligible ++ [f], dset preferred_versions pn latest)
      | None => Raise TypeError
      end
  end.

(** The last loop: the chosen file of the name equal to the item goes first. *)
Definition prefer_own_name (c : CacheData) (item : string)
    (preferred_versions : dict (option (pepvpr * string))) (eligible : list string) (p : string) :
    res (list string) :=
  pn ← of_option KeyError (dget (pkg_fn c) p);
  if bool_decide (pn ≠ item) then Ok eligible
  else
    pv ← of_option KeyError (dget preferred_versions pn);
    match pv with
    | Some (_, fn) => if bool_decide (fn ∈ eligible) then Ok (to_front fn eligible) else Ok eligible
    | None => Ok eligible
    end.

(** [_filterProviders]: the eligible files, or [None] for the [return 0] of an
    empty selection.  [providers.sort()] sorts the caller's list in place: the
    sorted list is the first result. *)
Definition _filterProviders (provs : list string) (item : string) (cfg : D) (c : CacheData) :
    res (list string * option (list string)) :=
  let provs := py_sorted provs in
  by_pn ← collate_by_pn c provs;
  let pns := py_sorted (dkeys by_pn) in
  '(eligible, sortpkg_pn, preferred_versions) ← fold_res (add_preferred cfg c by_pn) ([], [], []) pns;
  '(eligible, preferred_versions) ←
    fold_res (add_latest c sortpkg_pn) (eligible, preferred_versions) (py_sorted (dkeys sortpkg_pn));
  match eligible with
  | [] => Ok (provs, None)
  | _ =>
      eligible ← fold_res (prefer_own_name c item preferred_versions) eligible provs;
      Ok (provs, Some eligible)
  end.

Definition set_preferred (c : CacheData) (d : dict string) : CacheData :=
  MkCacheData (task_deps c) (pkg_fn c) (pkg_pn c) (pkg_pepvpr c) (pkg_dp c) (stamp c) (stampclean c)
    (stamp_extrainfo c) (file_checksums c) (fn_provides c) (pn_provides c) (all_depends c) (deps c)
    (packages c) (providers c) (rproviders c) (packages_dynamic c) (rundeps c) (runrecs c)
    (possible_world c) (universe_target c) (hashfn c) (basetaskhash c) (inherits c) (fakerootenv c)
    (fakerootnoenv c) (fakerootdirs c) (extradepsfunc c) d (ignored_dependencies c)
    (world_target c) (bbfile_priority c).

(** The first eligible file whose recipe name is [pn]. *)
Fixpoint find_pn (c : CacheData) (pn : string) (l : list string) : res (option string) :=
  match l with
  | [] => Ok None
  | p :: l =>
      pn' ← of_option KeyError (dget (pkg_fn c) p);
      if bool_decide (pn = pn') then Ok (Some p) else find_pn c pn l
  end.

(** [filterProviders], on the caller's list of providers, which is sorted in
    place, and the cache, whose [preferred] table the call may extend: the
    eligible files and [foundUnique].  Iterating the [0] of an empty selection
    raises TypeError, after both changes. *)
Definition filterProviders (item : string) (cfg : D) :
    M (list string * CacheData) (option (list string) * bool) :=
  s ← get;
  _ ← modify (λ s, (py_sorted s.1, s.2));
  '(_, eligible) ← lift (_filterProviders s.1 item cfg s.2);
  prefervar ← lift (ds_getVar cfg ("PREFERRED_PROVIDER_" +s+ item));
  _ ← (match prefervar with
       | Some (String _ _ as v) => modify (λ s, (s.1, set_preferred s.2 (dset (preferred s.2) item v)))
       | _ => mret tt
       end);
  s ← get;
  match dget (preferred s.2) item with
  | None => mret (eligible, false)
  | Some pn =>
      l ← lift (of_option TypeError eligible);
      o ← lift (find_pn s.2 pn l);
      match o with
      | Some p => mret (Some (to_front p l), true)
      | None => mret (Some l, false)
      end
  end.

(** The loop state of the search for a PREFERRED_PROVIDER: the list object the
    [for] statement iterates, [eligible] once it is a different object, and
    the files already moved.  [eligible.remove(pref)] mutates the iterated
    list the first time only, since [eligible = [pref] + eligible] then binds
    a new list. *)
Record rt_state : Type := RtState {
  rt_loop : list string;
  rt_eligible : option (list string);
  rt_preferred : list string
}.

Definition rt_current (st : rt_state) : list string := default (rt_loop st) (rt_eligible st).

Definition rt_move (pref : string) (st : rt_state) : rt_state :=
  let removed := list_remove pref (rt_current st) in
  RtState (match rt_eligible st with None => removed | Some _ => rt_loop st end)
    (Some (pref :: removed)) (rt_preferred st ++ [pref]).

(** [for provide in provides: ...], up to its [break]. *)
Fixpoint rt_provides (cfg : D) (pns : dict string) (provides : list string) (st : rt_state) :
    res rt_state :=
  match provides with
  | [] => Ok st
  | provide :: provides =>
      prefervar ← ds_getVar cfg ("PREFERRED_PROVIDER_" +s+ provide);
      match prefervar ≫= dget pns with
      | Some pref =>
          if bool_decide (pref ∉ rt_preferred st) then Ok (rt_move pref st)
          else rt_provides cfg pns provides st
      | None => rt_provides cfg pns provides st
      end
  end.

(** [for p in eligible: ...]: position [i] of the iterated list, until it is
    past the end. *)
Fixpoint rt_scan (cfg : D) (c : CacheData) (pns : dict string) (fuel : nat) (i : nat)
    (st : rt_state) : res rt_state :=
  match fuel with
  | O => Raise OutOfFuel
  | S fuel =>
      match rt_loop st !! i with
      | None => Ok st
      | Some p =>
          pn ← of_option KeyError (dget (pkg_fn c) p);
          st ← rt_provides cfg pns (default [] (dget (pn_provides c) pn)) st;
          rt_scan cfg c pns fuel (S i) st
      end
  end.

(** [pns[dataCache.pkg_fn[p]] = p] for each eligible file. *)
Definition eligible_pns (c : CacheData) (eligible : list string) : res (dict string) :=
  fold_res (λ d p, pn ← of_option KeyError (dget (pkg_fn c) p); Ok (dset d pn p)) [] eligible.

(** [filterProvidersRunTime]: the sorted providers, the eligible ones and
    [numberPreferred].  Both loops raise TypeError on the [0] of an empty
    selection. *)
Definition filterProvidersRunTime (provs : list string) (item : string) (cfg : D) (c : CacheData) :
    res (list string * list string * nat) :=
  '(provs, eligible) ← _filterProviders provs item cfg c;
  prefervar ← ds_getVar cfg ("PREFERRED_RPROVIDER_" +s+ item);
  eligible ← of_option TypeError eligible;
  found ← (match prefervar with
           | Some (String _ _ as v) => find_pn c v eligible
           | _ => Ok None
           end);
  match found with
  | Some p => Ok (provs, to_front p eligible, 1%nat)
  | None =>
      pns ← eligible_pns c eligible;
      st ← rt_scan cfg c pns (S (List.length eligible)) 0 (RtState eligible None []);
      Ok (provs, rt_current st, List.length (rt_preferred st))
  end.

(** [findProviders], where [localdata] is the expanded copy of the
    configuration: [(latest_versions, preferred_versions)]. *)
Definition findProviders (localdata : D) (c : CacheData) (pkg_pn_arg : dict (list string)) :
    res (dict (option (pepvpr * string)) * dict (option (pepvpr * string))) :=
  let names := match pkg_pn_arg with [] => pkg_pn c | _ => pkg_pn_arg end in
  fold_res (λ (acc : dict (option (pepvpr * string)) * dict (option (pepvpr * string))) pn,
    '(last, pref) ← findBestProvider pn localdata c names;
    Ok (dset acc.1 pn last, dset acc.2 pn pref)) ([], []) (dkeys names).
End data.

(** ** Runtime providers *)

Section runtime.
(** Python's regular expressions: whether the pattern compiles, and then
    [regexp.match]. *)
Context (re_compile : string → option (string → bool)).

(** [for pattern in packages_dynamic: ...].  The pattern with its plus signs
    escaped is looked up again in the [defaultdict]: when it is not a key the
    lookup inserts it, and the iteration raises RuntimeError at its next step.
    [regexp_cache] only saves the compilation. *)
Fixpoint dynamic_providers (c : CacheData) (rdepend : string) (patterns : list string)
    (rproviders : list string) : res (list string) :=
  match patterns with
  | [] => Ok rproviders
  | pattern :: patterns =>
      let pattern := replace pattern "+" "\+" in
      regexp ← of_option ReError (re_compile pattern);
      if (regexp rdepend : bool) then
        match dget (packages_dynamic c) pattern with
        | Some l => dynamic_providers c rdepend patterns (rproviders ++ l)
        | None => Raise RuntimeError
        end
      else dynamic_providers c rdepend patterns rproviders
  end.

Definition getRuntimeProviders (c : CacheData) (rdepend : string) : res (list string) :=
  let l := default [] (dget (rproviders c) rdepend) ++ default [] (dget (packages c) rdepend) in
  match l with
  | [] => dynamic_providers c rdepend (dkeys (packages_dynamic c)) []
  | _ => Ok l
  end.
End runtime.

(** ** The world target *)

(** [for pf in dataCache.providers[p]: if pkg_fn[pf] != pn: ... break] *)
Fixpoint only_provider (c : CacheData) (pn : string) (l : list string) : res bool :=
  match l with
  | [] => Ok true
  | pf :: l =>
      pn' ← of_option KeyError (dget (pkg_fn c) pf);
      if bool_decide (pn' = pn) then only_provider c pn l else Ok false
  end.

(** [for p in pn_provides[pn]: ...]; only the virtual name stops this loop,
    the [break] of the inner one leaves the inner one. *)
Fixpoint world_terminal (c : CacheData) (pn : string) (terminal : bool) (l : list string) :
    res bool :=
  match l with
  | [] => Ok terminal
  | p :: l =>
      if startswith p "virtual/" then Ok false
      else
        b ← only_provider c pn (default [] (dget (providers c) p));
        world_terminal c pn (terminal && b) l
  end.

Definition set_world_target (c : CacheData) (w : gset string) : CacheData :=
  MkCacheData (task_deps c) (pkg_fn c) (pkg_pn c) (pkg_pepvpr c) (pkg_dp c) (stamp c) (stampclean c)
    (stamp_extrainfo c) (file_checksums c) (fn_provides c) (pn_provides c) (all_depends c) (deps c)
    (packages c) (providers c) (rproviders c) (packages_dynamic c) (rundeps c) (runrecs c)
    (possible_world c) (universe_target c) (hashfn c) (basetaskhash c) (inherits c) (fakerootenv c)
    (fakerootnoenv c) (fakerootdirs c) (extradepsfunc c) (preferred c) (ignored_dependencies c)
    w (bbfile_priority c).

(** One recipe file of [possible_world]. *)
Definition world_step (task : option string) (c : CacheData) (f : string) : res CacheData :=
  pn ← of_option KeyError (dget (pkg_fn c) f);
  terminal ← (match task with
              | Some (String _ _ as t) =>
                  td ← of_option KeyError (dget (task_deps c) f);
                  Ok (bool_decide (t ∈ td_tasks td))
              | _ => Ok true
              end);
  terminal ← world_terminal c pn terminal (default [] (dget (pn_provides c) pn));
  Ok (if (terminal : bool) then set_world_target c ({[pn]} ∪ world_target c) else c).

Definition buildWorldTargetList (c : CacheData) (task : option string) : res CacheData :=
  if bool_decide (world_target c ≠ ∅) then Ok c
  else fold_res (world_step task) c (possible_world c).

(** ** Ordering by priority *)

Definition file_priority (c : CacheData) (f : string) : Z := default 0%Z (dget (bbfile_priority c) f).
Definition file_pref (c : CacheData) (f : string) : Z := default 0%Z (dget (pkg_dp c) f).

(** The tables the engine fills for every parsed file. *)
Definition has_priority (c : CacheData) (f : string) : Prop :=
  is_Some (dget (bbfile_priority c) f) ∧ is_Some (dget (pkg_dp c) f).

(** Every file sits under its own priority and preference, and no list is
    empty. *)
Definition prefs_ok (c : CacheData) (pri : Z) (by_pref : list (Z * list string)) : Prop :=
  dict_wf by_pref ∧ by_pref ≠ [] ∧
  ∀ pref l, (pref, l) ∈ by_pref → l ≠ [] ∧ ∀ f, f ∈ l → file_priority c f = pri ∧ file_pref c f = pref.

Definition priorities_ok (c : CacheData) (d : list (Z * list (Z * list string))) : Prop :=
  dict_wf d ∧ ∀ pri by_pref, (pri, by_pref) ∈ d → prefs_ok c pri by_pref.

Definition all_files (d : list (Z * list (Z * list string))) : list string := dflat (dflat id) d.

Definition add_file (c : CacheData) (d : list (Z * list (Z * list string))) (f : string) :
    list (Z * list (Z * list string)) :=
  let by_pref := default [] (dget d (file_priority c f)) in
  dset d (file_priority c f)
    (dset by_pref (file_pref c f) (default [] (dget by_pref (file_pref c f)) ++ [f])).

Lemma collect_priorities_pure c files :
  Forall (has_priority c) files →
  collect_priorities c files = Ok (foldl (add_file c) [] files).
Proof.
  intros Hf. apply fold_res_pure. intros d f Hin.
  rewrite Forall_forall in Hf. destruct (Hf f Hin) as [[p Hp] [q Hq]].
  unfold add_file, file_priority, file_pref. by rewrite Hp, Hq.
Qed.

Lemma prefs_ok_add c f by_pref :
  (by_pref = [] ∨ prefs_ok c (file_priority c f) by_pref) →
  prefs_ok c (file_priority c f)
    (dset by_pref (file_pref c f) (default [] (dget by_pref (file_pref c f)) ++ [f])).
Proof.
  intros Hok.
  assert (dict_wf by_pref) as Hwf by (destruct Hok as [->|[? _]]; [apply dict_wf_nil|done]).
  split; [by apply dset_wf|]. split.
  { intros E. assert (file_pref c f ∈ dkeys (dset by_pref (file_pref c f)
      (default [] (dget by_pref (file_pref c f)) ++ [f]))) as Hin
      by (apply elem_of_dkeys_dset; by left).
    rewrite E in Hin. by apply elem_of_nil in Hin. }
  intros pref l [[= -> ->]|Hin]%elem_of_dset_inv.
  - split; [by destruct (default [] _)|]. intros g. rewrite elem_of_app, list_elem_of_singleton.
    intros [Hg| ->]; [|done]. destruct (dget by_pref (file_pref c f)) as [l|] eqn:E.
    + apply dget_elem_of in E. destruct Hok as [->|(_ & _ & H)]; [by apply elem_of_nil in E|].
      by apply (H _ _ E).
    + by apply elem_of_nil in Hg.
  - destruct Hok as [->|(_ & _ & H)]; [by apply elem_of_nil in Hin|]. by apply H.
Qed.

Lemma priorities_ok_add c f d :
  priorities_ok c d → priorities_ok c (add_file c d f) ∧ all_files (add_file c d f) ≡ₚ all_files d ++ [f].
Proof.
  intros [Hwf Hd]. unfold add_file. split; [split; [by apply dset_wf|]|].
  - intros pri by_pref [[= -> ->]|Hin]%elem_of_dset_inv; [|by apply Hd].
    apply prefs_ok_add. destruct (dget d (file_priority c f)) as [b|] eqn:E; [right|by left].
    apply Hd. by apply dget_elem_of.
  - unfold all_files. apply dflat_dset_perm.
    set (b := default [] (dget d (file_priority c f))).
    transitivity (dflat id b ++ [f]).
    + apply dflat_dset_perm. by destruct (dget b (file_pref c f)).
    + unfold b. by destruct (dget d (file_priority c f)).
Qed.

Lemma priorities_ok_collect c files d :
  priorities_ok c d →
  priorities_ok c (foldl (add_file c) d files) ∧
  all_files (foldl (add_file c) d files) ≡ₚ all_files d ++ files.
Proof.
  revert d. induction files as [|f files IH]; intros d Hd; simpl.
  { by rewrite app_nil_r. }
  destruct (priorities_ok_add c f d Hd) as [Hd' Hp].
  destruct (IH _ Hd') as [? Hp']. split; [done|]. rewrite Hp', Hp. by rewrite <-app_assoc.
Qed.

Lemma pref_files_perm b : pref_files b ≡ₚ dflat id b.
Proof. unfold pref_files. rewrite <-(dflat_perm id _ _ (sorted_items_perm b)). done. Qed.

Lemma pref_files_sorted c pri b :
  prefs_ok c pri b → StronglySorted (λ f g, (file_pref c f ≤ file_pref c g)%Z) (pref_files b).
Proof. intros (Hwf & _ & Hb). apply groups_sorted. split; [done|]. intros k l Hl f Hf. by apply (Hb k l Hl). Qed.

(** The loop over the sorted priorities puts each group in front. *)
Lemma foldl_groups (d : list (Z * list (Z * list string))) acc :
  foldl (λ tmp_pn pri, pref_files pri.2 :: tmp_pn) acc d
  = reverse (List.map (λ x, pref_files x.2) d) ++ acc.
Proof.
  revert acc. induction d as [|x d IH]; intros acc; simpl; [done|].
  by rewrite IH, reverse_cons, <-app_assoc.
Qed.

Lemma StronglySorted_reverse {A} (R : A → A → Prop) l :
  StronglySorted (flip R) l → StronglySorted R (reverse l).
Proof.
  induction 1 as [|x l Hs IH Hx]; [constructor|].
  rewrite reverse_cons. apply StronglySorted_app_2; [done|by repeat constructor|].
  rewrite Forall_forall in Hx. intros y z Hy ->%list_elem_of_singleton.
  rewrite elem_of_reverse in Hy. exact (Hx _ Hy).
Qed.

Lemma groups_perm d : List.concat (reverse (List.map (λ x, pref_files x.2) d)) ≡ₚ all_files d.
Proof.
  transitivity (List.concat (List.map (λ x : Z * list (Z * list string), pref_files x.2) d)).
  { generalize (List.map (λ x : Z * list (Z * list string), pref_files x.2) d). intros l.
    induction l as [|x l IH]; [done|]. rewrite reverse_cons, concat_app. simpl.
    rewrite IH, app_nil_r. apply Permutation_app_comm. }
  unfold all_files, dflat at 1. induction d as [|[p b] d IH]; simpl; [done|].
  by rewrite IH, pref_files_perm.
Qed.

Lemma pref_files_group c pri b :
  prefs_ok c pri b → pref_files b ≠ [] ∧ ∀ f, f ∈ pref_files b → file_priority c f = pri.
Proof.
  intros (_ & Hne & Hb).
  assert (∀ f, f ∈ pref_files b ↔ ∃ pref l, (pref, l) ∈ b ∧ f ∈ l) as Hin.
  { intros f. unfold pref_files. rewrite elem_of_concat. setoid_rewrite elem_of_map.
    setoid_rewrite (sorted_items_perm b). split.
    - intros (l & ([pref ?] & -> & H) & Hf). eauto.
    - intros (pref & l & H & Hf). exists l. split; [by exists (pref, l)|done]. }
  split.
  - destruct b as [|[pref l] b]; [done|].
    destruct (Hb pref l (list_elem_of_here _ _)) as [Hl _]. destruct l as [|f l]; [done|].
    intros E. assert (f ∈ pref_files ((pref, f :: l) :: b)) as Hf.
    { apply Hin. exists pref, (f :: l). split; apply list_elem_of_here. }
    rewrite E in Hf. by apply elem_of_nil in Hf.
  - intros f (pref & l & H & Hf)%Hin. by apply (Hb _ _ H).
Qed.

Lemma sorted_groups_spec c files :
  let sets := foldl (λ tmp_pn pri, pref_files pri.2 :: tmp_pn) []
                (sorted_items (foldl (add_file c) [] files)) in
  List.concat sets ≡ₚ files ∧ ([] ∉ sets) ∧
  StronglySorted (λ s t, ∀ f g, f ∈ s → g ∈ t → (file_priority c g < file_priority c f)%Z) sets ∧
  Forall (λ s, (∀ f g, f ∈ s → g ∈ s → file_priority c f = file_priority c g) ∧
               StronglySorted (λ f g, (file_pref c f ≤ file_pref c g)%Z) s) sets.
Proof.
  destruct (priorities_ok_collect c files []) as [[Hwf Hok] Hperm].
  { split; [apply dict_wf_nil|]. by intros ?? ?%elem_of_nil. }
  set (d := foldl (add_file c) [] files) in *. cbv zeta. rewrite foldl_groups, app_nil_r.
  pose proof (sorted_items_strict d Hwf) as Hs.
  assert (∀ x, x ∈ sorted_items d → prefs_ok c x.1 x.2) as Hs_ok.
  { intros [pri b]. rewrite sorted_items_perm. apply Hok. }
  split; [|split; [|split]].
  - rewrite groups_perm. unfold all_files. by rewrite (dflat_perm _ _ _ (sorted_items_perm d)).
  - rewrite elem_of_reverse, elem_of_map. intros (x & E & Hx).
    by destruct (pref_files_group _ _ _ (Hs_ok _ Hx)).
  - apply StronglySorted_reverse. revert Hs_ok. induction Hs as [|x l Hs IH Hx]; simpl; intros Hl;
      [constructor|]. constructor; [apply IH; intros; apply Hl; by apply list_elem_of_further|].
    apply Forall_forall. intros s (y & -> & Hy)%elem_of_map f g Hf Hg.
    destruct (pref_files_group _ _ _ (Hl x (list_elem_of_here _ _))) as [_ Hg1].
    destruct (pref_files_group _ _ _ (Hl y (list_elem_of_further _ _ _ Hy))) as [_ Hf1].
    rewrite (Hg1 _ Hg), (Hf1 _ Hf). rewrite Forall_forall in Hx. by apply Hx.
  - apply Forall_forall. intros s. rewrite elem_of_reverse, elem_of_map. intros (x & -> & Hx).
    apply Hs_ok in Hx. split; [|by eapply pref_files_sorted].
    intros f g Hf Hg. destruct (pref_files_group _ _ _ Hx) as [_ H]. by rewrite (H f), (H g).
Qed.

Lemma sortPriorities_groups pn c pkg_pn_arg files :
  files_of pn c pkg_pn_arg = Ok files → Forall (has_priority c) files →
  ∃ sets, sortPriorities pn c pkg_pn_arg = Ok sets ∧
    List.concat sets ≡ₚ files ∧ ([] ∉ sets) ∧
    StronglySorted (λ s t, ∀ f g, f ∈ s → g ∈ t → (file_priority c g < file_priority c f)%Z) sets ∧
    Forall (λ s, (∀ f g, f ∈ s → g ∈ s → file_priority c f = file_priority c g) ∧
                 StronglySorted (λ f g, (file_pref c f ≤ file_pref c g)%Z) s) sets.
Proof.
  intros Hfiles Hf. unfold sortPriorities. rewrite Hfiles. cbn [mbind res_bind].
  rewrite collect_priorities_pure by done. cbn [mbind res_bind].
  eexists. split; [done|]. by apply sorted_groups_spec.
Qed.

(** For every recipe name whose files have a layer priority and a
    default preference, [sortPriorities] returns: exactly the files of the
    name, in groups that are not empty; each group holds files of one
    priority, in ascending order of preference; and the groups come in
    strictly descending order of priority. *)
Theorem sortPriorities_spec pn c pkg_pn_arg files :
  files_of pn c pkg_pn_arg = Ok files → Forall (has_priority c) files →
  ∃ sets, sortPriorities pn c pkg_pn_arg = Ok sets ∧
    List.concat sets ≡ₚ files ∧ ([] ∉ sets) ∧
    StronglySorted (λ s t, ∀ f g, f ∈ s → g ∈ t → (file_priority c g < file_priority c f)%Z) sets ∧
    Forall (λ s, (∀ f g, f ∈ s → g ∈ s → file_priority c f = file_priority c g) ∧
                 StronglySorted (λ f g, (file_pref c f ≤ file_pref c g)%Z) s) sets.
Proof. exact (sortPriorities_groups pn c pkg_pn_arg files). Qed.

(** ** The latest version *)

Definition file_version (c : CacheData) (f : string) : option pepvpr := dget (pkg_pepvpr c) f.

Definition ver (v : pepvpr) : version := (EStr v.1.1, v.1.2, v.2).

(** [g] comes no later than the version [v] of preference [dp]. *)
Definition not_later (c : CacheData) (g : string) (v : pepvpr) (dp : Z) : Prop :=
  ∃ vg, file_version c g = Some vg ∧
    ((file_pref c g < dp)%Z ∨
     (file_pref c g = dp ∧ (vg = v ∨ vercmp_le (ver vg) (ver v)))).

Lemma vercmp_nonneg_le ta tb r : vercmp ta tb = Ok r → (0 ≤ r)%Z → vercmp_le tb ta.
Proof. intros H%vercmp_antisym Hr. exists (- r)%Z. split; [done|lia]. Qed.

Lemma not_later_step c g v dp v' dp' :
  not_later c g v dp → (dp < dp')%Z ∨ dp = dp' ∧ vercmp_le (ver v) (ver v') → not_later c g v' dp'.
Proof.
  intros (vg & Hvg & Hg) Hv. exists vg. split; [done|].
  destruct Hv as [?|[-> Hv]].
  - left. destruct Hg as [?|[? _]]; lia.
  - destruct Hg as [?|[Hd [->|?]]]; [by left|right..]; (split; [done|]); right; [done|by etrans].
Qed.

Lemma latest_step_spec c acc f acc' seen :
  latest_step c acc f = Ok acc' →
  match acc with
  | (None, _) => seen = []
  | (Some (v, l), dp) => l ∈ seen ∧ file_version c l = Some v ∧ file_pref c l = dp ∧
                         ∀ g, g ∈ seen → not_later c g v dp
  end →
  match acc' with
  | (None, _) => False
  | (Some (v, l), dp) => l ∈ seen ++ [f] ∧ file_version c l = Some v ∧ file_pref c l = dp ∧
                         ∀ g, g ∈ seen ++ [f] → not_later c g v dp
  end.
Proof.
  unfold latest_step, file_version.
  destruct (dget (pkg_pepvpr c) f) as [new|] eqn:Hnew; [|done].
  destruct (dget (pkg_dp c) f) as [dp|] eqn:Hdp; [|done]. cbn [mbind res_bind of_option].
  assert (file_pref c f = dp) as Hpf by (unfold file_pref; by rewrite Hdp).
  assert (f ∈ seen ++ [f]) as Hin by (rewrite elem_of_app, list_elem_of_singleton; by right).
  assert (not_later c f new dp) as Hself by (exists new; split; [done|right; auto]).
  assert (∀ v' dp', (∀ g, g ∈ seen → not_later c g v' dp') → not_later c f v' dp' →
    ∀ g, g ∈ seen ++ [f] → not_later c g v' dp') as Hall.
  { intros v' dp' H1 H2 g. rewrite elem_of_app, list_elem_of_singleton. intros [?| ->]; auto. }
  destruct acc as [[[[[le lv] lr] l]|] latest_p].
  2:{ intros [= <-] ->. repeat split; try done. apply Hall; [by intros ? ?%elem_of_nil|done]. }
  destruct new as [[pe pv] pr]. intros H (Hl & Hv & Hp & Hs).
  assert (∀ r, vercmp (EStr le, lv, lr) (EStr pe, pv, pr) = Ok r → (0 ≤ r)%Z → latest_p = dp →
    not_later c f (le, lv, lr) latest_p) as Hge.
  { intros r Hr H0 ->. exists (pe, pv, pr). split; [done|right; split; [done|right]].
    by apply (vercmp_nonneg_le _ _ r). }
  destruct (Z.eqb_spec latest_p dp) as [E|E].
  - destruct (vercmp (EStr le, lv, lr) (EStr pe, pv, pr)) as [r|] eqn:Er; [|done].
    cbn [mbind res_bind] in H. replace (latest_p <? dp)%Z with false in H by lia.
    rewrite orb_false_r in H. destruct (Z.ltb_spec r 0); simplify_eq; cbn.
    + repeat split; try done. apply Hall; [|done]. intros g Hg. eapply not_later_step; [by apply Hs|].
      right. split; [done|]. exists r. split; [done|lia].
    + repeat split; try done; [set_solver|]. apply Hall; eauto.
  - cbn [mbind res_bind orb] in H. destruct (Z.ltb_spec latest_p dp); simplify_eq; cbn.
    + repeat split; try done. apply Hall; [|done]. intros g Hg. eapply not_later_step; [by apply Hs|by left].
    + repeat split; try done; [set_solver|]. apply Hall; [done|].
      exists (pe, pv, pr). split; [done|left; lia].
Qed.

Lemma findLatestProvider_max c file_set o :
  findLatestProvider c file_set = Ok o → file_set ≠ [] →
  ∃ v f, o = Some (v, f) ∧ f ∈ file_set ∧ file_version c f = Some v ∧
    ∀ g, g ∈ file_set → not_later c g v (file_pref c f).
Proof.
  unfold findLatestProvider. intros H Hne.
  enough (∀ l acc acc' seen, fold_res (latest_step c) acc l = Ok acc' →
    match acc with
    | (None, _) => seen = []
    | (Some (v, l), dp) => l ∈ seen ∧ file_version c l = Some v ∧ file_pref c l = dp ∧
                           ∀ g, g ∈ seen → not_later c g v dp
    end →
    match acc' with
    | (None, _) => seen ++ l = []
    | (Some (v, f), dp) => f ∈ seen ++ l ∧ file_version c f = Some v ∧ file_pref c f = dp ∧
                           ∀ g, g ∈ seen ++ l → not_later c g v dp
    end) as Hfold.
  { destruct (fold_res _ _ _) as [[latest p]|] eqn:E; [|done].
    cbn [mbind res_bind] in H. injection H as <-.
    pose proof (Hfold _ _ _ [] E eq_refl) as Hl. simpl in Hl. destruct latest as [[v f]|]; [|done].
    exists v, f. destruct Hl as (? & ? & <- & ?). auto. }
  clear. induction l as [|f l IH]; intros acc acc' seen; cbn [fold_res].
  { intros [= <-]. by rewrite app_nil_r. }
  destruct (latest_step c acc f) as [acc1|] eqn:Estep; [|done]. cbn [mbind res_bind].
  intros Hfold Hacc. apply (latest_step_spec _ _ _ _ seen) in Estep; [|done].
  specialize (IH acc1 acc' (seen ++ [f]) Hfold).
  rewrite <-app_assoc in IH. simpl in IH. apply IH.
  destruct acc1 as [[[v g]|] dp]; [done|done].
Qed.

(** The file [findLatestProvider] returns is a file of the set, and
    no file of the set is preferred over it: every other has a lower default
    preference, or the same one and a version that is not later. *)
Theorem findLatestProvider_maximal c file_set o :
  findLatestProvider c file_set = Ok o → file_set ≠ [] →
  ∃ v f, o = Some (v, f) ∧ f ∈ file_set ∧ file_version c f = Some v ∧
    ∀ g, g ∈ file_set → not_later c g v (file_pref c f).
Proof. exact (findLatestProvider_max c file_set o). Qed.

(** ** Filtering the providers *)

(** What the engine guarantees of the files it filters: parsed, with versions
    that can be compared. *)
Definition provs_ok (c : CacheData) (provs : list string) : Prop :=
  (∀ p, p ∈ provs → p ≠ "" ∧ is_Some (dget (pkg_fn c) p) ∧ is_Some (file_version c p) ∧ has_priority c p) ∧
  (∀ p q v w, p ∈ provs → q ∈ provs → file_version c p = Some v → file_version c q = Some w →
     is_Ok (vercmp (ver v) (ver w))).

Lemma provs_ok_subseteq c l l' : provs_ok c l → l' ⊆ l → provs_ok c l'.
Proof. intros [H1 H2] Hl. split; [intros p Hp; by apply H1, Hl|]. intros p q v w Hp Hq. apply H2; by apply Hl. Qed.

Lemma findLatestProvider_total c l :
  provs_ok c l → is_Ok (findLatestProvider c l).
Proof.
  intros [H1 H2]. unfold findLatestProvider.
  enough (∀ l' acc, l' ⊆ l → (∀ v f dp, acc = (Some (v, f), dp) → f ∈ l ∧ file_version c f = Some v) →
    is_Ok (fold_res (latest_step c) acc l')) as H.
  { destruct (H l (None, 0%Z)) as [[o dp] ->]; [done|done|by eexists]. }
  clear -H1 H2. induction l' as [|f l' IH]; intros acc Hl Hacc; [by eexists|]. cbn [fold_res].
  assert (f ∈ l) as Hf by (apply Hl, list_elem_of_here).
  destruct (H1 f Hf) as (_ & _ & [new Hnew] & _ & [dp Hdp]).
  enough (∃ acc', latest_step c acc f = Ok acc' ∧ (acc' = acc ∨ acc' = (Some (new, f), dp)))
    as (acc' & -> & Hacc').
  { cbn [mbind res_bind]. apply IH; [intros ??; apply Hl; by apply list_elem_of_further|].
    destruct Hacc' as [-> | ->]; [done|]. intros v g dp' [= <- <- <-]. done. }
  unfold latest_step. unfold file_version in Hnew. rewrite Hnew, Hdp. cbn [mbind res_bind of_option].
  destruct acc as [[[[[le lv] lr] g]|] latest_p]; [|by eauto].
  destruct new as [[pe pv] pr]. destruct (Hacc _ _ _ eq_refl) as [Hg Hvg].
  destruct (H2 g f _ _ Hg Hf Hvg Hnew) as [r Hr]. unfold ver in Hr. cbn [fst snd] in Hr. rewrite Hr. cbn [mbind res_bind].
  destruct (latest_p =? dp)%Z; cbn [mbind res_bind];
    case_match; eauto.
Qed.

Section filter.
Context {D : Type} `{DataStore D} (cfg : D) (c : CacheData).
(** Reading a configuration variable does not raise. *)
Hypothesis getVar_total : ∀ v, is_Ok (ds_getVar cfg v).

Lemma first_preferred_total e v r l :
  provs_ok c l → ∃ o, first_preferred c e v r l = Ok o ∧ ∀ w f, o = Some (w, f) → f ∈ l.
Proof.
  induction l as [|f l IH]; intros Hl; cbn [first_preferred]; [by eexists|].
  destruct (proj1 Hl f (list_elem_of_here _ _)) as (_ & _ & [[[pe pv] pr] Hv] & _).
  unfold file_version in Hv. rewrite Hv. cbn [mbind res_bind of_option].
  destruct (preferredVersionMatch _ _ _ _ _ _).
  { eexists. split; [done|]. intros w g [= <- <-]. apply list_elem_of_here. }
  destruct IH as (o & -> & Ho); [eapply provs_ok_subseteq; [done|set_solver]|].
  eexists. split; [done|]. intros. apply list_elem_of_further. eauto.
Qed.

Lemma first_preferred_set_total e v r acc sets :
  provs_ok c (List.concat sets) →
  ∃ o, first_preferred_set c e v r acc sets = Ok o ∧
       ∀ w f, o = Some (w, f) → acc = Some (w, f) ∨ f ∈ List.concat sets.
Proof.
  revert acc. induction sets as [|s sets IH]; intros acc Hs; cbn [first_preferred_set]; [by eauto|].
  simpl in Hs. destruct (first_preferred_total e v r s) as (o & -> & Ho);
    [eapply provs_ok_subseteq; [done|set_solver]|]. cbn [mbind res_bind].
  set (acc' := match o with Some _ => o | None => acc end).
  assert (∀ w f, acc' = Some (w, f) → acc = Some (w, f) ∨ f ∈ s) as Hacc.
  { intros w f E. unfold acc' in E. destruct o; [right; eauto|by left]. }
  destruct (IH acc') as (o' & Ho' & Hin); [eapply provs_ok_subseteq; [done|set_solver]|].
  assert (∀ w f, o' = Some (w, f) → acc = Some (w, f) ∨ f ∈ s ++ List.concat sets) as Hin'.
  { intros w f E. rewrite elem_of_app. destruct (Hin w f E) as [E'|?]; [|by auto].
    destruct (Hacc w f E'); auto. }
  destruct acc' as [[w f]|]; [|by eauto]. destruct (str_empty f); [by eauto|].
  eexists. split; [done|]. intros w' f' E. simpl. rewrite elem_of_app.
  destruct (Hacc w' f' E); auto.
Qed.

Lemma preferred_version_var_total pn : is_Ok (preferred_version_var pn cfg).
Proof.
  unfold preferred_version_var.
  destruct (getVar_total ("PREFERRED_VERSION_pn-" +s+ pn)) as [v1 ->].
  destruct (getVar_total ("PREFERRED_VERSION_" +s+ pn)) as [v2 E2].
  destruct (getVar_total "PREFERRED_VERSION") as [v3 E3]. cbn [mbind res_bind].
  destruct (unset v1); rewrite ?E2; cbn [mbind res_bind]; case_match; rewrite ?E3; by eexists.
Qed.

Lemma findPreferredProvider_total pn sets :
  provs_ok c (List.concat sets) →
  ∃ o, findPreferredProvider pn cfg c sets = Ok o ∧ ∀ w f, o = Some (w, f) → f ∈ List.concat sets.
Proof.
  intros Hs. unfold findPreferredProvider.
  destruct (preferred_version_var_total pn) as [pv ->]. cbn [mbind res_bind].
  destruct pv as [[|a s]|]; [by eexists| |by eexists].
  destruct (match_preferred _) as [[g1 g2] g3].
  destruct (first_preferred_set_total (str_drop_last 1 <$> g1) (Some g2) (str_drop 1 <$> g3) None sets Hs)
    as (o & -> & Ho). eexists. split; [done|]. intros w f E. by destruct (Ho w f E).
Qed.

(** One recipe name among the providers: its best provider is a file of the
    name, found through [findPreferredProvider] or else through the latest
    version of the first group. *)
Lemma findBestProvider_total pn d files :
  files_of pn c d = Ok files → files ≠ [] → provs_ok c files →
  ∃ sets pref latest v f,
    sortPriorities pn c d = Ok sets ∧ findPreferredProvider pn cfg c sets = Ok pref ∧
    (∃ s0, head sets = Some s0 ∧ findLatestProvider c s0 = Ok latest) ∧
    match pref with Some _ => pref | None => latest end = Some (v, f) ∧
    (∃ w g, latest = Some (w, g) ∧ g ∈ files) ∧
    findBestProvider pn cfg c d = Ok (latest, Some (v, f)) ∧ f ∈ files.
Proof.
  intros Hfiles Hne Hok.
  destruct (sortPriorities_groups pn c d files Hfiles) as (sets & Hsets & Hperm & Hnil & _).
  { apply Forall_forall. intros p Hp. by apply (proj1 Hok p Hp). }
  destruct sets as [|s0 sets].
  { simpl in Hperm. by apply Permutation_nil in Hperm. }
  assert (provs_ok c (List.concat (s0 :: sets))) as Hcat.
  { eapply provs_ok_subseteq; [done|]. intros x. by rewrite Hperm. }
  destruct (findPreferredProvider_total pn _ Hcat) as (pref & Hpref & Hin).
  assert (∀ x, x ∈ s0 → x ∈ files) as Hs0.
  { intros x Hx. rewrite <-Hperm. simpl. set_solver. }
  destruct (findLatestProvider_total c s0) as [latest Hlat]; [by apply (provs_ok_subseteq c files)|].
  destruct (findLatestProvider_max c s0 latest Hlat) as (w & g & Hl & Hg & _).
  { intros ->. apply Hnil, list_elem_of_here. }
  unfold findBestProvider. rewrite Hsets. cbn [mbind res_bind]. rewrite Hpref.
  cbn [mbind res_bind head of_option]. rewrite Hlat. cbn [mbind res_bind].
  destruct pref as [[v f]|].
  - exists (s0 :: sets), (Some (v, f)), latest, v, f. repeat split; eauto.
    rewrite <-Hperm. eauto.
  - subst. exists (s0 :: sets), None, (Some (w, g)), w, g. repeat split; eauto.
Qed.

Definition fn_pn (p : string) : option string := dget (pkg_fn c) p.

Lemma collate_by_pn_spec provs :
  provs_ok c provs →
  ∃ by_pn, collate_by_pn c provs = Ok by_pn ∧ dict_wf by_pn ∧
    (∀ pn l, dget by_pn pn = Some l → l ≠ []) ∧
    (∀ pn p, p ∈ default [] (dget by_pn pn) ↔ p ∈ provs ∧ fn_pn p = Some pn).
Proof.
  intros [Hok _]. eexists. split.
  { apply (fold_res_pure _ (λ d p, dappend d (default "" (fn_pn p)) p)). intros d p Hp.
    destruct (Hok p Hp) as (_ & [pn Hpn] & _). unfold fn_pn. by rewrite Hpn. }
  assert (∀ p, p ∈ provs → is_Some (fn_pn p)) as Hpn by (intros p Hp; by apply (Hok p Hp)).
  clear Hok. induction provs as [|p provs IH] using rev_ind.
  { simpl. split; [apply dict_wf_nil|]. split; [done|]. intros pn p. set_solver. }
  rewrite foldl_app. simpl. destruct IH as (Hwf & Hne & Hin); [intros; apply Hpn; set_solver|].
  set (d := foldl _ _ _) in *. destruct (Hpn p ltac:(set_solver)) as [pn0 Hp0]. rewrite Hp0. simpl.
  split; [by apply dset_wf|]. split.
  - intros pn l. unfold dappend. rewrite dget_dset. case_decide; [|by apply Hne].
    intros [= <-]. by destruct (default [] _).
  - intros pn q. unfold dappend. rewrite dget_dset, elem_of_app, list_elem_of_singleton.
    case_decide; subst; simpl; rewrite ?elem_of_app, ?list_elem_of_singleton, Hin.
    + split; [intros [[??]| ->]; auto|intros [[?| ->] ?]; auto].
    + split; [by intros [??]; auto|]. intros [[?| ->] ?]; [done|]. congruence.
Qed.

(** What the two loops of [_filterProviders] find for one name. *)
Definition sets_of (by_pn : dict (list string)) (pn : string) : list (list string) :=
  match sortPriorities pn c by_pn with Ok s => s | Raise _ => [] end.
Definition pref_of by_pn pn : option (pepvpr * string) :=
  match findPreferredProvider pn cfg c (sets_of by_pn pn) with Ok o => o | Raise _ => None end.
Definition best_of by_pn pn : option (pepvpr * string) :=
  match findBestProvider pn cfg c by_pn with Ok (_, o) => o | Raise _ => None end.

Lemma names_total provs by_pn pn :
  provs_ok c provs → collate_by_pn c provs = Ok by_pn → pn ∈ dkeys by_pn →
  sortPriorities pn c by_pn = Ok (sets_of by_pn pn) ∧
  findPreferredProvider pn cfg c (sets_of by_pn pn) = Ok (pref_of by_pn pn) ∧
  (∃ s0 latest, head (sets_of by_pn pn) = Some s0 ∧ findLatestProvider c s0 = Ok latest ∧
     best_of by_pn pn = match pref_of by_pn pn with Some o => Some o | None => latest end) ∧
  (∃ v f lat, best_of by_pn pn = Some (v, f) ∧ f ∈ provs ∧ fn_pn f = Some pn ∧ f ≠ "" ∧
     findBestProvider pn cfg c by_pn = Ok (lat, Some (v, f))).
Proof.
  intros Hok Hcol Hpn. destruct (collate_by_pn_spec provs Hok) as (d & E & Hwf & Hne & Hin).
  rewrite Hcol in E. injection E as <-. apply elem_of_dkeys in Hpn as [files Hfiles].
  assert (∀ f, f ∈ files → f ∈ provs ∧ fn_pn f = Some pn) as Hf.
  { intros f. specialize (Hin pn f). rewrite Hfiles in Hin. simpl in Hin. by rewrite Hin. }
  assert (files_of pn c by_pn = Ok files) as Hfo.
  { unfold files_of. destruct by_pn as [|kv by_pn]; [done|]. by rewrite Hfiles. }
  assert (provs_ok c files) as Hokf by (eapply provs_ok_subseteq; [done|intros f Hx; by apply Hf]).
  destruct (findBestProvider_total pn by_pn files Hfo (Hne _ _ Hfiles) Hokf)
    as (sets & pref & lat & v & f & Hs & Hp & (s0 & Hs0 & Hl) & Hb & _ & Hbest & Hff).
  assert (sets_of by_pn pn = sets) as Es by (unfold sets_of; by rewrite Hs).
  assert (pref_of by_pn pn = pref) as Ep by (unfold pref_of; by rewrite Es, Hp).
  assert (best_of by_pn pn = Some (v, f)) as Eb by (unfold best_of; by rewrite Hbest).
  rewrite Es, Ep, Eb. destruct (Hf f Hff). split; [done|]. split; [done|]. split.
  { exists s0, lat. split; [done|]. split; [done|]. rewrite <-Hb. by destruct pref. }
  exists v, f, lat. repeat split; try done. by apply (proj1 Hok f).
Qed.

Definition file_of (o : option (pepvpr * string)) : list string :=
  match o with Some (_, f) => [f] | None => [] end.

(** The first loop, in closed form. *)
Lemma add_preferred_loop provs by_pn pns el ss ps :
  provs_ok c provs → collate_by_pn c provs = Ok by_pn → pns ⊆ dkeys by_pn → NoDup pns →
  (∀ pn, pn ∈ pns → (pn ∉ dkeys ss) ∧ (pn ∉ dkeys ps)) →
  fold_res (add_preferred cfg c by_pn) (el, ss, ps) pns
  = Ok (el ++ List.concat (List.map (λ pn, file_of (pref_of by_pn pn)) pns),
        ss ++ List.map (λ pn, (pn, sets_of by_pn pn)) pns,
        ps ++ List.map (λ pn, (pn, pref_of by_pn pn)) pns).
Proof.
  intros Hok Hcol. revert el ss ps. induction pns as [|pn pns IH]; intros el ss ps Hsub Hnd Hfr.
  { cbn. by rewrite !app_nil_r. }
  destruct (names_total provs by_pn pn Hok Hcol) as (Es & Ep & _ & (v & f & _ & Eb & Hfp & Hfpn & Hfe & _));
    [apply Hsub, list_elem_of_here|].
  cbn [fold_res]. unfold add_preferred at 2. rewrite Es. cbn [mbind res_bind]. rewrite Ep.
  cbn [mbind res_bind]. apply NoDup_cons in Hnd as [Hpn Hnd].
  destruct (Hfr pn (list_elem_of_here _ _)) as [Hs Hp].
  rewrite !dset_fresh by done.
  rewrite IH; [| |done|].
  - cbn [List.map List.concat]. rewrite <-!app_assoc. simpl. f_equal. f_equal. f_equal.
    destruct (pref_of by_pn pn) as [[w g]|] eqn:Ew; simpl; [|done].
    assert (best_of by_pn pn = Some (w, g)) as Eg.
    { destruct (names_total provs by_pn pn Hok Hcol) as (_ & _ & (s0 & lat & _ & _ & ->) & _);
        [apply Hsub, list_elem_of_here|]. by rewrite Ew. }
    rewrite Eb in Eg. injection Eg as <- <-. destruct f; [done|]. simpl. by rewrite <-app_assoc.
  - intros x Hx. apply Hsub. by apply list_elem_of_further.
  - intros x Hx. destruct (Hfr x (list_elem_of_further _ _ _ Hx)).
    unfold dkeys. rewrite !fmap_app. simpl. rewrite !elem_of_app, !list_elem_of_singleton.
    split; intros [?| ->]; done.
Qed.

(** The second loop. *)
Lemma add_latest_loop provs by_pn ss pns el ps :
  provs_ok c provs → collate_by_pn c provs = Ok by_pn → pns ⊆ dkeys by_pn → NoDup pns →
  (∀ pn, pn ∈ pns → dget ss pn = Some (sets_of by_pn pn) ∧ dget ps pn = Some (pref_of by_pn pn)) →
  ∃ ps',
    fold_res (add_latest c ss) (el, ps) pns
    = Ok (el ++ List.concat (List.map (λ pn,
            match pref_of by_pn pn with Some _ => [] | None => file_of (best_of by_pn pn) end) pns), ps') ∧
    ∀ pn, dget ps' pn = if decide (pn ∈ pns) then Some (best_of by_pn pn) else dget ps pn.
Proof.
  intros Hok Hcol. revert el ps. induction pns as [|pn pns IH]; intros el ps Hsub Hnd Hfr.
  { exists ps. cbn. rewrite app_nil_r. split; [done|]. done. }
  destruct (names_total provs by_pn pn Hok Hcol)
    as (_ & _ & (s0 & lat & Hs0 & Hl & Hbe) & (v & f & _ & Eb & Hfp & Hfpn & Hfe & _));
    [apply Hsub, list_elem_of_here|].
  destruct (Hfr pn (list_elem_of_here _ _)) as [Hss Hps].
  apply NoDup_cons in Hnd as [Hpn Hnd].
  cbn [fold_res]. unfold add_latest at 2. rewrite Hps. cbn [default from_option].
  assert (match pref_of by_pn pn with
          | Some (_, String _ _) => True | Some (_, "") => False | None => lat = Some (v, f) end) as Hcase.
  { destruct (pref_of by_pn pn) as [[w g]|]; [|congruence].
    rewrite Eb in Hbe. injection Hbe as <- <-. by destruct f. }
  cbn [List.map List.concat].
  destruct (pref_of by_pn pn) as [[w [|a g]]|] eqn:Ep; [done| |].
  - cbn [mbind res_bind id].
    destruct (IH el ps) as (ps' & -> & Hps'); [set_solver|done|intros; apply Hfr; set_solver|].
    exists ps'. split; [done|]. intros x. rewrite Hps'.
    destruct (decide (x = pn)) as [->|Hne].
    + rewrite decide_False by done. rewrite decide_True by set_solver. rewrite Hps, Hbe. done.
    + by destruct (decide (x ∈ pns)), (decide (x ∈ pn :: pns)); try done; set_solver.
  - cbn [mbind res_bind id]. rewrite Hss. cbn [mbind res_bind of_option]. rewrite Hs0.
    cbn [mbind res_bind of_option]. rewrite Hl, Hcase. cbn [mbind res_bind].
    destruct (IH (el ++ [f]) (dset ps pn (Some (v, f)))) as (ps' & -> & Hps');
      [set_solver|done| |].
    + intros x Hx. rewrite dget_dset_ne by set_solver. apply Hfr. set_solver.
    + exists ps'. split.
      * rewrite Eb. cbn [file_of]. by rewrite <-app_assoc.
      * intros x. rewrite Hps'. destruct (decide (x = pn)) as [->|Hne].
        -- rewrite decide_False by done. rewrite decide_True by set_solver. by rewrite dget_dset_eq, Eb.
        -- rewrite dget_dset_ne by done.
           by destruct (decide (x ∈ pns)), (decide (x ∈ pn :: pns)); try done; set_solver.
Qed.

(** What the filters promise: one file of each name, the one
    [findBestProvider] chooses. *)
Definition eligible_spec (provs el : list string) : Prop :=
  NoDup (List.map fn_pn el) ∧ (∀ p, p ∈ el → p ∈ provs) ∧
  (∀ p, p ∈ provs → ∃ q, q ∈ el ∧ fn_pn q = fn_pn p) ∧
  ∃ by_pn, collate_by_pn c (py_sorted provs) = Ok by_pn ∧
    ∀ p, p ∈ el → ∃ pn lat v,
      fn_pn p = Some pn ∧ findBestProvider pn cfg c by_pn = Ok (lat, Some (v, p)).

Lemma eligible_spec_perm provs el el' : el ≡ₚ el' → eligible_spec provs el → eligible_spec provs el'.
Proof.
  intros Hp (H1 & H2 & H3 & (b & Hb & H4)).
  assert (∀ x, x ∈ el' ↔ x ∈ el) as Hin by (intros; by rewrite Hp).
  split; [|split; [|split]].
  - change (NoDup (fn_pn <$> el')). by rewrite <-Hp.
  - intros p. rewrite Hin. apply H2.
  - intros p Hpp. destruct (H3 p Hpp) as (q & ? & ?). exists q. by rewrite Hin.
  - exists b. split; [done|]. intros p. rewrite Hin. apply H4.
Qed.

(** The best files of the names are eligible. *)
Lemma eligible_spec_best provs by_pn el :
  provs_ok c (py_sorted provs) → collate_by_pn c (py_sorted provs) = Ok by_pn → dict_wf by_pn →
  el ≡ₚ List.concat (List.map (λ pn, file_of (best_of by_pn pn)) (dkeys by_pn)) →
  (∀ p, p ∈ provs → ∃ pn, fn_pn p = Some pn ∧ pn ∈ dkeys by_pn) →
  eligible_spec provs el.
Proof.
  intros Hok Hcol Hwf Hel Hkeys. eapply eligible_spec_perm; [symmetry; exact Hel|]. clear el Hel.
  assert (∀ pn, pn ∈ dkeys by_pn → ∃ lat v f, file_of (best_of by_pn pn) = [f] ∧ f ∈ provs ∧
    fn_pn f = Some pn ∧ findBestProvider pn cfg c by_pn = Ok (lat, Some (v, f))) as Hb.
  { intros pn Hpn.
    destruct (names_total _ by_pn pn Hok Hcol Hpn) as (_ & _ & _ & (v & f & lat & -> & Hf & ? & _ & ?)).
    rewrite py_sorted_perm in Hf. eauto 8. }
  assert (∀ p, p ∈ List.concat (List.map (λ pn, file_of (best_of by_pn pn)) (dkeys by_pn)) →
    ∃ pn lat v, pn ∈ dkeys by_pn ∧ p ∈ provs ∧ fn_pn p = Some pn ∧
      findBestProvider pn cfg c by_pn = Ok (lat, Some (v, p))) as Hin.
  { intros p (l & (pn & -> & Hpn)%elem_of_map & Hp)%elem_of_concat.
    destruct (Hb pn Hpn) as (lat & v & f & E & ? & ? & ?). rewrite E in Hp.
    apply list_elem_of_singleton in Hp as ->. eauto 10. }
  split; [|split; [|split]].
  - assert (List.map fn_pn (List.concat (List.map (λ pn, file_of (best_of by_pn pn)) (dkeys by_pn)))
      = List.map Some (dkeys by_pn)) as ->.
    { revert Hb. generalize (dkeys by_pn). clear. induction l as [|pn l IH]; intros Hb; [done|].
      simpl. destruct (Hb pn (list_elem_of_here _ _)) as (_ & _ & f & -> & _ & Hf & _). simpl.
      rewrite Hf, IH; [done|]. intros; apply Hb; by apply list_elem_of_further. }
    apply (NoDup_fmap_2 Some). exact Hwf.
  - intros p (? & ? & ? & ? & ? & _)%Hin. done.
  - intros p Hp. destruct (Hkeys p Hp) as (pn & Hpn & Hk).
    destruct (Hb pn Hk) as (_ & _ & f & E & _ & Hf & _). exists f. split; [|congruence].
    apply elem_of_concat. exists [f]. split; [|apply list_elem_of_here].
    apply elem_of_map. by exists pn.
  - exists by_pn. split; [done|]. intros p (pn & lat & v & _ & _ & ? & ?)%Hin. eauto.
Qed.

Lemma concat_split_perm {A B} (f g h : A → list B) l :
  (∀ x, x ∈ l → f x ++ g x ≡ₚ h x) →
  List.concat (List.map f l) ++ List.concat (List.map g l) ≡ₚ List.concat (List.map h l).
Proof.
  induction l as [|x l IH]; intros Hx; [done|]. simpl.
  rewrite <-(Hx x) by apply list_elem_of_here. rewrite <-IH by (intros; apply Hx; by apply list_elem_of_further).
  rewrite <-!app_assoc. f_equiv. rewrite !app_assoc. f_equiv. apply Permutation_app_comm.
Qed.

Lemma list_remove_perm x l : x ∈ l → l ≡ₚ x :: list_remove x l.
Proof.
  induction l as [|y l IH]; [by intros ?%elem_of_nil|]. rewrite elem_of_cons. simpl.
  case_bool_decide; subst; [done|]. intros [?|Hx]; [done|]. rewrite (IH Hx) at 1. apply Permutation_swap.
Qed.

Lemma to_front_perm x l : x ∈ l → to_front x l ≡ₚ l.
Proof. intros. unfold to_front. by rewrite <-list_remove_perm. Qed.

Lemma prefer_own_name_loop item ps el l :
  (∀ p, p ∈ l → ∃ pn, fn_pn p = Some pn ∧ is_Some (dget ps pn)) →
  ∃ el', fold_res (prefer_own_name c item ps) el l = Ok el' ∧ el' ≡ₚ el.
Proof.
  revert el. induction l as [|p l IH]; intros el Hl; [by exists el|].
  cbn [fold_res]. unfold prefer_own_name at 2.
  destruct (Hl p (list_elem_of_here _ _)) as (pn & Hpn & [o Ho]). unfold fn_pn in Hpn. rewrite Hpn.
  cbn [mbind res_bind of_option].
  assert (∀ el1, el1 ≡ₚ el → ∃ el', fold_res (prefer_own_name c item ps) el1 l = Ok el' ∧ el' ≡ₚ el) as Hgo.
  { intros el1 H1. destruct (IH el1) as (el' & -> & H2); [intros; apply Hl; by apply list_elem_of_further|].
    exists el'. split; [done|by etrans]. }
  case_bool_decide; cbn [mbind res_bind]; [by apply Hgo|].
  rewrite Ho. cbn [mbind res_bind of_option].
  destruct o as [[v f]|]; [|by apply Hgo]. case_bool_decide; cbn [mbind res_bind]; apply Hgo; [|done].
  by apply to_front_perm.
Qed.

Lemma _filterProviders_spec provs item :
  provs_ok c provs → provs ≠ [] →
  ∃ el, _filterProviders provs item cfg c = Ok (py_sorted provs, Some el) ∧ eligible_spec provs el.
Proof.
  intros Hok0 Hne. unfold _filterProviders.
  assert (∀ p, p ∈ py_sorted provs ↔ p ∈ provs) as Hs by (intros; by rewrite py_sorted_perm).
  assert (provs_ok c (py_sorted provs)) as Hok by (eapply provs_ok_subseteq; [done|intros ?; apply Hs]).
  destruct (collate_by_pn_spec _ Hok) as (by_pn & Hcol & Hwf & _ & Hin).
  rewrite Hcol. cbn [mbind res_bind]. set (pns := py_sorted (dkeys by_pn)).
  assert (pns ≡ₚ dkeys by_pn) as Hpns by apply py_sorted_perm.
  assert (NoDup pns) as Hnd by (rewrite Hpns; exact Hwf).
  rewrite (add_preferred_loop _ by_pn pns [] [] [] Hok Hcol);
    [|intros x; by rewrite Hpns|done|intros; split; apply not_elem_of_nil].
  cbn [mbind res_bind app].
  set (ss := List.map (λ pn, (pn, sets_of by_pn pn)) pns).
  assert (dkeys ss = pns) as Hss.
  { unfold dkeys, ss. clear. induction pns; simpl; f_equal; done. }
  rewrite Hss. set (pns2 := py_sorted pns).
  assert (pns2 ≡ₚ pns) as Hpns2 by apply py_sorted_perm.
  assert (∀ {V} (f : string → V) pn, pn ∈ pns → dget (List.map (λ pn, (pn, f pn)) pns) pn = Some (f pn)) as Hget.
  { intros V f pn. clear. induction pns as [|x l IH]; [by intros ?%elem_of_nil|].
    rewrite elem_of_cons. simpl. case_decide; subst; [done|]. intros [?|?]; [done|auto]. }
  destruct (add_latest_loop _ by_pn ss pns2
    (List.concat (List.map (λ pn, file_of (pref_of by_pn pn)) pns))
    (List.map (λ pn, (pn, pref_of by_pn pn)) pns) Hok Hcol) as (ps' & -> & Hps').
  { intros x. by rewrite Hpns2, Hpns. }
  { by rewrite Hpns2. }
  { intros pn. rewrite Hpns2. intros. unfold ss. by rewrite !Hget. }
  cbn [mbind res_bind].
  set (el := _ ++ _).
  assert (el ≡ₚ List.concat (List.map (λ pn, file_of (best_of by_pn pn)) (dkeys by_pn))) as Hel.
  { unfold el. rewrite <-Hpns.
    assert (∀ l l', l ≡ₚ l' → ∀ f : string → list string,
      List.concat (List.map f l) ≡ₚ List.concat (List.map f l')) as Hcp.
    { clear. induction 1; intros f; simpl; [done|by apply Permutation_app_head| |etrans; eauto].
      rewrite !app_assoc. f_equiv. apply Permutation_app_comm. }
    rewrite (Hcp _ _ Hpns2). apply concat_split_perm. intros pn. rewrite Hpns. intros Hpn.
    destruct (names_total _ by_pn pn Hok Hcol Hpn) as (_ & _ & (? & ? & _ & _ & ->) & _).
    destruct (pref_of by_pn pn); [by rewrite app_nil_r|done]. }
  assert (∀ p, p ∈ provs → ∃ pn, fn_pn p = Some pn ∧ pn ∈ dkeys by_pn) as Hkeys.
  { intros p Hp. destruct (proj1 Hok0 p Hp) as (_ & [pn Hpn] & _). exists pn. split; [done|].
    apply elem_of_dkeys. destruct (dget by_pn pn) eqn:E; [by eexists|].
    assert (p ∈ default [] (dget by_pn pn)) as H1 by (apply Hin; by rewrite Hs).
    rewrite E in H1. by apply elem_of_nil in H1. }
  assert (eligible_spec provs el) as Hspec by (by eapply eligible_spec_best).
  clear Hel.
  destruct el as [|f el'] eqn:Eel.
  { destruct provs as [|p provs]; [done|]. destruct Hspec as (_ & _ & Hall & _).
    destruct (Hall p (list_elem_of_here _ _)) as (q & ?%elem_of_nil & _). done. }
  destruct (prefer_own_name_loop item ps' (f :: el') (py_sorted provs)) as (el2 & -> & Hp2).
  { intros p. rewrite Hs. intros Hp. destruct (Hkeys p Hp) as (pn & Hpn & Hk). exists pn.
    split; [done|]. rewrite Hps', decide_True by (by rewrite Hpns2, Hpns). by eexists. }
  cbn [mbind res_bind]. exists el2. split; [done|]. by eapply eligible_spec_perm.
Qed.

Lemma find_pn_total c' pn l :
  (∀ p, dget (pkg_fn c') p = fn_pn p) → (∀ p, p ∈ l → is_Some (fn_pn p)) →
  ∃ o, find_pn c' pn l = Ok o ∧
    match o with
    | Some p => p ∈ l ∧ fn_pn p = Some pn
    | None => ∀ p, p ∈ l → fn_pn p ≠ Some pn
    end.
Proof.
  intros Hc. induction l as [|p l IH]; intros Hl; cbn [find_pn].
  { exists None. split; [done|]. by intros ? ?%elem_of_nil. }
  destruct (Hl p (list_elem_of_here _ _)) as [pn' Hpn']. rewrite Hc, Hpn'.
  cbn [mbind res_bind of_option]. case_bool_decide as Epn.
  { subst. exists (Some p). split; [done|]. split; [apply list_elem_of_here|done]. }
  destruct IH as (o & -> & Ho); [intros; apply Hl; by apply list_elem_of_further|].
  exists o. split; [done|]. destruct o as [q|].
  - destruct Ho. split; [by apply list_elem_of_further|done].
  - intros q [->|Hq]%elem_of_cons; [congruence|by apply Ho].
Qed.

Lemma eligible_fn_pn provs el p :
  provs_ok c provs → eligible_spec provs el → p ∈ el → is_Some (fn_pn p).
Proof. intros [Hok _] (_ & Hs & _) Hp. by apply (Hok p (Hs p Hp)). Qed.

(** C36: for parsed providers with comparable versions,
    [filterProviders] succeeds.  It keeps exactly one file of every recipe
    name among the providers, the one [findBestProvider] selects for the name
    in that selection; it records PREFERRED_PROVIDER in [dataCache.preferred]
    and changes nothing else; [foundUnique] holds exactly when the preferred
    name is among the providers, and then its file comes first. *)
Theorem filterProviders_spec provs item :
  provs_ok c provs → provs ≠ [] →
  ∃ c' el uniq,
    filterProviders item cfg (provs, c) = ((py_sorted provs, c'), Ok (Some el, uniq)) ∧
    eligible_spec provs el ∧
    c' = set_preferred c (preferred c') ∧
    (∀ v, ds_getVar cfg ("PREFERRED_PROVIDER_" +s+ item) = Ok v →
       dget (preferred c') item = if unset v then dget (preferred c) item else v) ∧
    (uniq = true ↔ ∃ p pn, p ∈ provs ∧ fn_pn p = Some pn ∧ dget (preferred c') item = Some pn) ∧
    (uniq = true → ∃ p, head el = Some p ∧ fn_pn p = dget (preferred c') item).
Proof.
  intros Hok Hne. unfold filterProviders. rewrite get_bind, modify_bind, lift_bind. cbn [fst snd].
  destruct (_filterProviders_spec provs item Hok Hne) as (el & -> & Hel). rewrite lift_bind.
  destruct (getVar_total ("PREFERRED_PROVIDER_" +s+ item)) as [v Hv]. rewrite Hv.
  set (c' := match v with Some (String _ _ as v) => set_preferred c (dset (preferred c) item v) | _ => c end).
  rewrite M_bind_eq. replace (_ (py_sorted provs, c)) with ((py_sorted provs, c'), Ok tt : res unit)
    by (unfold c'; by destruct v as [[|??]|]).
  rewrite get_bind. cbn [fst snd].
  assert (c' = set_preferred c (preferred c')) as Hc' by (unfold c'; destruct v as [[|??]|]; by destruct c).
  assert (dget (preferred c') item = if unset v then dget (preferred c) item else v) as Hpref.
  { unfold c'. destruct v as [[|a v]|]; [done| |done]. cbn [preferred set_preferred]. by rewrite dget_dset_eq. }
  assert (∀ p, dget (pkg_fn c') p = fn_pn p) as Hfn by (intros; by rewrite Hc').
  assert (∀ v', Ok v = Ok v' → dget (preferred c') item = if unset v' then dget (preferred c) item else v') as Hpref'
    by (by intros ? [= <-]).
  destruct (dget (preferred c') item) as [pn|] eqn:Epn.
  2:{ exists c', el, false. rewrite Epn. do 4 (split; [done|]). split; [|done].
      split; [done|]. by intros (? & ? & ? & ? & ?). }
  rewrite lift_bind. cbn [of_option]. rewrite lift_bind.
  destruct (find_pn_total c' pn el Hfn) as (o & -> & Ho); [intros; by eapply eligible_fn_pn|].
  destruct o as [p|].
  - destruct Ho as [Hp Hpn]. exists c', (to_front p el), true. rewrite Epn. split; [done|]. split.
    { eapply eligible_spec_perm; [|exact Hel]. symmetry. by apply to_front_perm. }
    do 2 (split; [done|]). split; [|intros _; by exists p].
    split; [|done]. intros _. exists p, pn. split; [by apply Hel|done].
  - exists c', el, false. rewrite Epn. do 4 (split; [done|]). split; [|done]. split; [done|].
    intros (p & pn' & Hp & Hpn & [= <-]). destruct Hel as (_ & _ & Hall & _).
    destruct (Hall p Hp) as (q & Hq & E). destruct (Ho q Hq). congruence.
Qed.

(** What PREFERRED_PROVIDER infers for a runtime item: a file [p] votes for a
    recipe name [nm] when it is the value for something its recipe provides. *)
Definition votes (p nm : string) : Prop :=
  ∃ pn provide, fn_pn p = Some pn ∧ provide ∈ default [] (dget (pn_provides c) pn) ∧
    ds_getVar cfg ("PREFERRED_PROVIDER_" +s+ provide) = Ok (Some nm).

(** The table [pns] of the eligible files by recipe name. *)
Definition pns_ok (el : list string) (pns : dict string) : Prop :=
  (∀ pn p, dget pns pn = Some p → p ∈ el ∧ fn_pn p = Some pn) ∧
  (∀ p pn, p ∈ el → fn_pn p = Some pn → is_Some (dget pns pn)).

(** [el] with the files of [moved] in front, the last one moved first. *)
Definition moved_front (moved el : list string) : list string :=
  reverse moved ++ List.filter (λ p, bool_decide (p ∉ moved)) el.

(** The runtime search: the files moved are eligible, distinct, voted for and
    in front of the others. *)
Definition rt_ok (el : list string) (st : rt_state) : Prop :=
  rt_current st = moved_front (rt_preferred st) el ∧ NoDup (rt_preferred st) ∧
  (∀ q, q ∈ rt_preferred st → q ∈ el ∧ ∃ p nm, p ∈ el ∧ votes p nm ∧ fn_pn q = Some nm) ∧
  (rt_eligible st = None → rt_preferred st = [] ∧ rt_loop st = el) ∧
  (rt_eligible st ≠ None → rt_preferred st ≠ []) ∧
  (∀ p, p ∈ rt_loop st → p ∈ el) ∧ List.length (rt_loop st) ≤ List.length el.

(** A vote of [p] for an eligible file was followed: one such file is moved. *)
Definition heard (el moved : list string) (p : string) : Prop :=
  ∀ q nm, q ∈ el → votes p nm → fn_pn q = Some nm →
  ∃ q' nm', q' ∈ moved ∧ votes p nm' ∧ fn_pn q' = Some nm'.

(** The files the search has passed at position [i]: all were heard, but for
    the one that the first move makes the iteration skip. *)
Definition passed (el : list string) (i : nat) (st : rt_state) : Prop :=
  ∃ skipped, ∀ p, p ∈ el →
    p ∈ drop i (rt_loop st) ∨ heard el (rt_preferred st) p ∨ (rt_preferred st ≠ [] ∧ p = skipped).

Lemma list_remove_subseteq x l : list_remove x l ⊆ l.
Proof. induction l as [|y l IH]; simpl; [done|]. case_bool_decide; set_solver. Qed.

Lemma list_remove_length x l : List.length (list_remove x l) ≤ List.length l.
Proof. induction l as [|y l IH]; simpl; [done|]. case_bool_decide; simpl; lia. Qed.

Lemma list_remove_app x l1 l2 : x ∉ l1 → list_remove x (l1 ++ l2) = l1 ++ list_remove x l2.
Proof.
  induction l1 as [|y l1 IH]; [done|]. rewrite not_elem_of_cons. intros [? ?]. simpl.
  rewrite bool_decide_eq_false_2 by done. by rewrite IH.
Qed.

(** Taking an element out of a list moves at most one of the elements from
    position [k] on out of that range. *)
Lemma drop_list_remove x k l : ∃ y0, ∀ y, y ∈ drop k l → y ∈ drop k (list_remove x l) ∨ y = y0.
Proof.
  revert k. induction l as [|a l IH]; intros k; [exists x; by rewrite drop_nil; intros ? ?%elem_of_nil|].
  simpl. case_bool_decide as E.
  - destruct k as [|k]; simpl; [exists a; intros y; rewrite elem_of_cons; tauto|].
    destruct (drop k l) as [|b r] eqn:Ed; [exists x; by intros ? ?%elem_of_nil|].
    exists b. intros y. rewrite elem_of_cons. intros [->|Hy]; [by right|left].
    replace (S k) with (k + 1) by lia. by rewrite <-drop_drop, Ed.
  - destruct k as [|k]; simpl; [|apply IH]. destruct (IH 0) as [y0 Hy0]. exists y0.
    intros y. rewrite !elem_of_cons. intros [?|Hy]; [auto|]. rewrite !drop_0 in Hy0. destruct (Hy0 y Hy); auto.
Qed.

Lemma list_remove_filter x (p : string → bool) l :
  NoDup l → p x = true →
  list_remove x (List.filter p l) = List.filter (λ y, p y && bool_decide (y ≠ x)) l.
Proof.
  intros Hnd Hp. induction Hnd as [|y l Hy Hl IH]; [done|]. simpl.
  destruct (p y) eqn:Ey; simpl; [|done]. case_bool_decide as E; simpl.
  - subst y. rewrite bool_decide_eq_false_2 by auto. simpl. symmetry. apply filter_ext_in.
    intros z Hz%list_elem_of_In. rewrite bool_decide_eq_true_2 by congruence. by rewrite andb_true_r.
  - rewrite bool_decide_eq_true_2 by done. simpl. by rewrite IH.
Qed.

(** Moving one more file to the front. *)
Lemma moved_front_add el moved x :
  NoDup el → x ∈ el → x ∉ moved →
  x :: list_remove x (moved_front moved el) = moved_front (moved ++ [x]) el.
Proof.
  intros Hnd Hx Hm. unfold moved_front. rewrite reverse_snoc. cbn. f_equal.
  rewrite list_remove_app by (by rewrite elem_of_reverse). f_equal.
  rewrite list_remove_filter by (done || by apply bool_decide_eq_true).
  apply List.filter_ext. intros y. rewrite <-bool_decide_and. apply bool_decide_ext. set_solver.
Qed.

Lemma moved_front_nil el : moved_front [] el = el.
Proof.
  unfold moved_front. change (reverse [] ++ ?l) with l. rewrite (List.filter_ext _ (λ _, true)).
  - induction el as [|x el IH]; [done|]. simpl. by rewrite IH.
  - intros x. apply bool_decide_eq_true_2, not_elem_of_nil.
Qed.

(** A move, made for a vote of [p], the file at position [i]. *)
Lemma rt_move_ok el i p q nm st :
  NoDup el → rt_ok el st → passed el i st → rt_loop st !! i = Some p →
  q ∈ el → q ∉ rt_preferred st → votes p nm → fn_pn q = Some nm →
  rt_ok el (rt_move q st) ∧ passed el (S i) (rt_move q st).
Proof.
  intros Hnd (Hc & Hp & Hv & Hf & Hs & Hl & Hlen) [sk Hpa] Hi Hq Hqn Hvote Hfn.
  assert (p ∈ el) as Hpe by (apply Hl; by eapply list_elem_of_lookup_2).
  set (st' := rt_move q st).
  assert (rt_preferred st' = rt_preferred st ++ [q]) as Ep by done.
  assert (heard el (rt_preferred st') p) as Hheard.
  { intros q' nm' _ _ _. exists q, nm. rewrite Ep. split; [set_solver|done]. }
  assert (∀ x, heard el (rt_preferred st) x → heard el (rt_preferred st') x) as Hmono.
  { intros x Hx q' nm' H1 H2 H3. destruct (Hx q' nm' H1 H2 H3) as (q2 & nm2 & ? & ?).
    exists q2, nm2. rewrite Ep. split; [set_solver|done]. }
  assert (rt_loop st' = match rt_eligible st with None => list_remove q (rt_loop st) | Some _ => rt_loop st end) as El
    by (unfold st', rt_move, rt_current; by destruct (rt_eligible st)).
  assert (∀ x, x ∈ drop i (rt_loop st) → x = p ∨ x ∈ drop (S i) (rt_loop st)) as Hdrop.
  { intros x. rewrite (drop_S _ _ _ Hi), elem_of_cons. done. }
  split.
  - split; [|split; [|split; [|split; [|split; [|split]]]]].
    + rewrite Ep, <-moved_front_add, <-Hc by done. done.
    + rewrite Ep. apply NoDup_app. split; [done|]. split; [|apply NoDup_singleton].
      intros x Hx ->%list_elem_of_singleton. done.
    + rewrite Ep. intros x [Hx|Hx%list_elem_of_singleton]%elem_of_app; [by apply Hv|subst x]. split; [done|]. by exists p, nm.
    + done.
    + intros _. rewrite Ep. by destruct (rt_preferred st).
    + intros x. rewrite El. destruct (rt_eligible st); [apply Hl|]. intros Hx%list_remove_subseteq. by apply Hl.
    + rewrite El. destruct (rt_eligible st); [done|]. pose proof (list_remove_length q (rt_loop st)). lia.
  - assert (rt_preferred st' ≠ []) as Hne by (rewrite Ep; by destruct (rt_preferred st)).
    destruct (rt_eligible st) as [l|] eqn:Ee.
    + exists sk. intros x Hx. rewrite El. destruct (Hpa x Hx) as [Hd|[Hd|[_ Hd]]]; [|by right; left; apply Hmono|by right; right].
      apply Hdrop in Hd as [->|Hd]; [by right; left|by left].
    + destruct (Hf eq_refl) as [E0 E1]. destruct (drop_list_remove q (S i) (rt_loop st)) as [y0 Hy0].
      exists y0. intros x Hx. rewrite El. destruct (Hpa x Hx) as [Hd|[Hd|[Hd _]]]; [|by right; left; apply Hmono|by rewrite E0 in Hd].
      apply Hdrop in Hd as [->|Hd]; [by right; left|]. destruct (Hy0 x Hd); auto.
Qed.

Lemma rt_provides_ok el pns i p pn provides st :
  NoDup el → pns_ok el pns → rt_ok el st → passed el i st → rt_loop st !! i = Some p →
  fn_pn p = Some pn → provides ⊆ default [] (dget (pn_provides c) pn) →
  ∃ st', rt_provides cfg pns provides st = Ok st' ∧ rt_ok el st' ∧
    (passed el (S i) st' ∨
     (st' = st ∧ ∀ provide q nm, provide ∈ provides → q ∈ el → fn_pn q = Some nm →
        ds_getVar cfg ("PREFERRED_PROVIDER_" +s+ provide) = Ok (Some nm) →
        ∃ q', q' ∈ rt_preferred st ∧ fn_pn q' = Some nm)).
Proof.
  intros Hnd [Hp1 Hp2] Hst Hpa Hi Hpn. revert Hst Hpa Hi. induction provides as [|pr l IH]; intros Hst Hpa Hi Hsub;
    cbn [rt_provides].
  { exists st. split; [done|]. split; [done|]. right. split; [done|]. by intros ??? ?%elem_of_nil. }
  assert (l ⊆ default [] (dget (pn_provides c) pn)) as Hsub' by set_solver.
  destruct (getVar_total ("PREFERRED_PROVIDER_" +s+ pr)) as [v Hv]. rewrite Hv. cbn [mbind res_bind].
  assert (∀ (Hd : ∀ q nm, q ∈ el → fn_pn q = Some nm → v = Some nm → ∃ q', q' ∈ rt_preferred st ∧ fn_pn q' = Some nm),
    ∃ st', rt_provides cfg pns l st = Ok st' ∧ rt_ok el st' ∧
    (passed el (S i) st' ∨
     (st' = st ∧ ∀ provide q nm, provide ∈ pr :: l → q ∈ el → fn_pn q = Some nm →
        ds_getVar cfg ("PREFERRED_PROVIDER_" +s+ provide) = Ok (Some nm) →
        ∃ q', q' ∈ rt_preferred st ∧ fn_pn q' = Some nm))) as Hskip.
  { intros Hd. destruct (IH Hst Hpa Hi Hsub') as (st' & E & Hst' & Hr). exists st'. split; [done|]. split; [done|].
    destruct Hr as [Hr|[-> Hr]]; [by left|right]. split; [done|].
    intros pr' q nm [->|Hin]%elem_of_cons Hq Hnm Hg; [|by apply (Hr pr' q)].
    rewrite Hv in Hg. injection Hg as ->. by apply (Hd q nm). }
  destruct (v ≫= dget pns) as [pref|] eqn:E.
  - destruct v as [nm|]; [|done]. cbn in E. destruct (Hp1 nm pref E) as [Hpe Hfp].
    case_bool_decide as Hnew.
    + eexists. split; [done|]. destruct (rt_move_ok el i p pref nm st) as [H1 H2]; [done..| |done|].
      * exists pn, pr. split; [done|]. split; [apply Hsub, list_elem_of_here|done].
      * split; [done|by left].
    + apply Hskip. intros q nm' _ _ [= <-]. exists pref. split; [|done].
      by destruct (decide (pref ∈ rt_preferred st)).
  - apply Hskip. intros q nm Hq Hnm ->. cbn in E. destruct (Hp2 q nm Hq Hnm) as [? ?]. congruence.
Qed.

Lemma rt_scan_ok el pns fuel i st :
  NoDup el → pns_ok el pns → (∀ p, p ∈ el → is_Some (fn_pn p)) → rt_ok el st → passed el i st →
  List.length el - i < fuel →
  ∃ st' i', rt_scan cfg c pns fuel i st = Ok st' ∧ rt_ok el st' ∧ passed el i' st' ∧
    List.length (rt_loop st') ≤ i'.
Proof.
  intros Hnd Hpns Hel. revert i st. induction fuel as [|fuel IH]; intros i st Hst Hpa Hf; [lia|].
  cbn [rt_scan]. destruct (rt_loop st !! i) as [p|] eqn:E; [|apply lookup_ge_None in E; by eauto 10].
  pose proof Hst as (_ & _ & _ & _ & _ & Hl & Hlen).
  destruct (Hel p) as [pn Hpn]; [apply Hl; by eapply list_elem_of_lookup_2|].
  pose proof Hpn as Hpn'. unfold fn_pn in Hpn'. rewrite Hpn'. cbn [mbind res_bind of_option].
  destruct (rt_provides_ok el pns i p pn (default [] (dget (pn_provides c) pn)) st)
    as (st' & -> & Hst' & Hr); [done..|].
  cbn [mbind res_bind]. apply IH; [done| |apply lookup_lt_Some in E; lia].
  destruct Hr as [Hr|[-> Hr]]; [done|]. destruct Hpa as [sk Hpa]. exists sk. intros x Hx.
  destruct (Hpa x Hx) as [Hd|Hd]; [|by right]. rewrite (drop_S _ _ _ E), elem_of_cons in Hd.
  destruct Hd as [->|Hd]; [right; left|by left].
  intros q nm Hq (pn' & provide & Hpn2 & Hin & Hg) Hnm. rewrite Hpn in Hpn2. injection Hpn2 as <-.
  destruct (Hr provide q nm Hin Hq Hnm Hg) as (q' & Hq' & Hnm'). exists q', nm. split; [done|]. split; [|done].
  by exists pn, provide.
Qed.

Lemma eligible_pns_ok el :
  (∀ p, p ∈ el → is_Some (fn_pn p)) →
  ∃ pns, eligible_pns c el = Ok pns ∧ pns_ok el pns.
Proof.
  intros Hel. eexists. split.
  { apply (fold_res_pure _ (λ d p, dset d (default "" (fn_pn p)) p)). intros d p Hp.
    destruct (Hel p Hp) as [pn Hpn]. unfold fn_pn in *. by rewrite Hpn. }
  induction el as [|p el IH] using rev_ind; [split; [done|by intros ?? ?%elem_of_nil]|].
  assert (∀ q, q ∈ el → is_Some (fn_pn q)) as Hel' by set_solver.
  destruct (Hel p) as [pn Hpn]; [set_solver|]. specialize (IH Hel') as [IH1 IH2].
  rewrite foldl_app. simpl. rewrite Hpn. cbn [default]. split.
  - intros pn' q. rewrite dget_dset. case_decide; [|intros Hd%IH1; set_solver].
    intros [= ->]. subst. split; [set_solver|done].
  - intros q pn' [Hq|Hq%list_elem_of_singleton]%elem_of_app Hn; [|subst q]; rewrite dget_dset; (case_decide; [by eexists|]);
      [by apply (IH2 q)|unfold id in *; congruence].
Qed.

(** What [filterProvidersRunTime] makes of the [el0] that [_filterProviders]
    selects, when PREFERRED_RPROVIDER names none of them: the files [moved]
    come first; each is the file of a name some selected file votes for; and
    the votes are heard, but for those of one file at most once there was a
    move. *)
Definition inferred_front (el0 el : list string) (n : nat) : Prop :=
  ∃ moved skipped, el = moved_front moved el0 ∧ n = List.length moved ∧ NoDup moved ∧
    (∀ q, q ∈ moved → q ∈ el0 ∧ ∃ p nm, p ∈ el0 ∧ votes p nm ∧ fn_pn q = Some nm) ∧
    ∀ p, p ∈ el0 → heard el0 moved p ∨ (moved ≠ [] ∧ p = skipped).

(** The file of the name PREFERRED_RPROVIDER gives. *)
Definition rpreferred (item p : string) : Prop :=
  ∃ pn, pn ≠ "" ∧ fn_pn p = Some pn ∧ ds_getVar cfg ("PREFERRED_RPROVIDER_" +s+ item) = Ok (Some pn).

Lemma rt_scan_inferred el pns :
  NoDup el → pns_ok el pns → (∀ p, p ∈ el → is_Some (fn_pn p)) →
  ∃ st, rt_scan cfg c pns (S (List.length el)) 0 (RtState el None []) = Ok st ∧
    inferred_front el (rt_current st) (List.length (rt_preferred st)).
Proof.
  intros Hnd Hpns Hfn.
  destruct (rt_scan_ok el pns (S (List.length el)) 0 (RtState el None [])) as (st & i & E & Hst & [sk Hpa] & Hi);
    [done..| | |lia|].
  - split; [symmetry; apply moved_front_nil|]. split; [apply NoDup_nil_2|].
    split; [by intros ? ?%elem_of_nil|]. split; [done|]. split; [by intros []|]. done.
  - exists "". intros p Hp. by left.
  - exists st. split; [done|]. destruct Hst as (Hc & Hnd' & Hv & _).
    exists (rt_preferred st), sk. do 4 (split; [done|]). intros p Hp.
    destruct (Hpa p Hp) as [Hd|Hd]; [|done]. rewrite drop_ge in Hd by done. by apply elem_of_nil in Hd.
Qed.

Lemma moved_front_perm moved el :
  NoDup el → NoDup moved → moved ⊆ el → moved_front moved el ≡ₚ el.
Proof.
  intros Hnd Hm Hsub. unfold moved_front. apply NoDup_Permutation; [|done|].
  - apply NoDup_app. split; [by rewrite reverse_Permutation|]. split; [|by apply NoDup_ListNoDup, List.NoDup_filter, NoDup_ListNoDup].
    intros x Hx Hf. apply list_elem_of_In, filter_In in Hf as [_ Hf%bool_decide_eq_true].
    by rewrite elem_of_reverse in Hx.
  - intros x.
    assert (x ∈ List.filter (λ p, bool_decide (p ∉ moved)) el ↔ (x ∉ moved) ∧ x ∈ el) as E
      by (rewrite list_elem_of_In, filter_In, <-list_elem_of_In, bool_decide_eq_true; tauto).
    rewrite elem_of_app, elem_of_reverse, E.
    destruct (decide (x ∈ moved)); naive_solver.
Qed.

(** C37: for parsed providers with comparable versions
    [filterProvidersRunTime] succeeds, although it changes the list it is
    iterating: the result is a reordering of the files [_filterProviders]
    selects, again one best file per recipe name.  When PREFERRED_RPROVIDER
    names a selected file, which holds when it names the recipe of a provider,
    that file is moved to the front and [numberPreferred] is 1.  Otherwise the
    files named by the PREFERRED_PROVIDER of something a selected recipe
    provides are moved to the front, the last one first, and
    [numberPreferred] counts them; nothing else moves, and when nothing moves
    no selected file is so named.  Once a file moved, the change of the list
    makes the loop miss one file at most; for every other file that names
    selected ones, one of those is moved. *)
Theorem filterProvidersRunTime_spec provs item :
  provs_ok c provs → provs ≠ [] →
  ∃ el0 el n,
    _filterProviders provs item cfg c = Ok (py_sorted provs, Some el0) ∧
    filterProvidersRunTime provs item cfg c = Ok (py_sorted provs, el, n) ∧
    el ≡ₚ el0 ∧ eligible_spec provs el ∧ n ≤ List.length el ∧
    ((∃ q, q ∈ el0 ∧ rpreferred item q ∧ el = q :: list_remove q el0 ∧ n = 1) ∨
     ((∀ q, q ∈ el0 → ¬ rpreferred item q) ∧ inferred_front el0 el n)) ∧
    (∀ p pn, p ∈ provs → fn_pn p = Some pn → pn ≠ "" →
       ds_getVar cfg ("PREFERRED_RPROVIDER_" +s+ item) = Ok (Some pn) →
       n = 1 ∧ ∃ q, head el = Some q ∧ fn_pn q = Some pn).
Proof.
  intros Hok Hne. unfold filterProvidersRunTime.
  destruct (_filterProviders_spec provs item Hok Hne) as (el & -> & Hel). cbn [mbind res_bind].
  assert (∀ p, p ∈ el → is_Some (fn_pn p)) as Hfn by (intros; by eapply eligible_fn_pn).
  assert (NoDup el) as Hnd.
  { destruct Hel as (Hnd & _). change (NoDup (fn_pn <$> el)) in Hnd. by apply NoDup_fmap_1 in Hnd. }
  destruct (getVar_total ("PREFERRED_RPROVIDER_" +s+ item)) as [v Hv]. rewrite Hv. cbn [mbind res_bind of_option].
  assert (∃ o, match v with Some (String _ _ as v) => find_pn c v el | _ => Ok None end = Ok o ∧
    match o with
    | Some p => p ∈ el ∧ fn_pn p = v ∧ v ≠ Some ""
    | None => ∀ p pn, p ∈ el → fn_pn p = Some pn → pn ≠ "" → v ≠ Some pn
    end) as (o & -> & Ho).
  { destruct v as [[|a v]|]; [eexists; split; [done|]; by intros ??? _ ? [= <-]| |by eexists].
    destruct (find_pn_total c (String a v) el) as (o & -> & Ho); [done|done|].
    exists o. split; [done|]. destruct o; [by destruct Ho|]. intros p pn Hp Hpn _ [= <-]. by eapply Ho. }
  cbn [mbind res_bind]. exists el. destruct o as [p|].
  - destruct Ho as (Hp & Hpv & Hv0). exists (to_front p el), 1.
    assert (to_front p el ≡ₚ el) as Hperm by (by apply to_front_perm).
    split; [done|]. split; [done|]. split; [done|]. split; [by eapply eligible_spec_perm|]. split; [simpl; lia|]. split.
    + left. exists p. split; [done|]. split; [|done]. destruct (Hfn p Hp) as [pn Hpn].
      exists pn. rewrite Hpn in Hpv. subst v. split; [|done]. congruence.
    + intros q pn Hq Hpn _ [= ->]. split; [done|]. by exists p.
  - destruct (eligible_pns_ok el Hfn) as (pns & -> & Hpns). cbn [mbind res_bind].
    destruct (rt_scan_inferred el pns Hnd Hpns Hfn) as (st & -> & Hst). cbn [mbind res_bind].
    pose proof Hst as (moved & sk & Ec & En & Hnd' & Hin & _).
    assert (rt_current st ≡ₚ el) as Hp by (rewrite Ec; apply moved_front_perm; [done..|]; intros x Hx; by apply Hin).
    exists (rt_current st), (List.length (rt_preferred st)). do 3 (split; [done|]).
    split; [by eapply eligible_spec_perm|]. split.
    { rewrite Hp, En. apply submseteq_length, NoDup_submseteq; [done|]. intros x Hx. by apply Hin. }
    split.
    { right. split; [|done]. intros q Hq (pn & Hpn & Hfq & E). rewrite Hv in E. injection E as ->. by apply (Ho q pn). }
    intros p pn Hpp Hpn Hpne [= ->]. destruct Hel as (_ & _ & Hall & _).
    destruct (Hall p Hpp) as (q & Hq & E). rewrite Hpn in E. by destruct (Ho q pn Hq E Hpne).
Qed.
End filter.

(** ** The world target *)

(** A recipe of [possible_world] is kept when it has the task, provides no
    virtual name, and provides nothing that a recipe of another name
    provides. *)
Definition world_ok (c : CacheData) (task : option string) (f pn : string) : Prop :=
  dget (pkg_fn c) f = Some pn ∧
  (∀ t, task = Some t → t ≠ "" → ∃ td, dget (task_deps c) f = Some td ∧ t ∈ td_tasks td) ∧
  ∀ p, p ∈ default [] (dget (pn_provides c) pn) →
    startswith p "virtual/" = false ∧
    ∀ pf, pf ∈ default [] (dget (providers c) p) → dget (pkg_fn c) pf = Some pn.

Lemma only_provider_spec c pn l b :
  only_provider c pn l = Ok b → b = true ↔ ∀ pf, pf ∈ l → dget (pkg_fn c) pf = Some pn.
Proof.
  induction l as [|pf l IH]; cbn [only_provider].
  { intros [= <-]. split; [by intros _ ? ?%elem_of_nil|done]. }
  destruct (dget (pkg_fn c) pf) as [pn'|] eqn:E; [|done]. cbn [mbind res_bind of_option].
  case_bool_decide as Epn.
  - intros Hl. rewrite (IH Hl). subst. split.
    + intros H q [->|?]%elem_of_cons; [done|auto].
    + intros H q Hq. apply H. by apply list_elem_of_further.
  - intros [= <-]. split; [done|]. intros H. specialize (H pf (list_elem_of_here _ _)). congruence.
Qed.

Lemma world_terminal_spec c pn t l b :
  world_terminal c pn t l = Ok b →
  b = true ↔ t = true ∧ ∀ p, p ∈ l → startswith p "virtual/" = false ∧
    ∀ pf, pf ∈ default [] (dget (providers c) p) → dget (pkg_fn c) pf = Some pn.
Proof.
  revert t. induction l as [|p l IH]; intros t; cbn [world_terminal].
  { intros [= <-]. split; [|by intros [? _]]. intros ->. split; [done|]. by intros ? ?%elem_of_nil. }
  destruct (startswith p "virtual/") eqn:Ev.
  { intros [= <-]. split; [done|]. intros [_ H]. destruct (H p (list_elem_of_here _ _)). congruence. }
  destruct (only_provider c pn _) as [b1|] eqn:Eo; [|done]. cbn [mbind res_bind].
  intros Hb. rewrite (IH _ Hb), andb_true_iff, (only_provider_spec _ _ _ _ Eo).
  split.
  - intros [[-> H1] H2]. split; [done|]. intros q [->|Hq]%elem_of_cons; auto.
  - intros [-> H]. split; [split; [done|]|].
    + apply (H p), list_elem_of_here.
    + intros. apply H. by apply list_elem_of_further.
Qed.

Lemma world_step_spec task c f c' :
  world_step task c f = Ok c' →
  c' = set_world_target c (world_target c') ∧
  ∀ pn, pn ∈ world_target c' ↔ pn ∈ world_target c ∨ world_ok c task f pn.
Proof.
  unfold world_step, world_ok. destruct (dget (pkg_fn c) f) as [pn|] eqn:Ef; [|done].
  cbn [mbind res_bind of_option].
  destruct (match task with Some (String _ _ as t) => _ | _ => _ end) as [t0|] eqn:Et; [|done].
  assert (t0 = true ↔ ∀ t, task = Some t → t ≠ "" →
    ∃ td, dget (task_deps c) f = Some td ∧ t ∈ td_tasks td) as Ht0.
  { destruct task as [[|a t]|]; [injection Et as <-; naive_solver| |injection Et as <-; naive_solver].
    destruct (dget (task_deps c) f) as [td|]; [|done]. cbn [mbind res_bind of_option] in Et.
    injection Et as <-. rewrite bool_decide_eq_true. split.
    - intros H t' [= <-] _. eauto.
    - intros H. by destruct (H _ eq_refl) as (td' & [= <-] & ?). }
  cbn [mbind res_bind]. destruct (world_terminal _ _ _ _) as [b|] eqn:Eb; [|done]. cbn [mbind res_bind].
  pose proof (world_terminal_spec _ _ _ _ _ Eb) as Hb. rewrite Ht0 in Hb.
  intros [= <-]. destruct b.
  - split; [done|]. intros pn'. cbn [world_target set_world_target].
    rewrite elem_of_union, elem_of_singleton. destruct (proj1 Hb eq_refl) as [H1 H2]. split.
    + intros [->|?]; [right|by left]. done.
    + intros [?|([= ->] & _)]; auto.
  - split; [by destruct c|]. intros pn'. split; [by left|]. intros [?|([= ->] & H)]; [done|].
    by apply Hb in H.
Qed.

Lemma cache_provider_named c p pf :
  cache_ok c → pf ∈ default [] (dget (providers c) p) → is_Some (dget (pkg_fn c) pf).
Proof.
  intros Hc Hpf. apply elem_of_dkeys. rewrite <-(ok_keys_provides _ Hc). apply elem_of_dkeys.
  apply (ok_providers _ Hc) in Hpf. destruct (dget (fn_provides c) pf); [by eexists|by apply elem_of_nil in Hpf].
Qed.

Lemma world_step_total c task f :
  cache_ok c → f ∈ dkeys (pkg_fn c) → ∃ c', world_step task c f = Ok c'.
Proof.
  intros Hc Hf. unfold world_step.
  assert (is_Some (dget (task_deps c) f)) as [td Etd].
  { apply elem_of_dkeys. by rewrite (ok_keys_deps _ Hc). }
  apply elem_of_dkeys in Hf as [pn ->]. cbn [mbind res_bind of_option]. rewrite Etd.
  assert (∃ b, (match task with
          | Some (String _ _ as t) => td ← of_option KeyError (Some td); Ok (bool_decide (t ∈ td_tasks td))
          | _ => Ok true end : res bool) = Ok b) as [b ->].
  { destruct task as [[|a t]|]; by eexists. }
  cbn [mbind res_bind].
  assert (∀ l b, ∃ b', world_terminal c pn b l = Ok b') as Hw; [|destruct (Hw (default [] (dget (pn_provides c) pn)) b) as [b' ->]; by eexists].
  clear b. intros l. induction l as [|p l IH]; intros b; cbn [world_terminal]; [by eexists|].
  destruct (startswith p "virtual/"); [by eexists|].
  assert (∃ b', only_provider c pn (default [] (dget (providers c) p)) = Ok b') as [b' ->]; [|apply IH].
  assert (∀ pf, pf ∈ default [] (dget (providers c) p) → is_Some (dget (pkg_fn c) pf)) as Hp
    by (intros; by eapply cache_provider_named).
  induction (default [] (dget (providers c) p)) as [|pf l' IHl]; cbn [only_provider]; [by eexists|].
  destruct (Hp pf (list_elem_of_here _ _)) as [pn' ->]. cbn [mbind res_bind of_option].
  case_bool_decide; [|by eexists]. apply IHl. intros q Hq. apply Hp. by apply list_elem_of_further.
Qed.

(** When the world target is not built yet, the cache is consistent
    and the possible recipes are in it, [buildWorldTargetList] succeeds and
    collects exactly the names of the possible recipes that have the task,
    provide no [virtual/] name and share none of their provides with a recipe
    of another name; the rest of the cache is untouched. *)
Theorem buildWorldTargetList_spec c task :
  cache_ok c → (∀ f, f ∈ possible_world c → f ∈ dkeys (pkg_fn c)) → world_target c = ∅ →
  ∃ c', buildWorldTargetList c task = Ok c' ∧
  c' = set_world_target c (world_target c') ∧
  ∀ pn, pn ∈ world_target c' ↔ ∃ f, f ∈ possible_world c ∧ world_ok c task f pn.
Proof.
  intros Hok Hpw E. unfold buildWorldTargetList.
  rewrite bool_decide_eq_false_2 by (intros Hn; by apply Hn).
  assert (∀ l c0, cache_ok c0 → (∀ f, f ∈ l → f ∈ dkeys (pkg_fn c0)) →
    ∃ c', fold_res (world_step task) c0 l = Ok c') as Htot.
  { clear. induction l as [|f l IH]; intros c0 Hc Hl; cbn [fold_res]; [by eexists|].
    destruct (world_step_total c0 task f Hc (Hl f (list_elem_of_here _ _))) as [c1 E1].
    rewrite E1. cbn [mbind res_bind]. apply world_step_spec in E1 as [-> _].
    apply IH; [by destruct Hc; split|]. intros g Hg. apply Hl. by apply list_elem_of_further. }
  destruct (Htot (possible_world c) c Hok Hpw) as [c' H]. exists c'. split; [done|]. clear Htot Hpw Hok.
  enough (∀ l c0, c0 = set_world_target c (world_target c0) → fold_res (world_step task) c0 l = Ok c' →
    c' = set_world_target c (world_target c') ∧
    ∀ pn, pn ∈ world_target c' ↔ pn ∈ world_target c0 ∨ ∃ f, f ∈ l ∧ world_ok c task f pn) as Hf.
  { destruct (Hf _ c ltac:(by destruct c) H) as [? Hf']. split; [done|]. intros pn. rewrite Hf', E.
    set_solver. }
  clear H. induction l as [|f l IH]; intros c0 Hc0; cbn [fold_res].
  { intros [= <-]. split; [done|]. intros pn. split; [by left|].
    intros [?|(? & ?%elem_of_nil & _)]; done. }
  destruct (world_step task c0 f) as [c1|] eqn:E1; [|done]. cbn [mbind res_bind].
  apply world_step_spec in E1 as [Hc1 Hw1]. intros Hl.
  assert (∀ pn, world_ok c0 task f pn ↔ world_ok c task f pn) as Hw0 by (intros pn; by rewrite Hc0).
  apply IH in Hl as [Hc' Hw]; [|etrans; [exact Hc1|]; rewrite Hc0; reflexivity].
  split; [done|]. intros pn. rewrite Hw, Hw1, Hw0. set_solver.
Qed.

(** ** A concrete cache *)

#[local] Instance dict_store : DataStore (dict string) := {| ds_getVar d v := Ok (dget d v) |}.

Definition sample_recipe (pn pv : string) (provs : list string) : RecipeInfo :=
  MkRecipeInfo pn "" pv "r0" (MkTaskDeps ["do_build"] [] []) 0 provs [] [] [] [] [] [] [] [] [] ""
    "" "" [] [] [] "" [] "" "" "" "".

Definition add_sample (c : CacheData) (fn : string) (ri : RecipeInfo) : CacheData :=
  (add_cacheData fn (c, ri)).1.1.

Definition set_bbfile_priority (c : CacheData) (d : dict Z) : CacheData :=
  MkCacheData (task_deps c) (pkg_fn c) (pkg_pn c) (pkg_pepvpr c) (pkg_dp c) (stamp c) (stampclean c)
    (stamp_extrainfo c) (file_checksums c) (fn_provides c) (pn_provides c) (all_depends c) (deps c)
    (packages c) (providers c) (rproviders c) (packages_dynamic c) (rundeps c) (runrecs c)
    (possible_world c) (universe_target c) (hashfn c) (basetaskhash c) (inherits c) (fakerootenv c)
    (fakerootnoenv c) (fakerootdirs c) (extradepsfunc c) (preferred c) (ignored_dependencies c)
    (world_target c) d.

(** Two versions of [gcc], and [clang], which provides the same compiler. *)
Definition sample_cache : CacheData :=
  set_bbfile_priority
    (add_sample (add_sample (add_sample init_cacheData
      "gcc_9.bb" (sample_recipe "gcc" "9.3" ["cc"]))
      "gcc_10.bb" (sample_recipe "gcc" "10.2" ["cc"]))
      "clang.bb" (sample_recipe "clang" "11" ["cc"]))
    [("gcc_9.bb", 5%Z); ("gcc_10.bb", 5%Z); ("clang.bb", 6%Z)].

Definition sample_provs : list string := ["gcc_9.bb"; "gcc_10.bb"; "clang.bb"].

Lemma sample_provs_ok : provs_ok sample_cache sample_provs.
Proof.
  split.
  - intros p Hp. unfold sample_provs in Hp. rewrite !elem_of_cons, elem_of_nil in Hp.
    destruct Hp as [->|[->|[->|[]]]]; (split; [done|]); vm_compute; eauto 10.
  - intros p q v w Hp Hq. unfold sample_provs in Hp, Hq. rewrite !elem_of_cons, elem_of_nil in Hp, Hq.
    destruct Hp as [->|[->|[->|[]]]], Hq as [->|[->|[->|[]]]]; intros Hv Hw;
      vm_compute in Hv, Hw; injection Hv as <-; injection Hw as <-; vm_compute; eexists; reflexivity.
Qed.

Lemma sortPriorities_spec_witness :
  ∃ sets, sortPriorities "gcc" sample_cache [] = Ok sets ∧
    List.concat sets ≡ₚ ["gcc_9.bb"; "gcc_10.bb"].
Proof.
  destruct (sortPriorities_spec "gcc" sample_cache [] ["gcc_9.bb"; "gcc_10.bb"]) as (sets & H & Hp & _);
    [reflexivity|repeat constructor; vm_compute; eauto|]. eauto.
Defined.

Lemma findLatestProvider_maximal_witness :
  ∃ o, findLatestProvider sample_cache ["gcc_9.bb"; "gcc_10.bb"] = Ok o ∧ o ≠ None.
Proof.
  eexists. split; [vm_compute; reflexivity|].
  destruct (findLatestProvider_maximal sample_cache ["gcc_9.bb"; "gcc_10.bb"]
    (Some (("", "10.2", "r0"), "gcc_10.bb"))) as (v & f & E & _); [vm_compute; reflexivity|done|].
  by rewrite E.
Defined.

Lemma filterProviders_spec_witness :
  ∃ c' el uniq, filterProviders "cc" [("PREFERRED_PROVIDER_cc", "gcc")] (sample_provs, sample_cache)
                = ((py_sorted sample_provs, c'), Ok (Some el, uniq)) ∧ uniq = true.
Proof.
  destruct (filterProviders_spec [("PREFERRED_PROVIDER_cc", "gcc")] sample_cache
    ltac:(by eexists) sample_provs "cc" sample_provs_ok) as (c' & el & u & H & _ & _ & Hp & Hu & _);
    [done|].
  exists c', el, u. split; [done|]. apply Hu. exists "gcc_9.bb", "gcc".
  split; [by left|]. split; [by vm_compute|]. by rewrite (Hp _ eq_refl).
Defined.

Lemma filterProvidersRunTime_spec_witness :
  ∃ el n, filterProvidersRunTime sample_provs "cc" [("PREFERRED_RPROVIDER_cc", "clang")] sample_cache
          = Ok (py_sorted sample_provs, el, n) ∧ n = 1.
Proof.
  destruct (filterProvidersRunTime_spec [("PREFERRED_RPROVIDER_cc", "clang")] sample_cache
    ltac:(by eexists) sample_provs "cc" sample_provs_ok) as (el0 & el & n & _ & H & _ & _ & _ & _ & Hp); [done|].
  exists el, n. split; [done|].
  apply (Hp "clang.bb" "clang"); [do 2 right; by left|by vm_compute|done|reflexivity].
Defined.

Definition world_cache : CacheData :=
  add_sample (add_sample init_cacheData
    "gcc.bb" (sample_recipe "gcc" "9.3" ["cc"]))
    "glibc.bb" (sample_recipe "glibc" "2.31" ["virtual/libc"]).

Lemma add_sample_ok c fn pn pv provs :
  cache_ok c → fn ∉ dkeys (pkg_fn c) → cache_ok (add_sample c fn (sample_recipe pn pv provs)).
Proof.
  intros Hc Hfn. unfold add_sample.
  destruct (add_cacheData_inv (sample_recipe pn pv provs) c fn Hc Hfn) as (c' & -> & H & _); [|done].
  by intros p ?%elem_of_nil.
Qed.

Lemma world_cache_ok : cache_ok world_cache.
Proof.
  apply add_sample_ok; [apply add_sample_ok; [apply init_cacheData_ok|]|]; by_eval.
Qed.

Lemma buildWorldTargetList_spec_witness :
  ∃ c', buildWorldTargetList world_cache (Some "do_build") = Ok c' ∧ world_target c' = {["gcc"]}.
Proof.
  destruct (buildWorldTargetList_spec world_cache (Some "do_build")) as (c' & E & _).
  - exact world_cache_ok.
  - apply Forall_forall. by_eval.
  - by_eval.
  - exists c'. split; [exact E|].
    assert (match buildWorldTargetList world_cache (Some "do_build") with
            | Ok c => bool_decide (world_target c = {["gcc"]}) | Raise _ => false end = true) as Hb
      by (vm_compute; reflexivity).
    rewrite E in Hb. exact (bool_decide_eq_true_1 _ Hb).
Defined.

(** With the plus sign of a dynamic package pattern escaped, the pattern is no
    longer a key of [packages_dynamic]: a match raises RuntimeError. *)
Lemma dynamic_plus_pattern_raises :
  getRuntimeProviders (λ p, Some (λ s, bool_decide (p = "^libstdc\+\+-.*" ∧ s = "libstdc++-dev")))
    (add_sample init_cacheData "gcc.bb"
       (MkRecipeInfo "gcc" "" "9" "r0" (MkTaskDeps [] [] []) 0 [] [] [] ["^libstdc++-.*"] [] [] [] [] [] [] ""
          "" "" [] [] [] "" [] "" "" "" "")) "libstdc++-dev" = Raise RuntimeError.
Proof. by vm_compute. Qed.
