(* ===== verification/TaskData.v ===== *)
(** * Task data (bb/taskdata.py)

    For the targets asked for, [TaskData] finds the recipe files that provide
    them, the tasks of these files and what they depend on, and which files
    and targets cannot be built.  A file that fails is removed from every
    target it provides; a target left without a provider fails, and with it
    every file that depends on it. *)

From Stdlib Require Import Ascii String.
From S2P Require Import Prelude.
From S2P Require Import PyStr.
From S2P Require Import PyDict.
From S2P Require Import Versions.
From S2P Require Import TaskIds.
From S2P Require Import Cache.
From S2P Require Import Providers.

Record TaskEntry : Type := MkTaskEntry {
  tdepends : list string;
  idepends : list (string * string);
  irdepends : list (string * string)
}.

Record SkippedPackage : Type := MkSkipped {
  sk_pn : string;
  sk_reason : string;
  sk_provides : list string;
  sk_rprovides : list string
}.

Record TaskData : Type := MkTaskData {
  build_targets : dict (list string);
  run_targets : dict (list string);
  external_targets : list string;
  seenfns : list string;
  taskentries : dict TaskEntry;
  depids : dict (list string);
  rdepids : dict (list string);
  consider_msgs_cache : list string;
  failed_deps : list string;
  failed_rdeps : list string;
  failed_fns : list string;
  td_abort : bool;
  td_allowincomplete : bool;
  skiplist : dict SkippedPackage;
  mcdepends : list string
}.

(** [TaskData.__init__] *)
Definition init_taskdata (abort : bool) (skiplist : dict SkippedPackage) (allowincomplete : bool) : TaskData :=
  MkTaskData [] [] [] [] [] [] [] [] [] [] [] abort allowincomplete skiplist [].

Definition set_build_targets t v := MkTaskData v (run_targets t) (external_targets t) (seenfns t)
  (taskentries t) (depids t) (rdepids t) (consider_msgs_cache t) (failed_deps t) (failed_rdeps t)
  (failed_fns t) (td_abort t) (td_allowincomplete t) (skiplist t) (mcdepends t).
Definition set_run_targets t v := MkTaskData (build_targets t) v (external_targets t) (seenfns t)
  (taskentries t) (depids t) (rdepids t) (consider_msgs_cache t) (failed_deps t) (failed_rdeps t)
  (failed_fns t) (td_abort t) (td_allowincomplete t) (skiplist t) (mcdepends t).
Definition set_external_targets t v := MkTaskData (build_targets t) (run_targets t) v (seenfns t)
  (taskentries t) (depids t) (rdepids t) (consider_msgs_cache t) (failed_deps t) (failed_rdeps t)
  (failed_fns t) (td_abort t) (td_allowincomplete t) (skiplist t) (mcdepends t).
Definition set_seenfns t v := MkTaskData (build_targets t) (run_targets t) (external_targets t) v
  (taskentries t) (depids t) (rdepids t) (consider_msgs_cache t) (failed_deps t) (failed_rdeps t)
  (failed_fns t) (td_abort t) (td_allowincomplete t) (skiplist t) (mcdepends t).
Definition set_taskentries t v := MkTaskData (build_targets t) (run_targets t) (external_targets t)
  (seenfns t) v (depids t) (rdepids t) (consider_msgs_cache t) (failed_deps t) (failed_rdeps t)
  (failed_fns t) (td_abort t) (td_allowincomplete t) (skiplist t) (mcdepends t).
Definition set_depids t v := MkTaskData (build_targets t) (run_targets t) (external_targets t)
  (seenfns t) (taskentries t) v (rdepids t) (consider_msgs_cache t) (failed_deps t) (failed_rdeps t)
  (failed_fns t) (td_abort t) (td_allowincomplete t) (skiplist t) (mcdepends t).
Definition set_rdepids t v := MkTaskData (build_targets t) (run_targets t) (external_targets t)
  (seenfns t) (taskentries t) (depids t) v (consider_msgs_cache t) (failed_deps t) (failed_rdeps t)
  (failed_fns t) (td_abort t) (td_allowincomplete t) (skiplist t) (mcdepends t).
Definition set_consider_msgs_cache t v := MkTaskData (build_targets t) (run_targets t)
  (external_targets t) (seenfns t) (taskentries t) (depids t) (rdepids t) v (failed_deps t)
  (failed_rdeps t) (failed_fns t) (td_abort t) (td_allowincomplete t) (skiplist t) (mcdepends t).
Definition set_failed_deps t v := MkTaskData (build_targets t) (run_targets t) (external_targets t)
  (seenfns t) (taskentries t) (depids t) (rdepids t) (consider_msgs_cache t) v (failed_rdeps t)
  (failed_fns t) (td_abort t) (td_allowincomplete t) (skiplist t) (mcdepends t).
Definition set_failed_rdeps t v := MkTaskData (build_targets t) (run_targets t) (external_targets t)
  (seenfns t) (taskentries t) (depids t) (rdepids t) (consider_msgs_cache t) (failed_deps t) v
  (failed_fns t) (td_abort t) (td_allowincomplete t) (skiplist t) (mcdepends t).
Definition set_failed_fns t v := MkTaskData (build_targets t) (run_targets t) (external_targets t)
  (seenfns t) (taskentries t) (depids t) (rdepids t) (consider_msgs_cache t) (failed_deps t)
  (failed_rdeps t) v (td_abort t) (td_allowincomplete t) (skiplist t) (mcdepends t).
Definition set_mcdepends t v := MkTaskData (build_targets t) (run_targets t) (external_targets t)
  (seenfns t) (taskentries t) (depids t) (rdepids t) (consider_msgs_cache t) (failed_deps t)
  (failed_rdeps t) (failed_fns t) (td_abort t) (td_allowincomplete t) (skiplist t) v.

(** ** Targets *)

Definition nonempty {A} (l : list A) : bool := match l with [] => false | _ => true end.

Definition have_build_target (t : TaskData) (target : string) : bool :=
  match dget (build_targets t) target with Some l => nonempty l | None => false end.

Definition have_runtime_target (t : TaskData) (target : string) : bool :=
  match dget (run_targets t) target with Some l => nonempty l | None => false end.

Definition seen_build_target (name : string) (t : TaskData) : TaskData :=
  if dmem (build_targets t) name then t else set_build_targets t (dset (build_targets t) name []).

Definition seen_run_target (name : string) (t : TaskData) : TaskData :=
  if dmem (run_targets t) name then t else set_run_targets t (dset (run_targets t) name []).

(** [add_build_target] and [add_runtime_target] on their table. *)
Definition add_target (d : dict (list string)) (fn item : string) : dict (list string) :=
  match dget d item with
  | Some l => if bool_decide (fn ∈ l) then d else dset d item (l ++ [fn])
  | None => dset d item [fn]
  end.

Definition add_build_target (fn item : string) (t : TaskData) : TaskData :=
  set_build_targets t (add_target (build_targets t) fn item).

Definition add_runtime_target (fn item : string) (t : TaskData) : TaskData :=
  set_run_targets t (add_target (run_targets t) fn item).

Definition mark_external_target (target : string) (t : TaskData) : TaskData :=
  if bool_decide (target ∈ external_targets t) then t
  else set_external_targets t (external_targets t ++ [target]).

Definition get_provider (t : TaskData) (item : string) : res (list string) :=
  of_option KeyError (dget (build_targets t) item).

(** The files whose list in [ids] has the item. *)
Definition dependees_of (ids : dict (list string)) (item : string) : list string :=
  List.map fst (List.filter (λ kv, bool_decide (item ∈ kv.2)) ids).

Definition get_dependees (t : TaskData) (item : string) : list string := dependees_of (depids t) item.
Definition get_rdependees (t : TaskData) (item : string) : list string := dependees_of (rdepids t) item.

Definition get_reasons (t : TaskData) (item : string) (runtime : bool) : list string :=
  List.concat (List.map (λ '(_, s),
    if bool_decide (sk_pn s = item) then [sk_pn s +s+ " was skipped: " +s+ sk_reason s]
    else if runtime && bool_decide (item ∈ sk_rprovides s)
    then [sk_pn s +s+ " RPROVIDES " +s+ item +s+ " but was skipped: " +s+ sk_reason s]
    else if negb runtime && bool_decide (item ∈ sk_provides s)
    then [sk_pn s +s+ " PROVIDES " +s+ item +s+ " but was skipped: " +s+ sk_reason s]
    else []) (skiplist t)).

(** [get_providermap]; [have_build_target] makes the inner [if provider]
    redundant. *)
Definition get_providermap (t : TaskData) (prefix : option string) : dict string :=
  foldl (λ provmap name,
    match prefix with
    | Some (String _ _ as p) => if startswith name p then
        match dget (build_targets t) name with Some (f :: _) => dset provmap name f | _ => provmap end
        else provmap
    | _ => match dget (build_targets t) name with Some (f :: _) => dset provmap name f | _ => provmap end
    end) [] (dkeys (build_targets t)).

(** ** Failing files and targets

    [missing_list] only serves the log messages and is left out.  A call of
    [fail_fn] fails one more file, so the mutual recursion is bounded by the
    number of files; the fuel is a bound on its depth. *)

Fixpoint fail_fn (n : nat) (fn : string) {struct n} : M TaskData unit :=
  match n with
  | O => raise OutOfFuel
  | S n =>
      t ← get;
      if bool_decide (fn ∈ failed_fns t) then mret tt
      else
        _ ← modify (λ t, set_failed_fns t (failed_fns t ++ [fn]));
        t ← get;
        _ ← for_each (dkeys (build_targets t)) (λ target,
              t ← get;
              let l := default [] (dget (build_targets t) target) in
              if bool_decide (fn ∈ l) then
                let l := list_remove fn l in
                _ ← modify (λ t, set_build_targets t (dset (build_targets t) target l));
                if nonempty l then mret tt else remove_buildtarget n target
              else mret tt);
        t ← get;
        for_each (dkeys (run_targets t)) (λ target,
              t ← get;
              let l := default [] (dget (run_targets t) target) in
              if bool_decide (fn ∈ l) then
                let l := list_remove fn l in
                _ ← modify (λ t, set_run_targets t (dset (run_targets t) target l));
                if nonempty l then mret tt else remove_runtarget n target
              else mret tt)
  end
with remove_buildtarget (n : nat) (target : string) {struct n} : M TaskData unit :=
  match n with
  | O => raise OutOfFuel
  | S n =>
      _ ← modify (λ t, set_failed_deps t (failed_deps t ++ [target]));
      t ← get;
      _ ← for_each (get_dependees t target) (fail_fn n);
      t ← get;
      _ ← for_each (taskentries t) (λ '(tid, te),
            for_each (idepends te) (λ '(idepend, _),
              if bool_decide (idepend = target) then fail_fn n (fn_from_tid tid) else mret tt));
      t ← get;
      if td_abort t && bool_decide (target ∈ external_targets t) then raise (NoProvider target)
      else mret tt
  end
with remove_runtarget (n : nat) (target : string) {struct n} : M TaskData unit :=
  match n with
  | O => raise OutOfFuel
  | S n =>
      _ ← modify (λ t, set_failed_rdeps t (failed_rdeps t ++ [target]));
      t ← get;
      _ ← for_each (get_rdependees t target) (fail_fn n);
      t ← get;
      for_each (taskentries t) (λ '(tid, te),
        for_each (irdepends te) (λ '(idepend, _),
          if bool_decide (idepend = target) then fail_fn n (fn_from_tid tid) else mret tt))
  end.

(** The files a failure can reach. *)
Definition reachable_fns (t : TaskData) : list string :=
  dkeys (depids t) ++ dkeys (rdepids t) ++ List.map (λ kv, fn_from_tid kv.1) (taskentries t).

(** Enough fuel for any failure: two levels for each file. *)
Definition fail_fuel (t : TaskData) : nat := 4 + 2 * List.length (reachable_fns t).

Definition fail (fn : string) : M TaskData unit := λ t, fail_fn (fail_fuel t) fn t.
Definition fail_buildtarget (target : string) : M TaskData unit :=
  λ t, remove_buildtarget (fail_fuel t) target t.
Definition fail_runtarget (target : string) : M TaskData unit :=
  λ t, remove_runtarget (fail_fuel t) target t.

(** ** Adding tasks and providers *)

(** The task data with the recipe cache it reads and, in a few places,
    changes. *)
Record tds : Type := MkTds {
  tds_td : TaskData;
  tds_dc : CacheData
}.

Definition on_td {A} (m : M TaskData A) : M tds A := λ s,
  let '(t, r) := m (tds_td s) in (MkTds t (tds_dc s), r).

Definition td_modify (f : TaskData → TaskData) : M tds unit := on_td (modify f).

Definition dc_modify (f : CacheData → CacheData) : M tds unit :=
  modify (λ s, MkTds (tds_td s) (f (tds_dc s))).

Definition set_deps (c : CacheData) (d : dict (list string)) : CacheData :=
  MkCacheData (task_deps c) (pkg_fn c) (pkg_pn c) (pkg_pepvpr c) (pkg_dp c) (stamp c) (stampclean c)
    (stamp_extrainfo c) (file_checksums c) (fn_provides c) (pn_provides c) (all_depends c) d
    (packages c) (providers c) (rproviders c) (packages_dynamic c) (rundeps c) (runrecs c)
    (possible_world c) (universe_target c) (hashfn c) (basetaskhash c) (inherits c) (fakerootenv c)
    (fakerootnoenv c) (fakerootdirs c) (extradepsfunc c) (preferred c) (ignored_dependencies c)
    (world_target c) (bbfile_priority c).

Definition set_providers (c : CacheData) (d : dict (list string)) : CacheData :=
  MkCacheData (task_deps c) (pkg_fn c) (pkg_pn c) (pkg_pepvpr c) (pkg_dp c) (stamp c) (stampclean c)
    (stamp_extrainfo c) (file_checksums c) (fn_provides c) (pn_provides c) (all_depends c) (deps c)
    (packages c) d (rproviders c) (packages_dynamic c) (rundeps c) (runrecs c)
    (possible_world c) (universe_target c) (hashfn c) (basetaskhash c) (inherits c) (fakerootenv c)
    (fakerootnoenv c) (fakerootdirs c) (extradepsfunc c) (preferred c) (ignored_dependencies c)
    (world_target c) (bbfile_priority c).

Definition set_entry (tid : string) (f : TaskEntry → TaskEntry) (t : TaskData) : TaskData :=
  set_taskentries t
    (dset (taskentries t) tid (f (default (MkTaskEntry [] [] []) (dget (taskentries t) tid)))).

(** [p:t] of an inter-task dependency. *)
Definition split_dep (dep : string) : res (string * string) :=
  match split_on ":" dep with [p; t] => Ok (p, t) | _ => Raise Fatal end.

Definition is_NoProvider (e : exn) : bool := match e with NoProvider _ => true | _ => false end.
Definition is_rprovider_error (e : exn) : bool :=
  match e with NoRProvider _ | MultipleRProvider _ => true | _ => false end.

Section taskdata.
Context {D : Type} `{DataStore D} `{!SetOrder string} (cfg : D).
Context (re_compile : string → option (string → bool)).
(** The recipe's own code, run by [better_exec]: from the function's text and
    [deps], [world_target], [pkg_pn] and [self_pn] to [deps] afterwards. *)
Context (better_exec : string → list string → gset string → dict (list string) → string →
                       res (list string)).

(** [any] over the names: a regular expression when anchored, else equality. *)
Fixpoint re_match_strings (target : string) (strings : list string) : res bool :=
  match strings with
  | [] => Ok false
  | name :: strings =>
      if startswith name "^" || endswith name "$" then
        regexp ← of_option ReError (re_compile name);
        if (regexp target : bool) then Ok true else re_match_strings target strings
      else if bool_decide (name = target) then Ok true
      else re_match_strings target strings
  end.

(** The targets of [d] that are not ignored, not failed and have no provider. *)
Definition unresolved_targets (ignored failed : list string) (d : dict (list string)) :
    res (list string) :=
  fold_res (λ acc '(target, l),
    b ← re_match_strings target ignored;
    Ok (if (b : bool) || bool_decide (target ∈ failed) || nonempty l then acc else acc ++ [target])) [] d.

Definition get_unresolved_build_targets (s : tds) : res (list string) :=
  unresolved_targets (ignored_dependencies (tds_dc s)) (failed_deps (tds_td s)) (build_targets (tds_td s)).

Definition get_unresolved_run_targets (s : tds) : res (list string) :=
  unresolved_targets (ignored_dependencies (tds_dc s)) (failed_rdeps (tds_td s)) (run_targets (tds_td s)).

(** [handle_deps]: the dependencies of the task's flag, each name seen. *)
Definition handle_deps (td : TaskDeps) (flag task : string) (seen : string → TaskData → TaskData) :
    M tds (list (string * string)) :=
  match task_flag td flag task with
  | None => mret []
  | Some v =>
      let words := split_ws v in
      _ ← for_each words (λ dep,
            '(p, _) ← lift (split_dep dep);
            td_modify (seen p));
      mret (omap (λ dep, match split_dep dep with Ok pt => Some pt | Raise _ => None end) words)
  end.

Definition add_mcdepends (td : TaskDeps) (task : string) : M tds unit :=
  match task_flag td "mcdepends" task with
  | None => mret tt
  | Some v =>
      for_each (split_ws v) (λ dep,
        if bool_decide (List.length (split_on ":" dep) = 5) then
          td_modify (λ t, if bool_decide (dep ∈ mcdepends t) then t else set_mcdepends t (mcdepends t ++ [dep]))
        else raise Fatal)
  end.

(** The body of the loop over the tasks of [fn]. *)
Definition add_task (fn : string) (td : TaskDeps) (task : string) : M tds unit :=
  let tid := fn +s+ ":" +s+ task in
  _ ← td_modify (λ t, set_taskentries t (dset (taskentries t) tid (MkTaskEntry [] [] [])));
  parents ← lift (of_option KeyError (dget (td_parents td) task));
  let parentids := List.map (λ dep, fn +s+ ":" +s+ dep)
                     (List.filter (λ dep, bool_decide (dep ∈ td_tasks td)) parents) in
  _ ← td_modify (set_entry tid (λ e, MkTaskEntry (tdepends e ++ parentids) (idepends e) (irdepends e)));
  ids ← handle_deps td "depends" task seen_build_target;
  _ ← td_modify (set_entry tid (λ e, MkTaskEntry (tdepends e) (idepends e ++ ids) (irdepends e)));
  rids ← handle_deps td "rdepends" task seen_run_target;
  _ ← td_modify (set_entry tid (λ e, MkTaskEntry (tdepends e) (idepends e) (irdepends e ++ rids)));
  add_mcdepends td task.

Definition add_extra_deps (fn : string) : M tds unit :=
  s ← get;
  match dget (extradepsfunc (tds_dc s)) fn with
  | Some (String _ _ as func) =>
      c ← lift (buildWorldTargetList (tds_dc s) None);
      _ ← dc_modify (λ _, c);
      pn ← lift (of_option KeyError (dget (pkg_fn c) fn));
      l ← lift (better_exec func (default [] (dget (deps c) fn)) (world_target c) (pkg_pn c) pn);
      dc_modify (λ c, set_deps c (dset (deps c) fn l))
  | _ => mret tt
  end.

(** [list(set(l))] *)
Definition uniq (l : list string) : list string := set_iter (list_to_set l).

Definition values {V} (d : dict V) : list V := List.map snd d.

(** The runtime dependencies and recommendations of all packages of [fn]. *)
Definition run_dep_names (c : CacheData) (fn : string) : list string :=
  List.concat (values (default [] (dget (rundeps c) fn))) ++
  List.concat (values (default [] (dget (runrecs c) fn))).

(** [for dep in deps: seen(dep); if dep in failed: fail_fn(fn); return]; true
    when it returned. *)
Fixpoint touch_deps (fn : string) (seen : string → TaskData → TaskData)
    (failed : TaskData → list string) (l : list string) : M tds bool :=
  match l with
  | [] => mret false
  | dep :: l =>
      _ ← td_modify (seen dep);
      s ← get;
      if bool_decide (dep ∈ failed (tds_td s)) then _ ← on_td (fail fn); mret true
      else touch_deps fn seen failed l
  end.

Definition add_tasks (fn : string) : M tds unit :=
  s ← get;
  td ← lift (of_option KeyError (dget (task_deps (tds_dc s)) fn));
  if bool_decide (fn ∈ failed_fns (tds_td s)) then raise Fatal
  else if bool_decide (fn ∈ seenfns (tds_td s)) then mret tt
  else
    _ ← td_modify (λ t, set_seenfns t (seenfns t ++ [fn]));
    _ ← add_extra_deps fn;
    _ ← for_each (td_tasks td) (add_task fn td);
    s ← get;
    let c := tds_dc s in
    _ ← td_modify (λ t, if dmem (depids t) fn then t
                        else set_depids t (dset (depids t) fn (uniq (default [] (dget (deps c) fn)))));
    _ ← td_modify (λ t, if dmem (rdepids t) fn then t
                        else set_rdepids t (dset (rdepids t) fn (uniq (run_dep_names c fn))));
    s ← get;
    b ← touch_deps fn seen_build_target failed_deps (default [] (dget (depids (tds_td s)) fn));
    if (b : bool) then mret tt
    else
      _ ← touch_deps fn seen_run_target failed_rdeps (default [] (dget (rdepids (tds_td s)) fn));
      mret tt.

(** The files of [eligible] that have not failed, each added as a provider of
    the item and with its tasks. *)
Definition add_eligible (add : string → TaskData → TaskData) (eligible : list string) : M tds unit :=
  for_each eligible (λ fn,
    s ← get;
    if bool_decide (fn ∈ failed_fns (tds_td s)) then mret tt
    else _ ← td_modify (add fn); add_tasks fn).

(** The recipe names listed in a MultipleProviders event, once per item. *)
Definition consider_multiple (item : string) (eligible : list string) : M tds unit :=
  s ← get;
  _ ← (if bool_decide (item ∈ consider_msgs_cache (tds_td s)) then mret tt
       else for_each eligible (λ fn, _ ← lift (of_option KeyError (dget (pkg_fn (tds_dc s)) fn)); mret tt));
  td_modify (λ t, set_consider_msgs_cache t (consider_msgs_cache t ++ [item])).

Definition not_failed (t : TaskData) (l : list string) : list string :=
  List.filter (λ p, bool_decide (p ∉ failed_fns t)) l.

(** A call on [dataCache.providers[item]], the list itself, and the cache. *)
Definition on_providers {A} (item : string) (all_p : list string) (m : M (list string * CacheData) A) : M tds A :=
  λ s, let '((all_p, c), r) := m (all_p, tds_dc s) in
       (MkTds (tds_td s) (set_providers c (dset (providers c) item all_p)), r).

(** [add_provider_internal]; the events only inform the user, but collecting
    the names of a NoProvider event can itself raise. *)
Definition add_provider_internal (item : string) : M tds unit :=
  s ← get;
  let c := tds_dc s in
  ignored ← lift (re_match_strings item (ignored_dependencies c));
  if (ignored : bool) then mret tt
  else match dget (providers c) item with
  | None =>
      all_p ← lift (getRuntimeProviders re_compile c item);
      _ ← for_each all_p (λ fn, _ ← lift (of_option KeyError (dget (pkg_fn c) fn)); mret tt);
      raise (NoProvider item)
  | Some all_p =>
      if have_build_target (tds_td s) item then mret tt
      else
        '(eligible, foundUnique) ← on_providers item all_p (filterProviders item cfg);
        eligible ← lift (of_option TypeError eligible);
        let eligible := not_failed (tds_td s) eligible in
        if negb (nonempty eligible) then raise (NoProvider item)
        else
          _ ← (if bool_decide (1 < List.length eligible) && negb foundUnique
               then consider_multiple item eligible else mret tt);
          add_eligible (λ fn, add_build_target fn item) eligible
  end.

Definition add_rprovider (item : string) : M tds unit :=
  s ← get;
  let c := tds_dc s in
  ignored ← lift (re_match_strings item (ignored_dependencies c));
  if (ignored : bool) then mret tt
  else if have_runtime_target (tds_td s) item then mret tt
  else
    all_p ← lift (getRuntimeProviders re_compile c item);
    if negb (nonempty all_p) then raise (NoRProvider item)
    else
      '(_, eligible, numberPreferred) ← lift (filterProvidersRunTime all_p item cfg c);
      let eligible := not_failed (tds_td s) eligible in
      if negb (nonempty eligible) then raise (NoRProvider item)
      else
        _ ← (if bool_decide (1 < List.length eligible) && bool_decide (numberPreferred = 0)
             then consider_multiple item eligible else mret tt);
        if bool_decide (1 < numberPreferred) then
          _ ← consider_multiple item eligible;
          raise (MultipleRProvider item)
        else add_eligible (λ fn, add_runtime_target fn item) eligible.

Definition add_provider (item : string) : M tds unit :=
  _ ← catch (add_provider_internal item) is_NoProvider (λ e,
        s ← get;
        if td_abort (tds_td s) then raise e else on_td (fail_buildtarget item));
  td_modify (mark_external_target item).

(** One unresolved build target; the result is what [added] grows by. *)
Definition resolve_build (target : string) : M tds nat :=
  catch (_ ← add_provider_internal target; mret 1) is_NoProvider (λ e,
    s ← get;
    let t := tds_td s in
    if td_abort t && bool_decide (target ∈ external_targets t) && negb (td_allowincomplete t)
    then raise e
    else if td_allowincomplete t then mret 0
    else _ ← on_td (fail_buildtarget target); mret 0).

Definition resolve_run (target : string) : M tds nat :=
  catch (_ ← add_rprovider target; mret 1) is_rprovider_error
    (λ _, _ ← on_td (fail_runtarget target); mret 0).

(** [for x in l: added += f(x)] *)
Fixpoint sum_each (f : string → M tds nat) (l : list string) : M tds nat :=
  match l with
  | [] => mret 0
  | x :: l => a ← f x; b ← sum_each f l; mret (a + b)
  end.

(** One round of the [while True] loop. *)
Definition unresolved_round : M tds nat :=
  s ← get;
  l ← lift (get_unresolved_build_targets s);
  a ← sum_each resolve_build l;
  s ← get;
  l ← lift (get_unresolved_run_targets s);
  b ← sum_each resolve_run l;
  mret (a + b).

Fixpoint add_unresolved (fuel : nat) : M tds unit :=
  match fuel with
  | O => raise OutOfFuel
  | S fuel =>
      added ← unresolved_round;
      if bool_decide (added = 0) then mret tt else add_unresolved fuel
  end.
End taskdata.

(** ** What a failure leads to *)

Definition providers_in (d : dict (list string)) (x : string) : list string := default [] (dget d x).

(** [f] needs the target [x]: in its dependencies or in those of a task. *)
Definition needs (ids : dict (list string)) (deps_of : TaskEntry → list (string * string))
    (t : TaskData) (x f : string) : Prop :=
  (∃ l, (f, l) ∈ ids ∧ x ∈ l) ∨
  (∃ tid te task, (tid, te) ∈ taskentries t ∧ (x, task) ∈ deps_of te ∧ f = fn_from_tid tid).

Definition build_needs (t : TaskData) := needs (depids t) idepends t.
Definition run_needs (t : TaskData) := needs (rdepids t) irdepends t.

(** What failing never changes. *)
Definition static (t : TaskData) :=
  (depids t, rdepids t, taskentries t, external_targets t, seenfns t, td_abort t, td_allowincomplete t).

(** The effect of a failure on one of the two tables of targets. *)
Record table_fails (d d' : dict (list string)) (failed_fns0 failed_fns' failed' : list string) : Prop := {
  tf_keys : dkeys d' = dkeys d;
  tf_sub : ∀ x, providers_in d' x `sublist_of` providers_in d x;
  tf_gone : ∀ f, f ∈ failed_fns' → f ∉ failed_fns0 → ∀ x, f ∉ providers_in d' x;
  tf_empty : ∀ x, providers_in d x ≠ [] → providers_in d' x = [] → x ∈ failed'
}.

(** The effect of a failure: files and targets only fail, lists of providers
    only shrink; a file that failed is in no list any more, a target whose
    last provider went has failed, a file that needs a target that failed
    has failed, and under [abort] no target asked for has failed. *)
Record fails (t t' : TaskData) : Prop := {
  fails_static : static t' = static t;
  fails_fns : failed_fns t ⊆ failed_fns t';
  fails_deps : failed_deps t ⊆ failed_deps t';
  fails_rdeps : failed_rdeps t ⊆ failed_rdeps t';
  fails_build : table_fails (build_targets t) (build_targets t') (failed_fns t) (failed_fns t') (failed_deps t');
  fails_run : table_fails (run_targets t) (run_targets t') (failed_fns t) (failed_fns t') (failed_rdeps t');
  fails_needs : ∀ x f, x ∈ failed_deps t' → x ∉ failed_deps t → build_needs t x f → f ∈ failed_fns t';
  fails_rneeds : ∀ x f, x ∈ failed_rdeps t' → x ∉ failed_rdeps t → run_needs t x f → f ∈ failed_fns t';
  fails_kept : td_abort t = true → ∀ x, x ∈ external_targets t → x ∈ failed_deps t' → x ∈ failed_deps t
}.

Lemma table_fails_refl d l1 l2 : table_fails d d l1 l1 l2.
Proof. split; [done|done|done|done]. Qed.

Lemma table_fails_trans d1 d2 d3 f1 f2 f3 x2 x3 :
  table_fails d1 d2 f1 f2 x2 → table_fails d2 d3 f2 f3 x3 → f2 ⊆ f3 → x2 ⊆ x3 →
  table_fails d1 d3 f1 f3 x3.
Proof.
  intros [K1 S1 G1 E1] [K2 S2 G2 E2] Hf Hx. split.
  - congruence.
  - intros x. etrans; [apply S2|apply S1].
  - intros f H3 H1 x. destruct (decide (f ∈ f2)) as [H2|H2].
    + intros H. apply (G1 f H2 H1 x). eapply sublist_subseteq; [apply S2|done].
    + by apply G2.
  - intros x H1 H3. destruct (decide (providers_in d2 x = [])) as [H2|H2]; [by apply Hx, E1|by apply E2].
Qed.

Lemma fails_refl t : fails t t.
Proof. split; try done; apply table_fails_refl. Qed.

Lemma needs_static t t' x f :
  static t' = static t → (build_needs t' x f ↔ build_needs t x f) ∧ (run_needs t' x f ↔ run_needs t x f).
Proof.
  unfold static. intros E. injection E as E1 E2 E3 _ _ _ _.
  unfold build_needs, run_needs, needs. by rewrite E1, E2, E3.
Qed.

Lemma fails_trans t1 t2 t3 : fails t1 t2 → fails t2 t3 → fails t1 t3.
Proof.
  intros [A1 B1 C1 D1 F1 G1 N1 R1 E1] [A2 B2 C2 D2 F2 G2 N2 R2 E2]. split.
  - congruence.
  - by etrans.
  - by etrans.
  - by etrans.
  - by eapply table_fails_trans.
  - by eapply table_fails_trans.
  - intros x f H3 H1 Hn. destruct (decide (x ∈ failed_deps t2)) as [H2|H2].
    + by apply B2, (N1 x).
    + apply (N2 x); try done. by apply (needs_static t1 t2).
  - intros x f H3 H1 Hn. destruct (decide (x ∈ failed_rdeps t2)) as [H2|H2].
    + by apply B2, (R1 x).
    + apply (R2 x); try done. by apply (needs_static t1 t2).
  - unfold static in A1. injection A1 as _ _ _ A3 _ A4 _. intros Ha x Hx H3.
    apply E1; [done..|]. apply E2; by rewrite ?A3, ?A4.
Qed.

(** No provider is listed twice. *)
Definition lists_ok (t : TaskData) : Prop :=
  (∀ x, NoDup (providers_in (build_targets t) x)) ∧ (∀ x, NoDup (providers_in (run_targets t) x)).

Lemma fails_lists_ok t t' : fails t t' → lists_ok t → lists_ok t'.
Proof.
  intros [_ _ _ _ [_ Sb _ _] [_ Sr _ _] _ _] [Hb Hr].
  split; intros x; eapply sublist_NoDup; [apply Hb|apply Sb|apply Hr|apply Sr].
Qed.

(** The files a failure can still reach. *)
Definition remaining (U : list string) (t : TaskData) : nat :=
  List.length (List.filter (λ f, bool_decide (f ∉ failed_fns t)) U).

Lemma filter_length_mono {A} (p q : A → bool) l :
  (∀ x, x ∈ l → q x = true → p x = true) → List.length (List.filter q l) ≤ List.length (List.filter p l).
Proof.
  induction l as [|x l IH]; intros H; simpl; [done|].
  assert (List.length (List.filter q l) ≤ List.length (List.filter p l))
    by (apply IH; intros; apply H; [by apply list_elem_of_further|done]).
  specialize (H x (list_elem_of_here _ _)). destruct (q x), (p x); simpl; lia || (by specialize (H eq_refl)).
Qed.

Lemma filter_length_lt {A} (p q : A → bool) l x :
  (∀ x, x ∈ l → q x = true → p x = true) → x ∈ l → p x = true → q x = false →
  List.length (List.filter q l) < List.length (List.filter p l).
Proof.
  intros H Hx Hp Hq. apply list_elem_of_split in Hx as (l1 & l2 & ->).
  rewrite !List.filter_app, !length_app. simpl. rewrite Hp, Hq. simpl.
  assert (List.length (List.filter q l1) ≤ List.length (List.filter p l1))
    by (apply filter_length_mono; intros; apply H; set_solver).
  assert (List.length (List.filter q l2) ≤ List.length (List.filter p l2))
    by (apply filter_length_mono; intros; apply H; set_solver).
  lia.
Qed.

Lemma remaining_mono U t t' : failed_fns t ⊆ failed_fns t' → remaining U t' ≤ remaining U t.
Proof. intros H. apply filter_length_mono. intros x _. rewrite !bool_decide_eq_true. set_solver. Qed.

(** Removing a provider from one list first. *)
Lemma table_fails_shrunk d d1 d' f0 f' x' :
  dkeys d1 = dkeys d → (∀ x, providers_in d1 x `sublist_of` providers_in d x) →
  (∀ x, providers_in d x ≠ [] → providers_in d1 x = [] → x ∈ x') →
  table_fails d1 d' f0 f' x' → table_fails d d' f0 f' x'.
Proof.
  intros K S E [K2 S2 G2 E2]. split; [congruence|intros x; etrans; [apply S2|apply S]|done|].
  intros x H1 H3. destruct (decide (providers_in d1 x = [])); [by apply E|by apply E2].
Qed.

Lemma list_remove_sublist x l : list_remove x l `sublist_of` l.
Proof.
  induction l as [|y l IH]; simpl; [done|]. case_bool_decide; [by apply sublist_cons|by apply sublist_skip].
Qed.

Lemma list_remove_gone x l : NoDup l → x ∉ list_remove x l.
Proof.
  induction 1 as [|y l Hy Hl IH]; simpl; [apply not_elem_of_nil|].
  case_bool_decide; subst; [done|]. rewrite not_elem_of_cons. done.
Qed.

Lemma providers_in_dset d x l y :
  providers_in (dset d x l) y = if decide (x = y) then l else providers_in d y.
Proof. unfold providers_in. rewrite dget_dset. by case_decide. Qed.

Lemma table_remove d x f :
  f ∈ providers_in d x → NoDup (providers_in d x) →
  let d1 := dset d x (list_remove f (providers_in d x)) in
  dkeys d1 = dkeys d ∧ (∀ y, providers_in d1 y `sublist_of` providers_in d y) ∧
  (f ∉ providers_in d1 x) ∧ (∀ y, y ≠ x → providers_in d1 y = providers_in d y).
Proof.
  intros Hf Hnd d1. assert (dmem d x = true) as Hx.
  { unfold providers_in in Hf. unfold dmem. destruct (dget d x); [done|]. by apply elem_of_nil in Hf. }
  unfold d1. split; [by rewrite dkeys_dset, Hx|]. split; [|split].
  - intros y. rewrite providers_in_dset. case_decide; subst; [apply list_remove_sublist|done].
  - rewrite providers_in_dset, decide_True by done. by apply list_remove_gone.
  - intros y Hy. rewrite providers_in_dset, decide_False by done. done.
Qed.

(** Only the tables change. *)
Lemma fails_tables t t1 :
  static t1 = static t → failed_fns t1 = failed_fns t → failed_deps t1 = failed_deps t →
  failed_rdeps t1 = failed_rdeps t →
  table_fails (build_targets t) (build_targets t1) (failed_fns t) (failed_fns t1) (failed_deps t1) →
  table_fails (run_targets t) (run_targets t1) (failed_fns t) (failed_fns t1) (failed_rdeps t1) →
  fails t t1.
Proof.
  intros E1 E2 E3 E4 Hb Hr. split; rewrite ?E2, ?E3, ?E4 in *; try done.
Qed.

(** Marking a file or a target as failed, then dealing with it. *)
Lemma providers_in_not_key d x : x ∉ dkeys d → providers_in d x = [].
Proof. intros H. unfold providers_in. by rewrite (proj2 (dget_None d x) H). Qed.

Lemma fails_mark_fn t fn t' :
  fails (set_failed_fns t (failed_fns t ++ [fn])) t' →
  (∀ x, x ∈ dkeys (build_targets t') → fn ∉ providers_in (build_targets t') x) →
  (∀ x, x ∈ dkeys (run_targets t') → fn ∉ providers_in (run_targets t') x) → fails t t'.
Proof.
  intros [A B C D F G N R Kp] Hb Hr.
  assert (∀ d d' x', table_fails d d' (failed_fns t ++ [fn]) (failed_fns t') x' →
    (∀ x, x ∈ dkeys d' → fn ∉ providers_in d' x) → table_fails d d' (failed_fns t) (failed_fns t') x') as Htab.
  { intros d d' x' [K S Go E] Hx. split; try done. intros f Hf Hn x.
    destruct (decide (f = fn)) as [->|Hne]; [|apply Go; [done|set_solver]].
    destruct (decide (x ∈ dkeys d')) as [Hk|Hk]; [by apply Hx|].
    rewrite providers_in_not_key by done. apply not_elem_of_nil. }
  split; try done; [cbn in B; set_solver|exact (Htab _ _ _ F Hb)|exact (Htab _ _ _ G Hr)].
Qed.

Lemma fails_mark_dep t x t' :
  fails (set_failed_deps t (failed_deps t ++ [x])) t' →
  (∀ f, build_needs t x f → f ∈ failed_fns t') →
  (td_abort t = true → x ∉ external_targets t) → fails t t'.
Proof.
  intros [A B C D F G N R K] Hn Hx. split; try done; [cbn in C; set_solver| |].
  - intros y f Hy Hy0 Hf. destruct (decide (y = x)) as [->|Hne]; [by apply Hn|].
    apply (N y); [done|cbn; set_solver|done].
  - intros Ha y Hy H. specialize (K Ha y Hy H). cbn in K. apply elem_of_app in K as [K|K]; [done|].
    apply list_elem_of_singleton in K as ->. by destruct (Hx Ha).
Qed.

Lemma fails_mark_rdep t x t' :
  fails (set_failed_rdeps t (failed_rdeps t ++ [x])) t' →
  (∀ f, run_needs t x f → f ∈ failed_fns t') → fails t t'.
Proof.
  intros [A B C D F G N R K] Hn. split; try done; [cbn in D; set_solver|].
  intros y f Hy Hy0 Hf. destruct (decide (y = x)) as [->|Hne]; [by apply Hn|].
  apply (R y); [done|cbn; set_solver|done].
Qed.

Section failing.
(** The constants of the run: the files in reach, the static part of the task
    data. *)
Context (U : list string) (st : dict (list string) * dict (list string) * dict TaskEntry *
                                list string * list string * bool * bool).

(** States in which at most [c] files can still fail. *)
Definition fail_inv (c : nat) (t : TaskData) : Prop :=
  lists_ok t ∧ static t = st ∧ remaining U t ≤ c ∧ reachable_fns t ⊆ U.

(** The one exception a failure can raise: an external target is lost. *)
Definition fail_exn (e : exn) : Prop :=
  ∃ x, e = NoProvider x ∧ x ∈ st.1.1.1.2 ∧ st.1.2 = true.

Lemma fail_inv_fails c t t' : fail_inv c t → fails t t' → fail_inv c t'.
Proof.
  intros (Hl & Hs & Hr & HU) Hf. split; [by eapply fails_lists_ok|].
  pose proof (fails_static _ _ Hf) as E. split; [congruence|]. split.
  - pose proof (remaining_mono U t t' (fails_fns _ _ Hf)). lia.
  - unfold static in E. injection E as E1 E2 E3 _ _ _ _.
    unfold reachable_fns. by rewrite E1, E2, E3.
Qed.

Definition fails_with (Q : TaskData → Prop) (t : TaskData) (_ : unit) (t' : TaskData) : Prop :=
  fails t t' ∧ Q t'.

(** One target of [fail_fn]'s loops, given that the target's own failure does
    what it should. *)
Lemma build_step_triple n c fn target :
  triple (fail_inv c) (remove_buildtarget n target) (fails_with (λ t, target ∈ failed_deps t)) fail_exn →
  triple (λ t, fail_inv c t ∧ fn ∈ failed_fns t)
    (t ← get;
     let l := default [] (dget (build_targets t) target) in
     if bool_decide (fn ∈ l) then
       let l := list_remove fn l in
       _ ← modify (λ t, set_build_targets t (dset (build_targets t) target l));
       if nonempty l then mret tt else remove_buildtarget n target
     else mret tt)
    (fails_with (λ t, fn ∉ providers_in (build_targets t) target)) fail_exn.
Proof.
  intros Hrb t [HI Hfn]. rewrite get_bind. cbv zeta.
  case_bool_decide as Hin; [|split; [apply fails_refl|done]].
  change (default [] (dget (build_targets t) target)) with (providers_in (build_targets t) target) in *.
  rewrite modify_bind. set (l := list_remove fn (providers_in (build_targets t) target)).
  set (t1 := set_build_targets t (dset (build_targets t) target l)).
  destruct (table_remove (build_targets t) target fn Hin) as (Hk & Hsub & Hgone & Hne); [apply HI|].
  assert (fail_inv c t1) as HI1.
  { destruct HI as ([Hb Hr] & ? & ? & ?). split; [|done]. split; [|done].
    intros x. eapply sublist_NoDup; [apply Hb|apply Hsub]. }
  destruct (nonempty l) eqn:El.
  - split; [|done]. apply fails_tables; try done.
    apply (table_fails_shrunk _ (build_targets t1)); [done|done| |apply table_fails_refl].
    intros x H1 H2. destruct (decide (x = target)) as [->|Hx].
    + unfold t1 in H2. cbn [build_targets set_build_targets] in H2. rewrite providers_in_dset, decide_True in H2 by done. by rewrite H2 in El.
    + unfold t1 in H2. cbn [build_targets set_build_targets] in H2. rewrite Hne in H2 by done. done.
  - specialize (Hrb t1 HI1). destruct (remove_buildtarget n target t1) as [t' [[]|e]]; [|done].
    destruct Hrb as [Hf Htd]. split.
    + destruct Hf as [A B C D F G N R K]. split; try done.
      apply (table_fails_shrunk _ (build_targets t1)); [done|done| |done].
      intros x H1 H2. destruct (decide (x = target)) as [->|Hx]; [done|].
      unfold t1 in H2. cbn [build_targets set_build_targets] in H2. rewrite Hne in H2 by done. done.
    + intros H. apply Hgone. eapply sublist_subseteq; [|exact H].
      destruct Hf as [_ _ _ _ [_ S _ _] _ _ _ _]. apply S.
Qed.
Lemma run_step_triple n c fn target :
  triple (fail_inv c) (remove_runtarget n target) (fails_with (λ t, target ∈ failed_rdeps t)) fail_exn →
  triple (λ t, fail_inv c t ∧ fn ∈ failed_fns t)
    (t ← get;
     let l := default [] (dget (run_targets t) target) in
     if bool_decide (fn ∈ l) then
       let l := list_remove fn l in
       _ ← modify (λ t, set_run_targets t (dset (run_targets t) target l));
       if nonempty l then mret tt else remove_runtarget n target
     else mret tt)
    (fails_with (λ t, fn ∉ providers_in (run_targets t) target)) fail_exn.
Proof.
  intros Hrb t [HI Hfn]. rewrite get_bind. cbv zeta.
  case_bool_decide as Hin; [|split; [apply fails_refl|done]].
  change (default [] (dget (run_targets t) target)) with (providers_in (run_targets t) target) in *.
  rewrite modify_bind. set (l := list_remove fn (providers_in (run_targets t) target)).
  set (t1 := set_run_targets t (dset (run_targets t) target l)).
  destruct (table_remove (run_targets t) target fn Hin) as (Hk & Hsub & Hgone & Hne); [apply HI|].
  assert (fail_inv c t1) as HI1.
  { destruct HI as ([Hb Hr] & ? & ? & ?). split; [|done]. split; [done|].
    intros x. eapply sublist_NoDup; [apply Hr|apply Hsub]. }
  destruct (nonempty l) eqn:El.
  - split; [|done]. apply fails_tables; try done.
    apply (table_fails_shrunk _ (run_targets t1)); [done|done| |apply table_fails_refl].
    intros x H1 H2. destruct (decide (x = target)) as [->|Hx].
    + unfold t1 in H2. cbn [run_targets set_run_targets] in H2. rewrite providers_in_dset, decide_True in H2 by done. by rewrite H2 in El.
    + unfold t1 in H2. cbn [run_targets set_run_targets] in H2. rewrite Hne in H2 by done. done.
  - specialize (Hrb t1 HI1). destruct (remove_runtarget n target t1) as [t' [[]|e]]; [|done].
    destruct Hrb as [Hf Htd]. split.
    + destruct Hf as [A B C D F G N R K]. split; try done.
      apply (table_fails_shrunk _ (run_targets t1)); [done|done| |done].
      intros x H1 H2. destruct (decide (x = target)) as [->|Hx]; [done|].
      unfold t1 in H2. cbn [run_targets set_run_targets] in H2. rewrite Hne in H2 by done. done.
    + intros H. apply Hgone. eapply sublist_subseteq; [|exact H].
      destruct Hf as [_ _ _ _ _ [_ S _ _] _ _ _]. apply S.
Qed.

Lemma fail_inv_mark_fn c t fn :
  fail_inv c t → fn ∉ failed_fns t →
  fail_inv (if bool_decide (fn ∈ U) then c - 1 else c) (set_failed_fns t (failed_fns t ++ [fn])) ∧
  (fn ∈ U → 1 ≤ c).
Proof.
  intros (Hl & Hs & Hr & HU) Hn. split.
  - split; [done|]. split; [done|]. split; [|done]. case_bool_decide as Hu.
    + enough (remaining U (set_failed_fns t (failed_fns t ++ [fn])) < remaining U t) by lia.
      apply (filter_length_lt _ _ _ fn); [|done|by apply bool_decide_eq_true|].
      * intros x _. rewrite !bool_decide_eq_true. cbn. set_solver.
      * apply bool_decide_eq_false. cbn. set_solver.
    + etrans; [|exact Hr]. apply remaining_mono. cbn. set_solver.
  - intros Hu. enough (0 < remaining U t) by lia. unfold remaining.
    assert (fn ∈ List.filter (λ f, bool_decide (f ∉ failed_fns t)) U) as Hin.
    { apply list_elem_of_In, filter_In. split; [by apply list_elem_of_In|by apply bool_decide_eq_true]. }
    destruct (List.filter _ U); [by apply elem_of_nil in Hin|simpl; lia].
Qed.

Definition fail_fn_ok (n c : nat) : Prop := ∀ fn,
  fn ∈ U ∧ 2 * c + 1 ≤ n ∨ 2 * c + 3 ≤ n →
  triple (fail_inv c) (fail_fn n fn) (fails_with (λ t, fn ∈ failed_fns t)) fail_exn.
(** The target has failed with all that needs it, and is not one asked for. *)
Definition build_lost (x : string) (t t' : TaskData) : Prop :=
  x ∈ failed_deps t' ∧ (∀ f, build_needs t x f → f ∈ failed_fns t') ∧
  (td_abort t = true → x ∉ external_targets t).
Definition remove_buildtarget_ok (n c : nat) : Prop := ∀ x,
  2 * c + 2 ≤ n →
  triple (fail_inv c) (remove_buildtarget n x) (λ t _ t', fails t t' ∧ build_lost x t t') fail_exn.
Definition remove_runtarget_ok (n c : nat) : Prop := ∀ x,
  2 * c + 2 ≤ n →
  triple (fail_inv c) (remove_runtarget n x) (fails_with (λ t, x ∈ failed_rdeps t)) fail_exn.

Lemma build_lost_failed n c x :
  triple (fail_inv c) (remove_buildtarget n x) (λ t _ t', fails t t' ∧ build_lost x t t') fail_exn →
  triple (fail_inv c) (remove_buildtarget n x) (fails_with (λ t, x ∈ failed_deps t)) fail_exn.
Proof.
  intros H t HI. specialize (H t HI). destruct (remove_buildtarget n x t) as [t' [[]|e]]; [|done].
  destruct H as [Hf [Hx _]]. by split.
Qed.

Lemma fails_gone_stable fn x t t' :
  fails t t' →
  (fn ∉ providers_in (build_targets t) x → fn ∉ providers_in (build_targets t') x) ∧
  (fn ∉ providers_in (run_targets t) x → fn ∉ providers_in (run_targets t') x).
Proof.
  intros [_ _ _ _ [_ Sb _ _] [_ Sr _ _] _ _ _].
  split; intros H Hin; apply H; eapply sublist_subseteq; eauto.
Qed.

Lemma fail_fn_step n c :
  (∀ c, remove_buildtarget_ok n c) → (∀ c, remove_runtarget_ok n c) → fail_fn_ok (S n) c.
Proof.
  intros Hb Hr fn Hn t HI. cbn [fail_fn]. rewrite get_bind.
  case_bool_decide as Hin; [split; [apply fails_refl|done]|].
  rewrite modify_bind, get_bind.
  destruct (fail_inv_mark_fn c t fn HI Hin) as [HI1 Hc].
  set (c' := if bool_decide (fn ∈ U) then c - 1 else c) in *.
  assert (2 * c' + 2 ≤ n) as Hn'.
  { unfold c'. case_bool_decide as Hu; [specialize (Hc Hu)|]; destruct Hn as [[??]|?]; try done; lia. }
  set (t1 := set_failed_fns t (failed_fns t ++ [fn])) in *.
  assert (fn ∈ failed_fns t1) as Hf1 by (cbn; set_solver).
  assert (∀ t t', fail_inv c' t ∧ fn ∈ failed_fns t → fails t t' → fail_inv c' t' ∧ fn ∈ failed_fns t') as Hstab.
  { intros s s' [H1 H2] Hs. split; [by eapply fail_inv_fails|by apply (fails_fns _ _ Hs)]. }
  pose proof (triple_for_each (λ t, fail_inv c' t ∧ fn ∈ failed_fns t) fails
    (λ x t, fn ∉ providers_in (build_targets t) x) fail_exn (dkeys (build_targets t1)) _
    fails_refl fails_trans Hstab (λ x s s' Hx Hs, proj1 (fails_gone_stable fn x s s' Hs) Hx)
    (λ x _, build_step_triple n c' fn x (build_lost_failed n c' x (Hb c' x Hn'))) t1 (conj HI1 Hf1)) as Hbuild.
  rewrite M_bind_eq. destruct (for_each _ _ t1) as [t2 [[]|e]]; [|done].
  destruct Hbuild as [Hf2 Hg2]. rewrite get_bind. destruct (Hstab _ _ (conj HI1 Hf1) Hf2) as [HI2 Hin2].
  pose proof (triple_for_each (λ t, fail_inv c' t ∧ fn ∈ failed_fns t) fails
    (λ x t, fn ∉ providers_in (run_targets t) x) fail_exn (dkeys (run_targets t2)) _
    fails_refl fails_trans Hstab (λ x s s' Hx Hs, proj2 (fails_gone_stable fn x s s' Hs) Hx)
    (λ x _, run_step_triple n c' fn x (Hr c' x Hn')) t2 (conj HI2 Hin2)) as Hrun.
  destruct (for_each _ _ t2) as [t3 [[]|e]]; [|done]. destruct Hrun as [Hf3 Hg3].
  pose proof (fails_trans _ _ _ Hf2 Hf3) as Hf13. split.
  - apply (fails_mark_fn t fn); [done| |].
    + intros x. rewrite (tf_keys _ _ _ _ _ (fails_build _ _ Hf13)). intros Hx.
      apply (fails_gone_stable fn x t2 t3 Hf3). by apply Hg2.
    + intros x. rewrite (tf_keys _ _ _ _ _ (fails_run _ _ Hf3)). apply Hg3.
  - by apply (fails_fns _ _ Hf13).
Qed.

(** The two loops that fail whatever needs a target. *)
Definition fail_needers (n : nat) (target : string) (ids : dict (list string))
    (deps_of : TaskEntry → list (string * string)) : M TaskData unit :=
  _ ← for_each (dependees_of ids target) (fail_fn n);
  t ← get;
  for_each (taskentries t) (λ '(tid, te),
    for_each (deps_of te) (λ '(idepend, _),
      if bool_decide (idepend = target) then fail_fn n (fn_from_tid tid) else mret tt)).

Lemma elem_of_dependees ids x f : f ∈ dependees_of ids x ↔ ∃ l, (f, l) ∈ ids ∧ x ∈ l.
Proof.
  unfold dependees_of. rewrite elem_of_map. split.
  - intros ([g l] & -> & H). apply list_elem_of_In, filter_In in H as [H1%list_elem_of_In H2].
    apply bool_decide_eq_true in H2. by exists l.
  - intros (l & H & Hx). exists (f, l). split; [done|].
    apply list_elem_of_In, filter_In. split; [by apply list_elem_of_In|by apply bool_decide_eq_true].
Qed.

Lemma needer_entry_triple n c target tid te
    (deps_of : TaskEntry → list (string * string)) :
  fail_fn_ok n c → 2 * c + 1 ≤ n → fn_from_tid tid ∈ U →
  triple (fail_inv c)
    (for_each (deps_of te) (λ '(idepend, _),
       if bool_decide (idepend = target) then fail_fn n (fn_from_tid tid) else mret tt))
    (λ t _ t', fails t t' ∧
       ∀ task, (target, task) ∈ deps_of te → fn_from_tid tid ∈ failed_fns t') fail_exn.
Proof.
  intros Hfail Hn HU t HI.
  pose proof (triple_for_each (fail_inv c) fails
    (λ (it : string * string) t, it.1 = target → fn_from_tid tid ∈ failed_fns t) fail_exn (deps_of te)
    (λ '(idepend, _), if bool_decide (idepend = target) then fail_fn n (fn_from_tid tid) else mret tt)
    fails_refl fails_trans (fail_inv_fails c)) as H.
  specialize (H ltac:(intros it s s' Hi Hs E; apply (fails_fns _ _ Hs); by apply Hi)).
  assert (∀ it, it ∈ deps_of te → triple (fail_inv c)
    ((λ '(idepend, _), if bool_decide (idepend = target) then fail_fn n (fn_from_tid tid) else mret tt) it)
    (λ s _ s', fails s s' ∧ (it.1 = target → fn_from_tid tid ∈ failed_fns s')) fail_exn) as Hb.
  { intros [i tk] _ s Hs. case_bool_decide as E.
    - pose proof (Hfail (fn_from_tid tid) (or_introl (conj HU Hn)) s Hs) as Hf.
      destruct (fail_fn n _ s) as [s' [[]|e]]; [|done]. destruct Hf. by split.
    - split; [apply fails_refl|]. done. }
  specialize (H Hb t HI). destruct (for_each _ _ t) as [t' [[]|e]]; [|done].
  destruct H as [Hf Hq]. split; [done|]. intros task Ht. by apply (Hq _ Ht).
Qed.

Lemma fail_inv_reach c t : fail_inv c t →
  dkeys (depids t) ⊆ U ∧ dkeys (rdepids t) ⊆ U ∧ List.map (λ kv, fn_from_tid kv.1) (taskentries t) ⊆ U.
Proof. intros (_ & _ & _ & H). unfold reachable_fns in H. set_solver. Qed.

Lemma fail_needers_triple n c target ids deps_of :
  fail_fn_ok n c → 2 * c + 1 ≤ n → dkeys ids ⊆ U →
  triple (fail_inv c) (fail_needers n target ids deps_of)
    (λ t _ t', fails t t' ∧ ∀ f, needs ids deps_of t target f → f ∈ failed_fns t') fail_exn.
Proof.
  intros Hfail Hn Hids t HI. unfold fail_needers. rewrite M_bind_eq.
  assert (∀ f s s', f ∈ failed_fns s → fails s s' → f ∈ failed_fns s') as Hst
    by (intros f s s' H Hs; by apply (fails_fns _ _ Hs)).
  pose proof (triple_for_each (fail_inv c) fails (λ f t, f ∈ failed_fns t) fail_exn
    (dependees_of ids target) (fail_fn n) fails_refl fails_trans (fail_inv_fails c) Hst) as H1.
  specialize (H1 ltac:(intros f (l & Hf & _)%elem_of_dependees; apply Hfail; left; split;
    [apply Hids; by apply (list_elem_of_fmap_2 fst ids (f, l))|done]) t HI).
  destruct (for_each (dependees_of ids target) (fail_fn n) t) as [t1 [[]|e]]; [|done].
  destruct H1 as [Hf1 Hd1]. rewrite get_bind.
  pose proof (fail_inv_fails _ _ _ HI Hf1) as HI1.
  assert (taskentries t1 = taskentries t) as Et.
  { pose proof (fails_static _ _ Hf1) as E. unfold static in E. congruence. }
  destruct (fail_inv_reach _ _ HI1) as (_ & _ & Hent).
  set (needed := λ (kv : string * TaskEntry) (t : TaskData), ∀ task,
    (target, task) ∈ deps_of kv.2 → fn_from_tid kv.1 ∈ failed_fns t).
  pose proof (triple_for_each (fail_inv c) fails needed fail_exn (taskentries t1)
    (λ '(tid, te), for_each (deps_of te) (λ '(idepend, _),
       if bool_decide (idepend = target) then fail_fn n (fn_from_tid tid) else mret tt))
    fails_refl fails_trans (fail_inv_fails c)) as H2.
  specialize (H2 ltac:(intros kv s s' Hk Hs task Ht; eapply Hst; [by eapply Hk|done])).
  specialize (H2 ltac:(intros [tid te] Hin; apply needer_entry_triple; [done|done|
    apply Hent, elem_of_map; by exists (tid, te)]) t1 HI1).
  destruct (for_each (taskentries t1) _ t1) as [t2 [[]|e]]; [|done]. destruct H2 as [Hf2 Hd2].
  split; [by eapply fails_trans|]. intros f [(l & Hl & Hx)|(tid & te & task & Hin & Hx & ->)].
  - eapply Hst; [apply Hd1; apply elem_of_dependees; by exists l|done].
  - rewrite <-Et in Hin. by apply (Hd2 (tid, te) Hin task).
Qed.

Lemma remove_buildtarget_eq n x t :
  remove_buildtarget (S n) x t =
  (_ ← fail_needers n x (depids t) idepends;
   t ← get;
   if td_abort t && bool_decide (x ∈ external_targets t) then raise (NoProvider x) else mret tt)
    (set_failed_deps t (failed_deps t ++ [x])).
Proof.
  cbn [remove_buildtarget]. rewrite modify_bind, get_bind. unfold fail_needers, get_dependees.
  rewrite !M_bind_eq. cbn [depids set_failed_deps].
  destruct (for_each _ _ _) as [t2 [[]|e]]; done.
Qed.

Lemma remove_runtarget_eq n x t :
  remove_runtarget (S n) x t =
  fail_needers n x (rdepids t) irdepends (set_failed_rdeps t (failed_rdeps t ++ [x])).
Proof. done. Qed.

Lemma remove_buildtarget_step n c : (∀ c, fail_fn_ok n c) → remove_buildtarget_ok (S n) c.
Proof.
  intros Hfail x Hn t HI. rewrite remove_buildtarget_eq, M_bind_eq.
  set (t1 := set_failed_deps t (failed_deps t ++ [x])).
  assert (fail_inv c t1) as HI1 by exact HI.
  destruct (fail_inv_reach c t HI) as (Hd & _ & _).
  pose proof (fail_needers_triple n c x (depids t) idepends (Hfail c) ltac:(lia) Hd t1 HI1) as Hneed.
  destruct (fail_needers _ _ _ _ t1) as [t2 [[]|e]]; [|done]. destruct Hneed as [Hf Hneed].
  rewrite get_bind.
  assert (static t2 = st) as Est by (rewrite (fails_static _ _ Hf); apply HI1).
  destruct (td_abort t2 && bool_decide (x ∈ external_targets t2)) eqn:Ea.
  - apply andb_true_iff in Ea as [Ea Ex%bool_decide_eq_true]. exists x. split; [done|].
    unfold static in Est. rewrite <-Est. done.
  - assert (td_abort t = true → x ∉ external_targets t) as Hx.
    { pose proof (fails_static _ _ Hf) as E. unfold static in E. cbn in E. injection E as _ _ _ Ee _ Et _.
      rewrite Et, Ee in Ea. apply andb_false_iff in Ea as [->|Ea%bool_decide_eq_false]; done. }
    split; [by apply (fails_mark_dep t x)|]. split; [|by split].
    apply (fails_deps _ _ Hf). cbn. set_solver.
Qed.

Lemma remove_runtarget_step n c : (∀ c, fail_fn_ok n c) → remove_runtarget_ok (S n) c.
Proof.
  intros Hfail x Hn t HI. rewrite remove_runtarget_eq.
  set (t1 := set_failed_rdeps t (failed_rdeps t ++ [x])).
  assert (fail_inv c t1) as HI1 by exact HI.
  destruct (fail_inv_reach c t HI) as (_ & Hd & _).
  pose proof (fail_needers_triple n c x (rdepids t) irdepends (Hfail c) ltac:(lia) Hd t1 HI1) as Hneed.
  destruct (fail_needers _ _ _ _ t1) as [t2 [[]|e]]; [|done]. destruct Hneed as [Hf Hneed].
  split; [by apply (fails_mark_rdep t x)|]. apply (fails_rdeps _ _ Hf). cbn. set_solver.
Qed.

(** With fuel for two levels per file that can still fail, the three
    operations return with what they promise, or lose an external target. *)
Lemma failing_ok n :
  (∀ c, fail_fn_ok n c) ∧ (∀ c, remove_buildtarget_ok n c) ∧ (∀ c, remove_runtarget_ok n c).
Proof.
  induction n as [|n (IHf & IHb & IHr)].
  { split; [|split]; intros c x Hn; [destruct Hn as [[_ ?]|?]; lia|lia|lia]. }
  split; [intros c; by apply fail_fn_step|].
  split; intros c; [by apply remove_buildtarget_step|by apply remove_runtarget_step].
Qed.
End failing.

(** ** The failure theorems *)

Lemma fail_inv_start t :
  lists_ok t → fail_inv (reachable_fns t) (static t) (List.length (reachable_fns t)) t.
Proof.
  intros Hl. split; [done|]. split; [done|]. split; [|done].
  unfold remaining. etrans; [apply (filter_length_mono (λ _, true))|]; [done|].
  induction (reachable_fns t); simpl; lia.
Qed.

(** C31: failing a file always ends, and unless it costs an external target
    under [abort], which raises NoProvider of that target, the failure is
    complete: the file has failed, and [fails] holds between the task data
    before and after, so that every target left without a provider has failed,
    with all that needs it, and under [abort] no target asked for has. *)
Theorem fail_fn_complete t fn :
  lists_ok t →
  (∃ t', fail fn t = (t', Ok tt) ∧ fails t t' ∧ fn ∈ failed_fns t') ∨
  (∃ t' x, fail fn t = (t', Raise (NoProvider x)) ∧ td_abort t = true ∧ x ∈ external_targets t).
Proof.
  intros Hl. unfold fail.
  pose proof (proj1 (failing_ok (reachable_fns t) (static t) (fail_fuel t))
    (List.length (reachable_fns t)) fn ltac:(right; unfold fail_fuel; lia) t (fail_inv_start t Hl)) as H.
  destruct (fail_fn _ _ t) as [t' [[]|e]]; [left|right].
  - destruct H. eauto.
  - destruct H as (x & -> & ? & ?). eauto.
Qed.

(** C32: failing a build target always ends.  It returns unless that costs,
    under [abort], a target asked for, of which it raises NoProvider; when it
    returns the target has failed, and with it every file that needs it through
    its own or its tasks' dependencies, whether or not the target had failed
    before, and [fails] holds, so that under [abort] no target asked for has
    failed on the way.  Under [abort] the failure of a target asked for never
    returns. *)
Theorem remove_buildtarget_complete t x :
  lists_ok t →
  (∃ t', fail_buildtarget x t = (t', Ok tt) ∧ fails t t' ∧ x ∈ failed_deps t' ∧
     (∀ f, build_needs t x f → f ∈ failed_fns t') ∧
     (td_abort t = true → x ∉ external_targets t)) ∨
  (∃ t' y, fail_buildtarget x t = (t', Raise (NoProvider y)) ∧ td_abort t = true ∧ y ∈ external_targets t).
Proof.
  intros Hl. unfold fail_buildtarget.
  pose proof (proj1 (proj2 (failing_ok (reachable_fns t) (static t) (fail_fuel t)))
    (List.length (reachable_fns t)) x ltac:(unfold fail_fuel; lia) t (fail_inv_start t Hl)) as H.
  destruct (remove_buildtarget _ _ t) as [t' [[]|e]]; [left|right].
  - destruct H as [Hf Hx]. by exists t'.
  - destruct H as (y & -> & ? & ?). eauto.
Qed.

Lemma remove_runtarget_complete t x :
  lists_ok t →
  (∃ t', fail_runtarget x t = (t', Ok tt) ∧ fails t t' ∧ x ∈ failed_rdeps t') ∨
  (∃ t' y, fail_runtarget x t = (t', Raise (NoProvider y)) ∧ td_abort t = true ∧ y ∈ external_targets t).
Proof.
  intros Hl. unfold fail_runtarget.
  pose proof (proj2 (proj2 (failing_ok (reachable_fns t) (static t) (fail_fuel t)))
    (List.length (reachable_fns t)) x ltac:(unfold fail_fuel; lia) t (fail_inv_start t Hl)) as H.
  destruct (remove_runtarget _ _ t) as [t' [[]|e]]; [left|right].
  - destruct H as [Hf Hx]. eauto.
  - destruct H as (y & -> & ? & ?). eauto.
Qed.
