(* ===== verification/TaskResolve.v ===== *)
(** * Resolving the task data (bb/taskdata.py)

    What [add_unresolved] achieves: an invariant every operation of TaskData
    keeps, that each round of the loop makes progress, and that at the
    end every file that has not failed has providers for all it needs. *)

From Stdlib Require Import Ascii String.
From S2P Require Import Prelude.
From S2P Require Import PyStr.
From S2P Require Import PyDict.
From S2P Require Import Versions.
From S2P Require Import TaskIds.
From S2P Require Import Cache.
From S2P Require Import Providers.
From S2P Require Import TaskData.

(** ** The invariant of resolution *)

(** A target that needs no more work: failed, or with a provider. *)
Definition resolved_build (t : TaskData) (x : string) : Prop :=
  x ∈ failed_deps t ∨ providers_in (build_targets t) x ≠ [].
Definition resolved_run (t : TaskData) (x : string) : Prop :=
  x ∈ failed_rdeps t ∨ providers_in (run_targets t) x ≠ [].

(** The dependencies of the file [f] are in order: they have been seen, and
    none has failed unless the file has. *)
Definition deps_in_order (t : TaskData) (f : string) : Prop :=
  f ∈ failed_fns t ∨
  (∀ l x, dget (depids t) f = Some l → x ∈ l → x ∈ dkeys (build_targets t) ∧ (x ∉ failed_deps t)) ∧
  (∀ l x, dget (rdepids t) f = Some l → x ∈ l → x ∈ dkeys (run_targets t) ∧ (x ∉ failed_rdeps t)).

(** [skip] is the file [add_tasks] is working on, if any. *)
Record td_inv (skip : option string) (s : tds) : Prop := {
  inv_lists : lists_ok (tds_td s);
  inv_gone : ∀ f x, f ∈ failed_fns (tds_td s) →
    (f ∉ providers_in (build_targets (tds_td s)) x) ∧ (f ∉ providers_in (run_targets (tds_td s)) x);
  inv_deps : ∀ f, skip ≠ Some f → deps_in_order (tds_td s) f;
  inv_seenfns : NoDup (seenfns (tds_td s)) ∧ seenfns (tds_td s) ⊆ dkeys (task_deps (tds_dc s));
  inv_abort : td_abort (tds_td s) = false;
  inv_wf : dict_wf (build_targets (tds_td s)) ∧ dict_wf (run_targets (tds_td s))
}.

Record grows0 (s s' : tds) : Prop := {
  g_seenfns : seenfns (tds_td s) `prefix_of` seenfns (tds_td s');
  g_build : ∀ x, resolved_build (tds_td s) x → resolved_build (tds_td s') x;
  g_run : ∀ x, resolved_run (tds_td s) x → resolved_run (tds_td s') x;
  g_incomplete : td_allowincomplete (tds_td s') = td_allowincomplete (tds_td s);
  g_tasks : task_deps (tds_dc s') = task_deps (tds_dc s);
  g_ignored : ignored_dependencies (tds_dc s') = ignored_dependencies (tds_dc s)
}.

Definition no_new_work (s s' : tds) : Prop :=
  (∀ x, x ∈ dkeys (build_targets (tds_td s')) →
     x ∈ dkeys (build_targets (tds_td s)) ∨ resolved_build (tds_td s') x) ∧
  (∀ x, x ∈ dkeys (run_targets (tds_td s')) →
     x ∈ dkeys (run_targets (tds_td s)) ∨ resolved_run (tds_td s') x).

(** What resolution does to the state: more files are seen, targets stay
    resolved, and new unresolved targets only come with new files. *)
Definition grows (s s' : tds) : Prop :=
  grows0 s s' ∧ (seenfns (tds_td s') = seenfns (tds_td s) → no_new_work s s').

#[export] Instance grows0_preorder : PreOrder grows0.
Proof.
  split.
  - intros s. by split.
  - intros s1 s2 s3 [A1 B1 C1 D1 E1 F1] [A2 B2 C2 D2 E2 F2].
    split; [by etrans|auto|auto|congruence|congruence|congruence].
Qed.

Lemma prefix_antisym {A} (l1 l2 l3 : list A) : l1 `prefix_of` l2 → l2 `prefix_of` l3 → l3 = l1 → l2 = l1.
Proof.
  intros [k1 ->] [k2 ->] E. rewrite <-app_assoc in E. rewrite <-(app_nil_r l1) in E at 2.
  apply app_inv_head in E. destruct k1; [by rewrite app_nil_r|done].
Qed.

#[export] Instance grows_preorder : PreOrder grows.
Proof.
  split.
  - intros s. split; [done|]. intros _. split; by left.
  - intros s1 s2 s3 [G1 K1] [G2 K2]. split; [by etrans|]. intros E.
    pose proof (prefix_antisym _ _ _ (g_seenfns _ _ G1) (g_seenfns _ _ G2) E) as E1.
    destruct (K1 E1) as [B1 R1], K2 as [B2 R2]; [congruence|]. split; intros x Hx.
    + destruct (B2 x Hx) as [H|?]; [|by right]. destruct (B1 x H); [by left|right; by apply (g_build _ _ G2)].
    + destruct (R2 x Hx) as [H|?]; [|by right]. destruct (R1 x H); [by left|right; by apply (g_run _ _ G2)].
Qed.

(** A failure keeps the invariant. *)
Lemma fails_resolved t t' :
  fails t t' → (∀ x, resolved_build t x → resolved_build t' x) ∧ (∀ x, resolved_run t x → resolved_run t' x).
Proof.
  intros [_ _ C D [_ _ _ Eb] [_ _ _ Er] _ _]. split; intros x [Hx|Hx].
  - left. by apply C.
  - destruct (decide (providers_in (build_targets t') x = [])); [left; by apply Eb|by right].
  - left. by apply D.
  - destruct (decide (providers_in (run_targets t') x = [])); [left; by apply Er|by right].
Qed.

Lemma fails_in_order t t' f : fails t t' → deps_in_order t f → deps_in_order t' f.
Proof.
  intros [A B C D [Kb _ _ _] [Kr _ _ _] N R _] [Hf|[Hb Hr]]; [left; by apply B|].
  destruct (decide (f ∈ failed_fns t')) as [?|Hn]; [by left|right].
  pose proof A as A'. unfold static in A'. injection A' as E1 E2 _ _ _ _ _.
  rewrite E1, E2, Kb, Kr. split; intros l x Hl Hx.
  - destruct (Hb l x Hl Hx) as [? Hnf]. split; [done|]. intros Hxf. apply Hn, (N x); [done|done|].
    left. exists l. split; [by apply dget_elem_of|done].
  - destruct (Hr l x Hl Hx) as [? Hnf]. split; [done|]. intros Hxf. apply Hn, (R x); [done|done|].
    left. exists l. split; [by apply dget_elem_of|done].
Qed.

Lemma fails_inv skip t t' c :
  fails t t' → td_inv skip (MkTds t c) →
  td_inv skip (MkTds t' c) ∧ grows (MkTds t c) (MkTds t' c).
Proof.
  intros Hf [Hl Hg Hd Hs Ha Hw]. pose proof (fails_static _ _ Hf) as E. unfold static in E.
  injection E as E1 E2 E3 E4 E5 E6 E7. cbn in *. split.
  - split; cbn.
    + by eapply fails_lists_ok.
    + intros f x Hin. destruct (decide (f ∈ failed_fns t)) as [Ho|Hn].
      * destruct (Hg f x Ho). destruct (fails_gone_stable f x t t' Hf). auto.
      * pose proof (fails_build _ _ Hf) as [_ _ Gb _]. pose proof (fails_run _ _ Hf) as [_ _ Gr _]. auto.
    + intros f Hk. eapply fails_in_order; [done|]. by apply Hd.
    + by rewrite E5.
    + congruence.
    + unfold dict_wf. change (NoDup (dkeys (build_targets t')) ∧ NoDup (dkeys (run_targets t'))).
      rewrite (tf_keys _ _ _ _ _ (fails_build _ _ Hf)), (tf_keys _ _ _ _ _ (fails_run _ _ Hf)). done.
  - destruct (fails_resolved t t' Hf) as [Hb Hr]. split.
    + split; cbn; try done. by rewrite E5.
    + intros _. pose proof (tf_keys _ _ _ _ _ (fails_build _ _ Hf)) as Kb.
      pose proof (tf_keys _ _ _ _ _ (fails_run _ _ Hf)) as Kr.
      split; cbn; intros x; [rewrite Kb|rewrite Kr]; by left.
Qed.

(** Without [abort] failing always succeeds. *)
Lemma fail_ok t fn :
  lists_ok t → td_abort t = false → ∃ t', fail fn t = (t', Ok tt) ∧ fails t t' ∧ fn ∈ failed_fns t'.
Proof.
  intros Hl Ha. unfold fail.
  pose proof (proj1 (failing_ok (reachable_fns t) (static t) (fail_fuel t))
    (List.length (reachable_fns t)) fn ltac:(right; unfold fail_fuel; lia) t (fail_inv_start t Hl)) as H.
  destruct (fail_fn _ _ t) as [t' [[]|e]].
  - destruct H. eauto.
  - destruct H as (x & _ & _ & H). cbn in H. congruence.
Qed.

Lemma fail_buildtarget_ok t x :
  lists_ok t → td_abort t = false →
  ∃ t', fail_buildtarget x t = (t', Ok tt) ∧ fails t t' ∧ x ∈ failed_deps t'.
Proof.
  intros Hl Ha. unfold fail_buildtarget.
  pose proof (proj1 (proj2 (failing_ok (reachable_fns t) (static t) (fail_fuel t)))
    (List.length (reachable_fns t)) x ltac:(unfold fail_fuel; lia) t (fail_inv_start t Hl)) as H.
  destruct (remove_buildtarget _ _ t) as [t' [[]|e]].
  - destruct H as [? [? _]]. eauto.
  - destruct H as (y & _ & _ & H). cbn in H. congruence.
Qed.

Lemma fail_runtarget_ok t x :
  lists_ok t → td_abort t = false →
  ∃ t', fail_runtarget x t = (t', Ok tt) ∧ fails t t' ∧ x ∈ failed_rdeps t'.
Proof.
  intros Hl Ha. unfold fail_runtarget.
  pose proof (proj2 (proj2 (failing_ok (reachable_fns t) (static t) (fail_fuel t)))
    (List.length (reachable_fns t)) x ltac:(unfold fail_fuel; lia) t (fail_inv_start t Hl)) as H.
  destruct (remove_runtarget _ _ t) as [t' [[]|e]].
  - destruct H. eauto.
  - destruct H as (y & _ & _ & H). cbn in H. congruence.
Qed.

Lemma on_td_fail_buildtarget s x :
  td_inv None s →
  ∃ t', on_td (fail_buildtarget x) s = (MkTds t' (tds_dc s), Ok tt) ∧ fails (tds_td s) t' ∧
    x ∈ failed_deps t' ∧ td_inv None (MkTds t' (tds_dc s)) ∧ grows s (MkTds t' (tds_dc s)).
Proof.
  intros HI. destruct (fail_buildtarget_ok (tds_td s) x (inv_lists _ _ HI) (inv_abort _ _ HI)) as (t' & E & Hf & Hx).
  exists t'. unfold on_td. rewrite E. destruct s as [t c]. cbn in *.
  destruct (fails_inv None t t' c Hf HI). done.
Qed.

Lemma on_td_fail_runtarget s x :
  td_inv None s →
  ∃ t', on_td (fail_runtarget x) s = (MkTds t' (tds_dc s), Ok tt) ∧ fails (tds_td s) t' ∧
    x ∈ failed_rdeps t' ∧ td_inv None (MkTds t' (tds_dc s)) ∧ grows s (MkTds t' (tds_dc s)).
Proof.
  intros HI. destruct (fail_runtarget_ok (tds_td s) x (inv_lists _ _ HI) (inv_abort _ _ HI)) as (t' & E & Hf & Hx).
  exists t'. unfold on_td. rewrite E. destruct s as [t c]. cbn in *.
  destruct (fails_inv None t t' c Hf HI). done.
Qed.

(** ** Single writes *)

Lemma providers_in_seen d name x :
  providers_in (if dmem d name then d else dset d name []) x = providers_in d x.
Proof.
  destruct (dmem d name) eqn:E; [done|]. rewrite providers_in_dset. case_decide; [subst|done].
  unfold providers_in. unfold dmem in E. by destruct (dget d x).
Qed.

Lemma dkeys_seen {V} (d : dict V) name (v : V) x :
  x ∈ dkeys (if dmem d name then d else dset d name v) ↔ x = name ∨ x ∈ dkeys d.
Proof.
  destruct (dmem d name) eqn:E; [|apply elem_of_dkeys_dset].
  apply dmem_spec in E. split; [by right|intros [->|?]; done].
Qed.

Lemma providers_in_add d fn item x :
  providers_in (add_target d fn item) x =
  if decide (x = item ∧ fn ∉ providers_in d item) then providers_in d item ++ [fn] else providers_in d x.
Proof.
  unfold add_target, providers_in. destruct (dget d item) as [l|] eqn:E; simpl.
  - case_bool_decide as Hin.
    + rewrite decide_False by naive_solver. done.
    + rewrite dget_dset. case_decide as Hx; subst.
      * rewrite decide_True by done. done.
      * rewrite decide_False by naive_solver. done.
  - rewrite dget_dset. case_decide as Hx; subst.
    + rewrite decide_True by (split; [done|apply not_elem_of_nil]). done.
    + rewrite decide_False by naive_solver. done.
Qed.

Lemma dkeys_add d fn item x : x ∈ dkeys d → x ∈ dkeys (add_target d fn item).
Proof.
  unfold add_target. destruct (dget d item); [case_bool_decide; [done|]|];
    rewrite elem_of_dkeys_dset; auto.
Qed.

(** A write that adds targets or providers, none of them failed. *)
Lemma td_inv_write skip t t' c c' :
  td_inv skip (MkTds t c) →
  (∀ x, NoDup (providers_in (build_targets t') x) ∧ NoDup (providers_in (run_targets t') x)) →
  (∀ f x, f ∈ failed_fns t →
     (f ∈ providers_in (build_targets t') x → f ∈ providers_in (build_targets t) x) ∧
     (f ∈ providers_in (run_targets t') x → f ∈ providers_in (run_targets t) x)) →
  (dkeys (build_targets t) ⊆ dkeys (build_targets t')) → (dkeys (run_targets t) ⊆ dkeys (run_targets t')) →
  failed_fns t' = failed_fns t → failed_deps t' = failed_deps t → failed_rdeps t' = failed_rdeps t →
  depids t' = depids t → rdepids t' = rdepids t → seenfns t' = seenfns t →
  td_abort t' = td_abort t → task_deps c' = task_deps c →
  dict_wf (build_targets t') ∧ dict_wf (run_targets t') →
  td_inv skip (MkTds t' c').
Proof.
  intros [Hl Hg Hd Hs Ha Hw] Hnd Hold Hkb Hkr E1 E2 E3 E4 E5 E6 E7 E8 Hw'. cbn in *. split; cbn.
  - split; intros x; apply Hnd.
  - intros f x Hf. rewrite E1 in Hf. destruct (Hg f x Hf), (Hold f x Hf). naive_solver.
  - intros f Hk. destruct (Hd f Hk) as [H|[Hb Hr]]; [left; by rewrite E1|right].
    rewrite E2, E3, E4, E5. split; intros l x Hlx Hx.
    + destruct (Hb l x Hlx Hx). split; [by apply Hkb|done].
    + destruct (Hr l x Hlx Hx). split; [by apply Hkr|done].
  - by rewrite E6, E8.
  - by rewrite E7.
  - done.
Qed.

Lemma seen_build_target_fields name t :
  (∀ x, providers_in (build_targets (seen_build_target name t)) x = providers_in (build_targets t) x) ∧
  (∀ x, x ∈ dkeys (build_targets (seen_build_target name t)) ↔ x = name ∨ x ∈ dkeys (build_targets t)) ∧
  seen_build_target name t = set_build_targets t (build_targets (seen_build_target name t)).
Proof.
  unfold seen_build_target. destruct (dmem (build_targets t) name) eqn:E; cbn.
  - split; [done|]. split; [|by destruct t].
    apply dmem_spec in E. intros x. split; [by right|intros [->|?]; done].
  - split; [|split; [|done]].
    + intros x. rewrite <-(providers_in_seen (build_targets t) name x), E. done.
    + intros x. apply elem_of_dkeys_dset.
Qed.

Lemma seen_run_target_fields name t :
  (∀ x, providers_in (run_targets (seen_run_target name t)) x = providers_in (run_targets t) x) ∧
  (∀ x, x ∈ dkeys (run_targets (seen_run_target name t)) ↔ x = name ∨ x ∈ dkeys (run_targets t)) ∧
  seen_run_target name t = set_run_targets t (run_targets (seen_run_target name t)).
Proof.
  unfold seen_run_target. destruct (dmem (run_targets t) name) eqn:E; cbn.
  - split; [done|]. split; [|by destruct t].
    apply dmem_spec in E. intros x. split; [by right|intros [->|?]; done].
  - split; [|split; [|done]].
    + intros x. rewrite <-(providers_in_seen (run_targets t) name x), E. done.
    + intros x. apply elem_of_dkeys_dset.
Qed.

(** A write of this kind, as an atomic step. *)
Definition harmless (f : TaskData → TaskData) : Prop := ∀ skip t c,
  td_inv skip (MkTds t c) → td_inv skip (MkTds (f t) c) ∧ grows0 (MkTds t c) (MkTds (f t) c).

Lemma seen_build_target_harmless name : harmless (seen_build_target name).
Proof.
  intros skip t c HI. destruct (seen_build_target_fields name t) as (Hp & Hk & E).
  split.
  - eapply td_inv_write; [exact HI| | | | |by rewrite E|by rewrite E|by rewrite E|by rewrite E|by rewrite E
      |by rewrite E|by rewrite E|done|].
    + intros x. rewrite Hp, E. split; apply (inv_lists _ _ HI).
    + intros f x _. rewrite Hp, E. done.
    + intros x Hx. apply Hk. by right.
    + by rewrite E.
    + pose proof (inv_wf _ _ HI) as [Hwb Hwr]. unfold seen_build_target.
      case_match; [done|]. split; [by apply dset_wf|done].
  - split; cbn; [by rewrite E|intros x; unfold resolved_build; by rewrite Hp, E
      |intros x; unfold resolved_run; by rewrite E|by rewrite E|done|done].
Qed.

Lemma seen_run_target_harmless name : harmless (seen_run_target name).
Proof.
  intros skip t c HI. destruct (seen_run_target_fields name t) as (Hp & Hk & E).
  split.
  - eapply td_inv_write; [exact HI| | | | |by rewrite E|by rewrite E|by rewrite E|by rewrite E|by rewrite E
      |by rewrite E|by rewrite E|done|].
    + intros x. rewrite Hp, E. split; apply (inv_lists _ _ HI).
    + intros f x _. rewrite Hp, E. done.
    + by rewrite E.
    + intros x Hx. apply Hk. by right.
    + pose proof (inv_wf _ _ HI) as [Hwb Hwr]. unfold seen_run_target.
      case_match; [done|]. split; [done|by apply dset_wf].
  - split; cbn; [by rewrite E|intros x; unfold resolved_build; by rewrite E
      |intros x; unfold resolved_run; by rewrite Hp, E|by rewrite E|done|done].
Qed.

(** Writes to the tables no invariant speaks of. *)
Lemma tables_harmless f :
  (∀ t, build_targets (f t) = build_targets t ∧ run_targets (f t) = run_targets t ∧
    failed_fns (f t) = failed_fns t ∧ failed_deps (f t) = failed_deps t ∧
    failed_rdeps (f t) = failed_rdeps t ∧ depids (f t) = depids t ∧ rdepids (f t) = rdepids t ∧
    seenfns (f t) = seenfns t ∧ td_abort (f t) = td_abort t ∧
    td_allowincomplete (f t) = td_allowincomplete t) → harmless f.
Proof.
  intros H skip t c HI. destruct (H t) as (E1 & E2 & E3 & E4 & E5 & E6 & E7 & E8 & E9 & E10).
  split.
  - eapply td_inv_write; [exact HI| | | | |done..|]; rewrite ?E1, ?E2; try done; [|apply (inv_wf _ _ HI)].
    intros x. split; apply (inv_lists _ _ HI).
  - split; cbn; rewrite ?E8, ?E10; try done.
    + intros x. unfold resolved_build. by rewrite E1, E4.
    + intros x. unfold resolved_run. by rewrite E2, E5.
Qed.

(** Not one of the exceptions [add_unresolved] catches. *)
Definition other_error (e : exn) : Prop := is_NoProvider e = false ∧ is_rprovider_error e = false.

Lemma td_modify_harmless skip f : harmless f → always (td_inv skip) grows0 other_error (td_modify f).
Proof. intros Hf [t c] HI. cbn. destruct (Hf skip t c HI). done. Qed.

(** ** The operations keep the invariant *)

Lemma td_inv_dc skip t c c' :
  td_inv skip (MkTds t c) → task_deps c' = task_deps c →
  ignored_dependencies c' = ignored_dependencies c →
  td_inv skip (MkTds t c') ∧ grows0 (MkTds t c) (MkTds t c').
Proof.
  intros [Hl Hg Hd Hs Ha Hw] E1 E2. split; [|by split]. split; try done. cbn in *. by rewrite E1.
Qed.

(** The state in which [add_tasks] starts looking at the dependencies. *)
Definition frame (t t' : TaskData) : Prop :=
  depids t' = depids t ∧ rdepids t' = rdepids t ∧ failed_deps t' = failed_deps t ∧
  failed_rdeps t' = failed_rdeps t ∧ failed_fns t' = failed_fns t ∧ seenfns t' = seenfns t ∧
  dkeys (build_targets t) ⊆ dkeys (build_targets t') ∧ dkeys (run_targets t) ⊆ dkeys (run_targets t').

#[export] Instance frame_preorder : PreOrder frame.
Proof.
  split; [intros t; by repeat split|].
  intros t1 t2 t3 (A1&B1&C1&D1&E1&F1&G1&H1) (A2&B2&C2&D2&E2&F2&G2&H2).
  repeat split; try congruence; by etrans.
Qed.

Lemma touch_deps_spec fn seen failed tab l s :
  (∀ x, harmless (seen x)) → (∀ x t, frame t (seen x t)) → (∀ x t, x ∈ dkeys (tab (seen x t))) →
  (∀ t t', frame t t' → failed t' = failed t ∧ dkeys (tab t) ⊆ dkeys (V := list string) (tab t')) →
  td_inv (Some fn) s →
  ∃ s' b, touch_deps fn seen failed l s = (s', Ok b) ∧ td_inv (Some fn) s' ∧ grows0 s s' ∧
    tds_dc s' = tds_dc s ∧
    if (b : bool) then fn ∈ failed_fns (tds_td s')
    else frame (tds_td s) (tds_td s') ∧
         ∀ x, x ∈ l → x ∈ dkeys (tab (tds_td s')) ∧ (x ∉ failed (tds_td s')).
Proof.
  intros Hseen Hframe Hin Htab. revert s. induction l as [|x l IH]; intros [t c] HI; cbn [touch_deps].
  { exists (MkTds t c), false. do 4 (split; [done|]). split; [done|]. by intros ? ?%elem_of_nil. }
  destruct (Hseen x (Some fn) t c HI) as [HI1 Hg1].
  rewrite M_bind_eq. cbn [td_modify on_td modify tds_td tds_dc]. rewrite get_bind. cbn [tds_td].
  case_bool_decide as Hf.
  - destruct (fail_ok (seen x t) fn (inv_lists _ _ HI1) (inv_abort _ _ HI1)) as (t' & Ef & Hfa & Hfn).
    rewrite M_bind_eq. unfold on_td. cbn [tds_td tds_dc]. rewrite Ef.
    destruct (fails_inv (Some fn) _ t' c Hfa HI1) as [HI' [Hg' _]].
    exists (MkTds t' c), true. do 2 (split; [done|]). split; [by etrans|]. done.
  - destruct (IH (MkTds (seen x t) c) HI1) as (s' & b & E & HI' & Hg' & Ec & Hb).
    rewrite E. exists s', b. split; [done|]. split; [done|]. split; [by etrans|]. split; [done|].
    destruct b; [done|]. destruct Hb as [Hfr Hl]. cbn in Hfr. split; [etrans; [apply Hframe|done]|].
    intros y [->|Hy]%elem_of_cons; [|by apply Hl].
    destruct (Htab _ _ Hfr) as [Ht1 Ht2]. split; [apply Ht2, Hin|]. by rewrite Ht1.
Qed.

Lemma frame_seen_build x t : frame t (seen_build_target x t).
Proof.
  destruct (seen_build_target_fields x t) as (_ & Hk & E). rewrite E at 1.
  do 6 (split; [done|]). split; [|done]. intros y Hy. apply Hk. by right.
Qed.

Lemma frame_seen_run x t : frame t (seen_run_target x t).
Proof.
  destruct (seen_run_target_fields x t) as (_ & Hk & E). rewrite E at 1.
  do 7 (split; [done|]). intros y Hy. apply Hk. by right.
Qed.

Lemma touch_build_spec fn l s :
  td_inv (Some fn) s →
  ∃ s' b, touch_deps fn seen_build_target failed_deps l s = (s', Ok b) ∧ td_inv (Some fn) s' ∧
    grows0 s s' ∧ tds_dc s' = tds_dc s ∧
    if (b : bool) then fn ∈ failed_fns (tds_td s')
    else frame (tds_td s) (tds_td s') ∧
         ∀ x, x ∈ l → x ∈ dkeys (build_targets (tds_td s')) ∧ (x ∉ failed_deps (tds_td s')).
Proof.
  apply touch_deps_spec; [apply seen_build_target_harmless|apply frame_seen_build| |].
  - intros x t. apply (seen_build_target_fields x t). by left.
  - intros t t' (_&_&?&_&_&_&?&_). done.
Qed.

Lemma touch_run_spec fn l s :
  td_inv (Some fn) s →
  ∃ s' b, touch_deps fn seen_run_target failed_rdeps l s = (s', Ok b) ∧ td_inv (Some fn) s' ∧
    grows0 s s' ∧ tds_dc s' = tds_dc s ∧
    if (b : bool) then fn ∈ failed_fns (tds_td s')
    else frame (tds_td s) (tds_td s') ∧
         ∀ x, x ∈ l → x ∈ dkeys (run_targets (tds_td s')) ∧ (x ∉ failed_rdeps (tds_td s')).
Proof.
  apply touch_deps_spec; [apply seen_run_target_harmless|apply frame_seen_run| |].
  - intros x t. apply (seen_run_target_fields x t). by left.
  - intros t t' (_&_&_&?&_&_&_&?). done.
Qed.

Lemma buildWorldTargetList_keeps c task c' :
  buildWorldTargetList c task = Ok c' → c' = set_world_target c (world_target c').
Proof.
  unfold buildWorldTargetList. case_bool_decide; [intros [= <-]; by destruct c|].
  intros Hf. refine (fold_res_ind (λ c', c' = set_world_target c (world_target c')) _ _ _ _ _ _ Hf).
  - by destruct c.
  - intros c1 f c2 _ E1 H2. apply world_step_spec in H2 as [E2 _]. rewrite E2, E1. done.
Qed.

Lemma fold_res_error {A B} (E : exn → Prop) (f : A → B → res A) acc l e :
  (∀ a x e, f a x = Raise e → E e) → fold_res f acc l = Raise e → E e.
Proof.
  intros Hf. revert acc. induction l as [|x l IH]; intros acc; simpl; [done|].
  destruct (f acc x) eqn:Ef; [apply IH|]. intros [= <-]. by eapply Hf.
Qed.

Lemma lookup_error {A} (o : option A) e : of_option KeyError o = Raise e → other_error e.
Proof. destruct o; [done|]. by intros [= <-]. Qed.

Lemma buildWorldTargetList_error c task e : buildWorldTargetList c task = Raise e → other_error e.
Proof.
  unfold buildWorldTargetList. case_bool_decide; [done|]. apply fold_res_error.
  clear. intros c f e. unfold world_step.
  destruct (dget (pkg_fn c) f) as [pn|]; [|by intros [= <-]]. cbn [mbind res_bind of_option].
  assert (∀ l t e, world_terminal c pn t l = Raise e → other_error e) as Hw.
  { intros l. induction l as [|p l IH]; intros t e'; cbn [world_terminal]; [done|].
    case_match; [done|].
    assert (∀ l e, only_provider c pn l = Raise e → other_error e) as Ho.
    { clear. induction l as [|pf l IH]; intros e; cbn [only_provider]; [done|].
      destruct (dget (pkg_fn c) pf); [|by intros [= <-]]. cbn [mbind res_bind of_option].
      case_bool_decide; [apply IH|done]. }
    destruct (only_provider c pn _) eqn:Eo; cbn [mbind res_bind]; [apply IH|].
    intros [= <-]. by eapply Ho. }
  destruct task as [[|a t]|]; cbn [mbind res_bind].
  - destruct (world_terminal c pn true _) eqn:Ew; [done|]. intros [= <-]. by eapply Hw.
  - destruct (dget (task_deps c) f); [|by intros [= <-]]. cbn [mbind res_bind of_option].
    destruct (world_terminal c pn _ _) eqn:Ew; [done|]. intros [= <-]. by eapply Hw.
  - destruct (world_terminal c pn true _) eqn:Ew; [done|]. intros [= <-]. by eapply Hw.
Qed.

Section resolution.
Context {D : Type} `{DataStore D} `{!SetOrder string} (cfg : D).
Context (re_compile : string → option (string → bool)).
Context (better_exec : string → list string → gset string → dict (list string) → string →
                       res (list string)).
(** The recipe's code does not raise BitBake's own NoProvider exceptions. *)
Hypothesis better_exec_error : ∀ f l w d pn e, better_exec f l w d pn = Raise e → other_error e.

Lemma add_extra_deps_always skip fn :
  always (td_inv skip) grows0 other_error (add_extra_deps better_exec fn).
Proof.
  intros [t c] HI. unfold add_extra_deps. rewrite get_bind. cbn [tds_dc].
  destruct (dget (extradepsfunc c) fn) as [[|a func]|]; [by split| |by split].
  rewrite lift_bind. destruct (buildWorldTargetList c None) as [c1|] eqn:E1.
  2:{ apply buildWorldTargetList_error in E1. by split. }
  apply buildWorldTargetList_keeps in E1.
  rewrite M_bind_eq. cbn [dc_modify modify tds_td].
  destruct (td_inv_dc skip t c c1 HI) as [HI1 Hg1]; [by rewrite E1..|].
  rewrite lift_bind. destruct (dget (pkg_fn c1) fn) as [pn|]; cbn [of_option]; [|done].
  rewrite lift_bind. destruct (better_exec _ _ _ _ _) as [l|] eqn:Ee; [|apply better_exec_error in Ee; done].
  cbn. destruct (td_inv_dc skip t c1 (set_deps c1 (dset (deps c1) fn l)) HI1) as [HI2 Hg2]; [done..|].
  split; [done|]. split; [by etrans|done].
Qed.

Lemma split_dep_error dep e : split_dep dep = Raise e → other_error e.
Proof. unfold split_dep. repeat case_match; try done; by intros [= <-]. Qed.

Lemma handle_deps_always skip td flag task seen :
  (∀ x, harmless (seen x)) → always (td_inv skip) grows0 other_error (handle_deps td flag task seen).
Proof.
  intros Hs. unfold handle_deps. destruct (task_flag _ _ _); [|apply always_ret, _].
  apply always_bind; [apply _| |intros; apply always_ret, _].
  apply always_for_each; [apply _|]. intros dep _.
  apply always_bind; [apply _|apply always_lift, split_dep_error; apply _|].
  intros [p tk]. by apply td_modify_harmless.
Qed.

Lemma set_entry_harmless tid f : harmless (set_entry tid f).
Proof. by apply tables_harmless. Qed.

Lemma add_task_always skip fn td task :
  always (td_inv skip) grows0 other_error (add_task fn td task).
Proof.
  unfold add_task. cbv zeta.
  apply always_bind; [apply _|by apply td_modify_harmless, tables_harmless|intros _].
  apply always_bind; [apply _|apply always_lift, lookup_error; apply _|intros parents].
  apply always_bind; [apply _|by apply td_modify_harmless, set_entry_harmless|intros _].
  apply always_bind; [apply _|by apply handle_deps_always, seen_build_target_harmless|intros ids].
  apply always_bind; [apply _|by apply td_modify_harmless, set_entry_harmless|intros _].
  apply always_bind; [apply _|by apply handle_deps_always, seen_run_target_harmless|intros rids].
  apply always_bind; [apply _|by apply td_modify_harmless, set_entry_harmless|intros _].
  unfold add_mcdepends. destruct (task_flag _ _ _); [|apply always_ret, _].
  apply always_for_each; [apply _|]. intros dep _. case_bool_decide; [|by apply always_raise; [apply _|]].
  apply td_modify_harmless, tables_harmless. intros t. by case_bool_decide.
Qed.

(** The dependencies of one file, written and then looked at. *)
Definition add_deps (fn : string) : M tds unit :=
  s ← get;
  let c := tds_dc s in
  _ ← td_modify (λ t, if dmem (depids t) fn then t
                      else set_depids t (dset (depids t) fn (uniq (default [] (dget (deps c) fn)))));
  _ ← td_modify (λ t, if dmem (rdepids t) fn then t
                      else set_rdepids t (dset (rdepids t) fn (uniq (run_dep_names c fn))));
  s ← get;
  b ← touch_deps fn seen_build_target failed_deps (default [] (dget (depids (tds_td s)) fn));
  if (b : bool) then mret tt
  else
    _ ← touch_deps fn seen_run_target failed_rdeps (default [] (dget (rdepids (tds_td s)) fn));
    mret tt.

(** Writing the dependencies of [fn] disturbs no other file. *)
Lemma set_deps_inv fn t c d d' :
  (∀ f, f ≠ fn → dget d f = dget (depids t) f) → (∀ f, f ≠ fn → dget d' f = dget (rdepids t) f) →
  td_inv None (MkTds t c) → td_inv (Some fn) (MkTds (set_rdepids (set_depids t d) d') c).
Proof.
  intros Ed Ed' [Hl Hg Hd Hs Ha Hw]. split; try done. cbn in *. intros f Hf.
  assert (f ≠ fn) as Hne by congruence.
  destruct (Hd f ltac:(done)) as [Hff|[H1 H2]]; [by left|right]. cbn.
  rewrite Ed, Ed' by done. done.
Qed.

Lemma td_inv_done fn s : td_inv (Some fn) s → deps_in_order (tds_td s) fn → td_inv None s.
Proof.
  intros [Hl Hg Hd Hs Ha Hw] Hf. split; try done. intros f _.
  destruct (decide (f = fn)) as [->|Hne]; [done|]. apply Hd. congruence.
Qed.

Lemma add_deps_ok fn s :
  td_inv None s → ∃ s', add_deps fn s = (s', Ok tt) ∧ td_inv None s' ∧ grows0 s s'.
Proof.
  intros HI. destruct s as [t c]. unfold add_deps. rewrite get_bind. cbv zeta. cbn [tds_dc].
  rewrite M_bind_eq. cbn [td_modify on_td modify tds_td tds_dc].
  rewrite M_bind_eq. cbn [td_modify on_td modify tds_td tds_dc]. rewrite get_bind.
  set (d := if dmem (depids t) fn then depids t
            else dset (depids t) fn (uniq (default [] (dget (deps c) fn)))).
  set (d' := if dmem (rdepids t) fn then rdepids t
             else dset (rdepids t) fn (uniq (run_dep_names c fn))).
  set (t1 := set_rdepids (set_depids t d) d').
  match goal with |- context [MkTds ?x c] => assert (x = t1) as -> end.
  { unfold t1, d, d'. destruct (dmem (depids t) fn); cbn; destruct (dmem (rdepids t) fn);
      by destruct t. }
  assert (td_inv (Some fn) (MkTds t1 c)) as HI1.
  { apply set_deps_inv; [| |done]; intros f Hf; unfold d, d'; case_match; try done;
      by rewrite dget_dset_ne. }
  assert (grows0 (MkTds t c) (MkTds t1 c)) as Hg1 by (by split).
  cbn [tds_td].
  destruct (touch_build_spec fn (default [] (dget (depids t1) fn)) _ HI1)
    as (s2 & b & E2 & HI2 & Hg2 & _ & Hb).
  rewrite M_bind_eq, E2. destruct b.
  { exists s2. split; [done|]. split; [by eapply td_inv_done; [|left]|by etrans]. }
  destruct Hb as [Hf2 Hl2].
  destruct (touch_run_spec fn (default [] (dget (rdepids t1) fn)) _ HI2)
    as (s3 & b & E3 & HI3 & Hg3 & _ & Hb).
  rewrite M_bind_eq, E3. exists s3. split; [done|]. split; [|by etrans; [|etrans]].
  eapply td_inv_done; [done|]. destruct b; [by left|right]. destruct Hb as [Hf3 Hl3].
  destruct Hf2 as (A2&B2&C2&D2&E2'&F2&G2&H2), Hf3 as (A3&B3&C3&D3&E3'&F3&G3&H3). cbn in *.
  rewrite A3, A2, B3, B2. split; intros l x Hl Hx.
  - cbn in Hl, Hl2. rewrite Hl in Hl2. destruct (Hl2 x Hx) as [Hk Hn].
    split; [by apply G3|by rewrite C3].
  - cbn in Hl, Hl3. rewrite Hl in Hl3. by apply Hl3.
Qed.

Lemma add_tasks_always fn : always (td_inv None) grows other_error (add_tasks better_exec fn).
Proof.
  intros s HI. destruct s as [t c]. unfold add_tasks. rewrite get_bind, lift_bind. cbn [tds_td tds_dc].
  destruct (dget (task_deps c) fn) as [td|] eqn:Etd; cbn [of_option]; [|by split].
  case_bool_decide as Hfail; [by split|]. case_bool_decide as Hseen; [by split|].
  rewrite M_bind_eq. cbn [td_modify on_td modify tds_td tds_dc].
  set (s1 := MkTds (set_seenfns t (seenfns t ++ [fn])) c).
  assert (td_inv None s1 ∧ grows0 (MkTds t c) s1) as [HI1 Hg1].
  { split.
    - destruct HI as [Hl Hg Hd [Hnd Hs] Ha Hw]. split; try done. cbn in *. split.
      + apply NoDup_app. split; [done|]. split; [|apply NoDup_singleton].
        intros x Hx ->%list_elem_of_singleton. done.
      + intros x. rewrite elem_of_app, list_elem_of_singleton. intros [?| ->]; [by apply Hs|].
        apply elem_of_dkeys. by eexists.
    - split; cbn; try done. by apply prefix_app_r. }
  match goal with |- context [?m s1] => assert (∃ (m0 : M tds unit),
    always (td_inv None) grows0 other_error m0 ∧ m s1 = (m0 ≫= λ _, add_deps fn) s1) as (m0 & Hm0 & ->) end.
  { exists (_ ← add_extra_deps better_exec fn; for_each (td_tasks td) (add_task fn td)). split.
    - apply always_bind; [apply _|apply add_extra_deps_always|intros _].
      apply always_for_each; [apply _|]. intros. apply add_task_always.
    - unfold add_deps. rewrite !M_bind_eq.
      destruct (add_extra_deps better_exec fn s1) as [s2 [[]|e]]; [|done].
      rewrite !M_bind_eq. destruct (for_each _ _ s2) as [s3 [[]|e]]; done. }
  assert (∀ s', grows0 s1 s' → grows (MkTds t c) s') as Hgrow.
  { intros s' Hg. split; [by etrans|]. intros E. exfalso.
    pose proof (prefix_length _ _ (g_seenfns _ _ Hg)) as Hlen. cbn in Hlen.
    rewrite length_app, E in Hlen. simpl in Hlen. lia. }
  rewrite M_bind_eq. destruct (Hm0 s1 HI1) as (HI2 & Hg2 & He).
  destruct (m0 s1) as [s2 [[]|e]]; cbn in *; [|by auto].
  destruct (add_deps_ok fn s2 HI2) as (s3 & -> & HI3 & Hg3). cbn.
  split; [done|]. split; [|done]. apply Hgrow. by etrans.
Qed.

#[local] Arguments providers_in : simpl never.
#[local] Arguments add_target : simpl never.

Lemma add_target_wf d fn item : dict_wf d → dict_wf (add_target d fn item).
Proof.
  unfold add_target. intros. destruct (dget d item); [case_bool_decide; [done|]|]; by apply dset_wf.
Qed.

Lemma add_build_target_step fn item t c :
  td_inv None (MkTds t c) → fn ∉ failed_fns t →
  td_inv None (MkTds (add_build_target fn item t) c) ∧
  grows (MkTds t c) (MkTds (add_build_target fn item t) c) ∧
  resolved_build (add_build_target fn item t) item.
Proof.
  intros HI Hfn.
  assert (∀ x, providers_in (add_target (build_targets t) fn item) x =
    if decide (x = item ∧ fn ∉ providers_in (build_targets t) item)
    then providers_in (build_targets t) item ++ [fn] else providers_in (build_targets t) x) as Hp
    by apply providers_in_add.
  assert (providers_in (add_target (build_targets t) fn item) item ≠ []) as Hitem.
  { rewrite Hp. destruct (decide (_ ∧ _)) as [Hd|Hd]; [apply snoc_ne|]. intros E. apply Hd.
    split; [done|]. rewrite E. apply not_elem_of_nil. }
  assert (∀ x, providers_in (build_targets t) x ≠ [] →
    providers_in (add_target (build_targets t) fn item) x ≠ []) as Hmono.
  { intros x Hx. rewrite Hp. destruct (decide (_ ∧ _)); [apply snoc_ne|done]. }
  split; [|split; [split|by right]].
  - eapply td_inv_write; [exact HI| | | |try done..].
    + intros x. destruct (inv_lists _ _ HI) as [Hb Hr]. split; [|apply Hr]. cbn. rewrite Hp.
      destruct (decide (_ ∧ _)) as [Hd|Hd]; [|apply Hb]. apply NoDup_app. split; [apply Hb|].
      split; [|apply NoDup_singleton]. intros y Hy ->%list_elem_of_singleton. by apply Hd.
    + intros f x Hf. cbn. rewrite Hp. split; [|done]. destruct (decide (_ ∧ _)) as [Hd|Hd]; [|done].
      rewrite elem_of_app, list_elem_of_singleton. destruct Hd as [-> _]. intros [?| ->]; done.
    + intros x. apply dkeys_add.
    + cbn. pose proof (inv_wf _ _ HI) as [??]. split; [by apply add_target_wf|done].
  - split; try done. intros x [?|?]; [by left|right; by apply Hmono].
  - intros _. split; cbn; [|by left]. intros x Hx. destruct (decide (x = item)) as [->|Hne]; [by right; right|].
    left. unfold add_target in Hx. destruct (dget (build_targets t) item); [case_bool_decide; [done|]|];
      apply elem_of_dkeys_dset in Hx; by destruct Hx.
Qed.

Lemma add_runtime_target_step fn item t c :
  td_inv None (MkTds t c) → fn ∉ failed_fns t →
  td_inv None (MkTds (add_runtime_target fn item t) c) ∧
  grows (MkTds t c) (MkTds (add_runtime_target fn item t) c) ∧
  resolved_run (add_runtime_target fn item t) item.
Proof.
  intros HI Hfn.
  assert (∀ x, providers_in (add_target (run_targets t) fn item) x =
    if decide (x = item ∧ fn ∉ providers_in (run_targets t) item)
    then providers_in (run_targets t) item ++ [fn] else providers_in (run_targets t) x) as Hp
    by apply providers_in_add.
  assert (providers_in (add_target (run_targets t) fn item) item ≠ []) as Hitem.
  { rewrite Hp. destruct (decide (_ ∧ _)) as [Hd|Hd]; [apply snoc_ne|]. intros E. apply Hd.
    split; [done|]. rewrite E. apply not_elem_of_nil. }
  assert (∀ x, providers_in (run_targets t) x ≠ [] →
    providers_in (add_target (run_targets t) fn item) x ≠ []) as Hmono.
  { intros x Hx. rewrite Hp. destruct (decide (_ ∧ _)); [apply snoc_ne|done]. }
  split; [|split; [split|by right]].
  - eapply td_inv_write; [exact HI| | | |intros x; apply dkeys_add|try done..].
    + intros x. destruct (inv_lists _ _ HI) as [Hb Hr]. split; [apply Hb|]. cbn. rewrite Hp.
      destruct (decide (_ ∧ _)) as [Hd|Hd]; [|apply Hr]. apply NoDup_app. split; [apply Hr|].
      split; [|apply NoDup_singleton]. intros y Hy ->%list_elem_of_singleton. by apply Hd.
    + intros f x Hf. cbn. rewrite Hp. split; [done|]. destruct (decide (_ ∧ _)) as [Hd|Hd]; [|done].
      rewrite elem_of_app, list_elem_of_singleton. destruct Hd as [-> _]. intros [?| ->]; done.
    + done.
    + cbn. pose proof (inv_wf _ _ HI) as [??]. split; [done|by apply add_target_wf].
  - split; try done. intros x [?|?]; [by left|right; by apply Hmono].
  - intros _. split; cbn; [by left|]. intros x Hx. destruct (decide (x = item)) as [->|Hne]; [by right; right|].
    left. unfold add_target in Hx. destruct (dget (run_targets t) item); [case_bool_decide; [done|]|];
      apply elem_of_dkeys_dset in Hx; by destruct Hx.
Qed.

(** Adding providers of an item resolves it when one of them can be added. *)
Lemma add_eligible_always (resolved : TaskData → Prop) add eligible :
  (∀ fn t c, td_inv None (MkTds t c) → fn ∉ failed_fns t →
     td_inv None (MkTds (add fn t) c) ∧ grows (MkTds t c) (MkTds (add fn t) c) ∧ resolved (add fn t)) →
  (∀ s s', grows s s' → resolved (tds_td s) → resolved (tds_td s')) →
  always (td_inv None) grows other_error (add_eligible better_exec add eligible) ∧
  ∀ s s', td_inv None s →
    (∃ fn l, eligible = fn :: l ∧ fn ∉ failed_fns (tds_td s)) →
    add_eligible better_exec add eligible s = (s', Ok tt) → resolved (tds_td s').
Proof.
  intros Hadd Hres.
  assert (∀ fn, always (td_inv None) grows other_error
    (s ← get; if bool_decide (fn ∈ failed_fns (tds_td s)) then mret tt
              else _ ← td_modify (add fn); add_tasks better_exec fn)) as Hone.
  { intros fn [t c] HI. rewrite get_bind. cbn [tds_td]. case_bool_decide as Hf; [by split; [|split]|].
    rewrite M_bind_eq. cbn [td_modify on_td modify tds_td tds_dc].
    destruct (Hadd fn t c HI Hf) as (HI1 & Hg1 & _).
    destruct (add_tasks_always fn (MkTds (add fn t) c) HI1) as (? & ? & ?).
    split; [done|]. split; [by etrans|done]. }
  split; [by apply always_for_each; [apply _|]|].
  intros [t c] s' HI (fn & l & -> & Hf) E. unfold add_eligible in E. cbn [for_each] in E.
  rewrite M_bind_eq in E. rewrite get_bind in E. cbn [tds_td] in *.
  rewrite bool_decide_eq_false_2 in E by done.
  rewrite M_bind_eq in E. cbn [td_modify on_td modify tds_td tds_dc] in E.
  destruct (Hadd fn t c HI Hf) as (HI1 & Hg1 & Hr1).
  destruct (add_tasks_always fn (MkTds (add fn t) c) HI1) as (HI2 & Hg2 & _).
  destruct (add_tasks better_exec fn (MkTds (add fn t) c)) as [s2 [[]|e]]; [|done]. cbn in HI2, Hg2.
  destruct (always_for_each (td_inv None) grows other_error l _ (λ x _, Hone x) s2 HI2) as (_ & Hg3 & _).
  unfold add_eligible in *. rewrite E in Hg3. cbn in Hg3.
  eapply Hres; [exact Hg3|]. eapply Hres; [exact Hg2|]. done.
Qed.

(** [consider_multiple] writes only its own table. *)
Lemma consider_multiple_spec item eligible t c :
  ∃ l r, consider_multiple item eligible (MkTds t c) = (MkTds (set_consider_msgs_cache t l) c, r) ∧
    match r with Ok _ => True | Raise e => other_error e end.
Proof.
  unfold consider_multiple. rewrite get_bind. cbn [tds_td tds_dc].
  assert (∀ l : list string, ∃ r,
    for_each l (λ fn, _ ← lift (of_option KeyError (dget (pkg_fn c) fn)); mret tt) (MkTds t c)
    = (MkTds t c, r) ∧ match r with Ok _ => True | Raise e => other_error e end) as Hl.
  { induction l as [|fn l (r & IH & Hr)]; [by eexists|]. cbn [for_each]. rewrite M_bind_eq, lift_bind.
    destruct (dget (pkg_fn c) fn); cbn [of_option]; [|by eexists]. cbn. rewrite IH. eauto. }
  rewrite M_bind_eq. case_bool_decide.
  - by do 2 eexists.
  - destruct (Hl eligible) as ([[]|e] & -> & Hr); [by do 2 eexists|].
    exists (consider_msgs_cache t), (Raise e). by destruct t.
Qed.

Lemma consider_inv t c c' l :
  td_inv None (MkTds t c) → task_deps c' = task_deps c →
  ignored_dependencies c' = ignored_dependencies c →
  td_inv None (MkTds (set_consider_msgs_cache t l) c') ∧
  grows (MkTds t c) (MkTds (set_consider_msgs_cache t l) c').
Proof.
  intros HI E1 E2. split; [|split].
  - destruct HI as [Hl Hg Hd Hs Ha Hw]. split; try done. cbn in *. by rewrite E1.
  - by split.
  - intros _. split; by left.
Qed.

(** What choosing among the providers changes of the cache: [preferred]. *)
Definition same_deps (c c' : CacheData) : Prop :=
  task_deps c' = task_deps c ∧ ignored_dependencies c' = ignored_dependencies c.

Lemma filterProviders_keeps provs item c s' r :
  filterProviders item cfg (provs, c) = (s', r) → same_deps c s'.2.
Proof.
  unfold filterProviders. rewrite get_bind, modify_bind, lift_bind. cbn [fst snd].
  destruct (_filterProviders provs item cfg c) as [[ps0 el0]|e]; [|by intros [= <- _]].
  rewrite lift_bind. destruct (ds_getVar cfg _) as [v|e]; [|by intros [= <- _]]. rewrite M_bind_eq.
  assert (∃ c1, (match v with
    | Some (String _ _ as v) => modify (λ s : list string * CacheData, (s.1, set_preferred s.2 (dset (preferred s.2) item v)))
    | _ => mret tt end) (py_sorted provs, c) = ((py_sorted provs, c1), Ok tt) ∧ same_deps c c1) as (c1 & -> & Hc)
    by (destruct v as [[|??]|]; by eexists).
  rewrite get_bind. cbn [fst snd]. destruct (dget (preferred c1) item) as [pn|]; [|by intros [= <- _]].
  rewrite lift_bind. destruct (of_option TypeError el0) as [l|e]; [|by intros [= <- _]].
  rewrite lift_bind. destruct (find_pn c1 pn l) as [[p|]|e]; by intros [= <- _].
Qed.

Lemma on_filterProviders item all_p t c :
  ∃ c' r, on_providers item all_p (filterProviders item cfg) (MkTds t c) = (MkTds t c', r) ∧ same_deps c c'.
Proof.
  unfold on_providers. cbn [tds_td tds_dc].
  destruct (filterProviders item cfg (all_p, c)) as [[ps c1] r] eqn:E. apply filterProviders_keeps in E.
  by eexists _, r.
Qed.

Lemma not_failed_cons t l : nonempty (not_failed t l) = true →
  ∃ fn k, not_failed t l = fn :: k ∧ fn ∉ failed_fns t.
Proof.
  intros Hn. destruct (not_failed t l) as [|fn k] eqn:E; [done|]. exists fn, k. split; [done|].
  assert (fn ∈ not_failed t l) as Hin by (rewrite E; apply list_elem_of_here).
  unfold not_failed in Hin. apply list_elem_of_In, filter_In in Hin as [_ Hin].
  by apply bool_decide_eq_true in Hin.
Qed.

(** What [add_provider_internal] and [add_rprovider] do, whatever they are
    asked for: the item is resolved or ignored, or the exception that says it
    has no provider comes before anything is written. *)
Definition resolve_outcome (caught : exn → bool) (resolved : TaskData → Prop) (item : string)
    (s s' : tds) (r : res unit) : Prop :=
  td_inv None s' ∧ grows s s' ∧
  match r with
  | Ok _ => re_match_strings re_compile item (ignored_dependencies (tds_dc s)) = Ok true ∨
            resolved (tds_td s')
  | Raise e => caught e = true → ∃ l, tds_td s' = set_consider_msgs_cache (tds_td s) l
  end.

Lemma resolve_unchanged caught resolved item s e :
  td_inv None s → resolve_outcome caught resolved item s s (Raise e).
Proof.
  intros HI. split; [done|]. split; [done|]. intros _. exists (consider_msgs_cache (tds_td s)).
  by destruct (tds_td s).
Qed.

(** The last part of both: the eligible files are added. *)
Lemma resolve_eligible caught resolved item add s t' c' eligible m s2 r l :
  (∀ e, other_error e → caught e = false) →
  (∀ fn t c, td_inv None (MkTds t c) → fn ∉ failed_fns t →
     td_inv None (MkTds (add fn t) c) ∧ grows (MkTds t c) (MkTds (add fn t) c) ∧ resolved (add fn t)) →
  (∀ s s', grows s s' → resolved (tds_td s) → resolved (tds_td s')) →
  td_inv None s → t' = set_consider_msgs_cache (tds_td s) m →
  task_deps c' = task_deps (tds_dc s) → ignored_dependencies c' = ignored_dependencies (tds_dc s) →
  eligible = not_failed (tds_td s) l → nonempty eligible = true →
  add_eligible better_exec add eligible (MkTds t' c') = (s2, r) →
  resolve_outcome caught resolved item s s2 r.
Proof.
  intros Hc Hadd Hres HI -> E1 E2 -> Hne E. destruct s as [t c]. cbn in *.
  destruct (consider_inv t c c' m HI E1 E2) as [HI1 Hg1].
  destruct (add_eligible_always resolved add (not_failed t l) Hadd Hres) as [Hal Hok].
  destruct (Hal _ HI1) as (HI2 & Hg2 & He). rewrite E in HI2, Hg2, He. cbn in *.
  split; [done|]. split; [by etrans|]. destruct r as [[]|e].
  - right. eapply (Hok (MkTds (set_consider_msgs_cache t m) c') s2); [done| |done].
    destruct (not_failed_cons t l Hne) as (fn & k & Ek & Hf). exists fn, k. by rewrite Ek.
  - rewrite Hc by done. done.
Qed.

Lemma grows_resolved_build x s s' :
  grows s s' → resolved_build (tds_td s) x → resolved_build (tds_td s') x.
Proof. intros [Hg _]. apply Hg. Qed.

Lemma grows_resolved_run x s s' :
  grows s s' → resolved_run (tds_td s) x → resolved_run (tds_td s') x.
Proof. intros [Hg _]. apply Hg. Qed.

Lemma add_provider_internal_spec item s :
  td_inv None s →
  let '(s', r) := add_provider_internal cfg re_compile better_exec item s in
  resolve_outcome is_NoProvider (λ t, resolved_build t item) item s s' r.
Proof.
  intros HI. destruct s as [t c]. unfold add_provider_internal. rewrite get_bind, lift_bind. cbn [tds_td tds_dc].
  destruct (re_match_strings re_compile item (ignored_dependencies c)) as [ig|e] eqn:Eig;
    [|by apply resolve_unchanged].
  destruct ig. { split; [done|]. split; [done|]. by left. }
  destruct (dget (providers c) item) as [all_p|].
  2:{ rewrite lift_bind. destruct (getRuntimeProviders re_compile c item) as [l|e]; [|by apply resolve_unchanged].
      rewrite M_bind_eq.
      assert (∃ r, for_each l (λ fn, _ ← lift (of_option KeyError (dget (pkg_fn c) fn)); mret tt) (MkTds t c)
              = (MkTds t c, r)) as ([[]|e] & ->); [|by apply resolve_unchanged..].
      clear. induction l as [|fn l (r & IH)]; [by eexists|]. cbn [for_each]. rewrite M_bind_eq, lift_bind.
      destruct (dget (pkg_fn c) fn); cbn [of_option]; [|by eexists]. cbn. rewrite IH. eauto. }
  destruct (have_build_target t item) eqn:Eh.
  { split; [done|]. split; [done|]. right. right. cbn. unfold have_build_target in Eh. unfold providers_in.
    destruct (dget (build_targets t) item) as [[|??]|]; done. }
  rewrite M_bind_eq. destruct (on_filterProviders item all_p t c) as (c2 & r & -> & Ed & Ei).
  destruct (consider_inv t c c2 (consider_msgs_cache t) HI Ed Ei) as [HI2 Hg2].
  replace (set_consider_msgs_cache t (consider_msgs_cache t)) with t in HI2, Hg2 by (by destruct t).
  assert (∀ e, resolve_outcome is_NoProvider (λ t, resolved_build t item) item (MkTds t c) (MkTds t c2) (Raise e))
    as Hraise.
  { intros e. split; [done|]. split; [done|]. intros _. exists (consider_msgs_cache t). by destruct t. }
  destruct r as [[el u]|e]; [|apply Hraise].
  rewrite lift_bind. destruct el as [el|]; cbn [of_option]; [|apply Hraise].
  destruct (negb (nonempty (not_failed t el))) eqn:En; [apply Hraise|]. apply negb_false_iff in En.
  rewrite M_bind_eq.
  destruct (_ && _).
  - destruct (consider_multiple_spec item (not_failed t el) t c2) as (m & r & -> & Hr).
    destruct r as [[]|e].
    + destruct (add_eligible _ _ _ _) as [s2 r2] eqn:E2.
      apply (resolve_eligible _ _ _ (λ fn, add_build_target fn item) (MkTds t c)
        (set_consider_msgs_cache t m) c2 (not_failed t el) m s2 r2 el);
        [by intros ? [? _]|by intros; apply add_build_target_step|by intros ???; apply grows_resolved_build|done..].
    + destruct (consider_inv t c c2 m HI Ed Ei). split; [done|]. split; [done|]. intros He. by destruct Hr; congruence.
  - cbn [mret M_ret]. destruct (add_eligible _ _ _ _) as [s2 r2] eqn:E2.
    apply (resolve_eligible _ _ _ (λ fn, add_build_target fn item) (MkTds t c) t c2
      (not_failed t el) (consider_msgs_cache t) s2 r2 el);
      [by intros ? [? _]|by intros; apply add_build_target_step|by intros ???; apply grows_resolved_build|done|by destruct t|done..].
Qed.

Lemma add_rprovider_spec item s :
  td_inv None s →
  let '(s', r) := add_rprovider cfg re_compile better_exec item s in
  resolve_outcome is_rprovider_error (λ t, resolved_run t item) item s s' r.
Proof.
  intros HI. destruct s as [t c]. unfold add_rprovider. rewrite get_bind, lift_bind. cbn [tds_td tds_dc].
  destruct (re_match_strings re_compile item (ignored_dependencies c)) as [ig|e] eqn:Eig;
    [|by apply resolve_unchanged].
  destruct ig. { split; [done|]. split; [done|]. by left. }
  destruct (have_runtime_target t item) eqn:Eh.
  { split; [done|]. split; [done|]. right. right. cbn. unfold have_runtime_target in Eh. unfold providers_in.
    destruct (dget (run_targets t) item) as [[|??]|]; done. }
  rewrite lift_bind. destruct (getRuntimeProviders re_compile c item) as [all_p|e]; [|by apply resolve_unchanged].
  destruct (negb (nonempty all_p)); [by apply resolve_unchanged|].
  rewrite lift_bind. destruct (filterProvidersRunTime all_p item cfg c) as [[[ps el] num]|e];
    [|by apply resolve_unchanged].
  destruct (negb (nonempty (not_failed t el))) eqn:En; [by apply resolve_unchanged|].
  apply negb_false_iff in En. rewrite M_bind_eq.
  assert (∃ m r, (if bool_decide (1 < List.length (not_failed t el)) && bool_decide (num = 0)
    then consider_multiple item (not_failed t el) else mret tt) (MkTds t c)
    = (MkTds (set_consider_msgs_cache t m) c, r) ∧ match r with Ok _ => True | Raise e => other_error e end)
    as (m & r & -> & Hr).
  { destruct (_ && _); [apply consider_multiple_spec|]. exists (consider_msgs_cache t), (Ok tt). by destruct t. }
  destruct (consider_inv t c c m HI eq_refl eq_refl) as [HI1 Hg1].
  destruct r as [[]|e]; [|split; [done|split; [done|]]; intros He; by destruct Hr; congruence].
  case_bool_decide.
  - rewrite M_bind_eq.
    destruct (consider_multiple_spec item (not_failed t el) (set_consider_msgs_cache t m) c) as (m' & r & -> & Hr').
    destruct (consider_inv t c c m' HI eq_refl eq_refl) as [HI2 Hg2].
    destruct r as [[]|e]; (split; [done|]; split; [done|]); intros He; by eexists.
  - destruct (add_eligible _ _ _ _) as [s2 r2] eqn:E2.
    apply (resolve_eligible _ _ _ (λ fn, add_runtime_target fn item) (MkTds t c)
      (set_consider_msgs_cache t m) c (not_failed t el) m s2 r2 el);
      [by intros ? [_ ?]|by intros; apply add_runtime_target_step|by intros ???; apply grows_resolved_run|done..].
Qed.

(** ** Rounds of resolution *)

Lemma unresolved_targets_spec ign failed d l :
  unresolved_targets re_compile ign failed d = Ok l → dict_wf d →
  (∀ x, x ∈ dkeys d → is_Ok (re_match_strings re_compile x ign)) ∧
  (∀ x, x ∈ l ↔ x ∈ dkeys d ∧ re_match_strings re_compile x ign = Ok false ∧ (x ∉ failed) ∧
                providers_in d x = []).
Proof.
  intros Hl Hwf. unfold unresolved_targets in Hl.
  enough (∀ acc d', (∀ kv, kv ∈ d' → kv ∈ d) → fold_res (λ acc '(target, l),
      b ← re_match_strings re_compile target ign;
      Ok (if (b : bool) || bool_decide (target ∈ failed) || nonempty l then acc else acc ++ [target])) acc d' = Ok l →
    (∀ kv, kv ∈ d' → is_Ok (re_match_strings re_compile kv.1 ign)) ∧
    (∀ x, x ∈ l ↔ x ∈ acc ∨ ∃ p, (x, p) ∈ d' ∧ re_match_strings re_compile x ign = Ok false ∧ (x ∉ failed) ∧ p = []))
    as Hfold.
  { destruct (Hfold [] d (λ _ H, H) Hl) as [H1 H2]. split.
    - intros x Hx. apply elem_of_dkeys in Hx as [p Hp]. by apply (H1 (x, p)), dget_elem_of.
    - intros x. rewrite H2. split.
      + intros [Hn|(p & Hp & Hr & Hf & ->)]; [by apply elem_of_nil in Hn|].
        apply elem_of_dget in Hp; [|done]. split; [apply elem_of_dkeys; by eexists|].
        split; [done|]. split; [done|]. unfold providers_in. by rewrite Hp.
      + intros (Hk & Hr & Hf & Hp). right. apply elem_of_dkeys in Hk as [p E].
        exists p. split; [by apply dget_elem_of|]. unfold providers_in in Hp. rewrite E in Hp. done. }
  clear Hl. intros acc d' _. revert acc. induction d' as [|[x p] d' IH]; intros acc; cbn [fold_res].
  { intros [= <-]. split; [by intros ? ?%elem_of_nil|]. intros x. split; [by left|].
    intros [?|(? & ?%elem_of_nil & _)]; done. }
  destruct (re_match_strings re_compile x ign) as [b|] eqn:Eb; [|done]. cbn [mbind res_bind].
  intros Hl. apply IH in Hl as [H1 H2]. split.
  { intros kv [->|?]%elem_of_cons; [by eexists|by apply H1]. }
  intros y. rewrite H2.
  assert (b || bool_decide (x ∈ failed) || nonempty p = false ↔
    b = false ∧ (x ∉ failed) ∧ p = []) as Hc.
  { rewrite !orb_false_iff, bool_decide_eq_false. destruct p; naive_solver. }
  setoid_rewrite elem_of_cons. destruct (b || bool_decide (x ∈ failed) || nonempty p) eqn:E.
  - split; [intros [?|(q & ? & ?)]; [by left|right; eauto]|].
    intros [?|(q & [[= -> ->]|?] & Hr & Hf & Hq)]; [by left| |right; eauto].
    exfalso. assert (true = false) by (apply Hc; rewrite Eb in Hr; by injection Hr as ->). done.
  - destruct (proj1 Hc eq_refl) as (-> & Hf & ->). rewrite elem_of_app, list_elem_of_singleton. split.
    + intros [[?| ->]|(q & ? & ?)]; [by left|right; exists []; auto|right; eauto].
    + intros [?|(q & [[= -> ->]|?] & ?)]; [by left; left|by left; right|right; eauto].
Qed.

Definition same_keys (s s' : tds) : Prop :=
  dkeys (build_targets (tds_td s')) = dkeys (build_targets (tds_td s)) ∧
  dkeys (run_targets (tds_td s')) = dkeys (run_targets (tds_td s)).

(** What one attempt does to a target that is not ignored. *)
Definition attempt_ok (resolved : TaskData → string → Prop) (f : string → M tds nat) (x : string) : Prop :=
  ∀ s, td_inv None s → re_match_strings re_compile x (ignored_dependencies (tds_dc s)) = Ok false →
  let '(s', r) := f x s in
  td_inv None s' ∧ grows s s' ∧
  match r with
  | Ok n => (n ≠ 0 → resolved (tds_td s') x) ∧
            (n = 0 → same_keys s s' ∧ (td_allowincomplete (tds_td s) = false → resolved (tds_td s') x))
  | Raise _ => True
  end.

Lemma resolve_build_ok x : attempt_ok resolved_build (resolve_build cfg re_compile better_exec) x.
Proof.
  intros s HI Hig. unfold resolve_build, catch. rewrite M_bind_eq.
  pose proof (add_provider_internal_spec x s HI) as Hs.
  destruct (add_provider_internal cfg re_compile better_exec x s) as [s1 [[]|e]].
  { destruct Hs as (HI1 & Hg1 & Hr). cbn. split; [done|]. split; [done|]. split; [|done].
    intros _. destruct Hr as [Hr|?]; [congruence|done]. }
  destruct Hs as (HI1 & Hg1 & Hr). destruct (is_NoProvider e) eqn:Ee; [|done].
  destruct (Hr eq_refl) as [l Hl]. rewrite get_bind. cbn.
  rewrite (inv_abort _ _ HI1). cbn [andb].
  assert (same_keys s s1) as Hk by (unfold same_keys; by rewrite Hl).
  destruct (td_allowincomplete (tds_td s1)) eqn:Ea.
  { split; [done|]. split; [done|]. split; [done|]. intros _. split; [done|].
    intros Hf. by rewrite (g_incomplete _ _ (proj1 Hg1)), Hf in Ea. }
  rewrite M_bind_eq.
  destruct (on_td_fail_buildtarget s1 x HI1) as (t' & -> & Hf & Hx & HI2 & Hg2). cbn.
  split; [done|]. split; [by etrans|]. split; [done|]. intros _. split.
  - destruct Hk as [Kb Kr]. unfold same_keys. cbn.
    by rewrite (tf_keys _ _ _ _ _ (fails_build _ _ Hf)), (tf_keys _ _ _ _ _ (fails_run _ _ Hf)).
  - intros _. by left.
Qed.

Lemma resolve_run_ok x : attempt_ok resolved_run (resolve_run cfg re_compile better_exec) x.
Proof.
  intros s HI Hig. unfold resolve_run, catch. rewrite M_bind_eq.
  pose proof (add_rprovider_spec x s HI) as Hs.
  destruct (add_rprovider cfg re_compile better_exec x s) as [s1 [[]|e]].
  { destruct Hs as (HI1 & Hg1 & Hr). cbn. split; [done|]. split; [done|]. split; [|done].
    intros _. destruct Hr as [Hr|?]; [congruence|done]. }
  destruct Hs as (HI1 & Hg1 & Hr). destruct (is_rprovider_error e) eqn:Ee; [|done].
  destruct (Hr eq_refl) as [l Hl]. rewrite M_bind_eq.
  assert (same_keys s s1) as Hk by (unfold same_keys; by rewrite Hl).
  destruct (on_td_fail_runtarget s1 x HI1) as (t' & -> & Hf & Hx & HI2 & Hg2). cbn.
  split; [done|]. split; [by etrans|]. split; [done|]. intros _. split.
  - destruct Hk as [Kb Kr]. unfold same_keys. cbn.
    by rewrite (tf_keys _ _ _ _ _ (fails_build _ _ Hf)), (tf_keys _ _ _ _ _ (fails_run _ _ Hf)).
  - intros _. by left.
Qed.

Lemma sum_each_ok (resolved : TaskData → string → Prop) f l s :
  (∀ s s' x, grows s s' → resolved (tds_td s) x → resolved (tds_td s') x) →
  (∀ x, attempt_ok resolved f x) → td_inv None s →
  (∀ x, x ∈ l → re_match_strings re_compile x (ignored_dependencies (tds_dc s)) = Ok false) →
  let '(s', r) := sum_each f l s in
  td_inv None s' ∧ grows s s' ∧
  match r with
  | Ok n => (n = 0 → same_keys s s') ∧ (n ≠ 0 → ∃ x, x ∈ l ∧ resolved (tds_td s') x) ∧
            (td_allowincomplete (tds_td s) = false → ∀ x, x ∈ l → resolved (tds_td s') x)
  | Raise _ => True
  end.
Proof.
  intros Hmono Hf. revert s. induction l as [|x l IH]; intros s HI Hig; cbn [sum_each].
  { cbn. split; [done|]. split; [done|]. split; [by intros _; split|]. split; [done|]. by intros _ ? ?%elem_of_nil. }
  pose proof (Hf x s HI (Hig x (list_elem_of_here _ _))) as Hx. rewrite M_bind_eq.
  destruct (f x s) as [s1 [a|e]]; [|done]. destruct Hx as (HI1 & Hg1 & Hpos & Hzero).
  pose proof (proj1 Hg1) as Hg10.
  specialize (IH s1 HI1). rewrite (g_ignored _ _ Hg10) in IH.
  specialize (IH ltac:(intros; apply Hig; by apply list_elem_of_further)). rewrite M_bind_eq.
  destruct (sum_each f l s1) as [s2 [b|e]].
  2:{ destruct IH as (? & ? & _). cbn. split; [done|]. split; [by etrans|done]. }
  destruct IH as (HI2 & Hg2 & H1 & H2 & H3). cbn. split; [done|]. split; [by etrans|].
  split; [|split].
  - intros E. destruct (Hzero ltac:(lia)) as [[Ka Kb] _]. destruct (H1 ltac:(lia)). split; congruence.
  - intros E. destruct (decide (a = 0)) as [Ea|Ea].
    + destruct H2 as (y & Hy & Hr); [lia|]. exists y. split; [by apply list_elem_of_further|done].
    + exists x. split; [apply list_elem_of_here|]. eapply Hmono; [done|]. by apply Hpos.
  - intros Ea y [->|Hy]%elem_of_cons.
    + eapply Hmono; [done|]. destruct (decide (a = 0)) as [E|E]; [by apply Hzero|by apply Hpos].
    + apply H3; [|done]. by rewrite (g_incomplete _ _ Hg10).
Qed.

(** Every target is ignored, failed or has a provider. *)
Definition all_resolved (s : tds) : Prop :=
  (∀ x, x ∈ dkeys (build_targets (tds_td s)) →
     re_match_strings re_compile x (ignored_dependencies (tds_dc s)) = Ok true ∨ resolved_build (tds_td s) x) ∧
  (∀ x, x ∈ dkeys (run_targets (tds_td s)) →
     re_match_strings re_compile x (ignored_dependencies (tds_dc s)) = Ok true ∨ resolved_run (tds_td s) x).

(** The targets still to resolve. *)
Definition open_build (s : tds) : gset string :=
  filter (λ x, ¬ (x ∈ failed_deps (tds_td s) ∨ providers_in (build_targets (tds_td s)) x ≠ []))
    (list_to_set (dkeys (build_targets (tds_td s)))).
Definition open_run (s : tds) : gset string :=
  filter (λ x, ¬ (x ∈ failed_rdeps (tds_td s) ∨ providers_in (run_targets (tds_td s)) x ≠ []))
    (list_to_set (dkeys (run_targets (tds_td s)))).

Lemma elem_of_open_build s x :
  x ∈ open_build s ↔ x ∈ dkeys (build_targets (tds_td s)) ∧ ¬ resolved_build (tds_td s) x.
Proof. unfold open_build, resolved_build. rewrite elem_of_filter, elem_of_list_to_set. tauto. Qed.
Lemma elem_of_open_run s x :
  x ∈ open_run s ↔ x ∈ dkeys (run_targets (tds_td s)) ∧ ¬ resolved_run (tds_td s) x.
Proof. unfold open_run, resolved_run. rewrite elem_of_filter, elem_of_list_to_set. tauto. Qed.

(** A round: with nothing added the state is fully resolved; otherwise a new
    file was seen, or fewer targets are open. *)
Definition progress (s s' : tds) : Prop :=
  seenfns (tds_td s') ≠ seenfns (tds_td s) ∨
  size (open_build s') + size (open_run s') < size (open_build s) + size (open_run s).

Lemma unresolved_round_ok s :
  td_inv None s →
  let '(s', r) := unresolved_round cfg re_compile better_exec s in
  td_inv None s' ∧ grows s s' ∧
  match r with
  | Ok n => (n = 0 → td_allowincomplete (tds_td s) = false → all_resolved s') ∧ (n ≠ 0 → progress s s')
  | Raise _ => True
  end.
Proof.
  intros HI. unfold unresolved_round. rewrite get_bind, lift_bind.
  destruct (get_unresolved_build_targets re_compile s) as [lb|e] eqn:Eb; [|by split].
  destruct (unresolved_targets_spec _ _ _ _ Eb (proj1 (inv_wf _ _ HI))) as [Rb Lb].
  rewrite M_bind_eq.
  pose proof (sum_each_ok resolved_build (resolve_build cfg re_compile better_exec) lb s
    (λ s s' x Hg, grows_resolved_build x s s' Hg) resolve_build_ok HI
    (λ x Hx, proj1 (proj2 (proj1 (Lb x) Hx)))) as H1.
  destruct (sum_each (resolve_build cfg re_compile better_exec) lb s) as [s1 [a|e]]; [|tauto].
  destruct H1 as (HI1 & Hg1 & Z1 & P1 & C1). rewrite get_bind, lift_bind.
  destruct (get_unresolved_run_targets re_compile s1) as [lr|e] eqn:Er; [|done].
  destruct (unresolved_targets_spec _ _ _ _ Er (proj2 (inv_wf _ _ HI1))) as [Rr Lr].
  rewrite M_bind_eq.
  pose proof (sum_each_ok resolved_run (resolve_run cfg re_compile better_exec) lr s1
    (λ s s' x Hg, grows_resolved_run x s s' Hg) resolve_run_ok HI1
    (λ x Hx, proj1 (proj2 (proj1 (Lr x) Hx)))) as H2.
  destruct (sum_each (resolve_run cfg re_compile better_exec) lr s1) as [s2 [b|e]].
  2:{ destruct H2 as (? & ? & _). split; [done|]. split; [by etrans|done]. }
  destruct H2 as (HI2 & Hg2 & Z2 & P2 & C2). cbn. split; [done|]. split; [by etrans|].
  pose proof (proj1 Hg1) as G1. pose proof (proj1 Hg2) as G2. split.
  - intros E Ea. destruct (Z1 ltac:(lia)) as [Kb1 Kr1]. destruct (Z2 ltac:(lia)) as [Kb2 Kr2].
    split; intros x Hx; rewrite (g_ignored _ _ G2), (g_ignored _ _ G1).
    + rewrite Kb2, Kb1 in Hx. destruct (Rb x Hx) as [[] Hm]; [by left|right].
      apply (g_build _ _ G2). destruct (decide (x ∈ lb)) as [Hl|Hl]; [by apply C1|].
      apply (g_build _ _ G1). rewrite Lb in Hl. unfold resolved_build.
      destruct (decide (x ∈ failed_deps (tds_td s))); [by left|]. right. intros Hp. by apply Hl.
    + rewrite Kr2 in Hx. destruct (Rr x Hx) as [[] Hm]; rewrite (g_ignored _ _ G1) in Hm; [by left|right].
      destruct (decide (x ∈ lr)) as [Hl|Hl].
      * apply C2; [|done]. by rewrite (g_incomplete _ _ G1).
      * apply (g_run _ _ G2). rewrite Lr, (g_ignored _ _ G1) in Hl. unfold resolved_run.
        destruct (decide (x ∈ failed_rdeps (tds_td s1))); [by left|]. right. intros Hp. by apply Hl.
  - intros E. destruct (decide (seenfns (tds_td s2) = seenfns (tds_td s))) as [Es|]; [right|by left].
    assert (grows s s2) as [G N] by (by etrans). destruct (N Es) as [Nb Nr].
    assert (open_build s2 ⊆ open_build s) as Sb.
    { intros x. rewrite !elem_of_open_build. intros [Hk Hn]. split.
      - by destruct (Nb x Hk).
      - intros Hr. apply Hn. by apply (g_build _ _ G). }
    assert (open_run s2 ⊆ open_run s) as Sr.
    { intros x. rewrite !elem_of_open_run. intros [Hk Hn]. split.
      - by destruct (Nr x Hk).
      - intros Hr. apply Hn. by apply (g_run _ _ G). }
    destruct (decide (a = 0)) as [Ea|Ea].
    + destruct P2 as (x & Hx & Hr); [lia|]. apply Lr in Hx as (Hk & _ & Hf & Hp).
      assert (open_run s2 ⊂ open_run s) as Hs.
      { split; [done|]. intros H'. assert (x ∈ open_run s2) as Hx; [|by apply elem_of_open_run in Hx as [_ ?]].
        apply H', elem_of_open_run. destruct (Z1 Ea) as [_ Kr]. rewrite <-Kr. split; [done|].
        intros Hrs. apply (g_run _ _ G1) in Hrs. destruct Hrs; done. }
      apply subset_size in Hs. apply subseteq_size in Sb. lia.
    + destruct (P1 Ea) as (x & Hx & Hr). apply Lb in Hx as (Hk & _ & Hf & Hp).
      assert (open_build s2 ⊂ open_build s) as Hs.
      { split; [done|]. intros H'. assert (x ∈ open_build s2) as Hx;
          [|apply elem_of_open_build in Hx as [_ Hx]; apply Hx; by apply (g_build _ _ G2)].
        apply H', elem_of_open_build. split; [done|]. intros [|]; done. }
      apply subset_size in Hs. apply subseteq_size in Sr. lia.
Qed.

(** ** The resolution theorems *)

(** The dependencies a file that has not failed can rely on: each is ignored
    or has a provider that has not failed. *)
Definition deps_provided (s : tds) (f : string) : Prop :=
  (∀ l x, dget (depids (tds_td s)) f = Some l → x ∈ l →
     re_match_strings re_compile x (ignored_dependencies (tds_dc s)) = Ok true ∨
     ∃ p, p ∈ providers_in (build_targets (tds_td s)) x ∧ p ∉ failed_fns (tds_td s)) ∧
  (∀ l x, dget (rdepids (tds_td s)) f = Some l → x ∈ l →
     re_match_strings re_compile x (ignored_dependencies (tds_dc s)) = Ok true ∨
     ∃ p, p ∈ providers_in (run_targets (tds_td s)) x ∧ p ∉ failed_fns (tds_td s)).

Lemma resolved_provided s f :
  td_inv None s → all_resolved s → f ∉ failed_fns (tds_td s) → deps_provided s f.
Proof.
  intros HI [Hb Hr] Hf. destruct (inv_deps _ _ HI f ltac:(done)) as [?|[Db Dr]]; [done|].
  split; intros l x Hl Hx.
  - destruct (Db l x Hl Hx) as [Hk Hn]. destruct (Hb x Hk) as [?|[?|Hp]]; [by left|done|right].
    destruct (providers_in (build_targets (tds_td s)) x) as [|p ps] eqn:E; [done|].
    exists p. split; [apply list_elem_of_here|]. intros Hpf.
    destruct (inv_gone _ _ HI p x Hpf) as [Hg _]. apply Hg. rewrite E. apply list_elem_of_here.
  - destruct (Dr l x Hl Hx) as [Hk Hn]. destruct (Hr x Hk) as [?|[?|Hp]]; [by left|done|right].
    destruct (providers_in (run_targets (tds_td s)) x) as [|p ps] eqn:E; [done|].
    exists p. split; [apply list_elem_of_here|]. intros Hpf.
    destruct (inv_gone _ _ HI p x Hpf) as [_ Hg]. apply Hg. rewrite E. apply list_elem_of_here.
Qed.

Lemma add_unresolved_inv fuel s :
  td_inv None s →
  let '(s', r) := add_unresolved cfg re_compile better_exec fuel s in
  td_inv None s' ∧ grows s s' ∧
  (r = Ok tt → td_allowincomplete (tds_td s) = false → all_resolved s').
Proof.
  revert s. induction fuel as [|fuel IH]; intros s HI; cbn [add_unresolved]; [by split|].
  rewrite M_bind_eq. pose proof (unresolved_round_ok s HI) as Hr.
  destruct (unresolved_round cfg re_compile better_exec s) as [s1 [n|e]].
  2:{ destruct Hr as (? & ? & _). by split. }
  destruct Hr as (HI1 & Hg1 & Hz & _). case_bool_decide as En.
  { cbn. split; [done|]. split; [done|]. intros _. by apply Hz. }
  specialize (IH s1 HI1). destruct (add_unresolved cfg re_compile better_exec fuel s1) as [s2 r].
  destruct IH as (HI2 & Hg2 & Hok). split; [done|]. split; [by etrans|].
  intros Hr Ha. apply Hok; [done|]. by rewrite (g_incomplete _ _ (proj1 Hg1)).
Qed.

(** Resolution in a run that goes on after failures ([abort] and
    [allowincomplete] are off) keeps the invariant.  When [add_unresolved]
    returns, every target the task data knows is ignored, failed or provided;
    and everything in the build and run time dependencies of a file that has
    not failed is ignored or has a provider that has not failed either.  (Of
    the dependencies of single tasks this does not hold:
    [late_task_dependency_not_failed].) *)
Theorem add_unresolved_complete fuel s s' :
  td_inv None s → td_allowincomplete (tds_td s) = false →
  add_unresolved cfg re_compile better_exec fuel s = (s', Ok tt) →
  td_inv None s' ∧ all_resolved s' ∧ ∀ f, f ∉ failed_fns (tds_td s') → deps_provided s' f.
Proof.
  intros HI Ha E. pose proof (add_unresolved_inv fuel s HI) as H1. rewrite E in H1.
  destruct H1 as (HI' & _ & Hr). specialize (Hr eq_refl Ha).
  split; [done|]. split; [done|]. intros f. by apply resolved_provided.
Qed.

(** The task data starts within the invariant, and adding a provider keeps it. *)
Lemma init_inv skip ai c : td_inv None (MkTds (init_taskdata false skip ai) c).
Proof.
  split; cbn.
  - split; intros x; apply NoDup_nil_2.
  - by intros f x ?%elem_of_nil.
  - intros f _. right. by split.
  - split; [apply NoDup_nil_2|]. by intros x ?%elem_of_nil.
  - done.
  - split; apply dict_wf_nil.
Qed.

Lemma add_provider_inv item s :
  td_inv None s → td_inv None (add_provider cfg re_compile better_exec item s).1.
Proof.
  intros HI. unfold add_provider, catch. rewrite M_bind_eq.
  pose proof (add_provider_internal_spec item s HI) as Hs.
  assert (harmless (mark_external_target item)) as Hm.
  { apply tables_harmless. intros t. unfold mark_external_target. by case_bool_decide. }
  destruct (add_provider_internal cfg re_compile better_exec item s) as [s1 [[]|e]].
  - destruct Hs as (HI1 & _). by apply (td_modify_harmless None _ Hm).
  - destruct Hs as (HI1 & _). destruct (is_NoProvider e); [|done].
    rewrite get_bind, (inv_abort _ _ HI1).
    destruct (on_td_fail_buildtarget s1 item HI1) as (t' & -> & _ & _ & HI2 & _).
    by apply (td_modify_harmless None _ Hm).
Qed.
End resolution.

(** ** A concrete run *)

#[local] Instance dict_store : DataStore (dict string) := {| ds_getVar d v := Ok (dget d v) |}.
#[local] Instance sample_order : SetOrder string := set_order_elements.

Definition no_regexp : string → option (string → bool) := λ _, None.
Definition no_exec : string → list string → gset string → dict (list string) → string → res (list string) :=
  λ _ l _ _ _, Ok l.

Definition recipe (pn : string) (td : TaskDeps) (deps : list string) : RecipeInfo :=
  MkRecipeInfo pn "" "1.0" "r0" td 0 [] [] [] [] [] deps [] [] [] [] "" "" "" [] [] [] "" [] "" "" "" "".

Definition one_task : TaskDeps := MkTaskDeps ["do_build"] [("do_build", [])] [].

(** [app] needs [lib]; [broken] needs [missing], which nothing provides, and
    so does a task of [late]. *)
Definition small_cache : CacheData :=
  set_bbfile_priority
    (add_sample (add_sample (add_sample (add_sample init_cacheData
      "app.bb" (recipe "app" one_task ["lib"]))
      "lib.bb" (recipe "lib" one_task []))
      "broken.bb" (recipe "broken" one_task ["missing"; "lib"]))
      "late.bb" (recipe "late" (MkTaskDeps ["do_build"] [("do_build", [])]
                                  [("depends", [("do_build", "missing:do_build")])]) []))
    [("app.bb", 5%Z); ("lib.bb", 5%Z); ("broken.bb", 5%Z); ("late.bb", 5%Z)].

Definition run_add (item : string) (s : tds) : tds := (add_provider [] no_regexp no_exec item s).1.

(** [app] and [broken] asked for, in a run that goes on after failures. *)
Definition small_start : tds :=
  run_add "broken" (run_add "app" (MkTds (init_taskdata false [] false) small_cache)).

Definition small_end : tds := (add_unresolved [] no_regexp no_exec 5 small_start).1.

Lemma no_exec_error f l w d pn e : no_exec f l w d pn = Raise e → other_error e.
Proof. done. Qed.

Lemma small_start_inv : td_inv None small_start.
Proof.
  apply (add_provider_inv [] no_regexp no_exec no_exec_error).
  apply (add_provider_inv [] no_regexp no_exec no_exec_error). apply init_inv.
Qed.

Lemma add_unresolved_complete_witness :
  deps_provided no_regexp small_end "app.bb" ∧ failed_fns (tds_td small_end) = ["broken.bb"].
Proof.
  destruct (add_unresolved_complete [] no_regexp no_exec no_exec_error 5 small_start small_end
    small_start_inv) as (_ & _ & H); [vm_compute; reflexivity|vm_compute; reflexivity|].
  assert (failed_fns (tds_td small_end) = ["broken.bb"]) as Hf by (vm_compute; reflexivity).
  split; [|done]. apply H. rewrite Hf, list_elem_of_singleton. discriminate.
Defined.

Lemma fail_fn_complete_witness :
  ∃ t', fail "lib.bb" (tds_td small_end) = (t', Ok tt) ∧ "lib.bb" ∈ failed_fns t'.
Proof.
  destruct (fail_fn_complete (tds_td small_end) "lib.bb") as [(t' & E & _ & H)|(t' & x & E & Ha & _)].
  - pose proof (add_unresolved_inv [] no_regexp no_exec no_exec_error 5 small_start small_start_inv) as Hi.
    unfold small_end. destruct (add_unresolved _ _ _ 5 small_start) as [s r]. apply Hi.
  - eauto.
  - vm_compute in Ha. discriminate.
Defined.

Lemma remove_buildtarget_complete_witness :
  ∃ t', fail_buildtarget "lib" (tds_td small_end) = (t', Ok tt) ∧ "app.bb" ∈ failed_fns t'.
Proof.
  destruct (remove_buildtarget_complete (tds_td small_end) "lib") as [(t' & E & _ & _ & H)|(t' & x & E & Ha & _)].
  - pose proof (add_unresolved_inv [] no_regexp no_exec no_exec_error 5 small_start small_start_inv) as Hi.
    unfold small_end. destruct (add_unresolved _ _ _ 5 small_start) as [s r]. apply Hi.
  - exists t'. split; [done|]. apply (proj1 H). left. exists ["lib"]. split; [|apply list_elem_of_here].
    apply dget_elem_of. vm_compute. reflexivity.
  - vm_compute in Ha. discriminate.
Defined.

(** A file added after the target failed is not failed through the
    dependencies of its tasks: [add_tasks] looks only at [depids] and
    [rdepids] again. *)
Lemma late_task_dependency_not_failed :
  "missing" ∈ failed_deps (tds_td small_end) ∧
  build_needs (tds_td (run_add "late" small_end)) "missing" "late.bb" ∧
  failed_fns (tds_td (run_add "late" small_end)) = ["broken.bb"].
Proof.
  split; [|split].
  - assert (failed_deps (tds_td small_end) = ["missing"; "broken"]) as -> by (vm_compute; reflexivity).
    apply list_elem_of_here.
  - right. exists "late.bb:do_build", (MkTaskEntry [] [("missing", "do_build")] []), "do_build".
    split; [apply dget_elem_of; vm_compute; reflexivity|]. split; [apply list_elem_of_here|].
    vm_compute. reflexivity.
  - vm_compute. reflexivity.
Qed.
