(* ===== verification/ResolveEnds.v ===== *)
(** * Resolution ends, in every mode (bb/taskdata.py)

    [TaskResolve] is about builds that go on after failures.  Under [abort] a
    failure can raise in the middle of what it marks as failed, and its callers
    go on with what they find; the invariant of [TaskResolve] is lost.  What is
    left of it still bounds the work: files are seen once, and a target that is
    resolved stays so.  So [add_provider] and [add_unresolved] end in all
    modes, and the multiconfig dependencies they collect are those written in
    the recipes. *)

From Stdlib Require Import Ascii String.
From S2P Require Import Prelude.
From S2P Require Import PyStr.
From S2P Require Import PyDict.
From S2P Require Import Runs.
From S2P Require Import Versions.
From S2P Require Import TaskIds.
From S2P Require Import Cache.
From S2P Require Import Providers.
From S2P Require Import TaskData.
From S2P Require Import TaskResolve.

#[local] Arguments providers_in : simpl never.
#[local] Arguments add_target : simpl never.

(** ** Failures, also those that raise *)

(** What a failure does to the task data wherever it stops. *)
Record weakens (t t' : TaskData) : Prop := {
  wk_static : static t' = static t;
  wk_mc : mcdepends t' = mcdepends t;
  wk_bkeys : dkeys (build_targets t') = dkeys (build_targets t);
  wk_rkeys : dkeys (run_targets t') = dkeys (run_targets t);
  wk_bsub : ∀ x, providers_in (build_targets t') x `sublist_of` providers_in (build_targets t) x;
  wk_rsub : ∀ x, providers_in (run_targets t') x `sublist_of` providers_in (run_targets t) x;
  wk_build : ∀ x, resolved_build t x → resolved_build t' x;
  wk_run : ∀ x, resolved_run t x → resolved_run t' x
}.

#[export] Instance weakens_preorder : PreOrder weakens.
Proof.
  split; [by intros t; split|].
  intros t1 t2 t3 [A1 B1 C1 D1 E1 F1 G1 H1] [A2 B2 C2 D2 E2 F2 G2 H2].
  split; try congruence; [intros x; etrans; [apply E2|apply E1]|intros x; etrans; [apply F2|apply F1]|auto|auto].
Qed.

(** [m] weakens what it starts from, after the write [f], or runs out of fuel. *)
Definition weakening (f : TaskData → TaskData) (m : M TaskData unit) : Prop := ∀ t,
  (m t).2 = Raise OutOfFuel ∨ weakens (f t) (m t).1.

Lemma weakening_bind f m k : weakening f m → weakening id k → weakening f (m ≫= λ _, k).
Proof.
  intros Hm Hk t. rewrite M_bind_eq. specialize (Hm t). destruct (m t) as [t1 [[]|e]]; [|done].
  destruct Hm as [?|Hm]; [done|]. destruct (Hk t1) as [?|Hk1]; [by left|right]. by etrans.
Qed.

Lemma weakening_get f (k : TaskData → M TaskData unit) : (∀ s, weakening f (k s)) → weakening f (get ≫= k).
Proof. intros Hk t. rewrite get_bind. apply Hk. Qed.

Lemma weakening_ret : weakening id (mret tt).
Proof. intros t. by right. Qed.

Lemma weakening_raise e : weakening id (raise e).
Proof. intros t. by right. Qed.

Lemma weakening_for_each {A} (l : list A) (f : A → M TaskData unit) :
  (∀ x, weakening id (f x)) → weakening id (for_each l f).
Proof. intros Hf. induction l; cbn [for_each]; [apply weakening_ret|by apply weakening_bind]. Qed.

Lemma weakens_fn t fn : weakens t (set_failed_fns t (failed_fns t ++ [fn])).
Proof. by split. Qed.

(** A target whose last provider goes is resolved again once it is marked. *)
Lemma weakens_remove_build t x f :
  f ∈ providers_in (build_targets t) x →
  let l := list_remove f (providers_in (build_targets t) x) in
  let t1 := set_build_targets t (dset (build_targets t) x l) in
  (l ≠ [] → weakens t t1) ∧ weakens t (set_failed_deps t1 (failed_deps t1 ++ [x])).
Proof.
  intros Hf l t1.
  assert (dmem (build_targets t) x = true) as Hx.
  { unfold providers_in in Hf. unfold dmem. destruct (dget (build_targets t) x); [done|]. by apply elem_of_nil in Hf. }
  assert (∀ y, providers_in (dset (build_targets t) x l) y `sublist_of` providers_in (build_targets t) y) as Hs.
  { intros y. rewrite providers_in_dset. case_decide; subst; [apply list_remove_sublist|done]. }
  assert (dkeys (dset (build_targets t) x l) = dkeys (build_targets t)) as Hk by (by rewrite dkeys_dset, Hx).
  split; [intros Hl|]; split; cbn; try done; unfold resolved_build; cbn.
  - intros y [?|Hy]; [by left|right]. rewrite providers_in_dset. by case_decide.
  - intros y [?|Hy]; rewrite elem_of_app, list_elem_of_singleton; [by left; left|].
    destruct (decide (y = x)); [by left; right|right]. rewrite providers_in_dset. by rewrite decide_False.
Qed.

Lemma weakens_remove_run t x f :
  f ∈ providers_in (run_targets t) x →
  let l := list_remove f (providers_in (run_targets t) x) in
  let t1 := set_run_targets t (dset (run_targets t) x l) in
  (l ≠ [] → weakens t t1) ∧ weakens t (set_failed_rdeps t1 (failed_rdeps t1 ++ [x])).
Proof.
  intros Hf l t1.
  assert (dmem (run_targets t) x = true) as Hx.
  { unfold providers_in in Hf. unfold dmem. destruct (dget (run_targets t) x); [done|]. by apply elem_of_nil in Hf. }
  assert (∀ y, providers_in (dset (run_targets t) x l) y `sublist_of` providers_in (run_targets t) y) as Hs.
  { intros y. rewrite providers_in_dset. case_decide; subst; [apply list_remove_sublist|done]. }
  assert (dkeys (dset (run_targets t) x l) = dkeys (run_targets t)) as Hk by (by rewrite dkeys_dset, Hx).
  split; [intros Hl|]; split; cbn; try done; unfold resolved_run; cbn.
  - intros y [?|Hy]; [by left|right]. rewrite providers_in_dset. by case_decide.
  - intros y [?|Hy]; rewrite elem_of_app, list_elem_of_singleton; [by left; left|].
    destruct (decide (y = x)); [by left; right|right]. rewrite providers_in_dset. by rewrite decide_False.
Qed.

Definition mark_dep (x : string) (t : TaskData) : TaskData := set_failed_deps t (failed_deps t ++ [x]).
Definition mark_rdep (x : string) (t : TaskData) : TaskData := set_failed_rdeps t (failed_rdeps t ++ [x]).

Lemma remove_build_step n fn x :
  weakening (mark_dep x) (remove_buildtarget n x) →
  weakening id (t ← get;
    let l := default [] (dget (build_targets t) x) in
    if bool_decide (fn ∈ l) then
      let l := list_remove fn l in
      _ ← modify (λ t, set_build_targets t (dset (build_targets t) x l));
      if nonempty l then mret tt else remove_buildtarget n x
    else mret tt).
Proof.
  intros Hr t. rewrite get_bind. cbv zeta. fold (providers_in (build_targets t) x).
  case_bool_decide as Hf; [|by right]. rewrite modify_bind.
  destruct (weakens_remove_build t x fn Hf) as [H1 H2].
  destruct (list_remove fn _) as [|y l] eqn:E; cbn [nonempty].
  - destruct (Hr (set_build_targets t (dset (build_targets t) x []))) as [?|Hw]; [by left|right].
    etrans; [exact H2|exact Hw].
  - right. by apply H1.
Qed.

Lemma remove_run_step n fn x :
  weakening (mark_rdep x) (remove_runtarget n x) →
  weakening id (t ← get;
    let l := default [] (dget (run_targets t) x) in
    if bool_decide (fn ∈ l) then
      let l := list_remove fn l in
      _ ← modify (λ t, set_run_targets t (dset (run_targets t) x l));
      if nonempty l then mret tt else remove_runtarget n x
    else mret tt).
Proof.
  intros Hr t. rewrite get_bind. cbv zeta. fold (providers_in (run_targets t) x).
  case_bool_decide as Hf; [|by right]. rewrite modify_bind.
  destruct (weakens_remove_run t x fn Hf) as [H1 H2].
  destruct (list_remove fn _) as [|y l] eqn:E; cbn [nonempty].
  - destruct (Hr (set_run_targets t (dset (run_targets t) x []))) as [?|Hw]; [by left|right].
    etrans; [exact H2|exact Hw].
  - right. by apply H1.
Qed.

Lemma fail_fn_weakening n fn :
  (∀ x, weakening (mark_dep x) (remove_buildtarget n x)) →
  (∀ x, weakening (mark_rdep x) (remove_runtarget n x)) → weakening id (fail_fn (S n) fn).
Proof.
  intros Hb Hr. cbn [fail_fn]. apply weakening_get. intros s. case_bool_decide; [apply weakening_ret|].
  apply weakening_bind; [intros t; right; apply weakens_fn|].
  apply weakening_get. intros _s. apply weakening_bind.
  - apply weakening_for_each. intros x. by apply remove_build_step.
  - apply weakening_get. intros _s'. apply weakening_for_each. intros x. by apply remove_run_step.
Qed.

(** The loops over the tasks that need a target. *)
Lemma fail_tasks_weakening n (deps_of : TaskEntry → list (string * string)) target l :
  (∀ fn, weakening id (fail_fn n fn)) →
  weakening id (for_each l (λ '(tid, te), for_each (deps_of te) (λ '(idepend, _),
    if bool_decide (idepend = target) then fail_fn n (fn_from_tid tid) else mret tt))).
Proof.
  intros Hf. apply weakening_for_each. intros [tid te]. apply weakening_for_each. intros [x tk].
  case_bool_decide; [done|apply weakening_ret].
Qed.

Lemma failing_weakening n :
  (∀ fn, weakening id (fail_fn n fn)) ∧ (∀ x, weakening (mark_dep x) (remove_buildtarget n x)) ∧
  (∀ x, weakening (mark_rdep x) (remove_runtarget n x)).
Proof.
  induction n as [|n (IHf & IHb & IHr)]; [by split; [|split]; intros ? t; left|].
  split; [intros fn; by apply fail_fn_weakening|]. split; intros x.
  - cbn [remove_buildtarget]. apply weakening_bind; [intros t; by right|].
    apply weakening_get. intros s. apply weakening_bind; [by apply weakening_for_each|].
    apply weakening_get. intros s1. apply weakening_bind; [by apply (fail_tasks_weakening n idepends)|].
    apply weakening_get. intros s2. case_match; [apply weakening_raise|apply weakening_ret].
  - cbn [remove_runtarget]. apply weakening_bind; [intros t; by right|].
    apply weakening_get. intros s. apply weakening_bind; [by apply weakening_for_each|].
    apply weakening_get. intros s1. by apply (fail_tasks_weakening n irdepends).
Qed.

Lemma failing_fueled t x : lists_ok t →
  fueled (fail x t).2 ∧ fueled (fail_buildtarget x t).2 ∧ fueled (fail_runtarget x t).2.
Proof.
  intros Hl. destruct (failing_ok (reachable_fns t) (static t) (fail_fuel t)) as (Hf & Hb & Hr).
  specialize (Hf (List.length (reachable_fns t)) x ltac:(right; unfold fail_fuel; lia) t (fail_inv_start t Hl)).
  specialize (Hb (List.length (reachable_fns t)) x ltac:(unfold fail_fuel; lia) t (fail_inv_start t Hl)).
  specialize (Hr (List.length (reachable_fns t)) x ltac:(unfold fail_fuel; lia) t (fail_inv_start t Hl)).
  unfold fail, fail_buildtarget, fail_runtarget, fueled.
  destruct (fail_fn _ _ t) as [? [[]|e1]], (remove_buildtarget _ _ t) as [? [[]|e2]],
    (remove_runtarget _ _ t) as [? [[]|e3]]; cbn in *; split; try done; try (split; try done);
  intros [= ->]; try (destruct Hf as (? & ? & _)); try (destruct Hb as (? & ? & _));
    try (destruct Hr as (? & ? & _)); congruence.
Qed.

(** ** What holds in every mode *)

(** The words of the flags [mcdepends] of all tasks. *)
Definition mcdep_words (c : CacheData) : list string :=
  List.concat (List.map (λ kv : string * TaskDeps, List.concat (List.map (λ tv, split_ws tv.2)
    (default [] (dget (td_flags kv.2) "mcdepends")))) (task_deps c)).

Lemma elem_of_mcdep_words c fn td task v w :
  dget (task_deps c) fn = Some td → task_flag td "mcdepends" task = Some v → w ∈ split_ws v →
  w ∈ mcdep_words c.
Proof.
  intros Htd Hv Hw. unfold mcdep_words. apply elem_of_concat. eexists.
  split; [apply elem_of_map; exists (fn, td); split; [done|by apply dget_elem_of]|].
  unfold task_flag in Hv. cbn [fst snd]. destruct (dget (td_flags td) "mcdepends") as [d|]; [|done].
  apply elem_of_concat. eexists. split; [apply elem_of_map; exists (task, v); split; [done|]|done].
  by apply dget_elem_of.
Qed.

Record sound (s : tds) : Prop := {
  so_lists : lists_ok (tds_td s);
  so_seenfns : NoDup (seenfns (tds_td s)) ∧ seenfns (tds_td s) ⊆ dkeys (task_deps (tds_dc s));
  so_wf : dict_wf (build_targets (tds_td s)) ∧ dict_wf (run_targets (tds_td s));
  so_words : mcdepends (tds_td s) ⊆ mcdep_words (tds_dc s)
}.

Definition no_fuel (e : exn) : Prop := e ≠ OutOfFuel.

Lemma sound_init abort skip ai c : sound (MkTds (init_taskdata abort skip ai) c).
Proof.
  split; cbn; [split; intros x; apply NoDup_nil_2|split; [apply NoDup_nil_2|]|split; apply dict_wf_nil|];
    by intros x ?%elem_of_nil.
Qed.

Lemma mcdep_words_deps c c' : task_deps c' = task_deps c → mcdep_words c' = mcdep_words c.
Proof. unfold mcdep_words. by intros ->. Qed.

(** The cache changes, but not the tasks in it. *)
Lemma sound_dc t c c' :
  sound (MkTds t c) → task_deps c' = task_deps c → ignored_dependencies c' = ignored_dependencies c →
  sound (MkTds t c') ∧ grows (MkTds t c) (MkTds t c').
Proof.
  intros [Hl Hs Hw Hm] E1 E2. split.
  - split; cbn in *; [done|by rewrite E1|done|]. by rewrite (mcdep_words_deps c c').
  - split; [by split|]. intros _. split; by left.
Qed.

Lemma weakens_sound t t' c :
  weakens t t' → sound (MkTds t c) → sound (MkTds t' c) ∧ grows (MkTds t c) (MkTds t' c).
Proof.
  intros [E Em Kb Kr Sb Sr Rb Rr] [[Lb Lr] Hs Hw Hm]. unfold static in E.
  injection E as E1 E2 E3 E4 E5 E6 E7. cbn in *. split.
  - split; cbn.
    + split; intros x; [eapply sublist_NoDup; [apply Lb|apply Sb]|eapply sublist_NoDup; [apply Lr|apply Sr]].
    + by rewrite E5.
    + unfold dict_wf. change (NoDup (dkeys (build_targets t')) ∧ NoDup (dkeys (run_targets t'))).
      by rewrite Kb, Kr.
    + by rewrite Em.
  - split; [split; cbn; try done; by rewrite E5|]. intros _. split; cbn; intros x; [rewrite Kb|rewrite Kr]; by left.
Qed.

(** A failure, in any mode. *)
Lemma on_td_failing f m s : (∀ t, lists_ok t → fueled (m t).2) → weakening f m → weakens (tds_td s) (f (tds_td s)) →
  sound s → runs sound sound grows no_fuel s (on_td m) (λ _ s', weakens (f (tds_td s)) (tds_td s')).
Proof.
  destruct s as [t c]. intros Hm Hw Hf HI. unfold on_td, runs. cbn [tds_td tds_dc] in *.
  specialize (Hm t (so_lists _ HI)). specialize (Hw t).
  destruct (m t) as [t' r]. cbn in *. destruct Hw as [->|Hw]; [by destruct (Hm eq_refl)|].
  destruct (weakens_sound t t' c) as [H1 H2]; [by etrans|done|]. split; [done|].
  destruct r; [done|]. split; [done|]. intros ->. by apply Hm.
Qed.

Lemma weakens_mark_dep x t : weakens t (mark_dep x t).
Proof. split; cbn; try done. intros y [?|?]; [left; cbn; set_solver|by right]. Qed.

Lemma weakens_mark_rdep x t : weakens t (mark_rdep x t).
Proof. split; cbn; try done. intros y [?|?]; [left; cbn; set_solver|by right]. Qed.

Lemma fail_always fn : always sound grows no_fuel (on_td (fail fn)).
Proof.
  intros s HI. destruct (on_td_failing id (fail fn) s) as [H1 H2]; [intros; by apply failing_fueled| |done|done|].
  - intros t. exact (proj1 (failing_weakening (fail_fuel t)) fn t).
  - destruct (on_td _ s) as [s' [a|e]]; cbn in *; [by destruct H2|by destruct H2].
Qed.

Lemma fail_buildtarget_sound x s : sound s →
  runs sound sound grows no_fuel s (on_td (fail_buildtarget x)) (λ _ s', resolved_build (tds_td s') x).
Proof.
  intros HI. destruct (on_td_failing (mark_dep x) (fail_buildtarget x) s) as [H1 H2];
    [intros; by apply failing_fueled| |apply weakens_mark_dep|done|].
  - intros t. exact (proj1 (proj2 (failing_weakening (fail_fuel t))) x t).
  - split; [done|]. destruct (on_td _ s) as [s' [a|e]]; cbn in *; [|done]. destruct H2 as [? H2]. split; [done|].
    apply (wk_build _ _ H2). left. cbn. set_solver.
Qed.

Lemma fail_runtarget_sound x s : sound s →
  runs sound sound grows no_fuel s (on_td (fail_runtarget x)) (λ _ s', resolved_run (tds_td s') x).
Proof.
  intros HI. destruct (on_td_failing (mark_rdep x) (fail_runtarget x) s) as [H1 H2];
    [intros; by apply failing_fueled| |apply weakens_mark_rdep|done|].
  - intros t. exact (proj2 (proj2 (failing_weakening (fail_fuel t))) x t).
  - split; [done|]. destruct (on_td _ s) as [s' [a|e]]; cbn in *; [|done]. destruct H2 as [? H2]. split; [done|].
    apply (wk_run _ _ H2). left. cbn. set_solver.
Qed.

(** ** Writes *)

Definition calm (f : TaskData → TaskData) : Prop := ∀ t c,
  sound (MkTds t c) → sound (MkTds (f t) c) ∧ grows0 (MkTds t c) (MkTds (f t) c).

Lemma td_modify_calm f : calm f → always sound grows0 no_fuel (td_modify f).
Proof. intros Hf [t c] HI. cbn. by destruct (Hf t c HI). Qed.

Lemma tables_calm f :
  (∀ t, build_targets (f t) = build_targets t ∧ run_targets (f t) = run_targets t ∧
    failed_deps (f t) = failed_deps t ∧ failed_rdeps (f t) = failed_rdeps t ∧
    seenfns (f t) = seenfns t ∧ td_allowincomplete (f t) = td_allowincomplete t ∧
    mcdepends (f t) = mcdepends t) → calm f.
Proof.
  intros H t c [[Lb Lr] Hs Hw Hm]. destruct (H t) as (E1 & E2 & E3 & E4 & E5 & E6 & E7). cbn in *. split.
  - split; cbn; [split; intros x|..]; by rewrite ?E1, ?E2, ?E5, ?E7.
  - split; cbn; try done; [by rewrite E5| |].
    + intros x. unfold resolved_build. by rewrite E1, E3.
    + intros x. unfold resolved_run. by rewrite E2, E4.
Qed.

Lemma seen_build_target_calm x : calm (seen_build_target x).
Proof.
  intros t c [[Lb Lr] Hs Hw Hm]. destruct (seen_build_target_fields x t) as (Hp & _ & E). cbn in *. split.
  - split; cbn; [split; intros y; [rewrite Hp; apply Lb|rewrite E; apply Lr]|by rewrite E| |by rewrite E].
    split; [|rewrite E; apply Hw]. unfold seen_build_target. case_match; [apply Hw|apply dset_wf, Hw].
  - split; cbn; try done; [by rewrite E|intros y; unfold resolved_build; by rewrite Hp, E
      |intros y; unfold resolved_run; by rewrite E|by rewrite E].
Qed.

Lemma seen_run_target_calm x : calm (seen_run_target x).
Proof.
  intros t c [[Lb Lr] Hs Hw Hm]. destruct (seen_run_target_fields x t) as (Hp & _ & E). cbn in *. split.
  - split; cbn; [split; intros y; [rewrite E; apply Lb|rewrite Hp; apply Lr]|by rewrite E| |by rewrite E].
    split; [rewrite E; apply Hw|]. unfold seen_run_target. case_match; [apply Hw|apply dset_wf, Hw].
  - split; cbn; try done; [by rewrite E|intros y; unfold resolved_build; by rewrite E
      |intros y; unfold resolved_run; by rewrite Hp, E|by rewrite E].
Qed.

Lemma always_grows0 {A} (m : M tds A) : always sound grows no_fuel m → always sound grows0 no_fuel m.
Proof. intros Hm s HI. destruct (Hm s HI) as (? & [? _] & ?). done. Qed.

Lemma touch_deps_always fn seen failed l :
  (∀ x, calm (seen x)) → always sound grows0 no_fuel (touch_deps fn seen failed l).
Proof.
  intros Hs. induction l as [|x l IH]; cbn [touch_deps]; [apply always_ret, _|].
  apply always_bind; [apply _|by apply td_modify_calm|]. intros _.
  apply always_bind; [apply _|apply always_get, _|]. intros s. case_bool_decide; [|done].
  apply always_bind; [apply _|apply always_grows0, fail_always|]. intros _. apply always_ret, _.
Qed.

(** With the tasks of one file at hand. *)
Definition sound_of (fn : string) (td : TaskDeps) (s : tds) : Prop :=
  sound s ∧ dget (task_deps (tds_dc s)) fn = Some td.

Lemma always_sound_of fn td {A} (m : M tds A) :
  always sound grows0 no_fuel m → always (sound_of fn td) grows0 no_fuel m.
Proof.
  intros Hm s [HI Ht]. destruct (Hm s HI) as (H1 & H2 & H3). split; [|done].
  split; [done|]. by rewrite (g_tasks _ _ H2).
Qed.

Lemma add_mcdepends_always fn td task : always (sound_of fn td) grows0 no_fuel (add_mcdepends td task).
Proof.
  unfold add_mcdepends. destruct (task_flag td "mcdepends" task) as [v|] eqn:Ev; [|apply always_ret, _].
  apply always_for_each; [apply _|]. intros w Hw. case_bool_decide; [|by apply always_raise; [apply _|]].
  intros [t c] [[Hl Hs Hwf Hm] Ht]. cbn in *. split; [|split; [|done]].
  - split; [|done]. split; cbn; [by case_bool_decide..|]. case_bool_decide; [done|]. cbn.
    intros y. rewrite elem_of_app, list_elem_of_singleton. intros [?| ->]; [by apply Hm|].
    by eapply elem_of_mcdep_words.
  - split; cbn; try done; by case_bool_decide.
Qed.

Lemma split_dep_fueled dep : fueled (split_dep dep).
Proof. unfold split_dep. repeat case_match; done. Qed.

Lemma handle_deps_calm td flag task seen :
  (∀ x, calm (seen x)) → always sound grows0 no_fuel (handle_deps td flag task seen).
Proof.
  intros Hs. unfold handle_deps. destruct (task_flag _ _ _); [|apply always_ret, _].
  apply always_bind; [apply _| |intros; apply always_ret, _].
  apply always_for_each; [apply _|]. intros dep _.
  apply always_bind; [apply _|apply always_lift; [apply _|]|].
  - intros e E ->. by apply (split_dep_fueled dep).
  - intros [p tk]. by apply td_modify_calm.
Qed.

Lemma lookup_no_fuel {A} (o : option A) e e' : e ≠ OutOfFuel → of_option e o = Raise e' → no_fuel e'.
Proof. destruct o; [done|]. by intros ? [= <-]. Qed.

Lemma add_task_sound fn td task : always (sound_of fn td) grows0 no_fuel (add_task fn td task).
Proof.
  unfold add_task. cbv zeta.
  apply always_bind; [apply _|by apply always_sound_of, td_modify_calm, tables_calm|intros _].
  apply always_bind; [apply _|apply always_lift; [apply _|]; intros ?; by apply lookup_no_fuel|intros parents].
  apply always_bind; [apply _|by apply always_sound_of, td_modify_calm, tables_calm|intros _].
  apply always_bind; [apply _|by apply always_sound_of, handle_deps_calm, seen_build_target_calm|intros ids].
  apply always_bind; [apply _|by apply always_sound_of, td_modify_calm, tables_calm|intros _].
  apply always_bind; [apply _|by apply always_sound_of, handle_deps_calm, seen_run_target_calm|intros rids].
  apply always_bind; [apply _|by apply always_sound_of, td_modify_calm, tables_calm|intros _].
  apply add_mcdepends_always.
Qed.

(** ** What only reads *)

Lemma buildWorldTargetList_fueled c task : fueled (buildWorldTargetList c task).
Proof.
  unfold buildWorldTargetList. case_bool_decide; [done|]. apply fueled_fold. intros c' f _.
  assert (∀ pn l, fueled (only_provider c' pn l)) as Ho.
  { intros pn l. induction l; cbn [only_provider]; fueled. }
  assert (∀ pn l t, fueled (world_terminal c' pn t l)) as Hw.
  { intros pn l. induction l; intros t; cbn [world_terminal]; fueled. }
  unfold world_step. fueled.
Qed.

Lemma rest_of_line_length s r : rest_of_line s = Some r → String.length r ≤ String.length s.
Proof.
  revert r. induction s as [|a s IH]; intros r; cbn [rest_of_line]; [by intros [= <-]|].
  case_match; [case_match; [by intros [= <-]; cbn; lia|done]|].
  destruct (rest_of_line s) as [r'|]; [|done]. intros [= <-]. cbn. specialize (IH r' eq_refl). lia.
Qed.

Lemma explode_version_go_fueled fuel r s : String.length s ≤ fuel → fueled (explode_version_go fuel r s).
Proof.
  revert r s. induction fuel as [|fuel IH]; intros r s Hl; cbn [explode_version_go].
  { destruct s; cbn in Hl; [done|lia]. }
  destruct s as [|a s]; [done|]. cbn [String.length] in Hl.
  assert (∀ p l rest s', p a = true → span p (String a s) = (l, rest) → rest_of_line rest = Some s' →
    String.length s' ≤ fuel) as Hs.
  { intros p l rest s' Hp E Er. apply rest_of_line_length in Er. pose proof (span_length _ _ _ _ E) as Hlen.
    cbn in E. rewrite Hp in E. destruct (span p s). injection E as <- <-. cbn in Hlen. lia. }
  destruct (is_digit a) eqn:Hd; [|destruct (is_letter a) eqn:Hlt].
  - destruct (span is_digit (String a s)) as [l rest] eqn:E. destruct (rest_of_line rest) eqn:Er; [|done].
    by eapply IH, Hs.
  - destruct (span is_letter (String a s)) as [l rest] eqn:E. destruct (rest_of_line rest) eqn:Er; [|done].
    by eapply IH, Hs.
  - case_match; apply IH; lia.
Qed.

Lemma vercmp_part_fueled a b : fueled (vercmp_part a b).
Proof.
  assert (∀ s, fueled (explode_version s)) as He by (intros; by apply explode_version_go_fueled).
  pose proof (He a) as Ha. pose proof (He b) as Hb. unfold fueled in *.
  destruct (explode_version a) as [va|ea] eqn:Ea; [|unfold vercmp_part; rewrite Ea; cbn; congruence].
  destruct (explode_version b) as [vb|eb] eqn:Eb; [|unfold vercmp_part; rewrite Ea, Eb; cbn; congruence].
  by rewrite (vercmp_part_spec _ _ _ _ Ea Eb).
Qed.

Lemma vercmp_fueled a b : fueled (vercmp a b).
Proof.
  destruct a as [[ea va] ra], b as [[eb vb] rb]. unfold vercmp.
  assert (∀ s, fueled (py_int s)) as Hi.
  { intros s. unfold py_int. fueled. }
  assert (∀ e, fueled (epoch_int e)) as He by (intros []; cbn [epoch_int]; fueled).
  pose proof vercmp_part_fueled. fueled.
Qed.

Section ends.
Context {D : Type} `{DataStore D} `{!SetOrder string} (cfg : D).
Context (re_compile : string → option (string → bool)).
Context (better_exec : string → list string → gset string → dict (list string) → string →
                       res (list string)).
(** Reading variables and running the code of recipes end. *)
Hypothesis cfg_fueled : ∀ v, fueled (ds_getVar cfg v).
Hypothesis exec_fueled : ∀ f l w d pn, fueled (better_exec f l w d pn).

#[local] Hint Resolve cfg_fueled : fueled.

Lemma re_match_strings_fueled x l : fueled (re_match_strings re_compile x l).
Proof. induction l; cbn [re_match_strings]; fueled. Qed.

Lemma getRuntimeProviders_fueled c x : fueled (getRuntimeProviders re_compile c x).
Proof.
  unfold getRuntimeProviders. cbv zeta. case_match; [|fueled].
  generalize (dkeys (packages_dynamic c)) as l. intros l. generalize (@nil string).
  induction l; intros acc; cbn [dynamic_providers]; cbv zeta; fueled.
Qed.

Lemma sortPriorities_fueled pn c arg : fueled (sortPriorities pn c arg).
Proof. unfold sortPriorities, files_of, collect_priorities. fueled. Qed.

Lemma first_preferred_fueled c e v r l : fueled (first_preferred c e v r l).
Proof. induction l; cbn [first_preferred]; fueled. Qed.

Lemma findPreferredProvider_fueled pn c sets : fueled (findPreferredProvider pn cfg c sets).
Proof.
  assert (∀ e v r acc l, fueled (first_preferred_set c e v r acc l)) as Hs.
  { intros e v r acc l. revert acc. pose proof (first_preferred_fueled c e v r).
    induction l; intros acc; cbn [first_preferred_set]; cbv zeta; fueled. }
  unfold findPreferredProvider, preferred_version_var. fueled.
Qed.

Lemma findLatestProvider_fueled c l : fueled (findLatestProvider c l).
Proof. pose proof vercmp_fueled. unfold findLatestProvider, latest_step. fueled. Qed.

Lemma find_pn_fueled c pn l : fueled (find_pn c pn l).
Proof. induction l; cbn [find_pn]; fueled. Qed.

#[local] Hint Resolve re_match_strings_fueled getRuntimeProviders_fueled sortPriorities_fueled
  findPreferredProvider_fueled findLatestProvider_fueled find_pn_fueled : fueled.

Lemma _filterProviders_fueled provs item c : fueled (_filterProviders provs item cfg c).
Proof.
  unfold _filterProviders, collate_by_pn, add_preferred, add_latest, prefer_own_name. cbv zeta. fueled.
Qed.
#[local] Hint Resolve _filterProviders_fueled : fueled.

Lemma filterProviders_fueled provs item c : fueled (filterProviders item cfg (provs, c)).2.
Proof.
  unfold filterProviders. rewrite get_bind, modify_bind, lift_bind. cbn [fst snd].
  pose proof (_filterProviders_fueled provs item c) as Hf. destruct (_filterProviders provs item cfg c) as [[ps el]|e];
    [|by intros [= ->]].
  rewrite lift_bind. pose proof (cfg_fueled ("PREFERRED_PROVIDER_" +s+ item)) as Hv.
  destruct (ds_getVar cfg _) as [v|e]; [|by intros [= ->]].
  rewrite M_bind_eq.
  assert (∃ s', (match v with
    | Some (String _ _ as v) => modify (λ s : list string * CacheData, (s.1, set_preferred s.2 (dset (preferred s.2) item v)))
    | _ => mret tt end) (py_sorted provs, c) = (s', Ok tt)) as [[ps' c'] ->] by (destruct v as [[|??]|]; by eexists).
  rewrite get_bind. cbn [fst snd]. destruct (dget (preferred c') item) as [pn|]; [|done].
  rewrite lift_bind. destruct el as [l|]; [|done]. cbn [of_option]. rewrite lift_bind.
  pose proof (find_pn_fueled c' pn l) as Hp. destruct (find_pn c' pn l) as [[p|]|e]; [done..|]. by intros [= ->].
Qed.

Lemma rt_provides_length pns l st st' :
  rt_provides cfg pns l st = Ok st' → List.length (rt_loop st') ≤ List.length (rt_loop st).
Proof.
  induction l as [|x l IH]; cbn [rt_provides]; [by intros [= <-]|].
  destruct (ds_getVar cfg _) as [v|]; [|done]. cbn [mbind res_bind].
  destruct (v ≫= dget pns); [|done]. case_bool_decide; [|done]. intros [= <-]. cbn.
  unfold rt_current. destruct (rt_eligible st); cbn; [done|]. pose proof (list_remove_length s (rt_loop st)). lia.
Qed.

Lemma rt_scan_fueled c pns fuel i st :
  List.length (rt_loop st) - i < fuel → fueled (rt_scan cfg c pns fuel i st).
Proof.
  assert (∀ l st, fueled (rt_provides cfg pns l st)) as Hp.
  { intros l. induction l; intros st'; cbn [rt_provides]; fueled. }
  revert i st. induction fuel as [|fuel IH]; intros i st Hf; cbn [rt_scan]; [lia|].
  destruct (rt_loop st !! i) as [p|] eqn:E; [|done]. apply lookup_lt_Some in E.
  apply fueled_bind; [fueled|]. intros pn _. apply fueled_bind; [apply Hp|]. intros st' Hst.
  apply IH. apply rt_provides_length in Hst. lia.
Qed.

Lemma filterProvidersRunTime_fueled provs item c : fueled (filterProvidersRunTime provs item cfg c).
Proof.
  unfold filterProvidersRunTime, eligible_pns. fueled. apply rt_scan_fueled. cbn. lia.
Qed.
#[local] Hint Resolve filterProvidersRunTime_fueled : fueled.

(** ** The operations *)

Abbreviation sound_run := (runs sound sound grows no_fuel).

Lemma always_run {A} (m : M tds A) s : always sound grows no_fuel m → sound s → sound_run s m (λ _ _, True).
Proof.
  intros Hm HI. destruct (Hm s HI) as (H1 & H2 & H3). split; [done|].
  destruct (m s) as [s' [a|e]]; done.
Qed.

Lemma add_extra_deps_sound fn : always sound grows0 no_fuel (add_extra_deps better_exec fn).
Proof.
  intros [t c] HI. unfold add_extra_deps. rewrite get_bind. cbn [tds_dc].
  destruct (dget (extradepsfunc c) fn) as [[|a func]|]; [by split| |by split].
  rewrite lift_bind. pose proof (buildWorldTargetList_fueled c None) as Hf.
  destruct (buildWorldTargetList c None) as [c1|e] eqn:E1.
  2:{ split; [done|]. split; [done|]. intros ->. by apply Hf. }
  apply buildWorldTargetList_keeps in E1. rewrite M_bind_eq. cbn [dc_modify modify tds_td].
  destruct (sound_dc t c c1 HI) as [HI1 [Hg1 _]]; [by rewrite E1..|].
  rewrite lift_bind. destruct (dget (pkg_fn c1) fn) as [pn|]; cbn [of_option]; [|done].
  rewrite lift_bind. pose proof (exec_fueled (String a func) (default [] (dget (deps c1) fn)) (world_target c1) (pkg_pn c1) pn) as He.
  destruct (better_exec _ _ _ _ _) as [l|e]; [|split; [done|]; split; [done|]; intros ->; by apply He].
  cbn. destruct (sound_dc t c1 (set_deps c1 (dset (deps c1) fn l)) HI1) as [HI2 [Hg2 _]]; [done..|].
  split; [done|]. split; [by etrans|done].
Qed.

Lemma add_deps_sound fn : always sound grows0 no_fuel (add_deps fn).
Proof.
  unfold add_deps. apply always_bind; [apply _|apply always_get, _|]. intros s. cbv zeta.
  apply always_bind; [apply _|apply td_modify_calm, tables_calm; intros t; by case_match|]. intros _.
  apply always_bind; [apply _|apply td_modify_calm, tables_calm; intros t; by case_match|]. intros _.
  apply always_bind; [apply _|apply always_get, _|]. intros s'.
  apply always_bind; [apply _|apply touch_deps_always, seen_build_target_calm|]. intros [].
  - apply always_ret, _.
  - apply always_bind; [apply _|apply touch_deps_always, seen_run_target_calm|]. intros _. apply always_ret, _.
Qed.

Lemma add_tasks_sound fn : always sound grows no_fuel (add_tasks better_exec fn).
Proof.
  intros [t c] HI. unfold add_tasks. rewrite get_bind, lift_bind. cbn [tds_td tds_dc].
  destruct (dget (task_deps c) fn) as [td|] eqn:Etd; cbn [of_option]; [|by split].
  case_bool_decide as Hfail; [by split|]. case_bool_decide as Hseen; [by split|].
  rewrite M_bind_eq. cbn [td_modify on_td modify tds_td tds_dc].
  set (s1 := MkTds (set_seenfns t (seenfns t ++ [fn])) c).
  assert (sound_of fn td s1 ∧ grows0 (MkTds t c) s1) as [HI1 Hg1].
  { split; [split; [|done]|].
    - destruct HI as [Hl [Hnd Hs] Hw Hm]. split; try done. cbn in *. split.
      + apply NoDup_app. split; [done|]. split; [|apply NoDup_singleton].
        intros x Hx ->%list_elem_of_singleton. done.
      + intros x. rewrite elem_of_app, list_elem_of_singleton. intros [?| ->]; [by apply Hs|].
        apply elem_of_dkeys. by eexists.
    - split; cbn; try done. by apply prefix_app_r. }
  match goal with |- context [?m s1] => assert (always (sound_of fn td) grows0 no_fuel m) as Hm end.
  { apply always_bind; [apply _|apply always_sound_of, add_extra_deps_sound|]. intros _.
    apply always_bind; [apply _|apply always_for_each; [apply _|]; intros; apply add_task_sound|]. intros _.
    apply (always_sound_of fn td (add_deps fn)), add_deps_sound. }
  destruct (Hm s1 HI1) as ([H1 _] & Hg & He). split; [done|]. split; [|done]. split; [by etrans|].
  intros E. exfalso. pose proof (prefix_length _ _ (g_seenfns _ _ Hg)) as Hlen.
  cbn [tds_td seenfns s1 set_seenfns] in Hlen, E. rewrite E, length_app in Hlen. cbn in Hlen. lia.
Qed.

(** What adding a provider is for. *)
Record resolves (resolved : TaskData → Prop) (add : string → TaskData → TaskData) : Prop := {
  rs_step : ∀ fn t c, sound (MkTds t c) →
    sound (MkTds (add fn t) c) ∧ grows (MkTds t c) (MkTds (add fn t) c) ∧ resolved (add fn t);
  rs_mono : ∀ s s', grows s s' → resolved (tds_td s) → resolved (tds_td s')
}.

Lemma add_target_resolves d fn item : providers_in (add_target d fn item) item ≠ [] ∧
  (∀ x, providers_in d x ≠ [] → providers_in (add_target d fn item) x ≠ []) ∧
  ((∀ x, NoDup (providers_in d x)) → ∀ x, NoDup (providers_in (add_target d fn item) x)) ∧
  ∀ x, x ∈ dkeys (add_target d fn item) → x = item ∨ x ∈ dkeys d.
Proof.
  split; [|split; [|split]].
  - rewrite providers_in_add. destruct (decide (_ ∧ _)) as [Hd|Hd]; [apply snoc_ne|]. intros E. apply Hd.
    split; [done|]. rewrite E. apply not_elem_of_nil.
  - intros x Hx. rewrite providers_in_add. destruct (decide (_ ∧ _)); [apply snoc_ne|done].
  - intros Hd x. rewrite providers_in_add. destruct (decide (_ ∧ _)) as [Hd'|Hd']; [|apply Hd].
    apply NoDup_app. split; [apply Hd|]. split; [|apply NoDup_singleton].
    intros y Hy ->%list_elem_of_singleton. by apply Hd'.
  - intros x. unfold add_target. destruct (dget d item); [case_bool_decide; [by right|]|];
      rewrite elem_of_dkeys_dset; tauto.
Qed.

Lemma add_build_target_resolves item : resolves (λ t, resolved_build t item) (λ fn, add_build_target fn item).
Proof.
  split; [|intros ???; by apply grows_resolved_build]. intros fn t c [[Lb Lr] Hs [Wb Wr] Hm].
  destruct (add_target_resolves (build_targets t) fn item) as (H1 & H2 & H3 & H4). cbn in *.
  split; [split; cbn; [split; intros x; [by apply H3|apply Lr]|done|split; [by apply add_target_wf|done]|done]|].
  split; [|by right]. split; [split; try done; intros x [?|?]; [by left|right; by apply H2]|].
  intros _. split; cbn; [|by left]. intros x [->|?]%H4; [right; by right|by left].
Qed.

Lemma add_runtime_target_resolves item : resolves (λ t, resolved_run t item) (λ fn, add_runtime_target fn item).
Proof.
  split; [|intros ???; by apply grows_resolved_run]. intros fn t c [[Lb Lr] Hs [Wb Wr] Hm].
  destruct (add_target_resolves (run_targets t) fn item) as (H1 & H2 & H3 & H4). cbn in *.
  split; [split; cbn; [split; intros x; [apply Lb|by apply H3]|done|split; [done|by apply add_target_wf]|done]|].
  split; [|by right]. split; [split; try done; intros x [?|?]; [by left|right; by apply H2]|].
  intros _. split; cbn; [by left|]. intros x [->|?]%H4; [right; by right|by left].
Qed.

Lemma add_eligible_sound resolved add eligible s :
  resolves resolved add → sound s → (∃ fn l, eligible = fn :: l ∧ fn ∉ failed_fns (tds_td s)) →
  sound_run s (add_eligible better_exec add eligible) (λ _ s', resolved (tds_td s')).
Proof.
  intros [Hadd Hmono] HI (fn & l & -> & Hf).
  assert (∀ fn, always sound grows no_fuel
    (s ← get; if bool_decide (fn ∈ failed_fns (tds_td s)) then mret tt
              else _ ← td_modify (add fn); add_tasks better_exec fn)) as Hone.
  { intros f. apply always_bind; [apply _|apply always_get, _|]. intros s1. case_bool_decide; [apply always_ret, _|].
    apply always_bind; [apply _| |intros _; apply add_tasks_sound].
    intros [t c] HI1. cbn. by destruct (Hadd f t c HI1) as (? & ? & _). }
  unfold add_eligible. cbn [for_each]. eapply (runs_bind _ _ _ _ s _ _ (λ _ s', resolved (tds_td s'))).
  - apply (runs_get _ _ _ _). rewrite bool_decide_eq_false_2 by done.
    destruct s as [t c]. destruct (Hadd fn t c HI) as (H1 & H2 & H3).
    eapply (runs_bind _ _ _ _ _ _ _ (λ _ s', resolved (tds_td s'))); [by split|].
    intros [] s' HI' _ Hr. eapply runs_mono; [apply always_run; [apply add_tasks_sound|done]|].
    intros _ s2 _ Hg _. by eapply Hmono.
  - intros _ s' HI' _ Hr. eapply runs_mono; [apply always_run; [|done]|].
    + apply always_for_each; [apply _|]. intros x _. apply Hone.
    + intros _ s2 _ Hg _. by eapply Hmono.
Qed.

Lemma known_names_sound l c : always sound grows no_fuel
  (for_each l (λ fn : string, _ ← lift (of_option KeyError (dget (pkg_fn c) fn)); mret tt)).
Proof.
  apply always_for_each; [apply _|]. intros fn _. apply always_bind; [apply _| |intros; apply always_ret, _].
  apply always_lift; [apply _|]. intros e. by apply lookup_no_fuel.
Qed.

Lemma td_modify_quiet f : calm f →
  (∀ t, dkeys (build_targets (f t)) = dkeys (build_targets t) ∧ dkeys (run_targets (f t)) = dkeys (run_targets t)) →
  always sound grows no_fuel (td_modify f).
Proof.
  intros Hf Hk [t c] HI. cbn. destruct (Hf t c HI) as [H1 H2]. split; [done|]. split; [|done].
  split; [done|]. intros _. destruct (Hk t) as [Kb Kr]. split; cbn; intros x; [rewrite Kb|rewrite Kr]; by left.
Qed.

Lemma consider_multiple_sound item eligible : always sound grows no_fuel (consider_multiple item eligible).
Proof.
  unfold consider_multiple. apply always_bind; [apply _|apply always_get, _|]. intros s.
  apply always_bind; [apply _|case_bool_decide; [apply always_ret, _|apply known_names_sound]|]. intros _.
  apply td_modify_quiet; [|done]. by apply tables_calm.
Qed.

Lemma consider_multiple_failed item eligible s :
  failed_fns (tds_td (consider_multiple item eligible s).1) = failed_fns (tds_td s).
Proof. destruct s as [t c]. by destruct (consider_multiple_spec item eligible t c) as (l & r & -> & _). Qed.

Definition handled (resolved : TaskData → Prop) (item : string) (s : tds) : Prop :=
  re_match_strings re_compile item (ignored_dependencies (tds_dc s)) = Ok true ∨ resolved (tds_td s).

Lemma handled_grows (resolved : TaskData → Prop) item s s' :
  (∀ s s', grows s s' → resolved (tds_td s) → resolved (tds_td s')) →
  grows s s' → handled resolved item s → handled resolved item s'.
Proof.
  intros Hm Hg [Hi|Hr]; [left|right; by eapply Hm]. by rewrite (g_ignored _ _ (proj1 Hg)).
Qed.

Lemma lift_no_fuel {A} (r : res A) e : fueled r → r = Raise e → no_fuel e.
Proof. intros Hf -> ->. by apply Hf. Qed.

(** The last part of both searches for providers. *)
Lemma eligible_sound (b : bool) resolved add item l s :
  resolves resolved add → sound s → nonempty (not_failed (tds_td s) l) = true →
  sound_run s (_ ← (if b then consider_multiple item (not_failed (tds_td s) l) else mret tt);
               add_eligible better_exec add (not_failed (tds_td s) l)) (λ _ s', resolved (tds_td s')).
Proof.
  intros Hr HI Hn. destruct (not_failed_cons _ _ Hn) as (fn & k & Ek & Hf).
  eapply (runs_bind _ _ _ _ s _ _ (λ _ s', failed_fns (tds_td s') = failed_fns (tds_td s))).
  - destruct b; [|by apply (runs_ret _ _ _ _)].
    pose proof (consider_multiple_failed item (not_failed (tds_td s) l) s) as Hs.
    destruct (consider_multiple_sound item (not_failed (tds_td s) l) s HI) as (H1 & H2 & H3).
    split; [done|]. by destruct (consider_multiple _ _ s) as [s' [a|e]].
  - intros _ s' HI' _ Hs. apply add_eligible_sound; [done|done|]. exists fn, k. by rewrite Hs.
Qed.

Lemma add_provider_internal_sound item s : sound s →
  sound_run s (add_provider_internal cfg re_compile better_exec item) (λ _, handled (λ t, resolved_build t item) item).
Proof.
  intros HI. unfold add_provider_internal. apply (runs_get _ _ _ _). cbv zeta. apply (runs_lift _ _ _ _); [done| |].
  { intros e. by apply lift_no_fuel, re_match_strings_fueled. }
  intros [] Hig; [apply (runs_ret _ _ _ _); [done|by left]|].
  destruct (dget (providers (tds_dc s)) item) as [all_p|].
  2:{ apply (runs_lift _ _ _ _); [done|intros e; by apply lift_no_fuel, getRuntimeProviders_fueled|]. intros l _.
      eapply (runs_bind _ _ _ _ s _ _ (λ _ _, True)); [by apply always_run; [apply known_names_sound|]|].
      intros _ s' HI' _ _. by apply (runs_raise _ _ _ _). }
  destruct (have_build_target (tds_td s) item) eqn:Eh.
  { apply (runs_ret _ _ _ _); [done|]. right. right. unfold have_build_target in Eh. unfold providers_in.
    destruct (dget (build_targets (tds_td s)) item) as [[|??]|]; done. }
  destruct s as [t c]. cbn [tds_td tds_dc] in *.
  pose proof (filterProviders_fueled all_p item c) as Hff.
  destruct (on_filterProviders cfg item all_p t c) as (c2 & r & E & Ed & Ei).
  assert (r = (filterProviders item cfg (all_p, c)).2) as Hr.
  { unfold on_providers in E. cbn [tds_td tds_dc] in E. destruct (filterProviders item cfg (all_p, c)) as [[]]. by injection E. }
  rewrite <-Hr in Hff. clear Hr. destruct (sound_dc t c c2 HI) as [HI2 Hg2]; [done..|].
  eapply (runs_bind _ _ _ _ _ _ _ (λ _ s', s' = MkTds t c2)).
  { unfold runs. rewrite E. split; [done|]. destruct r as [a|e]; (split; [done|]); [done|by eapply lift_no_fuel]. }
  intros [el u] s' _ _ ->. apply (runs_lift _ _ _ _); [done|by intros e; apply lookup_no_fuel|]. intros l _.
  destruct (negb (nonempty (not_failed t l))) eqn:En; [by apply (runs_raise _ _ _ _)|]. apply negb_false_iff in En.
  eapply runs_mono; [apply (eligible_sound _ _ _ item l _ (add_build_target_resolves item) HI2 En)|].
  intros ? s2 _ _ Hr. by right.
Qed.

Lemma add_rprovider_sound item s : sound s →
  sound_run s (add_rprovider cfg re_compile better_exec item) (λ _, handled (λ t, resolved_run t item) item).
Proof.
  intros HI. unfold add_rprovider. apply (runs_get _ _ _ _). cbv zeta. apply (runs_lift _ _ _ _); [done| |].
  { intros e. by apply lift_no_fuel, re_match_strings_fueled. }
  intros [] Hig; [apply (runs_ret _ _ _ _); [done|by left]|].
  destruct (have_runtime_target (tds_td s) item) eqn:Eh.
  { apply (runs_ret _ _ _ _); [done|]. right. right. unfold have_runtime_target in Eh. unfold providers_in.
    destruct (dget (run_targets (tds_td s)) item) as [[|??]|]; done. }
  apply (runs_lift _ _ _ _); [done|intros e; by apply lift_no_fuel, getRuntimeProviders_fueled|]. intros all_p _.
  destruct (negb (nonempty all_p)); [by apply (runs_raise _ _ _ _)|].
  apply (runs_lift _ _ _ _); [done|intros e; by apply lift_no_fuel, filterProvidersRunTime_fueled|]. intros [[ps l] n] _.
  destruct (negb (nonempty (not_failed (tds_td s) l))) eqn:En; [by apply (runs_raise _ _ _ _)|].
  apply negb_false_iff in En. destruct (bool_decide (1 < n)).
  - eapply (runs_bind _ _ _ _ s _ _ (λ _ _, True)).
    { apply always_run; [|done]. case_match; [apply consider_multiple_sound|apply always_ret, _]. }
    intros _ s' HI' _ _. eapply (runs_bind _ _ _ _ s' _ _ (λ _ _, True)).
    { by apply always_run; [apply consider_multiple_sound|]. }
    intros _ s2 HI2 _ _. by apply (runs_raise _ _ _ _).
  - eapply runs_mono; [apply (eligible_sound _ _ _ item l _ (add_runtime_target_resolves item) HI En)|].
    intros ? s2 _ _ Hr. by right.
Qed.

Lemma runs_catch {A} s (m : M tds A) (h : exn → M tds A) p Q :
  sound_run s m Q → (∀ e s', no_fuel e → sound s' → grows s s' → sound_run s' (h e) Q) →
  sound_run s (catch m p h) Q.
Proof.
  intros [H1 H2] Hh. unfold runs, catch. destruct (m s) as [s1 [a|e]]; cbn in *; [done|].
  destruct (p e); [|done]. destruct H2 as [HI He]. destruct (Hh e s1 He HI H1) as [H3 H4]. split; [by etrans|done].
Qed.

Lemma add_provider_sound item s : sound s →
  sound_run s (add_provider cfg re_compile better_exec item) (λ _, handled (λ t, resolved_build t item) item).
Proof.
  intros HI. unfold add_provider. eapply runs_bind; [apply _| |].
  - apply runs_catch; [by apply add_provider_internal_sound|]. intros e s1 He HI1 _. apply (runs_get _ _ _ _).
    destruct (td_abort (tds_td s1)); [by apply (runs_raise _ _ _ _)|].
    eapply runs_mono; [by apply fail_buildtarget_sound|]. intros ? s2 _ _ Hr. by right.
  - intros [] s1 HI1 _ Hh.
    assert (always sound grows no_fuel (td_modify (mark_external_target item))) as Hm.
    { apply td_modify_quiet; [apply tables_calm|]; intros t; unfold mark_external_target; by case_bool_decide. }
    eapply runs_mono; [by apply always_run; [apply Hm|]|]. intros ? s2 _ Hg _.
    eapply handled_grows; [|done|done]. intros ???. by apply grows_resolved_build.
Qed.

(** An attempt at an unresolved target: what it counts is resolved. *)
Lemma resolve_build_sound x s : sound s →
  re_match_strings re_compile x (ignored_dependencies (tds_dc s)) = Ok false →
  sound_run s (resolve_build cfg re_compile better_exec x) (λ n s', n ≠ 0 → resolved_build (tds_td s') x).
Proof.
  intros HI Hig. unfold resolve_build. apply runs_catch.
  - eapply (runs_bind _ _ _ _ s _ _ (λ _ s', resolved_build (tds_td s') x)).
    + eapply runs_mono; [by apply add_provider_internal_sound|]. intros ? s' _ Hg [Hi|Hr]; [|done].
      rewrite (g_ignored _ _ (proj1 Hg)) in Hi. congruence.
    + intros [] s' HI' _ Hr. by apply (runs_ret _ _ _ _).
  - intros e s1 He HI1 _. apply (runs_get _ _ _ _). cbv zeta. destruct (_ && _); [by apply (runs_raise _ _ _ _)|].
    destruct (td_allowincomplete _); [by apply (runs_ret _ _ _ _)|].
    eapply runs_bind; [apply _|by apply fail_buildtarget_sound|]. intros [] s2 HI2 _ _. by apply (runs_ret _ _ _ _).
Qed.

Lemma resolve_run_sound x s : sound s →
  re_match_strings re_compile x (ignored_dependencies (tds_dc s)) = Ok false →
  sound_run s (resolve_run cfg re_compile better_exec x) (λ n s', n ≠ 0 → resolved_run (tds_td s') x).
Proof.
  intros HI Hig. unfold resolve_run. apply runs_catch.
  - eapply (runs_bind _ _ _ _ s _ _ (λ _ s', resolved_run (tds_td s') x)).
    + eapply runs_mono; [by apply add_rprovider_sound|]. intros ? s' _ Hg [Hi|Hr]; [|done].
      rewrite (g_ignored _ _ (proj1 Hg)) in Hi. congruence.
    + intros [] s' HI' _ Hr. by apply (runs_ret _ _ _ _).
  - intros e s1 He HI1 _.
    eapply runs_bind; [apply _|by apply fail_runtarget_sound|]. intros [] s2 HI2 _ _. by apply (runs_ret _ _ _ _).
Qed.

Lemma sum_each_sound (resolved : TaskData → string → Prop) f l s :
  (∀ s s' x, grows s s' → resolved (tds_td s) x → resolved (tds_td s') x) →
  (∀ x s, sound s → re_match_strings re_compile x (ignored_dependencies (tds_dc s)) = Ok false →
     sound_run s (f x) (λ n s', n ≠ 0 → resolved (tds_td s') x)) →
  sound s → (∀ x, x ∈ l → re_match_strings re_compile x (ignored_dependencies (tds_dc s)) = Ok false) →
  sound_run s (sum_each f l) (λ n s', n ≠ 0 → ∃ x, x ∈ l ∧ resolved (tds_td s') x).
Proof.
  intros Hmono Hf. revert s. induction l as [|x l IH]; intros s HI Hig; cbn [sum_each].
  { by apply (runs_ret _ _ _ _). }
  eapply runs_bind; [apply _|apply Hf; [done|apply Hig, list_elem_of_here]|]. intros a s1 HI1 Hg1 Ha.
  eapply runs_bind; [apply _|apply IH; [done|]|].
  { intros y Hy. rewrite (g_ignored _ _ (proj1 Hg1)). apply Hig. by apply list_elem_of_further. }
  intros b s2 HI2 Hg2 Hb. apply (runs_ret _ _ _ _); [done|]. intros Hn.
  destruct (decide (a = 0)) as [Ea|Ea].
  - destruct Hb as (y & Hy & Hr); [lia|]. exists y. split; [by apply list_elem_of_further|done].
  - exists x. split; [apply list_elem_of_here|]. eapply Hmono; [done|]. by apply Ha.
Qed.

(** A target that was open and is resolved is progress. *)
Lemma grows_progress s s' : grows s s' →
  (∃ x, x ∈ open_build s ∧ resolved_build (tds_td s') x) ∨ (∃ x, x ∈ open_run s ∧ resolved_run (tds_td s') x) →
  progress s s'.
Proof.
  intros [G N] Hx. destruct (decide (seenfns (tds_td s') = seenfns (tds_td s))) as [Es|]; [right|by left].
  destruct (N Es) as [Nb Nr].
  assert (open_build s' ⊆ open_build s) as Sb.
  { intros x. rewrite !(elem_of_open_build re_compile). intros [Hk Hn]. split; [by destruct (Nb x Hk)|].
    intros Hr. apply Hn. by apply (g_build _ _ G). }
  assert (open_run s' ⊆ open_run s) as Sr.
  { intros x. rewrite !(elem_of_open_run re_compile). intros [Hk Hn]. split; [by destruct (Nr x Hk)|].
    intros Hr. apply Hn. by apply (g_run _ _ G). }
  assert (∀ X Y : gset string, X ⊆ Y → (∃ x, x ∈ Y ∧ x ∉ X) → size X < size Y) as Hlt.
  { intros X Y HXY (x & Hy & Hn). apply subset_size. set_solver. }
  pose proof (subseteq_size _ _ Sb). pose proof (subseteq_size _ _ Sr).
  destruct Hx as [(x & Hx & Hr)|(x & Hx & Hr)].
  - enough (size (open_build s') < size (open_build s)) by lia. apply Hlt; [done|]. exists x. split; [done|].
    by intros [_ ?]%(elem_of_open_build re_compile).
  - enough (size (open_run s') < size (open_run s)) by lia. apply Hlt; [done|]. exists x. split; [done|].
    by intros [_ ?]%(elem_of_open_run re_compile).
Qed.

Lemma unresolved_round_sound s : sound s →
  sound_run s (unresolved_round cfg re_compile better_exec) (λ n s', n ≠ 0 → progress s s').
Proof.
  intros HI. unfold unresolved_round. apply (runs_get _ _ _ _).
  assert (∀ ign failed d, fueled (unresolved_targets re_compile ign failed d)) as Hu.
  { intros ign failed d. apply fueled_fold. intros acc [x l] _. fueled. }
  apply (runs_lift _ _ _ _); [done|intros e; apply lift_no_fuel, Hu|]. intros lb Eb.
  destruct (unresolved_targets_spec _ _ _ _ _ Eb (proj1 (so_wf _ HI))) as [_ Lb].
  eapply runs_bind; [apply _|apply (sum_each_sound resolved_build); [intros ? ? x; apply (grows_resolved_build x)
    |intros ??; apply resolve_build_sound|done|intros x Hx; apply (proj1 (Lb x) Hx)]|].
  intros a s1 HI1 Hg1 Ha. apply (runs_get _ _ _ _).
  apply (runs_lift _ _ _ _); [done|intros e; apply lift_no_fuel, Hu|]. intros lr Er.
  destruct (unresolved_targets_spec _ _ _ _ _ Er (proj2 (so_wf _ HI1))) as [_ Lr].
  eapply runs_bind; [apply _|apply (sum_each_sound resolved_run); [intros ? ? x; apply (grows_resolved_run x)
    |intros ??; apply resolve_run_sound|done|intros x Hx; apply (proj1 (Lr x) Hx)]|].
  intros b s2 HI2 Hg2 Hb. apply (runs_ret _ _ _ _); [done|]. intros Hn.
  assert (grows s s2) as Hg by (by etrans). destruct (decide (a = 0)) as [Ea|Ea].
  - destruct (decide (seenfns (tds_td s2) = seenfns (tds_td s))) as [Es|]; [|by left].
    destruct Hb as (x & Hx & Hr); [lia|]. apply Lr in Hx as (Hk & _ & Hf & Hp).
    apply grows_progress; [done|]. right. exists x. split; [|done]. apply (elem_of_open_run re_compile).
    assert (¬ resolved_run (tds_td s1) x) as Hn1 by (by intros [|]).
    split; [|by intros ?%(grows_resolved_run _ _ _ Hg1)].
    destruct Hg1 as [G1 N1]. pose proof (prefix_antisym _ _ _ (g_seenfns _ _ G1) (g_seenfns _ _ (proj1 Hg2)) Es) as E1.
    destruct (proj2 (N1 E1) x Hk); done.
  - destruct (Ha Ea) as (x & Hx & Hr). apply Lb in Hx as (Hk & _ & Hf & Hp).
    apply grows_progress; [done|]. left. exists x. split; [|exact (grows_resolved_build x _ _ Hg2 Hr)].
    apply (elem_of_open_build re_compile). split; [done|]. by intros [|].
Qed.

(** The loop ends: each round that counts something sees a new file, of which
    there are finitely many, or leaves fewer targets open. *)
Lemma add_unresolved_settles s : sound s →
  settles (add_unresolved cfg re_compile better_exec) s (λ _ s', sound s' ∧ grows s s').
Proof.
  intros HI.
  remember (List.length (dkeys (task_deps (tds_dc s))) - List.length (seenfns (tds_td s))) as n eqn:En.
  remember (size (open_build s) + size (open_run s)) as m eqn:Em.
  revert m s HI En Em. induction n as [n IHn] using lt_wf_ind. intros m.
  induction m as [m IHm] using lt_wf_ind. intros s HI -> ->.
  destruct (unresolved_round_sound s HI) as [Hg Hr].
  destruct (unresolved_round cfg re_compile better_exec s) as [s1 [k|e]] eqn:E; cbn in Hg.
  2:{ exists 1, s1, (Raise e). split; [|apply Hr]. intros [|n'] Hn; [lia|]. cbn [add_unresolved]. by rewrite M_bind_eq, E. }
  destruct Hr as [HI1 Hp]. destruct (decide (k = 0)) as [->|Hk].
  { exists 1, s1, (Ok tt). split; [|done]. intros [|n'] Hn; [lia|]. cbn [add_unresolved]. by rewrite M_bind_eq, E. }
  enough (settles (add_unresolved cfg re_compile better_exec) s1 (λ _ s', sound s' ∧ grows s1 s')) as (n & s2 & r & Hn & Hr).
  { exists (S n), s2, r. split; [|destruct r; [|done]; destruct Hr; split; [done|by etrans]].
    intros [|n'] Hn'; [lia|]. cbn [add_unresolved]. rewrite M_bind_eq, E. rewrite bool_decide_eq_false_2 by done.
    apply Hn. lia. }
  pose proof (proj1 Hg) as G. destruct (so_seenfns _ HI1) as [Hnd1 Hsub1].
  assert (List.length (seenfns (tds_td s1)) ≤ List.length (dkeys (task_deps (tds_dc s1)))) as Hb
    by (apply submseteq_length; by apply NoDup_submseteq).
  pose proof (prefix_length _ _ (g_seenfns _ _ G)) as Hlen. rewrite (g_tasks _ _ G) in Hb.
  destruct (decide (seenfns (tds_td s1) = seenfns (tds_td s))) as [Es|Es].
  - destruct (Hp Hk) as [?|Hlt]; [done|]. eapply (IHm _ Hlt); [done| |done]. by rewrite (g_tasks _ _ G), Es.
  - eapply IHn; [|done|reflexivity|reflexivity]. rewrite (g_tasks _ _ G).
    assert (List.length (seenfns (tds_td s)) ≠ List.length (seenfns (tds_td s1))); [|lia].
    intros El. apply Es. destruct (g_seenfns _ _ G) as [k' Ek]. rewrite Ek, length_app in El.
    destruct k'; [by rewrite Ek, app_nil_r|simpl in El; lia].
Qed.
End ends.
