(* ===== verification/TaskGraph.v ===== *)
(** * The task graph of a run queue (bb/runqueue.py)

    The entries of a [RunQueueData]: every task with the tasks it depends on.
    Marking the tasks a target needs, pruning the others, reverse
    dependencies, endpoints, the weights, which double as the check for
    circular dependencies, and the search for the loops to report. *)

From Stdlib Require Import Ascii String.
From S2P Require Import Prelude.
From S2P Require Import PyStr.
From S2P Require Import PyDict.

Abbreviation dict V := (list (string * V)).

Record RunTaskEntry : Type := MkEntry {
  depends : gset string;
  revdeps : gset string;
  rt_hash : option string;
  rt_unihash : option string;
  rt_weight : Z
}.

(** [RunTaskEntry.__init__] *)
Definition init_entry : RunTaskEntry := MkEntry ∅ ∅ None None 1.

Definition set_depends (e : RunTaskEntry) (d : gset string) : RunTaskEntry :=
  MkEntry d (revdeps e) (rt_hash e) (rt_unihash e) (rt_weight e).
Definition set_revdeps (e : RunTaskEntry) (d : gset string) : RunTaskEntry :=
  MkEntry (depends e) d (rt_hash e) (rt_unihash e) (rt_weight e).
Definition set_hash (e : RunTaskEntry) (h : option string) : RunTaskEntry :=
  MkEntry (depends e) (revdeps e) h (rt_unihash e) (rt_weight e).
Definition set_unihash (e : RunTaskEntry) (h : option string) : RunTaskEntry :=
  MkEntry (depends e) (revdeps e) (rt_hash e) h (rt_weight e).
Definition set_weight (e : RunTaskEntry) (w : Z) : RunTaskEntry :=
  MkEntry (depends e) (revdeps e) (rt_hash e) (rt_unihash e) w.

Abbreviation graph := (dict RunTaskEntry).

(** [runtaskentries[tid].depends] and [.revdeps]; empty for a missing task. *)
Definition deps_of (g : graph) (t : string) : gset string :=
  match dget g t with Some e => depends e | None => ∅ end.
Definition revdeps_of (g : graph) (t : string) : gset string :=
  match dget g t with Some e => revdeps e | None => ∅ end.

(** [nam = os.path.basename(id)], then [re.sub("_[^,]*,", ",", nam)]. *)
Definition basename (s : string) : string :=
  match rsplit1 "/" s with Some (_, b) => b | None => s end.

Fixpoint drop_versions (fuel : nat) (s : string) : string :=
  match fuel with
  | O => s
  | S fuel =>
      match s with
      | "" => ""
      | String "_" s' =>
          match split1 "," s' with
          | Some (_, rest) => "," +s+ drop_versions fuel rest
          | None => s
          end
      | String a s' => String a (drop_versions fuel s')
      end
  end.

Section graph.
Context `{!SetOrder string}.

Definition runq_depends_names (ids : gset string) : list string :=
  List.map (λ id, let nam := basename id in drop_versions (String.length nam) nam) (set_iter ids).

(** ** Active tasks *)

(** [mark_active]: the task and all it depends on, directly or not.  The
    dictionary [runq_build] is only used as a set.  The fuel bounds the depth:
    a task is marked before its dependencies are followed. *)
Fixpoint mark_active (g : graph) (fuel : nat) (tid : string) (runq_build : gset string) :
    res (gset string) :=
  match fuel with
  | O => Raise OutOfFuel
  | S fuel =>
      if bool_decide (tid ∈ runq_build) then Ok runq_build
      else
        e ← of_option KeyError (dget g tid);
        fold_res (λ rb d, mark_active g fuel d rb) ({[tid]} ∪ runq_build) (set_iter (depends e))
  end.

Definition mark (g : graph) (tid : string) (runq_build : gset string) : res (gset string) :=
  mark_active g (2 + List.length g) tid runq_build.

(** Tasks not in [runq_build] move to [delcount]. *)
Definition prune (g : graph) (runq_build : gset string) (delcount : graph) : graph * graph :=
  (List.filter (λ kv, bool_decide (kv.1 ∈ runq_build)) g,
   foldl (λ d kv, if bool_decide (kv.1 ∈ runq_build) then d else dset d kv.1 kv.2) delcount g).

(** [runtaskentries[dep].revdeps.add(tid)] for each dependency. *)
Definition add_revdep (tid : string) (g : graph) (dep : string) : res graph :=
  e ← of_option KeyError (dget g dep);
  Ok (dset g dep (set_revdeps e ({[tid]} ∪ revdeps e))).

Definition add_revdeps (g : graph) : res graph :=
  fold_res (λ acc tid, fold_res (add_revdep tid) acc (set_iter (deps_of acc tid))) g (dkeys g).

(** Tasks nothing depends on; two tasks that depend on each other are fatal. *)
Definition endpoint_step (endpoints : list string) (kv : string * RunTaskEntry) : res (list string) :=
  let endpoints := if bool_decide (revdeps kv.2 = ∅) then endpoints ++ [kv.1] else endpoints in
  if existsb (λ dep, bool_decide (dep ∈ depends kv.2)) (set_iter (revdeps kv.2))
  then Raise Fatal else Ok endpoints.

Definition find_endpoints (g : graph) : res (list string) := fold_res endpoint_step [] g.

(** ** Circular dependencies *)

(** The messages of the loop report: a loop found, a task of a loop with the
    names of what it depends on, an empty line, the search given up. *)
Inductive loop_msg : Type :=
  | LoopFound (n : nat)
  | LoopTask (tid : string) (names : list string)
  | LoopEnd
  | LoopAborted.

(** Position of the first least task of the chain. *)
Fixpoint lowest_from (chain : list string) (entry lowest : nat) (low : string) : nat :=
  match chain with
  | [] => lowest
  | x :: chain =>
      if str_lt x low then lowest_from chain (S entry) entry x
      else lowest_from chain (S entry) lowest low
  end.

Definition chain_reorder (chain : list string) : list string :=
  let lowest := match chain with [] => 0 | x :: c => lowest_from c 1 0 x end in
  drop lowest chain ++ take lowest chain.

(** [chain_compare_equal] is equality of the lists. *)
Definition chain_array_contains (chain : list string) (chain_array : list (list string)) : bool :=
  bool_decide (chain ∈ chain_array).

Record chain_state : Type := ChainState {
  valid_chains : list (list string);
  explored_deps : dict (list string);
  msgs : list loop_msg
}.

Definition add_msgs (l : list loop_msg) (st : chain_state) : chain_state :=
  ChainState (valid_chains st) (explored_deps st) (msgs st ++ l).

(** A loop: the part of the chain from [revdep] on. *)
Definition report_chain (g : graph) (prev_chain : list string) (revdep : string) :
    M chain_state unit :=
  let idx := match list_find (λ x, x = revdep) prev_chain with Some (i, _) => i | None => 0 end in
  let new_chain := chain_reorder (drop idx prev_chain) in
  st ← get;
  _ ← (if chain_array_contains new_chain (valid_chains st) then mret tt
       else
         modify (λ st, ChainState (valid_chains st ++ [new_chain]) (explored_deps st)
           (msgs st ++ [LoopFound (S (List.length (valid_chains st)))] ++
            List.map (λ dep, LoopTask dep (runq_depends_names (deps_of g dep))) new_chain ++ [LoopEnd])));
  st ← get;
  if bool_decide (10 < List.length (valid_chains st))
  then _ ← modify (add_msgs [LoopAborted]); raise TooManyLoops
  else mret tt.

(** Whether the chain has to be followed through [revdep]. *)
Definition scan_again (prev_chain : list string) (revdep : string) (explored : dict (list string)) : bool :=
  match dget explored revdep with
  | None => true
  | Some l => bool_decide (revdep ∈ l) || existsb (λ dep, bool_decide (dep ∈ l)) prev_chain
  end.

(** The loop over the reverse dependencies; the result is [total_deps]. *)
Fixpoint chain_each (g : graph) (prev_chain : list string) (visit : string → M chain_state unit)
    (l total_deps : list string) : M chain_state (list string) :=
  match l with
  | [] => mret total_deps
  | revdep :: l =>
      if bool_decide (revdep ∈ prev_chain) then
        _ ← report_chain g prev_chain revdep;
        chain_each g prev_chain visit l total_deps
      else
        st ← get;
        _ ← (if scan_again prev_chain revdep (explored_deps st) then visit revdep else mret tt);
        st ← get;
        ex ← lift (of_option KeyError (dget (explored_deps st) revdep));
        chain_each g prev_chain visit l
          (foldl (λ acc dep, if bool_decide (dep ∈ acc) then acc else acc ++ [dep]) total_deps ex)
  end.

Fixpoint find_chains (g : graph) (fuel : nat) (tid : string) (prev_chain : list string) :
    M chain_state unit :=
  match fuel with
  | O => raise OutOfFuel
  | S fuel =>
      let prev_chain := prev_chain ++ [tid] in
      e ← lift (of_option KeyError (dget g tid));
      let revs := set_iter (revdeps e) in
      total ← chain_each g prev_chain (λ revdep, find_chains g fuel revdep prev_chain) revs revs;
      modify (λ st, ChainState (valid_chains st) (dset (explored_deps st) tid total) (msgs st))
  end.

Definition is_TooManyLoops (e : exn) : bool := match e with TooManyLoops => true | _ => false end.

Definition circular_depchains_handler (g : graph) (tasks : list string) : chain_state * res unit :=
  catch (for_each tasks (λ task, find_chains g (S (List.length g)) task [])) is_TooManyLoops
    (λ _, mret tt) (ChainState [] [] []).

(** ** Weights *)

Record wstate : Type := WState {
  w_weight : dict Z;
  w_left : dict Z;
  w_done : dict bool
}.

Definition wt_init (g : graph) (endpoints : list string) : wstate :=
  let st := WState (List.map (λ kv, (kv.1, 1%Z)) g)
                   (List.map (λ kv, (kv.1, Z.of_nat (size (revdeps kv.2)))) g)
                   (List.map (λ kv, (kv.1, false)) g) in
  foldl (λ st tid, WState (dset (w_weight st) tid 10%Z) (w_left st) (dset (w_done st) tid true)) st endpoints.

(** One dependency of one endpoint; the accumulator has [next_points]. *)
Definition wt_edge (tid : string) (acc : wstate * list string) (revdep : string) :
    res (wstate * list string) :=
  let '(st, next_points) := acc in
  w ← of_option KeyError (dget (w_weight st) revdep);
  wt ← of_option KeyError (dget (w_weight st) tid);
  l ← of_option KeyError (dget (w_left st) revdep);
  let left := (l - 1)%Z in
  let weight := dset (w_weight st) revdep (w + wt)%Z in
  let deps_left := dset (w_left st) revdep left in
  Ok (if (left =? 0)%Z
      then (WState weight deps_left (dset (w_done st) revdep true), next_points ++ [revdep])
      else (WState weight deps_left (w_done st), next_points)).

Definition wt_round (g : graph) (st : wstate) (endpoints : list string) : res (wstate * list string) :=
  fold_res (λ acc tid,
    e ← of_option KeyError (dget g tid);
    fold_res (wt_edge tid) acc (set_iter (depends e))) (st, []) endpoints.

Fixpoint wt_loop (g : graph) (fuel : nat) (st : wstate) (endpoints : list string) : res wstate :=
  match fuel with
  | O => Raise OutOfFuel
  | S fuel =>
      '(st, next_points) ← wt_round g st endpoints;
      match next_points with [] => Ok st | _ => wt_loop g fuel st next_points end
  end.

(** [task_done[tid] is False or deps_left[tid] != 0] *)
Definition wt_problem (st : wstate) (tid : string) : bool :=
  negb (default false (dget (w_done st) tid)) || negb (default 0%Z (dget (w_left st) tid) =? 0)%Z.

(** [calculate_task_weights]: the entries with their weights, and the weights.
    Problem tasks end in [bb.msg.fatal], after the loops have been looked for. *)
Definition calculate_task_weights (g : graph) (endpoints : list string) :
    res (graph * dict Z) :=
  st ← wt_loop g (S (List.length g)) (wt_init g endpoints) endpoints;
  let problem_tasks := List.filter (wt_problem st) (dkeys g) in
  let g' := List.map (λ kv, (kv.1, set_weight kv.2 (default 1%Z (dget (w_weight st) kv.1)))) g in
  match problem_tasks with
  | [] => Ok (g', w_weight st)
  | _ =>
      _ ← (circular_depchains_handler g' problem_tasks).2;
      Raise Fatal
  end.

(** ** The order in which hashes are computed *)

(** [for tid in todeal.copy(): ...]: the tasks of one pass, in order. *)
Definition hash_pass (g : graph) (st : gset string * gset string * list string) (tid : string) :
    res (gset string * gset string * list string) :=
  let '(dealtwith, todeal, order) := st in
  e ← of_option KeyError (dget g tid);
  if bool_decide (depends e ∖ dealtwith = ∅)
  then Ok ({[tid]} ∪ dealtwith, todeal ∖ {[tid]}, order ++ [tid])
  else Ok st.

(** [while len(todeal) > 0]: the order in which [prepare_task_hash] is called. *)
Fixpoint hash_order (g : graph) (fuel : nat) (st : gset string * gset string * list string) :
    res (list string) :=
  match fuel with
  | O => Raise OutOfFuel
  | S fuel =>
      let '(dealtwith, todeal, order) := st in
      if bool_decide (todeal = ∅) then Ok order
      else
        st ← fold_res (hash_pass g) (dealtwith, todeal, order) (set_iter todeal);
        hash_order g fuel st
  end.

Definition hash_tasks (g : graph) : res (list string) :=
  hash_order g (S (List.length g)) (∅, list_to_set (dkeys g), []).
End graph.

(** ** Finite relations *)

Section finite_relation.
Context {A : Type} `{Countable A} (R : A → A → Prop).

Fixpoint path (x : A) (l : list A) : Prop :=
  match l with [] => True | y :: l => R x y ∧ path y l end.

Lemma path_tc x l z : path x l → z ∈ l → tc R x z.
Proof.
  revert x. induction l as [|y l IH]; intros x; [by intros _ ?%elem_of_nil|].
  intros [Hxy Hl] [->|Hz]%elem_of_cons; [by constructor|].
  eapply tc_l; [done|by apply IH].
Qed.

Lemma path_cycle x l : path x l → ¬ NoDup (x :: l) → ∃ z, tc R z z.
Proof.
  revert x. induction l as [|y l IH]; intros x Hp Hd.
  { exfalso. apply Hd, NoDup_singleton. }
  destruct (decide (x ∈ y :: l)) as [Hx|Hx]; [exists x; by eapply path_tc|].
  apply (IH y); [apply Hp|]. intros Hnd. apply Hd. by constructor.
Qed.

(** A finite set in which everything has a successor has a cycle. *)
Lemma finite_cycle (S : gset A) x :
  x ∈ S → (∀ y, y ∈ S → ∃ z, z ∈ S ∧ R y z) → ∃ z, tc R z z.
Proof.
  intros Hx Hsucc.
  assert (∀ n y, y ∈ S → ∃ l, List.length l = n ∧ path y l ∧ ∀ z, z ∈ l → z ∈ S) as Hpath.
  { induction n as [|n IH]; intros y Hy; [exists []; repeat split; by intros ? ?%elem_of_nil|].
    destruct (Hsucc y Hy) as (z & Hz & Hyz). destruct (IH z Hz) as (l & Hl & Hp & Hin).
    exists (z :: l). simpl. split; [lia|]. split; [done|]. intros w [->|?]%elem_of_cons; auto. }
  destruct (Hpath (size S) x Hx) as (l & Hl & Hp & Hin).
  apply (path_cycle x l Hp). intros Hnd.
  assert (size (list_to_set (x :: l) : gset A) ≤ size S) as Hs.
  { apply subseteq_size. intros z. rewrite elem_of_list_to_set, elem_of_cons. intros [->|?]; auto. }
  rewrite size_list_to_set in Hs by done. simpl in Hs. lia.
Qed.

Lemma tc_flip_1 x y : tc (flip R) x y → tc R y x.
Proof. induction 1 as [x y Hxy|x y z Hxy _ IH]; [by constructor|by eapply tc_r]. Qed.
End finite_relation.

(** ** Graphs *)

(** [t] depends on [d]. *)
Definition dep (g : graph) (t d : string) : Prop := d ∈ deps_of g t.
Definition reach (g : graph) : string → string → Prop := rtc (dep g).
Definition acyclic (g : graph) : Prop := ∀ t, ¬ tc (dep g) t t.

Definition keys (g : graph) : gset string := list_to_set (dkeys g).

Lemma elem_of_keys g t : t ∈ keys g ↔ t ∈ dkeys g.
Proof. apply elem_of_list_to_set. Qed.

Lemma size_keys g : size (keys g) ≤ List.length g.
Proof. apply size_dkeys. Qed.

(** Every dependency is a task of the graph. *)
Definition graph_closed (g : graph) : Prop := ∀ t d, dep g t d → d ∈ keys g.

(** Every task is followed by what it depends on. *)
Definition closed_set (g : graph) (s : gset string) : Prop := ∀ t, t ∈ s → deps_of g t ⊆ s.

Lemma closed_set_reach g s t u : closed_set g s → t ∈ s → reach g t u → u ∈ s.
Proof. intros Hs Ht. induction 1 as [|x y z Hxy _ IH]; [done|]. apply IH. by apply (Hs x). Qed.

(** ** Marking *)

Section marking.
Context `{!SetOrder string} (g : graph).
Hypothesis g_closed : graph_closed g.

(** What marking from some tasks adds. *)
Definition marked (from : string → Prop) (rb rb' : gset string) : Prop :=
  rb ⊆ rb' ∧ rb' ⊆ keys g ∧ (∀ t, from t → t ∈ rb') ∧
  ∀ u, u ∈ rb' → u ∉ rb → deps_of g u ⊆ rb' ∧ ∃ t, from t ∧ reach g t u.

Lemma mark_fold fuel (ds : list string) rb :
  (∀ t rb, t ∈ keys g → rb ⊆ keys g → size (keys g) < fuel + size rb →
     ∃ rb', mark_active g fuel t rb = Ok rb' ∧ marked (eq t) rb rb') →
  (∀ d, d ∈ ds → d ∈ keys g) → rb ⊆ keys g → size (keys g) < fuel + size rb →
  ∃ rb', fold_res (λ rb d, mark_active g fuel d rb) rb ds = Ok rb' ∧ marked (λ t, t ∈ ds) rb rb'.
Proof.
  intros IH. revert rb. induction ds as [|d ds IHds]; intros rb Hds Hrb Hf; cbn [fold_res].
  { exists rb. split; [done|]. split; [done|]. split; [done|].
    split; [by intros t ?%elem_of_nil|]. intros u Hu Hn. done. }
  destruct (IH d rb) as (rb1 & -> & H1 & H2 & H3 & H4); [apply Hds, list_elem_of_here|done|done|].
  cbn [mbind res_bind]. assert (size rb ≤ size rb1) by (by apply subseteq_size).
  destruct (IHds rb1) as (rb2 & -> & K1 & K2 & K3 & K4);
    [intros; apply Hds; by apply list_elem_of_further|done|lia|].
  exists rb2. split; [done|]. split; [by etrans|]. split; [done|]. split.
  { intros t [->|?]%elem_of_cons; [by apply K1, H3|by apply K3]. }
  intros u Hu Hn. destruct (decide (u ∈ rb1)) as [Hu1|Hu1].
  - destruct (H4 u Hu1 Hn) as [Hd (t & <- & Ht)]. split; [by etrans|]. exists d.
    split; [apply list_elem_of_here|done].
  - destruct (K4 u Hu Hu1) as [Hd (t & Ht & Hr)]. split; [done|]. exists t.
    split; [by apply list_elem_of_further|done].
Qed.

Lemma mark_active_spec fuel t rb :
  t ∈ keys g → rb ⊆ keys g → size (keys g) < fuel + size rb →
  ∃ rb', mark_active g fuel t rb = Ok rb' ∧ marked (eq t) rb rb'.
Proof.
  revert t rb. induction fuel as [|fuel IH]; intros t rb Ht Hrb Hf.
  { apply subseteq_size in Hrb. lia. }
  cbn [mark_active]. case_bool_decide as Hin.
  { exists rb. split; [done|]. split; [done|]. split; [done|]. split; [by intros ? <-|done]. }
  apply elem_of_keys, elem_of_dkeys in Ht as He. destruct He as [e He]. rewrite He.
  cbn [mbind res_bind of_option].
  assert (deps_of g t = depends e) as Hd by (unfold deps_of; by rewrite He).
  destruct (mark_fold fuel (set_iter (depends e)) ({[t]} ∪ rb)) as (rb' & -> & H1 & H2 & H3 & H4).
  - done.
  - intros d Hd'. apply elem_of_set_iter in Hd'. apply (g_closed t). unfold dep. by rewrite Hd.
  - set_solver.
  - rewrite size_union by set_solver. rewrite size_singleton. lia.
  - exists rb'. split; [done|]. split; [set_solver|]. split; [done|]. split; [intros ? <-; set_solver|].
    intros u Hu Hn. destruct (decide (u = t)) as [->|Hne].
    + split; [|exists t; split; [done|apply rtc_refl]]. rewrite Hd. intros d Hdd. apply H3.
      by apply elem_of_set_iter.
    + destruct (H4 u Hu) as [Hdu (d & Hdt & Hr)]; [set_solver|]. split; [done|]. exists t. split; [done|].
      eapply rtc_l; [|done]. unfold dep. rewrite Hd. by apply elem_of_set_iter.
Qed.

Lemma mark_correct t rb :
  t ∈ keys g → rb ⊆ keys g → closed_set g rb →
  ∃ rb', mark g t rb = Ok rb' ∧ rb' ⊆ keys g ∧ closed_set g rb' ∧
    ∀ u, u ∈ rb' ↔ u ∈ rb ∨ reach g t u.
Proof.
  intros Ht Hrb Hcl. unfold mark.
  destruct (mark_active_spec (2 + List.length g) t rb Ht Hrb) as (rb' & E & H1 & H2 & H3 & H4).
  { pose proof (size_keys g). lia. }
  assert (closed_set g rb') as Hcl'.
  { intros u Hu. destruct (decide (u ∈ rb)) as [Hr|Hr]; [etrans; [by apply Hcl|done]|by apply H4]. }
  exists rb'. split; [done|]. split; [done|]. split; [done|]. intros u. split.
  - intros Hu. destruct (decide (u ∈ rb)) as [Hr|Hr]; [by left|right].
    destruct (H4 u Hu Hr) as [_ (? & <- & ?)]. done.
  - intros [Hu|Hu]; [by apply H1|]. eapply closed_set_reach; [done|by apply H3|done].
Qed.
End marking.

(** In a graph whose dependencies are all tasks, [mark_active] ends
    and marks exactly the task asked for and everything it depends on,
    directly or through others, besides what was marked before. *)
Theorem mark_active_reachable `{!SetOrder string} g t rb :
  graph_closed g → t ∈ keys g → rb ⊆ keys g → closed_set g rb →
  ∃ rb', mark g t rb = Ok rb' ∧ closed_set g rb' ∧ ∀ u, u ∈ rb' ↔ u ∈ rb ∨ reach g t u.
Proof.
  intros Hg Ht Hrb Hcl. destruct (mark_correct g Hg t rb Ht Hrb Hcl) as (rb' & ? & _ & ? & ?). eauto.
Qed.

(** ** The order of the weights *)

(** The graph as [prepare] builds it: one entry per task, dependencies among
    the tasks, and reverse dependencies that mirror them. *)
Record graph_ok (g : graph) : Prop := {
  go_wf : dict_wf g;
  go_closed : graph_closed g;
  go_revdeps : ∀ t r, t ∈ keys g → r ∈ revdeps_of g t ↔ dep g r t
}.

Lemma dep_key g t d : dep g t d → t ∈ keys g.
Proof.
  unfold dep, deps_of. destruct (dget g t) eqn:E; [|set_solver]. intros _.
  apply elem_of_keys, elem_of_dkeys. by eexists.
Qed.

Lemma Acc_no_cycle {A} (R : A → A → Prop) x : Acc R x → ¬ tc R x x.
Proof.
  induction 1 as [x _ IH]. intros H.
  assert (∃ y, R y x ∧ tc R y y) as (y & Hyx & Hyy).
  { enough (∀ a b, tc R a b → b = x → a = x → ∃ y, R y x ∧ tc R y y) by eauto.
    clear IH. intros a b Hab -> ->. 
    assert (∀ a b, tc R a b → R a b ∨ ∃ c, tc R a c ∧ R c b) as Hlast.
    { clear. induction 1 as [a b Hab|a b c Hab _ [IH|(d & Hd & Hdc)]]; [by left|right..].
      - exists b. split; [by constructor|done].
      - exists d. split; [by eapply tc_l|done]. }
    destruct (Hlast _ _ Hab) as [Hx|(c & Hc & Hx)].
    - exists x. split; [done|by constructor].
    - exists c. split; [done|]. by eapply tc_l. }
  by apply (IH y).
Qed.

(** The tasks that (transitively) wait for [t] form no loop. *)
Definition settled (g : graph) : string → Prop := Acc (λ r t, dep g r t).

(** Sums over finite sets. *)
Definition zsum (f : string → Z) (s : gset string) : Z := foldr Z.add 0%Z (f <$> elements s).

Lemma foldr_add_perm l1 l2 : l1 ≡ₚ l2 → foldr Z.add 0%Z l1 = foldr Z.add 0%Z l2.
Proof. induction 1; simpl; lia. Qed.

Lemma foldr_add_app l1 l2 : foldr Z.add 0%Z (l1 ++ l2) = (foldr Z.add 0 l1 + foldr Z.add 0 l2)%Z.
Proof. induction l1; simpl; lia. Qed.

Lemma zsum_union f s1 s2 : s1 ## s2 → zsum f (s1 ∪ s2) = (zsum f s1 + zsum f s2)%Z.
Proof.
  intros Hd. unfold zsum. rewrite <-foldr_add_app, <-fmap_app. apply foldr_add_perm.
  by rewrite elements_disj_union.
Qed.

Lemma zsum_ext f1 f2 s : (∀ x, x ∈ s → f1 x = f2 x) → zsum f1 s = zsum f2 s.
Proof.
  intros Hf. unfold zsum. f_equal. apply list_fmap_ext. intros i x Hx. apply Hf.
  apply elem_of_elements. by eapply list_elem_of_lookup_2.
Qed.

(** ** Splitting a set by what is done *)

Lemma inter_in_rest (A B : gset string) (l : list string) :
  (∀ x, x ∈ l → x ∉ B) → A ∩ list_to_set l ⊆ A ∖ B.
Proof. intros H x. rewrite elem_of_intersection, elem_of_difference, elem_of_list_to_set. naive_solver. Qed.

Lemma inter_is_rest (A B : gset string) (l : list string) :
  (∀ x, x ∈ l → x ∉ B) → A ⊆ B ∪ list_to_set l → A ∩ list_to_set l = A ∖ B.
Proof.
  intros H Hs. apply set_eq. intros x.
  rewrite elem_of_intersection, elem_of_difference, elem_of_list_to_set. split; [naive_solver|].
  intros [HA HB]. split; [done|]. apply Hs in HA. rewrite elem_of_union, elem_of_list_to_set in HA. naive_solver.
Qed.

Lemma inter_size_covers (A B : gset string) (l : list string) :
  (∀ x, x ∈ l → x ∉ B) → size (A ∖ B) = size (A ∩ list_to_set l) → A ⊆ B ∪ list_to_set l.
Proof.
  intros H Hs. assert (A ∩ list_to_set l = A ∖ B) as E.
  { apply set_subseteq_size_eq; [by apply inter_in_rest|lia]. }
  intros x Hx. rewrite elem_of_union. destruct (decide (x ∈ B)) as [?|Hn]; [by left|right].
  assert (x ∈ A ∖ B) as Hd by (by apply elem_of_difference). rewrite <-E in Hd.
  by apply elem_of_intersection in Hd as [_ ?].
Qed.

Lemma inter_empty_sub (A B : gset string) (l : list string) :
  A ∩ list_to_set l = ∅ → A ⊆ B ∪ list_to_set l → A ⊆ B.
Proof.
  intros E Hs x Hx. pose proof (Hs x Hx) as Hu. rewrite elem_of_union in Hu. destruct Hu as [?|Hl]; [done|].
  assert (x ∈ A ∩ list_to_set l) as Hi by (by apply elem_of_intersection). rewrite E in Hi.
  by apply elem_of_empty in Hi.
Qed.

Lemma diff_diff_inter (A B : gset string) (l : list string) :
  (∀ x, x ∈ l → x ∉ B) → (A ∖ B) ∖ (A ∩ list_to_set l) = A ∖ (B ∪ list_to_set l).
Proof.
  intros H. apply set_eq. intros x.
  rewrite !elem_of_difference, elem_of_intersection, elem_of_union, elem_of_list_to_set. tauto.
Qed.

Section weights.
Context `{!SetOrder string} (g : graph).
Hypothesis g_ok : graph_ok g.

Definition weight_of (st : wstate) (t : string) : Z := default 0%Z (dget (w_weight st) t).
Definition left_of (st : wstate) (t : string) : Z := default 0%Z (dget (w_left st) t).
Definition done_of (st : wstate) (t : string) : bool := default false (dget (w_done st) t).

(** The dictionaries have every task. *)
Definition full (st : wstate) : Prop := ∀ t, t ∈ keys g →
  is_Some (dget (w_weight st) t) ∧ is_Some (dget (w_left st) t) ∧ is_Some (dget (w_done st) t).

(** The dependencies of a round's endpoints, in the order they are visited. *)
Definition edges (l : list string) : list (string * string) :=
  List.concat (List.map (λ tid, List.map (pair tid) (set_iter (deps_of g tid))) l).

Definition into (t : string) (L : list (string * string)) : list (string * string) :=
  List.filter (λ e, bool_decide (e.2 = t)) L.

Definition in_sum (st : wstate) (t : string) (L : list (string * string)) : Z :=
  foldr Z.add 0%Z (List.map (λ e, weight_of st e.1) (into t L)).

Lemma wt_round_edges st l :
  (∀ t, t ∈ l → t ∈ keys g) →
  wt_round g st l = fold_res (λ acc e, wt_edge e.1 acc e.2) (st, []) (edges l).
Proof.
  unfold wt_round, edges. generalize (st, [] : list string). induction l as [|t l IH]; intros acc Hl; [done|].
  cbn [fold_res List.map List.concat]. rewrite fold_res_app.
  assert (t ∈ keys g) as Ht by (apply Hl, list_elem_of_here).
  apply elem_of_keys, elem_of_dkeys in Ht as [e He]. rewrite He. cbn [mbind res_bind of_option].
  assert (∀ ds acc, fold_res (λ acc e, wt_edge e.1 acc e.2) acc (List.map (pair t) ds)
    = fold_res (wt_edge t) acc ds) as Hmap.
  { clear. induction ds as [|d ds IH]; intros acc; [done|]. cbn [fold_res List.map fst snd].
    destruct (wt_edge t acc d); [apply IH|done]. }
  rewrite Hmap. unfold deps_of. rewrite He. destruct (fold_res _ acc _) as [acc'|]; [|done].
  cbn [mbind res_bind]. apply IH. intros. apply Hl. by apply list_elem_of_further.
Qed.

Lemma edge_fold L st next :
  full st → (∀ e, e ∈ L → e.1 ∈ keys g ∧ e.2 ∈ keys g) →
  (∀ e e', e ∈ L → e' ∈ L → e.2 ≠ e'.1) →
  (∀ t, t ∈ keys g → (Z.of_nat (List.length (into t L)) ≤ left_of st t)%Z) →
  ∃ st' next', fold_res (λ acc e, wt_edge e.1 acc e.2) (st, next) L = Ok (st', next ++ next') ∧
    full st' ∧
    (∀ t, left_of st' t = left_of st t - Z.of_nat (List.length (into t L)))%Z ∧
    (∀ t, weight_of st' t = weight_of st t + in_sum st t L)%Z ∧
    (∀ t, done_of st' t = done_of st t || bool_decide (t ∈ next')) ∧
    (∀ t, t ∈ next' ↔ into t L ≠ [] ∧ left_of st t = Z.of_nat (List.length (into t L))) ∧
    NoDup next'.
Proof.
  intros Hfull. induction L as [|[r t] L IH] using rev_ind; intros HL Hsrc Hcnt.
  { exists st, []. cbn. rewrite app_nil_r. split; [done|]. split; [done|].
    split; [intros; lia|]. split; [intros; unfold in_sum; simpl; lia|].
    split; [intros; by rewrite bool_decide_eq_false_2, orb_false_r by apply not_elem_of_nil|].
    split; [|apply NoDup_nil_2]. intros t. split; [by intros ?%elem_of_nil|]. by intros [? _]. }
  assert (∀ u, into u (L ++ [(r, t)]) = into u L ++ (if bool_decide (t = u) then [(r, t)] else [])) as Hinto.
  { intros u. unfold into. rewrite List.filter_app. simpl. by destruct (bool_decide (t = u)). }
  destruct IH as (st1 & nx & Ef & Hf1 & Hleft & Hweight & Hdone & Hnext & Hnd).
  { intros e He. apply HL. set_solver. }
  { intros e e' He He'. apply Hsrc; set_solver. }
  { intros u Hu. specialize (Hcnt u Hu). rewrite Hinto, length_app in Hcnt. lia. }
  destruct (HL (r, t)) as [Hr Ht]; [set_solver|]. cbn in Hr, Ht.
  rewrite fold_res_app, Ef. cbn [mbind res_bind fold_res fst snd].
  destruct (Hf1 t Ht) as ([w Hw] & [l Hl] & _). destruct (Hf1 r Hr) as ([wr Hwr] & _ & _).
  unfold wt_edge. rewrite Hw, Hwr, Hl. cbn [mbind res_bind of_option].
  assert (weight_of st r = wr) as Ewr.
  { specialize (Hweight r). unfold weight_of at 1 in Hweight. rewrite Hwr in Hweight. simpl in Hweight.
    unfold in_sum in Hweight. replace (into r L) with ([] : list (string * string)) in Hweight; [simpl in Hweight; lia|].
    symmetry. unfold into. destruct (List.filter _ L) as [|e k] eqn:Ek; [done|].
    assert (e ∈ List.filter (λ e, bool_decide (e.2 = r)) L) as He by (rewrite Ek; apply list_elem_of_here).
    apply list_elem_of_In, filter_In in He as [He1 He2]. apply list_elem_of_In in He1.
    apply bool_decide_eq_true in He2. exfalso. apply (Hsrc e (r, t)); [set_solver|set_solver|done]. }
  assert (left_of st t - Z.of_nat (List.length (into t L)) = l)%Z as El.
  { specialize (Hleft t). unfold left_of at 1 in Hleft. rewrite Hl in Hleft. simpl in Hleft. lia. }
  assert (weight_of st1 t = w) as Ew by (unfold weight_of; by rewrite Hw).
  set (st2 := λ dn, WState (dset (w_weight st1) t (w + wr)%Z) (dset (w_left st1) t (l - 1)%Z) dn).
  set (nx' := if (l - 1 =? 0)%Z then nx ++ [t] else nx).
  set (dn := if (l - 1 =? 0)%Z then dset (w_done st1) t true else w_done st1).
  exists (st2 dn), nx'. split.
  { unfold nx', dn. destruct (l - 1 =? 0)%Z; [by rewrite app_assoc|done]. }
  assert (t ∉ nx) as Htn.
  { rewrite Hnext. intros [_ E]. specialize (Hcnt t Ht). rewrite Hinto, bool_decide_eq_true_2, length_app in Hcnt by done.
    simpl in Hcnt. lia. }
  split; [|split; [|split; [|split; [|split]]]].
  - intros u Hu. destruct (Hf1 u Hu) as (H1 & H2 & H3). cbn. unfold dn.
    split; [|split]; [rewrite dget_dset; by case_decide..|].
    destruct (l - 1 =? 0)%Z; [|done]. rewrite dget_dset. by case_decide.
  - intros u. unfold left_of at 1. cbn. rewrite dget_dset, Hinto, length_app.
    case_decide as Hu; subst; [rewrite bool_decide_eq_true_2 by done|rewrite bool_decide_eq_false_2 by done]; simpl.
    + lia.
    + specialize (Hleft u). unfold left_of at 1 in Hleft. lia.
  - intros u. unfold weight_of at 1. cbn. rewrite dget_dset. unfold in_sum. rewrite Hinto, List.map_app, foldr_add_app.
    case_decide as Hu; subst; [rewrite bool_decide_eq_true_2 by done|rewrite bool_decide_eq_false_2 by done]; simpl.
    + specialize (Hweight u). unfold in_sum in Hweight. lia.
    + specialize (Hweight u). unfold weight_of at 1, in_sum in Hweight. lia.
  - intros u. unfold done_of at 1. cbn. unfold dn, nx'. specialize (Hdone u). unfold done_of at 1 in Hdone.
    destruct (l - 1 =? 0)%Z; [|done]. rewrite dget_dset. destruct (decide (t = u)) as [<-|Hu]; simpl.
    + rewrite bool_decide_eq_true_2 by (apply elem_of_app; right; apply list_elem_of_here).
      by rewrite orb_true_r.
    + rewrite Hdone. f_equal. apply bool_decide_ext. rewrite elem_of_app, list_elem_of_singleton.
      split; [by left|by intros [?| ->]].
  - intros u. rewrite Hinto. unfold nx'. specialize (Hnext u).
    destruct (decide (t = u)) as [->|Hu].
    + rewrite bool_decide_eq_true_2, length_app by done. simpl.
      destruct (Z.eqb_spec (l - 1) 0) as [E0|E0].
      * rewrite elem_of_app, list_elem_of_singleton. split; [|by right]. intros _.
        split; [apply snoc_ne|]. lia.
      * split; [done|]. intros [_ E]. lia.
    + rewrite bool_decide_eq_false_2, app_nil_r by done. rewrite <-Hnext.
      destruct (l - 1 =? 0)%Z; [|done]. rewrite elem_of_app, list_elem_of_singleton.
      split; [intros [?| ->]; done|by left].
  - unfold nx'. destruct (l - 1 =? 0)%Z; [|done]. apply NoDup_app. split; [done|].
    split; [|apply NoDup_singleton]. intros x Hx ->%list_elem_of_singleton. done.
Qed.

(** The state at the start of a round: [E] are its endpoints, [Dn] the tasks
    of the earlier rounds. *)
Definition base (t : string) : Z := if bool_decide (revdeps_of g t = ∅) then 10 else 1.

Record round_inv (st : wstate) (E : list string) (Dn : gset string) : Prop := {
  ri_full : full st;
  ri_nodup : NoDup E;
  ri_keys : ∀ t, t ∈ E → t ∈ keys g;
  ri_fresh : ∀ t, t ∈ E → t ∉ Dn;
  ri_ready : ∀ t, t ∈ keys g → t ∈ Dn ∨ t ∈ E ↔ revdeps_of g t ⊆ Dn;
  ri_left : ∀ t, t ∈ keys g → left_of st t = Z.of_nat (size (revdeps_of g t ∖ Dn));
  ri_done : ∀ t, t ∈ keys g → done_of st t = bool_decide (t ∈ Dn ∨ t ∈ E);
  ri_weight : ∀ t, t ∈ keys g → weight_of st t = (base t + zsum (weight_of st) (revdeps_of g t ∩ Dn))%Z;
  ri_settled : ∀ t, t ∈ Dn ∨ t ∈ E → settled g t;
  ri_done_keys : Dn ⊆ keys g
}.

(** The edges into [t] come from the reverse dependencies of [t]. *)
Lemma into_edges t l :
  t ∈ keys g → NoDup l → (∀ x, x ∈ l → x ∈ keys g) →
  List.map fst (into t (edges l)) ≡ₚ elements (revdeps_of g t ∩ list_to_set l).
Proof.
  intros Ht Hl Hk.
  assert (List.map fst (into t (edges l)) = List.filter (λ r, bool_decide (t ∈ deps_of g r)) l) as ->.
  { clear Hl Hk. induction l as [|r l IH]; [done|]. unfold into, edges in *. cbn [List.map List.concat].
    rewrite List.filter_app, List.map_app, IH. cbn [List.filter].
    assert (∀ ds : list string, NoDup ds → List.map fst (List.filter (λ e : string * string, bool_decide (e.2 = t)) (List.map (pair r) ds))
      = if bool_decide (t ∈ ds) then [r] else []) as ->; [| |apply NoDup_set_iter].
    { clear. induction 1 as [|d ds Hd Hnd IH]; [by rewrite bool_decide_eq_false_2 by apply not_elem_of_nil|].
      cbn [List.map List.filter snd]. destruct (decide (d = t)) as [->|E].
      - rewrite (bool_decide_eq_true_2 (t = t)) by done. cbn [List.map fst]. rewrite IH. rewrite bool_decide_eq_false_2 by done.
        by rewrite bool_decide_eq_true_2 by apply list_elem_of_here.
      - rewrite (bool_decide_eq_false_2 (d = t)) by done.
        rewrite IH. rewrite (bool_decide_ext (t ∈ d :: ds) (t ∈ ds)); [done|].
        rewrite elem_of_cons. naive_solver. }
    rewrite (bool_decide_ext (t ∈ set_iter (deps_of g r)) (t ∈ deps_of g r)) by apply elem_of_set_iter.
    by destruct (bool_decide (t ∈ deps_of g r)). }
  apply NoDup_Permutation.
  - by apply NoDup_ListNoDup, List.NoDup_filter, NoDup_ListNoDup.
  - apply NoDup_elements.
  - intros r. rewrite elem_of_elements, elem_of_intersection, elem_of_list_to_set.
    rewrite (go_revdeps _ g_ok t r Ht).
    rewrite (list_elem_of_In (List.filter _ _) r), filter_In, <-list_elem_of_In, bool_decide_eq_true.
    unfold dep. tauto.
Qed.

Lemma into_length t l :
  t ∈ keys g → NoDup l → (∀ x, x ∈ l → x ∈ keys g) →
  List.length (into t (edges l)) = size (revdeps_of g t ∩ list_to_set l).
Proof.
  intros Ht Hl Hk. rewrite <-(length_map fst), (into_edges t l Ht Hl Hk). done.
Qed.

Lemma in_sum_edges st t l :
  t ∈ keys g → NoDup l → (∀ x, x ∈ l → x ∈ keys g) →
  in_sum st t (edges l) = zsum (weight_of st) (revdeps_of g t ∩ list_to_set l).
Proof.
  intros Ht Hl Hk. unfold in_sum, zsum. rewrite <-(List.map_map fst (weight_of st)).
  apply foldr_add_perm. apply Permutation_map. by apply into_edges.
Qed.

Lemma elem_of_edges e l : e ∈ edges l ↔ e.1 ∈ l ∧ dep g e.1 e.2.
Proof.
  destruct e as [r t]. unfold edges. rewrite elem_of_concat. split.
  - intros (k & (x & -> & Hx)%elem_of_map & (y & [= -> ->] & Hy)%elem_of_map).
    apply elem_of_set_iter in Hy. done.
  - intros [Hr Hd]. exists (List.map (pair r) (set_iter (deps_of g r))). split.
    + apply elem_of_map. by exists r.
    + apply elem_of_map. exists t. split; [done|]. by apply elem_of_set_iter.
Qed.

Lemma revdeps_keys t : t ∈ keys g → revdeps_of g t ⊆ keys g.
Proof. intros Ht r Hr. apply (go_revdeps _ g_ok t r Ht) in Hr. by eapply dep_key. Qed.

(** A task nothing of which is left has no edge into it. *)
Lemma ready_no_edge t l (Dn : gset string) :
  t ∈ keys g → NoDup l → (∀ x, x ∈ l → x ∈ keys g) → (∀ x, x ∈ l → x ∉ Dn) →
  revdeps_of g t ⊆ Dn → into t (edges l) = [].
Proof.
  intros Ht Hl Hk Hf Hr. apply length_zero_iff_nil. rewrite into_length by done.
  apply size_empty_iff. intros x. rewrite elem_of_intersection, elem_of_list_to_set.
  split; [|by intros ?%elem_of_empty]. intros [Hx Hxl]. exfalso. by apply (Hf x Hxl), Hr.
Qed.

Lemma round_step st E Dn :
  round_inv st E Dn →
  ∃ st' E', wt_round g st E = Ok (st', E') ∧ round_inv st' E' (Dn ∪ list_to_set E).
Proof.
  intros [Hfull Hnd Hk Hfr Hready Hleft Hdone Hw Hset Hdk].
  assert (∀ t, t ∈ Dn ∨ t ∈ E → t ∈ keys g) as Hin by (intros t [?|?]; auto).
  assert (∀ t, t ∈ Dn ∨ t ∈ E → into t (edges E) = []) as Hno.
  { intros t Ht. apply (ready_no_edge t E Dn); auto. by apply Hready; [apply Hin|]. }
  rewrite wt_round_edges by done.
  destruct (edge_fold (edges E) st []) as (st' & E' & -> & Hf' & Hl' & Hw' & Hd' & Hn' & Hnd').
  - done.
  - intros e [He Hd]%elem_of_edges. split; [by apply Hk|]. by apply (go_closed _ g_ok e.1).
  - intros e e' He He' Eq. apply elem_of_edges in He' as [He' _]. rewrite <-Eq in He'.
    assert (e ∈ into e.2 (edges E)) as Hi.
    { unfold into. apply list_elem_of_In, filter_In. rewrite bool_decide_eq_true.
      split; [by apply list_elem_of_In|done]. }
    rewrite Hno in Hi by (by right). by apply elem_of_nil in Hi.
  - intros t Ht. rewrite into_length, Hleft by done. apply inj_le, subseteq_size. by apply inter_in_rest.
  - exists st', E'. split; [done|]. cbn in Hn'.
    assert (∀ t, t ∈ E' → t ∈ keys g ∧ revdeps_of g t ⊆ Dn ∪ list_to_set E ∧ ¬ revdeps_of g t ⊆ Dn) as HE'.
    { intros t Ht. pose proof (proj1 (Hn' t) Ht) as [Hne El].
      assert (t ∈ keys g) as Htk.
      { destruct (into t (edges E)) as [|e k] eqn:Ei; [done|].
        assert (e ∈ into t (edges E)) as He by (rewrite Ei; apply list_elem_of_here).
        unfold into in He. apply list_elem_of_In, filter_In in He as [He Et].
        apply list_elem_of_In, elem_of_edges in He as [_ He]. apply bool_decide_eq_true in Et. subst.
        by apply (go_closed _ g_ok e.1). }
      rewrite Hleft, into_length in El by done. split; [done|]. split.
      - apply inter_size_covers; [done|]. lia.
      - intros Hr. apply Hne. by apply (ready_no_edge t E Dn). }
    assert (∀ t, t ∈ keys g → t ∈ Dn ∪ list_to_set E ∨ t ∈ E' ↔ revdeps_of g t ⊆ Dn ∪ list_to_set E) as Hready'.
    { intros t Ht. split.
      - intros [Hde|He']; [|by apply HE'].
        transitivity Dn; [|apply union_subseteq_l]. apply Hready; [done|].
        by rewrite elem_of_union, elem_of_list_to_set in Hde.
      - intros Hr. destruct (decide (revdeps_of g t ⊆ Dn)) as [Hd|Hd].
        + left. apply (Hready t Ht) in Hd. by rewrite elem_of_union, elem_of_list_to_set.
        + right. apply Hn'. rewrite Hleft, into_length by done. split.
          * intros E0. apply length_zero_iff_nil in E0. rewrite into_length in E0 by done.
            apply size_empty_iff in E0. apply Hd. apply leibniz_equiv in E0. by eapply inter_empty_sub.
          * do 2 f_equal. symmetry. by apply inter_is_rest. }
    split.
    + done.
    + done.
    + intros t Ht. by apply HE'.
    + intros t Ht Hde. destruct (HE' t Ht) as (Htk & _ & Hn). apply Hn, Hready; [done|].
      by rewrite elem_of_union, elem_of_list_to_set in Hde.
    + done.
    + intros t Ht. rewrite Hl', Hleft, into_length by done. rewrite <-Nat2Z.inj_sub.
      2:{ apply subseteq_size. by apply inter_in_rest. }
      f_equal. rewrite <-size_difference by (by apply inter_in_rest). f_equal. by apply diff_diff_inter.
    + intros t Ht. rewrite Hd', Hdone by done. rewrite <-bool_decide_or. apply bool_decide_ext.
      rewrite elem_of_union, elem_of_list_to_set. tauto.
    + intros t Ht. rewrite Hw', Hw, in_sum_edges by done. rewrite <-Z.add_assoc. f_equal.
      rewrite <-zsum_union.
      2:{ intros r Hr1 Hr2. apply elem_of_intersection in Hr1 as [_ Hr1], Hr2 as [_ Hr2].
          apply elem_of_list_to_set in Hr2. by apply (Hfr r). }
      rewrite <-intersection_union_l_L.
      apply zsum_ext. intros r Hr. apply elem_of_intersection in Hr as [_ Hr].
      rewrite elem_of_union, elem_of_list_to_set in Hr. rewrite Hw'. unfold in_sum. rewrite Hno by done. simpl. lia.
    + intros t [Hde|He'].
      * apply Hset. by rewrite elem_of_union, elem_of_list_to_set in Hde.
      * destruct (HE' t He') as (Htk & Hr & _). constructor. intros r Hdr.
        apply Hset. apply (go_revdeps _ g_ok t r Htk), Hr in Hdr.
        by rewrite elem_of_union, elem_of_list_to_set in Hdr.
    + intros t. rewrite elem_of_union, elem_of_list_to_set. auto.
Qed.

Lemma wt_loop_spec fuel st E Dn :
  round_inv st E Dn → size (keys g ∖ Dn) < fuel →
  ∃ st' Dn', wt_loop g fuel st E = Ok st' ∧ round_inv st' [] Dn'.
Proof.
  revert st E Dn. induction fuel as [|fuel IH]; intros st E Dn Hi Hf; [lia|]. cbn [wt_loop].
  destruct (round_step st E Dn Hi) as (st' & E' & -> & Hi'). cbn [mbind res_bind].
  destruct E' as [|t E']; [by eauto|]. apply (IH _ _ _ Hi').
  assert (E ≠ []) as HE.
  { intros ->. destruct Hi' as [_ _ Hk' Hfr' Hr' _ _ _ _ _]. destruct Hi as [_ _ _ _ Hr _ _ _ _ _].
    assert (t ∈ t :: E') as Ht by apply list_elem_of_here. specialize (Hk' t Ht).
    assert (revdeps_of g t ⊆ Dn) as Hs.
    { assert (revdeps_of g t ⊆ Dn ∪ list_to_set []) as Hs by (apply Hr'; [done|by right]).
      by rewrite list_to_set_nil, union_empty_r_L in Hs. }
    apply (Hr t Hk') in Hs as [Hs|Hs]; [|by apply elem_of_nil in Hs].
    apply (Hfr' t Ht). by apply elem_of_union_l. }
  destruct E as [|x E]; [done|].
  assert (size (keys g ∖ (Dn ∪ list_to_set (x :: E))) < size (keys g ∖ Dn)); [|lia].
  assert (x ∈ x :: E) as Hx by apply list_elem_of_here.
  pose proof (ri_keys _ _ _ Hi x Hx) as Hxk. pose proof (ri_fresh _ _ _ Hi x Hx) as Hxf.
  apply subset_size. split.
  - intros y. rewrite !elem_of_difference, elem_of_union. tauto.
  - intros Hs. assert (x ∈ keys g ∖ Dn) as Hd by (by apply elem_of_difference).
    apply Hs in Hd. apply elem_of_difference in Hd as [_ Hd]. apply Hd.
    apply elem_of_union_r. by apply elem_of_list_to_set.
Qed.

(** The endpoints, as [find_endpoints] collects them. *)
Definition endpoints_ok (l : list string) : Prop :=
  NoDup l ∧ ∀ t, t ∈ l ↔ t ∈ keys g ∧ revdeps_of g t = ∅.

Lemma wt_init_inv l : endpoints_ok l → round_inv (wt_init g l) l ∅.
Proof.
  intros [Hnd Hl].
  set (st0 := WState (List.map (λ kv, (kv.1, 1%Z)) g)
                   (List.map (λ kv, (kv.1, Z.of_nat (size (revdeps kv.2)))) g)
                   (List.map (λ kv, (kv.1, false)) g)).
  assert (∀ {V} (f : RunTaskEntry → V) t, dget (List.map (λ kv : string * RunTaskEntry, (kv.1, f kv.2)) g) t = f <$> dget g t) as Hmap.
  { intros V f t. clear. induction g as [|[k e] g' IH]; [done|]. simpl. by case_decide. }
  assert (∀ k t, (∀ x, x ∈ k → x ∈ keys g) →
    let st := foldl (λ st tid, WState (dset (w_weight st) tid 10%Z) (w_left st) (dset (w_done st) tid true)) st0 k in
    dget (w_left st) t = dget (w_left st0) t ∧
    dget (w_weight st) t = (if decide (t ∈ k) then Some 10%Z else dget (w_weight st0) t) ∧
    dget (w_done st) t = (if decide (t ∈ k) then Some true else dget (w_done st0) t)) as Hfold.
  { intros k t _. induction k as [|x k IH] using rev_ind; [done|]. cbv zeta in *.
    rewrite foldl_app. cbn [foldl w_weight w_left w_done]. rewrite !dget_dset.
    destruct IH as (H1 & H2 & H3). rewrite H1, H2, H3. split; [done|].
    destruct (decide (x = t)) as [->|Hne].
    - rewrite !decide_True by (apply elem_of_app; right; apply list_elem_of_here). done.
    - assert (t ∈ k ++ [x] ↔ t ∈ k) as Hk by (rewrite elem_of_app, list_elem_of_singleton; naive_solver).
      destruct (decide (t ∈ k)), (decide (t ∈ k ++ [x])); tauto. }
  assert (∀ x, x ∈ l → x ∈ keys g) as Hlk by (intros x Hx; by apply Hl in Hx as [? _]).
  assert (∀ t, t ∈ keys g → ∃ e, dget g t = Some e ∧ revdeps_of g t = revdeps e) as Hkey.
  { intros t Ht. apply elem_of_keys, elem_of_dkeys in Ht as [e He]. exists e.
    split; [done|]. unfold revdeps_of. by rewrite He. }
  split.
  - intros t Ht. destruct (Hkey t Ht) as (e & He & _). destruct (Hfold l t Hlk) as (H1 & H2 & H3).
    unfold wt_init. fold st0. rewrite H1, H2, H3. unfold st0. cbn [w_weight w_left w_done].
    rewrite (Hmap Z (λ _, 1%Z)), (Hmap Z (λ e, Z.of_nat (size (revdeps e)))), (Hmap bool (λ _, false)), He.
    cbn. split; [by case_decide|]. split; [by eexists|by case_decide].
  - done.
  - done.
  - intros t _. apply not_elem_of_empty.
  - intros t Ht. rewrite Hl. split; [intros [?%elem_of_empty|[_ ->]]; done|].
    intros Hs. right. split; [done|]. set_solver.
  - intros t Ht. destruct (Hkey t Ht) as (e & He & Er). destruct (Hfold l t Hlk) as (H1 & _ & _).
    unfold left_of, wt_init. fold st0. rewrite H1. unfold st0. cbn [w_left].
    rewrite (Hmap Z (λ e, Z.of_nat (size (revdeps e)))), He, Er, difference_empty_L. done.
  - intros t Ht. destruct (Hkey t Ht) as (e & He & Er). destruct (Hfold l t Hlk) as (_ & _ & H3).
    unfold done_of, wt_init. fold st0. rewrite H3. unfold st0. cbn [w_done].
    rewrite (Hmap bool (λ _, false)), He. case_decide.
    + cbn. symmetry. apply bool_decide_eq_true. by right.
    + cbn. symmetry. apply bool_decide_eq_false. intros [?%elem_of_empty|?]; done.
  - intros t Ht. destruct (Hkey t Ht) as (e & He & Er). destruct (Hfold l t Hlk) as (_ & H2 & _).
    unfold weight_of at 1, wt_init. fold st0. rewrite H2. unfold st0. cbn [w_weight].
    rewrite (Hmap Z (λ _, 1%Z)), He. rewrite intersection_empty_r_L. unfold zsum. rewrite elements_empty.
    unfold base. cbn. case_decide as Hd.
    + apply Hl in Hd as [_ ->]. by rewrite bool_decide_eq_true_2.
    + rewrite bool_decide_eq_false_2; [done|]. intros E. apply Hd, Hl. done.
  - intros t [?%elem_of_empty|Ht]; [done|]. apply Hl in Ht as [Ht Hr]. constructor. intros r Hdr.
    apply (go_revdeps _ g_ok t r Ht) in Hdr. rewrite Hr in Hdr. by apply not_elem_of_empty in Hdr.
  - apply empty_subseteq.
Qed.
End weights.

(** ** The loops reported *)

Section loops.
Context {A : Type} (R : A → A → Prop).

(** [l] read as a path, and as a loop. *)
Definition path_list (l : list A) : Prop := match l with [] => True | x :: l => path R x l end.
Definition loop (l : list A) : Prop := match l with [] => False | x :: k => path R x (k ++ [x]) end.

Lemma path_app x l1 y l2 : path R x (l1 ++ y :: l2) ↔ path R x (l1 ++ [y]) ∧ path R y l2.
Proof.
  revert x. induction l1 as [|z l1 IH]; intros x; simpl; [tauto|]. rewrite IH. tauto.
Qed.

Lemma path_list_app_r l1 l2 : path_list (l1 ++ l2) → path_list l2.
Proof.
  destruct l2 as [|y l2]; [done|]. destruct l1 as [|x l1]; [done|]. simpl. by intros [_ ?]%path_app.
Qed.

Lemma path_list_snoc l x y : path_list (l ++ [x]) → R x y → path_list (l ++ [x; y]).
Proof.
  destruct l as [|z l]; simpl; [by split|]. rewrite (path_app z l x [y]). intros ? ?. split; [done|]. by split.
Qed.

Lemma path_list_loop x l y : path_list (x :: l ++ [y]) → R y x → loop (x :: l ++ [y]).
Proof. simpl. intros Hp Hyx. rewrite <-app_assoc. simpl. rewrite path_app. split; [done|]. by split. Qed.

Lemma loop_rotate l1 l2 : loop (l1 ++ l2) → loop (l2 ++ l1).
Proof.
  destruct l1 as [|x l1]; [by rewrite app_nil_r|]. destruct l2 as [|y l2]; [by rewrite app_nil_r|].
  simpl. rewrite <-!app_assoc. simpl. rewrite (path_app x l1 y (l2 ++ [x])), (path_app y l2 x (l1 ++ [y])). tauto.
Qed.
End loops.

Lemma lowest_from_spec c seen rest lowest low :
  c = seen ++ rest → c !! lowest = Some low → (∀ x, x ∈ seen → str_lt x low = false) →
  ∃ m, c !! lowest_from rest (List.length seen) lowest low = Some m ∧ ∀ x, x ∈ c → str_lt x m = false.
Proof.
  revert seen lowest low. induction rest as [|y rest IH]; intros seen lowest low -> Hlow Hseen;
    cbn [lowest_from].
  { rewrite app_nil_r in *. eauto. }
  replace (S (List.length seen)) with (List.length (seen ++ [y])) by (rewrite length_app; simpl; lia).
  destruct (str_lt y low) eqn:E.
  - apply IH; [by rewrite <-app_assoc|by rewrite list_lookup_middle|].
    intros x. rewrite elem_of_app, list_elem_of_singleton. intros [Hx| ->].
    + destruct (str_lt x y) eqn:Exy; [|done]. apply str_lt_spec in E, Exy.
      specialize (Hseen x Hx). rewrite <-Hseen. symmetry. apply str_lt_spec.
      by eapply string_compare_lt_trans.
    + unfold str_lt, String.ltb. by rewrite string_compare_refl.
  - apply IH; [by rewrite <-app_assoc|done|].
    intros x. rewrite elem_of_app, list_elem_of_singleton. intros [Hx| ->]; [by apply Hseen|done].
Qed.

Lemma chain_reorder_spec c :
  c ≠ [] →
  ∃ n, chain_reorder c = drop n c ++ take n c ∧ n < List.length c ∧
    ∃ m, head (chain_reorder c) = Some m ∧ ∀ x, x ∈ c → str_lt x m = false.
Proof.
  destruct c as [|x c]; [done|]. intros _. unfold chain_reorder.
  destruct (lowest_from_spec (x :: c) [x] c 0 x) as (m & Hm & Hle); [done|done| |].
  { intros y ->%list_elem_of_singleton. unfold str_lt, String.ltb. by rewrite string_compare_refl. }
  simpl List.length in Hm. set (n := lowest_from c 1 0 x) in *.
  exists n. split; [done|]. split; [by eapply lookup_lt_Some|]. exists m. split; [|done].
  apply take_drop_middle in Hm as E. rewrite <-E at 1.
  rewrite drop_app_length' by (rewrite length_take; apply lookup_lt_Some in Hm; lia). done.
Qed.

(** A loop as it is reported: a circle of tasks each of which waits for the
    one before, no task twice, the least one first. *)
Definition reported_loop (g : graph) (c : list string) : Prop :=
  loop (λ t r, r ∈ revdeps_of g t) c ∧ NoDup c ∧ (∀ t, t ∈ c → t ∈ keys g) ∧
  ∃ m, head c = Some m ∧ ∀ x, x ∈ c → str_lt x m = false.

Section chains.
Context `{!SetOrder string} (g : graph).
Hypothesis revdeps_closed : ∀ t, revdeps_of g t ⊆ keys g.

Definition waiters_settled (t : string) : Prop := Acc (λ r t, r ∈ revdeps_of g t) t.

Record chains_ok (st : chain_state) : Prop := {
  co_loops : ∀ c, c ∈ valid_chains st → reported_loop g c;
  co_nodup : NoDup (valid_chains st);
  co_bound : List.length (valid_chains st) ≤ 11;
  co_settled : valid_chains st = [] → ∀ u, u ∈ dkeys (explored_deps st) → waiters_settled u
}.

(** How the search goes on: chains are only added, and so are explored tasks. *)
Definition chains_grow (st st' : chain_state) : Prop :=
  (valid_chains st' = [] → valid_chains st = []) ∧
  ∀ u, u ∈ dkeys (explored_deps st) → u ∈ dkeys (explored_deps st').

Definition search {B} (m : M chain_state B) (Q : chain_state → B → Prop) : Prop :=
  ∀ st, chains_ok st → List.length (valid_chains st) ≤ 10 →
  let '(st', r) := m st in
  chains_ok st' ∧ chains_grow st st' ∧
  match r with
  | Ok b => List.length (valid_chains st') ≤ 10 ∧ Q st' b
  | Raise e => e = TooManyLoops ∧ valid_chains st' ≠ []
  end.

Lemma report_chain_ok prev tid revdep :
  path_list (λ t r, r ∈ revdeps_of g t) (prev ++ [tid]) → NoDup (prev ++ [tid]) →
  (∀ t, t ∈ prev ++ [tid] → t ∈ keys g) → revdep ∈ prev ++ [tid] → revdep ∈ revdeps_of g tid →
  search (report_chain g (prev ++ [tid]) revdep) (λ st _, valid_chains st ≠ []).
Proof.
  intros Hp Hnd Hk Hin Hr st [Hl Hn Hb Hs] H10. unfold report_chain.
  destruct (list_find (λ x, x = revdep) (prev ++ [tid])) as [[i y]|] eqn:Ef.
  2:{ apply list_find_None in Ef. rewrite Forall_forall in Ef. by destruct (Ef _ Hin). }
  apply list_find_Some in Ef as (Hi & -> & _).
  set (c := drop i (prev ++ [tid])).
  assert (loop (λ t r, r ∈ revdeps_of g t) c) as Hloop.
  { assert (c = revdep :: drop (S i) (prev ++ [tid])) as Ec by (by apply drop_S).
    assert (path_list (λ t r, r ∈ revdeps_of g t) c) as Hpc.
    { apply (path_list_app_r _ (take i (prev ++ [tid]))). unfold c. by rewrite take_drop. }
    destruct (decide (i < List.length prev)) as [Hlt|Hge].
    - rewrite drop_app_le in Ec by lia. unfold c. rewrite drop_app_le by lia.
      rewrite Ec, <-(drop_app_le _ [tid]) in Hpc by lia. unfold c in Ec. rewrite drop_app_le in Ec by lia.
      rewrite Ec. apply path_list_loop; [|done].
      rewrite drop_app_le in Hpc by lia. exact Hpc.
    - assert (i = List.length prev) as -> by (apply lookup_lt_Some in Hi; rewrite length_app in Hi; simpl in Hi; lia).
      unfold c. rewrite drop_app_length. rewrite list_lookup_middle in Hi by done. injection Hi as <-.
      simpl. by split. }
  destruct (chain_reorder_spec c) as (n & En & Hn' & Hm); [by intros E; rewrite E in Hloop|].
  assert (∀ x, x ∈ chain_reorder c ↔ x ∈ c) as Hmem.
  { intros x. rewrite En. rewrite <-(take_drop n c) at 3. rewrite !elem_of_app. tauto. }
  assert (reported_loop g (chain_reorder c)) as Hrep.
  { split; [|split; [|split]].
    - rewrite En. apply loop_rotate. by rewrite take_drop.
    - rewrite En. rewrite Permutation_app_comm, take_drop. unfold c.
      apply (NoDup_app (take i (prev ++ [tid]))). by rewrite take_drop.
    - intros t Ht. apply Hmem in Ht. apply Hk. unfold c in Ht.
      rewrite <-(take_drop i (prev ++ [tid])), elem_of_app. by right.
    - destruct Hm as (m & ? & Hle). exists m. split; [done|]. intros x Hx. apply Hle. by apply Hmem. }
  rewrite get_bind. rewrite M_bind_eq. unfold chain_array_contains.
  set (new := chain_reorder c) in *.
  set (st1 := if bool_decide (new ∈ valid_chains st) then st else
    ChainState (valid_chains st ++ [new]) (explored_deps st)
      (msgs st ++ [LoopFound (S (List.length (valid_chains st)))] ++
       List.map (λ dep, LoopTask dep (runq_depends_names (deps_of g dep))) new ++ [LoopEnd])).
  match goal with |- context [match ?m st with _ => _ end] => assert (m st = (st1, Ok tt)) as -> end.
  { unfold st1. by case_bool_decide. }
  assert (chains_ok st1 ∧ chains_grow st st1 ∧ valid_chains st1 ≠ []) as (Hok & Hg & Hne).
  { unfold st1. case_bool_decide as Hold.
    - split; [done|]. split; [done|]. intros E. rewrite E in Hold. by apply elem_of_nil in Hold.
    - split; [split; cbn|split; [split|]].
      + intros x. rewrite elem_of_app, list_elem_of_singleton. intros [?| ->]; auto.
      + apply NoDup_app. split; [done|]. split; [|apply NoDup_singleton].
        intros x Hx ->%list_elem_of_singleton. done.
      + rewrite length_app. simpl. lia.
      + intros E. by destruct (valid_chains st).
      + cbn. intros E. by destruct (valid_chains st).
      + done.
      + cbn. intros E. by destruct (valid_chains st). }
  rewrite get_bind. case_bool_decide as H11.
  - cbn. destruct Hok as [A B C D]. split; [by split|]. done.
  - cbn. split; [done|]. split; [done|]. split; [lia|done].
Qed.

Lemma chains_grow_trans a b c : chains_grow a b → chains_grow b c → chains_grow a c.
Proof. intros [A1 B1] [A2 B2]. split; auto. Qed.

Lemma chain_each_ok prev tid visit l total :
  path_list (λ t r, r ∈ revdeps_of g t) (prev ++ [tid]) → NoDup (prev ++ [tid]) →
  (∀ t, t ∈ prev ++ [tid] → t ∈ keys g) → (∀ r, r ∈ l → r ∈ revdeps_of g tid) →
  (∀ r, r ∈ l → r ∉ prev ++ [tid] → search (visit r) (λ st _, r ∈ dkeys (explored_deps st))) →
  search (chain_each g (prev ++ [tid]) visit l total)
    (λ st _, valid_chains st = [] → ∀ r, r ∈ l → r ∈ dkeys (explored_deps st)).
Proof.
  intros Hp Hnd Hk. revert total. induction l as [|r l IH]; intros total Hl Hv st Hst H10; cbn [chain_each].
  { cbn. split; [done|]. split; [by split|]. split; [done|]. by intros _ ? ?%elem_of_nil. }
  assert (∀ total, search (chain_each g (prev ++ [tid]) visit l total)
    (λ st _, valid_chains st = [] → ∀ r, r ∈ l → r ∈ dkeys (explored_deps st))) as IH'.
  { intros total'. apply IH; intros; [apply Hl|apply Hv; [|done]]; by apply list_elem_of_further. }
  clear IH. rename IH' into IH.
  case_bool_decide as Hin.
  - rewrite M_bind_eq.
    pose proof (report_chain_ok prev tid r Hp Hnd Hk Hin (Hl r (list_elem_of_here _ _)) st Hst H10) as Hr.
    destruct (report_chain g (prev ++ [tid]) r st) as [st1 [[]|e]].
    2:{ destruct Hr as (? & ? & ?). done. }
    destruct Hr as (Hst1 & Hg1 & Hlen1 & Hne).
    specialize (IH total st1 Hst1 Hlen1). destruct (chain_each _ _ _ _ _ st1) as [st2 [b|e]].
    + destruct IH as (Hst2 & Hg2 & Hlen2 & Hq). split; [done|]. split; [by eapply chains_grow_trans|].
      split; [done|]. intros E. exfalso. apply Hne. by apply Hg2.
    + destruct IH as (Hst2 & Hg2 & He). split; [done|]. split; [by eapply chains_grow_trans|done].
  - rewrite get_bind, M_bind_eq.
    assert (∃ st1 r1, (if scan_again (prev ++ [tid]) r (explored_deps st) then visit r else mret tt) st = (st1, r1) ∧
      chains_ok st1 ∧ chains_grow st st1 ∧
      match r1 with
      | Ok _ => List.length (valid_chains st1) ≤ 10 ∧ r ∈ dkeys (explored_deps st1)
      | Raise e => e = TooManyLoops ∧ valid_chains st1 ≠ []
      end) as (st1 & r1 & -> & Hst1 & Hg1 & Hr1).
    { destruct (scan_again (prev ++ [tid]) r (explored_deps st)) eqn:Es.
      - pose proof (Hv r (list_elem_of_here _ _) Hin st Hst H10) as Hvr.
        destruct (visit r st) as [st1 r1]. eauto.
      - exists st, (Ok tt). split; [done|]. split; [done|]. split; [by split|]. split; [done|].
        unfold scan_again in Es. destruct (dget (explored_deps st) r) eqn:E; [|done].
        apply elem_of_dkeys. by eexists. }
    destruct r1 as [[]|e]; [|done]. destruct Hr1 as [Hlen1 Hr1].
    rewrite get_bind, lift_bind. apply elem_of_dkeys in Hr1 as Hex. destruct Hex as [ex Hex]. rewrite Hex.
    cbn [of_option].
    specialize (IH (foldl (λ acc dep, if bool_decide (dep ∈ acc) then acc else acc ++ [dep]) total ex) st1 Hst1 Hlen1).
    destruct (chain_each _ _ _ _ _ st1) as [st2 [b|e]].
    + destruct IH as (Hst2 & Hg2 & Hlen2 & Hq). split; [done|]. split; [by eapply chains_grow_trans|].
      split; [done|]. intros E x [->|Hx]%elem_of_cons; [by apply Hg2|by apply Hq].
    + destruct IH as (Hst2 & Hg2 & He). split; [done|]. split; [by eapply chains_grow_trans|done].
Qed.

Lemma find_chains_ok fuel tid prev :
  path_list (λ t r, r ∈ revdeps_of g t) (prev ++ [tid]) → NoDup (prev ++ [tid]) →
  (∀ t, t ∈ prev ++ [tid] → t ∈ keys g) → size (keys g) < fuel + S (List.length prev) →
  search (find_chains g fuel tid prev) (λ st _, tid ∈ dkeys (explored_deps st)).
Proof.
  revert tid prev. induction fuel as [|fuel IH]; intros tid prev Hp Hnd Hk Hf st Hst H10.
  { exfalso. assert (size (list_to_set (prev ++ [tid]) : gset string) ≤ size (keys g)) as Hs.
    { apply subseteq_size. intros x. rewrite elem_of_list_to_set. apply Hk. }
    rewrite size_list_to_set, length_app in Hs by done. simpl in *. lia. }
  cbn [find_chains]. rewrite lift_bind.
  assert (tid ∈ keys g) as Ht by (apply Hk, elem_of_app; right; apply list_elem_of_here).
  apply elem_of_keys, elem_of_dkeys in Ht as He. destruct He as [e He]. rewrite He. cbn [of_option].
  assert (revdeps_of g tid = revdeps e) as Er by (unfold revdeps_of; by rewrite He).
  rewrite M_bind_eq.
  pose proof (chain_each_ok prev tid (λ r, find_chains g fuel r (prev ++ [tid])) (set_iter (revdeps e))
    (set_iter (revdeps e)) Hp Hnd Hk) as Heach.
  specialize (Heach ltac:(intros r Hr; rewrite Er; by apply elem_of_set_iter)).
  assert (∀ r, r ∈ set_iter (revdeps e) → r ∉ prev ++ [tid] →
    search (find_chains g fuel r (prev ++ [tid])) (λ st _, r ∈ dkeys (explored_deps st))) as Hv.
  { intros r Hr Hn. apply elem_of_set_iter in Hr. apply IH.
    - rewrite <-app_assoc. apply path_list_snoc; [done|]. by rewrite Er.
    - apply NoDup_app. split; [done|]. split; [|apply NoDup_singleton].
      intros x Hx ->%list_elem_of_singleton. done.
    - intros t. rewrite elem_of_app, list_elem_of_singleton. intros [?| ->]; [by apply Hk|].
      apply (revdeps_closed tid). by rewrite Er.
    - rewrite length_app. simpl. lia. }
  specialize (Heach Hv st Hst H10).
  destruct (chain_each _ _ _ _ _ st) as [st1 [total|ex]]; [|done].
  destruct Heach as (Hst1 & Hg1 & Hlen1 & Hq). unfold modify. split; [|split; [|split]].
  - destruct Hst1 as [A B C D]. split; cbn [valid_chains explored_deps]; [done..|].
    intros E u [->|Hu]%elem_of_dkeys_dset; [|by apply D]. constructor. intros r Hr. apply D; [done|].
    apply Hq; [done|]. rewrite Er in Hr. by apply elem_of_set_iter.
  - eapply chains_grow_trans; [done|]. split; cbn [valid_chains explored_deps]; [done|].
    intros u Hu. apply elem_of_dkeys_dset. by right.
  - done.
  - cbn [explored_deps]. apply elem_of_dkeys_dset. by left.
Qed.

(** The whole report. *)
Lemma handler_ok tasks :
  (∀ t, t ∈ tasks → t ∈ keys g) →
  let '(st, r) := circular_depchains_handler g tasks in
  r = Ok tt ∧ chains_ok st ∧ (valid_chains st = [] → ∀ t, t ∈ tasks → waiters_settled t).
Proof.
  intros Ht. unfold circular_depchains_handler, catch.
  assert (∀ st, chains_ok st → List.length (valid_chains st) ≤ 10 →
    let '(st', r) := for_each tasks (λ task, find_chains g (S (List.length g)) task []) st in
    chains_ok st' ∧ chains_grow st st' ∧
    match r with
    | Ok _ => ∀ t, t ∈ tasks → t ∈ dkeys (explored_deps st')
    | Raise e => e = TooManyLoops ∧ valid_chains st' ≠ []
    end) as Hall.
  { induction tasks as [|t tasks IH]; intros st Hst H10; cbn [for_each].
    { split; [done|]. split; [by split|]. by intros ? ?%elem_of_nil. }
    pose proof (find_chains_ok (S (List.length g)) t [] ) as Hf. rewrite app_nil_l in Hf.
    specialize (Hf I (NoDup_singleton _)).
    specialize (Hf ltac:(intros x ->%list_elem_of_singleton; apply Ht, list_elem_of_here)).
    specialize (Hf ltac:(pose proof (size_keys g); simpl; lia) st Hst H10).
    rewrite M_bind_eq. destruct (find_chains g _ t [] st) as [st1 [[]|e]]; [|done].
    destruct Hf as (Hst1 & Hg1 & Hlen1 & Hex).
    specialize (IH ltac:(intros; apply Ht; by apply list_elem_of_further) st1 Hst1 Hlen1).
    destruct (for_each tasks _ st1) as [st2 [[]|e]]; destruct IH as (Hst2 & Hg2 & He);
      (split; [done|]; split; [by eapply chains_grow_trans|]); [|done].
    intros x [->|Hx]%elem_of_cons; [by apply Hg2|by apply He]. }
  specialize (Hall (ChainState [] [] [])).
  assert (chains_ok (ChainState [] [] [])) as H0.
  { split; cbn; [by intros ? ?%elem_of_nil|apply NoDup_nil_2|lia|by intros _ ? ?%elem_of_nil]. }
  specialize (Hall H0 ltac:(simpl; lia)).
  destruct (for_each tasks _ _) as [st [[]|e]]; destruct Hall as (Hst & _ & Hr).
  - split; [done|]. split; [done|]. intros E t Htt. apply (co_settled _ Hst E). by apply Hr.
  - destruct Hr as [-> Hne]. cbn. split; [done|]. split; [done|]. intros E. done.
Qed.
End chains.

(** ** The end of the weighing *)

Section outcome.
Context `{!SetOrder string} (g : graph) (g_ok : graph_ok g) (st : wstate) (Dn : gset string).
Hypothesis ended : round_inv g st [] Dn.

Lemma ended_ready t : t ∈ keys g → t ∈ Dn ↔ revdeps_of g t ⊆ Dn.
Proof.
  intros Ht. rewrite <-(ri_ready _ _ _ _ ended t Ht). split; [by left|by intros [?|?%elem_of_nil]].
Qed.

Lemma ended_problem t : t ∈ keys g → wt_problem st t = true ↔ t ∉ Dn.
Proof.
  intros Ht. unfold wt_problem. change (default false (dget (w_done st) t)) with (done_of st t).
  change (default 0%Z (dget (w_left st) t)) with (left_of st t).
  rewrite (ri_done _ _ _ _ ended t Ht), (ri_left _ _ _ _ ended t Ht).
  destruct (decide (t ∈ Dn)) as [Hd|Hd].
  - rewrite bool_decide_eq_true_2 by (by left).
    assert (size (revdeps_of g t ∖ Dn) = 0) as ->; [|by split].
    apply size_empty_iff. intros x. rewrite elem_of_difference. split; [|by intros ?%elem_of_empty].
    intros [Hx Hn]. exfalso. apply Hn. by apply (ended_ready t Ht).
  - rewrite bool_decide_eq_false_2 by (intros [?|?%elem_of_nil]; done). done.
Qed.

Lemma revdeps_all_keys t : revdeps_of g t ⊆ keys g.
Proof.
  destruct (decide (t ∈ keys g)) as [Ht|Ht]; [by apply revdeps_keys|].
  unfold revdeps_of. destruct (dget g t) eqn:E; [|apply empty_subseteq].
  exfalso. apply Ht, elem_of_keys, elem_of_dkeys. by eexists.
Qed.

Lemma ended_acyclic : (∀ t, t ∈ keys g → t ∈ Dn) → acyclic g.
Proof.
  intros Hall t Ht. assert (t ∈ keys g) as Htk.
  { inversion Ht as [? ? Hd|? ? ? Hd]; subst; by eapply dep_key. }
  assert (Acc (λ r t, dep g r t) t) as Hs by (apply (ri_settled _ _ _ _ ended); left; by apply Hall).
  by apply (Acc_no_cycle (λ r t, dep g r t) t).
Qed.

Lemma ended_weight t :
  (∀ t, t ∈ keys g → t ∈ Dn) → t ∈ keys g →
  ∃ wt, dget (w_weight st) t = Some wt ∧
    wt = (base g t + zsum (weight_of st) (revdeps_of g t))%Z.
Proof.
  intros Hall Ht. destruct (ri_full _ _ _ _ ended t Ht) as ([wt Hwt] & _). exists wt. split; [done|].
  pose proof (ri_weight _ _ _ _ ended t Ht) as Hw. unfold weight_of at 1 in Hw. rewrite Hwt in Hw.
  cbn [default from_option id] in Hw. rewrite Hw. f_equal.
  assert (revdeps_of g t ∩ Dn = revdeps_of g t) as ->; [|done].
  apply set_eq. intros x. rewrite elem_of_intersection. split; [by intros [? _]|]. intros Hx.
  split; [done|]. apply Hall. by apply revdeps_all_keys in Hx.
Qed.

(** A task that is left over waits, in the end, on a loop. *)
Lemma ended_waiters t : t ∈ keys g → waiters_settled g t → t ∈ Dn.
Proof.
  intros Ht Hs. induction Hs as [t _ IH]. apply (ended_ready t Ht). intros r Hr.
  apply IH; [done|]. by apply (revdeps_all_keys t).
Qed.

Lemma waits_dep a b : b ∈ revdeps_of g a → dep g b a.
Proof.
  intros Hb. apply (go_revdeps _ g_ok a b); [|done]. unfold revdeps_of in Hb.
  destruct (dget g a) eqn:E; [|by apply elem_of_empty in Hb].
  apply elem_of_keys, elem_of_dkeys. by eexists.
Qed.

Lemma ended_cycle p : p ∈ keys g → p ∉ Dn → ¬ acyclic g.
Proof.
  intros Hp Hn Hac. destruct (finite_cycle (flip (dep g)) (keys g ∖ Dn) p) as [z Hz].
  - by apply elem_of_difference.
  - intros y [Hy Hyn]%elem_of_difference. rewrite (ended_ready y Hy) in Hyn.
    assert (revdeps_of g y ∖ Dn ≢ ∅) as Hne.
    { intros E. apply Hyn. intros x Hx. destruct (decide (x ∈ Dn)); [done|]. exfalso.
      apply (elem_of_empty (C := gset string) x), E. by apply elem_of_difference. }
    apply set_choose in Hne as [r [Hr Hrn]%elem_of_difference]. exists r. split; [|by apply waits_dep].
    apply elem_of_difference. split; [by apply (revdeps_all_keys y)|done].
  - apply (Hac z). by apply (tc_flip_1 (dep g)).
Qed.
End outcome.

(** New weights leave the shape of the graph alone. *)
Lemma set_weights_same (f : string → Z) g t :
  let g' := List.map (λ kv : string * RunTaskEntry, (kv.1, set_weight kv.2 (f kv.1))) g in
  revdeps_of g' t = revdeps_of g t ∧ deps_of g' t = deps_of g t ∧ keys g' = keys g.
Proof.
  cbv zeta.
  assert (dget (List.map (λ kv : string * RunTaskEntry, (kv.1, set_weight kv.2 (f kv.1))) g) t
    = (λ e, set_weight e (f t)) <$> dget g t) as E.
  { induction g as [|[k e] g' IH]; [done|]. simpl. by case_decide; subst. }
  unfold revdeps_of, deps_of. rewrite E. split; [by destruct (dget g t)|]. split; [by destruct (dget g t)|].
  unfold keys, dkeys. f_equal. clear. induction g as [|[k e] g' IH]; [done|]. simpl. by f_equal.
Qed.

(** On a graph as [prepare] builds it, started at its endpoints,
    the weighing of the tasks always ends.  Without a circular dependency it
    gives every task the weight 1, or 10 when nothing depends on it, plus the
    weights of all the tasks that depend on it, and changes nothing else of
    the entries.  With one it ends in the fatal error, after a report of at
    least one genuine dependency loop and at most eleven, none twice. *)
Lemma weights_correct `{!SetOrder string} g endpoints :
  graph_ok g → endpoints_ok g endpoints →
  (acyclic g ∧ ∃ w,
     calculate_task_weights g endpoints =
       Ok (List.map (λ kv, (kv.1, set_weight kv.2 (default 1%Z (dget w kv.1)))) g, w) ∧
     ∀ t, t ∈ keys g →
       ∃ wt, dget w t = Some wt ∧
         wt = ((if bool_decide (revdeps_of g t = ∅) then 10 else 1)
               + zsum (λ r, default 0 (dget w r)) (revdeps_of g t))%Z) ∨
  (¬ acyclic g ∧ calculate_task_weights g endpoints = Raise Fatal ∧
     ∃ problem_tasks st, problem_tasks ≠ [] ∧
       circular_depchains_handler g problem_tasks = (st, Ok tt) ∧
       valid_chains st ≠ [] ∧ List.length (valid_chains st) ≤ 11 ∧ NoDup (valid_chains st) ∧
       ∀ c, c ∈ valid_chains st → reported_loop g c).
Proof.
  intros Hg Hend. unfold calculate_task_weights.
  destruct (wt_loop_spec g Hg (S (List.length g)) (wt_init g endpoints) endpoints ∅) as (st & Dn & -> & Hinv).
  { by apply wt_init_inv. }
  { pose proof (size_keys g). rewrite difference_empty_L. lia. }
  cbn [mbind res_bind].
  set (problems := List.filter (wt_problem st) (dkeys g)).
  assert (∀ t, t ∈ problems ↔ t ∈ keys g ∧ t ∉ Dn) as Hin.
  { intros t. unfold problems. rewrite list_elem_of_In, filter_In, <-list_elem_of_In, <-elem_of_keys.
    split; intros [Ht Hp]; (split; [done|]); by apply (ended_problem g st Dn Hinv t Ht). }
  destruct problems as [|p problems'].
  - left.
    assert (∀ t, t ∈ keys g → t ∈ Dn) as Hall.
    { intros t Ht. destruct (decide (t ∈ Dn)) as [?|Hn]; [done|]. exfalso.
      apply (proj1 (elem_of_nil t)). by apply Hin. }
    split; [by eapply ended_acyclic|]. exists (w_weight st). split; [done|].
    intros t Ht. by apply (ended_weight g Hg st Dn Hinv).
  - right. assert (p ∈ keys g ∧ p ∉ Dn) as [Hp Hpn] by apply Hin, list_elem_of_here.
    split; [by eapply ended_cycle|].
    assert (∀ t, t ∈ p :: problems' → t ∈ keys g) as Hpk by (intros t Ht; by apply Hin in Ht as [? _]).
    set (f := λ k, default 1%Z (dget (w_weight st) k)).
    set (g' := List.map (λ kv : string * RunTaskEntry, (kv.1, set_weight kv.2 (f kv.1))) g).
    assert (∀ t, revdeps_of g' t = revdeps_of g t ∧ deps_of g' t = deps_of g t ∧ keys g' = keys g) as Hsame
      by (intros t; apply set_weights_same).
    pose proof (handler_ok g') as Hh'. destruct (Hsame "") as (_ & _ & Ek). rewrite Ek in Hh'.
    specialize (Hh' ltac:(intros t; rewrite (proj1 (Hsame t)); by apply revdeps_all_keys) (p :: problems') Hpk).
    destruct (circular_depchains_handler g' (p :: problems')) as [st' r'] eqn:E'. destruct Hh' as (-> & _ & _).
    change (List.map (λ kv : string * RunTaskEntry, (kv.1, set_weight kv.2 (default 1%Z (dget (w_weight st) kv.1)))) g) with g'.
    rewrite E'. split; [done|].
    pose proof (handler_ok g (revdeps_all_keys g Hg) (p :: problems') Hpk) as Hh.
    destruct (circular_depchains_handler g (p :: problems')) as [st1 r1] eqn:E1. destruct Hh as (-> & Hok & Hs).
    exists (p :: problems'), st1. split; [done|]. split; [done|]. split.
    { intros E. apply Hpn. apply (ended_waiters g Hg st Dn Hinv); [done|]. apply Hs; [done|apply list_elem_of_here]. }
    split; [apply Hok|]. split; [apply Hok|]. apply Hok.
Qed.

(** ** Reverse dependencies and endpoints *)

Section reverse.
Context `{!SetOrder string}.

(** The same tasks with the same dependencies. *)
Definition same_deps (g g' : graph) : Prop := dkeys g' = dkeys g ∧ ∀ t, deps_of g' t = deps_of g t.

Lemma add_revdep_ok tid g d :
  d ∈ dkeys g →
  ∃ g', add_revdep tid g d = Ok g' ∧ same_deps g g' ∧
    ∀ t, revdeps_of g' t = (if decide (d = t) then {[tid]} else ∅) ∪ revdeps_of g t.
Proof.
  intros Hd. apply elem_of_dkeys in Hd as Hd'. destruct Hd' as [e He].
  unfold add_revdep. rewrite He. cbn [mbind res_bind of_option]. eexists. split; [done|]. split; [split|].
  - rewrite dkeys_dset. by rewrite (proj2 (dmem_spec g d) Hd).
  - intros t. unfold deps_of. rewrite dget_dset. case_decide; subst; [by rewrite He|done].
  - intros t. unfold revdeps_of. rewrite dget_dset. case_decide; subst; [by rewrite He|].
    by rewrite union_empty_l_L.
Qed.

Lemma add_revdep_fold tid ds g :
  (∀ d, d ∈ ds → d ∈ dkeys g) →
  ∃ g', fold_res (add_revdep tid) g ds = Ok g' ∧ same_deps g g' ∧
    ∀ t r, r ∈ revdeps_of g' t ↔ (r = tid ∧ t ∈ ds) ∨ r ∈ revdeps_of g t.
Proof.
  revert g. induction ds as [|d ds IH]; intros g Hds; cbn [fold_res].
  { exists g. split; [done|]. split; [done|]. intros t r. split; [by right|].
    intros [[_ H]|?]; [by apply elem_of_nil in H|done]. }
  destruct (add_revdep_ok tid g d) as (g1 & -> & [K1 D1] & R1); [apply Hds, list_elem_of_here|].
  cbn [mbind res_bind]. destruct (IH g1) as (g2 & -> & [K2 D2] & R2).
  { intros x Hx. rewrite K1. apply Hds. by apply list_elem_of_further. }
  exists g2. split; [done|]. split; [split; [congruence|intros; by rewrite D2]|].
  intros t r. rewrite R2, R1, elem_of_union, elem_of_cons. case_decide; subst.
  - rewrite elem_of_singleton. tauto.
  - rewrite elem_of_empty. naive_solver.
Qed.

(** Reverse dependencies mirror the dependencies of the tasks seen so far. *)
Lemma add_revdeps_fold l g g0 :
  graph_closed g → same_deps g g0 →
  ∃ g', fold_res (λ acc tid, fold_res (add_revdep tid) acc (set_iter (deps_of acc tid))) g0 l = Ok g' ∧
    same_deps g g' ∧ ∀ t r, r ∈ revdeps_of g' t ↔ (r ∈ l ∧ dep g r t) ∨ r ∈ revdeps_of g0 t.
Proof.
  intros Hcl. revert g0. induction l as [|x l IH]; intros g0 [K0 D0]; cbn [fold_res].
  { exists g0. split; [done|]. split; [done|]. intros t r. split; [by right|].
    intros [[H _]|?]; [by apply elem_of_nil in H|done]. }
  destruct (add_revdep_fold x (set_iter (deps_of g0 x)) g0) as (g1 & -> & [K1 D1] & R1).
  { intros d Hd. apply elem_of_set_iter in Hd. rewrite D0 in Hd. rewrite K0.
    apply elem_of_keys. by apply (Hcl x). }
  cbn [mbind res_bind]. destruct (IH g1) as (g2 & -> & Hs & R2).
  { split; [congruence|]. intros t. by rewrite D1. }
  exists g2. split; [done|]. split; [done|]. intros t r.
  rewrite R2, R1, elem_of_cons, elem_of_set_iter, D0. unfold dep. naive_solver.
Qed.

Lemma add_revdeps_ok g :
  dict_wf g → graph_closed g → (∀ t, revdeps_of g t = ∅) →
  ∃ g', add_revdeps g = Ok g' ∧ graph_ok g' ∧ same_deps g g'.
Proof.
  intros Hwf Hcl Hr. unfold add_revdeps.
  destruct (add_revdeps_fold (dkeys g) g g Hcl) as (g' & -> & [K D] & R); [done|].
  exists g'. split; [done|]. split; [|done].
  assert (∀ t r, dep g' r t ↔ dep g r t) as Hdep by (intros t r; unfold dep; by rewrite D).
  assert (keys g' = keys g) as Hk by (unfold keys; by rewrite K). split.
  - change (NoDup (dkeys g')). by rewrite K.
  - intros t d. rewrite Hdep, Hk. apply Hcl.
  - intros t r Ht. rewrite R, Hr, Hdep. split; [intros [[_ ?]|?%elem_of_empty]; done|].
    intros Hd. left. split; [|done]. apply elem_of_keys. by eapply dep_key.
Qed.

(** Two tasks that depend on each other. *)
Definition two_loop (g : graph) : Prop := ∃ t r, dep g t r ∧ dep g r t.

Lemma find_endpoints_ok g :
  graph_ok g →
  (∃ l, find_endpoints g = Ok l ∧ endpoints_ok g l) ∨ (find_endpoints g = Raise Fatal ∧ two_loop g).
Proof.
  intros Hg. unfold find_endpoints.
  enough (∀ k acc, k `sublist_of` g →
    (∃ l, fold_res endpoint_step acc k = Ok l ∧
       l = acc ++ List.map fst (List.filter (λ kv, bool_decide (revdeps kv.2 = ∅)) k)) ∨
    (fold_res endpoint_step acc k = Raise Fatal ∧ two_loop g)) as Hk.
  { destruct (Hk g [] ltac:(done)) as [(l & E & ->)|?]; [left|by right]. eexists. split; [done|].
    cbn. split.
    - assert (NoDup (dkeys g)) as Hnd by apply (go_wf _ Hg). unfold dkeys in Hnd.
      clear -Hnd. induction g as [|[k e] g' IH]; [apply NoDup_nil_2|]. simpl in *.
      apply NoDup_cons in Hnd as [Hkn Hnd]. case_bool_decide; [|by apply IH]. simpl.
      apply NoDup_cons. split; [|by apply IH]. intros Hin. apply Hkn.
      apply elem_of_map in Hin as (kv & -> & Hkv). apply list_elem_of_fmap_2.
      by apply list_elem_of_In, filter_In in Hkv as [?%list_elem_of_In _].
    - intros t. rewrite elem_of_map, elem_of_keys. split.
      + intros (kv & -> & Hkv). apply list_elem_of_In, filter_In in Hkv as [Hkv He].
        apply list_elem_of_In in Hkv. apply bool_decide_eq_true in He.
        destruct kv as [t e]. apply (elem_of_dget _ _ _ (go_wf _ Hg)) in Hkv as Eg. simpl in *.
        split; [apply elem_of_dkeys; by eexists|]. unfold revdeps_of. by rewrite Eg.
      + intros [Ht He]. apply elem_of_dkeys in Ht as [e Eg]. exists (t, e). split; [done|].
        apply list_elem_of_In, filter_In. split; [apply list_elem_of_In; by apply dget_elem_of|].
        apply bool_decide_eq_true. simpl. unfold revdeps_of in He. by rewrite Eg in He. }
  induction k as [|[t e] k IH]; intros acc Hk; cbn [fold_res].
  { left. exists acc. split; [done|]. simpl. by rewrite app_nil_r. }
  assert ((t, e) ∈ g) as Hin by (eapply sublist_subseteq; [done|apply list_elem_of_here]).
  assert (k `sublist_of` g) as Hk' by (etrans; [by apply sublist_cons|done]).
  assert (endpoint_step acc (t, e) =
    if existsb (λ dep, bool_decide (dep ∈ depends e)) (set_iter (revdeps e)) then Raise Fatal
    else Ok (if bool_decide (revdeps e = ∅) then acc ++ [t] else acc)) as -> by done.
  destruct (existsb _ _) eqn:Ex.
  - right. split; [done|]. apply existsb_exists in Ex as (r & Hr & Hd).
    apply list_elem_of_In, elem_of_set_iter in Hr. apply bool_decide_eq_true in Hd.
    apply (elem_of_dget _ _ _ (go_wf _ Hg)) in Hin as Eg. exists t, r. split.
    + unfold dep, deps_of. by rewrite Eg.
    + apply (go_revdeps _ Hg t r).
      * apply elem_of_keys, elem_of_dkeys. by eexists.
      * unfold revdeps_of. by rewrite Eg.
  - cbn [mbind res_bind List.filter snd]. destruct (bool_decide (revdeps e = ∅)).
    + destruct (IH (acc ++ [t]) Hk') as [(l & -> & ->)|?]; [left|by right].
      eexists. split; [done|]. simpl. by rewrite <-app_assoc.
    + by apply IH.
Qed.
End reverse.

(** Step D of [prepare]: reverse dependencies, endpoints, weights. *)
Definition check_graph `{!SetOrder string} (g : graph) : res (graph * dict Z) :=
  g ← add_revdeps g;
  endpoints ← find_endpoints g;
  calculate_task_weights g endpoints.

Lemma acyclic_same g g' : same_deps g g' → acyclic g ↔ acyclic g'.
Proof.
  intros [_ D]. unfold acyclic.
  assert (∀ a b, dep g a b ↔ dep g' a b) as Hd by (intros a b; unfold dep; by rewrite D).
  assert (∀ a b, tc (dep g) a b ↔ tc (dep g') a b) as Ht.
  { intros a b. split; (induction 1 as [a b Hab|a b c Hab _ IH];
      [constructor; by apply Hd|eapply tc_l; [by apply Hd|done]]). }
  by setoid_rewrite Ht.
Qed.

Lemma check_graph_ok `{!SetOrder string} g :
  dict_wf g → graph_closed g → (∀ t, revdeps_of g t = ∅) →
  (acyclic g ∧ ∃ g' w, check_graph g = Ok (g', w) ∧ graph_ok g' ∧ same_deps g g' ∧
     ∀ t e, dget g' t = Some e →
       dget w t = Some (rt_weight e) ∧
       rt_weight e = ((if bool_decide (revdeps e = ∅) then 10 else 1)
                      + zsum (λ r, default 0 (dget w r)) (revdeps e))%Z) ∨
  (¬ acyclic g ∧ check_graph g = Raise Fatal).
Proof.
  intros Hwf Hcl Hr. unfold check_graph.
  destruct (add_revdeps_ok g Hwf Hcl Hr) as (g1 & -> & Hg1 & Hs1). cbn [mbind res_bind].
  destruct (find_endpoints_ok g1 Hg1) as [(l & -> & Hl)|[-> (t & r & Ht & Hr')]].
  2:{ right. split; [|done]. rewrite (acyclic_same g g1 Hs1). intros Hac. apply (Hac t).
      eapply tc_l; [done|]. by constructor. }
  cbn [mbind res_bind]. rewrite (acyclic_same g g1 Hs1).
  destruct (weights_correct g1 l Hg1 Hl) as [(Hac & w & -> & Hw)|(Hac & -> & _)]; [left|by right].
  split; [done|].
  set (g2 := List.map (λ kv : string * RunTaskEntry, (kv.1, set_weight kv.2 (default 1%Z (dget w kv.1)))) g1).
  assert (∀ t, dget g2 t = (λ e, set_weight e (default 1%Z (dget w t))) <$> dget g1 t) as Hget.
  { intros t. unfold g2. clear. induction g1 as [|[k e] g' IH]; [done|]. simpl. by case_decide; subst. }
  assert (∀ t, revdeps_of g2 t = revdeps_of g1 t ∧ deps_of g2 t = deps_of g1 t) as Hsame.
  { intros t. unfold revdeps_of, deps_of. rewrite Hget. by destruct (dget g1 t). }
  assert (dkeys g2 = dkeys g1) as Hk.
  { unfold g2, dkeys. clear. induction g1 as [|[k e] g' IH]; [done|]. simpl. by f_equal. }
  assert (∀ a b, dep g2 a b ↔ dep g1 a b) as Hdep by (intros a b; unfold dep; by rewrite (proj2 (Hsame a))).
  exists g2, w. split; [done|]. split; [split|split].
  - change (NoDup (dkeys g2)). rewrite Hk. apply (go_wf _ Hg1).
  - intros a b. rewrite Hdep. unfold keys. rewrite Hk. apply (go_closed _ Hg1).
  - intros a b Ha. rewrite Hdep, (proj1 (Hsame a)). apply (go_revdeps _ Hg1).
    unfold keys in *. by rewrite <-Hk.
  - destruct Hs1 as [K D]. split; [congruence|]. intros t. by rewrite (proj2 (Hsame t)), D.
  - intros t e He. rewrite Hget in He. destruct (dget g1 t) as [e1|] eqn:E1; [|done].
    injection He as <-. destruct (Hw t) as (wt & Hwt & Ewt).
    { apply elem_of_keys, elem_of_dkeys. by eexists. }
    rewrite Hwt. cbn. split; [done|]. rewrite Ewt. unfold revdeps_of. by rewrite E1.
Qed.

(** C30: on any graph whose dependencies are tasks, the sanity checks of
    [prepare] end.  They pass exactly when there is no circular dependency;
    then the tasks and their dependencies are unchanged, the reverse
    dependencies mirror them, and every task is weighed: 1, or 10 for a task
    nothing depends on, plus the weights of all tasks that depend on it.
    Otherwise they end in the fatal error. *)
Theorem check_graph_correct `{!SetOrder string} g :
  dict_wf g → graph_closed g → (∀ t, revdeps_of g t = ∅) →
  (acyclic g ∧ ∃ g' w, check_graph g = Ok (g', w) ∧ graph_ok g' ∧ same_deps g g' ∧
     ∀ t e, dget g' t = Some e →
       dget w t = Some (rt_weight e) ∧
       rt_weight e = ((if bool_decide (revdeps e = ∅) then 10 else 1)
                      + zsum (λ r, default 0 (dget w r)) (revdeps e))%Z) ∨
  (¬ acyclic g ∧ check_graph g = Raise Fatal).
Proof. apply check_graph_ok. Qed.

(** C35: the search for circular dependencies always ends.  It reports at
    most eleven chains, no chain twice; every chain is a genuine loop: distinct
    tasks in a circle, each of which waits for the one before, starting from
    the least.  When none of the tasks it is given leads to a loop it reports
    none, and when it reports none, none of them does. *)
Theorem circular_depchains_handler_sound `{!SetOrder string} g tasks :
  (∀ t, revdeps_of g t ⊆ keys g) → (∀ t, t ∈ tasks → t ∈ keys g) →
  ∃ st, circular_depchains_handler g tasks = (st, Ok tt) ∧
    List.length (valid_chains st) ≤ 11 ∧ NoDup (valid_chains st) ∧
    (∀ c, c ∈ valid_chains st → reported_loop g c) ∧
    (valid_chains st = [] → ∀ t, t ∈ tasks → Acc (λ r t, r ∈ revdeps_of g t) t).
Proof.
  intros Hr Ht. pose proof (handler_ok g Hr tasks Ht) as H.
  destruct (circular_depchains_handler g tasks) as [st r]. destruct H as (-> & Hok & Hs).
  exists st. split; [done|]. split; [apply Hok|]. split; [apply Hok|]. split; [apply Hok|done].
Qed.

(** ** The order of the hashes *)

(** Every task comes after all it depends on. *)
Definition topological (g : graph) (order : list string) : Prop :=
  ∀ l1 t l2, order = l1 ++ t :: l2 → deps_of g t ⊆ list_to_set l1.

Section hashes.
Context `{!SetOrder string} (g : graph).
Hypotheses (g_closed : graph_closed g) (g_acyclic : acyclic g).

Definition hash_inv (st : gset string * gset string * list string) : Prop :=
  let '(dealt, todo, order) := st in
  dealt = list_to_set order ∧ NoDup order ∧ topological g order ∧ dealt ## todo ∧ dealt ∪ todo = keys g.

Lemma topological_snoc order t :
  topological g order → deps_of g t ⊆ list_to_set order → topological g (order ++ [t]).
Proof.
  intros Ho Ht l1 u l2 E. destruct (decide (l2 = [])) as [->|Hne].
  - apply app_inj_tail in E as [<- <-]. done.
  - destruct l2 as [|x l2 _] using rev_ind; [done|].
    rewrite app_comm_cons, app_assoc in E. apply app_inj_tail in E as [E _]. by apply (Ho l1 u l2).
Qed.

Lemma hash_pass_ok l dealt todo order :
  hash_inv (dealt, todo, order) → NoDup l → (∀ t, t ∈ l → t ∈ todo) →
  ∃ dealt' todo' order', fold_res (hash_pass g) (dealt, todo, order) l = Ok (dealt', todo', order') ∧
    hash_inv (dealt', todo', order') ∧ todo' ⊆ todo ∧
    ∀ t, t ∈ l → deps_of g t ⊆ dealt → t ∉ todo'.
Proof.
  revert dealt todo order. induction l as [|t l IH]; intros dealt todo order Hi Hnd Hl; cbn [fold_res].
  { exists dealt, todo, order. split; [done|]. split; [done|]. split; [done|]. by intros ? ?%elem_of_nil. }
  apply NoDup_cons in Hnd as [Htl Hnd]. destruct Hi as (Hd & Ho & Htop & Hdis & Hun).
  assert (t ∈ todo) as Ht by apply Hl, list_elem_of_here.
  assert (t ∈ keys g) as Htk by (rewrite <-Hun; by apply elem_of_union_r).
  apply elem_of_keys, elem_of_dkeys in Htk as [e He].
  assert (deps_of g t = depends e) as Hde by (unfold deps_of; by rewrite He).
  assert (hash_pass g (dealt, todo, order) t =
          if bool_decide (depends e ∖ dealt = ∅) then Ok ({[t]} ∪ dealt, todo ∖ {[t]}, order ++ [t])
          else Ok (dealt, todo, order)) as ->.
  { unfold hash_pass. by rewrite He. }
  case_bool_decide as Hready; cbn [mbind res_bind].
  - assert (depends e ⊆ dealt) as Hsub.
    { intros d Hd'. destruct (decide (d ∈ dealt)); [done|]. exfalso.
      assert (d ∈ depends e ∖ dealt) as Hn by (by apply elem_of_difference).
      rewrite Hready in Hn. by apply elem_of_empty in Hn. }
    destruct (IH ({[t]} ∪ dealt) (todo ∖ {[t]}) (order ++ [t])) as (d' & td' & o' & -> & Hi' & Hs & Hall).
    + split; [|split; [|split; [|split]]].
      * rewrite list_to_set_app_L, Hd. simpl. rewrite union_empty_r_L. apply union_comm_L.
      * apply NoDup_app. split; [done|]. split; [|apply NoDup_singleton].
        intros x Hx ->%list_elem_of_singleton. apply (Hdis t); [|done]. rewrite Hd. by apply elem_of_list_to_set.
      * apply topological_snoc; [done|]. by rewrite Hde, <-Hd.
      * intros x. rewrite elem_of_union, elem_of_singleton, elem_of_difference, elem_of_singleton.
        intros [->|Hx] [Hx2 Hn]; [done|by apply (Hdis x)].
      * rewrite <-Hun. apply set_eq. intros x.
        rewrite !elem_of_union, elem_of_difference, !elem_of_singleton.
        destruct (decide (x = t)) as [->|]; tauto.
    + done.
    + intros x Hx. apply elem_of_difference. rewrite elem_of_singleton.
      split; [apply Hl; by apply list_elem_of_further|by intros ->].
    + exists d', td', o'. split; [done|]. split; [done|]. split.
      { intros x Hx%Hs. by apply elem_of_difference in Hx as [? _]. }
      intros x [->|Hx]%elem_of_cons Hx2.
      * intros Hc%Hs. apply elem_of_difference in Hc as [_ Hc]. by apply Hc, elem_of_singleton.
      * apply Hall; [done|]. etrans; [done|]. apply union_subseteq_r.
  - destruct (IH dealt todo order) as (d' & td' & o' & -> & Hi' & Hs & Hall); [done|done| |].
    { intros x Hx. apply Hl. by apply list_elem_of_further. }
    exists d', td', o'. split; [done|]. split; [done|]. split; [done|].
    intros x [->|Hx]%elem_of_cons Hx2; [|by apply Hall]. exfalso. apply Hready.
    apply set_eq. intros y. rewrite elem_of_difference. split; [|by intros ?%elem_of_empty].
    intros [Hy Hn]. exfalso. apply Hn, Hx2. by rewrite Hde.
Qed.

Lemma hash_order_ok fuel dealt todo order :
  hash_inv (dealt, todo, order) → size todo < fuel →
  ∃ order', hash_order g fuel (dealt, todo, order) = Ok order' ∧ hash_inv (keys g, ∅, order').
Proof.
  revert dealt todo order. induction fuel as [|fuel IH]; intros dealt todo order Hi Hf; [lia|].
  cbn [hash_order]. case_bool_decide as He.
  { subst. exists order. split; [done|]. destruct Hi as (Hd & Ho & Htop & Hdis & Hun).
    rewrite union_empty_r_L in Hun. rewrite <-Hun. split; [done|]. split; [done|]. split; [done|].
    split; [done|]. by rewrite union_empty_r_L. }
  destruct (hash_pass_ok (set_iter todo) dealt todo order Hi) as (d' & td' & o' & -> & Hi' & Hs & Hall).
  { apply NoDup_set_iter. }
  { intros t. by rewrite elem_of_set_iter. }
  cbn [mbind res_bind]. apply IH; [done|].
  (* some task is ready *)
  assert (∃ t, t ∈ todo ∧ deps_of g t ⊆ dealt) as (t & Ht & Hr).
  { destruct (set_choose_L todo He) as [x0 Hx0].
    destruct (decide (set_Exists (λ t, deps_of g t ⊆ dealt) todo)) as [[t [Ht Hr]]|Hnone]; [eauto|].
    exfalso. destruct (finite_cycle (dep g) todo x0 Hx0) as [z Hz]; [|by apply (g_acyclic z)].
    intros y Hy. destruct Hi as (_ & _ & _ & Hdis & Hun).
    assert (deps_of g y ∖ dealt ≠ ∅) as Hne.
    { intros E. apply Hnone. exists y. split; [done|]. intros d Hd.
      destruct (decide (d ∈ dealt)); [done|]. exfalso.
      assert (d ∈ deps_of g y ∖ dealt) as Hn by (by apply elem_of_difference).
      rewrite E in Hn. by apply elem_of_empty in Hn. }
    apply set_choose_L in Hne as [d [Hd Hdn]%elem_of_difference]. exists d. split; [|done].
    assert (d ∈ keys g) as Hk by (by apply (g_closed y)). rewrite <-Hun, elem_of_union in Hk. tauto. }
  assert (size td' < size todo); [|lia]. apply subset_size. split; [done|].
  intros Hs'. apply (Hall t); [by apply elem_of_set_iter|done|by apply Hs'].
Qed.

Lemma hash_tasks_ok :
  dict_wf g → ∃ order, hash_tasks g = Ok order ∧ order ≡ₚ dkeys g ∧ topological g order.
Proof.
  intros Hwf. unfold hash_tasks. change (list_to_set (dkeys g)) with (keys g).
  destruct (hash_order_ok (S (List.length g)) ∅ (keys g) []) as (order & -> & (Hk & Hnd & Ht & _)).
  - split; [done|]. split; [apply NoDup_nil_2|]. split; [by intros [] ? ?|].
    split; [by intros x ?%elem_of_empty|]. apply union_empty_l_L.
  - pose proof (size_keys g). unfold keys in *. lia.
  - exists order. split; [done|]. split; [|done]. apply NoDup_Permutation; [done|exact Hwf|].
    intros t. rewrite <-elem_of_keys, Hk. by rewrite elem_of_list_to_set.
Qed.
End hashes.

(** The position of a task in a list. *)
Definition position (l : list string) (t : string) : nat :=
  match list_find (λ x, x = t) l with Some (i, _) => i | None => 0 end.

Lemma position_app_new l1 t l2 : t ∉ l1 → position (l1 ++ t :: l2) t = List.length l1.
Proof.
  intros Ht. unfold position.
  assert (list_find (λ x, x = t) (l1 ++ t :: l2) = Some (List.length l1, t)) as ->; [|done].
  apply list_find_Some. split; [by rewrite lookup_app_r, Nat.sub_diag by lia|]. split; [done|].
  intros j y Hj Hlt ->. rewrite lookup_app_l in Hj by done. by apply Ht, (list_elem_of_lookup_2 _ j).
Qed.

Lemma position_app_old l1 l2 t : t ∈ l1 → position (l1 ++ l2) t < List.length l1.
Proof.
  intros Ht. unfold position. destruct (list_find_elem_of (λ x, x = t) l1 t Ht eq_refl) as [[i x] Hi].
  rewrite (list_find_app_l _ _ _ _ _ Hi). apply list_find_Some in Hi as (Hi & _).
  by apply lookup_lt_Some in Hi.
Qed.

(** A graph without circular dependencies can be ranked. *)
Lemma graph_rank `{!SetOrder string} g :
  dict_wf g → graph_closed g → acyclic g →
  ∃ rank : string → nat, (∀ t d, dep g t d → rank d < rank t) ∧
    ∀ t, t ∈ keys g → rank t < List.length g.
Proof.
  intros Hwf Hcl Hac. destruct (hash_tasks_ok g Hcl Hac Hwf) as (order & _ & Hp & Ht).
  assert (NoDup order) as Hnd by (rewrite Hp; exact Hwf).
  assert (∀ t, t ∈ keys g → ∃ l1 l2, order = l1 ++ t :: l2 ∧ t ∉ l1) as Hsplit.
  { intros t Hk. rewrite elem_of_keys, <-Hp in Hk. apply list_elem_of_split in Hk as (l1 & l2 & E).
    exists l1, l2. split; [done|]. rewrite E in Hnd. apply NoDup_app in Hnd as (_ & Hd & _).
    intros Hl. apply (Hd t Hl), list_elem_of_here. }
  exists (position order). split.
  - intros t d Hd. apply dep_key in Hd as Hk. destruct (Hsplit t Hk) as (l1 & l2 & E & Hn).
    assert (d ∈ l1) as Hd1 by (apply (elem_of_list_to_set (C := gset string)), (Ht l1 t l2 E), Hd).
    rewrite E, position_app_new by done. by apply position_app_old.
  - intros t Hk. destruct (Hsplit t Hk) as (l1 & l2 & E & Hn).
    assert (List.length order = List.length g) as <-.
    { rewrite Hp. unfold dkeys. by rewrite length_fmap. }
    rewrite E, position_app_new, length_app by done. simpl. lia.
Qed.

(** On a graph without circular dependencies the hashing loop ends and
    calls [prepare_task_hash] once for every task, for each task after all
    tasks it depends on. *)
Theorem hash_tasks_topological `{!SetOrder string} g :
  dict_wf g → graph_closed g → acyclic g →
  ∃ order, hash_tasks g = Ok order ∧ order ≡ₚ dkeys g ∧ topological g order.
Proof. intros Hwf Hcl Hac. by apply hash_tasks_ok. Qed.

(** ** A small graph *)

#[local] Instance sample_order : SetOrder string := set_order_elements.

Definition entry (deps : list string) : RunTaskEntry := set_depends init_entry (list_to_set deps).

(** [fetch <- compile <- build], and [compile] also needs [patch]. *)
Definition sample_graph : graph :=
  [("build", entry ["compile"]); ("compile", entry ["fetch"; "patch"]);
   ("patch", entry ["fetch"]); ("fetch", entry [])].

Definition sample_loop : graph :=
  [("a", entry ["b"]); ("b", entry ["c"]); ("c", entry ["a"]); ("d", entry ["a"])].

(** A decidable form of the closedness hypotheses, for concrete graphs. *)
Definition closedb (f : graph → string → gset string) (g : graph) : bool :=
  forallb (λ t, bool_decide (f g t ⊆ keys g)) (dkeys g).

Lemma closedb_deps g : closedb deps_of g = true → graph_closed g.
Proof.
  intros H t d Hd. apply dep_key in Hd as Ht. unfold closedb in H. rewrite forallb_forall in H.
  apply elem_of_keys, list_elem_of_In, H in Ht. apply bool_decide_eq_true in Ht. by apply Ht.
Qed.

Lemma closedb_revdeps g : closedb revdeps_of g = true → ∀ t, revdeps_of g t ⊆ keys g.
Proof.
  intros H t d Hd. unfold closedb in H. rewrite forallb_forall in H.
  assert (t ∈ dkeys g) as Ht.
  { unfold revdeps_of in Hd. destruct (dget g t) eqn:E; [|by apply elem_of_empty in Hd].
    apply elem_of_dkeys. by eexists. }
  apply list_elem_of_In, H in Ht. apply bool_decide_eq_true in Ht. by apply Ht.
Qed.

Lemma acyclic_rank g (rank : string → nat) : (∀ t d, dep g t d → rank d < rank t) → acyclic g.
Proof.
  intros H t Ht. assert (∀ a b, tc (dep g) a b → rank b < rank a) as Hlt; [|specialize (Hlt t t Ht); lia].
  intros a b. induction 1 as [a b Hab|a b c Hab _ IH]; [by apply H|apply H in Hab; lia].
Qed.

Definition sample_rank (t : string) : nat :=
  match dget [("build", 3); ("compile", 2); ("patch", 1)] t with Some n => n | None => 0 end.

Definition rankedb (rank : string → nat) (g : graph) : bool :=
  forallb (λ t, forallb (λ d, rank d <? rank t) (elements (deps_of g t))) (dkeys g).

Lemma acyclic_rankedb rank g : rankedb rank g = true → acyclic g.
Proof.
  intros H. apply (acyclic_rank _ rank). intros t d Hd. apply dep_key in Hd as Ht. unfold dep in Hd.
  unfold rankedb in H. rewrite forallb_forall in H. apply elem_of_keys, list_elem_of_In, H in Ht.
  rewrite forallb_forall in Ht. by apply elem_of_elements, list_elem_of_In, Ht, Nat.ltb_lt in Hd.
Qed.

Lemma sample_acyclic : acyclic sample_graph.
Proof. apply (acyclic_rankedb sample_rank). vm_compute. reflexivity. Qed.

Definition sample_looped : graph := match add_revdeps sample_loop with Ok g => g | Raise _ => [] end.

Lemma mark_active_reachable_witness :
  graph_closed sample_graph ∧ ∃ rb, mark sample_graph "compile" ∅ = Ok rb ∧
    ("fetch" ∈ rb) ∧ ("build" ∉ rb) ∧ ∀ u, u ∈ rb ↔ reach sample_graph "compile" u.
Proof.
  assert (graph_closed sample_graph) as Hc by (apply closedb_deps; vm_compute; reflexivity).
  split; [exact Hc|].
  destruct (mark_active_reachable sample_graph "compile" ∅ Hc) as (rb & E & _ & Hu).
  - by_eval.
  - intros x Hx. by apply elem_of_empty in Hx.
  - intros t Ht. by apply elem_of_empty in Ht.
  - assert (match mark sample_graph "compile" ∅ with
            | Ok rb => bool_decide ("fetch" ∈ rb ∧ "build" ∉ rb) | Raise _ => false end = true) as Hb
      by (vm_compute; reflexivity).
    rewrite E in Hb. apply bool_decide_eq_true_1 in Hb as [H1 H2].
    exists rb. split; [exact E|]. split; [exact H1|]. split; [exact H2|].
    intros u. specialize (Hu u). clear E. split.
    + intros Hx. destruct (proj1 Hu Hx) as [He|Hr]; [destruct (not_elem_of_empty u He)|exact Hr].
    + intros Hr. exact (proj2 Hu (or_intror Hr)).
Defined.

Lemma check_graph_correct_witness :
  (∃ g w, check_graph sample_graph = Ok (g, w) ∧ graph_ok g ∧
     w = [("build", 10%Z); ("compile", 11%Z); ("patch", 12%Z); ("fetch", 24%Z)]) ∧
  ¬ acyclic sample_loop ∧ check_graph sample_loop = Raise Fatal.
Proof.
  split.
  - destruct (check_graph_correct sample_graph) as [(_ & g & w & E & Hg & _)|[_ E]].
    + by_eval.
    + apply closedb_deps. vm_compute. reflexivity.
    + intros t. unfold revdeps_of. cbn. repeat case_decide; reflexivity.
    + exists g, w. split; [exact E|]. split; [exact Hg|]. vm_compute in E. congruence.
    + vm_compute in E. discriminate E.
  - destruct (check_graph_correct sample_loop) as [(_ & g & w & E & _)|E].
    + by_eval.
    + apply closedb_deps. vm_compute. reflexivity.
    + intros t. unfold revdeps_of. cbn. repeat case_decide; reflexivity.
    + vm_compute in E. discriminate E.
    + exact E.
Defined.

Lemma circular_depchains_handler_sound_witness :
  ∃ st, circular_depchains_handler sample_looped ["a"] = (st, Ok tt) ∧
    valid_chains st = [["a"; "c"; "b"]] ∧ reported_loop sample_looped ["a"; "c"; "b"].
Proof.
  destruct (circular_depchains_handler_sound sample_looped ["a"]) as (st & E & _ & _ & Hc & _).
  - apply closedb_revdeps. vm_compute. reflexivity.
  - intros t ->%list_elem_of_singleton. by_eval.
  - exists st. split; [exact E|].
    assert (valid_chains st = [["a"; "c"; "b"]]) as Ev by (vm_compute in E; injection E as <-; reflexivity).
    split; [exact Ev|]. apply Hc. rewrite Ev. constructor.
Defined.

Lemma hash_tasks_topological_witness :
  acyclic sample_graph ∧
  ∃ order, hash_tasks sample_graph = Ok order ∧ topological sample_graph order ∧
    order = ["fetch"; "patch"; "compile"; "build"].
Proof.
  split; [exact sample_acyclic|].
  destruct (hash_tasks_topological sample_graph) as (order & E & _ & Ht).
  - by_eval.
  - apply closedb_deps. vm_compute. reflexivity.
  - exact sample_acyclic.
  - exists order. split; [exact E|]. split; [exact Ht|]. vm_compute in E. congruence.
Defined.
