(* ===== verification/Stamps.v ===== *)
(** * Task stamps (bb/build.py, bb/runqueue.py)

    The stamp file of a task and [RunQueue.check_stamp_task]: whether the stamp
    of a task is current, with or without looking through everything it
    depends on.  The signature generator that names the stamps is pluggable
    ([BB_SIGNATURE_HANDLER]); what the run queue calls of it is the interface
    [SigGen]. *)

From Stdlib Require Import Ascii String.
From S2P Require Import Prelude.
From S2P Require Import PyStr.
From S2P Require Import PyDict.
From S2P Require Import TaskIds.
From S2P Require Import Cache.
From S2P Require Import TaskGraph.

(** What the run queue calls of [bb.parse.siggen]; all work on the generator's
    own state, and naming a stamp only reads it. *)
Class SigGen (G : Type) : Type := {
  sg_stampfile : G → string → string → string → string → res string;
  sg_get_taskhash : string → gset string → M G string;
  sg_get_unihash : string → M G string;
  sg_set_unihash : string → string → M G unit;
  sg_report_unihash_equiv : string → string → option string → string → M G unit
}.

(** Modification times: [os.stat(f)[ST_MTIME]] of the files that exist. *)
Abbreviation file_times := (string → option Z).

(** [if t:] for the result of [get_timestamp]. *)
Definition has_time (t : option Z) : bool :=
  match t with Some z => negb (z =? 0)%Z | None => false end.

(** The policy of a [RunQueue]: [BB_STAMP_POLICY] and the files whose stamps
    do not count, by configuration. *)
Record stamp_policy : Type := StampPolicy {
  sp_policy : string;
  sp_whitelist : dict (list string)
}.

Section stamps.
Context {G : Type} `{SigGen G} `{!SetOrder string}.
Context (dataCaches : dict CacheData) (policy : stamp_policy) (gen : G).

(** [taskname] without [_setscene], whose flags the stamp uses. *)
Definition taskflagname (taskname : string) : string :=
  if endswith taskname "_setscene" && negb (bool_decide (taskname = "do_setscene"))
  then replace taskname "_setscene" "" else taskname.

(** [stamp_internal] for a recipe of the cache; [None] without a STAMP.  The
    stamp directory it creates is not modelled. *)
Definition stamp_internal (taskname : string) (d : CacheData) (file_name : string) (noextra : bool) :
    res (option string) :=
  if str_empty file_name then Raise AttributeError
  else
    stamp ← of_option KeyError (dget (stamp d) file_name);
    info ← of_option KeyError (dget (stamp_extrainfo d) file_name);
    let extrainfo := default "" (default None (dget info (taskflagname taskname))) in
    let extrainfo := if noextra then "" else extrainfo in
    if str_empty stamp then Ok None
    else f ← sg_stampfile gen stamp file_name taskname extrainfo; Ok (Some f).

Definition stampfile (taskname : string) (d : CacheData) (file_name : string) (noextra : bool) :
    res (option string) := stamp_internal taskname d file_name noextra.

(** [dataCaches[mc]] *)
Definition cache_of (mc : string) : res CacheData := of_option KeyError (dget dataCaches mc).

Section check.
Context (mtime : file_times).

Definition get_timestamp (f : option string) : option Z := f ≫= mtime.

(** Whether the dependency's stamps count: not when its setscene stamp alone
    exists, or is newer, nor for another recipe's file unless the whole tree
    counts and the file is not in the whitelist. *)
Definition dep_counts (fulldeptree : bool) (whitelist : list string) (fn fn2 : string)
    (t2 t3 : option Z) : bool :=
  if has_time t3 && negb (has_time t2) then false
  else if has_time t3 && (default 0%Z t2 <? default 0%Z t3)%Z then false
  else bool_decide (fn = fn2) || (fulldeptree && negb (bool_decide (fn2 ∈ whitelist))).

(** The loop over the dependencies; [visit] is the recursive call. *)
Fixpoint stamp_deps (fulldeptree : bool) (whitelist : list string) (fn : string) (t1 : Z)
    (recurse : bool) (visit : string → dict bool → res (bool * dict bool)) (l : list string)
    (cache : dict bool) : res (bool * dict bool) :=
  match l with
  | [] => Ok (true, cache)
  | dep :: l =>
      '(mc2, fn2, taskname2, taskfn2) ← split_tid_mcfn dep;
      c2 ← cache_of mc2;
      stampfile2 ← stampfile taskname2 c2 taskfn2 false;
      stampfile3 ← stampfile (taskname2 +s+ "_setscene") c2 taskfn2 false;
      let t2 := get_timestamp stampfile2 in
      let t3 := get_timestamp stampfile3 in
      let rest := stamp_deps fulldeptree whitelist fn t1 recurse visit l in
      if dep_counts fulldeptree whitelist fn fn2 t2 t3 then
        if negb (has_time t2) then Ok (false, cache)
        else if (t1 <? default 0%Z t2)%Z then Ok (false, cache)
        else if recurse then
          '(current, cache) ←
            (match dget cache dep with
             | Some current => Ok (current, cache)
             | None => '(current, cache) ← visit dep cache; Ok (current, dset cache dep current)
             end);
          if (current : bool) then rest cache else Ok (false, cache)
        else rest cache
      else rest cache
  end.

(** [check_stamp_task(tid, taskname, recurse, cache)]: the answer and the
    cache, which the recursive form extends. *)
Fixpoint check_stamp_task (g : graph) (fuel : nat) (tid : string) (taskname : option string)
    (recurse : bool) (cache : dict bool) : res (bool * dict bool) :=
  match fuel with
  | O => Raise OutOfFuel
  | S fuel =>
      '(mc, fn, tn, taskfn) ← split_tid_mcfn tid;
      let taskname := default tn taskname in
      let fulldeptree := negb (bool_decide (sp_policy policy = "perfile")) in
      whitelist ← (if bool_decide (sp_policy policy = "whitelist")
                   then of_option KeyError (dget (sp_whitelist policy) mc) else Ok []);
      c ← cache_of mc;
      file ← stampfile taskname c taskfn false;
      file ← of_option TypeError file;
      match mtime file with
      | None => Ok (false, cache)
      | Some t1 =>
          taskdep ← of_option KeyError (dget (task_deps c) taskfn);
          match task_flag taskdep "nostamp" taskname with
          | Some _ => Ok (false, cache)
          | None =>
              if negb (bool_decide (taskname = "do_setscene")) && endswith taskname "_setscene"
              then Ok (true, cache)
              else
                e ← of_option KeyError (dget g tid);
                '(iscurrent, cache) ←
                  stamp_deps fulldeptree whitelist fn t1 recurse
                    (λ dep cache, check_stamp_task g fuel dep None true cache)
                    (set_iter (depends e)) cache;
                Ok (iscurrent, if recurse then dset cache tid iscurrent else cache)
          end
      end
  end.

Definition check_stamp (g : graph) (tid : string) (taskname : option string) (recurse : bool)
    (cache : dict bool) : res (bool * dict bool) :=
  check_stamp_task g (S (S (List.length g))) tid taskname recurse cache.
End check.

(** ** What a current stamp means *)

Section current.
Context (mtime : file_times) (g : graph).

(** The time of the task's stamp, of its setscene stamp, and its recipe file. *)
Definition stamp_of (suffix t : string) : res (option string) :=
  '(mc, fn, tn, taskfn) ← split_tid_mcfn t;
  c ← cache_of mc;
  stampfile (tn +s+ suffix) c taskfn false.

Definition time_of (suffix t : string) : option Z :=
  match stamp_of suffix t with Ok f => get_timestamp mtime f | Raise _ => None end.

Definition recipe_of (t : string) : string :=
  match split_tid_mcfn t with Ok (_, fn, _, _) => fn | Raise _ => "" end.

Definition mc_of (t : string) : string :=
  match split_tid_mcfn t with Ok (mc, _, _, _) => mc | Raise _ => "" end.

Definition task_name_of (t : string) : string :=
  match split_tid_mcfn t with Ok (_, _, tn, _) => tn | Raise _ => "" end.

Definition is_nostamp (t : string) : bool :=
  match split_tid_mcfn t with
  | Ok (mc, _, tn, taskfn) =>
      match dget dataCaches mc ≫= λ c, dget (task_deps c) taskfn with
      | Some td => match task_flag td "nostamp" tn with Some _ => true | None => false end
      | None => false
      end
  | Raise _ => false
  end.

Definition full_tree : bool := negb (bool_decide (sp_policy policy = "perfile")).

Definition whitelist_of (mc : string) : list string :=
  if bool_decide (sp_policy policy = "whitelist") then default [] (dget (sp_whitelist policy) mc) else [].

(** [d], on which [t] depends, counts for [t]'s stamp. *)
Definition counts (t d : string) : bool :=
  dep_counts full_tree (whitelist_of (mc_of t)) (recipe_of t) (recipe_of d) (time_of "" d)
    (time_of "_setscene" d).

(** A setscene variant, for which only the existence of the stamp matters. *)
Definition is_variant (tn : string) : bool :=
  negb (bool_decide (tn = "do_setscene")) && endswith tn "_setscene".

(** The stamp of the task is not current: it does not exist, the task never
    has a current one, or something it depends on and that counts has no stamp
    or a newer one, or is itself not current. *)
Inductive stale : string → Prop :=
  | stale_missing t : time_of "" t = None → stale t
  | stale_nostamp t : is_nostamp t = true → stale t
  | stale_newer t d : is_variant (task_name_of t) = false → dep g t d → counts t d = true →
      has_time (time_of "" d) = false ∨ (default 0 (time_of "" t) < default 0 (time_of "" d))%Z → stale t
  | stale_dep t d : is_variant (task_name_of t) = false → dep g t d → counts t d = true →
      stale d → stale t.

(** Everything the check looks up for a task exists. *)
Definition resolvable (t : string) : Prop :=
  ∃ mc fn tn taskfn c td st,
    split_tid_mcfn t = Ok (mc, fn, tn, taskfn) ∧ dget dataCaches mc = Some c ∧
    taskfn ≠ "" ∧ dget (stamp c) taskfn = Some st ∧ st ≠ "" ∧
    is_Some (dget (stamp_extrainfo c) taskfn) ∧ dget (task_deps c) taskfn = Some td ∧
    (∀ suffix x, suffix ∈ [""; "_setscene"] → ∃ f, sg_stampfile gen st taskfn (tn +s+ suffix) x = Ok f) ∧
    (sp_policy policy = "whitelist" → is_Some (dget (sp_whitelist policy) mc)).

Definition cache_sound (cache : dict bool) : Prop :=
  ∀ t b, dget cache t = Some b → b = false ↔ stale t.

Lemma cache_sound_dset cache t b :
  cache_sound cache → (b = false ↔ stale t) → cache_sound (dset cache t b).
Proof. intros Hc Hb u v. rewrite dget_dset. case_decide as E; [subst; by intros [= <-]|apply Hc]. Qed.

Lemma stampfile_ok c taskfn st tn :
  taskfn ≠ "" → dget (stamp c) taskfn = Some st → st ≠ "" → is_Some (dget (stamp_extrainfo c) taskfn) →
  (∀ x, ∃ f, sg_stampfile gen st taskfn tn x = Ok f) →
  ∃ f, stampfile tn c taskfn false = Ok (Some f).
Proof.
  intros H1 H2 H3 [i Hi] Hg. unfold stampfile, stamp_internal. destruct taskfn as [|a taskfn]; [done|].
  cbn [str_empty]. rewrite H2. cbn [mbind res_bind of_option]. rewrite Hi. cbn [mbind res_bind of_option].
  destruct st; [done|]. cbn [str_empty]. match goal with |- context [sg_stampfile _ _ _ _ ?x] => destruct (Hg x) as [f ->] end.
  by eexists.
Qed.

(** The loop over the dependencies, given what the recursive call answers. *)
Lemma stamp_deps_ok t visit l t1 cache :
  (∀ d, d ∈ l → resolvable d) → default 0%Z (time_of "" t) = t1 → cache_sound cache →
  (∀ d c, d ∈ l → cache_sound c → ∃ b c', visit d c = Ok (b, c') ∧ (b = false ↔ stale d) ∧ cache_sound c') →
  ∃ b cache', stamp_deps mtime full_tree (whitelist_of (mc_of t)) (recipe_of t) t1 true visit l cache = Ok (b, cache') ∧
    cache_sound cache' ∧
    (b = false ↔ ∃ d, d ∈ l ∧ counts t d = true ∧
       ((has_time (time_of "" d) = false ∨ (t1 < default 0 (time_of "" d))%Z) ∨ stale d)).
Proof.
  intros Hres Ht1. revert cache. induction l as [|d l IH]; intros cache Hc Hv; cbn [stamp_deps].
  { exists true, cache. split; [done|]. split; [done|]. split; [done|]. by intros (? & ?%elem_of_nil & _). }
  assert (∀ c, cache_sound c → ∃ b cache', stamp_deps mtime full_tree (whitelist_of (mc_of t)) (recipe_of t) t1 true visit l c = Ok (b, cache') ∧
    cache_sound cache' ∧ (b = false ↔ ∃ d, d ∈ l ∧ counts t d = true ∧
       ((has_time (time_of "" d) = false ∨ (t1 < default 0 (time_of "" d))%Z) ∨ stale d))) as Hrest.
  { intros c Hcs. apply IH; [|done|].
    - intros x Hx. apply Hres. by apply list_elem_of_further.
    - intros x c0 Hx. apply Hv. by apply list_elem_of_further. }
  clear IH.
  destruct (Hres d (list_elem_of_here _ _)) as (mc & fn & tn & taskfn & c & td & st & Hsp & Hcd & Hne & Hst & Hne2 & Hi & Htd & Hg & _).
  rewrite Hsp. cbn [mbind res_bind]. unfold cache_of at 1. rewrite Hcd. cbn [mbind res_bind of_option].
  destruct (stampfile_ok c taskfn st tn Hne Hst Hne2 Hi) as [f2 E2].
  { intros x. rewrite <-(str_app_nil_r tn). apply Hg. by_eval. }
  destruct (stampfile_ok c taskfn st (tn +s+ "_setscene") Hne Hst Hne2 Hi) as [f3 E3].
  { intros x. apply Hg. by_eval. }
  rewrite E2, E3. cbn [mbind res_bind].
  assert (time_of "" d = get_timestamp mtime (Some f2)) as <-.
  { unfold time_of, stamp_of, cache_of. rewrite Hsp. cbn [mbind res_bind]. rewrite Hcd. cbn [mbind res_bind of_option].
    by rewrite str_app_nil_r, E2. }
  assert (time_of "_setscene" d = get_timestamp mtime (Some f3)) as <-.
  { unfold time_of, stamp_of, cache_of. rewrite Hsp. cbn [mbind res_bind]. rewrite Hcd. cbn [mbind res_bind of_option].
    by rewrite E3. }
  assert (fn = recipe_of d) as -> by (unfold recipe_of; by rewrite Hsp).
  fold (counts t d). destruct (counts t d) eqn:Ec.
  2:{ destruct (Hrest cache Hc) as (b & c' & -> & Hs & Hb). exists b, c'. split; [done|]. split; [done|].
      rewrite Hb. split; intros (x & Hx & Hcx & Hr).
      - exists x. split; [by apply list_elem_of_further|done].
      - apply elem_of_cons in Hx as [->|Hx]; [congruence|eauto]. }
  assert (∀ P : Prop, P → (false = false ↔ P)) as Hyes by (intros P HP; by split).
  destruct (has_time (time_of "" d)) eqn:Eh; cbn [negb].
  2:{ exists false, cache. split; [done|]. split; [done|]. apply Hyes. exists d.
      split; [apply list_elem_of_here|]. split; [done|]. by left; left. }
  destruct (Z.ltb_spec t1 (default 0%Z (time_of "" d))) as [Hlt|Hge].
  { exists false, cache. split; [done|]. split; [done|]. apply Hyes. exists d.
    split; [apply list_elem_of_here|]. split; [done|]. by left; right. }
  assert (∃ cur c', (match dget cache d with
             | Some current => Ok (current, cache)
             | None => '(current, cache) ← visit d cache; Ok (current, dset cache d current)
             end : res (bool * dict bool)) = Ok (cur, c') ∧ (cur = false ↔ stale d) ∧ cache_sound c')
    as (cur & c' & -> & Hcur & Hcs).
  { destruct (dget cache d) as [cur|] eqn:Ecache; [exists cur, cache; split; [done|]; by split; [apply Hc|]|].
    destruct (Hv d cache (list_elem_of_here _ _) Hc) as (b & c' & -> & Hb & Hs). cbn [mbind res_bind].
    exists b, (dset c' d b). split; [done|]. split; [done|]. by apply cache_sound_dset. }
  cbn [mbind res_bind]. destruct cur.
  - destruct (Hrest c' Hcs) as (b & c'' & -> & Hs & Hb). exists b, c''. split; [done|]. split; [done|].
    rewrite Hb. split; intros (x & Hx & Hcx & Hr).
    + exists x. split; [by apply list_elem_of_further|done].
    + apply elem_of_cons in Hx as [->|Hx]; [|eauto]. exfalso.
      destruct Hr as [[?|?]|Hr]; [congruence|lia|]. by apply Hcur in Hr.
  - exists false, c'. split; [done|]. split; [done|]. apply Hyes. exists d.
    split; [apply list_elem_of_here|]. split; [done|]. right. by apply Hcur.
Qed.

Lemma check_stamp_task_ok (rank : string → nat) fuel t cache :
  graph_closed g → (∀ t, t ∈ keys g → resolvable t) → (∀ t d, dep g t d → rank d < rank t) →
  t ∈ keys g → rank t < fuel → cache_sound cache →
  ∃ b cache', check_stamp_task mtime g fuel t None true cache = Ok (b, cache') ∧
    (b = false ↔ stale t) ∧ cache_sound cache'.
Proof.
  intros Hcl Hres Hrank. revert t cache. induction fuel as [|fuel IH]; intros t cache Ht Hf Hc; [lia|].
  destruct (Hres t Ht) as (mc & fn & tn & taskfn & c & td & st & Hsp & Hcd & Hne & Hst & Hne2 & Hi & Htd & Hg & Hwl).
  destruct (stampfile_ok c taskfn st tn Hne Hst Hne2 Hi) as [f Ef].
  { intros x. rewrite <-(str_app_nil_r tn). apply Hg. by_eval. }
  assert (time_of "" t = mtime f) as Htime.
  { unfold time_of, stamp_of, cache_of. rewrite Hsp. cbn [mbind res_bind]. rewrite Hcd. cbn [mbind res_bind of_option].
    by rewrite str_app_nil_r, Ef. }
  assert (is_nostamp t = match task_flag td "nostamp" tn with Some _ => true | None => false end) as Hns.
  { unfold is_nostamp. rewrite Hsp, Hcd. cbn. by rewrite Htd. }
  assert (whitelist_of mc = whitelist_of (mc_of t)) as Hmc by (unfold mc_of; by rewrite Hsp).
  cbn [check_stamp_task]. rewrite Hsp. cbn [mbind res_bind].
  assert ((if bool_decide (sp_policy policy = "whitelist")
           then of_option KeyError (dget (sp_whitelist policy) mc) else Ok []) = Ok (whitelist_of mc)) as ->.
  { unfold whitelist_of. case_bool_decide as Hp; [|done]. destruct (Hwl Hp) as [w ->]. done. }
  unfold cache_of at 1. rewrite Hcd. cbn [mbind res_bind of_option default].
  rewrite Ef. cbn [mbind res_bind of_option]. rewrite <-Htime.
  assert (∀ P : Prop, P → (false = false ↔ P)) as Hyes by (intros P HP; by split).
  destruct (time_of "" t) as [t1|] eqn:Et1.
  2:{ exists false, cache. split; [done|]. split; [|done]. by apply Hyes, stale_missing. }
  rewrite Htd. cbn [mbind res_bind of_option].
  destruct (task_flag td "nostamp" tn) eqn:Efl.
  { exists false, cache. split; [done|]. split; [|done]. by apply Hyes, stale_nostamp. }
  assert (task_name_of t = tn) as Htn by (unfold task_name_of; by rewrite Hsp).
  fold (is_variant tn). destruct (is_variant tn) eqn:Ev.
  { exists true, cache. split; [done|]. split; [|done]. split; [done|]. intros Hs.
    inversion Hs; congruence. }
  pose proof Ht as Ht2. apply elem_of_keys, elem_of_dkeys in Ht2 as [e He]. rewrite He. cbn [mbind res_bind of_option].
  assert (∀ d, d ∈ set_iter (depends e) ↔ dep g t d) as Hdeps.
  { intros d. rewrite elem_of_set_iter. unfold dep, deps_of. by rewrite He. }
  destruct (stamp_deps_ok t (λ dep cache, check_stamp_task mtime g fuel dep None true cache)
    (set_iter (depends e)) t1 cache) as (b & c' & E & Hs & Hb).
  - intros d Hd%Hdeps. by apply Hres, (Hcl t).
  - by rewrite Et1.
  - done.
  - intros d c0 Hd%Hdeps Hc0. apply IH; [by apply (Hcl t)| |done]. pose proof (Hrank t d Hd). lia.
  - assert (b = false ↔ stale t) as Hbs.
    { rewrite Hb. split.
      - intros (d & Hd%Hdeps & Hcnt & [Hr|Hr]); [apply (stale_newer t d); [by rewrite Htn|done|done|]|].
        + by rewrite Et1.
        + apply (stale_dep t d); [by rewrite Htn|done..].
      - intros Hst2. inversion Hst2 as [? Hm|? Hm|? d _ Hd Hcnt Hr|? d _ Hd Hcnt Hr]; subst.
        + congruence.
        + congruence.
        + exists d. split; [by apply Hdeps|]. split; [done|]. left. by rewrite Et1 in Hr.
        + exists d. split; [by apply Hdeps|]. split; [done|]. by right. }
    assert (fn = recipe_of t) as -> by (unfold recipe_of; by rewrite Hsp).
    rewrite Hmc. unfold full_tree in E. rewrite E. cbn [mbind res_bind].
    exists b, (dset c' t b). split; [done|]. split; [done|]. by apply cache_sound_dset.
Qed.
End current.

(** C33: in a graph without circular dependencies whose tasks have
    stamps, [check_stamp_task] with [recurse] always ends, and answers whether
    the stamp is current: that it exists, and everything it depends on and
    that counts has an older stamp that is current too.  The cache changes
    nothing: whatever sound answers it already holds, the answer is the same,
    and the answers it adds are sound. *)
Theorem check_stamp_task_current mtime g t cache :
  dict_wf g → graph_closed g → acyclic g → (∀ t, t ∈ keys g → resolvable t) → t ∈ keys g →
  cache_sound mtime g cache →
  ∃ b cache', check_stamp mtime g t None true cache = Ok (b, cache') ∧
    (b = true ↔ ¬ stale mtime g t) ∧ cache_sound mtime g cache'.
Proof.
  intros Hwf Hcl Hac Hres Ht Hc. destruct (graph_rank g Hwf Hcl Hac) as (rank & Hr & Hlt).
  destruct (check_stamp_task_ok mtime g rank (S (S (List.length g))) t cache Hcl Hres Hr Ht) as (b & c' & E & Hb & Hs).
  - pose proof (Hlt t Ht). lia.
  - done.
  - exists b, c'. split; [done|]. split; [|done]. destruct b; split; try done.
    + intros _ Hst. by apply Hb in Hst.
    + intros Hn. exfalso. by apply Hn, Hb.
Qed.
End stamps.

(** ** A build of one recipe *)

(** The stamp names of the basic signature generator. *)
Definition basic_stampfile (stampbase file_name taskname extrainfo : string) : string :=
  rstrip (Ascii.eqb ".") (stampbase +s+ "." +s+ taskname +s+ "." +s+ extrainfo).

#[local] Instance basic_siggen : SigGen unit := {|
  sg_stampfile _ stampbase fn taskname extrainfo := Ok (basic_stampfile stampbase fn taskname extrainfo);
  sg_get_taskhash _ _ := mret "";
  sg_get_unihash _ := mret "";
  sg_set_unihash _ _ := mret tt;
  sg_report_unihash_equiv _ _ _ _ := mret tt
|}.

#[local] Existing Instance sample_order.

Definition stamp_recipe : RecipeInfo :=
  MkRecipeInfo "a" "" "1.0" "r0" (MkTaskDeps ["do_fetch"; "do_build"] [] []) 0 [] [] [] [] [] [] [] [] [] []
    "" "/st/a" "" [] [] [] "" [] "" "" "" "".

Definition stamp_caches : dict CacheData :=
  [("", (add_cacheData "a.bb" (init_cacheData, stamp_recipe)).1.1)].

Definition stamp_graph : graph := [("a.bb:do_build", entry ["a.bb:do_fetch"]); ("a.bb:do_fetch", entry [])].

(** The stamps of both tasks, the later one of the task given. *)
Definition stamp_times (newer : string) : file_times := λ f,
  dget [("/st/a.do_fetch", if bool_decide (newer = "do_fetch") then 9%Z else 5%Z); ("/st/a.do_build", 7%Z)] f.

Definition perfile : stamp_policy := StampPolicy "perfile" [].

Lemma stamp_resolvable t : t ∈ keys stamp_graph → resolvable stamp_caches perfile tt t.
Proof.
  intros Ht. apply elem_of_keys in Ht. change (dkeys stamp_graph) with ["a.bb:do_build"; "a.bb:do_fetch"] in Ht.
  rewrite !elem_of_cons, elem_of_nil in Ht.
  set (c := match dget stamp_caches "" with Some c => c | None => init_cacheData end).
  destruct Ht as [->|[->|[]]];
    [exists "", "a.bb", "do_build", "a.bb"|exists "", "a.bb", "do_fetch", "a.bb"];
    exists c, (ri_task_deps stamp_recipe), "/st/a";
    (split; [reflexivity|]); (split; [reflexivity|]); (split; [done|]); (split; [reflexivity|]);
    (split; [done|]); (split; [by eexists|]); (split; [reflexivity|]); (split; [by intros; eexists|done]).
Qed.

Lemma check_stamp_task_current_witness :
  ¬ stale stamp_caches perfile tt (stamp_times "do_build") stamp_graph "a.bb:do_build" ∧
  ¬ ¬ stale stamp_caches perfile tt (stamp_times "do_fetch") stamp_graph "a.bb:do_build".
Proof.
  assert (∀ f, ∃ b cache', check_stamp stamp_caches perfile tt (stamp_times f) stamp_graph "a.bb:do_build" None true [] = Ok (b, cache') ∧
    (b = true ↔ ¬ stale stamp_caches perfile tt (stamp_times f) stamp_graph "a.bb:do_build")) as H.
  { intros f. destruct (check_stamp_task_current stamp_caches perfile tt (stamp_times f) stamp_graph "a.bb:do_build" [])
      as (b & c' & E & Hb & _).
    - by_eval.
    - apply closedb_deps. vm_compute. reflexivity.
    - apply (acyclic_rankedb (λ t, if bool_decide (t = "a.bb:do_build") then 1 else 0)). vm_compute. reflexivity.
    - exact stamp_resolvable.
    - apply elem_of_keys. left.
    - intros t b Hd. discriminate Hd.
    - exists b, c'. split; [exact E|exact Hb]. }
  split.
  - destruct (H "do_build") as (b & c' & E & Hb). apply Hb. vm_compute in E. congruence.
  - destruct (H "do_fetch") as (b & c' & E & Hb). intros Hn. apply Hb in Hn. vm_compute in E. congruence.
Defined.
