(* ===== verification/Depends.v ===== *)
(** * The dependencies of a run queue (bb/runqueue.py)

    The first half of [RunQueueData.prepare]: the flags of every task of the
    task data become the dependencies of its entry, the recipes below every
    task are collected once, and the recursive flags are closed over them. *)

From Stdlib Require Import Ascii String.
From S2P Require Import Prelude.
From S2P Require Import PyStr.
From S2P Require Import PyDict.
From S2P Require Import Runs.
From S2P Require Import TaskIds.
From S2P Require Import Cache.
From S2P Require Import TaskData.
From S2P Require Import TaskGraph.
From S2P Require Import Stamps.

(** The local variables of [prepare] that the loop over the tasks fills, and
    the task data, to which multiconfig dependencies are added. *)
Record dstate : Type := DState {
  ds_taskData : dict TaskData;
  runtaskentries : graph;
  recursivetasks : dict (list string);
  recursiveitasks : dict (list string);
  recursivetasksselfref : gset string
}.

Definition set_ds_taskData (t : dict TaskData) (s : dstate) : dstate :=
  DState t (runtaskentries s) (recursivetasks s) (recursiveitasks s) (recursivetasksselfref s).
Definition set_runtaskentries (g : graph) (s : dstate) : dstate :=
  DState (ds_taskData s) g (recursivetasks s) (recursiveitasks s) (recursivetasksselfref s).
Definition set_recursivetasks (d : dict (list string)) (s : dstate) : dstate :=
  DState (ds_taskData s) (runtaskentries s) d (recursiveitasks s) (recursivetasksselfref s).
Definition set_recursiveitasks (d : dict (list string)) (s : dstate) : dstate :=
  DState (ds_taskData s) (runtaskentries s) (recursivetasks s) d (recursivetasksselfref s).
Definition set_selfref (l : gset string) (s : dstate) : dstate :=
  DState (ds_taskData s) (runtaskentries s) (recursivetasks s) (recursiveitasks s) l.

(** [fn + ":" + taskname] *)
Definition tid_of (fn taskname : string) : string := fn +s+ ":" +s+ taskname.

(** ** The dependencies a task declares *)

Section names.
Context (targets : dict (list string)) (entries : dict TaskEntry).

(** [t] of every task name in the first file that provides the target. *)
Definition add_tasks_of (tasknames : list string) (depends : gset string) (depname : string) : gset string :=
  match dget targets depname with
  | Some (depdata :: _) =>
      foldl (λ acc taskname,
        let t := tid_of depdata taskname in if dmem entries t then {[t]} ∪ acc else acc) depends tasknames
  | _ => depends
  end.

Definition add_dependencies (depids tasknames : list string) (depends : gset string) : gset string :=
  foldl (add_tasks_of tasknames) depends depids.

(** One [target:task] dependency on the target's first provider, which must
    have the task. *)
Definition add_named (depends : gset string) (depname task : string) : res (gset string) :=
  match dget targets depname with
  | Some (depdata :: _) =>
      let t := tid_of depdata task in
      if dmem entries t then Ok ({[t]} ∪ depends) else Raise Fatal
  | _ => Ok depends
  end.
End names.

Definition add_build_dependencies (td : TaskData) : list string → list string → gset string → gset string :=
  add_dependencies (build_targets td) (taskentries td).

Definition add_runtime_dependencies (td : TaskData) : list string → list string → gset string → gset string :=
  add_dependencies (run_targets td) (taskentries td).

Definition add_idepend (td : TaskData) (depends : gset string) (d : string * string) : res (gset string) :=
  if bool_decide (d.1 ∈ failed_deps td) then Ok depends
  else add_named (build_targets td) (taskentries td) depends d.1 d.2.

Definition add_irdepend (td : TaskData) (depends : gset string) (d : string * string) : res (gset string) :=
  add_named (run_targets td) (taskentries td) depends d.1 d.2.

(** [depends.add(build_tid(...))] for a dependency on a task of the recipe or
    of another configuration. *)
Definition add_tdepend (depends : gset string) (t : string) : res (gset string) :=
  '(depmc, depfn, deptaskname, _) ← split_tid_mcfn t;
  Ok ({[build_tid depmc depfn deptaskname]} ∪ depends).

(** [self.taskData[mc].depids[taskfn]] when the flag is set. *)
Definition add_flagged (task_deps : TaskDeps) (flag taskname taskfn : string) (ids : dict (list string))
    (add : list string → list string → gset string → gset string) (depends : gset string) : res (gset string) :=
  match task_flag task_deps flag taskname with
  | None => Ok depends
  | Some names => l ← of_option KeyError (dget ids taskfn); Ok (add l (split_ws names) depends)
  end.

(** All but the recursive dependencies of a task. *)
Definition direct_depends (td : TaskData) (task_deps : TaskDeps) (tid taskname taskfn : string) :
    res (gset string) :=
  te ← of_option KeyError (dget (taskentries td) tid);
  d ← fold_res add_tdepend ∅ (tdepends te);
  d ← add_flagged task_deps "deptask" taskname taskfn (depids td) (add_build_dependencies td) d;
  d ← add_flagged task_deps "rdeptask" taskname taskfn (rdepids td) (add_runtime_dependencies td) d;
  d ← fold_res (add_idepend td) d (idepends te);
  fold_res (add_irdepend td) d (irdepends te).

Section resolve.
Context (dataCaches : dict CacheData).

Abbreviation prep := (M dstate).

Definition task_data (mc : string) : prep TaskData :=
  s ← get; lift (of_option KeyError (dget (ds_taskData s) mc)).

(** [taskData[mc].taskentries[tid].tdepends.append(newdep)] *)
Definition append_tdepend (mc tid newdep : string) : prep unit :=
  td ← task_data mc;
  te ← lift (of_option KeyError (dget (taskentries td) tid));
  let te := MkTaskEntry (tdepends te ++ [newdep]) (idepends te) (irdepends te) in
  modify (λ s, set_ds_taskData (dset (ds_taskData s) mc (set_taskentries td (dset (taskentries td) tid te))) s).

Definition add_mc_dependencies (mc tid : string) : prep unit :=
  td ← task_data mc;
  for_each (mcdepends td) (λ dep,
    match split_on ":" dep with
    | _ :: frommc :: mcdep :: pn :: deptask :: _ =>
        if bool_decide (mc = frommc) then
          other ← task_data mcdep;
          l ← lift (of_option KeyError (dget (build_targets other) pn));
          fn ← lift (of_option IndexError (head l));
          append_tdepend mc tid (tid_of fn deptask)
        else mret tt
    | _ => raise IndexError
    end).

(** The recursive flags of a task: what it needs at once, and the notes for
    the second part. *)
Definition note_recursive (td : TaskData) (task_deps : TaskDeps) (tid mc fn taskname taskfn : string)
    (depends : gset string) : prep (gset string) :=
  match task_flag task_deps "recrdeptask" taskname with
  | None => mret depends
  | Some names =>
      let tasknames := split_ws names in
      _ ← modify (λ s, set_recursivetasks (dset (recursivetasks s) tid tasknames) s);
      l ← lift (of_option KeyError (dget (depids td) taskfn));
      let depends := add_build_dependencies td l tasknames depends in
      l ← lift (of_option KeyError (dget (rdepids td) taskfn));
      let depends := add_runtime_dependencies td l tasknames depends in
      _ ← modify (λ s, if bool_decide (taskname ∈ tasknames)
                       then set_selfref ({[tid]} ∪ recursivetasksselfref s) s else s);
      _ ← modify (λ s,
            match task_flag task_deps "recideptask" taskname with
            | Some names =>
                set_recursiveitasks
                  (dset (recursiveitasks s) tid (List.map (build_tid mc fn) (split_ws names))) s
            | None => s
            end);
      mret depends
  end.

(** The body of the loop over the tasks. *)
Definition resolve_task (tid : string) : prep unit :=
  '(mc, fn, taskname, taskfn) ← lift (split_tid_mcfn tid);
  c ← lift (of_option KeyError (dget dataCaches mc));
  task_deps ← lift (of_option KeyError (dget (task_deps c) taskfn));
  _ ← modify (λ s, set_runtaskentries (dset (runtaskentries s) tid init_entry) s);
  td ← task_data mc;
  if bool_decide (fn ∈ failed_fns td) then mret tt
  else
    _ ← (match task_flag task_deps "mcdepends" taskname with
         | Some _ => add_mc_dependencies mc tid
         | None => mret tt
         end);
    td ← task_data mc;
    depends ← lift (direct_depends td task_deps tid taskname taskfn);
    depends ← note_recursive td task_deps tid mc fn taskname taskfn depends;
    modify (λ s, set_runtaskentries
      (dset (runtaskentries s) tid (set_depends init_entry (depends ∖ {[tid]}))) s).

(** [for mc in taskData: for tid in taskData[mc].taskentries: ...] *)
Definition resolve_tasks : prep unit :=
  s ← get;
  for_each (dkeys (ds_taskData s)) (λ mc,
    td ← task_data mc;
    for_each (dkeys (taskentries td)) resolve_task).
End resolve.

(** ** The recipes below every task *)

Section cumulative.
Context `{!SetOrder string}.

(** [deps], [cumulativedeps] and the next endpoints. *)
Record cstate : Type := CState {
  c_deps : gmap string (gset string);
  c_cum : gmap string (gset string);
  c_next : gset string
}.

(** [revdeps[dep].add(tid)] *)
Definition reverse (g : graph) : res (gmap string (gset string)) :=
  fold_res (λ acc kv,
    fold_res (λ (acc : gmap string (gset string)) dep,
      r ← of_option KeyError (acc !! dep);
      Ok (<[dep := {[kv.1]} ∪ r]> acc)) acc (set_iter (depends kv.2)))
    (list_to_map (List.map (λ kv, (kv.1, ∅)) g)) g.

Definition cum_edge (tid : string) (st : cstate) (dep : string) : res cstate :=
  own ← of_option KeyError (c_cum st !! dep);
  let cum := <[dep := {[fn_from_tid tid]} ∪ own]> (c_cum st) in
  own ← of_option KeyError (cum !! dep);
  below ← of_option KeyError (cum !! tid);
  d ← of_option KeyError (c_deps st !! dep);
  let d := d ∖ {[tid]} in
  Ok (CState (<[dep := d]> (c_deps st)) (<[dep := own ∪ below]> cum)
       (if bool_decide (d = ∅) then {[dep]} ∪ c_next st else c_next st)).

Definition cum_round (revdeps : gmap string (gset string)) (st : cstate) (endpoints : gset string) : res cstate :=
  fold_res (λ st tid,
    r ← of_option KeyError (revdeps !! tid);
    fold_res (cum_edge tid) st (set_iter r)) (CState (c_deps st) (c_cum st) ∅) (set_iter endpoints).

Fixpoint cum_loop (revdeps : gmap string (gset string)) (fuel : nat) (st : cstate) : res (gmap string (gset string)) :=
  match fuel with
  | O => Raise OutOfFuel
  | S fuel =>
      if bool_decide (c_next st = ∅) then Ok (c_cum st)
      else st ← cum_round revdeps st (c_next st); cum_loop revdeps fuel st
  end.

(** [cumulativedeps]: the files of all the tasks below each task. *)
Definition cumulative_deps (g : graph) : res (gmap string (gset string)) :=
  revdeps ← reverse g;
  cum_loop revdeps (S (S (List.length g)))
    (CState (list_to_map (List.map (λ kv, (kv.1, depends kv.2)) g))
            (list_to_map (List.map (λ kv, (kv.1, ∅)) g))
            (list_to_set (List.map fst (List.filter (λ kv, bool_decide (depends kv.2 = ∅)) g)))).

(** ** Recursive dependencies *)

Section recursive.
Context (cum : gmap string (gset string)) (rectasks recitasks : dict (list string)).

(** The tasks whose recipes a recursive task looks below. *)
Definition total_deps (g : graph) (tid : string) : gset string :=
  deps_of g tid ∪
  match dget recitasks tid with
  | None => ∅
  | Some l => list_to_set l ∪ ⋃ (List.map (deps_of g) l)
  end.

(** [self.runtaskentries[tid].depends.add(newtid)], counted. *)
Definition add_extra (tid : string) (st : graph * nat) (newtid : string) : res (graph * nat) :=
  e ← of_option KeyError (dget st.1 tid);
  Ok (dset st.1 tid (set_depends e ({[newtid]} ∪ depends e)), S st.2).

(** The tasks of the recipes below. *)
Definition recursive_below (tid : string) (tasknames : list string) (st : graph * nat) : res (graph * nat) :=
  e ← of_option KeyError (dget st.1 tid);
  let fns := ⋃ (List.map (λ dep, default ∅ (cum !! dep)) (elements (total_deps st.1 tid))) in
  fold_res (λ st t,
    fold_res (λ st taskname,
      let newtid := tid_of t taskname in
      if bool_decide (newtid = tid) then Ok st
      else if dmem st.1 newtid && negb (bool_decide (newtid ∈ deps_of st.1 tid))
      then add_extra tid st newtid else Ok st) st tasknames) st (set_iter fns).

(** The dependencies of the recursive tasks among the dependencies. *)
Definition recursive_through (tid : string) (tasknames : list string) (st : graph * nat) : res (graph * nat) :=
  e ← of_option KeyError (dget st.1 tid);
  deps ← fold_res (λ acc dep,
    d ← of_option KeyError (dget st.1 dep);
    Ok (acc ∪ (depends d ∖ depends e))) ∅ (set_iter (depends e ∩ list_to_set (dkeys rectasks)));
  fold_res (λ st newtid,
    fold_res (λ st taskname,
      if endswith newtid (":" +s+ taskname) && dmem st.1 newtid then add_extra tid st newtid else Ok st)
      st tasknames) st (set_iter deps).

Definition recursive_round (g : graph) : res (graph * nat) :=
  fold_res (λ st kv,
    st ← recursive_below kv.1 kv.2 st;
    recursive_through kv.1 kv.2 st) (g, 0) rectasks.

(** [while extradeps: ...] *)
Fixpoint recursive_loop (fuel : nat) (g : graph) : res graph :=
  match fuel with
  | O => Raise OutOfFuel
  | S fuel =>
      '(g, extradeps) ← recursive_round g;
      if bool_decide (extradeps = 0) then Ok g else recursive_loop fuel g
  end.
End recursive.

(** [self.runtaskentries[tid].depends.difference_update(recursivetasksselfref)] *)
Definition drop_selfref (selfref : gset string) (g : graph) : res graph :=
  fold_res (λ g tid,
    e ← of_option KeyError (dget g tid);
    Ok (dset g tid (set_depends e (depends e ∖ selfref)))) g (set_iter selfref).

(** Step A of [prepare]. *)
Definition build_dependencies (dataCaches : dict CacheData) (taskData : dict TaskData) : res (dict TaskData * graph) :=
  match resolve_tasks dataCaches (DState taskData [] [] [] ∅) with
  | (_, Raise e) => Raise e
  | (s, Ok _) =>
      let g := runtaskentries s in
      cum ← cumulative_deps g;
      g ← recursive_loop cum (recursivetasks s) (recursiveitasks s)
            (S (S (List.length (recursivetasks s) * List.length g))) g;
      g ← drop_selfref (recursivetasksselfref s) g;
      Ok (ds_taskData s, g)
  end.
End cumulative.
