(* ===== verification/DependsOk.v ===== *)
(** * Correctness of the dependencies (bb/runqueue.py)

    The loops of [Depends] end on every input; the files collected below a
    task are those of all the tasks it depends on; the recursive flags yield
    the least dependencies that are closed under them. *)

From Stdlib Require Import Ascii String.
From S2P Require Import Prelude.
From S2P Require Import PyStr.
From S2P Require Import PyDict.
From S2P Require Import Runs.
From S2P Require Import TaskIds.
From S2P Require Import Cache.
From S2P Require Import TaskData.
From S2P Require Import TaskGraph.
From S2P Require Import Depends.

(** ** The recipes below every task *)

(** The set under a key; empty for a missing one. *)
Definition mget (m : gmap string (gset string)) (t : string) : gset string := default ∅ (m !! t).

Lemma mget_insert m t s u : mget (<[t:=s]> m) u = if decide (t = u) then s else mget m u.
Proof. unfold mget. rewrite lookup_insert. by case_decide. Qed.

(** [t] leads to no circular dependency. *)
Definition grounded (g : graph) : string → Prop := Acc (λ d t, dep g t d).

Lemma list_to_map_get (f : RunTaskEntry → gset string) (g : graph) t :
  (list_to_map (List.map (λ kv, (kv.1, f kv.2)) g) : gmap string (gset string)) !! t = f <$> dget g t.
Proof.
  induction g as [|[k e] g IH]; [done|]. cbn [List.map list_to_map foldr fst snd dget].
  rewrite lookup_insert, IH. by case_decide.
Qed.

Lemma list_to_map_mget (f : RunTaskEntry → gset string) (g : graph) t :
  f init_entry = ∅ →
  mget (list_to_map (List.map (λ kv, (kv.1, f kv.2)) g)) t = match dget g t with Some e => f e | None => ∅ end.
Proof. intros _. unfold mget. rewrite list_to_map_get. by destruct (dget g t). Qed.

Lemma list_to_map_dom (f : RunTaskEntry → gset string) (g : graph) :
  dom (list_to_map (List.map (λ kv, (kv.1, f kv.2)) g) : gmap string (gset string)) = keys g.
Proof.
  apply set_eq. intros t. rewrite elem_of_dom, list_to_map_get, fmap_is_Some, <-elem_of_dkeys. by rewrite elem_of_keys.
Qed.

Lemma dom_lookup (m : gmap string (gset string)) K t : dom m = K → t ∈ K → m !! t = Some (mget m t).
Proof. intros <- [s Hs]%elem_of_dom. unfold mget. by rewrite Hs. Qed.

Section cum.
Context `{!SetOrder string} (g : graph).
Hypothesis Hwf : dict_wf g.

(** [reverse] on the dependencies of one task. *)
Lemma reverse_fold x ds (acc : gmap string (gset string)) :
  match fold_res (λ (acc : gmap string (gset string)) dep,
          r ← of_option KeyError (acc !! dep); Ok (<[dep := {[x]} ∪ r]> acc)) acc ds with
  | Ok acc' => (∀ d, d ∈ ds → d ∈ dom acc) ∧ dom acc' = dom acc ∧
      ∀ t y, y ∈ mget acc' t ↔ y ∈ mget acc t ∨ (y = x ∧ t ∈ ds)
  | Raise e => e ≠ OutOfFuel ∧ ∃ d, d ∈ ds ∧ d ∉ dom acc
  end.
Proof.
  revert acc. induction ds as [|d ds IH]; intros acc; cbn [fold_res].
  { split; [by intros ? ?%elem_of_nil|]. split; [done|]. intros t y. rewrite elem_of_nil. tauto. }
  destruct (acc !! d) as [r|] eqn:E; cbn [of_option mbind res_bind].
  2: { split; [done|]. exists d. split; [apply list_elem_of_here|]. by apply not_elem_of_dom. }
  assert (d ∈ dom acc) as Hd by (apply elem_of_dom; eauto).
  assert (dom (<[d := {[x]} ∪ r]> acc) = dom acc) as Hdom by (rewrite dom_insert_L; clear IH; set_solver).
  specialize (IH (<[d := {[x]} ∪ r]> acc)). rewrite Hdom in IH.
  destruct (fold_res _ _ ds) as [acc'|].
  2: { destruct IH as (? & d' & ? & ?). split; [done|]. exists d'. split; [by apply list_elem_of_further|done]. }
  destruct IH as (H1 & H2 & H3). split.
  { intros d' [->|?]%elem_of_cons; auto. }
  split; [done|]. intros t y. rewrite H3, mget_insert, elem_of_cons. case_decide as Ht; [subst t|].
  - unfold mget. rewrite E. simpl. set_solver.
  - naive_solver.
Qed.

Definition revs_ok (r : gmap string (gset string)) : Prop :=
  dom r = keys g ∧ ∀ t x, t ∈ keys g → x ∈ mget r t ↔ dep g x t.

Lemma dep_entry t d : dep g t d ↔ ∃ e, (t, e) ∈ g ∧ d ∈ depends e.
Proof.
  unfold dep, deps_of. split.
  - destruct (dget g t) as [e|] eqn:E; [|set_solver]. intros. exists e. split; [by apply dget_elem_of|done].
  - intros (e & Hin & Hd). by rewrite (elem_of_dget _ _ _ Hwf Hin).
Qed.

Lemma reverse_ok :
  match reverse g with
  | Ok r => graph_closed g ∧ revs_ok r
  | Raise e => e ≠ OutOfFuel ∧ ¬ graph_closed g
  end.
Proof.
  unfold reverse. set (m0 := list_to_map _).
  assert (∀ l (m : gmap string (gset string)),
    match fold_res (λ acc kv, fold_res (λ (acc : gmap string (gset string)) dep,
            r ← of_option KeyError (acc !! dep); Ok (<[dep := {[kv.1]} ∪ r]> acc)) acc
            (set_iter (depends kv.2))) m l with
    | Ok m' => (∀ kv d, kv ∈ l → d ∈ depends kv.2 → d ∈ dom m) ∧ dom m' = dom m ∧
        ∀ t y, y ∈ mget m' t ↔ y ∈ mget m t ∨ ∃ e, (y, e) ∈ l ∧ t ∈ depends e
    | Raise x => x ≠ OutOfFuel ∧ ∃ kv d, kv ∈ l ∧ d ∈ depends kv.2 ∧ d ∉ dom m
    end) as Hfold.
  { induction l as [|[x e] l IH]; intros m; cbn [fold_res].
    { split; [by intros ? ? ?%elem_of_nil|]. split; [done|]. intros t y. split; [tauto|].
      intros [?|(? & ?%elem_of_nil & _)]; done. }
    pose proof (reverse_fold x (set_iter (depends e)) m) as H1. cbn [fst snd].
    destruct (fold_res _ _ (set_iter _)) as [m1|]; cbn [mbind res_bind].
    2: { destruct H1 as (? & d & Hd & ?). split; [done|]. exists (x, e), d. rewrite elem_of_set_iter in Hd.
         split; [apply list_elem_of_here|done]. }
    destruct H1 as (A1 & A2 & A3). specialize (IH m1). rewrite A2 in IH. destruct (fold_res _ _ l) as [m2|].
    2: { destruct IH as (? & kv & d & ? & ?). split; [done|]. exists kv, d. split; [by apply list_elem_of_further|done]. }
    destruct IH as (B1 & B2 & B3).
    split.
    { intros kv d [->|Hkv]%elem_of_cons Hd; [apply A1; by apply elem_of_set_iter|]. by eapply B1. }
    split; [done|]. intros t y. rewrite B3, A3, elem_of_set_iter. setoid_rewrite elem_of_cons. naive_solver. }
  assert (dom m0 = keys g) as Hm0 by apply (list_to_map_dom (λ _, ∅)).
  specialize (Hfold g m0). destruct (fold_res _ _ g) as [r|].
  2: { destruct Hfold as (? & [t en] & d & Hin & Hd & Hn). split; [done|]. intros Hcl. apply Hn. rewrite Hm0.
       apply (Hcl t), dep_entry. eauto. }
  destruct Hfold as (A1 & A2 & A3). split.
  { intros t d (e & Hin & Hd)%dep_entry. rewrite <-Hm0. by apply (A1 (t, e)). }
  split; [by rewrite A2|]. intros t x Ht. rewrite A3, dep_entry. unfold m0.
  rewrite (list_to_map_mget (λ _, ∅)) by done. destruct (dget g t); set_solver.
Qed.

Context (revs : gmap string (gset string)).
Hypothesis Hclosed : graph_closed g.
Hypothesis Hrevs : revs_ok revs.

(** The files of what is reached from a task's dependencies in [In]. *)
Definition below (t : string) (In : string → Prop) (f : string) : Prop :=
  ∃ d x, dep g t d ∧ In d ∧ reach g d x ∧ f = fn_from_tid x.

#[local] Instance below_proper : Proper (eq ==> pointwise_relation _ iff ==> eq ==> iff) below.
Proof. intros t _ <- I J HIJ f _ <-. unfold below. by setoid_rewrite HIJ. Qed.

(** The tasks [dealt] are finished, and the edges [L] from [ends] followed. *)
Record einv (dealt : gset string) (L : list (string * string)) (st : cstate) : Prop := {
  ei_dom_deps : dom (c_deps st) = keys g;
  ei_dom_cum : dom (c_cum st) = keys g;
  ei_deps : ∀ t x, t ∈ keys g → x ∈ mget (c_deps st) t ↔ dep g t x ∧ (x ∉ dealt) ∧ (x, t) ∉ L;
  ei_cum : ∀ t f, t ∈ keys g → f ∈ mget (c_cum st) t ↔ below t (λ d, d ∈ dealt ∨ (d, t) ∈ L) f;
  ei_next : ∀ t, t ∈ c_next st ↔
    t ∈ keys g ∧ (∃ x, (x, t) ∈ L) ∧ ∀ x, dep g t x → x ∈ dealt ∨ (x, t) ∈ L
}.

(** The endpoints of a round: all their dependencies are dealt with. *)
Record ends_ok (dealt ends : gset string) : Prop := {
  eo_dealt : ∀ t, t ∈ dealt → grounded g t ∧ ∀ d, dep g t d → d ∈ dealt;
  eo_keys : dealt ⊆ keys g;
  eo_ends : ∀ t, t ∈ ends ↔ t ∈ keys g ∧ (t ∉ dealt) ∧ ∀ d, dep g t d → d ∈ dealt
}.

Definition edges_from (ends : gset string) (L : list (string * string)) : Prop :=
  ∀ x t, (x, t) ∈ L → x ∈ ends ∧ dep g t x.

Lemma cum_edge_ok dealt ends L st x t :
  ends_ok dealt ends → edges_from ends L → einv dealt L st → x ∈ ends → dep g t x →
  ∃ st', cum_edge x st t = Ok st' ∧ einv dealt (L ++ [(x, t)]) st'.
Proof.
  intros He HL Hi Hx Ht. assert (t ∈ keys g) as Hk by by eapply dep_key.
  apply (eo_ends _ _ He) in Hx as (Hxk & Hxd & Hxs).
  assert (t ≠ x) as Hne by (intros ->; by apply Hxd, Hxs).
  destruct Hi as [D1 D2 Hd Hc Hn]. unfold cum_edge. rewrite (dom_lookup _ _ _ D2 Hk). cbn [of_option mbind res_bind].
  rewrite lookup_insert_eq, lookup_insert_ne, (dom_lookup _ _ _ D2 Hxk), (dom_lookup _ _ _ D1 Hk) by done.
  cbn [of_option mbind res_bind]. eexists. split; [done|].
  assert (∀ u y, (y, u) ∈ L ++ [(x, t)] ↔ (y, u) ∈ L ∨ (y = x ∧ u = t)) as Happ.
  { intros u y. rewrite elem_of_app, list_elem_of_singleton. naive_solver. }
  assert (∀ u, (u, x) ∉ L) as HxL.
  { intros u Hu. destruct (HL _ _ Hu) as [Hu1 Hu2]. apply (eo_ends _ _ He) in Hu1 as (_ & Hu1 & _). by apply Hu1, Hxs. }
  split; cbn [c_deps c_cum c_next].
  - rewrite dom_insert_L. set_solver.
  - rewrite insert_insert_eq, dom_insert_L. set_solver.
  - intros u y Hu. rewrite mget_insert, Happ. case_decide as Hut; [subst u|].
    + rewrite elem_of_difference, elem_of_singleton, Hd by done. naive_solver.
    + rewrite Hd by done. naive_solver.
  - intros u f Hu. rewrite insert_insert_eq, mget_insert. unfold below. setoid_rewrite Happ. case_decide as Hut; [subst u|].
    + rewrite !elem_of_union, elem_of_singleton, Hc, Hc by done. unfold below. split.
      * intros [[->|(d & z & ?)]|(d & z & Hdz & _ & Hr & ->)]; [|naive_solver|].
        { exists x, x. split; [done|]. split; [tauto|]. split; [apply rtc_refl|done]. }
        exists x, z. split; [done|]. split; [tauto|]. split; [by eapply rtc_l|done].
      * intros (d & z & Hd' & [?|[?|[-> _]]] & Hr & ->); [left; right; eauto 8..|].
        apply rtc_inv in Hr as [->|(y & Hy & Hr)]; [by left; left|]. right. exists y, z. eauto 8 using Hxs.
    + rewrite Hc by done. unfold below. naive_solver.
  - intros u. assert (mget (c_deps st) t ∖ {[x]} = ∅ ↔ ∀ y, dep g t y → y ∈ dealt ∨ (y, t) ∈ L ++ [(x, t)]) as Hempty.
    { rewrite set_eq. setoid_rewrite elem_of_empty. setoid_rewrite elem_of_difference. setoid_rewrite elem_of_singleton.
      setoid_rewrite Happ. split.
      - intros Hy y Hdy. specialize (Hy y). rewrite Hd in Hy by done.
        destruct (decide (y ∈ dealt)); [by left|]. destruct (decide ((y, t) ∈ L)); [tauto|].
        destruct (decide (y = x)); tauto.
      - intros Hy y. rewrite Hd by done. split; [|done]. naive_solver. }
    destruct (decide (u = t)) as [->|Hut].
    + case_bool_decide as Hb.
      * pose proof (proj1 Hempty Hb) as Hall. split; [intros _|intros _; set_solver].
        split; [done|]. split; [|done]. exists x. apply Happ. by right.
      * rewrite Hn. split.
        -- intros (_ & _ & Hall). destruct Hb. apply Hempty. intros y Hy. rewrite Happ.
           destruct (Hall y Hy); auto.
        -- intros (_ & _ & Hall). destruct Hb. by apply Hempty.
    + assert (∀ y, (y, u) ∈ L ++ [(x, t)] ↔ (y, u) ∈ L) as Hsame by (intros y; rewrite Happ; naive_solver).
      setoid_rewrite Hsame. rewrite <-Hn. case_bool_decide; set_solver.
Qed.

Lemma cum_edges_ok dealt ends L st x ds :
  ends_ok dealt ends → edges_from ends L → einv dealt L st → x ∈ ends → (∀ t, t ∈ ds → dep g t x) →
  ∃ st', fold_res (cum_edge x) st ds = Ok st' ∧ einv dealt (L ++ List.map (pair x) ds) st' ∧
    edges_from ends (L ++ List.map (pair x) ds).
Proof.
  intros He HL Hi Hx. revert L HL st Hi. induction ds as [|t ds IH]; intros L HL st Hi Hds; cbn [fold_res List.map].
  { rewrite app_nil_r. eauto. }
  destruct (cum_edge_ok dealt ends L st x t) as (st1 & -> & H1); [done..|by apply Hds, list_elem_of_here|].
  cbn [mbind res_bind]. rewrite cons_middle, app_assoc. apply IH; [|done|intros; apply Hds; by apply list_elem_of_further].
  intros y u [Hy|[= -> ->]%list_elem_of_singleton]%elem_of_app; [by apply HL|].
  split; [done|]. apply Hds, list_elem_of_here.
Qed.

Lemma cum_ends_ok dealt ends L st l :
  ends_ok dealt ends → edges_from ends L → einv dealt L st → (∀ x, x ∈ l → x ∈ ends) →
  ∃ st' L', fold_res (λ st tid, r ← of_option KeyError (revs !! tid); fold_res (cum_edge tid) st (set_iter r)) st l
      = Ok st' ∧ einv dealt L' st' ∧ edges_from ends L' ∧
    ∀ x t, (x, t) ∈ L' ↔ (x, t) ∈ L ∨ (x ∈ l ∧ dep g t x).
Proof.
  intros He. revert L st. induction l as [|x l IH]; intros L st HL Hi Hl; cbn [fold_res].
  { exists st, L. split; [done|]. split; [done|]. split; [done|]. intros x t. rewrite elem_of_nil. tauto. }
  pose proof (Hl x (list_elem_of_here _ _)) as Hx. destruct Hrevs as [R1 R2].
  assert (x ∈ keys g) as Hk by by apply (eo_ends _ _ He).
  rewrite (dom_lookup _ _ _ R1 Hk). cbn [of_option mbind res_bind].
  destruct (cum_edges_ok dealt ends L st x (set_iter (mget revs x))) as (st1 & -> & H1 & HL1); [done..| |].
  { intros t Ht. by apply R2, elem_of_set_iter. }
  cbn [mbind res_bind]. destruct (IH _ st1 HL1 H1) as (st2 & L2 & -> & H2 & HL2 & HLeq).
  { intros; apply Hl. by apply list_elem_of_further. }
  exists st2, L2. split; [done|]. split; [done|]. split; [done|]. intros y t.
  rewrite HLeq, elem_of_app, elem_of_map, elem_of_cons. setoid_rewrite elem_of_set_iter.
  split; [|intros [?|[[->|?] ?]]; [tauto|left; right|tauto]].
  - intros [[?|(u & [= -> ->] & Hu)]|?]; [tauto| |tauto]. right. split; [by left|]. by apply R2.
  - exists t. split; [done|]. by apply R2.
Qed.

(** Between the rounds. *)
Record rinv (dealt : gset string) (st : cstate) : Prop := {
  ri_ends : ends_ok dealt (c_next st);
  ri_inv : einv dealt [] (CState (c_deps st) (c_cum st) ∅)
}.

Lemma cum_round_ok dealt st :
  rinv dealt st → ∃ st', cum_round revs st (c_next st) = Ok st' ∧ rinv (dealt ∪ c_next st) st'.
Proof.
  intros [He Hi]. unfold cum_round.
  destruct (cum_ends_ok dealt (c_next st) [] (CState (c_deps st) (c_cum st) ∅) (set_iter (c_next st)) He) as (st' & L & -> & Hi' & HL & HLeq).
  { by intros ? ? ?%elem_of_nil. }
  { done. }
  { intros x. by rewrite elem_of_set_iter. }
  exists st'. split; [done|]. destruct Hi' as [D1 D2 Hd Hc Hn].
  assert (∀ x t, (x, t) ∈ L ↔ x ∈ c_next st ∧ dep g t x) as HLs.
  { intros x t. rewrite HLeq, elem_of_nil, elem_of_set_iter. tauto. }
  clear HLeq Hi. setoid_rewrite HLs in Hd. setoid_rewrite HLs in Hc. setoid_rewrite HLs in Hn. destruct He as [E1 E2 E3].
  split; split; cbn [c_deps c_cum c_next].
  - intros t [Ht|Ht]%elem_of_union.
    + destruct (E1 t Ht) as [? Hs]. split; [done|]. set_solver.
    + apply E3 in Ht as (_ & _ & Hs). split; [|set_solver]. constructor. intros d Hd'. by apply E1, Hs.
  - intros t [Ht|Ht]%elem_of_union; [by apply E2|by apply E3].
  - intros t. rewrite Hn, not_elem_of_union. setoid_rewrite elem_of_union. split.
    + intros (Hk & (x & Hx & Hdx) & Hall). pose proof Hx as Hx'. apply E3 in Hx' as (_ & Hxd & _).
      split; [done|]. split; [|intros d Hd'; destruct (Hall d Hd') as [?|[? _]]; auto].
      split; [intros Ht; by apply Hxd, (E1 t Ht)|]. intros Ht. apply E3 in Ht as (_ & _ & Hs). by apply Hxd, Hs.
    + intros (Hk & [Hnd Hnn] & Hall). split; [done|]. split; [|intros x Hx; destruct (Hall x Hx); auto].
      destruct (decide (Exists (λ x, x ∉ dealt) (elements (deps_of g t)))) as [(x & Hx & Hxn)%Exists_exists|Hno].
      * apply elem_of_elements in Hx. exists x. destruct (Hall x Hx); [done|by split].
      * destruct Hnn. apply E3. split; [done|]. split; [done|]. intros d Hd'. destruct (decide (d ∈ dealt)); [done|].
        destruct Hno. apply Exists_exists. exists d. split; [by apply elem_of_elements|done].
  - done.
  - done.
  - intros t x Ht. rewrite Hd by done. rewrite not_elem_of_union, elem_of_nil. tauto.
  - intros t f Ht. rewrite Hc by done. unfold below. setoid_rewrite elem_of_union. setoid_rewrite elem_of_nil. naive_solver.
  - intros t. setoid_rewrite elem_of_nil. set_solver.
Qed.

Lemma cum_loop_ok fuel dealt st :
  rinv dealt st → size (keys g) < fuel + size dealt →
  ∃ cum, cum_loop revs fuel st = Ok cum ∧ dom cum = keys g ∧
    ∀ t f, t ∈ keys g → f ∈ mget cum t ↔ below t (grounded g) f.
Proof.
  revert dealt st. induction fuel as [|fuel IH]; intros dealt st Hi Hf.
  { pose proof (subseteq_size _ _ (eo_keys _ _ (ri_ends _ _ Hi))). lia. }
  cbn [cum_loop]. case_bool_decide as Hn.
  - destruct Hi as [[E1 E2 E3] [D1 D2 Hd Hc _]]. exists (c_cum st). split; [done|]. split; [done|].
    intros t f Ht. rewrite Hc by done. cbn. unfold below. setoid_rewrite elem_of_nil.
    assert (∀ d, d ∈ keys g → d ∈ dealt ↔ grounded g d) as Hg.
    { intros d Hdk. split; [intros Hdd; apply (E1 d Hdd)|]. intros Hg. induction Hg as [d _ IHd].
      destruct (decide (d ∈ dealt)) as [|Hnd]; [done|]. exfalso.
      assert (d ∈ c_next st) as Hin; [|rewrite Hn in Hin; by apply elem_of_empty in Hin].
      apply E3. split; [done|]. split; [done|]. intros u Hu. apply IHd; [done|]. by apply (Hclosed d). }
    assert (∀ d, dep g t d → (d ∈ dealt ∨ False) ↔ grounded g d) as Hgt.
    { intros d Hdt. rewrite <-Hg by by apply (Hclosed t). tauto. }
    split; intros (d & x & Hdt & Hgd & ?); exists d, x; (split; [done|]); (split; [by apply Hgt|done]).
  - destruct (cum_round_ok dealt st Hi) as (st' & -> & Hi'). cbn [mbind res_bind].
    apply (IH _ _ Hi'). assert (dealt ## c_next st) as Hdis.
    { intros t Ht Ht2. by apply (eo_ends _ _ (ri_ends _ _ Hi)) in Ht2 as (_ & ? & _). }
    rewrite size_union by done. assert (size (c_next st) ≠ 0); [|lia]. intros E. by apply Hn, leibniz_equiv, size_empty_inv.
Qed.
End cum.

(** [cumulative_deps] ends.  It raises an exception only when a dependency is not
    a task; otherwise the files under a task are those of its dependencies that
    lead to no circular dependency, and of all these depend on. *)
Lemma cumulative_deps_ok `{!SetOrder string} g :
  dict_wf g →
  match cumulative_deps g with
  | Ok cum => graph_closed g ∧ dom cum = keys g ∧
      ∀ t f, t ∈ keys g → f ∈ mget cum t ↔ below g t (grounded g) f
  | Raise e => e ≠ OutOfFuel ∧ ¬ graph_closed g
  end.
Proof.
  intros Hwf. unfold cumulative_deps. pose proof (reverse_ok g Hwf) as Hr.
  destruct (reverse g) as [revs|e]; cbn [mbind res_bind]; [|done]. destruct Hr as [Hcl Hr].
  set (st := CState _ _ _).
  destruct (cum_loop_ok g Hwf revs Hcl Hr (S (S (List.length g))) ∅ st) as (cum & -> & Hd & Hc); [| |done].
  - assert (∀ t, t ∈ c_next st ↔ t ∈ keys g ∧ deps_of g t = ∅) as Hn.
    { intros t. unfold st. cbn [c_next]. rewrite elem_of_list_to_set, elem_of_map.
      split.
      - intros ([k e] & -> & Hin). apply list_elem_of_In, filter_In in Hin as [Hin He%bool_decide_eq_true_1].
        apply list_elem_of_In in Hin. cbn [fst snd] in *. apply (elem_of_dget _ _ _ Hwf) in Hin as Hg.
        split; [|unfold deps_of; by rewrite Hg]. apply elem_of_keys, elem_of_dkeys. by eexists.
      - intros [[e He]%elem_of_keys%elem_of_dkeys Hd]. unfold deps_of in Hd. rewrite He in Hd.
        exists (t, e). split; [done|]. apply list_elem_of_In, filter_In. split; [|by apply bool_decide_eq_true_2].
        apply list_elem_of_In. by apply dget_elem_of. }
    split; split; try (unfold st; cbn [c_deps c_cum]).
    + by intros t ?%elem_of_empty.
    + set_solver.
    + intros t. fold st. rewrite Hn. unfold dep. split; [intros [? ->]|intros (? & _ & Hall)]; [set_solver|].
      split; [done|]. apply set_eq. intros d. split; [|set_solver]. intros Hd. by destruct (not_elem_of_empty d (Hall d Hd)).
    + apply (list_to_map_dom depends).
    + apply (list_to_map_dom (λ _, ∅)).
    + intros t x Ht. rewrite (list_to_map_mget depends) by done. unfold dep, deps_of.
      setoid_rewrite elem_of_nil. set_solver.
    + intros t f Ht. rewrite (list_to_map_mget (λ _, ∅)) by done. unfold below. setoid_rewrite elem_of_nil.
      destruct (dget g t); set_solver.
    + intros t. setoid_rewrite elem_of_nil. set_solver.
  - rewrite size_empty. pose proof (size_keys g). lia.
Qed.

(** ** Recursive dependencies *)

Lemma sum_list_le {A} (f f' : A → nat) l :
  (∀ x, x ∈ l → f x ≤ f' x) → sum_list_with f l ≤ sum_list_with f' l.
Proof.
  induction l as [|x l IH]; intros H; cbn [sum_list_with]; [done|].
  pose proof (H x (list_elem_of_here _ _)). assert (sum_list_with f l ≤ sum_list_with f' l); [|lia].
  apply IH. intros. apply H. by apply list_elem_of_further.
Qed.

Lemma sum_list_lt {A} (f f' : A → nat) l x :
  (∀ x, x ∈ l → f x ≤ f' x) → x ∈ l → f x < f' x → sum_list_with f l < sum_list_with f' l.
Proof.
  intros H Hx. induction Hx as [x l|x y l Hx IH]; intros Hlt; simpl.
  - assert (sum_list_with f l ≤ sum_list_with f' l); [|lia].
    apply sum_list_le. intros. apply H. by apply list_elem_of_further.
  - pose proof (H y (list_elem_of_here _ _)). assert (sum_list_with f l < sum_list_with f' l); [|lia].
    apply IH; [|done]. intros. apply H. by apply list_elem_of_further.
Qed.

Lemma sum_list_bound {A} (f : A → nat) l n : (∀ x, x ∈ l → f x ≤ n) → sum_list_with f l ≤ List.length l * n.
Proof.
  induction l as [|x l IH]; intros H; simpl; [lia|].
  pose proof (H x (list_elem_of_here _ _)). assert (sum_list_with f l ≤ List.length l * n); [|lia].
  apply IH. intros. apply H. by apply list_elem_of_further.
Qed.

(** A loop whose body succeeds and keeps an invariant. *)
Lemma fold_res_inv {A B} (P : A → Prop) (f : A → B → res A) a l :
  P a → (∀ a x, x ∈ l → P a → ∃ a', f a x = Ok a' ∧ P a') → ∃ a', fold_res f a l = Ok a' ∧ P a'.
Proof.
  revert a. induction l as [|x l IH]; intros a Ha Hf; cbn [fold_res]; [eauto|].
  destruct (Hf a x (list_elem_of_here _ _) Ha) as (a1 & -> & Ha1). cbn [mbind res_bind].
  apply IH; [done|]. intros. apply Hf; [by apply list_elem_of_further|done].
Qed.

(** A step that either counts or changes nothing. *)
Definition quiet (st st' : graph * nat) : Prop := st.2 ≤ st'.2 ∧ (st'.2 = st.2 → st' = st).

Lemma quiet_trans a b c : quiet a b → quiet b c → quiet a c.
Proof.
  intros [? H1] [? H2]. split; [lia|]. intros E. transitivity b; [apply H2|apply H1]; lia.
Qed.

Lemma quiet_fold {B} (f : graph * nat → B → res (graph * nat)) l st st' :
  (∀ st x st', f st x = Ok st' → quiet st st') → fold_res f st l = Ok st' →
  quiet st st' ∧ (st'.2 = st.2 → ∀ x, x ∈ l → f st x = Ok st).
Proof.
  intros Hf. revert st. induction l as [|x l IH]; intros st; cbn [fold_res].
  { intros [= <-]. split; [by split|]. by intros _ ? ?%elem_of_nil. }
  destruct (f st x) as [st1|] eqn:E; cbn [mbind res_bind]; [|done]. intros Hl.
  destruct (IH st1 Hl) as [Hq Hs]. pose proof (Hf _ _ _ E) as Hq1. split; [by eapply quiet_trans|].
  intros Heq. destruct Hq as [? ?], Hq1 as [? H1]. rewrite H1 in E, Hs by lia.
  intros y [->|Hy]%elem_of_cons; [done|]. by apply Hs.
Qed.

Section recursive.
Context `{!SetOrder string} (cum : gmap string (gset string)) (rectasks recitasks : dict (list string)) (g0 : graph).
Hypothesis Hclosed : graph_closed g0.
Hypothesis Hrec : dict_wf rectasks.
Hypothesis Hkeys : ∀ t, t ∈ dkeys rectasks → t ∈ keys g0.

(** [x] is one of the tasks that [t] wants of the recipe [f]. *)
Definition wanted (t f x : string) : Prop :=
  ∃ names n, dget rectasks t = Some names ∧ n ∈ names ∧ x = tid_of f n ∧ x ∈ keys g0 ∧ x ≠ t.

(** [x] has the name of one of the tasks that [t] wants. *)
Definition wanted_name (t x : string) : Prop :=
  ∃ names n, dget rectasks t = Some names ∧ n ∈ names ∧ endswith x (":" +s+ n) = true ∧ x ∈ keys g0.

(** The dependencies with the recursive flags: those declared; the wanted
    tasks of all recipes below a dependency, below a [recideptask], or below a
    dependency of one; and those that a dependency with a recursive flag has. *)
Inductive rdep : string → string → Prop :=
  | rdep_declared t d : dep g0 t d → rdep t d
  | rdep_below t d f x : rdep t d → f ∈ mget cum d → wanted t f x → rdep t x
  | rdep_itask t l i f x : dget recitasks t = Some l → i ∈ l → f ∈ mget cum i → wanted t f x → rdep t x
  | rdep_itask_below t l i d f x : dget recitasks t = Some l → i ∈ l → rdep i d → f ∈ mget cum d →
      wanted t f x → rdep t x
  | rdep_through t d x : rdep t d → d ∈ dkeys rectasks → rdep d x → wanted_name t x → rdep t x.

(** [g] has grown out of [g0] by dependencies the flags ask for. *)
Record grown (g g' : graph) : Prop := {
  gr_keys : dkeys g' = dkeys g;
  gr_revdeps : ∀ t, revdeps_of g' t = revdeps_of g t;
  gr_deps : ∀ t, deps_of g t ⊆ deps_of g' t
}.

Lemma grown_trans a b c : grown a b → grown b c → grown a c.
Proof.
  intros [? R1 D1] [? R2 D2]. split; [congruence|intros t; by rewrite R2, R1|].
  intros t. etrans; [apply D1|apply D2].
Qed.

Definition sound (g : graph) : Prop := grown g0 g ∧ ∀ t d, dep g t d → rdep t d.

(** What a step does: it counts exactly when it adds a dependency. *)
Definition adv (st st' : graph * nat) : Prop :=
  grown st.1 st'.1 ∧ quiet st st' ∧
  (st.2 < st'.2 → ∃ t d, t ∈ dkeys rectasks ∧ (d ∉ deps_of st.1 t) ∧ d ∈ deps_of st'.1 t).

Lemma adv_refl st : adv st st.
Proof. split; [by split|]. split; [by split|]. lia. Qed.

Lemma adv_trans a b c : adv a b → adv b c → adv a c.
Proof.
  intros (G1 & Q1 & H1) (G2 & Q2 & H2). split; [by eapply grown_trans|]. split; [by eapply quiet_trans|].
  intros Hlt. destruct (decide (a.2 < b.2)) as [Hab|Hab].
  - destruct (H1 Hab) as (t & d & ? & ? & Hd). exists t, d. split; [done|]. split; [done|]. by apply (gr_deps _ _ G2).
  - destruct Q1 as [? Q1]. assert (b = a) as -> by (apply Q1; lia). by apply H2.
Qed.

Lemma add_extra_quiet t st x st' : add_extra t st x = Ok st' → quiet st st' ∧ st.2 < st'.2.
Proof.
  unfold add_extra. intros (e & _ & [= <-])%res_bind_Ok. unfold quiet. simpl. lia.
Qed.

(** Adding a dependency that was missing in an earlier state. *)
Lemma add_extra_ok t st0 st x :
  t ∈ dkeys rectasks → rdep t x → sound st.1 → adv st0 st → x ∉ deps_of st0.1 t →
  ∃ st', add_extra t st x = Ok st' ∧ sound st'.1 ∧ adv st0 st'.
Proof.
  intros Ht Hr [Hg Hs] (A1 & A2 & A3) Hx. unfold add_extra.
  assert (t ∈ dkeys st.1) as Hk by (rewrite (gr_keys _ _ Hg); by apply elem_of_keys, Hkeys).
  apply elem_of_dkeys in Hk as Hk'. destruct Hk' as [e He]. rewrite He. cbn [of_option mbind res_bind].
  set (g' := dset st.1 t _). eexists. split; [done|].
  assert (∀ u, deps_of g' u = if decide (t = u) then {[x]} ∪ deps_of st.1 u else deps_of st.1 u) as Hd.
  { intros u. unfold deps_of, g'. rewrite dget_dset. case_decide; subst; [by rewrite He|done]. }
  assert (grown st.1 g') as Hgr.
  { split.
    - unfold g'. rewrite dkeys_dset. by rewrite (proj2 (dmem_spec st.1 t) Hk).
    - intros u. unfold revdeps_of, g'. rewrite dget_dset. case_decide; subst; [by rewrite He|done].
    - intros u. rewrite Hd. case_decide; set_solver. }
  split; [split; [by eapply grown_trans|]|split; [by eapply grown_trans|split]]; cbn [fst snd].
  - intros u d. unfold dep. rewrite Hd. case_decide; subst; [|apply Hs].
    intros [->%elem_of_singleton|Hd']%elem_of_union; [done|by apply Hs].
  - destruct A2. split; simpl; lia.
  - intros _. exists t, x. split; [done|]. split; [done|]. rewrite Hd, decide_True by done. set_solver.
Qed.

Lemma below_step_quiet t f st n st' :
  (let newtid := tid_of f n in
   if bool_decide (newtid = t) then Ok st
   else if dmem st.1 newtid && negb (bool_decide (newtid ∈ deps_of st.1 t)) then add_extra t st newtid else Ok st)
    = Ok st' → quiet st st'.
Proof.
  cbv zeta. case_bool_decide; [by intros [= <-]|]. case_match; [|by intros [= <-]].
  by intros [? _]%add_extra_quiet.
Qed.

Lemma elem_of_total_deps g t d :
  d ∈ total_deps recitasks g t ↔
  dep g t d ∨ ∃ l i, dget recitasks t = Some l ∧ i ∈ l ∧ (d = i ∨ dep g i d).
Proof.
  unfold total_deps, dep. rewrite elem_of_union. destruct (dget recitasks t) as [l|].
  - rewrite elem_of_union, elem_of_list_to_set, elem_of_union_list. setoid_rewrite elem_of_map. naive_solver.
  - rewrite elem_of_empty. naive_solver.
Qed.

Lemma dmem_grown g x : grown g0 g → dmem g x = true ↔ x ∈ keys g0.
Proof. intros Hg. by rewrite dmem_spec, (gr_keys _ _ Hg), elem_of_keys. Qed.

Lemma rec_entry t names (st : graph * nat) :
  dget rectasks t = Some names → sound st.1 → t ∈ dkeys rectasks ∧ ∃ e, dget st.1 t = Some e ∧ deps_of st.1 t = depends e.
Proof.
  intros Ht [Hg _]. assert (t ∈ dkeys rectasks) as Hk by (apply elem_of_dkeys; eauto). split; [done|].
  pose proof (Hkeys _ Hk) as Hk0. rewrite elem_of_keys, <-(gr_keys _ _ Hg) in Hk0.
  apply elem_of_dkeys in Hk0 as [e He]. exists e. split; [done|]. unfold deps_of. by rewrite He.
Qed.

Lemma recursive_below_ok t names st :
  dget rectasks t = Some names → sound st.1 →
  ∃ st', recursive_below cum recitasks t names st = Ok st' ∧ sound st'.1 ∧ adv st st'.
Proof.
  intros Ht Hs. destruct (rec_entry t names st Ht Hs) as (Hk & e & He & _). unfold recursive_below.
  rewrite He. cbn [of_option mbind res_bind].
  apply (fold_res_inv (λ st' : graph * nat, sound st'.1 ∧ adv st st')); [split; [done|apply adv_refl]|].
  intros st1 f Hf Hst1. apply elem_of_set_iter in Hf. apply fold_res_inv; [done|].
  clear st1 Hst1. intros st1 n Hn [Hs1 Ha1]. case_bool_decide as Hne; [eauto|].
  destruct (dmem st1.1 (tid_of f n)) eqn:Hm; cbn [andb]; [|eauto]. case_bool_decide as Hin; cbn [negb]; [eauto|].
  apply add_extra_ok; [done| |done|done|].
  - apply (dmem_grown _ _ (proj1 Hs1)) in Hm. apply elem_of_union_list in Hf as (X & HX & HfX).
    apply elem_of_map in HX as (d & -> & Hd). apply elem_of_elements, elem_of_total_deps in Hd.
    assert (wanted t f (tid_of f n)) as Hw by (exists names, n; eauto 6).
    destruct Hd as [Hd|(l & i & Hl & Hi & [->|Hd])].
    + eapply rdep_below; [by apply (proj2 Hs)|done..].
    + by eapply rdep_itask.
    + apply (rdep_itask_below t l i d f _ Hl Hi); [by apply (proj2 Hs)|done..].
  - intros Hd. apply Hin. destruct Ha1 as [Hg _]. by apply (gr_deps _ _ Hg).
Qed.

Lemma recursive_through_ok t names st :
  dget rectasks t = Some names → sound st.1 →
  ∃ st', recursive_through rectasks t names st = Ok st' ∧ sound st'.1 ∧ adv st st'.
Proof.
  intros Ht Hs. destruct (rec_entry t names st Ht Hs) as (Hk & e & He & Hde). unfold recursive_through.
  rewrite He. cbn [of_option mbind res_bind].
  destruct (fold_res_inv (B := string) (λ acc : gset string, ∀ x, x ∈ acc →
      ∃ d, dep st.1 t d ∧ d ∈ dkeys rectasks ∧ dep st.1 d x ∧ (x ∉ deps_of st.1 t))
    (λ (acc : gset string) dep, d ← of_option KeyError (dget st.1 dep); Ok (acc ∪ (depends d ∖ depends e))) ∅
    (set_iter (depends e ∩ list_to_set (dkeys rectasks)))) as (deps & -> & Hdeps).
  - by intros ? ?%elem_of_empty.
  - intros acc d Hd Hacc. apply elem_of_set_iter, elem_of_intersection in Hd as [Hd Hdr].
    apply elem_of_list_to_set in Hdr. pose proof (Hkeys _ Hdr) as Hdk.
    rewrite elem_of_keys, <-(gr_keys _ _ (proj1 Hs)) in Hdk. apply elem_of_dkeys in Hdk as [ed Hed].
    rewrite Hed. eexists. split; [done|]. intros x [?|[Hx Hxn]%elem_of_difference]%elem_of_union; [auto|].
    exists d. unfold dep. rewrite Hde. split; [done|]. split; [done|]. split; [|done]. unfold deps_of. by rewrite Hed.
  - cbn [mbind res_bind].
    apply (fold_res_inv (λ st' : graph * nat, sound st'.1 ∧ adv st st')); [split; [done|apply adv_refl]|].
    intros st1 x Hx Hst1. apply elem_of_set_iter, Hdeps in Hx as (d & Htd & Hdr & Hdx & Hxn).
    apply fold_res_inv; [done|]. clear st1 Hst1. intros st1 n Hn [Hs1 Ha1].
    destruct (endswith x (":" +s+ n)) eqn:Hend; cbn [andb]; [|eauto].
    destruct (dmem st1.1 x) eqn:Hm; [|eauto]. apply add_extra_ok; [done| |done..].
    eapply rdep_through; [by apply (proj2 Hs)|done|by apply (proj2 Hs)|]. exists names, n.
    apply (dmem_grown _ _ (proj1 Hs1)) in Hm. eauto 6.
Qed.

Lemma recursive_round_ok g :
  sound g → ∃ st', recursive_round cum rectasks recitasks g = Ok st' ∧ sound st'.1 ∧ adv (g, 0) st'.
Proof.
  intros Hs. unfold recursive_round. apply (fold_res_inv (λ st' : graph * nat, sound st'.1 ∧ adv (g, 0) st')).
  { split; [done|apply adv_refl]. }
  intros st [t names] Hin [Hst Ha]. apply (elem_of_dget _ _ _ Hrec) in Hin. cbn [fst snd].
  destruct (recursive_below_ok t names st Hin Hst) as (st1 & -> & Hs1 & Ha1). cbn [mbind res_bind].
  destruct (recursive_through_ok t names st1 Hin Hs1) as (st2 & -> & Hs2 & Ha2). exists st2. split; [done|].
  split; [done|]. eapply adv_trans; [done|]. by eapply adv_trans.
Qed.

(** A round that counts nothing has nothing to add. *)
Lemma recursive_below_quiet t names st st' :
  recursive_below cum recitasks t names st = Ok st' → quiet st st' ∧
  (st'.2 = st.2 → ∀ d f n, d ∈ total_deps recitasks st.1 t → f ∈ mget cum d → n ∈ names →
     tid_of f n ≠ t → dmem st.1 (tid_of f n) = true → tid_of f n ∈ deps_of st.1 t).
Proof.
  unfold recursive_below. intros (e & _ & Hf)%res_bind_Ok.
  apply quiet_fold in Hf as [Hq Hs]; [|intros ??? H; eapply quiet_fold in H as [H _]; [done|apply below_step_quiet]].
  split; [done|]. intros Heq d f n Hd Hfd Hn Hne Hm. specialize (Hs Heq f). rewrite elem_of_set_iter in Hs.
  assert (f ∈ ⋃ List.map (λ dep, default ∅ (cum !! dep)) (elements (total_deps recitasks st.1 t))) as Hfu.
  { apply elem_of_union_list. exists (mget cum d). split; [|done]. apply elem_of_map. exists d.
    split; [done|by apply elem_of_elements]. }
  apply Hs, quiet_fold in Hfu as [_ Hall]; [|apply below_step_quiet]. specialize (Hall eq_refl n Hn). cbv zeta in Hall.
  rewrite (bool_decide_eq_false_2 _ Hne), Hm in Hall. cbn [andb] in Hall. case_bool_decide as Hin; [done|].
  apply add_extra_quiet in Hall as [_ Hall]. lia.
Qed.

Lemma recursive_through_quiet t names st st' :
  recursive_through rectasks t names st = Ok st' → quiet st st' ∧
  (st'.2 = st.2 → ∀ d x n, dep st.1 t d → d ∈ dkeys rectasks → dep st.1 d x → n ∈ names →
     endswith x (":" +s+ n) = true → dmem st.1 x = true → x ∈ deps_of st.1 t).
Proof.
  unfold recursive_through. intros (e & He & Hf)%res_bind_Ok. apply of_option_Ok in He.
  apply res_bind_Ok in Hf as (deps & Hdeps & Hf).
  assert (∀ (st : graph * nat) x n st', (if endswith x (":" +s+ n) && dmem st.1 x then add_extra t st x else Ok st) = Ok st' →
    quiet st st') as Hstep.
  { intros st1 x n st2. case_match; [by intros [? _]%add_extra_quiet|by intros [= <-]]. }
  apply quiet_fold in Hf as [Hq Hs]; [|intros ??? H; eapply quiet_fold in H as [H _]; [done|intros ???; apply Hstep]].
  split; [done|]. intros Heq d x n Htd Hdr Hdx Hn Hend Hm. specialize (Hs Heq x). rewrite elem_of_set_iter in Hs.
  unfold dep, deps_of in *. rewrite He in *. destruct (decide (x ∈ depends e)) as [|Hnx]; [done|]. exfalso.
  assert (x ∈ deps) as Hx.
  { destruct (dget st.1 d) as [ed|] eqn:Hed; [|by apply elem_of_empty in Hdx].
    assert (∀ l (acc acc' : gset string),
      fold_res (λ acc dep, d ← of_option KeyError (dget st.1 dep); Ok (acc ∪ (depends d ∖ depends e))) acc l = Ok acc' →
      x ∈ acc ∨ d ∈ l → x ∈ acc') as Hfold; [|eapply Hfold; [done|right]].
    { induction l as [|u l IH]; intros acc acc'; cbn [fold_res].
      { intros [= <-] [?|?%elem_of_nil]; done. }
      intros (a1 & (eu & Heu & [= <-])%res_bind_Ok & Hl)%res_bind_Ok. apply of_option_Ok in Heu.
      intros [Hx|[<-|Hu]%elem_of_cons]; apply (IH _ _ Hl); [left; set_solver| |by right].
      left. rewrite Hed in Heu. injection Heu as <-. set_solver. }
    apply elem_of_set_iter, elem_of_intersection. split; [done|by apply elem_of_list_to_set]. }
  apply Hs, quiet_fold in Hx as [_ Hall]; [|intros ???; apply Hstep]. specialize (Hall eq_refl n Hn).
  cbv beta in Hall. rewrite Hend, Hm in Hall. cbn [andb] in Hall. apply add_extra_quiet in Hall as [_ Hall]. lia.
Qed.

Definition round_step (st : graph * nat) (kv : string * list string) : res (graph * nat) :=
  st ← recursive_below cum recitasks kv.1 kv.2 st; recursive_through rectasks kv.1 kv.2 st.

Lemma round_step_quiet st kv st' : round_step st kv = Ok st' → quiet st st'.
Proof.
  intros (st1 & [H1 _]%recursive_below_quiet & [H2 _]%recursive_through_quiet)%res_bind_Ok. by eapply quiet_trans.
Qed.

Lemma round_closed g g' :
  sound g → recursive_round cum rectasks recitasks g = Ok (g', 0) → g' = g ∧ ∀ t x, rdep t x → dep g t x.
Proof.
  intros Hs Hr. unfold recursive_round in Hr. fold round_step in Hr.
  apply (quiet_fold round_step) in Hr as [[_ Hq] Hall]; [|intros ???; apply round_step_quiet].
  specialize (Hq eq_refl). specialize (Hall eq_refl). split; [congruence|].
  assert (∀ t names, dget rectasks t = Some names →
    recursive_below cum recitasks t names (g, 0) = Ok (g, 0) ∧ recursive_through rectasks t names (g, 0) = Ok (g, 0)) as Hstep.
  { intros t names Ht%dget_elem_of. specialize (Hall _ Ht). unfold round_step in Hall. cbn [fst snd] in Hall.
    apply res_bind_Ok in Hall as (st1 & E1 & E2). pose proof (recursive_below_quiet _ _ _ _ E1) as [Q1 _].
    pose proof (recursive_through_quiet _ _ _ _ E2) as [Q2 _]. destruct Q1 as [? Q1], Q2 as [? Q2]. cbn [snd] in *.
    rewrite Q1 in E1, E2 by lia. done. }
  assert (∀ t x d f, dep g t d ∨ (∃ l i, dget recitasks t = Some l ∧ i ∈ l ∧ (d = i ∨ dep g i d)) →
    f ∈ mget cum d → wanted t f x → dep g t x) as Hbelow.
  { intros t x d f Hd Hf (names & n & Ht & Hn & -> & Hk & Hne). destruct (Hstep _ _ Ht) as [E _].
    apply recursive_below_quiet in E as [_ E]. apply (E eq_refl d f n); [by apply elem_of_total_deps|done..|].
    by apply (dmem_grown _ _ (proj1 Hs)). }
  intros t x. induction 1 as [t d Hd|t d f x _ IH Hf Hw|t l i f x Hl Hi Hf Hw|t l i d f x Hl Hi _ IH Hf Hw|t d x _ IH1 Hd _ IH2 Hw].
  - by apply (gr_deps _ _ (proj1 Hs)).
  - eapply Hbelow; eauto.
  - eapply Hbelow; eauto 8.
  - eapply Hbelow; eauto 8.
  - destruct Hw as (names & n & Ht & Hn & Hend & Hk). destruct (Hstep _ _ Ht) as [_ E].
    apply recursive_through_quiet in E as [_ E]. apply (E eq_refl d x n); [done..|].
    by apply (dmem_grown _ _ (proj1 Hs)).
Qed.

Lemma sound_closed g : sound g → graph_closed g.
Proof.
  intros [Hg Hs] t d Hd%Hs. unfold keys. rewrite (gr_keys _ _ Hg). fold (keys g0).
  induction Hd as [t d Hd|t d f x _ _ _ Hw|t l i f x _ _ _ Hw|t l i d f x _ _ _ _ _ Hw|t d x _ _ _ _ _ Hw].
  - by apply (Hclosed t).
  - by destruct Hw as (? & ? & _ & _ & _ & ? & _).
  - by destruct Hw as (? & ? & _ & _ & _ & ? & _).
  - by destruct Hw as (? & ? & _ & _ & _ & ? & _).
  - by destruct Hw as (? & ? & _ & _ & _ & ?).
Qed.

(** The dependencies of the recursive tasks: every round that counts has more. *)
Definition weight (g : graph) : nat := sum_list_with (λ t, size (deps_of g t)) (dkeys rectasks).

Lemma weight_bound g : sound g → weight g ≤ List.length rectasks * List.length g.
Proof.
  intros Hs. unfold weight. replace (List.length rectasks) with (List.length (dkeys rectasks)) by apply length_fmap.
  apply sum_list_bound. intros t _. etrans; [|apply size_keys]. apply subseteq_size. intros d Hd.
  by apply (sound_closed g Hs t).
Qed.

Lemma weight_adv st st' : adv st st' → st.2 < st'.2 → weight st.1 < weight st'.1.
Proof.
  intros (Hg & _ & H) Hlt. destruct (H Hlt) as (t & d & Ht & Hn & Hd). apply (sum_list_lt _ _ _ t); [|done|].
  - intros u _. apply subseteq_size, (gr_deps _ _ Hg).
  - apply subset_size. split; [apply (gr_deps _ _ Hg)|]. set_solver.
Qed.

Lemma recursive_loop_ok fuel g :
  sound g → List.length rectasks * List.length g0 < fuel + weight g →
  ∃ g', recursive_loop cum rectasks recitasks fuel g = Ok g' ∧ grown g0 g' ∧ ∀ t d, dep g' t d ↔ rdep t d.
Proof.
  revert g. induction fuel as [|fuel IH]; intros g Hs Hf.
  { pose proof (weight_bound g Hs) as Hb. assert (List.length g = List.length g0) as Hl; [|rewrite Hl in Hb; lia].
    rewrite <-!(length_fmap fst). change (List.length (dkeys g) = List.length (dkeys g0)). by rewrite (gr_keys _ _ (proj1 Hs)). }
  cbn [recursive_loop]. destruct (recursive_round_ok g Hs) as ([g' n] & E & Hs' & Ha). rewrite E. cbn [mbind res_bind].
  case_bool_decide as Hn.
  - subst n. destruct (round_closed g g' Hs E) as [-> Hc]. exists g. split; [done|]. split; [apply Hs|].
    intros t d. split; [apply Hs|apply Hc].
  - apply IH; [done|]. pose proof (weight_adv _ _ Ha) as Hw. cbn [fst snd] in Hw. lia.
Qed.

(** The loop over the recursive tasks ends with the least dependencies closed
    under the flags. *)
Lemma recursive_ok :
  ∃ g', recursive_loop cum rectasks recitasks (S (S (List.length rectasks * List.length g0))) g0 = Ok g' ∧
    grown g0 g' ∧ ∀ t d, dep g' t d ↔ rdep t d.
Proof. apply recursive_loop_ok; [|lia]. split; [by split|]. intros. by apply rdep_declared. Qed.
End recursive.

(** ** The loop over the tasks *)

(** The entries and the notes on recursive tasks, at any time of the loop. *)
Record resolved (s : dstate) : Prop := {
  rs_wf : dict_wf (runtaskentries s);
  rs_revdeps : ∀ t, revdeps_of (runtaskentries s) t = ∅;
  rs_self : ∀ t, t ∉ deps_of (runtaskentries s) t;
  rs_rec : dict_wf (recursivetasks s);
  rs_rec_keys : ∀ t, t ∈ dkeys (recursivetasks s) → t ∈ keys (runtaskentries s);
  rs_selfref : recursivetasksselfref s ⊆ keys (runtaskentries s)
}.

Definition more_tasks (s s' : dstate) : Prop := keys (runtaskentries s) ⊆ keys (runtaskentries s').

#[export] Instance more_tasks_preorder : PreOrder more_tasks.
Proof. split; [intros s|intros a b c]; unfold more_tasks; [done|apply transitivity]. Qed.

Lemma keys_dset g t e : keys (dset g t e) = {[t]} ∪ keys g.
Proof. apply set_eq. intros u. rewrite elem_of_union, elem_of_singleton, !elem_of_keys, elem_of_dkeys_dset. done. Qed.

(** An entry with dependencies but itself. *)
Lemma resolved_entry t d s :
  resolved s → resolved (set_runtaskentries (dset (runtaskentries s) t (set_depends init_entry (d ∖ {[t]}))) s).
Proof.
  intros [H1 H2 H3 H4 H5 H6]. split; cbn [set_runtaskentries runtaskentries recursivetasks recursivetasksselfref].
  - by apply dset_wf.
  - intros u. unfold revdeps_of in *. rewrite dget_dset. specialize (H2 u). by case_decide.
  - intros u. unfold deps_of in *. rewrite dget_dset. specialize (H3 u). case_decide as Ht; [subst u|done]. simpl. set_solver.
  - done.
  - intros u Hu. rewrite keys_dset. set_solver.
  - rewrite keys_dset. set_solver.
Qed.

Section resolve.
Context (dataCaches : dict CacheData).

Abbreviation good := (runs resolved resolved more_tasks (λ e, e ≠ OutOfFuel)).

Lemma good_task_data {B} s mc (f : TaskData → M dstate B) Q :
  resolved s → (∀ td, good s (f td) Q) → good s (task_data mc ≫= f) Q.
Proof.
  intros Hs Hf. unfold task_data. change (good s (lift (of_option KeyError (dget (ds_taskData s) mc)) ≫= f) Q).
  apply (runs_lift _ _ _ _); [done| |intros td _; apply Hf].
  intros e. by destruct (dget _ _); simpl; [|intros [= <-]].
Qed.

Lemma good_option {A B} s x (o : option A) (f : A → M dstate B) Q :
  resolved s → x ≠ OutOfFuel → (∀ a, good s (f a) Q) → good s (lift (of_option x o) ≫= f) Q.
Proof.
  intros Hs Hx Hf. apply (runs_lift _ _ _ _); [done| |intros a _; apply Hf]. intros e. by destruct o; simpl; [|intros [= <-]].
Qed.

Lemma good_lift {A B} s (r : res A) (f : A → M dstate B) Q :
  resolved s → fueled r → (∀ a, good s (f a) Q) → good s (lift r ≫= f) Q.
Proof. intros Hs Hr Hf. apply (runs_lift _ _ _ _); [done| |intros a _; apply Hf]. intros e -> ->. done. Qed.

(** Changes of the task data alone. *)
Lemma resolved_taskData t s : resolved s → resolved (set_ds_taskData t s).
Proof. by intros []. Qed.

Lemma add_mc_dependencies_good mc tid s :
  resolved s → good s (add_mc_dependencies mc tid) (λ _ _, True).
Proof.
  intros Hs. unfold add_mc_dependencies. apply good_task_data; [done|]. intros td.
  apply (runs_for_each resolved resolved more_tasks (λ e, e ≠ OutOfFuel) (λ _, True)); [done..|]. intros dep s1 _ Hs1 _ _.
  destruct (split_on ":" dep) as [|? [|frommc [|mcdep [|pn [|deptask rest]]]]]; try (by apply (runs_raise _ _ _ _)).
  case_bool_decide; [|by apply (runs_ret _ _ _ _)]. apply good_task_data; [done|]. intros other.
  apply good_option; [done..|]. intros l. apply good_option; [done..|]. intros fn. unfold append_tdepend.
  apply good_task_data; [done|]. intros td'. apply good_option; [done..|]. intros te.
  apply (runs_modify _ _ _ _); [by unfold more_tasks|by apply resolved_taskData|done].
Qed.

Lemma split_tid_fueled tid : fueled (split_tid_mcfn tid).
Proof. unfold split_tid_mcfn. fueled. Qed.

Lemma add_named_fueled targets entries d x n : fueled (add_named targets entries d x n).
Proof. unfold add_named. fueled. Qed.

Lemma direct_depends_fueled td task_deps tid taskname taskfn : fueled (direct_depends td task_deps tid taskname taskfn).
Proof.
  pose proof split_tid_fueled. pose proof add_named_fueled.
  unfold direct_depends, add_flagged, add_tdepend, add_idepend, add_irdepend. fueled.
Qed.

Lemma note_recursive_good td task_deps tid mc fn taskname taskfn d s :
  resolved s → tid ∈ keys (runtaskentries s) →
  good s (note_recursive td task_deps tid mc fn taskname taskfn d) (λ _ _, True).
Proof.
  intros Hs Ht. unfold note_recursive. destruct (task_flag task_deps "recrdeptask" taskname) as [names|];
    [|by apply (runs_ret _ _ _ _)].
  apply (runs_modify_bind _ _ _ _ s); [by unfold more_tasks|]. set (s1 := set_recursivetasks _ s).
  assert (resolved s1) as Hs1.
  { destruct Hs as [H1 H2 H3 H4 H5 H6]. split; unfold s1; cbn [set_recursivetasks runtaskentries recursivetasks recursivetasksselfref]; [done..|by apply dset_wf| |done].
    intros t. rewrite elem_of_dkeys_dset. intros [->|?]; [done|by apply H5]. }
  apply good_option; [done..|]. intros l1. apply good_option; [done..|]. intros l2.
  set (s2 := if bool_decide (taskname ∈ split_ws names) then set_selfref ({[tid]} ∪ recursivetasksselfref s1) s1 else s1).
  assert (resolved s2) as Hs2.
  { unfold s2. case_bool_decide; [|done]. destruct Hs1 as [H1 H2 H3 H4 H5 H6]. split; [done..|].
    cbn [set_selfref recursivetasksselfref runtaskentries] in *. set_solver. }
  apply (runs_modify_bind _ _ _ _ s1); [unfold more_tasks; by case_bool_decide|]. fold s2.
  apply (runs_modify_bind _ _ _ _ s2); [unfold more_tasks; by case_match|]. apply (runs_ret _ _ _ _); [|done].
  case_match; [|done]. by destruct Hs2 as [].
Qed.

Lemma resolve_task_good tid s : resolved s → good s (resolve_task dataCaches tid) (λ _ s', tid ∈ keys (runtaskentries s')).
Proof.
  intros Hs. unfold resolve_task. apply good_lift; [done|apply split_tid_fueled|]. intros [[[mc fn] taskname] taskfn].
  apply good_option; [done..|]. intros c. apply good_option; [done..|]. intros task_deps.
  set (s1 := set_runtaskentries (dset (runtaskentries s) tid init_entry) s).
  assert (resolved s1) as Hs1.
  { pose proof (resolved_entry tid ∅ s Hs) as H. by rewrite empty_difference_L in H. }
  assert (keys (runtaskentries s1) = {[tid]} ∪ keys (runtaskentries s)) as Hk1 by apply keys_dset.
  assert (tid ∈ keys (runtaskentries s1)) as Ht by set_solver.
  apply (runs_modify_bind _ _ _ _ s); [unfold more_tasks; fold s1; set_solver|]. fold s1.
  apply good_task_data; [done|]. intros td. case_bool_decide; [by apply (runs_ret _ _ _ _)|].
  apply (runs_bind _ _ _ _ _ _ _ (λ _ _, True)).
  { case_match; [by apply add_mc_dependencies_good|by apply (runs_ret _ _ _ _)]. }
  intros [] s2 Hs2 H12 _. apply good_task_data; [done|]. intros td2. apply good_lift; [done|apply direct_depends_fueled|].
  intros d. apply (runs_bind _ _ _ _ _ _ _ (λ _ _, True)); [apply note_recursive_good; [done|by apply H12]|].
  intros d' s3 Hs3 H23 _. set (s4 := set_runtaskentries (dset (runtaskentries s3) tid (set_depends init_entry (d' ∖ {[tid]}))) s3).
  assert (keys (runtaskentries s4) = {[tid]} ∪ keys (runtaskentries s3)) as Hk4 by apply keys_dset.
  apply (runs_modify _ _ _ _); [unfold more_tasks; fold s4; set_solver|by apply resolved_entry|fold s4; set_solver].
Qed.

Lemma resolve_tasks_good s : resolved s → good s (resolve_tasks dataCaches) (λ _ _, True).
Proof.
  intros Hs. unfold resolve_tasks. apply (runs_get (S := dstate)). apply (runs_for_each resolved resolved more_tasks (λ e, e ≠ OutOfFuel) (λ _, True)); [done..|].
  intros mc s1 _ Hs1 _ _. apply good_task_data; [done|]. intros td.
  apply (runs_for_each resolved resolved more_tasks (λ e, e ≠ OutOfFuel) (λ _, True)); [done..|]. intros tid s2 _ Hs2 _ _.
  eapply runs_mono; [by apply resolve_task_good|done].
Qed.
End resolve.

Lemma resolved_init td : resolved (DState td [] [] [] ∅).
Proof.
  split; try done; [apply dict_wf_nil|apply dict_wf_nil|]. by intros t ?%elem_of_nil.
Qed.

(** ** Step A *)

Lemma drop_selfref_ok `{!SetOrder string} selfref g :
  selfref ⊆ keys g →
  ∃ g', drop_selfref selfref g = Ok g' ∧ dkeys g' = dkeys g ∧ (∀ t, revdeps_of g' t = revdeps_of g t) ∧
    ∀ t, deps_of g' t = if bool_decide (t ∈ selfref) then deps_of g t ∖ selfref else deps_of g t.
Proof.
  intros Hk. unfold drop_selfref.
  assert (∀ l g1, (∀ t, t ∈ l → t ∈ dkeys g1) →
    ∃ g', fold_res (λ g tid, e ← of_option KeyError (dget g tid);
        Ok (dset g tid (set_depends e (depends e ∖ selfref)))) g1 l = Ok g' ∧ dkeys g' = dkeys g1 ∧
      (∀ t, revdeps_of g' t = revdeps_of g1 t) ∧
      ∀ t, deps_of g' t = if bool_decide (t ∈ l) then deps_of g1 t ∖ selfref else deps_of g1 t) as Hfold.
  { induction l as [|x l IH]; intros g1 Hl; cbn [fold_res]; [by exists g1|].
    pose proof (Hl x (list_elem_of_here _ _)) as Hx. apply elem_of_dkeys in Hx as Hx'. destruct Hx' as [e He].
    rewrite He. cbn [of_option mbind res_bind]. set (g2 := dset g1 x _).
    assert (dkeys g2 = dkeys g1) as Hd2 by (unfold g2; by rewrite dkeys_dset, (proj2 (dmem_spec g1 x) Hx)).
    destruct (IH g2) as (g' & -> & K & R & D).
    { intros t Ht. rewrite Hd2. apply Hl. by apply list_elem_of_further. }
    exists g'. split; [done|]. split; [congruence|]. split.
    - intros t. rewrite R. unfold g2, revdeps_of. rewrite dget_dset. case_decide; subst; [by rewrite He|done].
    - intros t. rewrite D. assert (deps_of g2 t = if decide (x = t) then deps_of g1 t ∖ selfref else deps_of g1 t) as Hg2.
      { unfold g2, deps_of. rewrite dget_dset. case_decide; subst; [by rewrite He|done]. }
      rewrite Hg2. clear -x. repeat case_bool_decide; case_decide; set_solver. }
  destruct (Hfold (set_iter selfref) g) as (g' & -> & K & R & D).
  { intros t Ht. by apply elem_of_keys, Hk, elem_of_set_iter. }
  exists g'. split; [done|]. split; [done|]. split; [done|]. intros t. rewrite D.
  by rewrite (bool_decide_ext _ _ (elem_of_set_iter selfref t)).
Qed.

(** Step A ends, whatever the metadata says, and its graph has a task for
    every dependency and no reverse dependencies yet. *)
Lemma build_dependencies_ok `{!SetOrder string} dataCaches taskData :
  match build_dependencies dataCaches taskData with
  | Ok (_, g) => dict_wf g ∧ graph_closed g ∧ ∀ t, revdeps_of g t = ∅
  | Raise e => e ≠ OutOfFuel
  end.
Proof.
  unfold build_dependencies. pose proof (resolve_tasks_good dataCaches _ (resolved_init taskData)) as [_ Hr].
  destruct (resolve_tasks dataCaches _) as [s [[]|e]]; [|by destruct Hr]. destruct Hr as [Hs _].
  pose proof (cumulative_deps_ok (runtaskentries s) (rs_wf _ Hs)) as Hc.
  destruct (cumulative_deps _) as [cum|e]; cbn [mbind res_bind]; [|by destruct Hc]. destruct Hc as (Hcl & _ & _).
  destruct (recursive_ok cum (recursivetasks s) (recursiveitasks s) (runtaskentries s) Hcl
    (rs_rec _ Hs) (rs_rec_keys _ Hs)) as (g1 & -> & Hg & Hd). cbn [mbind res_bind].
  assert (keys g1 = keys (runtaskentries s)) as Hk by (unfold keys; by rewrite (gr_keys _ _ Hg)).
  destruct (drop_selfref_ok (recursivetasksselfref s) g1) as (g2 & -> & K & R & D); [rewrite Hk; apply Hs|].
  cbn [mbind res_bind]. split; [|split].
  - unfold dict_wf. change (NoDup (dkeys g2)). rewrite K, (gr_keys _ _ Hg). apply Hs.
  - intros t d Hdep. replace (keys g2) with (keys g1) by (unfold keys; by rewrite K).
    assert (graph_closed g1) as Hc1.
    { apply (sound_closed cum (recursivetasks s) (recursiveitasks s) (runtaskentries s) Hcl g1).
      split; [done|]. intros ??. apply Hd. }
    apply (Hc1 t).
    unfold dep in *. rewrite D in Hdep. case_bool_decide; set_solver.
  - intros t. by rewrite R, (gr_revdeps _ _ Hg), (rs_revdeps _ Hs).
Qed.

(** ** Properties *)

Lemma acyclic_grounded `{!SetOrder string} g t : dict_wf g → graph_closed g → acyclic g → grounded g t.
Proof.
  intros Hwf Hcl Ha. destruct (graph_rank g) as (rank & Hrank & _); [done..|].
  revert t. assert (∀ n t, rank t < n → grounded g t) as H; [|intros t; by apply (H (S (rank t))); lia].
  induction n as [|n IH]; intros t Ht; [lia|]. constructor. intros d Hd. apply IH. pose proof (Hrank _ _ Hd). lia.
Qed.

(** On a graph without circular dependencies the walk from the tasks that
    depend on nothing ends, and collects below every task the files of exactly
    the tasks it depends on, directly or through others. *)
Theorem cumulative_deps_files `{!SetOrder string} g :
  dict_wf g → graph_closed g → acyclic g →
  ∃ cum, cumulative_deps g = Ok cum ∧
    ∀ t f, t ∈ keys g → f ∈ mget cum t ↔ ∃ x, tc (dep g) t x ∧ f = fn_from_tid x.
Proof.
  intros Hwf Hcl Ha. pose proof (cumulative_deps_ok g Hwf) as H.
  destruct (cumulative_deps g) as [cum|x]; [|by destruct H as [_ []]]. destruct H as (_ & _ & H).
  exists cum. split; [done|].
  intros t f Ht. rewrite H by done. unfold below. split.
  - intros (d & x & Hd & _ & Hr & ->). exists x. split; [|done]. eapply tc_rtc_r; [by apply tc_once|done].
  - intros (x & Hx & ->). assert (∃ d, dep g t d ∧ reach g d x) as (d & Hd & Hr).
    { destruct Hx as [t x Hx|t y x Hx Hy]; [exists x; split; [done|apply rtc_refl]|].
      exists y. split; [done|by apply tc_rtc]. }
     exists d, x. split; [done|].
    split; [by apply acyclic_grounded|done].
Qed.

(** C26: the loop over the tasks with recursive flags ends, keeps the tasks,
    and gives every task exactly the least dependencies closed under its flags,
    in whatever order the sets are visited. *)
Theorem recursive_dependencies_least `{!SetOrder string} cum rectasks recitasks g :
  graph_closed g → dict_wf rectasks → (∀ t, t ∈ dkeys rectasks → t ∈ keys g) →
  ∃ g', recursive_loop cum rectasks recitasks (S (S (List.length rectasks * List.length g))) g = Ok g' ∧
    dkeys g' = dkeys g ∧ ∀ t d, dep g' t d ↔ rdep cum rectasks recitasks g t d.
Proof.
  intros Hcl Hrec Hk. destruct (recursive_ok cum rectasks recitasks g Hcl Hrec Hk) as (g' & E & Hg & Hd).
  exists g'. split; [done|]. split; [apply Hg|done].
Qed.

#[local] Existing Instance sample_order.

(** An image, a library it needs and a recipe below the library. *)
Definition image_graph : graph :=
  [("img.bb:do_rootfs", entry ["lib.bb:do_package"]); ("lib.bb:do_package", entry ["low.bb:do_build"]);
   ("low.bb:do_build", entry []); ("lib.bb:do_deploy", entry []); ("low.bb:do_deploy", entry [])].

Definition image_rank (t : string) : nat :=
  if bool_decide (t = "img.bb:do_rootfs") then 2 else if bool_decide (t = "lib.bb:do_package") then 1 else 0.

Lemma cumulative_deps_files_witness :
  ∃ cum, cumulative_deps image_graph = Ok cum ∧ "low.bb" ∈ mget cum "img.bb:do_rootfs".
Proof.
  destruct (cumulative_deps_files image_graph) as (cum & E & H).
  - by_eval.
  - apply closedb_deps. vm_compute. reflexivity.
  - apply (acyclic_rankedb image_rank). vm_compute. reflexivity.
  - exists cum. split; [done|]. apply H; [by_eval|]. exists "low.bb:do_build". split; [|by vm_compute].
    apply (tc_l _ _ "lib.bb:do_package"); [|apply tc_once];
      [change ("lib.bb:do_package" ∈ deps_of image_graph "img.bb:do_rootfs")
      |change ("low.bb:do_build" ∈ deps_of image_graph "lib.bb:do_package")]; by_eval.
Defined.

Definition image_cum : gmap string (gset string) :=
  match cumulative_deps image_graph with Ok cum => cum | Raise _ => ∅ end.

Lemma recursive_dependencies_least_witness :
  ∃ g', recursive_loop image_cum [("img.bb:do_rootfs", ["do_deploy"])] [] 7 image_graph = Ok g' ∧
    dep g' "img.bb:do_rootfs" "low.bb:do_deploy".
Proof.
  destruct (recursive_dependencies_least image_cum [("img.bb:do_rootfs", ["do_deploy"])] [] image_graph) as (g' & E & K & D).
  - apply closedb_deps. vm_compute. reflexivity.
  - by_eval.
  - intros t Ht%list_elem_of_singleton. subst t. by_eval.
  - exists g'. split; [exact E|]. apply D.
    apply (rdep_below _ _ _ _ _ "lib.bb:do_package" "low.bb").
    + apply rdep_declared. change ("lib.bb:do_package" ∈ deps_of image_graph "img.bb:do_rootfs"). by_eval.
    + by_eval.
    + exists ["do_deploy"], "do_deploy". split; [by vm_compute|].
      split; [apply list_elem_of_here|]. split; [done|]. split; [by_eval|discriminate].
Defined.
