(* ===== verification/Prepare.v ===== *)
(** * Preparing a run queue (bb/runqueue.py)

    The second half of [RunQueueData.prepare]: the tasks the targets need are
    marked and the others pruned, [--runall] and [--runonly] choose again, the
    sanity checks reject circular dependencies and two versions of a recipe,
    the tasks with a setscene variant are collected, stamps are invalidated
    and every task is hashed. *)

From Stdlib Require Import Ascii String.
From S2P Require Import Prelude.
From S2P Require Import PyStr.
From S2P Require Import PyDict.
From S2P Require Import Runs.
From S2P Require Import TaskIds.
From S2P Require Import Cache.
From S2P Require Import TaskData.
From S2P Require Import TaskGraph.
From S2P Require Import Stamps.
From S2P Require Import Depends.

(** What [prepare] calls of the signature generator beyond [SigGen]; a
    generator without [tasks_resolved] has one that does nothing. *)
Class PrepareSigGen (G : Type) `{SigGen G} : Type := {
  sg_invalidate_task : string → CacheData → string → M G unit;
  sg_tasks_resolved : dict string → dict string → CacheData → M G unit;
  sg_set_setscene_tasks : gset string → M G unit;
  sg_prep_taskhash : string → gset string → M G unit;
  sg_writeout_file_checksum_cache : M G unit
}.

(** A target to build: configuration, name, task and file. *)
Record target : Type := Target {
  tg_mc : string;
  tg_target : string;
  tg_task : string;
  tg_fn : string
}.

(** The command line and the configuration. *)
Record prepare_config : Type := PrepareConfig {
  targets : list target;
  runall : list string;
  runonly : list string;
  pc_force : bool;
  nosetscene : bool;
  invalidate_stamp : option string;
  multi_provider_whitelist : list string;
  stampwhitelist : string
}.

(** What a log message about several providers of one target says of a file. *)
Record provider_report : Type := ProviderReport {
  pr_fn : string;
  unique_dependees : gset string;
  unique_provides : gset string;
  unique_rprovides : gset string
}.

(** The fields of [RunQueueData] when [prepare] returns. *)
Record prepared : Type := Prepared {
  pd_taskData : dict TaskData;
  pd_entries : graph;
  runq_weight : dict Z;
  pd_target_tids : list string;
  runq_setscene_tids : gset string;
  stampfnwhitelist : dict (list string);
  pd_reports : list (string * list provider_report)
}.

(** [for x in l: acc = f(acc, x)] *)
Fixpoint fold_M {S A B} (f : A → B → M S A) (acc : A) (l : list B) : M S A :=
  match l with
  | [] => mret acc
  | x :: l => acc ← f acc x; fold_M f acc l
  end.

(** [if not task.startswith("do_"): task = "do_{0}".format(task)] *)
Definition do_name (task : string) : string := if startswith task "do_" then task else "do_" +s+ task.

Section prepare.
Context {G : Type} `{PrepareSigGen G} `{!SetOrder string}.
Context (dataCaches : dict CacheData) (pc : prepare_config).

(** ** Step B: the active tasks *)

(** One target: its task id and, marked, the task, or for [task-] only what the
    task depends on. *)
Definition mark_target (taskData : dict TaskData) (g : graph) (st : list string * gset string) (t : target) :
    res (list string * gset string) :=
  let '(tids, runq_build) := st in
  td ← of_option KeyError (dget taskData (tg_mc t));
  if negb (have_build_target td (tg_target t)) || bool_decide (tg_target t ∈ failed_deps td) then Ok st
  else
    let parents := endswith (tg_task t) "-" in
    let task := if parents then str_drop_last 1 (tg_task t) else tg_task t in
    if bool_decide (tg_fn t ∈ failed_fns td) then Ok st
    else
      let tid := tid_of (tg_fn t) task in
      if dmem (taskentries td) tid then
        runq_build ←
          (if parents then
             e ← of_option KeyError (dget g tid);
             fold_res (λ rb i, mark g i rb) runq_build (set_iter (depends e))
           else mark g tid runq_build);
        Ok (tids ++ [tid], runq_build)
      else Raise Fatal.

Definition mark_targets (taskData : dict TaskData) (g : graph) : res (list string * gset string) :=
  fold_res (mark_target taskData g) ([], ∅) (targets pc).

(** [invalidate_task] *)
Definition invalidate_task (taskData : dict TaskData) (tid : string) (error_nostamp : bool) : M G unit :=
  '(mc, fn, taskname, taskfn) ← lift (split_tid_mcfn tid);
  c ← lift (of_option KeyError (dget dataCaches mc));
  taskdep ← lift (of_option KeyError (dget (task_deps c) taskfn));
  _ ← lift (of_option KeyError (dget taskData mc));
  match task_flag taskdep "nostamp" taskname with
  | Some _ => if error_nostamp then raise Fatal else mret tt
  | None => sg_invalidate_task taskname c taskfn
  end.

(** ** Step C: choosing the tasks again *)

(** [for tid in ...: mark_active(tid, 1); if force: invalidate_task(tid, False)] *)
Definition mark_chosen (taskData : dict TaskData) (g : graph) (runq_build : gset string) (tids : list string) :
    M G (gset string) :=
  fold_M (λ rb tid,
    rb ← lift (mark g tid rb);
    _ ← (if pc_force pc then invalidate_task taskData tid false else mret tt);
    mret rb) runq_build tids.

(** The task of the recipe of one entry, put back if it was pruned. *)
Definition put_back (delcount : graph) (task : string) (st : graph * gset string) (tid : string) :
    graph * gset string :=
  let '(g, tids) := st in
  let wanttid := tid_of (fn_from_tid tid) task in
  let g := match dget delcount wanttid with Some e => dset g wanttid e | None => g end in
  (g, if dmem g wanttid then {[wanttid]} ∪ tids else tids).

Definition runall_task (taskData : dict TaskData) (delcount : graph) (st : graph * gset string) (task : string) :
    M G (graph * gset string) :=
  let '(g, runq_build) := st in
  let '(g, runall_tids) := foldl (put_back delcount (do_name task)) (g, ∅) (dkeys g) in
  rb ← mark_chosen taskData g runq_build (set_iter runall_tids);
  mret (g, rb).

Definition handle_runall (taskData : dict TaskData) (g delcount : graph) : M G (graph * graph) :=
  match runall pc with
  | [] => mret (g, delcount)
  | tasks =>
      '(g, runq_build) ← fold_M (runall_task taskData delcount) (g, ∅) tasks;
      let '(g, delcount) := prune g runq_build delcount in
      if nonempty g then mret (g, delcount) else raise Fatal
  end.

Definition runonly_task (taskData : dict TaskData) (g : graph) (runq_build : gset string) (task : string) :
    M G (gset string) :=
  tids ← lift (fold_res (λ acc k,
           n ← taskname_from_tid k;
           Ok (if bool_decide (n = do_name task) then acc ++ [k] else acc)) [] (dkeys g));
  mark_chosen taskData g runq_build tids.

Definition handle_runonly (taskData : dict TaskData) (g delcount : graph) : M G (graph * graph) :=
  match runonly pc with
  | [] => mret (g, delcount)
  | tasks =>
      runq_build ← fold_M (runonly_task taskData g) ∅ tasks;
      let '(g, delcount) := prune g runq_build delcount in
      if nonempty g then mret (g, delcount) else raise Fatal
  end.

(** ** Step D: checks *)

(** [prov_list]: the files of a configuration that provide each target. *)
Definition provider_step (c : CacheData) (mc : string) (st : dict (list string) * list string) (tid : string) :
    res (dict (list string) * list string) :=
  let '(prov_list, seen_fn) := st in
  '(tidmc, fn, taskname, taskfn) ← split_tid_mcfn tid;
  if bool_decide (taskfn ∈ seen_fn) || negb (bool_decide (mc = tidmc)) then Ok st
  else
    provs ← of_option KeyError (dget (fn_provides c) taskfn);
    Ok (foldl (λ d prov, add_target d taskfn prov) prov_list provs, seen_fn ++ [taskfn]).

(** Two files of the same recipe are fatal. *)
Definition check_versions (c : CacheData) (fns : list string) : res (list string) :=
  fold_res (λ seen_pn fn,
    pn ← of_option KeyError (dget (pkg_fn c) fn);
    if bool_decide (pn ∈ seen_pn) then Raise Fatal else Ok (seen_pn ++ [pn])) [] fns.

(** [if not common: common = set(s) else: common &= s], for every set. *)
Definition common_of (l : list (gset string)) : gset string :=
  foldl (λ common s, if bool_decide (common = ∅) then s else common ∩ s) ∅ l.

(** The tasks of other files that depend on a task of [provfn]. *)
Definition dependees_of_fn (g : graph) (provfn : string) : gset string :=
  foldl (λ deps kv,
    if bool_decide (fn_from_tid kv.1 = provfn)
    then deps ∪ filter (λ d, fn_from_tid d ≠ provfn) (revdeps kv.2) else deps) ∅ g.

Definition rprovides_of (c : CacheData) (provfn : string) : gset string :=
  list_to_set (List.concat (List.map (λ d : dict (list string),
    List.map fst (List.filter (λ kv, bool_decide (provfn ∈ kv.2)) d)) [rproviders c; packages c; packages_dynamic c])).

(** The rows of the message about one target. *)
Definition report_providers (c : CacheData) (g : graph) (fns : list string) : res (list provider_report) :=
  provs ← fold_res (λ acc fn, p ← of_option KeyError (dget (fn_provides c) fn); Ok (acc ++ [list_to_set p])) [] fns;
  let deps := List.map (dependees_of_fn g) fns in
  let rprovs := List.map (rprovides_of c) fns in
  Ok (List.map (λ r, ProviderReport r.1.1.1 (r.1.1.2 ∖ common_of deps) (r.1.2 ∖ common_of provs) (r.2 ∖ common_of rprovs))
        (List.combine (List.combine (List.combine fns deps) provs) rprovs)).

(** The check for multiple providers, with the messages it logs. *)
Definition check_providers_of (g : graph) (reports : list (string * list provider_report)) (mcc : string * CacheData) :
    res (list (string * list provider_report)) :=
  '(prov_list, _) ← fold_res (provider_step mcc.2 mcc.1) ([], []) (dkeys g);
  fold_res (λ reports kv,
    if bool_decide (List.length kv.2 < 2) || bool_decide (kv.1 ∈ multi_provider_whitelist pc) then Ok reports
    else
      _ ← check_versions mcc.2 kv.2;
      rows ← report_providers mcc.2 g kv.2;
      Ok (reports ++ [(kv.1, rows)])) reports prov_list.

Definition check_providers (g : graph) : res (list (string * list provider_report)) :=
  fold_res (check_providers_of g) [] dataCaches.

(** The stamp whitelist; [self.taskData] is a dictionary by configuration and
    has no attribute [build_targets]. *)
Definition make_stampfnwhitelist (taskData : dict TaskData) : res (dict (list string)) :=
  fold_res (λ acc (kv : string * TaskData),
    fns ← fold_res (λ fns entry,
      if dmem (build_targets kv.2) entry then Raise AttributeError else Ok fns) [] (split_ws (stampwhitelist pc));
    Ok (dset acc kv.1 fns)) [] taskData.

Definition find_setscene_tids (taskData : dict TaskData) (g : graph) : res (gset string) :=
  if nosetscene pc then Ok ∅
  else fold_res (λ acc tid,
    '(mc, fn, taskname, _) ← split_tid_mcfn tid;
    td ← of_option KeyError (dget taskData mc);
    Ok (if dmem (taskentries td) (tid +s+ "_setscene") then {[tid]} ∪ acc else acc)) ∅ (dkeys g).

(** [--force] and [--clear-stamp]. *)
Definition invalidate_targets (taskData : dict TaskData) (target_tids : list string) : M G unit :=
  _ ← (if pc_force pc then for_each target_tids (λ tid, invalidate_task taskData tid false) else mret tt);
  match invalidate_stamp pc with
  | None | Some "" => mret tt
  | Some stamps =>
      for_each target_tids (λ tid,
        for_each (split_on "," stamps) (λ st,
          invalidate_task taskData (tid_of (fn_from_tid tid) (do_name st)) true))
  end.

(** The providers of virtual targets, for the signature generator. *)
Definition resolve_virtuals (taskData : dict TaskData) : M G unit :=
  for_each taskData (λ kv,
    let virtmap := get_providermap kv.2 (Some "virtual/") in
    c ← lift (of_option KeyError (dget dataCaches kv.1));
    virtpnmap ← lift (fold_res (λ acc v,
      pn ← of_option KeyError (dget (pkg_fn c) v.2); Ok (dset acc v.1 pn)) [] virtmap);
    sg_tasks_resolved virtmap virtpnmap c).

(** [prepare_task_hash] *)
Definition prepare_task_hash (g : graph) (tid : string) : M G graph :=
  e ← lift (of_option KeyError (dget g tid));
  _ ← sg_prep_taskhash tid (depends e);
  h ← sg_get_taskhash tid (depends e);
  u ← sg_get_unihash tid;
  mret (dset g tid (set_unihash (set_hash e (Some h)) (Some u))).

Definition hash_all (g : graph) : M G graph :=
  order ← lift (hash_tasks g);
  fold_M prepare_task_hash g order.

(** From the task data to the pruned graph: steps A to C. *)
Definition choose_tasks (taskData : dict TaskData) : M G (dict TaskData * graph * list string) :=
  '(taskData, g) ← lift (build_dependencies dataCaches taskData);
  '(target_tids, runq_build) ← lift (mark_targets taskData g);
  let '(g, delcount) := prune g runq_build [] in
  '(g, delcount) ← handle_runall taskData g delcount;
  '(g, delcount) ← handle_runonly taskData g delcount;
  if nonempty g then mret (taskData, g, target_tids)
  else
    _ ← lift (of_option KeyError (dget taskData ""));
    raise Fatal.

(** [prepare]; [None] stands for the result 0 when there is nothing to do, the
    result is otherwise the number of entries. *)
Definition prepare (taskData : dict TaskData) : M G (option prepared) :=
  if negb (existsb (λ kv : string * TaskData, nonempty (taskentries kv.2)) taskData) then mret None
  else
    '(taskData, g, target_tids) ← choose_tasks taskData;
    '(g, weight) ← lift (check_graph g);
    reports ← lift (check_providers g);
    whitelist ← lift (make_stampfnwhitelist taskData);
    setscene ← lift (find_setscene_tids taskData g);
    _ ← invalidate_targets taskData target_tids;
    _ ← resolve_virtuals taskData;
    _ ← sg_set_setscene_tasks setscene;
    g ← hash_all g;
    _ ← sg_writeout_file_checksum_cache;
    mret (Some (Prepared taskData g weight target_tids setscene whitelist reports)).
End prepare.
