(* ===== verification/Sched.v ===== *)
(** * Run queue statistics and schedulers (bb/runqueue.py)

    [RunQueueStats], and the three schedulers that choose the next task to
    start: the basic one, [speed], which prefers the heavier tasks, and
    [completion], which regroups that order by kind of task. *)

From Stdlib Require Import Ascii String.
From S2P Require Import Prelude.
From S2P Require Import PyStr.
From S2P Require Import PyDict.
From S2P Require Import TaskIds.
From S2P Require Import Cache.
From S2P Require Import TaskGraph.
From S2P Require Import Stamps.

(** ** Statistics *)

Record RunQueueStats : Type := MkStats {
  completed : Z;
  skipped : Z;
  failed : Z;
  active : Z;
  total : Z
}.

Definition init_stats (total : Z) : RunQueueStats := MkStats 0 0 0 0 total.

Definition taskFailed (s : RunQueueStats) : RunQueueStats :=
  MkStats (completed s) (skipped s) (failed s + 1) (active s - 1) (total s).
Definition taskCompleted (s : RunQueueStats) : RunQueueStats :=
  MkStats (completed s + 1) (skipped s) (failed s) (active s - 1) (total s).
Definition taskSkipped (s : RunQueueStats) : RunQueueStats :=
  MkStats (completed s) (skipped s + 1) (failed s) (active s + 1) (total s).
Definition taskActive (s : RunQueueStats) : RunQueueStats :=
  MkStats (completed s) (skipped s) (failed s) (active s + 1) (total s).

(** ** Schedulers *)

(** An entry of the priority map: a task, or the view of all task ids that the
    basic scheduler puts there as one entry. *)
Inductive prio : Type :=
  | PTid (tid : string)
  | PKeys (tids : list string).

#[export] Instance prio_eq_dec : EqDecision prio.
Proof. solve_decision. Defined.

Record scheduler : Type := MkSched {
  prio_map : list prio;
  s_buildable : gset string;
  skip_maxthread : dict (option string);
  s_stamps : dict (option string);
  rev_prio_map : option (dict nat)
}.

Definition set_s_buildable (s : scheduler) (b : gset string) : scheduler :=
  MkSched (prio_map s) b (skip_maxthread s) (s_stamps s) (rev_prio_map s).

Definition newbuildable (task : string) (s : scheduler) : scheduler :=
  set_s_buildable s ({[task]} ∪ s_buildable s).

(** [self.buildable.remove(task)] *)
Definition removebuildable (task : string) (s : scheduler) : res scheduler :=
  if bool_decide (task ∈ s_buildable s) then Ok (set_s_buildable s (s_buildable s ∖ {[task]}))
  else Raise KeyError.

Section schedulers.
Context {G : Type} `{SigGen G} `{!SetOrder string}.
Context (dataCaches : dict CacheData) (gen : G).

(** [bb.build.stampfile(taskname, dataCaches[mc], taskfn, noextra=True)] *)
Definition task_stamp (suffix tid : string) : res (option string) :=
  '(mc, fn, taskname, taskfn) ← split_tid_mcfn tid;
  c ← cache_of dataCaches mc;
  stampfile gen (taskname +s+ suffix) c taskfn true.

(** The loop of [RunQueueScheduler.__init__]: every task's stamp.  Appending to
    the set [self.buildable] would raise AttributeError. *)
Definition task_stamps (g : graph) (runq_buildable : gset string) : res (dict (option string)) :=
  fold_res (λ stamps tid,
    f ← task_stamp "" tid;
    if bool_decide (tid ∈ runq_buildable) then Raise AttributeError
    else Ok (dset stamps tid f)) [] (dkeys g).

Definition init_basic (g : graph) (runq_buildable : gset string) : res scheduler :=
  stamps ← task_stamps g runq_buildable;
  Ok (MkSched [PKeys (dkeys g)] ∅ [] stamps None).

(** The tasks by weight, heaviest first; of one weight, the last first. *)
Definition by_weight (g : graph) : list (Z * list string) :=
  foldl (λ weights kv,
    dset weights (rt_weight kv.2) (default [] (dget weights (rt_weight kv.2)) ++ [kv.1])) [] g.

Definition speed_map (g : graph) : list string :=
  rev (List.concat (List.map snd (sorted_items (by_weight g)))).

Definition init_speed (g : graph) (runq_buildable : gset string) : res scheduler :=
  s ← init_basic g runq_buildable;
  Ok (MkSched (List.map PTid (speed_map g)) (s_buildable s) (skip_maxthread s) (s_stamps s) (rev_prio_map s)).

(** ** The completion scheduler *)

(** [task_lists.setdefault(fn, []).append(taskname)] *)
Definition task_lists (prios : list string) : res (dict (list string)) :=
  fold_res (λ d taskid,
    match rsplit1 ":" taskid with
    | Some (fn, taskname) => Ok (dappend d fn taskname)
    | None => Raise ValueError
    end) [] prios.

(** [l.index(x)] *)
Definition list_index (l : list string) (x : string) : option nat :=
  match list_find (λ y, y = x) l with Some (i, _) => Some i | None => None end.

(** [l.insert(i, x)] *)
Definition list_insert {A} (l : list A) (i : nat) (x : A) : list A := take i l ++ x :: drop i l.

(** One task name of one recipe; the state is [all_tasks] and [index], and
    [old_task] is always [all_tasks[index]], or [None] at the end. *)
Definition merge_task (st : list string * nat * option string) (new_task : string) :
    list string * nat * option string :=
  let '(all_tasks, index, old_task) := st in
  if bool_decide (old_task = Some new_task) then (all_tasks, S index, all_tasks !! S index)
  else
    match list_index all_tasks new_task with
    | Some i => (all_tasks, S i, all_tasks !! S i)
    | None => (list_insert all_tasks index new_task, S index, old_task)
    end.

Definition merge_recipe (all_tasks : list string) (new_tasks : list string) : list string :=
  (foldl merge_task (all_tasks, 0, all_tasks !! 0) new_tasks).1.1.

(** The kinds of tasks in one order, the last kind first. *)
Definition merged_tasks (lists : dict (list string)) : list string :=
  rev (foldl merge_recipe [] (List.map snd lists)).

(** The inner loop: tasks of the kind move up to [task_index]. *)
Fixpoint group_kind (task : string) (indices : list nat) (st : list string * nat) :
    res (list string * nat) :=
  match indices with
  | [] => Ok st
  | index :: indices =>
      let '(prios, task_index) := st in
      taskid ← of_option IndexError (prios !! index);
      taskname ← taskname_from_tid taskid;
      group_kind task indices
        (if bool_decide (taskname = task)
         then (list_insert (delete index prios) task_index taskid, S task_index)
         else st)
  end.

Definition completion_map (g : graph) : res (list string) :=
  let prios := speed_map g in
  lists ← task_lists prios;
  let numTasks := List.length g in
  '(prios, _) ←
    fold_res (λ st task, group_kind task (seq st.2 (numTasks - st.2)) st) (prios, 0) (merged_tasks lists);
  Ok prios.

Definition init_completion (g : graph) (runq_buildable : gset string) : res scheduler :=
  s ← init_speed g runq_buildable;
  prios ← completion_map g;
  Ok (MkSched (List.map PTid prios) (s_buildable s) (skip_maxthread s) (s_stamps s) (rev_prio_map s)).

(** ** Choosing the next task *)

(** What the choice reads of the [RunQueueExecute]; [rv_decided] is
    [tasks_covered | tasks_notcovered], [rv_stamps] is [build_stamps.values()]. *)
Record rq_view : Type := RqView {
  rv_running : gset string;
  rv_complete : gset string;
  rv_holdoff : gset string;
  rv_decided : gset string;
  rv_stamps : list (option string)
}.

Section next.
Context (number_threads : string → res (option string)) (g : graph).

(** The running tasks of each kind with a [number_threads] flag. *)
Definition count_running (acc : dict (option string) * dict nat) (running : string) :
    res (dict (option string) * dict nat) :=
  let '(skip_max, skip_buildable) := acc in
  rtaskname ← taskname_from_tid running;
  skip_max ← (if dmem skip_max rtaskname then Ok skip_max
              else flag ← number_threads rtaskname; Ok (dset skip_max rtaskname flag));
  flag ← of_option KeyError (dget skip_max rtaskname);
  Ok (skip_max, if unset flag then skip_buildable
                else dset skip_buildable rtaskname (S (default 0 (dget skip_buildable rtaskname)))).

(** [taskname in skip_buildable and skip_buildable[taskname] >= int(...)] *)
Definition over_limit (skip_max : dict (option string)) (skip_buildable : dict nat) (taskname : string) :
    res bool :=
  match dget skip_buildable taskname with
  | None => Ok false
  | Some n =>
      flag ← of_option KeyError (dget skip_max taskname);
      v ← of_option TypeError flag;
      limit ← py_int v;
      Ok (limit <=? Z.of_nat n)%Z
  end.

Definition make_rev_prio_map (prios : list prio) : res (dict nat) :=
  fold_res (λ d tid,
    i ← of_option ValueError (fst <$> list_find (λ y, y = PTid tid) prios);
    Ok (dset d tid i)) [] (dkeys g).

(** One candidate; the accumulator is [best] with [bestprio]. *)
Definition pick (skip_max : dict (option string)) (skip_buildable : dict nat) (stamps : dict (option string))
    (in_use : list (option string)) (prios : dict nat) (best : option (string * nat)) (tid : string) :
    res (option (string * nat)) :=
  taskname ← taskname_from_tid tid;
  over ← over_limit skip_max skip_buildable taskname;
  if (over : bool) then Ok best
  else
    prio ← of_option KeyError (dget prios tid);
    if match best with None => true | Some (_, bestprio) => prio <? bestprio end then
      stamp ← of_option KeyError (dget stamps tid);
      Ok (if bool_decide (stamp ∈ in_use) then best else Some (tid, prio))
    else Ok best.

(** [if not self.rev_prio_map: ...] *)
Definition ready_prio_map (s : scheduler) : res (dict nat) :=
  match rev_prio_map s with
  | Some ((_ :: _) as d) => Ok d
  | _ => make_rev_prio_map (prio_map s)
  end.

(** The search for the best of the tasks that are left. *)
Definition pick_best (rq : rq_view) (s : scheduler) (skip_buildable : dict nat) (buildable : gset string) :
    res (scheduler * option string) :=
  prios ← ready_prio_map s;
  best ← fold_res (pick (skip_maxthread s) skip_buildable (s_stamps s) (rv_stamps rq) prios) None
           (set_iter buildable);
  Ok (MkSched (prio_map s) (s_buildable s) (skip_maxthread s) (s_stamps s) (Some prios), option_map fst best).

(** [next_buildable_task]: the task, or none, with the scheduler updated. *)
Definition next_buildable_task (rq : rq_view) (s : scheduler) : res (scheduler * option string) :=
  let s := set_s_buildable s (s_buildable s ∖ rv_running rq) in
  let buildable := (s_buildable s ∖ rv_holdoff rq) ∩ rv_decided rq in
  if bool_decide (buildable = ∅) then Ok (s, None)
  else
    '(skip_max, skip_buildable) ←
      fold_res count_running (skip_maxthread s, []) (set_iter (rv_running rq ∖ rv_complete rq));
    let s := MkSched (prio_map s) (s_buildable s) skip_max (s_stamps s) (rev_prio_map s) in
    (* one candidate is popped off the set, and taken when it can be *)
    '(buildable, stop) ←
      (if bool_decide (size buildable = 1) then
         tid ← of_option KeyError (head (set_iter buildable));
         taskname ← taskname_from_tid tid;
         over ← over_limit skip_max skip_buildable taskname;
         if (over : bool) then Ok (∅, Some None)
         else
           stamp ← of_option KeyError (dget (s_stamps s) tid);
           if bool_decide (stamp ∉ rv_stamps rq) then Ok (∅, Some (Some tid)) else Ok (∅, None)
       else Ok (buildable, None));
    match stop with
    | Some r => Ok (s, r)
    | None => pick_best rq s skip_buildable buildable
    end.
End next.
End schedulers.

(** ** The speed order *)

Definition weight_in (g : graph) (t : string) : Z :=
  match dget g t with Some e => rt_weight e | None => 0%Z end.

Lemma by_weight_ok g : dict_wf g → groups_by (weight_in g) (by_weight g) ∧ dflat id (by_weight g) ≡ₚ dkeys g.
Proof.
  intros Hwf. unfold by_weight.
  assert (∀ l d, (∀ kv, kv ∈ l → weight_in g kv.1 = rt_weight kv.2) → groups_by (weight_in g) d →
    let d' := foldl (λ weights kv,
      dset weights (rt_weight kv.2) (default [] (dget weights (rt_weight kv.2)) ++ [kv.1])) d l in
    groups_by (weight_in g) d' ∧ dflat id d' ≡ₚ dflat id d ++ dkeys l) as H.
  { induction l as [|[t e] l IH]; intros d Hl Hd; cbn [foldl fst snd].
    { split; [done|]. unfold dkeys. simpl. by rewrite app_nil_r. }
    assert (weight_in g t = rt_weight e) as Hw by apply (Hl (t, e) (list_elem_of_here _ _)).
    destruct (IH (dset d (rt_weight e) (default [] (dget d (rt_weight e)) ++ [t]))) as [H1 H2].
    { intros kv Hkv. apply Hl. by apply list_elem_of_further. }
    { rewrite <-Hw. by apply groups_by_add. }
    split; [done|]. rewrite H2, (dflat_dset_perm id d _ _ [t]).
    - unfold dkeys. simpl. by rewrite <-app_assoc.
    - by destruct (dget d (rt_weight e)). }
  destruct (H g []) as [H1 H2].
  - intros [t e] Hin. unfold weight_in. simpl. by rewrite (elem_of_dget _ _ _ Hwf Hin).
  - split; [apply dict_wf_nil|]. by intros ? ? ?%elem_of_nil.
  - split; [done|]. by rewrite H2.
Qed.

Lemma speed_map_ok g :
  dict_wf g →
  speed_map g ≡ₚ dkeys g ∧ StronglySorted (λ t u, (weight_in g u ≤ weight_in g t)%Z) (speed_map g).
Proof.
  intros Hwf. destruct (by_weight_ok g Hwf) as [Hg Hp]. unfold speed_map.
  split.
  - rewrite <-Permutation_rev, <-Hp.
    by rewrite <-(dflat_perm id _ _ (sorted_items_perm (by_weight g))).
  - pose proof (groups_sorted _ _ Hg) as Hs.
    induction Hs as [|x l Hs IH Hx]; simpl; [constructor|]. apply StronglySorted_app_2; [done|by repeat constructor|].
    rewrite Forall_forall in Hx. intros y z Hy ->%list_elem_of_singleton. apply Hx.
    by apply list_elem_of_In, in_rev, list_elem_of_In in Hy.
Qed.

(** ** The completion order *)

Definition kind_of (t : string) : string := match taskname_from_tid t with Ok n => n | Raise _ => "" end.

(** A task id has a task name. *)
Definition named (t : string) : Prop := taskname_from_tid t = Ok (kind_of t).

Lemma list_insert_perm {A} (l : list A) i x : list_insert l i x ≡ₚ x :: l.
Proof. unfold list_insert. rewrite <-Permutation_middle. by rewrite take_drop. Qed.

Lemma list_insert_lookup {A} (l : list A) i x : i ≤ List.length l → list_insert l i x !! S i = l !! i.
Proof.
  intros Hi. unfold list_insert. rewrite lookup_app_r by (rewrite length_take; lia).
  rewrite length_take, Nat.min_l by done. replace (S i - i) with 1 by lia.
  change ((x :: drop i l) !! 1) with (drop i l !! 0). rewrite lookup_drop. f_equal. lia.
Qed.

(** The state of the merge: no kind twice, and [old_task] up to date. *)
Definition merge_ok (st : list string * nat * option string) (seen : list string) : Prop :=
  let '(all_tasks, index, old_task) := st in
  NoDup all_tasks ∧ index ≤ List.length all_tasks ∧ old_task = all_tasks !! index ∧
  ∀ x, x ∈ all_tasks ↔ x ∈ seen.

Lemma merge_task_ok st seen x : merge_ok st seen → merge_ok (merge_task st x) (x :: seen).
Proof.
  destruct st as [[l i] o]. intros (Hnd & Hi & -> & Hl). unfold merge_task.
  destruct (decide (l !! i = Some x)) as [E|E].
  { rewrite bool_decide_eq_true_2 by done. pose proof (lookup_lt_Some _ _ _ E).
    split; [done|]. split; [lia|]. split; [done|]. intros y. rewrite elem_of_cons, Hl. split; [auto|].
    intros [->|?]; [|done]. by apply Hl, (list_elem_of_lookup_2 _ i). }
  rewrite bool_decide_eq_false_2 by done. unfold list_index.
  destruct (list_find (λ y, y = x) l) as [[j y]|] eqn:Ej.
  - apply list_find_Some in Ej as (Ej & -> & _). pose proof (lookup_lt_Some _ _ _ Ej).
    split; [done|]. split; [lia|]. split; [done|]. intros y. rewrite elem_of_cons, Hl. split; [auto|].
    intros [->|?]; [|done]. by apply Hl, (list_elem_of_lookup_2 _ j).
  - apply list_find_None in Ej. rewrite Forall_forall in Ej.
    assert (x ∉ l) as Hx by (intros Hx; by apply (Ej x)).
    split; [rewrite list_insert_perm; by apply NoDup_cons|].
    split; [rewrite list_insert_perm; simpl; lia|].
    split; [by rewrite list_insert_lookup|]. intros y. by rewrite list_insert_perm, !elem_of_cons, Hl.
Qed.

Lemma merge_recipe_ok all_tasks new_tasks :
  NoDup all_tasks →
  NoDup (merge_recipe all_tasks new_tasks) ∧
  ∀ x, x ∈ merge_recipe all_tasks new_tasks ↔ x ∈ all_tasks ∨ x ∈ new_tasks.
Proof.
  intros Hnd. unfold merge_recipe.
  assert (∀ st seen, merge_ok st seen → merge_ok (foldl merge_task st new_tasks) (rev new_tasks ++ seen)) as H.
  { induction new_tasks as [|x l IH]; intros st seen Hst; [done|]. cbn [foldl rev].
    rewrite <-app_assoc. by apply IH, merge_task_ok. }
  specialize (H (all_tasks, 0, all_tasks !! 0) all_tasks).
  destruct (foldl merge_task _ new_tasks) as [[l i] o]. destruct H as (H1 & _ & _ & H2).
  { split; [done|]. split; [lia|]. by split. }
  split; [done|]. intros x. simpl. rewrite H2, elem_of_app, !list_elem_of_In, <-in_rev. tauto.
Qed.

Lemma merged_tasks_ok lists :
  NoDup (merged_tasks lists) ∧ ∀ x, x ∈ merged_tasks lists ↔ x ∈ dflat id lists.
Proof.
  unfold merged_tasks, dflat.
  assert (∀ acc, NoDup acc →
    NoDup (foldl merge_recipe acc (List.map snd lists)) ∧
    ∀ x, x ∈ foldl merge_recipe acc (List.map snd lists) ↔ x ∈ acc ∨ x ∈ List.concat (List.map (λ kv, id kv.2) lists)) as H.
  { induction lists as [|[fn l] d IH]; intros acc Hacc; cbn [foldl List.map List.concat snd].
    { split; [done|]. intros x. rewrite elem_of_nil. tauto. }
    destruct (merge_recipe_ok acc l Hacc) as [H1 H2]. destruct (IH _ H1) as [H3 H4].
    split; [done|]. intros x. rewrite H4, H2, elem_of_app. unfold id at 2. tauto. }
  destruct (H [] (NoDup_nil_2)) as [H1 H2]. split.
  - rewrite <-Permutation_rev. done.
  - intros x. rewrite list_elem_of_In, <-in_rev, <-list_elem_of_In, H2, elem_of_nil. tauto.
Qed.

Lemma named_split t : named t → ∃ fn, rsplit1 ":" t = Some (fn, kind_of t).
Proof.
  unfold named, kind_of, taskname_from_tid. destruct (rsplit1 ":" t) as [[fn n]|]; [|done]. eauto.
Qed.

Lemma task_lists_ok prios :
  Forall named prios →
  ∃ lists, task_lists prios = Ok lists ∧ dflat id lists ≡ₚ List.map kind_of prios.
Proof.
  intros Hn. unfold task_lists.
  assert (∀ d, ∃ d', fold_res (λ d taskid,
    match rsplit1 ":" taskid with
    | Some (fn, taskname) => Ok (dappend d fn taskname)
    | None => Raise ValueError
    end) d prios = Ok d' ∧ dflat id d' ≡ₚ dflat id d ++ List.map kind_of prios) as H.
  { induction Hn as [|t l [fn Ht]%named_split Hn IH]; intros d; cbn [fold_res List.map].
    { exists d. by rewrite app_nil_r. }
    rewrite Ht. cbn [mbind res_bind]. destruct (IH (dappend d fn (kind_of t))) as (d' & E & Hp).
    exists d'. split; [done|]. rewrite Hp. unfold dappend.
    rewrite (dflat_dset_perm id d _ _ [kind_of t]); [by rewrite <-app_assoc|]. by destruct (dget d fn). }
  destruct (H []) as (d & E & Hp). exists d. by split.
Qed.

Definition of_kind (k t : string) : bool := bool_decide (kind_of t = k).

Lemma group_kind_ok k R : Forall named R → ∀ P N,
  group_kind k (seq (List.length P + List.length N) (List.length R)) (P ++ N ++ R, List.length P) =
  Ok (P ++ List.filter (of_kind k) R ++ N ++ List.filter (λ t, negb (of_kind k t)) R,
      List.length P + List.length (List.filter (of_kind k) R)).
Proof.
  induction 1 as [|t R Ht HR IH]; intros P N; cbn [List.length seq group_kind List.filter].
  { by rewrite Nat.add_0_r, app_nil_r. }
  assert ((P ++ N ++ t :: R) !! (List.length P + List.length N) = Some t) as ->.
  { rewrite app_assoc, lookup_app_r by (rewrite length_app; lia). rewrite length_app, Nat.sub_diag. done. }
  cbn [mbind res_bind of_option]. rewrite Ht. cbn [mbind res_bind].
  fold (of_kind k t). destruct (of_kind k t) eqn:Hk.
  - assert (list_insert (delete (List.length P + List.length N) (P ++ N ++ t :: R)) (List.length P) t
            = (P ++ [t]) ++ N ++ R) as ->.
    { rewrite app_assoc. rewrite <-(length_app P N), delete_middle. unfold list_insert.
      rewrite <-app_assoc, take_app_length, drop_app_length. by rewrite <-app_assoc. }
    specialize (IH (P ++ [t]) N). rewrite length_app in IH. cbn [List.length] in IH.
    replace (S (List.length P + List.length N)) with (List.length P + 1 + List.length N) by lia.
    replace (S (List.length P)) with (List.length P + 1) by lia. rewrite IH.
    cbn [negb app List.length]. f_equal. f_equal; [|lia]. by rewrite <-app_assoc.
  - specialize (IH P (N ++ [t])). rewrite length_app in IH. cbn [List.length] in IH.
    rewrite <-app_assoc in IH. cbn [app] in IH.
    replace (S (List.length P + List.length N)) with (List.length P + (List.length N + 1)) by lia.
    rewrite IH. cbn [negb]. f_equal. f_equal. by rewrite <-!app_assoc.
Qed.

Lemma filter_filter_of_kind k K R :
  k ∉ K →
  List.map (λ k', List.filter (of_kind k') (List.filter (λ t, negb (of_kind k t)) R)) K =
  List.map (λ k', List.filter (of_kind k') R) K.
Proof.
  intros Hk. apply List.map_ext_in. intros k' Hk'%list_elem_of_In.
  induction R as [|t R IH]; [done|]. cbn [List.filter].
  destruct (of_kind k t) eqn:Ht; cbn [negb List.filter]; rewrite IH; [|done].
  destruct (of_kind k' t) eqn:Ht'; [|done]. exfalso. apply bool_decide_eq_true in Ht, Ht'. congruence.
Qed.

Lemma group_kinds_ok num K : NoDup K → ∀ P R, Forall named R → num = List.length (P ++ R) →
  (∀ t, t ∈ R → kind_of t ∈ K) →
  ∃ i, fold_res (λ st task, group_kind task (seq st.2 (num - st.2)) st) (P ++ R, List.length P) K =
       Ok (P ++ List.concat (List.map (λ k, List.filter (of_kind k) R) K), i).
Proof.
  induction 1 as [|k K Hk HK IH]; intros P R HR -> Hin; cbn [fold_res List.map List.concat].
  { exists (List.length P). destruct R as [|t R]; [done|]. exfalso.
    by specialize (Hin t (list_elem_of_here _ _)) as ?%elem_of_nil. }
  pose proof (group_kind_ok k R HR P []) as E. cbn [app List.length] in E. rewrite Nat.add_0_r in E.
  cbn [snd]. replace (List.length (P ++ R) - List.length P) with (List.length R) by (rewrite length_app; lia).
  rewrite E. cbn [mbind res_bind].
  destruct (IH (P ++ List.filter (of_kind k) R) (List.filter (λ t, negb (of_kind k t)) R)) as [i Ei].
  - apply Forall_forall. intros t Ht%list_elem_of_In. apply filter_In in Ht as [Ht _].
    rewrite Forall_forall in HR. by apply HR, list_elem_of_In.
  - rewrite <-app_assoc, !length_app. f_equal.
    clear. induction R as [|t R IH]; [done|]. simpl. destruct (of_kind k t); simpl; lia.
  - intros t Ht%list_elem_of_In. apply filter_In in Ht as [Ht Hk'%negb_true_iff].
    apply list_elem_of_In in Ht. apply bool_decide_eq_false in Hk'.
    destruct (proj1 (elem_of_cons _ _ _) (Hin t Ht)) as [?|?]; done.
  - exists i. rewrite <-app_assoc, (length_app P (List.filter (of_kind k) R)) in Ei. rewrite Ei, filter_filter_of_kind by done.
    by rewrite <-app_assoc.
Qed.

Lemma completion_map_ok g :
  dict_wf g → (∀ t, t ∈ dkeys g → named t) →
  ∃ kinds, completion_map g = Ok (List.concat (List.map (λ k, List.filter (of_kind k) (speed_map g)) kinds)) ∧
    NoDup kinds ∧ ∀ k, k ∈ kinds ↔ ∃ t, t ∈ dkeys g ∧ kind_of t = k.
Proof.
  intros Hwf Hn. destruct (speed_map_ok g Hwf) as [Hp _]. unfold completion_map.
  assert (Forall named (speed_map g)) as Hs by (apply Forall_forall; intros t; rewrite Hp; apply Hn).
  destruct (task_lists_ok (speed_map g) Hs) as (lists & -> & Hl). cbn [mbind res_bind].
  destruct (merged_tasks_ok lists) as [Hnd Hk].
  assert (∀ k, k ∈ merged_tasks lists ↔ ∃ t, t ∈ dkeys g ∧ kind_of t = k) as Hkinds.
  { intros k. rewrite Hk, Hl, elem_of_map. setoid_rewrite Hp. naive_solver. }
  destruct (group_kinds_ok (List.length g) (merged_tasks lists) Hnd [] (speed_map g) Hs) as [i Ei].
  - cbn [app]. rewrite Hp. unfold dkeys. by rewrite length_fmap.
  - intros t Ht. apply Hkinds. exists t. by rewrite <-Hp.
  - exists (merged_tasks lists). cbn [app List.length] in Ei. rewrite Ei. by split.
Qed.

(** Of two elements of a sorted list the one that comes first is related to the other. *)
Lemma sorted_position (R : string → string → Prop) l t u :
  StronglySorted R l → (∀ x, R x x) → t ∈ l → u ∈ l → position l t ≤ position l u → R t u.
Proof.
  intros Hs Hrefl. induction Hs as [|x l Hs IH Hx]; [by intros ?%elem_of_nil|].
  rewrite Forall_forall in Hx. intros Ht Hu Hle.
  destruct (decide (x = t)) as [->|Hne].
  { apply elem_of_cons in Hu as [->|Hu]; [apply Hrefl|by apply Hx]. }
  apply elem_of_cons in Ht as [->|Ht]; [done|].
  assert (position (x :: l) t = S (position l t)) as Et.
  { unfold position. cbn [list_find]. rewrite decide_False by done.
    destruct (list_find_elem_of (λ y, y = t) l t Ht eq_refl) as [[i y] ->]. done. }
  destruct (decide (x = u)) as [->|Hne'].
  { exfalso. rewrite Et in Hle. unfold position in Hle at 2. cbn [list_find] in Hle.
    rewrite decide_True in Hle by done. lia. }
  apply elem_of_cons in Hu as [->|Hu]; [done|].
  assert (position (x :: l) u = S (position l u)) as Eu.
  { unfold position. cbn [list_find]. rewrite decide_False by done.
    destruct (list_find_elem_of (λ y, y = u) l u Hu eq_refl) as [[i y] ->]. done. }
  apply IH; [done|done|]. rewrite Et, Eu in Hle. lia.
Qed.

(** The priority maps.  The one of the speed scheduler lists every
    task once, by descending weight.  The one of the completion scheduler
    lists every kind of task once, and for each kind the tasks of that kind in
    the order of the speed scheduler. *)
Theorem priority_maps_ok g :
  dict_wf g → (∀ t, t ∈ dkeys g → named t) →
  speed_map g ≡ₚ dkeys g ∧ StronglySorted (λ t u, (weight_in g u ≤ weight_in g t)%Z) (speed_map g) ∧
  ∃ kinds prios, completion_map g = Ok prios ∧ prios ≡ₚ dkeys g ∧
    prios = List.concat (List.map (λ k, List.filter (of_kind k) (speed_map g)) kinds) ∧
    NoDup kinds ∧ ∀ k, k ∈ kinds ↔ ∃ t, t ∈ dkeys g ∧ kind_of t = k.
Proof.
  intros Hwf Hn. destruct (speed_map_ok g Hwf) as [Hp Hs]. split; [done|]. split; [done|].
  destruct (completion_map_ok g Hwf Hn) as (kinds & E & Hnd & Hk). exists kinds. eexists.
  split; [exact E|]. split; [|done]. rewrite <-Hp.
  assert (∀ t, t ∈ speed_map g → kind_of t ∈ kinds) as Hin by (intros t; rewrite Hp; intros; apply Hk; eauto).
  clear -Hnd Hin. induction (speed_map g) as [|t l IH]; cbn [List.filter].
  { clear. induction kinds; [done|]. done. }
  assert (kind_of t ∈ kinds) as Ht by apply Hin, list_elem_of_here.
  specialize (IH (λ u Hu, Hin u (list_elem_of_further _ _ _ Hu))). rewrite <-IH. clear Hin IH.
  induction Hnd as [|k kinds Hk Hnd IH]; [by apply elem_of_nil in Ht|]. cbn [List.map List.concat].
  destruct (of_kind k t) eqn:E.
  - apply bool_decide_eq_true in E. simpl. f_equiv. f_equiv.
    assert (List.map (λ k', if of_kind k' t then t :: List.filter (of_kind k') l
                            else List.filter (of_kind k') l) kinds =
            List.map (λ k', List.filter (of_kind k') l) kinds) as ->; [|done].
    apply List.map_ext_in. intros k' Hk'%list_elem_of_In. destruct (of_kind k' t) eqn:E'; [|done].
    apply bool_decide_eq_true in E'. congruence.
  - apply bool_decide_eq_false in E. rewrite IH; [|apply elem_of_cons in Ht as [?|?]; done]. by rewrite <-Permutation_middle.
Qed.

(** ** The next task *)

Section next_spec.
Context `{!SetOrder string} (number_threads : string → res (option string)) (g : graph).
Context (prios : list string).

(** A [number_threads] flag is unset or a number. *)
Definition flag_ok (flag : option string) : Prop :=
  unset flag = false → ∃ v k, flag = Some v ∧ py_int v = Ok k.

Hypothesis flags_ok : ∀ n, ∃ flag, number_threads n = Ok flag ∧ flag_ok flag.
Hypothesis g_wf : dict_wf g.
Hypothesis g_named : ∀ t, t ∈ dkeys g → named t.
Hypothesis prios_perm : prios ≡ₚ dkeys g.

(** The scheduler in use: its map is [prios], its caches are up to date. *)
Record sched_ok (s : scheduler) : Prop := {
  so_map : prio_map s = List.map PTid prios;
  so_buildable : s_buildable s ⊆ keys g;
  so_threads : ∀ n flag, dget (skip_maxthread s) n = Some flag → number_threads n = Ok flag;
  so_stamps : ∀ t, t ∈ dkeys g → is_Some (dget (s_stamps s) t);
  so_rev : ∀ d t, rev_prio_map s = Some d → d ≠ [] → t ∈ dkeys g → dget d t = Some (position prios t)
}.

Definition count_kind (l : list string) (n : string) : nat := List.length (List.filter (of_kind n) l).

(** As many tasks of the kind are running as its [number_threads] allows. *)
Definition limit_reached (rq : rq_view) (n : string) : Prop :=
  ∃ v k, number_threads n = Ok (Some v) ∧ v ≠ "" ∧ py_int v = Ok k ∧
    0 < count_kind (elements (rv_running rq ∖ rv_complete rq)) n ∧
    (k ≤ Z.of_nat (count_kind (elements (rv_running rq ∖ rv_complete rq)) n))%Z.

(** A task that may be started now. *)
Definition candidate (rq : rq_view) (s : scheduler) (t : string) : Prop :=
  t ∈ s_buildable s ∧ (t ∉ rv_running rq) ∧ (t ∉ rv_holdoff rq) ∧ t ∈ rv_decided rq ∧
  ¬ limit_reached rq (kind_of t) ∧ ∃ st, dget (s_stamps s) t = Some st ∧ st ∉ rv_stamps rq.

(** The counts after the tasks of [l]. *)
Definition counts_ok (skip_max : dict (option string)) (sb : dict nat) (l : list string) : Prop :=
  (∀ n flag, dget skip_max n = Some flag → number_threads n = Ok flag) ∧
  (∀ n c, dget sb n = Some c → c = count_kind l n ∧ 0 < c ∧
     ∃ v, dget skip_max n = Some (Some v) ∧ v ≠ "") ∧
  (∀ n, dget sb n = None → count_kind l n = 0 ∨ ∃ flag, number_threads n = Ok flag ∧ unset flag = true).

Lemma count_kind_snoc l t n : count_kind (l ++ [t]) n = count_kind l n + if of_kind n t then 1 else 0.
Proof. unfold count_kind. rewrite List.filter_app, length_app. simpl. by destruct (of_kind n t). Qed.

Lemma count_running_ok skip_max sb l t :
  named t → counts_ok skip_max sb l →
  ∃ skip_max' sb', count_running number_threads (skip_max, sb) t = Ok (skip_max', sb') ∧
    counts_ok skip_max' sb' (l ++ [t]).
Proof.
  intros Ht (H1 & H2 & H3). unfold count_running. rewrite Ht. cbn [mbind res_bind].
  set (n := kind_of t) in *.
  destruct (flags_ok n) as (flag & Hflag & Hok).
  assert (∃ sm, (if dmem skip_max n then Ok skip_max
              else flag ← number_threads n; Ok (dset skip_max n flag) : res (dict (option string))) = Ok sm ∧
    dget sm n = Some flag ∧ (∀ m, m ≠ n → dget sm m = dget skip_max m)) as (sm & -> & Hsm & Hsm').
  { unfold dmem. destruct (dget skip_max n) as [flag'|] eqn:E.
    - exists skip_max. split; [done|]. split; [|done]. rewrite E. apply H1 in E. congruence.
    - rewrite Hflag. cbn [mbind res_bind]. eexists. split; [done|].
      split; [apply dget_dset_eq|]. intros m Hm. by apply dget_dset_ne. }
  cbn [mbind res_bind]. rewrite Hsm. cbn [mbind res_bind of_option].
  assert (∀ m fl, dget sm m = Some fl → number_threads m = Ok fl) as H1'.
  { intros m fl. destruct (decide (m = n)) as [->|Hm]; [congruence|]. rewrite (Hsm' m Hm). apply H1. }
  assert (∀ m c, m ≠ n → dget sb m = Some c → c = count_kind (l ++ [t]) m ∧ 0 < c ∧
     ∃ v, dget sm m = Some (Some v) ∧ v ≠ "") as H2'.
  { intros m c Hm Hc. rewrite (Hsm' m Hm), count_kind_snoc. destruct (H2 m c Hc) as (-> & ? & ?).
    unfold of_kind. rewrite bool_decide_eq_false_2 by (unfold n in Hm; congruence). by rewrite Nat.add_0_r. }
  assert (∀ m, m ≠ n → count_kind (l ++ [t]) m = count_kind l m) as Hc'.
  { intros m Hm. rewrite count_kind_snoc. unfold of_kind.
    rewrite bool_decide_eq_false_2 by (unfold n in Hm; congruence). lia. }
  destruct (unset flag) eqn:Eu; do 2 eexists; (split; [done|]); split; try done; split.
  - intros m c Hc. destruct (decide (m = n)) as [->|Hm]; [|by apply H2'].
    destruct (H2 n c Hc) as (_ & _ & v & Hv & Hne). apply H1 in Hv. rewrite Hflag in Hv.
    injection Hv as ->. by destruct v.
  - intros m Hm. destruct (decide (m = n)) as [->|Hne]; [right; eauto|]. rewrite Hc' by done. by apply H3.
  - intros m c. rewrite dget_dset. case_decide as Hm; [subst m|intros; by apply H2'].
    intros [= <-]. destruct (Hok Eu) as (v & k & -> & _).
    split; [|split; [lia|exists v; split; [done|by intros ->]]].
    rewrite count_kind_snoc. unfold of_kind. rewrite bool_decide_eq_true_2 by done.
    destruct (dget sb n) as [c|] eqn:E; cbn [default].
    + destruct (H2 n c E) as (-> & _). unfold id. lia.
    + destruct (H3 n E) as [->|(fl & Hfl & Hu)]; [done|]. rewrite Hflag in Hfl. injection Hfl as <-. congruence.
  - intros m. rewrite dget_dset. case_decide as Hm; [done|]. intros Hn. rewrite Hc' by done. by apply H3.
Qed.

Lemma count_fold_ok l skip_max sb l0 :
  Forall named l → counts_ok skip_max sb l0 →
  ∃ skip_max' sb', fold_res (count_running number_threads) (skip_max, sb) l = Ok (skip_max', sb') ∧
    counts_ok skip_max' sb' (l0 ++ l).
Proof.
  intros Hl. revert skip_max sb l0. induction Hl as [|t l Ht Hl IH]; intros sm sb l0 H; cbn [fold_res].
  { exists sm, sb. by rewrite app_nil_r. }
  destruct (count_running_ok sm sb l0 t Ht H) as (sm1 & sb1 & -> & H1). cbn [mbind res_bind].
  destruct (IH sm1 sb1 (l0 ++ [t]) H1) as (sm2 & sb2 & E & H2). exists sm2, sb2.
  by rewrite <-app_assoc in H2.
Qed.

Lemma over_limit_ok rq skip_max sb l n :
  counts_ok skip_max sb l → l ≡ₚ elements (rv_running rq ∖ rv_complete rq) →
  ∃ b, over_limit skip_max sb n = Ok b ∧ (b = true ↔ limit_reached rq n).
Proof.
  intros (H1 & H2 & H3) Hl.
  assert (count_kind l n = count_kind (elements (rv_running rq ∖ rv_complete rq)) n) as Hc.
  { unfold count_kind. clear -Hl. induction Hl; simpl; repeat case_match; simpl; lia. }
  unfold over_limit, limit_reached. destruct (dget sb n) as [c|] eqn:E.
  - destruct (H2 n c E) as (-> & Hpos & v & Hv & Hne). rewrite Hv. cbn [mbind res_bind of_option].
    pose proof (H1 _ _ Hv) as Hfl. destruct (flags_ok n) as (flag & Hflag & Hok).
    rewrite Hfl in Hflag. injection Hflag as <-.
    destruct (Hok ltac:(by destruct v)) as (v' & k & [= <-] & Hk). rewrite Hk. cbn [mbind res_bind].
    eexists. split; [done|]. rewrite <-Hc. rewrite Z.leb_le. split.
    + intros Hle. by exists v, k.
    + intros (v' & k' & Hv' & _ & Hk' & _ & Hle). rewrite Hfl in Hv'. injection Hv' as <-.
      rewrite Hk in Hk'. injection Hk' as <-. done.
  - exists false. split; [done|]. split; [done|]. intros (v & k & Hv & Hne & _ & Hpos & _).
    destruct (H3 n E) as [H0|(fl & Hfl & Hu)]; [lia|]. rewrite Hv in Hfl. injection Hfl as <-. by destruct v.
Qed.

Lemma list_find_PTid t : list_find (λ y, y = PTid t) (List.map PTid prios) =
  prod_map id PTid <$> list_find (λ y, y = t) prios.
Proof.
  clear prios_perm. induction prios as [|x l IH]; [done|]. cbn [List.map list_find].
  destruct (decide (x = t)) as [->|Hne].
  - by rewrite decide_True.
  - rewrite decide_False by congruence. rewrite IH. by destruct (list_find (λ y, y = t) l) as [[i y]|].
Qed.

Lemma rev_map_ok : ∃ d, make_rev_prio_map g (List.map PTid prios) = Ok d ∧
  ∀ t, t ∈ dkeys g → dget d t = Some (position prios t).
Proof.
  unfold make_rev_prio_map.
  rewrite (fold_res_pure _ (λ d t, dset d t (position prios t))).
  - eexists. split; [done|].
    assert (∀ l d t, t ∈ l ∨ dget d t = Some (position prios t) →
      dget (foldl (λ d t, dset d t (position prios t)) d l) t = Some (position prios t)) as H.
    { induction l as [|u l IH]; intros d t; cbn [foldl]; [by intros [?%elem_of_nil|?]|].
      intros Ht. apply IH. destruct (decide (u = t)) as [->|Hne].
      - right. apply dget_dset_eq.
      - rewrite dget_dset_ne by done. destruct Ht as [[?|?]%elem_of_cons|?]; [congruence|by left|by right]. }
    intros t Ht. apply H. by left.
  - intros d t Ht. rewrite list_find_PTid. unfold position.
    rewrite <-prios_perm in Ht. destruct (list_find_elem_of (λ y, y = t) prios t Ht eq_refl) as [[i y] ->]. done.
Qed.

(** The best candidate among those seen. *)
Definition pick_ok (rq : rq_view) (s : scheduler) (best : option (string * nat)) (seen : list string) : Prop :=
  match best with
  | None => ∀ u, u ∈ seen → ¬ candidate rq s u
  | Some (t, p) => t ∈ seen ∧ candidate rq s t ∧ p = position prios t ∧
      ∀ u, u ∈ seen → candidate rq s u → position prios t ≤ position prios u
  end.

Lemma pick_fold_ok rq s skip_max sb d (l : list string) lr best seen :
  counts_ok skip_max sb lr → lr ≡ₚ elements (rv_running rq ∖ rv_complete rq) →
  sched_ok s → (∀ t, t ∈ dkeys g → dget d t = Some (position prios t)) →
  (∀ t, t ∈ l → t ∈ s_buildable s ∧ (t ∉ rv_running rq) ∧ (t ∉ rv_holdoff rq) ∧ t ∈ rv_decided rq) →
  pick_ok rq s best seen →
  ∃ best', fold_res (pick skip_max sb (s_stamps s) (rv_stamps rq) d) best l = Ok best' ∧
    pick_ok rq s best' (seen ++ l).
Proof.
  intros Hc Hlr Hs Hd. revert best seen. induction l as [|t l IH]; intros best seen Hl Hb; cbn [fold_res].
  { exists best. by rewrite app_nil_r. }
  destruct (Hl t (list_elem_of_here _ _)) as (Ht1 & Ht2 & Ht3 & Ht4).
  assert (t ∈ dkeys g) as Hk by (apply elem_of_keys, (so_buildable _ Hs), Ht1).
  enough (∃ best1, pick skip_max sb (s_stamps s) (rv_stamps rq) d best t = Ok best1 ∧ pick_ok rq s best1 (seen ++ [t]))
    as (best1 & -> & H1).
  { cbn [mbind res_bind]. destruct (IH best1 (seen ++ [t])) as (b' & E & H2); [|done|].
    - intros u Hu. apply Hl. by apply list_elem_of_further.
    - exists b'. by rewrite <-app_assoc in H2. }
  unfold pick. rewrite (g_named t Hk). cbn [mbind res_bind].
  destruct (over_limit_ok rq skip_max sb lr (kind_of t) Hc Hlr) as (b & -> & Hover). cbn [mbind res_bind].
  assert (¬ candidate rq s t → pick_ok rq s best (seen ++ [t])) as Hskip.
  { intros Hn. destruct best as [[u p]|]; simpl in Hb |- *.
    - destruct Hb as (? & ? & ? & Hmin). split; [by apply elem_of_app; left|]. do 2 (split; [done|]).
      intros v [Hv| ->%list_elem_of_singleton]%elem_of_app Hcv; [by apply Hmin|done].
    - intros v [Hv| ->%list_elem_of_singleton]%elem_of_app; [by apply Hb|done]. }
  destruct b.
  { exists best. split; [done|]. apply Hskip. intros (_ & _ & _ & _ & Hnl & _). by apply Hnl, Hover. }
  assert (¬ limit_reached rq (kind_of t)) as Hnl by (intros Hn; by apply Hover in Hn).
  rewrite (Hd t Hk). cbn [mbind res_bind of_option].
  destruct (so_stamps _ Hs t Hk) as [st Hst]. rewrite Hst. cbn [mbind res_bind of_option].
  destruct (match best with None => true | Some (_, bp) => position prios t <? bp end) eqn:Ebest.
  - case_bool_decide as Huse.
    + exists best. split; [done|]. apply Hskip. intros (_ & _ & _ & _ & _ & st' & Hst' & Hn). congruence.
    + eexists. split; [done|]. simpl. split; [apply elem_of_app; right; apply list_elem_of_here|].
      split; [repeat split; try done; by exists st|]. split; [done|].
      intros v [Hv| ->%list_elem_of_singleton]%elem_of_app Hcv; [|done].
      destruct best as [[u p]|]; simpl in Hb; [|by apply Hb in Hcv].
      destruct Hb as (_ & _ & -> & Hmin). apply Nat.ltb_lt in Ebest. specialize (Hmin v Hv Hcv). lia.
  - exists best. split; [done|]. destruct best as [[u p]|]; [|done]. simpl in Hb |- *.
    destruct Hb as (? & ? & -> & Hmin). split; [by apply elem_of_app; left|]. do 2 (split; [done|]).
    intros v [Hv| ->%list_elem_of_singleton]%elem_of_app Hcv; [by apply Hmin|]. by apply Nat.ltb_ge in Ebest.
Qed.

Lemma next_buildable_task_ok rq s :
  sched_ok s → (∀ t, t ∈ rv_running rq → named t) →
  ∃ s' r, next_buildable_task number_threads g rq s = Ok (s', r) ∧ sched_ok s' ∧
    s_buildable s' = s_buildable s ∖ rv_running rq ∧ s_stamps s' = s_stamps s ∧
    match r with
    | None => ∀ u, ¬ candidate rq s u
    | Some t => candidate rq s t ∧ ∀ u, candidate rq s u → position prios t ≤ position prios u
    end.
Proof.
  intros Hs Hrun. unfold next_buildable_task.
  cbn [set_s_buildable s_buildable prio_map skip_maxthread s_stamps rev_prio_map].
  set (B := (s_buildable s ∖ rv_running rq ∖ rv_holdoff rq) ∩ rv_decided rq).
  assert (∀ t, t ∈ B ↔ t ∈ s_buildable s ∧ (t ∉ rv_running rq) ∧ (t ∉ rv_holdoff rq) ∧ t ∈ rv_decided rq) as HB.
  { intros t. unfold B. rewrite elem_of_intersection, !elem_of_difference. tauto. }
  assert (∀ t, candidate rq s t → t ∈ B) as Hcand by (intros t (? & ? & ? & ? & _); by apply HB).
  assert (∀ sm rv, (∀ n flag, dget sm n = Some flag → number_threads n = Ok flag) →
    (∀ d t, rv = Some d → d ≠ [] → t ∈ dkeys g → dget d t = Some (position prios t)) →
    sched_ok (MkSched (prio_map s) (s_buildable s ∖ rv_running rq) sm (s_stamps s) rv)) as Hok.
  { intros sm rv H1 H2. split; [apply Hs| |done|apply Hs|done]. cbn.
    etrans; [apply subseteq_difference_l; reflexivity|apply Hs]. }
  case_bool_decide as HE.
  { eexists _, None. split; [done|]. split; [apply Hok; apply Hs|]. do 2 (split; [done|]).
    intros u Hu%Hcand. rewrite HE in Hu. by apply elem_of_empty in Hu. }
  destruct (count_fold_ok (set_iter (rv_running rq ∖ rv_complete rq)) (skip_maxthread s) [] [])
    as (sm & sb & E & Hcounts).
  { apply Forall_forall. intros t [Ht _]%elem_of_set_iter%elem_of_difference. by apply Hrun. }
  { split; [apply Hs|]. split; [done|]. intros n _. by left. }
  cbn [app] in Hcounts. rewrite E. cbn [mbind res_bind]. clear E.
  pose proof (set_iter_perm (rv_running rq ∖ rv_complete rq)) as Hperm.
  assert (∀ buildable, (∀ t, t ∈ buildable → t ∈ B) →
    ∃ s' r, pick_best g rq
        (MkSched (prio_map s) (s_buildable s ∖ rv_running rq) sm (s_stamps s) (rev_prio_map s)) sb buildable = Ok (s', r) ∧
      sched_ok s' ∧ s_buildable s' = s_buildable s ∖ rv_running rq ∧ s_stamps s' = s_stamps s ∧
      match r with
      | None => ∀ u, u ∈ buildable → ¬ candidate rq s u
      | Some t => candidate rq s t ∧ ∀ u, u ∈ buildable → candidate rq s u → position prios t ≤ position prios u
      end) as Hloop.
  { intros buildable Hsub.
    unfold pick_best, ready_prio_map. cbn [rev_prio_map prio_map s_buildable s_stamps skip_maxthread].
    assert (∃ d, match rev_prio_map s with
                 | Some ((_ :: _) as d) => Ok d
                 | _ => make_rev_prio_map g (prio_map s)
                 end = Ok d ∧ ∀ t, t ∈ dkeys g → dget d t = Some (position prios t)) as (d & -> & Hd).
    { rewrite (so_map _ Hs). destruct (rev_prio_map s) as [[|x d]|] eqn:Er; [apply rev_map_ok| |apply rev_map_ok].
      exists (x :: d). split; [done|]. intros t. by apply (so_rev _ Hs). }
    cbn [mbind res_bind].
    destruct (pick_fold_ok rq s sm sb d (set_iter buildable) _ None [] Hcounts Hperm Hs Hd) as (best & -> & Hbest).
    - intros t Ht%elem_of_set_iter. by apply HB, Hsub.
    - by intros u ?%elem_of_nil.
    - cbn [mbind res_bind app] in *. eexists _, _. split; [done|].
      split; [apply Hok; [apply Hcounts|by intros ? u [= <-] _; apply Hd]|]. do 2 (split; [done|]).
      destruct best as [[t p]|]; simpl in Hbest |- *.
      + destruct Hbest as (_ & Hc & _ & Hmin). split; [done|]. intros u Hu. apply Hmin. by apply elem_of_set_iter.
      + intros u Hu. apply Hbest. by apply elem_of_set_iter. }
  destruct (decide (size B = 1)) as [H1|H1].
  - rewrite bool_decide_eq_true_2 by done. apply size_1_elem_of in H1 as [x Hx].
    assert (B = {[x]}) as Ex by (by apply leibniz_equiv).
    assert (set_iter B = [x]) as ->.
    { apply Permutation_singleton_r. rewrite set_iter_perm, Ex. by rewrite elements_singleton. }
    cbn [head of_option mbind res_bind].
    assert (x ∈ B) as Hxb by (rewrite Ex; by apply elem_of_singleton).
    pose proof (proj1 (HB x) Hxb) as (X1 & X2 & X3 & X4).
    assert (x ∈ dkeys g) as Hk by (apply elem_of_keys, (so_buildable _ Hs), X1).
    assert (∀ u, candidate rq s u → u = x) as Honly.
    { intros u Hu%Hcand. rewrite Ex in Hu. by apply elem_of_singleton in Hu. }
    rewrite (g_named x Hk). cbn [mbind res_bind].
    destruct (over_limit_ok rq sm sb _ (kind_of x) Hcounts Hperm) as (b & -> & Hover). cbn [mbind res_bind].
    destruct b.
    { cbn [mbind res_bind]. eexists _, None. split; [done|]. split; [apply Hok; [apply Hcounts|apply Hs]|].
      do 2 (split; [done|]). intros u Hu. pose proof Hu as Hu2. rewrite (Honly u Hu) in Hu2.
      destruct Hu2 as (_ & _ & _ & _ & Hn & _). by apply Hn, Hover. }
    destruct (so_stamps _ Hs x Hk) as [st Hst]. rewrite Hst. cbn [mbind res_bind of_option].
    case_bool_decide as Huse; cbn [mbind res_bind].
    + eexists _, (Some x). split; [done|]. split; [apply Hok; [apply Hcounts|apply Hs]|]. do 2 (split; [done|]).
      split; [|by intros u ->%Honly].
      repeat split; try done; [|by exists st]. intros Hn. by apply Hover in Hn.
    + destruct (Hloop ∅) as (s' & r & E' & Hs' & Hb' & Hst' & Hr); [by intros ? ?%elem_of_empty|].
      exists s', r. split; [exact E'|]. do 3 (split; [done|]). destruct r as [t|].
      * destruct Hr as [Hr _]. pose proof Hr as Hr2. rewrite (Honly t Hr) in Hr2.
        destruct Hr2 as (_ & _ & _ & _ & _ & st' & Hs2 & Hn). congruence.
      * intros u Hu. pose proof Hu as Hu2. rewrite (Honly u Hu) in Hu2.
        destruct Hu2 as (_ & _ & _ & _ & _ & st' & Hs2 & Hn). congruence.
  - rewrite bool_decide_eq_false_2 by done. cbn [mbind res_bind].
    destruct (Hloop B) as (s' & r & E' & Hs' & Hb' & Hst' & Hr); [done|].
    exists s', r. split; [exact E'|]. do 3 (split; [done|]). destruct r as [t|].
    + destruct Hr as [Hr Hmin]. split; [done|]. intros u Hu. apply Hmin; [by apply Hcand|done].
    + intros u Hu. apply (Hr u); [by apply Hcand|done].
Qed.
End next_spec.

(** A scheduler starts out in order. *)
Section init_spec.
Context {G : Type} `{SigGen G} `{!SetOrder string}.
Context (dataCaches : dict CacheData) (gen : G) (number_threads : string → res (option string)) (g : graph).

Lemma task_stamps_ok :
  (∀ t, t ∈ dkeys g → is_Ok (task_stamp dataCaches gen "" t)) →
  ∃ stamps, task_stamps dataCaches gen g ∅ = Ok stamps ∧ ∀ t, t ∈ dkeys g → is_Some (dget stamps t).
Proof.
  intros Hst. unfold task_stamps.
  assert (∀ l d, (∀ t, t ∈ l → is_Ok (task_stamp dataCaches gen "" t)) →
    ∃ d', fold_res (λ stamps tid,
      f ← task_stamp dataCaches gen "" tid;
      if bool_decide (tid ∈ (∅ : gset string)) then Raise AttributeError else Ok (dset stamps tid f)) d l = Ok d' ∧
      ∀ t, t ∈ l ∨ is_Some (dget d t) → is_Some (dget d' t)) as Hl.
  { induction l as [|x l IH]; intros d Hl; cbn [fold_res].
    { exists d. split; [done|]. by intros t [?%elem_of_nil|?]. }
    destruct (Hl x (list_elem_of_here _ _)) as [f ->]. cbn [mbind res_bind].
    rewrite bool_decide_eq_false_2 by (by intros ?%elem_of_empty). cbn [mbind res_bind].
    destruct (IH (dset d x f)) as (d' & E & Hd'); [intros; apply Hl; by apply list_elem_of_further|].
    exists d'. split; [done|]. intros t Ht. apply Hd'. rewrite dget_dset. case_decide as Hx; [right; by eexists|].
    destruct Ht as [[?|?]%elem_of_cons|?]; [congruence|by left|by right]. }
  destruct (Hl (dkeys g) [] Hst) as (d & E & Hd). exists d. split; [exact E|]. intros t Ht. apply Hd. by left.
Qed.

Lemma init_speed_ok :
  (∀ t, t ∈ dkeys g → is_Ok (task_stamp dataCaches gen "" t)) →
  ∃ s, init_speed dataCaches gen g ∅ = Ok s ∧ s_buildable s = ∅ ∧ rev_prio_map s = None ∧
    sched_ok number_threads g (speed_map g) s.
Proof.
  intros Hst. destruct (task_stamps_ok Hst) as (d & E & Hd). unfold init_speed, init_basic. rewrite E.
  cbn [mbind res_bind]. eexists. do 3 (split; [done|]). split; try done.
Qed.

Lemma init_completion_ok :
  dict_wf g → (∀ t, t ∈ dkeys g → named t) → (∀ t, t ∈ dkeys g → is_Ok (task_stamp dataCaches gen "" t)) →
  ∃ s prios, init_completion dataCaches gen g ∅ = Ok s ∧ completion_map g = Ok prios ∧ s_buildable s = ∅ ∧
    sched_ok number_threads g prios s.
Proof.
  intros Hwf Hn Hst. destruct (init_speed_ok Hst) as (s & E & Hb & Hrev & Hs).
  destruct (completion_map_ok g Hwf Hn) as (kinds & Ec & _ & _).
  unfold init_completion. rewrite E, Ec. cbn [mbind res_bind]. eexists _, _. split; [done|].
  split; [done|]. split; [exact Hb|]. destruct Hs. split; try done. cbn. by rewrite Hrev.
Qed.
End init_spec.

(** C34: the choice of the next task.  Among the tasks that may start (that
    are buildable, not running, not held off, decided on by the setscene code,
    of a kind below its [number_threads] limit, and whose stamp no running
    task has), the scheduler returns the first in its priority map, and none
    only when there is none; with the map of the speed scheduler no task that
    may start is heavier.  Running tasks leave the set of buildable ones, and
    the scheduler stays in order. *)
Theorem next_buildable_task_best `{!SetOrder string} number_threads g prios rq s :
  (∀ n, ∃ flag, number_threads n = Ok flag ∧ flag_ok flag) → dict_wf g → (∀ t, t ∈ dkeys g → named t) →
  prios ≡ₚ dkeys g → sched_ok number_threads g prios s → (∀ t, t ∈ rv_running rq → named t) →
  ∃ s' r, next_buildable_task number_threads g rq s = Ok (s', r) ∧ sched_ok number_threads g prios s' ∧
    s_buildable s' = s_buildable s ∖ rv_running rq ∧
    match r with
    | None => ∀ u, ¬ candidate number_threads rq s u
    | Some t => candidate number_threads rq s t ∧
        (∀ u, candidate number_threads rq s u → position prios t ≤ position prios u) ∧
        (prios = speed_map g → ∀ u, candidate number_threads rq s u → (weight_in g u ≤ weight_in g t)%Z)
    end.
Proof.
  intros Hf Hwf Hn Hp Hs Hr.
  destruct (next_buildable_task_ok number_threads g prios Hf Hn Hp rq s Hs Hr) as (s' & r & E & Hs' & Hb & _ & Hres).
  exists s', r. do 3 (split; [done|]). destruct r as [t|]; [|done]. destruct Hres as [Ht Hmin].
  split; [done|]. split; [done|]. intros -> u Hu. apply (sorted_position (λ t u, weight_in g u ≤ weight_in g t)%Z (speed_map g)).
  - by apply speed_map_ok.
  - intros x. apply Z.le_refl.
  - rewrite Hp. by apply elem_of_keys, (so_buildable _ _ _ _ Hs), Ht.
  - rewrite Hp. by apply elem_of_keys, (so_buildable _ _ _ _ Hs), Hu.
  - by apply Hmin.
Qed.

(** ** Two recipes *)

#[local] Existing Instance sample_order.

Definition sched_graph : graph :=
  [("a.bb:do_fetch", set_weight (entry []) 5); ("a.bb:do_build", entry ["a.bb:do_fetch"]);
   ("b.bb:do_fetch", set_weight (entry []) 7); ("b.bb:do_build", entry ["b.bb:do_fetch"])].

Definition no_limit : string → res (option string) := λ _, Ok None.

(** Everything may be built but [b.bb:do_fetch], which runs. *)
Definition sched_sample : scheduler :=
  MkSched (List.map PTid (speed_map sched_graph)) (list_to_set (dkeys sched_graph)) []
    (List.map (λ kv, (kv.1, Some kv.1)) sched_graph) None.

Definition sched_view : rq_view :=
  RqView {["b.bb:do_fetch"]} ∅ {["b.bb:do_build"]} (list_to_set (dkeys sched_graph)) [Some "b.bb:do_fetch"].

Lemma sched_graph_named t : t ∈ dkeys sched_graph → named t.
Proof.
  assert (Forall named (dkeys sched_graph)) as H by (repeat constructor).
  rewrite Forall_forall in H. apply H.
Qed.

Lemma priority_maps_ok_witness :
  speed_map sched_graph = ["b.bb:do_fetch"; "a.bb:do_fetch"; "b.bb:do_build"; "a.bb:do_build"] ∧
  ∃ kinds, completion_map sched_graph =
    Ok (List.concat (List.map (λ k, List.filter (of_kind k) (speed_map sched_graph)) kinds)) ∧
    NoDup kinds.
Proof.
  split; [reflexivity|].
  destruct (priority_maps_ok sched_graph) as (_ & _ & kinds & prios & E & _ & -> & Hnd & _).
  - by_eval.
  - exact sched_graph_named.
  - exists kinds. split; [exact E|exact Hnd].
Defined.

Lemma next_buildable_task_best_witness :
  ∃ s', next_buildable_task no_limit sched_graph sched_view sched_sample = Ok (s', Some "a.bb:do_fetch") ∧
    ∀ u, candidate no_limit sched_view sched_sample u → (weight_in sched_graph u ≤ 5)%Z.
Proof.
  destruct (next_buildable_task_best no_limit sched_graph (speed_map sched_graph) sched_view sched_sample)
    as (s' & r & E & _ & _ & Hr).
  - intros n. exists None. split; [reflexivity|]. intros Hu. discriminate Hu.
  - by_eval.
  - exact sched_graph_named.
  - by_eval.
  - split; [reflexivity|by_eval|intros n f Hd; discriminate Hd| |intros d t Hd; discriminate Hd].
    apply Forall_forall. by_eval.
  - intros t Ht. change (t ∈ ({["b.bb:do_fetch"]} : gset string)) in Ht.
    apply elem_of_singleton in Ht as ->. reflexivity.
  - assert (match next_buildable_task no_limit sched_graph sched_view sched_sample with
            | Ok (_, r) => bool_decide (r = Some "a.bb:do_fetch") | Raise _ => false end = true) as Hb
      by (vm_compute; reflexivity).
    rewrite E in Hb. apply bool_decide_eq_true_1 in Hb. subst r.
    exists s'. split; [exact E|]. destruct Hr as (_ & _ & Hw). exact (Hw eq_refl).
Defined.

(** The merge of the task lists does not always keep a recipe's own order: here
    [a] comes before [b] in the first and third recipe's list, but after it in
    the merged one. *)
Lemma merge_can_reorder :
  rev (merged_tasks [("x", ["a"; "c"]); ("y", ["b"]); ("z", ["a"; "b"])]) = ["b"; "a"; "c"].
Proof. reflexivity. Qed.

(** The basic scheduler cannot rank the tasks: with two candidates it raises. *)
Lemma basic_scheduler_raises :
  next_buildable_task no_limit sched_graph sched_view
    (MkSched [PKeys (dkeys sched_graph)] (list_to_set (dkeys sched_graph)) []
       (List.map (λ kv, (kv.1, Some kv.1)) sched_graph) None) = Raise ValueError.
Proof. vm_compute. reflexivity. Qed.
