(* ===== verification/Exec.v ===== *)
(** * Executing a run queue (bb/runqueue.py)

    [RunQueueExecute]: the state of a build in progress and every operation on
    it.  Tasks are started on workers, whose exit codes come back as messages;
    setscene tasks, which fetch the results of tasks from a cache, run first
    and decide which tasks are covered.  The data the code gets from outside
    while it runs (file times, what the workers report, the recipes' own check
    functions) is the environment of a call; the events it fires and the
    messages it sends are the log. *)

From Stdlib Require Import Ascii String.
From S2P Require Import Prelude.
From S2P Require Import PyStr.
From S2P Require Import PyDict.
From S2P Require Import TaskIds.
From S2P Require Import Cache.
From S2P Require Import TaskData.
From S2P Require Import TaskGraph.
From S2P Require Import Stamps.
From S2P Require Import Sched.

(** ** The state *)

(** [runQueuePrepare], [runQueueSceneInit], ... *)
Inductive rqstate : Type :=
  | RQPrepare | RQSceneInit | RQRunning | RQFailed | RQCleanUp | RQComplete.

#[export] Instance rqstate_eq_dec : EqDecision rqstate.
Proof. solve_decision. Defined.

(** What the run queue does that others see: the events it fires, the messages
    it sends to workers, the stamps it makes. *)
Inductive action : Type :=
  | TaskStarted (tid : string) (noexec : bool)
  | TaskCompleted (tid : string)
  | TaskFailed (tid : string) (exitcode : option Z)
  | TaskSkipped (tid reason : string)
  | SceneStarted (tid : string)
  | SceneCompleted (tid : string)
  | SceneFailed (tid : string) (exitcode : Z)
  | SceneQueueComplete
  | ExitWait (n : Z)
  | RunTask (setscene fakeroot : bool) (tid : string)
  | NewTaskHashes
  | FinishNow
  | MakeStamp (taskname tid : string).

#[export] Instance action_eq_dec : EqDecision action.
Proof. solve_decision. Defined.

Record SQData : Type := MkSQ {
  sq_deps : dict (gset string);
  sq_revdeps : dict (gset string);
  sq_harddeps : dict (gset string);
  sq_stamps : dict (option string);
  unskippable : gset string;
  outrightfail : gset string;
  sq_covered_tasks : dict (gset string);
  multiconfigs : gset string;
  sq_noexec : gset string;
  stamppresent : gset string;
  sq_valid : gset string;
  sq_hashes : dict string
}.

(** [SQData.__init__]; the last five fields are added while it is built. *)
Definition init_sqdata : SQData := MkSQ [] [] [] [] ∅ ∅ [] ∅ ∅ ∅ ∅ [].

Definition set_outrightfail v s := MkSQ (sq_deps s) (sq_revdeps s) (sq_harddeps s) (sq_stamps s)
  (unskippable s) v (sq_covered_tasks s) (multiconfigs s) (sq_noexec s) (stamppresent s) (sq_valid s) (sq_hashes s).
Definition set_sq_stamps v s := MkSQ (sq_deps s) (sq_revdeps s) (sq_harddeps s) v
  (unskippable s) (outrightfail s) (sq_covered_tasks s) (multiconfigs s) (sq_noexec s) (stamppresent s)
  (sq_valid s) (sq_hashes s).
Definition set_sq_noexec v s := MkSQ (sq_deps s) (sq_revdeps s) (sq_harddeps s) (sq_stamps s)
  (unskippable s) (outrightfail s) (sq_covered_tasks s) (multiconfigs s) v (stamppresent s)
  (sq_valid s) (sq_hashes s).
Definition set_stamppresent v s := MkSQ (sq_deps s) (sq_revdeps s) (sq_harddeps s) (sq_stamps s)
  (unskippable s) (outrightfail s) (sq_covered_tasks s) (multiconfigs s) (sq_noexec s) v
  (sq_valid s) (sq_hashes s).
Definition set_sq_valid v s := MkSQ (sq_deps s) (sq_revdeps s) (sq_harddeps s) (sq_stamps s)
  (unskippable s) (outrightfail s) (sq_covered_tasks s) (multiconfigs s) (sq_noexec s) (stamppresent s)
  v (sq_hashes s).
Definition set_sq_hashes v s := MkSQ (sq_deps s) (sq_revdeps s) (sq_harddeps s) (sq_stamps s)
  (unskippable s) (outrightfail s) (sq_covered_tasks s) (multiconfigs s) (sq_noexec s) (stamppresent s)
  (sq_valid s) v.

(** What does not change during a build: the settings, the targets, and which
    tasks have a setscene variant. *)
Record config : Type := MkConfig {
  number_tasks : Z;
  cf_abort : bool;
  cf_force : bool;
  cf_skipsetscene : bool;
  cf_setsceneonly : bool;
  cf_dry_run : bool;
  setscene_enforce : bool;
  setscenewhitelist : option (list string);
  cf_depvalidate : bool;
  cf_hashvalidate : bool;
  target_tids : list string;
  setscene_tids : gset string
}.

(** A message from a worker: a task's exit code, or its new unified hash. *)
Inductive inmsg : Type :=
  | ExitCode (task : string) (status : Z)
  | UniHash (tid unihash : string).

(** What one call reads from outside: the file times, what the workers sent
    until it looks at them first ([execute]), then since ([wait_or_end]) and
    then since ([finish]), the two functions the recipes supply, and whether a
    fakeroot worker can be started.  A message is read once. *)
Record env : Type := MkEnv {
  e_mtime : file_times;
  e_inbox : list inmsg;
  e_inbox2 : list inmsg;
  e_inbox3 : list inmsg;
  e_valid : list (string * (option string * string * option string)) → res (gset string);
  e_depvalid : string → list (string * (string * string * string)) → gset string → res bool;
  e_spawn : string → bool
}.

Section state.
Context {G : Type}.

Record rqe : Type := MkRqe {
  sq_buildable : gset string;
  sq_running : gset string;
  sq_live : gset string;
  updated_taskhash_queue : list (string * string);
  pending_migrations : gset string;
  runq_buildable : gset string;
  runq_running : gset string;
  runq_complete : gset string;
  runq_tasksrun : gset string;
  build_stamps : dict (option string);
  build_stamps2 : list (option string);
  failed_tids : list string;
  sq_deferred : dict string;
  stampcache : dict bool;
  holdoff_tasks : gset string;
  holdoff_need_update : bool;
  sqdone : bool;
  stats : RunQueueStats;
  sq_stats : RunQueueStats;
  scenequeue_covered : gset string;
  tasks_covered : gset string;
  tasks_scenequeue_done : gset string;
  scenequeue_notcovered : gset string;
  tasks_notcovered : gset string;
  scenequeue_notneeded : gset string;
  cantskip : gset string;
  sched : scheduler;
  sqdata : SQData;
  rq_graph : graph;
  rq_siggen : G;
  fakeworkers : gset string;
  rq_state : rqstate;
  log : list action
}.

Definition set_sq_buildable v s :=
  MkRqe v (sq_running s) (sq_live s) (updated_taskhash_queue s) (pending_migrations s)
    (runq_buildable s) (runq_running s) (runq_complete s) (runq_tasksrun s) (build_stamps s)
    (build_stamps2 s) (failed_tids s) (sq_deferred s) (stampcache s) (holdoff_tasks s)
    (holdoff_need_update s) (sqdone s) (stats s) (sq_stats s) (scenequeue_covered s)
    (tasks_covered s) (tasks_scenequeue_done s) (scenequeue_notcovered s) (tasks_notcovered s)
    (scenequeue_notneeded s) (cantskip s) (sched s) (sqdata s) (rq_graph s) (rq_siggen s)
    (fakeworkers s) (rq_state s) (log s).
Definition set_sq_running v s :=
  MkRqe (sq_buildable s) v (sq_live s) (updated_taskhash_queue s) (pending_migrations s)
    (runq_buildable s) (runq_running s) (runq_complete s) (runq_tasksrun s) (build_stamps s)
    (build_stamps2 s) (failed_tids s) (sq_deferred s) (stampcache s) (holdoff_tasks s)
    (holdoff_need_update s) (sqdone s) (stats s) (sq_stats s) (scenequeue_covered s)
    (tasks_covered s) (tasks_scenequeue_done s) (scenequeue_notcovered s) (tasks_notcovered s)
    (scenequeue_notneeded s) (cantskip s) (sched s) (sqdata s) (rq_graph s) (rq_siggen s)
    (fakeworkers s) (rq_state s) (log s).
Definition set_sq_live v s :=
  MkRqe (sq_buildable s) (sq_running s) v (updated_taskhash_queue s) (pending_migrations s)
    (runq_buildable s) (runq_running s) (runq_complete s) (runq_tasksrun s) (build_stamps s)
    (build_stamps2 s) (failed_tids s) (sq_deferred s) (stampcache s) (holdoff_tasks s)
    (holdoff_need_update s) (sqdone s) (stats s) (sq_stats s) (scenequeue_covered s)
    (tasks_covered s) (tasks_scenequeue_done s) (scenequeue_notcovered s) (tasks_notcovered s)
    (scenequeue_notneeded s) (cantskip s) (sched s) (sqdata s) (rq_graph s) (rq_siggen s)
    (fakeworkers s) (rq_state s) (log s).
Definition set_updated_taskhash_queue v s :=
  MkRqe (sq_buildable s) (sq_running s) (sq_live s) v (pending_migrations s) (runq_buildable s)
    (runq_running s) (runq_complete s) (runq_tasksrun s) (build_stamps s) (build_stamps2 s)
    (failed_tids s) (sq_deferred s) (stampcache s) (holdoff_tasks s) (holdoff_need_update s)
    (sqdone s) (stats s) (sq_stats s) (scenequeue_covered s) (tasks_covered s)
    (tasks_scenequeue_done s) (scenequeue_notcovered s) (tasks_notcovered s)
    (scenequeue_notneeded s) (cantskip s) (sched s) (sqdata s) (rq_graph s) (rq_siggen s)
    (fakeworkers s) (rq_state s) (log s).
Definition set_pending_migrations v s :=
  MkRqe (sq_buildable s) (sq_running s) (sq_live s) (updated_taskhash_queue s) v (runq_buildable s)
    (runq_running s) (runq_complete s) (runq_tasksrun s) (build_stamps s) (build_stamps2 s)
    (failed_tids s) (sq_deferred s) (stampcache s) (holdoff_tasks s) (holdoff_need_update s)
    (sqdone s) (stats s) (sq_stats s) (scenequeue_covered s) (tasks_covered s)
    (tasks_scenequeue_done s) (scenequeue_notcovered s) (tasks_notcovered s)
    (scenequeue_notneeded s) (cantskip s) (sched s) (sqdata s) (rq_graph s) (rq_siggen s)
    (fakeworkers s) (rq_state s) (log s).
Definition set_runq_buildable v s :=
  MkRqe (sq_buildable s) (sq_running s) (sq_live s) (updated_taskhash_queue s)
    (pending_migrations s) v (runq_running s) (runq_complete s) (runq_tasksrun s) (build_stamps s)
    (build_stamps2 s) (failed_tids s) (sq_deferred s) (stampcache s) (holdoff_tasks s)
    (holdoff_need_update s) (sqdone s) (stats s) (sq_stats s) (scenequeue_covered s)
    (tasks_covered s) (tasks_scenequeue_done s) (scenequeue_notcovered s) (tasks_notcovered s)
    (scenequeue_notneeded s) (cantskip s) (sched s) (sqdata s) (rq_graph s) (rq_siggen s)
    (fakeworkers s) (rq_state s) (log s).
Definition set_runq_running v s :=
  MkRqe (sq_buildable s) (sq_running s) (sq_live s) (updated_taskhash_queue s)
    (pending_migrations s) (runq_buildable s) v (runq_complete s) (runq_tasksrun s) (build_stamps s)
    (build_stamps2 s) (failed_tids s) (sq_deferred s) (stampcache s) (holdoff_tasks s)
    (holdoff_need_update s) (sqdone s) (stats s) (sq_stats s) (scenequeue_covered s)
    (tasks_covered s) (tasks_scenequeue_done s) (scenequeue_notcovered s) (tasks_notcovered s)
    (scenequeue_notneeded s) (cantskip s) (sched s) (sqdata s) (rq_graph s) (rq_siggen s)
    (fakeworkers s) (rq_state s) (log s).
Definition set_runq_complete v s :=
  MkRqe (sq_buildable s) (sq_running s) (sq_live s) (updated_taskhash_queue s)
    (pending_migrations s) (runq_buildable s) (runq_running s) v (runq_tasksrun s) (build_stamps s)
    (build_stamps2 s) (failed_tids s) (sq_deferred s) (stampcache s) (holdoff_tasks s)
    (holdoff_need_update s) (sqdone s) (stats s) (sq_stats s) (scenequeue_covered s)
    (tasks_covered s) (tasks_scenequeue_done s) (scenequeue_notcovered s) (tasks_notcovered s)
    (scenequeue_notneeded s) (cantskip s) (sched s) (sqdata s) (rq_graph s) (rq_siggen s)
    (fakeworkers s) (rq_state s) (log s).
Definition set_runq_tasksrun v s :=
  MkRqe (sq_buildable s) (sq_running s) (sq_live s) (updated_taskhash_queue s)
    (pending_migrations s) (runq_buildable s) (runq_running s) (runq_complete s) v (build_stamps s)
    (build_stamps2 s) (failed_tids s) (sq_deferred s) (stampcache s) (holdoff_tasks s)
    (holdoff_need_update s) (sqdone s) (stats s) (sq_stats s) (scenequeue_covered s)
    (tasks_covered s) (tasks_scenequeue_done s) (scenequeue_notcovered s) (tasks_notcovered s)
    (scenequeue_notneeded s) (cantskip s) (sched s) (sqdata s) (rq_graph s) (rq_siggen s)
    (fakeworkers s) (rq_state s) (log s).
Definition set_build_stamps v s :=
  MkRqe (sq_buildable s) (sq_running s) (sq_live s) (updated_taskhash_queue s)
    (pending_migrations s) (runq_buildable s) (runq_running s) (runq_complete s) (runq_tasksrun s) v
    (build_stamps2 s) (failed_tids s) (sq_deferred s) (stampcache s) (holdoff_tasks s)
    (holdoff_need_update s) (sqdone s) (stats s) (sq_stats s) (scenequeue_covered s)
    (tasks_covered s) (tasks_scenequeue_done s) (scenequeue_notcovered s) (tasks_notcovered s)
    (scenequeue_notneeded s) (cantskip s) (sched s) (sqdata s) (rq_graph s) (rq_siggen s)
    (fakeworkers s) (rq_state s) (log s).
Definition set_build_stamps2 v s :=
  MkRqe (sq_buildable s) (sq_running s) (sq_live s) (updated_taskhash_queue s)
    (pending_migrations s) (runq_buildable s) (runq_running s) (runq_complete s) (runq_tasksrun s)
    (build_stamps s) v (failed_tids s) (sq_deferred s) (stampcache s) (holdoff_tasks s)
    (holdoff_need_update s) (sqdone s) (stats s) (sq_stats s) (scenequeue_covered s)
    (tasks_covered s) (tasks_scenequeue_done s) (scenequeue_notcovered s) (tasks_notcovered s)
    (scenequeue_notneeded s) (cantskip s) (sched s) (sqdata s) (rq_graph s) (rq_siggen s)
    (fakeworkers s) (rq_state s) (log s).
Definition set_failed_tids v s :=
  MkRqe (sq_buildable s) (sq_running s) (sq_live s) (updated_taskhash_queue s)
    (pending_migrations s) (runq_buildable s) (runq_running s) (runq_complete s) (runq_tasksrun s)
    (build_stamps s) (build_stamps2 s) v (sq_deferred s) (stampcache s) (holdoff_tasks s)
    (holdoff_need_update s) (sqdone s) (stats s) (sq_stats s) (scenequeue_covered s)
    (tasks_covered s) (tasks_scenequeue_done s) (scenequeue_notcovered s) (tasks_notcovered s)
    (scenequeue_notneeded s) (cantskip s) (sched s) (sqdata s) (rq_graph s) (rq_siggen s)
    (fakeworkers s) (rq_state s) (log s).
Definition set_sq_deferred v s :=
  MkRqe (sq_buildable s) (sq_running s) (sq_live s) (updated_taskhash_queue s)
    (pending_migrations s) (runq_buildable s) (runq_running s) (runq_complete s) (runq_tasksrun s)
    (build_stamps s) (build_stamps2 s) (failed_tids s) v (stampcache s) (holdoff_tasks s)
    (holdoff_need_update s) (sqdone s) (stats s) (sq_stats s) (scenequeue_covered s)
    (tasks_covered s) (tasks_scenequeue_done s) (scenequeue_notcovered s) (tasks_notcovered s)
    (scenequeue_notneeded s) (cantskip s) (sched s) (sqdata s) (rq_graph s) (rq_siggen s)
    (fakeworkers s) (rq_state s) (log s).
Definition set_stampcache v s :=
  MkRqe (sq_buildable s) (sq_running s) (sq_live s) (updated_taskhash_queue s)
    (pending_migrations s) (runq_buildable s) (runq_running s) (runq_complete s) (runq_tasksrun s)
    (build_stamps s) (build_stamps2 s) (failed_tids s) (sq_deferred s) v (holdoff_tasks s)
    (holdoff_need_update s) (sqdone s) (stats s) (sq_stats s) (scenequeue_covered s)
    (tasks_covered s) (tasks_scenequeue_done s) (scenequeue_notcovered s) (tasks_notcovered s)
    (scenequeue_notneeded s) (cantskip s) (sched s) (sqdata s) (rq_graph s) (rq_siggen s)
    (fakeworkers s) (rq_state s) (log s).
Definition set_holdoff_tasks v s :=
  MkRqe (sq_buildable s) (sq_running s) (sq_live s) (updated_taskhash_queue s)
    (pending_migrations s) (runq_buildable s) (runq_running s) (runq_complete s) (runq_tasksrun s)
    (build_stamps s) (build_stamps2 s) (failed_tids s) (sq_deferred s) (stampcache s) v
    (holdoff_need_update s) (sqdone s) (stats s) (sq_stats s) (scenequeue_covered s)
    (tasks_covered s) (tasks_scenequeue_done s) (scenequeue_notcovered s) (tasks_notcovered s)
    (scenequeue_notneeded s) (cantskip s) (sched s) (sqdata s) (rq_graph s) (rq_siggen s)
    (fakeworkers s) (rq_state s) (log s).
Definition set_holdoff_need_update v s :=
  MkRqe (sq_buildable s) (sq_running s) (sq_live s) (updated_taskhash_queue s)
    (pending_migrations s) (runq_buildable s) (runq_running s) (runq_complete s) (runq_tasksrun s)
    (build_stamps s) (build_stamps2 s) (failed_tids s) (sq_deferred s) (stampcache s)
    (holdoff_tasks s) v (sqdone s) (stats s) (sq_stats s) (scenequeue_covered s) (tasks_covered s)
    (tasks_scenequeue_done s) (scenequeue_notcovered s) (tasks_notcovered s)
    (scenequeue_notneeded s) (cantskip s) (sched s) (sqdata s) (rq_graph s) (rq_siggen s)
    (fakeworkers s) (rq_state s) (log s).
Definition set_sqdone v s :=
  MkRqe (sq_buildable s) (sq_running s) (sq_live s) (updated_taskhash_queue s)
    (pending_migrations s) (runq_buildable s) (runq_running s) (runq_complete s) (runq_tasksrun s)
    (build_stamps s) (build_stamps2 s) (failed_tids s) (sq_deferred s) (stampcache s)
    (holdoff_tasks s) (holdoff_need_update s) v (stats s) (sq_stats s) (scenequeue_covered s)
    (tasks_covered s) (tasks_scenequeue_done s) (scenequeue_notcovered s) (tasks_notcovered s)
    (scenequeue_notneeded s) (cantskip s) (sched s) (sqdata s) (rq_graph s) (rq_siggen s)
    (fakeworkers s) (rq_state s) (log s).
Definition set_stats v s :=
  MkRqe (sq_buildable s) (sq_running s) (sq_live s) (updated_taskhash_queue s)
    (pending_migrations s) (runq_buildable s) (runq_running s) (runq_complete s) (runq_tasksrun s)
    (build_stamps s) (build_stamps2 s) (failed_tids s) (sq_deferred s) (stampcache s)
    (holdoff_tasks s) (holdoff_need_update s) (sqdone s) v (sq_stats s) (scenequeue_covered s)
    (tasks_covered s) (tasks_scenequeue_done s) (scenequeue_notcovered s) (tasks_notcovered s)
    (scenequeue_notneeded s) (cantskip s) (sched s) (sqdata s) (rq_graph s) (rq_siggen s)
    (fakeworkers s) (rq_state s) (log s).
Definition set_sq_stats v s :=
  MkRqe (sq_buildable s) (sq_running s) (sq_live s) (updated_taskhash_queue s)
    (pending_migrations s) (runq_buildable s) (runq_running s) (runq_complete s) (runq_tasksrun s)
    (build_stamps s) (build_stamps2 s) (failed_tids s) (sq_deferred s) (stampcache s)
    (holdoff_tasks s) (holdoff_need_update s) (sqdone s) (stats s) v (scenequeue_covered s)
    (tasks_covered s) (tasks_scenequeue_done s) (scenequeue_notcovered s) (tasks_notcovered s)
    (scenequeue_notneeded s) (cantskip s) (sched s) (sqdata s) (rq_graph s) (rq_siggen s)
    (fakeworkers s) (rq_state s) (log s).
Definition set_scenequeue_covered v s :=
  MkRqe (sq_buildable s) (sq_running s) (sq_live s) (updated_taskhash_queue s)
    (pending_migrations s) (runq_buildable s) (runq_running s) (runq_complete s) (runq_tasksrun s)
    (build_stamps s) (build_stamps2 s) (failed_tids s) (sq_deferred s) (stampcache s)
    (holdoff_tasks s) (holdoff_need_update s) (sqdone s) (stats s) (sq_stats s) v (tasks_covered s)
    (tasks_scenequeue_done s) (scenequeue_notcovered s) (tasks_notcovered s)
    (scenequeue_notneeded s) (cantskip s) (sched s) (sqdata s) (rq_graph s) (rq_siggen s)
    (fakeworkers s) (rq_state s) (log s).
Definition set_tasks_covered v s :=
  MkRqe (sq_buildable s) (sq_running s) (sq_live s) (updated_taskhash_queue s)
    (pending_migrations s) (runq_buildable s) (runq_running s) (runq_complete s) (runq_tasksrun s)
    (build_stamps s) (build_stamps2 s) (failed_tids s) (sq_deferred s) (stampcache s)
    (holdoff_tasks s) (holdoff_need_update s) (sqdone s) (stats s) (sq_stats s)
    (scenequeue_covered s) v (tasks_scenequeue_done s) (scenequeue_notcovered s)
    (tasks_notcovered s) (scenequeue_notneeded s) (cantskip s) (sched s) (sqdata s) (rq_graph s)
    (rq_siggen s) (fakeworkers s) (rq_state s) (log s).
Definition set_tasks_scenequeue_done v s :=
  MkRqe (sq_buildable s) (sq_running s) (sq_live s) (updated_taskhash_queue s)
    (pending_migrations s) (runq_buildable s) (runq_running s) (runq_complete s) (runq_tasksrun s)
    (build_stamps s) (build_stamps2 s) (failed_tids s) (sq_deferred s) (stampcache s)
    (holdoff_tasks s) (holdoff_need_update s) (sqdone s) (stats s) (sq_stats s)
    (scenequeue_covered s) (tasks_covered s) v (scenequeue_notcovered s) (tasks_notcovered s)
    (scenequeue_notneeded s) (cantskip s) (sched s) (sqdata s) (rq_graph s) (rq_siggen s)
    (fakeworkers s) (rq_state s) (log s).
Definition set_scenequeue_notcovered v s :=
  MkRqe (sq_buildable s) (sq_running s) (sq_live s) (updated_taskhash_queue s)
    (pending_migrations s) (runq_buildable s) (runq_running s) (runq_complete s) (runq_tasksrun s)
    (build_stamps s) (build_stamps2 s) (failed_tids s) (sq_deferred s) (stampcache s)
    (holdoff_tasks s) (holdoff_need_update s) (sqdone s) (stats s) (sq_stats s)
    (scenequeue_covered s) (tasks_covered s) (tasks_scenequeue_done s) v (tasks_notcovered s)
    (scenequeue_notneeded s) (cantskip s) (sched s) (sqdata s) (rq_graph s) (rq_siggen s)
    (fakeworkers s) (rq_state s) (log s).
Definition set_tasks_notcovered v s :=
  MkRqe (sq_buildable s) (sq_running s) (sq_live s) (updated_taskhash_queue s)
    (pending_migrations s) (runq_buildable s) (runq_running s) (runq_complete s) (runq_tasksrun s)
    (build_stamps s) (build_stamps2 s) (failed_tids s) (sq_deferred s) (stampcache s)
    (holdoff_tasks s) (holdoff_need_update s) (sqdone s) (stats s) (sq_stats s)
    (scenequeue_covered s) (tasks_covered s) (tasks_scenequeue_done s) (scenequeue_notcovered s) v
    (scenequeue_notneeded s) (cantskip s) (sched s) (sqdata s) (rq_graph s) (rq_siggen s)
    (fakeworkers s) (rq_state s) (log s).
Definition set_scenequeue_notneeded v s :=
  MkRqe (sq_buildable s) (sq_running s) (sq_live s) (updated_taskhash_queue s)
    (pending_migrations s) (runq_buildable s) (runq_running s) (runq_complete s) (runq_tasksrun s)
    (build_stamps s) (build_stamps2 s) (failed_tids s) (sq_deferred s) (stampcache s)
    (holdoff_tasks s) (holdoff_need_update s) (sqdone s) (stats s) (sq_stats s)
    (scenequeue_covered s) (tasks_covered s) (tasks_scenequeue_done s) (scenequeue_notcovered s)
    (tasks_notcovered s) v (cantskip s) (sched s) (sqdata s) (rq_graph s) (rq_siggen s)
    (fakeworkers s) (rq_state s) (log s).
Definition set_cantskip v s :=
  MkRqe (sq_buildable s) (sq_running s) (sq_live s) (updated_taskhash_queue s)
    (pending_migrations s) (runq_buildable s) (runq_running s) (runq_complete s) (runq_tasksrun s)
    (build_stamps s) (build_stamps2 s) (failed_tids s) (sq_deferred s) (stampcache s)
    (holdoff_tasks s) (holdoff_need_update s) (sqdone s) (stats s) (sq_stats s)
    (scenequeue_covered s) (tasks_covered s) (tasks_scenequeue_done s) (scenequeue_notcovered s)
    (tasks_notcovered s) (scenequeue_notneeded s) v (sched s) (sqdata s) (rq_graph s) (rq_siggen s)
    (fakeworkers s) (rq_state s) (log s).
Definition set_sched v s :=
  MkRqe (sq_buildable s) (sq_running s) (sq_live s) (updated_taskhash_queue s)
    (pending_migrations s) (runq_buildable s) (runq_running s) (runq_complete s) (runq_tasksrun s)
    (build_stamps s) (build_stamps2 s) (failed_tids s) (sq_deferred s) (stampcache s)
    (holdoff_tasks s) (holdoff_need_update s) (sqdone s) (stats s) (sq_stats s)
    (scenequeue_covered s) (tasks_covered s) (tasks_scenequeue_done s) (scenequeue_notcovered s)
    (tasks_notcovered s) (scenequeue_notneeded s) (cantskip s) v (sqdata s) (rq_graph s)
    (rq_siggen s) (fakeworkers s) (rq_state s) (log s).
Definition set_sqdata v s :=
  MkRqe (sq_buildable s) (sq_running s) (sq_live s) (updated_taskhash_queue s)
    (pending_migrations s) (runq_buildable s) (runq_running s) (runq_complete s) (runq_tasksrun s)
    (build_stamps s) (build_stamps2 s) (failed_tids s) (sq_deferred s) (stampcache s)
    (holdoff_tasks s) (holdoff_need_update s) (sqdone s) (stats s) (sq_stats s)
    (scenequeue_covered s) (tasks_covered s) (tasks_scenequeue_done s) (scenequeue_notcovered s)
    (tasks_notcovered s) (scenequeue_notneeded s) (cantskip s) (sched s) v (rq_graph s)
    (rq_siggen s) (fakeworkers s) (rq_state s) (log s).
Definition set_rq_graph v s :=
  MkRqe (sq_buildable s) (sq_running s) (sq_live s) (updated_taskhash_queue s)
    (pending_migrations s) (runq_buildable s) (runq_running s) (runq_complete s) (runq_tasksrun s)
    (build_stamps s) (build_stamps2 s) (failed_tids s) (sq_deferred s) (stampcache s)
    (holdoff_tasks s) (holdoff_need_update s) (sqdone s) (stats s) (sq_stats s)
    (scenequeue_covered s) (tasks_covered s) (tasks_scenequeue_done s) (scenequeue_notcovered s)
    (tasks_notcovered s) (scenequeue_notneeded s) (cantskip s) (sched s) (sqdata s) v (rq_siggen s)
    (fakeworkers s) (rq_state s) (log s).
Definition set_rq_siggen v s :=
  MkRqe (sq_buildable s) (sq_running s) (sq_live s) (updated_taskhash_queue s)
    (pending_migrations s) (runq_buildable s) (runq_running s) (runq_complete s) (runq_tasksrun s)
    (build_stamps s) (build_stamps2 s) (failed_tids s) (sq_deferred s) (stampcache s)
    (holdoff_tasks s) (holdoff_need_update s) (sqdone s) (stats s) (sq_stats s)
    (scenequeue_covered s) (tasks_covered s) (tasks_scenequeue_done s) (scenequeue_notcovered s)
    (tasks_notcovered s) (scenequeue_notneeded s) (cantskip s) (sched s) (sqdata s) (rq_graph s) v
    (fakeworkers s) (rq_state s) (log s).
Definition set_fakeworkers v s :=
  MkRqe (sq_buildable s) (sq_running s) (sq_live s) (updated_taskhash_queue s)
    (pending_migrations s) (runq_buildable s) (runq_running s) (runq_complete s) (runq_tasksrun s)
    (build_stamps s) (build_stamps2 s) (failed_tids s) (sq_deferred s) (stampcache s)
    (holdoff_tasks s) (holdoff_need_update s) (sqdone s) (stats s) (sq_stats s)
    (scenequeue_covered s) (tasks_covered s) (tasks_scenequeue_done s) (scenequeue_notcovered s)
    (tasks_notcovered s) (scenequeue_notneeded s) (cantskip s) (sched s) (sqdata s) (rq_graph s)
    (rq_siggen s) v (rq_state s) (log s).
Definition set_rq_state v s :=
  MkRqe (sq_buildable s) (sq_running s) (sq_live s) (updated_taskhash_queue s)
    (pending_migrations s) (runq_buildable s) (runq_running s) (runq_complete s) (runq_tasksrun s)
    (build_stamps s) (build_stamps2 s) (failed_tids s) (sq_deferred s) (stampcache s)
    (holdoff_tasks s) (holdoff_need_update s) (sqdone s) (stats s) (sq_stats s)
    (scenequeue_covered s) (tasks_covered s) (tasks_scenequeue_done s) (scenequeue_notcovered s)
    (tasks_notcovered s) (scenequeue_notneeded s) (cantskip s) (sched s) (sqdata s) (rq_graph s)
    (rq_siggen s) (fakeworkers s) v (log s).
Definition set_log v s :=
  MkRqe (sq_buildable s) (sq_running s) (sq_live s) (updated_taskhash_queue s)
    (pending_migrations s) (runq_buildable s) (runq_running s) (runq_complete s) (runq_tasksrun s)
    (build_stamps s) (build_stamps2 s) (failed_tids s) (sq_deferred s) (stampcache s)
    (holdoff_tasks s) (holdoff_need_update s) (sqdone s) (stats s) (sq_stats s)
    (scenequeue_covered s) (tasks_covered s) (tasks_scenequeue_done s) (scenequeue_notcovered s)
    (tasks_notcovered s) (scenequeue_notneeded s) (cantskip s) (sched s) (sqdata s) (rq_graph s)
    (rq_siggen s) (fakeworkers s) (rq_state s) v.
End state.
Arguments rqe G : clear implicits.

(** ** Helpers *)

(** [sorted(s)] of a set. *)
Definition sorted_set (s : gset string) : list string := py_sorted (elements s).

(** [l.remove(x)]: ValueError when it is not there. *)
Fixpoint remove_first {A} `{EqDecision A} (x : A) (l : list A) : res (list A) :=
  match l with
  | [] => Raise ValueError
  | y :: l => if decide (x = y) then Ok l else l ← remove_first x l; Ok (y :: l)
  end.

(** [s.split(sep)[0]] *)
Fixpoint str_before (sep s : string) : string :=
  if startswith s sep then "" else match s with "" => "" | String a s => String a (str_before sep s) end.

(** [fnmatch.fnmatch]: the members of a [[...]] class, the text after it, and
    whether it is negated; [None] when there is no closing bracket. *)
Definition fn_class (p : string) : option (bool * string * string) :=
  let '(neg, p) := match p with String "!" p => (true, p) | _ => (false, p) end in
  match p with
  | String "]" p => '(items, rest) ← split1 "]" p; Some (neg, String "]" items, rest)
  | _ => '(items, rest) ← split1 "]" p; Some (neg, items, rest)
  end.

Fixpoint in_class (fuel : nat) (c : ascii) (items : string) : bool :=
  match fuel with
  | O => false
  | S fuel =>
      match items with
      | String a (String "-" (String b items)) =>
          ((code a <=? code c)%N && (code c <=? code b)%N) || in_class fuel c items
      | String a items => Ascii.eqb a c || in_class fuel c items
      | "" => false
      end
  end.

Fixpoint fn_match (fuel : nat) (p s : string) : bool :=
  match fuel with
  | O => false
  | S fuel =>
      match p with
      | "" => str_empty s
      | String "*" p' =>
          fn_match fuel p' s || match s with String _ s' => fn_match fuel p s' | "" => false end
      | String a p' =>
          match s with
          | "" => false
          | String c s' =>
              if Ascii.eqb a "?" then fn_match fuel p' s'
              else
                match (if Ascii.eqb a "[" then fn_class p' else None) with
                | Some (neg, items, rest) =>
                    xorb neg (in_class (String.length items) c items) && fn_match fuel rest s'
                | None => Ascii.eqb a c && fn_match fuel p' s'
                end
          end
      end
  end.

Definition fnmatch (name pat : string) : bool :=
  fn_match (S (String.length name + String.length pat)) pat name.

Definition check_setscene_enforce_whitelist (pn taskname : string) (whitelist : option (list string)) : bool :=
  match whitelist with
  | None => true
  | Some l => existsb (fnmatch (pn +s+ ":" +s+ taskname)) l
  end.

(** [get_setscene_enforce_whitelist], on the two variables and the targets. *)
Definition get_setscene_enforce_whitelist (enforce whitelist : option string)
    (targets : list (string * string * string * string)) : res (option (list string)) :=
  if bool_decide (enforce ≠ Some "1") then Ok None
  else
    l ← fold_res (λ outlist item,
          if startswith item "%:" then
            fold_res (λ outlist '(mc, target, task, fn),
              t ← of_option IndexError (split_on ":" item !! 1);
              Ok (outlist ++ [target +s+ ":" +s+ t])) outlist targets
          else Ok (outlist ++ [item])) [] (split_ws (default "" whitelist));
    Ok (Some l).

Section execute.
Context {G : Type} `{SigGen G} `{!SetOrder string}.
Context (dataCaches : dict CacheData) (taskData : dict TaskData) (policy : stamp_policy).
Context (number_threads : string → res (option string)) (cf : config).

Abbreviation exec := (M (rqe G)).

Definition act (a : action) : exec unit := modify (λ s, set_log (log s ++ [a]) s).

Definition on_stats (f : RunQueueStats → RunQueueStats) : exec unit := modify (λ s, set_stats (f (stats s)) s).
Definition on_sq_stats (f : RunQueueStats → RunQueueStats) : exec unit :=
  modify (λ s, set_sq_stats (f (sq_stats s)) s).

Definition set_state (st : rqstate) : exec unit := modify (set_rq_state st).

(** [self.rqdata.runtaskentries[tid]] *)
Definition entry_of (tid : string) : exec RunTaskEntry :=
  s ← get; lift (of_option KeyError (dget (rq_graph s) tid)).

Definition can_start_task (s : rqe G) : bool := (active (stats s) + active (sq_stats s) <? number_tasks cf)%Z.

(** ** Ordinary tasks *)

Definition setbuildable (task : string) : exec unit :=
  _ ← modify (λ s, set_runq_buildable ({[task]} ∪ runq_buildable s) s);
  modify (λ s, set_sched (newbuildable task (sched s)) s).

Definition task_completeoutright (task : string) : exec unit :=
  _ ← modify (λ s, set_runq_complete ({[task]} ∪ runq_complete s) s);
  e ← entry_of task;
  for_each (set_iter (revdeps e)) (λ revdep,
    s ← get;
    if bool_decide (revdep ∈ runq_running s) || bool_decide (revdep ∈ runq_buildable s) then mret tt
    else
      e ← entry_of revdep;
      if bool_decide (depends e ⊆ runq_complete s) then setbuildable revdep else mret tt).

Definition task_complete (task : string) : exec unit :=
  _ ← on_stats taskCompleted;
  _ ← act (TaskCompleted task);
  _ ← task_completeoutright task;
  modify (λ s, set_runq_tasksrun ({[task]} ∪ runq_tasksrun s) s).

Definition task_fail (task : string) (exitcode : option Z) : exec unit :=
  _ ← on_stats taskFailed;
  _ ← modify (λ s, set_failed_tids (failed_tids s ++ [task]) s);
  _ ← act (TaskFailed task exitcode);
  if cf_abort cf then set_state RQCleanUp else mret tt.

Definition task_skip (task reason : string) : exec unit :=
  _ ← modify (λ s, set_runq_running ({[task]} ∪ runq_running s) s);
  _ ← setbuildable task;
  _ ← act (TaskSkipped task reason);
  _ ← task_completeoutright task;
  _ ← on_stats taskSkipped;
  on_stats taskCompleted.

(** ** Setscene tasks *)

(** One task of [next]: it is done, and so, next, is every task it depends on
    that is no setscene task and of which all dependees are done. *)
Definition scene_done_step (g : graph) (acc : gset string * gset string) (t : string) :
    res (gset string * gset string) :=
  let '(done, new) := acc in
  let done := {[t]} ∪ done in
  e ← of_option KeyError (dget g t);
  new ← fold_res (λ new dep,
    if bool_decide (dep ∈ setscene_tids cf) || bool_decide (dep ∈ done) then Ok new
    else
      e ← of_option KeyError (dget g dep);
      Ok (if bool_decide (revdeps e ⊆ done) then {[dep]} ∪ new else new)) new (set_iter (depends e));
  Ok (done, new).

(** [while next: ...]: [tasks_scenequeue_done] afterwards. *)
Fixpoint scene_done (g : graph) (fuel : nat) (next done : gset string) : res (gset string) :=
  match fuel with
  | O => Raise OutOfFuel
  | S fuel =>
      if bool_decide (next = ∅) then Ok done
      else
        '(done, new) ← fold_res (scene_done_step g) (done, ∅) (sorted_set next);
        scene_done g fuel new done
  end.

(** [sq_task_failoutright], given the counters' update. *)
Definition failoutright (updatecounters : string → bool → exec unit) (task : string) : exec unit :=
  _ ← modify (λ s, set_sq_running ({[task]} ∪ sq_running s) s);
  _ ← modify (λ s, set_sq_buildable ({[task]} ∪ sq_buildable s) s);
  _ ← on_sq_stats taskSkipped;
  _ ← on_sq_stats taskCompleted;
  _ ← modify (λ s, set_scenequeue_notcovered ({[task]} ∪ scenequeue_notcovered s) s);
  updatecounters task true.

(** [scenequeue_updatecounters]; the fuel bounds the chain of hard dependencies
    that fail one another. *)
Fixpoint updatecounters (fuel : nat) (task : string) (fail : bool) : exec unit :=
  match fuel with
  | O => raise OutOfFuel
  | S fuel =>
      s ← get;
      deps ← lift (of_option KeyError (dget (sq_deps (sqdata s)) task));
      _ ← for_each (sorted_set deps) (λ dep,
        s ← get;
        let hard := match dget (sq_harddeps (sqdata s)) task with
                    | Some h => bool_decide (dep ∈ h) | None => false end in
        if fail && hard then
          if bool_decide (dep ∈ scenequeue_covered s) || bool_decide (dep ∈ scenequeue_notcovered s)
          then mret tt
          else failoutright (updatecounters fuel) dep
        else
          revs ← lift (of_option KeyError (dget (sq_revdeps (sqdata s)) dep));
          if bool_decide (revs ⊆ scenequeue_covered s ∪ scenequeue_notcovered s)
          then modify (λ s, set_sq_buildable ({[dep]} ∪ sq_buildable s) s) else mret tt);
      s ← get;
      done ← lift (scene_done (rq_graph s) (3 + 2 * List.length (rq_graph s)) {[task]} (tasks_scenequeue_done s));
      _ ← modify (set_tasks_scenequeue_done done);
      modify (set_holdoff_need_update true)
  end.

Definition scenequeue_updatecounters (task : string) (fail : bool) : exec unit :=
  s ← get; updatecounters (2 + List.length (sq_deps (sqdata s))) task fail.

Definition sq_task_failoutright (task : string) : exec unit := failoutright scenequeue_updatecounters task.

Definition sq_task_completeoutright (task : string) : exec unit :=
  _ ← modify (λ s, set_scenequeue_covered ({[task]} ∪ scenequeue_covered s) s);
  scenequeue_updatecounters task false.

(** A setscene task that had to work has failed. *)
Definition sq_check_taskfail (task : string) : exec unit :=
  match setscenewhitelist cf with
  | None => mret tt
  | Some l =>
      '(mc, fn, taskname, taskfn) ← lift (split_tid_mcfn (str_before "_setscene" task));
      c ← lift (cache_of dataCaches mc);
      pn ← lift (of_option KeyError (dget (pkg_fn c) taskfn));
      if check_setscene_enforce_whitelist pn taskname (Some l) then mret tt else set_state RQCleanUp
  end.

Definition sq_task_complete (task : string) : exec unit :=
  _ ← on_sq_stats taskCompleted;
  _ ← act (SceneCompleted task);
  sq_task_completeoutright task.

Definition sq_task_fail (task : string) (result : Z) : exec unit :=
  _ ← on_sq_stats taskFailed;
  _ ← act (SceneFailed task result);
  _ ← modify (λ s, set_scenequeue_notcovered ({[task]} ∪ scenequeue_notcovered s) s);
  _ ← scenequeue_updatecounters task true;
  sq_check_taskfail task.

Definition sq_task_skip (task : string) : exec unit :=
  _ ← modify (λ s, set_sq_running ({[task]} ∪ sq_running s) s);
  _ ← modify (λ s, set_sq_buildable ({[task]} ∪ sq_buildable s) s);
  _ ← sq_task_completeoutright task;
  _ ← on_sq_stats taskSkipped;
  on_sq_stats taskCompleted.

(** ** What the workers report *)

(** The stamp of a task that ended is free again. *)
Definition release_stamp (task : string) : exec unit :=
  s ← get;
  match dget (build_stamps s) task with
  | None => mret tt
  | Some f =>
      l ← lift (remove_first f (build_stamps2 s));
      _ ← modify (set_build_stamps2 l);
      modify (λ s, set_build_stamps (ddel (build_stamps s) task) s)
  end.

Definition runqueue_process_waitpid (task : string) (status : Z) : exec unit :=
  _ ← release_stamp task;
  s ← get;
  if bool_decide (task ∈ sq_live s) then
    _ ← (if (status =? 0)%Z then sq_task_complete task else sq_task_fail task status);
    modify (λ s, set_sq_live (sq_live s ∖ {[task]}) s)
  else if (status =? 0)%Z then task_complete task else task_fail task (Some status).

(** [read_workers], on the messages that have come in. *)
Definition read_workers (inbox : list inmsg) : exec unit :=
  for_each inbox (λ m,
    match m with
    | ExitCode task status => runqueue_process_waitpid task status
    | UniHash tid unihash =>
        modify (λ s, set_updated_taskhash_queue (updated_taskhash_queue s ++ [(tid, unihash)]) s)
    end).

(** The state when nothing more will run. *)
Definition end_state : exec unit :=
  s ← get; set_state (match failed_tids s with [] => RQComplete | _ => RQFailed end).

Definition finish_now : exec unit := _ ← act FinishNow; end_state.

(** [finish]; the result is [True], or the open pipes to wait for. *)
Definition finish (e : env) : exec bool :=
  _ ← set_state RQCleanUp;
  s ← get;
  let active := (active (stats s) + active (sq_stats s))%Z in
  if (0 <? active)%Z then
    _ ← act (ExitWait active);
    _ ← read_workers (e_inbox3 e);
    mret false
  else
    _ ← end_state;
    mret true.

(** ** Checks *)

(** [self.rq.check_stamp_task(tid, taskname, recurse, cache=self.stampcache)] *)
Definition stamp_current (e : env) (tid : string) (taskname : option string) (recurse : bool) : exec bool :=
  s ← get;
  '(b, cache) ← lift (check_stamp dataCaches policy (rq_siggen s) (e_mtime e) (rq_graph s) tid taskname recurse (stampcache s));
  _ ← modify (set_stampcache cache);
  mret b.

(** [pn, taskname, fn] of a task *)
Definition task_data (dep : string) : res (string * string * string) :=
  '(mc, fn, taskname, taskfn) ← split_tid_mcfn dep;
  c ← cache_of dataCaches mc;
  pn ← of_option KeyError (dget (pkg_fn c) taskfn);
  Ok (pn, taskname, fn).

Definition check_dependencies (e : env) (task : string) (taskdeps : gset string) : exec bool :=
  if negb (cf_depvalidate cf) then mret false
  else
    s ← get;
    taskdata ← lift (map_res (λ dep, td ← task_data dep; Ok (dep, td)) (set_iter ({[task]} ∪ taskdeps)));
    lift (e_depvalid e task taskdata (scenequeue_notneeded s)).

(** [validate_hashes]: the setscene tasks of [tocheck] that are available. *)
Definition validate_hashes (e : env) (tocheck : gset string) : exec (gset string) :=
  if negb (cf_hashvalidate cf) then mret ∅
  else
    s ← get;
    sq_data ← lift (map_res (λ tid,
      '(mc, fn, taskname, taskfn) ← split_tid_mcfn tid;
      r ← of_option KeyError (dget (rq_graph s) tid);
      c ← cache_of dataCaches mc;
      h ← of_option KeyError (dget (hashfn c) taskfn);
      Ok (tid, (rt_hash r, h, rt_unihash r))) (set_iter tocheck));
    lift (e_valid e sq_data).

(** [summarise_scenequeue_errors]: whether something is left undone. *)
Definition summarise_scenequeue_errors : exec bool :=
  s ← get;
  _ ← (if sqdone s then mret tt else act SceneQueueComplete);
  let undone :=
    nonempty (sq_deferred s) || nonempty (updated_taskhash_queue s) ||
    negb (bool_decide (holdoff_tasks s = ∅)) in
  let scene_err := existsb (λ tid,
    (bool_decide (tid ∉ scenequeue_covered s) && bool_decide (tid ∉ scenequeue_notcovered s)) ||
    bool_decide (tid ∉ sq_buildable s) || bool_decide (tid ∉ sq_running s)) (elements (setscene_tids cf)) in
  let task_err := existsb (λ kv,
    (bool_decide (kv.1 ∉ tasks_covered s) && bool_decide (kv.1 ∉ tasks_notcovered s)) ||
    bool_decide (kv.1 ∉ tasks_scenequeue_done s) ||
    (bool_decide (depends kv.2 = ∅) && bool_decide (kv.1 ∉ runq_buildable s))) (rq_graph s) in
  mret (undone || scene_err || task_err).

(** The tasks [tids] with all the tasks their setscene variants cover. *)
Definition with_covered (sq : SQData) (tids : gset string) : res (gset string) :=
  fold_res (λ acc tid,
    cov ← of_option KeyError (dget (sq_covered_tasks sq) tid); Ok (acc ∪ cov)) tids (set_iter tids).

Definition update_holdofftasks : exec unit :=
  s ← get;
  if negb (holdoff_need_update s) then mret tt
  else
    let sq := sqdata s in
    nc ← lift (with_covered sq (scenequeue_notcovered s));
    let notcovered := (nc ∪ cantskip s ∪ (unskippable sq ∖ setscene_tids cf)) ∩ tasks_scenequeue_done s in
    cov ← lift (with_covered sq (scenequeue_covered s));
    let covered := (cov ∖ notcovered) ∩ tasks_scenequeue_done s in
    _ ← for_each (set_iter (notcovered ∪ covered)) (λ tid,
      e ← entry_of tid;
      s ← get;
      if bool_decide (depends e ⊆ runq_complete s) then setbuildable tid else mret tt);
    _ ← modify (set_tasks_covered covered);
    _ ← modify (set_tasks_notcovered notcovered);
    let undecided := List.filter (λ tid,
      bool_decide (tid ∉ scenequeue_covered s) && bool_decide (tid ∉ scenequeue_notcovered s))
      (elements (setscene_tids cf)) in
    s ← get;
    holdoff ← lift (fold_res (λ acc tid,
      cov ← of_option KeyError (dget (sq_covered_tasks sq) tid);
      Ok (acc ∪ (cov ∖ runq_complete s))) (list_to_set undecided) undecided);
    _ ← modify (set_holdoff_tasks holdoff);
    modify (set_holdoff_need_update false).

(** ** The data a task gets about its dependencies *)

Definition filtermcdeps (mc : string) (deps : gset string) : gset string :=
  list_to_set (List.filter (λ dep, bool_decide (mc_from_tid dep = mc)) (elements deps)).

(** [pn, taskname, fn, deps, provides, taskhash, unihash] *)
Record dep_data : Type := DepData {
  dd_pn : string;
  dd_taskname : string;
  dd_fn : string;
  dd_deps : gset string;
  dd_provides : list string;
  dd_taskhash : option string;
  dd_unihash : option string
}.

Definition make_dep_data (g : graph) (tid : string) (deps : gset string) : res dep_data :=
  '(mc, fn, taskname, taskfn) ← split_tid_mcfn tid;
  c ← cache_of dataCaches mc;
  pn ← of_option KeyError (dget (pkg_fn c) taskfn);
  provides ← of_option KeyError (dget (fn_provides c) taskfn);
  e ← of_option KeyError (dget g tid);
  Ok (DepData pn taskname fn deps provides (rt_hash e) (rt_unihash e)).

(** The [while next] loop both functions share; [deps_of] gives a task's own
    dependencies. *)
Fixpoint collect_dep_data (g : graph) (deps_of : string → res (gset string)) (fuel : nat)
    (next : list string) (acc : dict dep_data) : res (dict dep_data) :=
  match fuel with
  | O => Raise OutOfFuel
  | S fuel =>
      match next with
      | [] => Ok acc
      | _ =>
          '(acc, additional) ← fold_res (λ st tid,
            let '(acc, additional) := st in
            deps ← deps_of tid;
            d ← make_dep_data g tid deps;
            let acc := dset acc tid d in
            Ok (acc, additional ++ List.filter (λ x, negb (dmem acc x)) (set_iter deps))) (acc, []) next;
          collect_dep_data g deps_of fuel additional acc
      end
  end.

Definition build_taskdepdata (g : graph) (task : string) : res (dict dep_data) :=
  e ← of_option KeyError (dget g task);
  let mc := mc_from_tid task in
  collect_dep_data g
    (λ tid,
      '(mc, _, _, _) ← split_tid_mcfn tid;
      e ← of_option KeyError (dget g tid);
      Ok (filtermcdeps mc (depends e)))
    (3 + 2 * List.length g) (set_iter (filtermcdeps mc ({[task]} ∪ depends e))) [].

(** [getsetscenedeps]: what the setscene variant of a task depends on. *)
Definition getsetscenedeps (tid : string) : res (gset string) :=
  '(mc, _, _, _) ← split_tid_mcfn tid;
  td ← of_option KeyError (dget taskData mc);
  e ← of_option KeyError (dget (taskentries td) (tid +s+ "_setscene"));
  fold_res (λ deps '(depname, idependtask),
    match dget (build_targets td) depname with
    | None => Ok deps
    | Some fns =>
        depfn ← of_option IndexError (head fns);
        Ok ({[depfn +s+ ":" +s+ replace idependtask "_setscene" ""]} ∪ deps)
    end) ∅ (idepends e).

Definition sq_build_taskdepdata (g : graph) (task : string) : res (dict dep_data) :=
  deps ← getsetscenedeps task;
  collect_dep_data g getsetscenedeps (3 + 2 * List.length g) (set_iter ({[task]} ∪ deps)) [].

(** ** The setscene queue *)

(** [pending_hash_index]: the comment above it says it matches recipe name,
    task name and hash; the code uses the constant ["taskname"]. *)
Definition pending_hash_index (g : graph) (tid : string) : res string :=
  '(mc, fn, taskname, taskfn) ← split_tid_mcfn tid;
  c ← cache_of dataCaches mc;
  pn ← of_option KeyError (dget (pkg_fn c) taskfn);
  e ← of_option KeyError (dget g tid);
  h ← of_option TypeError (rt_unihash e);
  Ok (pn +s+ ":" +s+ "taskname" +s+ h).

Definition on_sqdata (f : SQData → SQData) : exec unit := modify (λ s, set_sqdata (f (sqdata s)) s).

(** The first loop of [update_scenequeue_data], for one task: whether its hash
    has to be checked. *)
Definition update_one (e : env) (tid : string) : exec bool :=
  _ ← on_sqdata (λ sq, set_stamppresent (stamppresent sq ∖ {[tid]}) sq);
  _ ← on_sqdata (λ sq, set_sq_valid (sq_valid sq ∖ {[tid]}) sq);
  '(mc, fn, taskname, taskfn) ← lift (split_tid_mcfn tid);
  c ← lift (cache_of dataCaches mc);
  taskdep ← lift (of_option KeyError (dget (task_deps c) taskfn));
  match task_flag taskdep "noexec" taskname with
  | Some _ =>
      _ ← on_sqdata (λ sq, set_sq_noexec ({[tid]} ∪ sq_noexec sq) sq);
      _ ← sq_task_skip tid;
      _ ← act (MakeStamp (taskname +s+ "_setscene") tid);
      mret false
  | None =>
      b ← stamp_current e tid (Some (taskname +s+ "_setscene")) false;
      b ← (if (b : bool) then mret true else stamp_current e tid (Some taskname) true);
      if (b : bool) then
        _ ← on_sqdata (λ sq, set_stamppresent ({[tid]} ∪ stamppresent sq) sq);
        _ ← sq_task_skip tid;
        mret false
      else mret true
  end.

(** The tasks that are neither available nor decided yet: all fail outright,
    and all but the first of equal hash wait for that one. *)
Definition defer_one (mc : string) (tid : string) : exec unit :=
  s ← get;
  let sq := sqdata s in
  if bool_decide (mc_from_tid tid ≠ mc) || bool_decide (tid ∈ stamppresent sq) ||
     bool_decide (tid ∈ sq_valid sq) || bool_decide (tid ∈ sq_noexec sq) ||
     bool_decide (tid ∈ scenequeue_notcovered s) || bool_decide (tid ∈ scenequeue_covered s)
  then mret tt
  else
    _ ← on_sqdata (λ sq, set_outrightfail ({[tid]} ∪ outrightfail sq) sq);
    h ← lift (pending_hash_index (rq_graph s) tid);
    match dget (sq_hashes sq) h with
    | None => on_sqdata (λ sq, set_sq_hashes (dset (sq_hashes sq) h tid) sq)
    | Some first => modify (λ s, set_sq_deferred (dset (sq_deferred s) tid first) s)
    end.

Fixpoint filter_each (f : string → exec bool) (l : list string) : exec (list string) :=
  match l with
  | [] => mret []
  | x :: l => b ← f x; l ← filter_each f l; mret (if (b : bool) then x :: l else l)
  end.

Definition update_scenequeue_data (e : env) (tids : list string) : exec unit :=
  tocheck ← filter_each (update_one e) (py_sorted tids);
  valid ← validate_hashes e (list_to_set tocheck);
  _ ← on_sqdata (λ sq, set_sq_valid (sq_valid sq ∪ valid) sq);
  _ ← on_sqdata (set_sq_hashes []);
  _ ← modify (set_sq_deferred []);
  s ← get;
  for_each (sorted_set (multiconfigs (sqdata s))) (λ mc,
    for_each (py_sorted (dkeys (sq_revdeps (sqdata s)))) (defer_one mc)).

(** The tables while the setscene queue is built. *)
Record sq_build : Type := SQBuild {
  b_revdeps : dict (gset string);
  b_squash : dict (gset string);
  b_collated : dict (gset string)
}.

(** [d[k].add(x)], [d[k] |= x], [d[k].remove(x)] if it is there. *)
Definition dict_add (d : dict (gset string)) (k : string) (x : gset string) : res (dict (gset string)) :=
  v ← of_option KeyError (dget d k); Ok (dset d k (x ∪ v)).
Definition dict_drop (d : dict (gset string)) (k x : string) : res (dict (gset string)) :=
  v ← of_option KeyError (dget d k); Ok (dset d k (v ∖ {[x]})).

(** One dependency of a setscene task. *)
Definition scene_endpoint (tid : string) (st : sq_build * dict (gset string)) (dep : string) :
    res (sq_build * dict (gset string)) :=
  let '(b, endpoints) := st in
  revdeps ← dict_drop (b_revdeps b) dep tid;
  Ok (SQBuild revdeps (b_squash b) (b_collated b),
      dset endpoints dep ({[tid]} ∪ default ∅ (dget endpoints dep))).

(** One dependency of an endpoint that is no setscene task. *)
Definition endpoint_dep (point : string) (task tasks : gset string)
    (st : sq_build * dict (gset string)) (dep : string) : res (sq_build * dict (gset string)) :=
  let '(b, newendpoints) := st in
  revdeps ← dict_drop (b_revdeps b) dep point;
  squash ← (if bool_decide (tasks = ∅) then Ok (b_squash b) else dict_add (b_squash b) dep tasks);
  left ← of_option KeyError (dget revdeps dep);
  Ok (SQBuild revdeps squash (b_collated b),
      if bool_decide (left = ∅) && bool_decide (dep ∉ setscene_tids cf)
      then dset newendpoints dep task else newendpoints).

Definition process_endpoint (g : graph) (st : sq_build * dict (gset string)) (kv : string * gset string) :
    res (sq_build * dict (gset string)) :=
  let '(b, newendpoints) := st in
  let '(point, task) := kv in
  sq ← of_option KeyError (dget (b_squash b) point);
  let tasks := task ∪ sq in
  if bool_decide (point ∈ setscene_tids cf) then
    Ok (SQBuild (b_revdeps b) (dset (b_squash b) point tasks) (b_collated b), newendpoints)
  else
    collated ← fold_res (λ d t, dict_add d t {[point]}) (b_collated b) (set_iter tasks);
    e ← of_option KeyError (dget g point);
    fold_res (endpoint_dep point task tasks)
      (SQBuild (b_revdeps b) (dset (b_squash b) point ∅) collated, newendpoints) (set_iter (depends e)).

Fixpoint process_endpoints (g : graph) (fuel : nat) (b : sq_build) (endpoints : dict (gset string)) :
    res sq_build :=
  match fuel with
  | O => Raise OutOfFuel
  | S fuel =>
      '(b, newendpoints) ← fold_res (process_endpoint g) (b, []) endpoints;
      match newendpoints with [] => Ok b | _ => process_endpoints g fuel b newendpoints end
  end.

(** The chains up to the first setscene tasks, and between setscene tasks. *)
Definition collapse_graph (g : graph) : res sq_build :=
  let b := SQBuild (List.map (λ kv, (kv.1, revdeps kv.2)) g) (List.map (λ kv, (kv.1, ∅)) g) [] in
  let endpoints := List.map (λ kv : string * RunTaskEntry, (kv.1, ∅)) (List.filter (λ kv : string * RunTaskEntry,
    bool_decide (revdeps kv.2 = ∅) && bool_decide (kv.1 ∉ setscene_tids cf)) g) in
  '(b, endpoints) ← fold_res (λ st tid,
    let '(b, endpoints) := st in
    e ← of_option KeyError (dget g tid);
    fold_res (scene_endpoint tid)
      (SQBuild (b_revdeps b) (b_squash b) (dset (b_collated b) tid ∅), endpoints) (set_iter (depends e)))
    (b, endpoints) (set_iter (setscene_tids cf));
  process_endpoints g (2 + List.length g) b endpoints.

(** [while new: ...]: the unskippable tasks; the ones without dependencies on
    the way become buildable. *)
Fixpoint find_unskippable (fuel : nat) (un : gset string) : exec (gset string) :=
  match fuel with
  | O => raise OutOfFuel
  | S fuel =>
      let orig := un in
      s ← get;
      let visited := List.filter (λ tid, bool_decide (tid ∉ setscene_tids cf)) (rev (sorted_set orig)) in
      _ ← for_each visited (λ tid,
        e ← entry_of tid;
        if bool_decide (depends e = ∅) then setbuildable tid else mret tt);
      let un := foldl (λ un tid, un ∪ deps_of (rq_graph s) tid) un visited in
      if bool_decide (un = orig) then mret un else find_unskippable fuel un
  end.

(** A dependency between setscene variants, stated in the recipe. *)
Definition hard_dep (g : graph) (td : TaskData) (tid : string) (st : dict (gset string) * dict (gset string))
    (dep : string * string) : res (dict (gset string) * dict (gset string)) :=
  let '(squash, harddeps) := st in
  match dget (build_targets td) dep.1 with
  | None => Ok st
  | Some fns =>
      depfn ← of_option IndexError (head fns);
      let deptid := depfn +s+ ":" +s+ replace dep.2 "_setscene" "" in
      if negb (dmem g deptid) then Raise Fatal
      else
        squash ← dict_add squash tid {[deptid]};
        Ok (dset squash deptid ∅, dset harddeps deptid ({[tid]} ∪ default ∅ (dget harddeps deptid)))
  end.

(** All of them; the stamps of the setscene variants are named on the way. *)
Definition hard_deps (gen : G) (g : graph) (squash : dict (gset string)) :
    res (dict (gset string) * dict (gset string) * dict (option string)) :=
  '(squash, harddeps, stamps) ← fold_res (λ st tid,
    let '(squash, harddeps, stamps) := st in
    '(mc, fn, taskname, taskfn) ← split_tid_mcfn tid;
    td ← of_option KeyError (dget taskData mc);
    e ← of_option KeyError (dget (taskentries td) (tid +s+ "_setscene"));
    f ← task_stamp dataCaches gen "_setscene" tid;
    '(squash, harddeps) ← fold_res (hard_dep g td tid) (squash, harddeps) (idepends e);
    Ok (squash, harddeps, dset stamps tid f)) (squash, [], []) (set_iter (setscene_tids cf));
  squash ← fold_res (λ squash kv,
    fold_res (λ squash dep, dict_add squash dep {[kv.1]}) squash (set_iter kv.2)) squash harddeps;
  Ok (squash, harddeps, stamps).

(** [sq_deps], the reverse of [sq_revdeps]. *)
Definition reverse_deps (revs : dict (gset string)) : res (dict (gset string)) :=
  fold_res (λ d kv, fold_res (λ d dep, dict_add d dep {[kv.1]}) d (set_iter kv.2))
    (List.map (λ kv, (kv.1, ∅)) revs) revs.

Definition build_scenequeue_data (e : env) : exec unit :=
  s ← get;
  let g := rq_graph s in
  b ← lift (collapse_graph g);
  let ends := list_to_set (dkeys (List.filter (λ kv : string * RunTaskEntry, bool_decide (revdeps kv.2 = ∅)) g)) in
  un ← find_unskippable (2 + List.length g) (ends ∪ cantskip s);
  _ ← modify (λ s, set_tasks_scenequeue_done (tasks_scenequeue_done s ∪ (un ∖ setscene_tids cf)) s);
  (* only setscene tasks may be left in the collapsed graph *)
  _ ← (if forallb (λ tid, bool_decide (tid ∈ setscene_tids cf) ||
                          bool_decide (default ∅ (dget (b_squash b) tid) = ∅)) (dkeys g)
       then mret tt else raise Fatal);
  let squash := List.filter (λ kv, bool_decide (kv.1 ∈ setscene_tids cf)) (b_squash b) in
  '(squash, harddeps, stamps) ← lift (hard_deps (rq_siggen s) g squash);
  rdeps ← lift (reverse_deps squash);
  _ ← on_sqdata (λ _, MkSQ rdeps squash harddeps stamps un ∅ (b_collated b)
        (list_to_set (List.map mc_from_tid (dkeys squash))) ∅ ∅ ∅ []);
  _ ← modify (λ s, set_sq_buildable
        (sq_buildable s ∪ list_to_set (dkeys (List.filter (λ kv, bool_decide (kv.2 = ∅)) squash))) s);
  update_scenequeue_data e (dkeys squash).
End execute.
