(* ===== verification/Execute.v ===== *)
(** * Running a run queue (bb/runqueue.py)

    [RunQueueExecute.__init__], [process_possible_migrations] and [execute],
    and the state machine of [RunQueue._execute_runqueue] around them: one call
    looks for a setscene task to run, then for an ordinary one, and says
    whether it wants to be called again at once. *)

From Stdlib Require Import Ascii String.
From S2P Require Import Prelude.
From S2P Require Import PyStr.
From S2P Require Import PyDict.
From S2P Require Import TaskIds.
From S2P Require Import Cache.
From S2P Require Import TaskData.
From S2P Require Import TaskGraph.
From S2P Require Import Stamps.
From S2P Require Import Sched.
From S2P Require Import Exec.

Section execute.
Context {G : Type} `{SigGen G} `{!SetOrder string}.
Context (dataCaches : dict CacheData) (taskData : dict TaskData) (policy : stamp_policy).
Context (number_threads : string → res (option string)) (cf : config).

Abbreviation exec := (M (rqe G)).

(** A call of the signature generator. *)
Definition on_siggen {A} (m : M G A) : exec A :=
  λ s, let '(g, r) := m (rq_siggen s) in (set_rq_siggen g s, r).

(** [self.rqdata.runtaskentries[tid] = ...] for an entry that is there. *)
Definition update_entry (tid : string) (f : RunTaskEntry → RunTaskEntry) : exec unit :=
  e ← entry_of tid; modify (λ s, set_rq_graph (dset (rq_graph s) tid (f e)) s).

(** ** Changed hashes *)

(** One new unified hash a worker reported: it waits while its task runs. *)
Definition queue_one (toprocess : gset string) (msg : string * string) : exec (gset string) :=
  let '(tid, unihash) := msg in
  s ← get;
  if bool_decide (tid ∈ runq_running s) && bool_decide (tid ∉ runq_complete s) then mret toprocess
  else
    l ← lift (remove_first msg (updated_taskhash_queue s));
    _ ← modify (set_updated_taskhash_queue l);
    e ← entry_of tid;
    if bool_decide (rt_unihash e = Some unihash) then mret toprocess
    else
      _ ← update_entry tid (λ e, set_unihash e (Some unihash));
      _ ← on_siggen (sg_set_unihash tid unihash);
      mret ({[tid]} ∪ toprocess).

Fixpoint fold_exec {A B} (f : A → B → exec A) (acc : A) (l : list B) : exec A :=
  match l with
  | [] => mret acc
  | x :: l => acc ← f acc x; fold_exec f acc l
  end.

(** The union of a field of the entries of [tids]. *)
Definition union_of (g : graph) (field : RunTaskEntry → gset string) (tids : list string) : res (gset string) :=
  fold_res (λ acc t, e ← of_option KeyError (dget g t); Ok (acc ∪ field e)) ∅ tids.

(** [while next: ...]: all tasks that depend on those of [next]. *)
Fixpoint dependees (g : graph) (fuel : nat) (next total : gset string) : res (gset string) :=
  match fuel with
  | O => Raise OutOfFuel
  | S fuel =>
      if bool_decide (next = ∅) then Ok total
      else
        let total := total ∪ next in
        new ← union_of g revdeps (set_iter next);
        dependees g fuel (new ∖ total) total
  end.

(** The tasks of [total] with no dependency in it. *)
Definition first_tasks (g : graph) (total : gset string) : res (gset string) :=
  fold_res (λ next p,
    e ← of_option KeyError (dget g p);
    Ok (if bool_decide (depends e = ∅) || bool_decide (depends e ## total) then {[p]} ∪ next else next))
    ∅ (set_iter total).

(** One task whose hashes are computed again; [p] is the variable left over
    from the loop before, whose dependencies the guard looks at.  The state is
    [(next, total, changed)]. *)
Definition rehash_one (p : string) (st : gset string * gset string * gset string) (tid : string) :
    exec (gset string * gset string * gset string) :=
  let '(next, total, changed) := st in
  ep ← entry_of p;
  e ← entry_of tid;
  if negb (bool_decide (depends ep = ∅)) && negb (bool_decide (depends e ## total)) then mret st
  else
    newhash ← on_siggen (sg_get_taskhash tid (depends e));
    newuni ← on_siggen (sg_get_unihash tid);
    s ← get;
    changed ←
      (if bool_decide (rt_unihash e = Some newuni) then mret changed
       else if bool_decide (tid ∈ scenequeue_covered s) || bool_decide (tid ∈ sq_live s) then
         _ ← on_siggen (sg_report_unihash_equiv tid newhash (rt_unihash e) newuni);
         mret changed
       else
         _ ← update_entry tid (λ e, set_unihash (set_hash e (Some newhash)) (Some newuni));
         mret ({[tid]} ∪ changed));
    if bool_decide (tid ∈ total) then
      let total := total ∖ {[tid]} in
      mret ((next ∪ revdeps e) ∩ total, total, changed)
    else raise KeyError.

Fixpoint rehash (p : string) (fuel : nat) (next total changed : gset string) : exec (gset string) :=
  match fuel with
  | O => raise OutOfFuel
  | S fuel =>
      if bool_decide (next = ∅) then mret changed
      else
        '(next, total, changed) ← fold_exec (rehash_one p) (∅, total, changed) (set_iter next);
        rehash p fuel next total changed
  end.

(** The hashes that follow from the reported ones; the tasks that changed. *)
Definition rehash_dependees (toprocess : gset string) : exec (gset string) :=
  s ← get;
  let g := rq_graph s in
  next ← lift (union_of g revdeps (set_iter toprocess));
  total ← lift (dependees g (2 + List.length g) next ∅);
  next ← lift (first_tasks g total);
  rehash (List.last (set_iter total) "") (2 + List.length g) next total ∅.

(** ** Setscene tasks that may run after all *)

(** The stamps, queues and sets a migrated task leaves. *)
Definition reset_scene (tid : string) (s : rqe G) : rqe G :=
  let s := set_sq_buildable (sq_buildable s ∖ {[tid]}) s in
  set_sq_running (sq_running s ∖ {[tid]}) s.
Definition forget_scene (tid : string) (s : rqe G) : rqe G :=
  let s := set_sqdata (set_outrightfail (outrightfail (sqdata s) ∖ {[tid]}) (sqdata s)) s in
  let s := set_scenequeue_notcovered (scenequeue_notcovered s ∖ {[tid]}) s in
  let s := set_scenequeue_covered (scenequeue_covered s ∖ {[tid]}) s in
  set_scenequeue_notneeded (scenequeue_notneeded s ∖ {[tid]}) s.
Definition forget_stamps (tid : string) (s : rqe G) : rqe G :=
  let s := set_stampcache (ddel (stampcache s) tid) s in
  set_build_stamps (ddel (build_stamps s) tid) s.

(** The covered tasks are not done any more.  [false]: one of them was skipped
    and would have to run, and the build is aborted. *)
Fixpoint undo_covered (tid : string) (deps : list string) : exec bool :=
  match deps with
  | [] => mret true
  | dep :: deps =>
      s ← get;
      if bool_decide (dep ∈ runq_complete s) && bool_decide (dep ∉ runq_tasksrun s) then
        _ ← modify (λ s, set_failed_tids (failed_tids s ++ [tid]) s);
        _ ← set_state RQCleanUp;
        mret false
      else
        _ ← (if bool_decide (dep ∉ runq_complete s) && bool_decide (dep ∈ tasks_scenequeue_done s) &&
                bool_decide (dep ∉ unskippable (sqdata s))
             then modify (λ s, set_tasks_scenequeue_done (tasks_scenequeue_done s ∖ {[dep]}) s) else mret tt);
        undo_covered tid deps
  end.

(** A setscene task whose hash changed; [Some (tid, harddepfail)] when it is
    to be looked at again, [None] when the whole update returns. *)
Definition migrate_one (tid : string) : exec (option (list (string * bool))) :=
  s ← get;
  if bool_decide (tid ∈ runq_running s) || bool_decide (tid ∈ sq_live s) then
    _ ← modify (λ s, set_pending_migrations (pending_migrations s ∖ {[tid]}) s);
    mret (Some [])
  else
    covered ← lift (of_option KeyError (dget (sq_covered_tasks (sqdata s)) tid));
    if existsb (λ dep, bool_decide (dep ∈ runq_running s) && bool_decide (dep ∉ runq_complete s)) (set_iter covered)
    then mret (Some [])
    else
      _ ← modify (λ s, set_pending_migrations (pending_migrations s ∖ {[tid]}) s);
      _ ← modify (λ s, set_tasks_scenequeue_done (tasks_scenequeue_done s ∖ {[tid]}) s);
      go ← undo_covered tid (set_iter covered);
      if negb go then mret None
      else
        _ ← modify (reset_scene tid);
        s ← get;
        let harddepfail := existsb (λ kv, bool_decide (tid ∈ kv.2) && bool_decide (kv.1 ∈ scenequeue_notcovered s))
                             (sq_harddeps (sqdata s)) in
        revs ← lift (of_option KeyError (dget (sq_revdeps (sqdata s)) tid));
        _ ← (if (negb harddepfail && bool_decide (revs ⊆ scenequeue_covered s ∪ scenequeue_notcovered s)) ||
                bool_decide (revs = ∅)
             then modify (λ s, set_sq_buildable ({[tid]} ∪ sq_buildable s) s) else mret tt);
        _ ← modify (forget_scene tid);
        f ← lift (task_stamp dataCaches (rq_siggen s) "_setscene" tid);
        _ ← on_sqdata (λ sq, set_sq_stamps (dset (sq_stamps sq) tid f) sq);
        _ ← modify (forget_stamps tid);
        mret (Some [(tid, harddepfail)]).

Fixpoint migrate (tids : list string) : exec (option (list (string * bool))) :=
  match tids with
  | [] => mret (Some [])
  | tid :: tids =>
      one ← migrate_one tid;
      match one with
      | None => mret None
      | Some one =>
          more ← migrate tids;
          mret (option_map (app one) more)
      end
  end.

Definition process_possible_migrations (e : env) : exec unit :=
  s ← get;
  toprocess ← fold_exec queue_one ∅ (updated_taskhash_queue s);
  changed ← rehash_dependees toprocess;
  _ ← (if bool_decide (changed = ∅) then mret tt else act NewTaskHashes);
  _ ← modify (λ s, set_pending_migrations (pending_migrations s ∪ (changed ∩ setscene_tids cf)) s);
  s ← get;
  update_tasks ← migrate (set_iter (pending_migrations s));
  match update_tasks with
  | None => mret tt
  | Some update_tasks =>
      _ ← (match update_tasks with
           | [] => mret tt
           | _ =>
               _ ← modify (set_sqdone false);
               update_scenequeue_data dataCaches policy cf e (List.map fst update_tasks)
           end);
      _ ← for_each update_tasks (λ '(tid, harddepfail),
            if (harddepfail : bool) then sq_task_failoutright cf tid else mret tt);
      if bool_decide (changed = ∅) && negb (nonempty update_tasks) then mret tt
      else modify (set_holdoff_need_update true)
  end.
(** ** Starting a setscene task *)

(** What the look through the setscene tasks ends in. *)
Inductive scene_choice : Type :=
  | SceneReturn
  | SceneRun (tid : string)
  | SceneNone.

(** A task that was put off behind one of equal hash: [false] when the loop
    goes on with the next task, else [true]; it fails when it is still not
    available ([SceneReturn]). *)
Definition undefer (e : env) (tid : string) : exec (option bool) :=
  s ← get;
  match dget (sq_deferred s) tid with
  | None => mret (Some true)
  | Some first =>
      if bool_decide (first ∉ runq_complete s) then mret (Some false)
      else
        _ ← modify (λ s, set_sq_deferred (ddel (sq_deferred s) tid) s);
        valid ← validate_hashes dataCaches cf e {[tid]};
        if bool_decide (valid = ∅) then
          _ ← sq_task_failoutright cf tid;
          mret None
        else
          s ← get;
          if bool_decide (tid ∈ outrightfail (sqdata s)) then
            _ ← on_sqdata (λ sq, set_outrightfail (outrightfail sq ∖ {[tid]}) sq);
            mret (Some true)
          else raise KeyError
  end.

(** One round of the loop over the sorted setscene tasks; [None] goes on. *)
Definition consider_scene (e : env) (tid : string) : exec (option scene_choice) :=
  s ← get;
  if bool_decide (tid ∉ sq_buildable s) || bool_decide (tid ∈ sq_running s) then mret None
  else
    stamp ← lift (of_option KeyError (dget (sq_stamps (sqdata s)) tid));
    if bool_decide (stamp ∈ List.map snd (build_stamps s)) then mret None
    else
      unneeded ←
        (if bool_decide (tid ∈ unskippable (sqdata s)) then mret false
         else
           revs ← lift (of_option KeyError (dget (sq_revdeps (sqdata s)) tid));
           if bool_decide (revs = ∅) || negb (bool_decide (revs ⊆ scenequeue_covered s)) then mret false
           else check_dependencies dataCaches cf e tid revs);
      if unneeded && bool_decide (tid ∉ target_tids cf) then
        _ ← sq_task_skip cf tid;
        _ ← modify (λ s, set_scenequeue_notneeded ({[tid]} ∪ scenequeue_notneeded s) s);
        _ ← modify (λ s, set_sq_deferred (ddel (sq_deferred s) tid) s);
        mret (Some SceneReturn)
      else
        (* the inner loop only looks: its [continue] is its own *)
        _ ← lift (of_option KeyError (dget (sq_covered_tasks (sqdata s)) tid));
        go ← undefer e tid;
        match go with
        | None => mret (Some SceneReturn)
        | Some false => mret None
        | Some true =>
            s ← get;
            if bool_decide (tid ∈ outrightfail (sqdata s)) then
              _ ← sq_task_failoutright cf tid;
              mret (Some SceneReturn)
            else mret (Some (SceneRun tid))
        end.

Fixpoint find_scene (e : env) (tids : list string) : exec scene_choice :=
  match tids with
  | [] => mret SceneNone
  | tid :: tids =>
      c ← consider_scene e tid;
      match c with Some c => mret c | None => find_scene e tids end
  end.

(** Hand a task to the worker of its configuration, or to the fakeroot one. *)
Definition send_task (setscene fakeroot : bool) (tid : string) : exec unit :=
  act (RunTask setscene fakeroot tid).

(** The stamp the task will write, so that no other task writes it too. *)
Definition hold_stamp (suffix tid : string) : exec unit :=
  s ← get;
  f ← lift (task_stamp dataCaches (rq_siggen s) suffix tid);
  _ ← modify (λ s, set_build_stamps (dset (build_stamps s) tid f) s);
  modify (λ s, set_build_stamps2 (build_stamps2 s ++ [f]) s).

(** Whether the task needs the fakeroot worker. *)
Definition needs_fakeroot (tid suffix : string) (never : bool) : res bool :=
  '(mc, fn, taskname, taskfn) ← split_tid_mcfn tid;
  c ← cache_of dataCaches mc;
  taskdep ← of_option KeyError (dget (task_deps c) taskfn);
  Ok (match task_flag taskdep "fakeroot" (taskname +s+ suffix) with Some _ => negb never | None => false end).

(** [start_fakeworker] when there is none yet; [false] is an OSError. *)
Definition ensure_fakeworker (e : env) (tid : string) : exec bool :=
  let mc := mc_from_tid tid in
  s ← get;
  if bool_decide (mc ∈ fakeworkers s) then mret true
  else if e_spawn e mc then
    _ ← modify (λ s, set_fakeworkers ({[mc]} ∪ fakeworkers s) s);
    mret true
  else mret false.

(** The setscene task that was found; the result is whether [execute] returns
    [True] here. *)
Definition start_scene (e : env) (task : string) : exec bool :=
  '(mc, fn, taskname, taskfn) ← lift (split_tid_mcfn task);
  current ← stamp_current dataCaches policy e task (Some taskname) true;
  if (current : bool) then _ ← sq_task_failoutright cf task; mret true
  else if cf_force cf && bool_decide (task ∈ target_tids cf) then _ ← sq_task_failoutright cf task; mret true
  else
    current ← stamp_current dataCaches policy e task (Some (taskname +s+ "_setscene")) false;
    if (current : bool) then _ ← sq_task_skip cf task; mret true
    else if cf_skipsetscene cf then _ ← sq_task_failoutright cf task; mret true
    else
      _ ← act (SceneStarted task);
      s ← get;
      _ ← lift (sq_build_taskdepdata dataCaches taskData (rq_graph s) task);
      _ ← entry_of task;
      fakeroot ← lift (needs_fakeroot task "_setscene" (cf_dry_run cf));
      spawned ← (if (fakeroot : bool) then ensure_fakeworker e task else mret true);
      if negb spawned then raise OSError
      else
        _ ← send_task true fakeroot task;
        _ ← hold_stamp "_setscene" task;
        _ ← modify (λ s, set_sq_running ({[task]} ∪ sq_running s) s);
        _ ← modify (λ s, set_sq_live ({[task]} ∪ sq_live s) s);
        _ ← on_sq_stats taskActive;
        s ← get;
        mret (can_start_task cf s).

(** The end of the setscene tasks, when there is nothing more to decide; the
    result is whether [execute] returns [True] here. *)
Definition setscene_completed : exec bool :=
  s ← get;
  if bool_decide (sq_live s = ∅) && negb (sqdone s) && negb (nonempty (sq_deferred s)) &&
     negb (nonempty (updated_taskhash_queue s)) && bool_decide (holdoff_tasks s = ∅)
  then
    err ← summarise_scenequeue_errors cf;
    if (err : bool) then _ ← set_state RQFailed; mret true
    else if cf_setsceneonly cf then _ ← set_state RQComplete; mret true
    else
      _ ← modify (set_sqdone true);
      if (total (stats s) =? 0)%Z then _ ← set_state RQComplete; mret true else mret false
  else mret false.

(** ** Starting an ordinary task *)

Definition view_of (s : rqe G) : rq_view :=
  RqView (runq_running s) (runq_complete s) (holdoff_tasks s) (tasks_covered s ∪ tasks_notcovered s)
    (List.map snd (build_stamps s)).

(** [self.sched.next()] *)
Definition sched_next : exec (option string) :=
  s ← get;
  if negb (can_start_task cf s) then mret None
  else
    '(sch, task) ← lift (next_buildable_task number_threads (rq_graph s) (view_of s) (sched s));
    _ ← modify (set_sched sch);
    mret task.

Definition is_noexec (tid : string) : res bool :=
  '(mc, fn, taskname, taskfn) ← split_tid_mcfn tid;
  c ← cache_of dataCaches mc;
  taskdep ← of_option KeyError (dget (task_deps c) taskfn);
  Ok (match task_flag taskdep "noexec" taskname with Some _ => true | None => false end).

(** Whether a task about to run should have been available instead. *)
Definition check_setscenewhitelist (e : env) (tid : string) : exec bool :=
  '(mc, fn, taskname, taskfn) ← lift (split_tid_mcfn tid);
  s ← get;
  if bool_decide (tid ∈ tasks_covered s) then mret false
  else
    current ← stamp_current dataCaches policy e tid (Some taskname) false;
    if (current : bool) then mret false
    else
      noexec ← lift (is_noexec tid);
      if (noexec : bool) then mret false
      else
        c ← lift (cache_of dataCaches mc);
        pn ← lift (of_option KeyError (dget (pkg_fn c) taskfn));
        if check_setscene_enforce_whitelist pn taskname (setscenewhitelist cf) then mret false
        else
          s ← get;
          _ ← lift (map_res (λ t, of_option KeyError (dget (rq_graph s) t)) (set_iter (scenequeue_notcovered s)));
          mret true.

(** A task with nothing to run. *)
Definition run_noexec (taskname task : string) : exec unit :=
  _ ← act (TaskStarted task true);
  _ ← modify (λ s, set_runq_running ({[task]} ∪ runq_running s) s);
  _ ← on_stats taskActive;
  _ ← (if cf_dry_run cf || setscene_enforce cf then mret tt else act (MakeStamp taskname task));
  task_complete task.

(** A task for a worker. *)
Definition run_task (e : env) (task : string) : exec bool :=
  _ ← act (TaskStarted task false);
  s ← get;
  _ ← lift (build_taskdepdata dataCaches (rq_graph s) task);
  fakeroot ← lift (needs_fakeroot task "" (cf_dry_run cf || setscene_enforce cf));
  spawned ← (if (fakeroot : bool) then ensure_fakeworker e task else mret true);
  if negb spawned then
    _ ← set_state RQFailed;
    _ ← on_stats taskFailed;
    mret true
  else
    _ ← send_task false fakeroot task;
    _ ← hold_stamp "" task;
    _ ← modify (λ s, set_runq_running ({[task]} ∪ runq_running s) s);
    _ ← on_stats taskActive;
    s ← get;
    mret (can_start_task cf s).

(** The task the scheduler chose; the result is whether [execute] returns
    [True] here. *)
Definition start_task (e : env) (task : string) : exec bool :=
  '(mc, fn, taskname, taskfn) ← lift (split_tid_mcfn task);
  unexpected ← (match setscenewhitelist cf with None => mret false | Some _ => check_setscenewhitelist e task end);
  if (unexpected : bool) then _ ← task_fail cf task None; mret true
  else
    s ← get;
    if bool_decide (task ∈ tasks_covered s) then _ ← task_skip task "covered"; mret true
    else
      current ← stamp_current dataCaches policy e task (Some taskname) false;
      if (current : bool) then
        _ ← task_skip task "existing";
        _ ← modify (λ s, set_runq_tasksrun ({[task]} ∪ runq_tasksrun s) s);
        mret true
      else
        noexec ← lift (is_noexec task);
        if (noexec : bool) then _ ← run_noexec taskname task; mret true
        else run_task e task.

(** The last part of [execute]: nothing was started, or no more can be. *)
Definition wait_or_end (e : env) : exec bool :=
  s ← get;
  if (0 <? active (stats s))%Z || (0 <? active (sq_stats s))%Z then
    _ ← read_workers dataCaches cf (e_inbox2 e);
    mret false
  else
    match sq_deferred s with
    | (key, tid) :: _ =>
        (* [tid] is the task that [key] waits for *)
        _ ← modify (λ s, set_sq_deferred (ddel (sq_deferred s) key) s);
        _ ← sq_task_failoutright cf tid;
        mret true
    | [] =>
        if nonempty (failed_tids s) then _ ← set_state RQFailed; mret true
        else
          err ← summarise_scenequeue_errors cf;
          s ← get;
          let unfinished := existsb (λ t,
            bool_decide (t ∉ runq_buildable s) || bool_decide (t ∉ runq_running s) ||
            bool_decide (t ∉ runq_complete s)) (dkeys (rq_graph s)) in
          _ ← set_state (if err || unfinished then RQFailed else RQComplete);
          mret true
    end.

(** [execute]: [true] asks to be called again, [false] stands for the workers'
    pipes, on which the caller waits first. *)
Definition execute (e : env) : exec bool :=
  _ ← read_workers dataCaches cf (e_inbox e);
  s ← get;
  _ ← (if nonempty (updated_taskhash_queue s) || negb (bool_decide (pending_migrations s = ∅))
       then process_possible_migrations e else mret tt);
  s ← get;
  choice ← (if negb (sqdone s) && can_start_task cf s then find_scene e (sorted_set (setscene_tids cf))
            else mret SceneNone);
  ret ← (match choice with
         | SceneReturn => mret true
         | SceneRun task => start_scene e task
         | SceneNone => mret false
         end);
  if (ret : bool) then mret true
  else
    _ ← update_holdofftasks cf;
    ret ← setscene_completed;
    if (ret : bool) then mret true
    else
      task ← (if cf_setsceneonly cf then mret None else sched_next);
      ret ← (match task with Some task => start_task e task | None => mret false end);
      if (ret : bool) then mret true else wait_or_end e.

(** ** The start and the state machine *)

(** The schedulers of the file; [BB_SCHEDULERS] can name more, in modules of
    their own. *)
Definition make_scheduler (gen : G) (name : string) (g : graph) (runq_buildable : gset string) : res scheduler :=
  if bool_decide (name = "basic") then init_basic dataCaches gen g runq_buildable
  else if bool_decide (name = "speed") then init_speed dataCaches gen g runq_buildable
  else if bool_decide (name = "completion") then init_completion dataCaches gen g runq_buildable
  else Raise Fatal.

(** The fields [RunQueueExecute.__init__] sets, but for [sqdata]. *)
Definition init_rqe (g : graph) (gen : G) (sch : scheduler) : rqe G :=
  MkRqe ∅ ∅ ∅ [] ∅ ∅ ∅ ∅ ∅ [] [] [] [] [] ∅ true false
    (init_stats (Z.of_nat (List.length g))) (init_stats (Z.of_nat (size (setscene_tids cf))))
    ∅ ∅ ∅ ∅ ∅ ∅
    ((list_to_set (target_tids cf) ∖ setscene_tids cf) ∩ list_to_set (dkeys g))
    sch init_sqdata g gen ∅ RQSceneInit [].

Definition new_execute (scheduler_name : string) (e : env) (g : graph) (gen : G) : res (rqe G) :=
  if (number_tasks cf <=? 0)%Z then Raise Fatal
  else
    sch ← make_scheduler gen scheduler_name g ∅;
    match build_scenequeue_data dataCaches taskData policy cf e (init_rqe g gen sch) with
    | (s, Ok _) => Ok s
    | (_, Raise x) => Raise x
    end.

(** The end of the [runQueueSceneInit] stage: without setscene tasks there is
    nothing to wait for. *)
Definition start_running : exec unit :=
  _ ← (if bool_decide (setscene_tids cf = ∅) then
         s ← get;
         _ ← for_each (rq_graph s) (λ kv,
           _ ← (if bool_decide (depends kv.2 = ∅) then setbuildable kv.1 else mret tt);
           modify (λ s, set_tasks_notcovered ({[kv.1]} ∪ tasks_notcovered s) s));
         modify (set_sqdone true)
       else mret tt);
  set_state RQRunning.

(** What a call of [_execute_runqueue] returns or raises once the queue is
    prepared. *)
Inductive rq_outcome : Type :=
  | RQLoop (retval : bool)
  | RQDone
  | RQTaskFailure (tids : list string).

Definition execute_runqueue (e : env) : exec rq_outcome :=
  s ← get;
  _ ← (if bool_decide (rq_state s = RQSceneInit) then start_running else mret tt);
  s ← get;
  retval ← (if bool_decide (rq_state s = RQRunning) then execute e else mret true);
  s ← get;
  retval ← (if bool_decide (rq_state s = RQCleanUp) then finish dataCaches cf e else mret retval);
  s ← get;
  if bool_decide (rq_state s = RQFailed) then mret (RQTaskFailure (failed_tids s))
  else if bool_decide (rq_state s = RQComplete) then mret RQDone
  else mret (RQLoop retval).

End execute.
