(* ===== verification/ExecFuel.v ===== *)
(** * The loops of the execution end (bb/runqueue.py)

    The loops of [RunQueueExecute] that the model bounds by fuel: walking the
    dependencies of a task, collapsing the graph to its setscene tasks, the
    setscene tasks that are done, changed hashes.  The fuel the model gives
    them is enough, so no run of the model stops short of the code. *)

From Stdlib Require Import Ascii String.
From S2P Require Import Prelude.
From S2P Require Import PyStr.
From S2P Require Import PyDict.
From S2P Require Import Runs.
From S2P Require Import TaskIds.
From S2P Require Import Cache.
From S2P Require Import TaskData.
From S2P Require Import TaskGraph.
From S2P Require Import Stamps.
From S2P Require Import Sched.
From S2P Require Import Exec.
From S2P Require Import Execute.

(** ** Lookups and names *)

Lemma split_tid_mcfn_fueled tid : fueled (split_tid_mcfn tid).
Proof. unfold split_tid_mcfn. fueled. Qed.
Lemma taskname_fueled tid : fueled (taskname_from_tid tid).
Proof. unfold taskname_from_tid. fueled. Qed.
Lemma cache_of_fueled dataCaches mc : fueled (cache_of dataCaches mc).
Proof. unfold cache_of. fueled. Qed.
Lemma remove_first_fueled {A} `{EqDecision A} (x : A) l : fueled (remove_first x l).
Proof. induction l; simpl; fueled. Qed.
Lemma map_res_fueled {A B} (f : A → res B) l : (∀ x, fueled (f x)) → fueled (map_res f l).
Proof. intros Hf. induction l; simpl; fueled. Qed.
Lemma py_int_fueled s : fueled (py_int s).
Proof. unfold py_int. fueled. Qed.

#[export] Hint Resolve split_tid_mcfn_fueled taskname_fueled cache_of_fueled remove_first_fueled
  py_int_fueled : fueled.

(** What the signature generator does raises no exception that is not Python's. *)
Record siggen_fueled (G : Type) `{SigGen G} : Prop := {
  stampfile_name_fueled : ∀ g a b c d, fueled (sg_stampfile (G := G) g a b c d);
  get_taskhash_fueled : ∀ t d g, fueled (sg_get_taskhash (G := G) t d g).2;
  get_unihash_fueled : ∀ t g, fueled (sg_get_unihash (G := G) t g).2;
  set_unihash_fueled : ∀ t h g, fueled (sg_set_unihash (G := G) t h g).2;
  report_fueled : ∀ t a b c g, fueled (sg_report_unihash_equiv (G := G) t a b c g).2
}.

#[export] Hint Resolve stampfile_name_fueled : fueled.

Section fuel.
Context {G : Type} `{SigGen G} `{!SetOrder string}.
Hypothesis Hsg : siggen_fueled G.
Context (dataCaches : dict CacheData) (taskData : dict TaskData) (policy : stamp_policy).

Lemma stampfile_fueled (gen : G) taskname d fn noextra : fueled (stampfile gen taskname d fn noextra).
Proof. unfold stampfile, stamp_internal. fueled. Qed.
#[local] Hint Resolve stampfile_fueled : fueled.
Lemma task_stamp_fueled (gen : G) suffix tid : fueled (task_stamp dataCaches gen suffix tid).
Proof. unfold task_stamp. fueled. Qed.
Lemma task_data_fueled tid : fueled (task_data dataCaches tid).
Proof. unfold task_data. fueled. Qed.
Lemma pending_hash_index_fueled g tid : fueled (pending_hash_index dataCaches g tid).
Proof. unfold pending_hash_index. fueled. Qed.
Lemma with_covered_fueled sq tids : fueled (with_covered sq tids).
Proof. unfold with_covered. fueled. Qed.
Lemma is_noexec_fueled tid : fueled (is_noexec dataCaches tid).
Proof. unfold is_noexec. fueled. Qed.
Lemma needs_fakeroot_fueled tid suffix b : fueled (needs_fakeroot dataCaches tid suffix b).
Proof. unfold needs_fakeroot. fueled. Qed.
Lemma union_of_fueled g field tids : fueled (union_of g field tids).
Proof. unfold union_of. fueled. Qed.
Lemma first_tasks_fueled g total : fueled (first_tasks g total).
Proof. unfold first_tasks. fueled. Qed.
Lemma make_dep_data_fueled g tid deps : fueled (make_dep_data dataCaches g tid deps).
Proof. unfold make_dep_data. fueled. Qed.
Lemma getsetscenedeps_fueled tid : fueled (getsetscenedeps taskData tid).
Proof. unfold getsetscenedeps. fueled. Qed.

(** ** Choosing a task *)

Lemma next_buildable_task_fueled number_threads g rq s :
  (∀ k, fueled (number_threads k)) → fueled (next_buildable_task number_threads g rq s).
Proof.
  intros Hn. assert (∀ a b c, fueled (over_limit a b c)) by (intros; unfold over_limit; fueled).
  assert (∀ a x, fueled (count_running number_threads a x)) by (intros [] ?; unfold count_running; fueled).
  assert (∀ p, fueled (make_rev_prio_map g p)) by (intros; unfold make_rev_prio_map; fueled).
  assert (∀ a b c d e f g, fueled (pick a b c d e f g)) by (intros; unfold pick; fueled).
  unfold next_buildable_task, pick_best, ready_prio_map. fueled.
Qed.

(** The task chosen is one of those that may be started. *)
Lemma pick_best_subset g rq s sb b s' t :
  pick_best g rq s sb b = Ok (s', t) →
  s_buildable s' = s_buildable s ∧ match t with Some t => t ∈ b | None => True end.
Proof.
  unfold pick_best. intros Hs. apply res_bind_Ok in Hs as (prios & _ & Hs).
  apply res_bind_Ok in Hs as (best & Hf & [= <- <-]). split; [done|].
  revert Hf. apply (fold_res_ind (λ best, match option_map fst best with Some t => t ∈ b | None => True end)); [done|].
  intros best0 x best1 Hx%elem_of_set_iter H0 Hp. unfold pick in Hp.
  apply res_bind_Ok in Hp as (tn & _ & Hp). apply res_bind_Ok in Hp as (over & _ & Hp).
  destruct over; [by simplify_eq|]. apply res_bind_Ok in Hp as (prio & _ & Hp).
  destruct (match best0 with None => _ | _ => _ end); [|by simplify_eq].
  apply res_bind_Ok in Hp as (st & _ & [= <-]). by destruct (bool_decide _).
Qed.

Lemma next_buildable_subset number_threads g rq s s' t :
  next_buildable_task number_threads g rq s = Ok (s', t) →
  s_buildable s' = s_buildable s ∖ rv_running rq ∧
  match t with
  | Some t => (t ∈ s_buildable s) ∧ (t ∉ rv_running rq) ∧ (t ∉ rv_holdoff rq) ∧ t ∈ rv_decided rq
  | None => True
  end.
Proof.
  assert (∀ t, t ∈ (s_buildable s ∖ rv_running rq ∖ rv_holdoff rq) ∩ rv_decided rq →
    (t ∈ s_buildable s) ∧ (t ∉ rv_running rq) ∧ (t ∉ rv_holdoff rq) ∧ t ∈ rv_decided rq) as Hb.
  { intros u. rewrite elem_of_intersection, !elem_of_difference. tauto. }
  unfold next_buildable_task. cbn [set_s_buildable s_buildable prio_map skip_maxthread s_stamps rev_prio_map].
  case_bool_decide as HE; [by intros [= <- <-]|]. intros Hs.
  apply res_bind_Ok in Hs as ([sm sb] & _ & Hs). apply res_bind_Ok in Hs as ([b stop] & Hp & Hs).
  assert ((b = ∅ ∨ b = (s_buildable s ∖ rv_running rq ∖ rv_holdoff rq) ∩ rv_decided rq) ∧
    ∀ u, stop = Some (Some u) → u ∈ (s_buildable s ∖ rv_running rq ∖ rv_holdoff rq) ∩ rv_decided rq) as [Hbb Hstop].
  { case_bool_decide; [|injection Hp as <- <-; split; [by right|done]].
    apply res_bind_Ok in Hp as (t1 & Ht1 & Hp). apply of_option_Ok in Ht1.
    apply res_bind_Ok in Hp as (tn & _ & Hp). apply res_bind_Ok in Hp as (over & _ & Hp).
    destruct over; [injection Hp as <- <-; split; [by left|done]|].
    apply res_bind_Ok in Hp as (st & _ & Hp).
    case_bool_decide; injection Hp as <- <-; (split; [by left|]); [intros u [= <-]|done].
    apply elem_of_set_iter, head_Some_elem_of. done. }
  destruct stop as [r|].
  - injection Hs as <- <-. split; [done|]. destruct r as [u|]; [|done]. by apply Hb, Hstop.
  - apply pick_best_subset in Hs as [H1 H2]. cbn in H1. split; [done|]. destruct t as [t|]; [|done].
    apply Hb. destruct Hbb as [->| ->]; [by apply elem_of_empty in H2|done].
Qed.
End fuel.

#[export] Hint Resolve stampfile_fueled task_stamp_fueled task_data_fueled pending_hash_index_fueled
  with_covered_fueled is_noexec_fueled needs_fakeroot_fueled union_of_fueled first_tasks_fueled
  make_dep_data_fueled getsetscenedeps_fueled next_buildable_task_fueled : fueled.

(** ** Sets of tasks that grow *)

Lemma dget_key (g : graph) t e : dget g t = Some e → t ∈ keys g.
Proof. intros He. apply elem_of_keys, elem_of_dkeys. by eexists. Qed.

(** What is left of a finite set when one more of its elements is done. *)
Lemma left_lt (K done done' : gset string) t :
  t ∈ K → t ∉ done → done ⊆ done' → t ∈ done' → size (K ∖ done') < size (K ∖ done).
Proof. intros. apply subset_size. set_solver. Qed.

Lemma left_le (K done done' : gset string) : done ⊆ done' → size (K ∖ done') ≤ size (K ∖ done).
Proof. intros. apply subseteq_size. set_solver. Qed.

Lemma strictly_more (s s' : gset string) : s ⊆ s' → s' ≠ s → ∃ x, x ∈ s' ∧ x ∉ s.
Proof.
  intros Hs Hne. destruct (decide (s' ∖ s = ∅)) as [Hemp|Hd].
  - destruct Hne. apply (anti_symm (⊆)); [|done]. intros x Hx. destruct (decide (x ∈ s)); [done|].
    destruct (not_elem_of_empty (C := gset string) x). rewrite <-Hemp. by apply elem_of_difference.
  - apply set_choose_L in Hd as [x Hx]. exists x. by apply elem_of_difference in Hx.
Qed.

Lemma elem_of_sorted_set t s : t ∈ sorted_set s ↔ t ∈ s.
Proof. unfold sorted_set. rewrite py_sorted_perm. apply elem_of_elements. Qed.

Section loops.
Context `{!SetOrder string}.

(** ** Setscene tasks that are done *)

Section scene.
Context (cf : config) (g : graph).

Lemma scene_done_step_fueled acc t : fueled (scene_done_step cf g acc t).
Proof. destruct acc. unfold scene_done_step. fueled. Qed.

Lemma scene_done_step_Ok done new t done' new' :
  scene_done_step cf g (done, new) t = Ok (done', new') →
  done' = {[t]} ∪ done ∧ t ∈ keys g ∧ ∀ x, x ∈ new' → x ∈ new ∨ x ∉ done'.
Proof.
  unfold scene_done_step. intros H. apply res_bind_Ok in H as (e & He & H).
  apply of_option_Ok in He. apply res_bind_Ok in H as (new1 & Hf & [= <- <-]).
  split; [done|]. split; [by eapply dget_key|].
  revert Hf. apply (fold_res_ind (λ n, ∀ x, x ∈ n → x ∈ new ∨ x ∉ {[t]} ∪ done)); [by left|].
  intros n d n' _ Hn. destruct (_ || _) eqn:Eb; [by intros [= <-]|].
  apply orb_false_iff in Eb as [_ Eb]. apply bool_decide_eq_false in Eb.
  intros Hs x Hx. apply res_bind_Ok in Hs as (e' & _ & Hs). case_bool_decide; simplify_eq; [|by apply Hn].
  apply elem_of_union in Hx as [->%elem_of_singleton|Hx]; [by right|by apply Hn].
Qed.

Lemma scene_done_fold l done new done' new' :
  fold_res (scene_done_step cf g) (done, new) l = Ok (done', new') →
  done' = list_to_set l ∪ done ∧ (∀ t, t ∈ l → t ∈ keys g) ∧ ∀ x, x ∈ new' → x ∈ new ∨ x ∉ done.
Proof.
  revert done new. induction l as [|t l IH]; intros done new H; simpl in H.
  { simplify_eq. split; [set_solver|]. split; [by intros ? ?%elem_of_nil|by left]. }
  apply res_bind_Ok in H as ([d n] & Hs & H). apply scene_done_step_Ok in Hs as (-> & Ht & Hn).
  apply IH in H as (-> & Hl & Hn'). split; [set_solver|]. split.
  - intros x [->|Hx]%elem_of_cons; [done|by apply Hl].
  - intros x Hx. destruct (Hn' x Hx) as [Hx'|Hx']; [|right; set_solver].
    destruct (Hn x Hx'); [by left|right; set_solver].
Qed.

(** Every second round at least marks a task. *)
Lemma scene_done_fueled fuel next done :
  2 * size (keys g ∖ done) + (if decide (next ⊆ done) then 2 else 1) ≤ fuel →
  fueled (scene_done cf g fuel next done).
Proof.
  revert next done. induction fuel as [|fuel IH]; intros next done Hf; simpl; [case_decide; lia|].
  destruct (decide (next = ∅)) as [Hn|Hn]; [by rewrite bool_decide_eq_true_2|].
  rewrite bool_decide_eq_false_2 by done.
  apply fueled_bind; [apply fueled_fold; intros; apply scene_done_step_fueled|].
  intros [done' new] E. apply scene_done_fold in E as (-> & Hk & Hnew).
  apply set_choose_L in Hn as [t Ht].
  destruct (decide (next ⊆ done)) as [Hsub|Hsub].
  - assert (list_to_set (sorted_set next) ∪ done = done) as ->.
    { apply set_eq. intros x. rewrite elem_of_union, elem_of_list_to_set, elem_of_sorted_set. set_solver. }
    destruct (decide (new = ∅)) as [->|Hne].
    + destruct fuel; [lia|]. simpl. by rewrite bool_decide_eq_true_2.
    + apply IH. rewrite decide_False; [lia|]. apply set_choose_L in Hne as [x Hx].
      destruct (Hnew x Hx) as [?%elem_of_empty|Hx']; [done|]. set_solver.
  - apply IH. assert (∃ x, x ∈ next ∧ x ∉ done) as (x & Hx & Hxd).
    { destruct (decide (set_Exists (λ x, x ∉ done) next)) as [(x & ? & ?)|Hno]; [eauto|].
      destruct Hsub. intros x Hx. destruct (decide (x ∈ done)); [done|]. destruct Hno. by exists x. }
    assert (size (keys g ∖ (list_to_set (sorted_set next) ∪ done)) < size (keys g ∖ done)).
    { apply (left_lt _ _ _ x); [apply Hk; by apply elem_of_sorted_set|done|set_solver|].
      apply elem_of_union_l, elem_of_list_to_set. by apply elem_of_sorted_set. }
    case_decide; lia.
Qed.

Lemma scene_done_enough next done : fueled (scene_done cf g (3 + 2 * List.length g) next done).
Proof.
  apply scene_done_fueled. pose proof (size_keys g).
  pose proof (subseteq_size (keys g ∖ done) (keys g) ltac:(set_solver)). case_decide; lia.
Qed.
End scene.

(** ** The dependencies a task is told of *)

Section dep_data.
Context (dataCaches : dict CacheData) (g : graph) (deps_of : string → res (gset string)).

Lemma collect_round next acc add acc' add' :
  fold_res (λ st tid,
    let '(acc, additional) := st in
    deps ← deps_of tid;
    d ← make_dep_data dataCaches g tid deps;
    let acc := dset acc tid d in
    Ok (acc, additional ++ List.filter (λ x, negb (dmem acc x)) (set_iter deps))) (acc, add) next = Ok (acc', add') →
  (∀ x, x ∈ dkeys acc' ↔ x ∈ next ∨ x ∈ dkeys acc) ∧ (∀ x, x ∈ next → x ∈ keys g) ∧
  ∀ x, x ∈ add' → x ∈ add ∨ x ∉ dkeys acc.
Proof.
  revert acc add. induction next as [|t l IH]; intros acc add Hf; simpl in Hf.
  { simplify_eq. split; [intros x; rewrite elem_of_nil; tauto|]. split; [by intros ? ?%elem_of_nil|by left]. }
  apply res_bind_Ok in Hf as ([acc1 add1] & Hs & Hf). apply res_bind_Ok in Hs as (deps & _ & Hs).
  apply res_bind_Ok in Hs as (d & Hd & [= <- <-]). apply IH in Hf as (Hk & Hg & Ha). split; [|split].
  - intros x. rewrite Hk, elem_of_dkeys_dset, elem_of_cons. tauto.
  - intros x [->|Hx]%elem_of_cons; [|by apply Hg].
    unfold make_dep_data in Hd. apply res_bind_Ok in Hd as ([[[mc fn] tn] tf] & _ & Hd).
    repeat apply res_bind_Ok in Hd as (? & ? & Hd). eapply dget_key. by eapply of_option_Ok.
  - intros x Hx. destruct (Ha x Hx) as [Hx'|Hx']; [|right; intros ?; apply Hx', elem_of_dkeys_dset; by right].
    apply elem_of_app in Hx' as [?|Hx']; [by left|]. right.
    apply list_elem_of_In, List.filter_In in Hx' as [_ Hx']. apply negb_true_iff, dmem_false in Hx'.
    intros ?. apply Hx', elem_of_dkeys_dset. by right.
Qed.

Lemma collect_dep_data_fueled fuel next acc :
  (∀ t, fueled (deps_of t)) →
  2 * size (keys g ∖ list_to_set (dkeys acc)) + (if decide (Forall (λ x, x ∈ dkeys acc) next) then 2 else 1) ≤ fuel →
  fueled (collect_dep_data dataCaches g deps_of fuel next acc).
Proof.
  intros Hd. revert next acc. induction fuel as [|fuel IH]; intros next acc Hf; simpl; [case_decide; lia|].
  destruct next as [|t l]; [done|]. set (next := t :: l) in *.
  apply fueled_bind; [apply fueled_fold; intros [a b] x _; fueled|].
  intros [acc' add] E. apply collect_round in E as (Hk & Hg & Ha). revert Hf.
  destruct (decide (Forall (λ x, x ∈ dkeys acc) next)) as [Hall|Hall]; intros Hf; rewrite Forall_forall in Hall.
  - destruct add as [|x add]; [by destruct fuel; [lia|]|]. apply IH.
    assert ((list_to_set (dkeys acc') : gset string) = list_to_set (dkeys acc)) as ->.
    { apply set_eq. intros z. rewrite !elem_of_list_to_set, Hk. split; [intros [?|?]; auto|by right]. }
    rewrite decide_False; [lia|]. rewrite Forall_forall. intros Hin. destruct (Ha x (list_elem_of_here _ _)) as [Hx|Hx].
    + by apply elem_of_nil in Hx.
    + specialize (Hin x (list_elem_of_here _ _)). apply Hk in Hin as [?|?]; [by apply Hx, Hall|done].
  - assert (∃ x, x ∈ next ∧ x ∉ dkeys acc) as (x & Hx & Hxa).
    { destruct (decide (Exists (λ x, x ∉ dkeys acc) next)) as [He|He].
      - apply Exists_exists in He as (x & ? & ?). eauto.
      - destruct Hall. intros x Hx. destruct (decide (x ∈ dkeys acc)); [done|].
        destruct He. apply Exists_exists. eauto. }
    assert (size (keys g ∖ list_to_set (dkeys acc')) < size (keys g ∖ list_to_set (dkeys acc))).
    { apply (left_lt _ _ _ x); [by apply Hg|by rewrite elem_of_list_to_set| |rewrite elem_of_list_to_set, Hk; by left].
      intros y. rewrite !elem_of_list_to_set, Hk. by right. }
    apply IH. case_decide; lia.
Qed.

Lemma collect_enough next :
  (∀ t, fueled (deps_of t)) →
  fueled (collect_dep_data dataCaches g deps_of (3 + 2 * List.length g) next []).
Proof.
  intros Hd. apply collect_dep_data_fueled; [done|]. pose proof (size_keys g).
  pose proof (subseteq_size (keys g ∖ list_to_set (dkeys (K:=string) (V:=dep_data) [])) (keys g) ltac:(set_solver)).
  case_decide; lia.
Qed.
End dep_data.

Lemma build_taskdepdata_fueled dataCaches g task : fueled (build_taskdepdata dataCaches g task).
Proof. unfold build_taskdepdata. apply fueled_bind; [fueled|]. intros. apply collect_enough. intros. fueled. Qed.

Lemma sq_build_taskdepdata_fueled dataCaches taskData g task :
  fueled (sq_build_taskdepdata dataCaches taskData g task).
Proof.
  unfold sq_build_taskdepdata. apply fueled_bind; [fueled|]. intros. apply collect_enough. intros. fueled.
Qed.

(** ** Dependees *)

Lemma union_of_Ok g field l s :
  union_of g field l = Ok s → ∀ t, t ∈ l → t ∈ keys g.
Proof.
  unfold union_of. generalize (∅ : gset string). induction l as [|x l IH]; intros acc Hf; simpl in Hf.
  { by intros ? ?%elem_of_nil. }
  apply res_bind_Ok in Hf as (a & Hs & Hf). apply res_bind_Ok in Hs as (e & He & _). apply of_option_Ok in He.
  intros t [->|Ht]%elem_of_cons; [by eapply dget_key|by eapply IH].
Qed.

Lemma dependees_fueled g fuel next total :
  next ## total → size (keys g ∖ total) + 2 ≤ fuel → fueled (dependees g fuel next total).
Proof.
  revert next total. induction fuel as [|fuel IH]; intros next total Hd Hf; simpl; [lia|].
  destruct (decide (next = ∅)) as [Hn|Hn]; [by rewrite bool_decide_eq_true_2|].
  rewrite bool_decide_eq_false_2 by done. apply fueled_bind; [fueled|]. intros new E.
  apply set_choose_L in Hn as [t Ht].
  assert (size (keys g ∖ (total ∪ next)) < size (keys g ∖ total)).
  { apply (left_lt _ _ _ t); [|set_solver..]. apply (union_of_Ok _ _ _ _ E). by apply elem_of_set_iter. }
  apply IH; [set_solver|lia].
Qed.

Lemma dependees_keys g fuel next total total' :
  dependees g fuel next total = Ok total' → total ⊆ keys g → total' ⊆ keys g.
Proof.
  revert next total. induction fuel as [|fuel IH]; intros next total Hf Ht; simpl in Hf; [done|].
  case_bool_decide; [by simplify_eq|]. apply res_bind_Ok in Hf as (new & E & Hf).
  apply IH in Hf; [done|]. intros x [Hx|Hx]%elem_of_union; [by apply Ht|].
  apply (union_of_Ok _ _ _ _ E). by apply elem_of_set_iter.
Qed.
End loops.

(** ** Stamps and the collapsed graph *)

Section ranked.
Context {G : Type} `{SigGen G} `{!SetOrder string}.
Hypothesis Hsg : siggen_fueled G.
Context (dataCaches : dict CacheData) (taskData : dict TaskData) (policy : stamp_policy) (cf : config).
Context (g : graph) (rank : string → nat).
Hypothesis Hrank : ∀ t d, dep g t d → rank d < rank t.
Hypothesis Hbound : ∀ t, t ∈ keys g → rank t < List.length g.

Lemma stamp_deps_fueled gen mtime b wl fn t1 r visit l cache :
  (∀ d c, d ∈ l → fueled (visit d c)) → fueled (stamp_deps dataCaches gen mtime b wl fn t1 r visit l cache).
Proof.
  revert cache. induction l as [|d l IH]; intros cache Hv; simpl; [done|].
  assert (∀ c, fueled (stamp_deps dataCaches gen mtime b wl fn t1 r visit l c)) as Hl.
  { intros c. apply IH. intros. apply Hv. by apply list_elem_of_further. }
  pose proof (λ c, Hv d c (list_elem_of_here d l)) as Hv'. fueled.
Qed.

Lemma check_stamp_task_fueled gen mtime fuel t tn r cache :
  0 < fuel → (t ∈ keys g → rank t < fuel) → fueled (check_stamp_task dataCaches policy gen mtime g fuel t tn r cache).
Proof.
  revert t tn r cache. induction fuel as [|fuel IH]; intros t tn r cache H0 Hf; [lia|]. cbn [check_stamp_task].
  fueled. apply stamp_deps_fueled. intros d c Hd. apply elem_of_set_iter in Hd.
  match goal with He : of_option KeyError (dget g t) = Ok ?e |- _ => apply of_option_Ok in He; rename He into Het end.
  pose proof (dget_key _ _ _ Het) as Ht. apply Hf in Ht.
  assert (dep g t d) as Hdep by (unfold dep, deps_of; by rewrite Het). apply Hrank in Hdep.
  apply IH; [lia|]. intros. lia.
Qed.

Lemma check_stamp_fueled gen mtime t tn r cache :
  fueled (check_stamp dataCaches policy gen mtime g t tn r cache).
Proof. apply check_stamp_task_fueled; [lia|]. intros Ht%Hbound. lia. Qed.

(** A point of the next round is below one of this round. *)
Lemma endpoint_dep_keys point task tasks st dep b n :
  endpoint_dep cf point task tasks st dep = Ok (b, n) → ∀ x, x ∈ dkeys n → x = dep ∨ x ∈ dkeys st.2.
Proof.
  unfold endpoint_dep. destruct st as [b0 n0]. intros Hs. repeat apply res_bind_Ok in Hs as (? & _ & Hs).
  injection Hs as _ <-. intros y. destruct (_ && _); [|by right]. rewrite elem_of_dkeys_dset. auto.
Qed.

Lemma process_endpoint_keys st kv b n :
  process_endpoint cf g st kv = Ok (b, n) → ∀ x, x ∈ dkeys n → x ∈ dkeys st.2 ∨ dep g kv.1 x ∧ kv.1 ∈ keys g.
Proof.
  unfold process_endpoint. destruct st as [b0 n0]. destruct kv as [point task]. intros Hs.
  apply res_bind_Ok in Hs as (sq & _ & Hs). destruct (bool_decide _); [simplify_eq; by left|].
  apply res_bind_Ok in Hs as (col & _ & Hs). apply res_bind_Ok in Hs as (e & He & Hs). apply of_option_Ok in He.
  revert Hs. simpl. assert (∀ l st, (∀ x, x ∈ l → dep g point x) →
    fold_res (endpoint_dep cf point task (task ∪ sq)) st l = Ok (b, n) →
    ∀ x, x ∈ dkeys n → x ∈ dkeys st.2 ∨ dep g point x ∧ point ∈ keys g) as Hfold.
  { induction l as [|d l IH]; intros st Hl Hf x Hx; simpl in Hf; [simplify_eq; by left|].
    apply res_bind_Ok in Hf as ([b1 n1] & Hs & Hf).
    destruct (IH _ (λ y Hy, Hl y (list_elem_of_further _ _ _ Hy)) Hf x Hx) as [Hx'|Hx']; [|by right].
    destruct (endpoint_dep_keys _ _ _ _ _ _ _ Hs x Hx') as [->|?]; [|by left].
    right. split; [apply Hl, list_elem_of_here|by eapply dget_key]. }
  intros Hf. refine (Hfold _ _ _ Hf). intros x Hx%elem_of_set_iter. unfold dep, deps_of. by rewrite He.
Qed.

Lemma process_round_keys l st b n :
  fold_res (process_endpoint cf g) st l = Ok (b, n) →
  ∀ x, x ∈ dkeys n → x ∈ dkeys st.2 ∨ ∃ p, p ∈ l.*1 ∧ dep g p x ∧ p ∈ keys g.
Proof.
  revert st. induction l as [|kv l IH]; intros st Hf x Hx; simpl in Hf; [simplify_eq; by left|].
  apply res_bind_Ok in Hf as ([b1 n1] & Hs & Hf). destruct (IH _ Hf x Hx) as [Hx'|(p & Hp & Hd)].
  - destruct (process_endpoint_keys _ _ _ _ Hs x Hx') as [?|[? ?]]; [by left|]. right. exists kv.1.
    split; [simpl; apply list_elem_of_here|done].
  - right. exists p. split; [simpl; by apply list_elem_of_further|done].
Qed.

Lemma process_endpoints_fueled fuel b endpoints :
  0 < fuel → (∀ x, x ∈ dkeys endpoints → x ∈ keys g → rank x + 1 < fuel) →
  fueled (process_endpoints cf g fuel b endpoints).
Proof.
  revert b endpoints. induction fuel as [|fuel IH]; intros b endpoints H0 Hf; simpl; [lia|].
  apply fueled_bind.
  { apply fueled_fold. intros [b0 n0] [p t] _. unfold process_endpoint.
    fueled; unfold dict_add; fueled. destruct a. unfold endpoint_dep, dict_drop, dict_add. fueled. }
  intros [b' n] E. destruct n as [|[x v] n]; [done|].
  assert (∀ y, y ∈ dkeys ((x, v) :: n) → ∃ p, p ∈ dkeys endpoints ∧ dep g p y ∧ p ∈ keys g) as Hn.
  { intros y Hy. by destruct (process_round_keys _ _ _ _ E y Hy) as [?%elem_of_nil|?]. }
  apply IH.
  - destruct (Hn x (list_elem_of_here _ _)) as (p & Hp & Hd & Hk). apply Hf in Hp; [|done]. lia.
  - intros y Hy Hyk. destruct (Hn y Hy) as (p & Hp & Hd & Hk). apply Hrank in Hd. apply Hf in Hp; [|done]. lia.
Qed.

Lemma collapse_graph_fueled : fueled (collapse_graph cf g).
Proof.
  unfold collapse_graph. apply fueled_bind.
  { apply fueled_fold. intros [b0 n0] t _. fueled. unfold scene_endpoint, dict_drop. fueled. }
  intros [b n] _. apply process_endpoints_fueled; [lia|]. intros x _ Hx%Hbound. lia.
Qed.
End ranked.

Lemma reverse_deps_fueled `{!SetOrder string} revs : fueled (reverse_deps revs).
Proof. unfold reverse_deps. fueled. Qed.

Lemma hard_deps_fueled {G} `{SigGen G} `{!SetOrder string} dataCaches taskData cf (gen : G) g squash :
  siggen_fueled G → fueled (hard_deps dataCaches taskData cf gen g squash).
Proof. intros Hsg. unfold hard_deps. fueled. all: unfold hard_dep, dict_add; fueled. Qed.

#[export] Hint Resolve build_taskdepdata_fueled sq_build_taskdepdata_fueled reverse_deps_fueled
  hard_deps_fueled : fueled.
