(* ===== verification/SceneQueue.v ===== *)
(** * The setscene queue (bb/runqueue.py)

    What the queue of setscene tasks computes: the tasks that cannot be
    skipped, the tasks that are decided once a setscene task is, and, from
    those, which tasks are covered and which must wait. *)

From Stdlib Require Import Ascii String.
From S2P Require Import Prelude.
From S2P Require Import PyStr.
From S2P Require Import PyDict.
From S2P Require Import Runs.
From S2P Require Import TaskIds.
From S2P Require Import Cache.
From S2P Require Import TaskData.
From S2P Require Import TaskGraph.
From S2P Require Import Stamps.
From S2P Require Import Sched.
From S2P Require Import Exec.
From S2P Require Import Execute.
From S2P Require Import ExecFuel.

Section scene.
Context {G : Type} `{!SetOrder string} (cf : config).
Implicit Types (s : rqe G).

(** ** Unskippable tasks *)

(** [t] depends on [d] and is no setscene task, so it has to be built. *)
Definition needs (g : graph) (t d : string) : Prop := (t ∉ setscene_tids cf) ∧ dep g t d.

(** One round: what the tasks so far need. *)
Definition needed (g : graph) (l : list string) (un : gset string) : gset string :=
  foldl (λ un tid, un ∪ deps_of g tid) un l.

Lemma elem_of_needed g l un t : t ∈ needed g l un ↔ t ∈ un ∨ ∃ x, x ∈ l ∧ dep g x t.
Proof.
  unfold needed. revert un. induction l as [|y l IH]; intros un; simpl.
  { split; [by left|]. intros [?|(x & ?%elem_of_nil & _)]; done. }
  rewrite IH, elem_of_union. split.
  - intros [[?|?]|(x & ? & ?)]; [by left|right; exists y; split; [apply list_elem_of_here|done]|].
    right. exists x. split; [by apply list_elem_of_further|done].
  - intros [?|(x & [->|?]%elem_of_cons & ?)]; [auto|auto|]. right. eauto.
Qed.

Lemma setbuildable_graph s t : ∃ s', setbuildable t s = (s', Ok tt) ∧ rq_graph s' = rq_graph s.
Proof. eexists. split; [reflexivity|done]. Qed.

Lemma visit_graph s l :
  (∀ t, t ∈ l → t ∈ keys (rq_graph s)) →
  ∃ s', for_each l (λ tid, e ← entry_of tid; if bool_decide (depends e = ∅) then setbuildable tid else mret tt) s
          = (s', Ok tt) ∧ rq_graph s' = rq_graph s.
Proof.
  revert s. induction l as [|t l IH]; intros s Hl; cbn [for_each]; [by eexists|].
  assert (t ∈ keys (rq_graph s)) as Ht by apply Hl, list_elem_of_here.
  apply elem_of_keys, elem_of_dkeys in Ht as [e He].
  assert (∃ s1, (e ← entry_of t; if bool_decide (depends e = ∅) then setbuildable t else mret tt) s = (s1, Ok tt) ∧
    rq_graph s1 = rq_graph s) as (s1 & E1 & G1).
  { unfold entry_of. rewrite M_bind_eq, get_bind. unfold lift, of_option. rewrite He.
    destruct (bool_decide _); [apply setbuildable_graph|by eexists]. }
  rewrite M_bind_eq, E1. destruct (IH s1) as (s2 & E2 & G2); [intros; rewrite G1; by apply Hl, list_elem_of_further|].
  exists s2. split; [done|congruence].
Qed.

Lemma find_unskippable_ok fuel s un :
  graph_closed (rq_graph s) → (∀ t, t ∈ un → t ∉ setscene_tids cf → t ∈ keys (rq_graph s)) →
  size (keys (rq_graph s) ∖ un) + 1 ≤ fuel →
  ∃ s' un', find_unskippable cf fuel un s = (s', Ok un') ∧
    ∀ t, t ∈ un' ↔ ∃ r, r ∈ un ∧ rtc (needs (rq_graph s)) r t.
Proof.
  revert s un. induction fuel as [|fuel IH]; intros s un Hcl Hk Hf; [lia|]. cbn [find_unskippable].
  rewrite get_bind. set (visited := List.filter _ _).
  assert (∀ x, x ∈ visited ↔ (x ∈ un) ∧ x ∉ setscene_tids cf) as Hv.
  { intros x. unfold visited. rewrite list_elem_of_In, List.filter_In, <-in_rev, <-list_elem_of_In, elem_of_sorted_set.
    by rewrite bool_decide_eq_true. }
  destruct (visit_graph s visited) as (s1 & E1 & G1); [by intros t [? ?]%Hv; apply Hk|].
  rewrite M_bind_eq, E1. change (foldl _ un visited) with (needed (rq_graph s) visited un).
  set (un1 := needed _ _ _).
  assert (∀ t, t ∈ un1 ↔ t ∈ un ∨ ∃ x, x ∈ un ∧ needs (rq_graph s) x t) as H1.
  { intros t. unfold un1. rewrite elem_of_needed. apply or_iff_compat_l. split.
    - intros (x & [? ?]%Hv & ?). by exists x.
    - intros (x & ? & ? & ?). exists x. by rewrite Hv. }
  destruct (decide (un1 = un)) as [Eun|Eun].
  { rewrite bool_decide_eq_true_2 by done. exists s1, un1. split; [done|]. intros t. rewrite Eun. split.
    - intros Ht. by exists t.
    - intros (r & Hr & Hrt). induction Hrt as [|x y z Hxy _ IHr]; [done|]. apply IHr.
      rewrite <-Eun. apply H1. right. by exists x. }
  rewrite bool_decide_eq_false_2 by done.
  assert (un ⊆ un1) as Hsub by (intros t Ht; apply H1; by left).
  destruct (strictly_more un un1 Hsub Eun) as (x & Hx & Hxn).
  assert (x ∈ keys (rq_graph s)) as Hxk.
  { apply H1 in Hx as [?|(y & _ & _ & Hd)]; [done|]. by eapply Hcl. }
  pose proof (left_lt _ _ _ x Hxk Hxn Hsub Hx).
  destruct (IH s1 un1) as (s2 & un2 & E2 & H2); rewrite ?G1; [done| |lia|].
  { intros t Ht Hts. apply H1 in Ht as [?|(y & _ & _ & Hd)]; [by apply Hk|by eapply Hcl]. }
  exists s2, un2. split; [done|]. intros t. rewrite H2, G1. split.
  - intros (r & Hr & Hrt). apply H1 in Hr as [?|(y & Hy & Hyr)]; [by exists r|].
    exists y. split; [done|]. by eapply rtc_l.
  - intros (r & Hr & Hrt). exists r. split; [by apply Hsub|done].
Qed.

(** C29: the search for unskippable tasks ends and yields exactly the
    tasks that the given ones (the ends of the graph and the targets) need:
    those reached by following dependencies, not past a setscene task. *)
Theorem find_unskippable_correct s un :
  graph_closed (rq_graph s) → (∀ t, t ∈ un → t ∈ keys (rq_graph s)) →
  ∃ s' un', find_unskippable cf (2 + List.length (rq_graph s)) un s = (s', Ok un') ∧
    ∀ t, t ∈ un' ↔ ∃ r, r ∈ un ∧ rtc (needs (rq_graph s)) r t.
Proof.
  intros Hcl Hk. apply find_unskippable_ok; [done|by intros ? ? _; apply Hk|].
  pose proof (left_le (keys (rq_graph s)) ∅ un (empty_subseteq _)) as Hle. rewrite difference_empty_L in Hle.
  pose proof (size_keys (rq_graph s)). lia.
Qed.

(** ** Tasks that are decided *)

(** [t] is the setscene task [c] or one of the tasks that [c] covers. *)
Definition covers (sq : SQData) (c t : string) : Prop :=
  t = c ∨ t ∈ default ∅ (dget (sq_covered_tasks sq) c).

Lemma with_covered_ok sq tids :
  (∀ c, c ∈ tids → c ∈ dkeys (sq_covered_tasks sq)) →
  ∃ r, with_covered sq tids = Ok r ∧ ∀ t, t ∈ r ↔ ∃ c, c ∈ tids ∧ covers sq c t.
Proof.
  intros Hk. unfold with_covered.
  rewrite (fold_res_pure _ (λ acc tid, acc ∪ default ∅ (dget (sq_covered_tasks sq) tid))).
  2: { intros acc t Ht%elem_of_set_iter%Hk. apply elem_of_dkeys in Ht as [v Hv]. by rewrite Hv. }
  eexists. split; [done|]. intros t.
  assert (∀ l acc, t ∈ foldl (λ acc tid, acc ∪ default ∅ (dget (sq_covered_tasks sq) tid)) acc l ↔
    t ∈ acc ∨ ∃ c, c ∈ l ∧ t ∈ default ∅ (dget (sq_covered_tasks sq) c)) as Hl.
  { induction l as [|x l IH]; intros acc; simpl.
    - split; [by left|]. intros [?|(c & ?%elem_of_nil & _)]; done.
    - rewrite IH, elem_of_union. split.
      + intros [[?|?]|(c & ? & ?)]; [by left|right; exists x; split; [apply list_elem_of_here|done]|].
        right. exists c. split; [by apply list_elem_of_further|done].
      + intros [?|(c & [->|?]%elem_of_cons & ?)]; [auto|auto|]. right. eauto. }
  rewrite Hl. unfold covers. split.
  - intros [?|(c & Hc%elem_of_set_iter & ?)]; [exists t; auto|exists c; auto].
  - intros (c & Hc & [->|?]); [by left|]. right. exists c. by rewrite elem_of_set_iter.
Qed.

(** The fields the update of the held tasks does not change before its end. *)
Definition same_decisions s s' : Prop :=
  scenequeue_covered s' = scenequeue_covered s ∧ scenequeue_notcovered s' = scenequeue_notcovered s ∧
  sqdata s' = sqdata s ∧ runq_complete s' = runq_complete s ∧ rq_graph s' = rq_graph s.

(** A decided task whose dependencies are complete becomes buildable. *)
Lemma make_buildable s l :
  (∀ t, t ∈ l → t ∈ keys (rq_graph s)) →
  ∃ s', for_each l (λ tid, e ← entry_of tid; s ← get;
          if bool_decide (depends e ⊆ runq_complete s) then setbuildable tid else mret tt) s = (s', Ok tt) ∧
    same_decisions s s' ∧
    ∀ t, t ∈ runq_buildable s' ↔ t ∈ runq_buildable s ∨ (t ∈ l ∧ deps_of (rq_graph s) t ⊆ runq_complete s).
Proof.
  revert s. induction l as [|t l IH]; intros s Hl; cbn [for_each].
  { exists s. split; [done|]. split; [done|]. intros t. rewrite elem_of_nil. tauto. }
  assert (t ∈ keys (rq_graph s)) as Ht by apply Hl, list_elem_of_here.
  apply elem_of_keys, elem_of_dkeys in Ht as [e He].
  assert (deps_of (rq_graph s) t = depends e) as Hd by (unfold deps_of; by rewrite He).
  assert (∃ s1, (e ← entry_of t; s ← get;
          if bool_decide (depends e ⊆ runq_complete s) then setbuildable t else mret tt) s = (s1, Ok tt) ∧
    same_decisions s s1 ∧ ∀ u, u ∈ runq_buildable s1 ↔ u ∈ runq_buildable s ∨ (u = t ∧ depends e ⊆ runq_complete s))
    as (s1 & E1 & S1 & B1).
  { unfold entry_of. rewrite M_bind_eq, get_bind. unfold lift, of_option. rewrite He. rewrite get_bind.
    case_bool_decide as Hsub.
    - eexists. split; [reflexivity|]. split; [done|]. intros u. simpl. set_solver.
    - exists s. split; [done|]. split; [done|]. intros u. tauto. }
  rewrite M_bind_eq, E1. destruct S1 as (C1 & C2 & C3 & C4 & C5).
  destruct (IH s1) as (s2 & E2 & (D1 & D2 & D3 & D4 & D5) & B2).
  { intros; rewrite C5; by apply Hl, list_elem_of_further. }
  exists s2. split; [done|]. split; [repeat split; congruence|].
  intros u. rewrite B2, B1, C4, C5, elem_of_cons. split.
  - intros [[?|[-> ?]]|[? ?]]; rewrite ?Hd; auto.
  - intros [?|[[->|?] ?]]; rewrite <-?Hd; auto.
Qed.

(** The tasks of [tids] with what they cover that is not complete. *)
Lemma held_ok sq (complete : gset string) l (acc : gset string) :
  (∀ c, c ∈ l → c ∈ dkeys (sq_covered_tasks sq)) →
  ∃ r, fold_res (λ acc tid,
      cov ← of_option KeyError (dget (sq_covered_tasks sq) tid); Ok (acc ∪ (cov ∖ complete))) acc l = Ok r ∧
    ∀ t, t ∈ r ↔ t ∈ acc ∨ ((t ∉ complete) ∧ ∃ c, c ∈ l ∧ t ∈ default ∅ (dget (sq_covered_tasks sq) c)).
Proof.
  revert acc. induction l as [|x l IH]; intros acc Hk; cbn [fold_res].
  { exists acc. split; [done|]. intros t. split; [by left|]. intros [?|(_ & c & ?%elem_of_nil & _)]; done. }
  assert (x ∈ dkeys (sq_covered_tasks sq)) as Hx by apply Hk, list_elem_of_here.
  apply elem_of_dkeys in Hx as [v Hv]. rewrite Hv. cbn [of_option mbind res_bind].
  destruct (IH (acc ∪ (v ∖ complete))) as (r & E & Hr); [intros; by apply Hk, list_elem_of_further|].
  exists r. split; [done|]. intros t. rewrite Hr, elem_of_union, elem_of_difference. split.
  - intros [[?|[? ?]]|(? & c & ? & ?)]; [by left|right|right].
    + split; [done|]. exists x. rewrite Hv. split; [apply list_elem_of_here|done].
    + split; [done|]. exists c. split; [by apply list_elem_of_further|done].
  - intros [?|(? & c & [->|?]%elem_of_cons & Hc)]; [auto| |right; eauto].
    rewrite Hv in Hc. auto.
Qed.

(** A setscene task that is neither covered nor not. *)
Definition undecided s (u : string) : Prop :=
  u ∈ setscene_tids cf ∧ (u ∉ scenequeue_covered s) ∧ u ∉ scenequeue_notcovered s.

(** C27: when the covered tasks are worked out anew, no task is both
    covered and not covered; a target that is no setscene task is never
    covered; every covered task is, or is covered by, a setscene task that
    succeeded; the tasks that become buildable are exactly those so decided
    whose dependencies are all complete; and a task is held back exactly when
    it is an undecided setscene task or an incomplete task covered by one. *)
Theorem update_holdofftasks_correct s :
  holdoff_need_update s = true →
  (∀ c, c ∈ setscene_tids cf ∪ scenequeue_covered s ∪ scenequeue_notcovered s → c ∈ dkeys (sq_covered_tasks (sqdata s))) →
  tasks_scenequeue_done s ⊆ keys (rq_graph s) →
  ∃ s', update_holdofftasks cf s = (s', Ok tt) ∧ holdoff_need_update s' = false ∧
    (∀ t, t ∈ tasks_covered s' ↔
       t ∈ tasks_scenequeue_done s ∧ (∃ c, c ∈ scenequeue_covered s ∧ covers (sqdata s) c t) ∧ t ∉ tasks_notcovered s') ∧
    (∀ t, t ∈ tasks_notcovered s' ↔
       t ∈ tasks_scenequeue_done s ∧
       (t ∈ cantskip s ∨ (t ∈ unskippable (sqdata s) ∧ t ∉ setscene_tids cf) ∨
        ∃ c, c ∈ scenequeue_notcovered s ∧ covers (sqdata s) c t)) ∧
    (∀ t, t ∈ runq_buildable s' ↔
       t ∈ runq_buildable s ∨
       (t ∈ tasks_covered s' ∪ tasks_notcovered s' ∧ deps_of (rq_graph s) t ⊆ runq_complete s)) ∧
    (∀ t, t ∈ holdoff_tasks s' ↔
       undecided s t ∨ ((t ∉ runq_complete s) ∧ ∃ u, undecided s u ∧ covers (sqdata s) u t)).
Proof.
  intros Hneed Hk Hdone. unfold update_holdofftasks. rewrite get_bind, Hneed. cbn [negb].
  destruct (with_covered_ok (sqdata s) (scenequeue_notcovered s)) as (nc & En & Hn); [set_solver|].
  destruct (with_covered_ok (sqdata s) (scenequeue_covered s)) as (cov & Ec & Hc); [set_solver|].
  rewrite lift_bind, En, lift_bind, Ec. cbv zeta.
  set (notcovered := (nc ∪ _ ∪ _) ∩ _). set (covered := (cov ∖ notcovered) ∩ _).
  destruct (make_buildable s (set_iter (notcovered ∪ covered))) as (s1 & E1 & (C1 & C2 & C3 & C4 & C5) & B1).
  { intros t Ht%elem_of_set_iter. apply Hdone. unfold notcovered, covered in Ht. set_solver. }
  rewrite M_bind_eq, E1, !modify_bind. set (und := List.filter _ _).
  assert (∀ u, u ∈ und ↔ undecided s u) as Hund.
  { intros u. unfold und, undecided. rewrite list_elem_of_In, List.filter_In, <-list_elem_of_In, elem_of_elements.
    by rewrite andb_true_iff, !bool_decide_eq_true. }
  rewrite get_bind. cbn [set_tasks_covered set_tasks_notcovered sqdata runq_complete]. rewrite C4.
  destruct (held_ok (sqdata s) (runq_complete s) und (list_to_set und)) as (h & Eh & Hh).
  { intros c Hcu%Hund. apply Hk. destruct Hcu. set_solver. }
  rewrite lift_bind, Eh, modify_bind. eexists. split; [reflexivity|]. split; [done|]. cbn.
  split; [|split; [|split]].
  - intros t. unfold covered. rewrite elem_of_intersection, elem_of_difference, Hc. tauto.
  - intros t. unfold notcovered. rewrite elem_of_intersection, !elem_of_union, elem_of_difference, Hn. tauto.
  - intros t. rewrite B1, elem_of_set_iter, (comm _ covered). done.
  - intros t. rewrite Hh, elem_of_list_to_set, Hund. split.
    + intros [?|(? & c & Hcu%Hund & ?)]; [by left|]. right. split; [done|]. exists c. split; [done|by right].
    + intros [?|(? & u & Hu & [->|?])]; [by left|by left|]. right. split; [done|]. exists u. by rewrite Hund.
Qed.

(** ** Tasks that are done once a setscene task is decided *)

Section decided.
Context (g : graph) (done : gset string) (t : string).
Hypothesis Hg : graph_ok g.

(** What [t], once it is decided, decides: itself, and every ordinary task that
    it leads to and on which no undecided task depends. *)
Inductive decided : string → Prop :=
  | decided_task : decided t
  | decided_dep x d : decided x → dep g x d → d ∉ setscene_tids cf → d ∉ done →
      (∀ r, r ∈ revdeps_of g d → r ∉ done → decided r) → decided d.

(** After the tasks of [P] were looked at; [wait] are still to be. *)
Record looked_at (P now wait : gset string) : Prop := {
  la_now : now = done ∪ P;
  la_sound : ∀ x, x ∈ P ∪ wait → decided x;
  la_keys : P ∪ wait ⊆ keys g;
  la_closed : ∀ x d, x ∈ P → dep g x d → d ∉ setscene_tids cf → revdeps_of g d ⊆ now → d ∈ now ∪ wait
}.

Lemma look_deps (now new : gset string) l :
  (∀ d, d ∈ l → d ∈ keys g) →
  ∃ new' : gset string, fold_res (λ new dep,
      if bool_decide (dep ∈ setscene_tids cf) || bool_decide (dep ∈ now) then Ok new
      else
        e ← of_option KeyError (dget g dep);
        Ok (if bool_decide (revdeps e ⊆ now) then {[dep]} ∪ new else new)) new l = Ok new' ∧
    ∀ d, d ∈ new' ↔ d ∈ new ∨ (d ∈ l ∧ (d ∉ setscene_tids cf) ∧ (d ∉ now) ∧ revdeps_of g d ⊆ now).
Proof.
  revert new. induction l as [|d l IH]; intros new Hl; cbn [fold_res].
  { exists new. split; [done|]. intros d. rewrite elem_of_nil. tauto. }
  assert (d ∈ keys g) as Hd by apply Hl, list_elem_of_here. apply elem_of_keys, elem_of_dkeys in Hd as [e He].
  assert (revdeps_of g d = revdeps e) as Hr by (unfold revdeps_of; by rewrite He).
  set (b := bool_decide (d ∈ setscene_tids cf) || bool_decide (d ∈ now)).
  destruct (IH (if b then new else if bool_decide (revdeps e ⊆ now) then {[d]} ∪ new else new))
    as (new' & E & Hn); [intros; by apply Hl, list_elem_of_further|].
  exists new'. split.
  { destruct b; cbn [mbind res_bind]; [exact E|]. rewrite He. cbn [of_option mbind res_bind]. exact E. }
  intros u. rewrite Hn, elem_of_cons. destruct b eqn:Eb; unfold b in Eb.
  - apply orb_true_iff in Eb. rewrite !bool_decide_eq_true in Eb. split; [tauto|].
    intros [?|([->|?] & ? & ? & ?)]; tauto.
  - apply orb_false_iff in Eb. rewrite !bool_decide_eq_false in Eb. case_bool_decide as Hsub.
    + rewrite elem_of_union, elem_of_singleton. split.
      * intros [[->|?]|?]; [right|by left|tauto]. rewrite Hr. tauto.
      * intros [?|([->|?] & ? & ? & ?)]; tauto.
    + split; [tauto|]. intros [?|([->|?] & ? & ? & Hs)]; [by left| |tauto]. by rewrite Hr in Hs.
Qed.

Lemma scene_done_step_ok P now new u R :
  looked_at P now (new ∪ {[u]} ∪ R) →
  ∃ now' new', scene_done_step cf g (now, new) u = Ok (now', new') ∧ looked_at (P ∪ {[u]}) now' (new' ∪ R).
Proof.
  intros [Hnow Hsound Hkeys Hcl]. unfold scene_done_step.
  assert (u ∈ keys g) as Hu by (apply Hkeys; set_solver).
  apply elem_of_keys, elem_of_dkeys in Hu as [e He]. rewrite He. cbn [of_option mbind res_bind].
  assert (∀ d, d ∈ depends e ↔ dep g u d) as Hdep by (intros d; unfold dep, deps_of; by rewrite He).
  destruct (look_deps ({[u]} ∪ now) new (set_iter (depends e))) as (new' & E & Hn).
  { intros d Hd%elem_of_set_iter%Hdep. by eapply (go_closed _ Hg). }
  rewrite E. eexists _, new'. split; [reflexivity|].
  assert (∀ d, d ∈ new' ↔ d ∈ new ∨ (dep g u d ∧ (d ∉ setscene_tids cf) ∧ (d ∉ {[u]} ∪ now) ∧
    revdeps_of g d ⊆ {[u]} ∪ now)) as Hn'.
  { intros d. by rewrite Hn, elem_of_set_iter, Hdep. }
  split.
  - rewrite Hnow. set_solver.
  - intros x Hx. destruct (decide (x ∈ P ∪ (new ∪ {[u]} ∪ R))) as [Hold|Hnew]; [by apply Hsound|].
    assert (x ∈ new') as Hx' by set_solver. apply Hn' in Hx' as [?|(Hd & Hs & Hnx & Hr)]; [set_solver|].
    apply (decided_dep u); [apply Hsound; set_solver|done|done|set_solver|].
    intros r Hrr. specialize (Hr r Hrr). rewrite Hnow in Hr.
    intros Hrd. apply Hsound. set_solver.
  - intros x Hx. destruct (decide (x ∈ P ∪ (new ∪ {[u]} ∪ R))) as [Hold|Hnew]; [by apply Hkeys|].
    assert (x ∈ new') as Hx' by set_solver. apply Hn' in Hx' as [?|(Hd & _)]; [set_solver|].
    by eapply (go_closed _ Hg).
  - intros x d Hx Hd Hs Hr. destruct (decide (d ∈ {[u]} ∪ now)) as [?|Hdn]; [by apply elem_of_union_l|].
    assert (d ∈ keys g) as Hdk by by eapply (go_closed _ Hg).
    destruct (decide (u ∈ revdeps_of g d)) as [Hud|Hud].
    + apply (go_revdeps _ Hg) in Hud; [|done]. apply elem_of_union_r, elem_of_union_l, Hn'. by right.
    + assert (x ∈ revdeps_of g d) as Hxd by by apply (go_revdeps _ Hg).
      assert (d ∈ now ∪ (new ∪ {[u]} ∪ R)) as Hold.
      { apply (Hcl x); [|done|done|]; [|intros r Hrr; specialize (Hr r Hrr)];
          [destruct (decide (x = u)); [congruence|]|destruct (decide (r = u)); [congruence|]]; set_solver. }
      rewrite !elem_of_union in Hold. rewrite elem_of_union in Hdn. rewrite !elem_of_union, Hn'. tauto.
Qed.

Lemma scene_round_ok P now new l R :
  looked_at P now (new ∪ list_to_set l ∪ R) →
  ∃ now' new', fold_res (scene_done_step cf g) (now, new) l = Ok (now', new') ∧
    looked_at (P ∪ list_to_set l) now' (new' ∪ R).
Proof.
  revert P now new. induction l as [|u l IH]; intros P now new Hla; cbn [fold_res list_to_set].
  { exists now, new. split; [done|].
    replace (P ∪ ∅) with P by set_solver. by replace (new ∪ R) with (new ∪ ∅ ∪ R) by set_solver. }
  cbn [list_to_set] in Hla.
  destruct (scene_done_step_ok P now new u (list_to_set l ∪ R)) as (now1 & new1 & E1 & H1).
  { by replace (new ∪ {[u]} ∪ (list_to_set l ∪ R)) with (new ∪ ({[u]} ∪ list_to_set l) ∪ R) by set_solver. }
  rewrite E1. cbn [mbind res_bind]. destruct (IH (P ∪ {[u]}) now1 new1) as (now2 & new2 & E2 & H2).
  { by replace (new1 ∪ list_to_set l ∪ R) with (new1 ∪ (list_to_set l ∪ R)) by set_solver. }
  exists now2, new2. split; [done|]. by replace (P ∪ ({[u]} ∪ list_to_set l)) with (P ∪ {[u]} ∪ list_to_set l) by set_solver.
Qed.

Lemma scene_done_ok fuel P now next :
  looked_at P now next → fueled (scene_done cf g fuel next now) →
  ∃ P' now', scene_done cf g fuel next now = Ok now' ∧ looked_at P' now' ∅ ∧ P ∪ next ⊆ P'.
Proof.
  revert P now next. induction fuel as [|fuel IH]; intros P now next Hla Hf; [by destruct Hf|]. cbn [scene_done] in *.
  destruct (decide (next = ∅)) as [->|Hne].
  { rewrite bool_decide_eq_true_2 by done. exists P, now. split; [done|]. split; [done|set_solver]. }
  rewrite bool_decide_eq_false_2 in * by done.
  assert ((list_to_set (sorted_set next) : gset string) = next) as Es.
  { apply set_eq. intros x. by rewrite elem_of_list_to_set, elem_of_sorted_set. }
  destruct (scene_round_ok P now ∅ (sorted_set next) ∅) as (now1 & new1 & E1 & H1).
  { rewrite Es. by replace (∅ ∪ next ∪ ∅) with (next) by set_solver. }
  rewrite E1 in *. cbn [mbind res_bind] in *. rewrite Es in H1. replace (new1 ∪ ∅) with (new1) in H1 by set_solver.
  destruct (IH _ _ _ H1 Hf) as (P' & now' & E & Hla' & Hsub). exists P', now'. split; [done|]. split; [done|set_solver].
Qed.

(** C28: after a setscene task is decided, the tasks marked as done are
    those that were, and exactly the ones that its decision decides: going
    down from it past no setscene task, each task whose dependees are all
    done. *)
Theorem scene_done_correct :
  t ∈ keys g →
  ∃ done', scene_done cf g (3 + 2 * List.length g) {[t]} done = Ok done' ∧ ∀ x, x ∈ done' ↔ x ∈ done ∨ decided x.
Proof.
  intros Ht. destruct (scene_done_ok (3 + 2 * List.length g) ∅ done {[t]}) as (P & now & E & [Hnow Hs _ Hcl] & Hsub).
  { split; [set_solver| |set_solver|set_solver]. intros x Hx. assert (x = t) as -> by set_solver. constructor. }
  { apply scene_done_enough. }
  exists now. split; [done|]. intros x. rewrite Hnow, elem_of_union. split.
  - intros [?|?]; [by left|]. right. apply Hs. by apply elem_of_union_l.
  - intros [?|Hx]; [by left|]. right.
    induction Hx as [|x d Hx IHx Hd Hds Hdd Hr IHr]; [set_solver|].
    assert (d ∈ now ∪ ∅) as Hdn; [|rewrite Hnow in Hdn; set_solver].
    apply (Hcl x); [done..|]. intros r Hrr. rewrite Hnow. destruct (decide (r ∈ done)); [by apply elem_of_union_l|].
    apply elem_of_union_r. by apply IHr.
Qed.
End decided.
End scene.

(** ** Three tasks, one with a setscene variant *)

#[local] Existing Instance sample_order.

(** [b] needs [p], whose result may come from a cache, and [p] needs [c]. *)
Definition scene_deps : graph := [("b", entry ["p"]); ("p", entry ["c"]); ("c", entry [])].
Definition scene_graph : graph := match add_revdeps scene_deps with Ok g => g | Raise _ => [] end.

Definition scene_config : config :=
  MkConfig 1 false false false false false false None false false ["b"] {["p"]}.

(** [p] was found in the cache. *)
Definition scene_state : rqe unit :=
  let s := init_rqe scene_config scene_graph tt (MkSched [] ∅ [] [] None) in
  let s := set_sqdata (MkSQ [] [] [] [] {["b"; "p"]} ∅ [("p", {["c"]})] ∅ ∅ ∅ ∅ []) s in
  set_scenequeue_covered {["p"]} (set_tasks_scenequeue_done {["b"; "p"; "c"]} s).

Lemma scene_graph_ok : graph_ok scene_graph.
Proof.
  destruct (add_revdeps_ok scene_deps) as (g & E & Hg & _).
  - by_eval.
  - apply closedb_deps. vm_compute. reflexivity.
  - intros t. unfold revdeps_of. cbn. repeat case_decide; reflexivity.
  - unfold scene_graph. by rewrite E.
Qed.

Lemma find_unskippable_correct_witness :
  ∃ s' un', find_unskippable scene_config 5 {["b"]} scene_state = (s', Ok un') ∧ (("p" ∈ un') ∧ "c" ∉ un') ∧
    ∀ t, t ∈ un' ↔ ∃ r, r ∈ ({["b"]} : gset string) ∧ rtc (needs scene_config scene_graph) r t.
Proof.
  destruct (find_unskippable_correct scene_config scene_state {["b"]}) as (s' & un' & E & Hun).
  - apply (go_closed _ scene_graph_ok).
  - intros t ->%elem_of_singleton. by_eval.
  - exists s', un'. split; [exact E|]. split; [|exact Hun].
    assert (match (find_unskippable scene_config 5 {["b"]} scene_state).2 with
      | Ok un => bool_decide ("p" ∈ un ∧ ("c" ∉ un)) | Raise _ => false end = true) as Hb by (vm_compute; reflexivity).
    change (find_unskippable scene_config (2 + List.length (rq_graph scene_state)) {["b"]} scene_state)
      with (find_unskippable scene_config 5 {["b"]} scene_state) in E.
    rewrite E in Hb. exact (bool_decide_eq_true_1 _ Hb).
Defined.

Lemma scene_done_correct_witness :
  ∃ done', scene_done scene_config scene_graph 9 {["p"]} {["b"]} = Ok done' ∧
    (("c" ∈ done') ∧ ∀ x, x ∈ done' ↔ x ∈ ({["b"]} : gset string) ∨ decided scene_config scene_graph {["b"]} "p" x).
Proof.
  destruct (scene_done_correct scene_config scene_graph {["b"]} "p" scene_graph_ok) as (done' & E & Hd); [by_eval|].
  exists done'. split; [exact E|]. split; [|exact Hd].
  assert (match scene_done scene_config scene_graph 9 {["p"]} {["b"]} with
    | Ok d => bool_decide ("c" ∈ d) | Raise _ => false end = true) as Hb by (vm_compute; reflexivity).
  change (scene_done scene_config scene_graph (3 + 2 * List.length scene_graph) {["p"]} {["b"]})
    with (scene_done scene_config scene_graph 9 {["p"]} {["b"]}) in E.
  rewrite E in Hb. exact (bool_decide_eq_true_1 _ Hb).
Defined.

Lemma update_holdofftasks_correct_witness :
  ∃ s', update_holdofftasks scene_config scene_state = (s', Ok tt) ∧
    (("c" ∈ tasks_covered s') ∧ ("b" ∉ tasks_covered s')) ∧
    ∀ t, t ∈ tasks_covered s' ↔
       t ∈ tasks_scenequeue_done scene_state ∧
       (∃ c, c ∈ scenequeue_covered scene_state ∧ covers (sqdata scene_state) c t) ∧ t ∉ tasks_notcovered s'.
Proof.
  destruct (update_holdofftasks_correct scene_config scene_state) as (s' & E & _ & Hc & _).
  - reflexivity.
  - intros c Hc. assert (c = "p") as ->; [|by_eval].
    change (c ∈ ({["p"]} ∪ {["p"]} ∪ ∅ : gset string)) in Hc. set_solver.
  - by_eval.
  - exists s'. split; [exact E|]. split; [|exact Hc].
    pose (f := λ s : rqe unit, bool_decide ("c" ∈ tasks_covered s ∧ ("b" ∉ tasks_covered s))).
    assert (f (update_holdofftasks scene_config scene_state).1 = true) as Hb by (vm_compute; reflexivity).
    rewrite E in Hb. exact (bool_decide_eq_true_1 _ Hb).
Defined.
