(* ===== verification/ExecSafe.v ===== *)
(** * Tasks run after what they depend on (bb/runqueue.py)

    The invariant of [RunQueueExecute]: a task that is buildable has all its
    dependencies complete, and a task is complete only once that was announced.
    Every operation keeps it, whether it returns or raises, whatever the
    workers report and in whatever order; so in the log of a build no task is
    started before all it depends on ended. *)

From Stdlib Require Import Ascii String.
From S2P Require Import Prelude.
From S2P Require Import PyStr.
From S2P Require Import PyDict.
From S2P Require Import Runs.
From S2P Require Import TaskIds.
From S2P Require Import Cache.
From S2P Require Import TaskData.
From S2P Require Import TaskGraph.
From S2P Require Import Stamps.
From S2P Require Import Sched.
From S2P Require Import Exec.
From S2P Require Import Execute.
From S2P Require Import ExecFuel.

(** ** The log *)

(** The action starts the task: the event or the message to the worker. *)
Definition starts (a : action) : option string :=
  match a with
  | TaskStarted t _ => Some t
  | RunTask false _ t => Some t
  | _ => None
  end.

(** The action says that the task needs to be done no more. *)
Definition ends (a : action) : option string :=
  match a with
  | TaskCompleted t => Some t
  | TaskSkipped t _ => Some t
  | _ => None
  end.

Definition ended (l : list action) (t : string) : Prop := ∃ a, a ∈ l ∧ ends a = Some t.

(** No task starts before all its dependencies ended. *)
Definition ordered (g : graph) (l : list action) : Prop :=
  ∀ l1 a l2 t d, l = l1 ++ a :: l2 → starts a = Some t → dep g t d → ended l1 d.

Lemma ended_app l l' t : ended l t → ended (l ++ l') t.
Proof. intros (a & Ha & E). exists a. split; [by apply elem_of_app; left|done]. Qed.

Lemma ended_prefix l l' t : l `prefix_of` l' → ended l t → ended l' t.
Proof. intros [k ->]. apply ended_app. Qed.

Lemma ordered_snoc g l a :
  ordered g l → (∀ t d, starts a = Some t → dep g t d → ended l d) → ordered g (l ++ [a]).
Proof.
  intros Hl Ha l1 b l2 t d E Hb Hd. destruct l2 as [|c l2 _] using rev_ind.
  - apply app_inj_tail in E as [-> ->]. by eapply Ha.
  - rewrite app_comm_cons, app_assoc in E. apply app_inj_tail in E as [-> _]. by eapply Hl.
Qed.

(** ** The invariant *)

(** The same tasks with the same edges; the hashes may differ. *)
Definition edges (e : RunTaskEntry) : gset string * gset string := (depends e, revdeps e).
Definition same_shape (g g' : graph) : Prop :=
  dkeys g' = dkeys g ∧ ∀ t, option_map edges (dget g' t) = option_map edges (dget g t).

Lemma same_shape_deps g g' t : same_shape g g' → deps_of g' t = deps_of g t.
Proof.
  intros [_ Hs]. specialize (Hs t). unfold deps_of, edges in *.
  destruct (dget g' t), (dget g t); simpl in Hs; congruence.
Qed.

Lemma same_shape_keys g g' : same_shape g g' → keys g' = keys g ∧ List.length g' = List.length g.
Proof.
  intros [Hk _]. unfold keys. rewrite Hk. split; [done|].
  rewrite <-(length_fmap fst g), <-(length_fmap fst g'). f_equal. exact Hk.
Qed.

Lemma same_shape_dset g g' t e f :
  (∀ e, edges (f e) = edges e) → same_shape g g' → dget g' t = Some e → same_shape g (dset g' t (f e)).
Proof.
  intros Hf [Hk Hs] He. split.
  - rewrite dkeys_dset, (proj2 (dmem_spec g' t)); [done|]. apply elem_of_dkeys. by eexists.
  - intros u. rewrite <-Hs, dget_dset. case_decide; [subst; rewrite He; simpl; by rewrite Hf|done].
Qed.

Create HintDb go.

Section safe.
Context {G : Type} (g0 : graph).

Record safe (s : rqe G) : Prop := {
  safe_shape : same_shape g0 (rq_graph s);
  safe_sched : s_buildable (sched s) ⊆ runq_buildable s;
  safe_running : runq_running s ⊆ runq_buildable s;
  safe_buildable : ∀ t, t ∈ runq_buildable s → deps_of g0 t ⊆ runq_complete s;
  safe_complete : ∀ t, t ∈ runq_complete s → ended (log s) t;
  safe_log : ordered g0 (log s)
}.

(** What an operation only adds to. *)
Record evolves (s s' : rqe G) : Prop := {
  ev_buildable : runq_buildable s ⊆ runq_buildable s';
  ev_running : runq_running s ⊆ runq_running s';
  ev_complete : runq_complete s ⊆ runq_complete s';
  ev_log : log s `prefix_of` log s'
}.

#[export] Instance evolves_preorder : PreOrder evolves.
Proof.
  split.
  - intros s. by split.
  - intros a b c [] []. split; [set_solver..|by etrans].
Qed.

(** The part of the state the invariant is about. *)
Definition core (s : rqe G) :=
  (rq_graph s, s_buildable (sched s), runq_buildable s, runq_running s, runq_complete s, log s).

Lemma core_safe s s' : core s' = core s → safe s → safe s' ∧ evolves s s'.
Proof.
  unfold core. intros E Hs. injection E as E1 E2 E3 E4 E5 E6. destruct Hs.
  split; split; rewrite ?E1, ?E2, ?E3, ?E4, ?E5, ?E6; done.
Qed.

Abbreviation go := (runs safe safe evolves (λ e, e ≠ OutOfFuel)).

Lemma go_mono {A} s (m : M (rqe G) A) Q Q' :
  go s m Q → (∀ a s', safe s' → evolves s s' → Q a s' → Q' a s') → go s m Q'.
Proof. apply runs_mono. Qed.

Lemma go_bind {A B} s (m : M (rqe G) A) (f : A → M (rqe G) B) Q Q' :
  go s m Q → (∀ a s', safe s' → evolves s s' → Q a s' → go s' (f a) Q') → go s (m ≫= f) Q'.
Proof. apply (runs_bind _ _ _ _). Qed.

Lemma go_modify_bind {B} s g (f : unit → M (rqe G) B) Q :
  evolves s (g s) → go (g s) (f tt) Q → go s (modify g ≫= f) Q.
Proof. apply (runs_modify_bind _ _ _ _). Qed.

Lemma go_ret {A} s (a : A) (Q : A → rqe G → Prop) : safe s → Q a s → go s (mret a) Q.
Proof. apply (runs_ret _ _ _ _). Qed.

Lemma go_raise {A} s e (Q : A → rqe G → Prop) : safe s → e ≠ OutOfFuel → go s (raise e) Q.
Proof. intros Hs He. by apply (runs_raise _ _ _ (λ e, e ≠ OutOfFuel)). Qed.

Lemma go_any {A} s (m : M (rqe G) A) Q : go s m Q → go s m (λ _ _, True).
Proof. intros H. by eapply go_mono. Qed.

Lemma go_quiet s f : safe s → (∀ s, core (f s) = core s) → go s (modify f) (λ _ _, True).
Proof. intros Hs Hf. destruct (core_safe s (f s) (Hf s) Hs). by apply runs_modify. Qed.

Lemma go_quiet_eq s f : safe s → (∀ s, core (f s) = core s) → go s (modify f) (λ _ s', s' = f s).
Proof. intros Hs Hf. destruct (core_safe s (f s) (Hf s) Hs). by apply runs_modify. Qed.

Lemma go_lift {A B} s (r : res A) (f : A → M (rqe G) B) Q :
  safe s → fueled r → (∀ a, r = Ok a → go s (f a) Q) → go s (lift r ≫= f) Q.
Proof. intros Hs Hr Hf. apply (runs_lift _ _ _ _); [done| |done]. intros e -> ->. by apply Hr. Qed.

Lemma go_lift_last {A} s (r : res A) (Q : A → rqe G → Prop) :
  safe s → fueled r → (∀ a, r = Ok a → Q a s) → go s (lift r) Q.
Proof.
  intros Hs Hr Hf. unfold runs, lift. simpl. split; [done|]. destruct r; [split; [done|by apply Hf]|].
  split; [done|]. intros ->. by apply Hr.
Qed.

Lemma go_act s a :
  safe s → (∀ t d, starts a = Some t → dep g0 t d → ended (log s) d) →
  go s (act a) (λ _ s', a ∈ log s').
Proof.
  intros [] Ha. apply runs_modify.
  - split; simpl; [done..|]. by apply prefix_app_r.
  - split; simpl; [done..| |by apply ordered_snoc]. intros. by apply ended_app, safe_complete0.
  - simpl. apply elem_of_app. right. apply list_elem_of_here.
Qed.

Lemma go_for_each {A} s (l : list A) (f : A → M (rqe G) unit) :
  safe s → (∀ x s', x ∈ l → safe s' → evolves s s' → go s' (f x) (λ _ _, True)) →
  go s (for_each l f) (λ _ _, True).
Proof. intros Hs Hf. apply (runs_for_each _ _ _ _ (λ _, True)); eauto. Qed.
End safe.

(** Take an operation apart: what is left are facts about the states. *)
Ltac go_step :=
  lazymatch goal with
  | |- runs _ _ _ _ _ (mret _) _ => apply go_ret; [done|try done]
  | |- runs _ _ _ _ _ (raise _) _ => apply go_raise; [done|try discriminate]
  | |- runs _ _ _ _ _ (get ≫= _) _ => apply runs_get
  | |- runs _ _ _ _ _ (lift _ ≫= _) _ => apply go_lift; [done|try solve [fueled]|intros ? ?]
  | |- runs _ _ _ _ _ (lift _) _ => apply go_lift_last; [done|try solve [fueled]|intros ? ?; try done]
  | |- runs _ _ _ _ _ (_ ≫= _) _ =>
      first [ eapply go_bind; [solve [eauto with go]|intros ? ? ? ? ?]
            | eapply go_bind; [apply go_quiet; [done|intros; reflexivity]|intros ? ? ? ? _]
            | apply (go_bind _ _ _ _ (λ _ _, True)); [|intros ? ? ? ? _] ]
  | |- runs _ _ _ _ _ (modify _) _ =>
      first [solve [eauto with go]
            | eapply go_mono; [apply go_quiet; [done|intros; reflexivity]|intros; try done]]
  | |- runs _ _ _ _ _ (for_each _ _) _ => apply go_for_each; [done|intros ? ? ? ? ?]
  | |- runs _ _ _ _ _ (match ?x with _ => _ end) _ => destruct x eqn:?
  | |- runs _ _ _ _ _ (if ?b then _ else _) _ => destruct b eqn:?
  | |- _ => solve [eauto with go]
  end.

(** ** What the code gets from outside

    The functions the recipes and the signature generator supply may raise any
    exception of Python; [OutOfFuel] is none. *)

Record env_fueled (e : env) : Prop := {
  valid_fueled : ∀ l, fueled (e_valid e l);
  depvalid_fueled : ∀ t l n, fueled (e_depvalid e t l n)
}.

#[export] Hint Resolve valid_fueled depvalid_fueled get_taskhash_fueled get_unihash_fueled
  set_unihash_fueled report_fueled : fueled.

(** What is known of an entry that was looked up. *)
Ltac entry_facts :=
  match goal with Hq : (λ _ _, _) _ _ |- _ => destruct Hq as (-> & ? & <-) end.

Section operations.
Context {G : Type} `{SigGen G} `{!SetOrder string}.
Context (dataCaches : dict CacheData) (taskData : dict TaskData) (policy : stamp_policy).
Context (number_threads : string → res (option string)) (cf : config) (g0 : graph).
Hypothesis Hnumbers : ∀ k, fueled (number_threads k).
Hypothesis Hsiggen : siggen_fueled G.
Hypothesis Hwf : dict_wf g0.
Hypothesis Hclosed : graph_closed g0.
Hypothesis Hacyclic : acyclic g0.

Abbreviation go := (runs (safe (G := G) g0) (safe g0) evolves (λ e, e ≠ OutOfFuel)).

Lemma act_go s a : safe g0 s → starts a = None → go s (act a) (λ _ _, True).
Proof. intros Hs Ha. eapply go_any, go_act; [done|]. intros ? ? Ht. by rewrite Ha in Ht. Qed.

Lemma on_stats_go s f : safe g0 s → go s (on_stats f) (λ _ _, True).
Proof. intros. by apply go_quiet. Qed.
Lemma on_sq_stats_go s f : safe g0 s → go s (on_sq_stats f) (λ _ _, True).
Proof. intros. by apply go_quiet. Qed.
Lemma set_state_go s st : safe g0 s → go s (set_state st) (λ _ _, True).
Proof. intros. by apply go_quiet. Qed.
Lemma on_sqdata_go s f : safe g0 s → go s (on_sqdata f) (λ _ _, True).
Proof. intros. by apply go_quiet. Qed.
#[local] Hint Resolve act_go on_stats_go on_sq_stats_go set_state_go on_sqdata_go : go.

Lemma entry_of_go s t :
  safe g0 s → go s (entry_of t) (λ e s', s' = s ∧ dget (rq_graph s) t = Some e ∧ depends e = deps_of g0 t).
Proof.
  intros Hs. unfold entry_of. apply runs_get. apply go_lift_last; [done|fueled|].
  intros e He%of_option_Ok. split; [done|]. split; [done|].
  rewrite <-(same_shape_deps _ _ _ (safe_shape _ _ Hs)). unfold deps_of. by rewrite He.
Qed.
#[local] Hint Resolve entry_of_go : go.

(** ** Ordinary tasks *)

Lemma setbuildable_go s t :
  safe g0 s → deps_of g0 t ⊆ runq_complete s → go s (setbuildable t) (λ _ s', t ∈ runq_buildable s').
Proof.
  intros [] Ht. unfold setbuildable. apply go_modify_bind; [split; simpl; set_solver|].
  apply runs_modify; simpl.
  - split; simpl; set_solver.
  - split; simpl; try done; try set_solver.
  - set_solver.
Qed.

Lemma task_completeoutright_go s t :
  safe g0 s → ended (log s) t → go s (task_completeoutright t) (λ _ s', t ∈ runq_complete s').
Proof.
  intros Hs Ht. unfold task_completeoutright.
  assert (go s (modify (λ s, set_runq_complete ({[t]} ∪ runq_complete s) s)) (λ _ s', t ∈ runq_complete s')) as Hm.
  { destruct Hs. apply runs_modify; simpl; [split; simpl; set_solver| |set_solver].
    split; simpl; try done; [set_solver|]. intros u [->%elem_of_singleton|Hu]%elem_of_union; auto. }
  eapply go_bind; [exact Hm|intros [] s1 Hs1 He1 Hq].
  eapply go_bind; [by apply entry_of_go|intros e s2 _ _ (-> & He & Hd)].
  apply (runs_for_each _ _ _ _ (λ s, t ∈ runq_complete s)); [done..|].
  intros x s2 _ Hs2 He2 Hq2. simpl. apply runs_get. destruct (_ || _); [by apply go_ret|].
  eapply go_bind; [by apply entry_of_go|intros ex s3 _ _ (-> & Hex & Hdx)].
  case_bool_decide as Hsub; [|by apply go_ret].
  eapply go_mono; [apply setbuildable_go; [done|by rewrite <-Hdx]|]. intros _ s4 _ [] _. set_solver.
Qed.

Lemma task_complete_go s t : safe g0 s → go s (task_complete t) (λ _ _, True).
Proof.
  intros Hs. unfold task_complete. go_step.
  eapply go_bind; [by apply (go_act g0 _ (TaskCompleted t))|intros [] s2 Hs2 He2 Ha].
  eapply go_bind; [apply task_completeoutright_go; [done|by eexists]|intros [] s3 Hs3 He3 _]. go_step.
Qed.

Lemma task_fail_go s t c : safe g0 s → go s (task_fail cf t c) (λ _ _, True).
Proof. intros Hs. unfold task_fail. repeat go_step. Qed.

Lemma task_skip_go s t r :
  safe g0 s → t ∈ runq_buildable s → go s (task_skip t r) (λ _ _, True).
Proof.
  intros Hs Ht. unfold task_skip.
  assert (go s (modify (λ s, set_runq_running ({[t]} ∪ runq_running s) s)) (λ _ s', True)) as Hm.
  { destruct Hs. apply runs_modify; simpl; [split; simpl; set_solver| |done].
    split; simpl; try done. set_solver. }
  eapply go_bind; [exact Hm|intros [] s1 Hs1 He1 _].
  eapply go_bind; [apply setbuildable_go; [done|]|intros [] s2 Hs2 He2 _].
  { apply safe_buildable; [done|]. by apply He1. }
  eapply go_bind; [by apply (go_act g0 _ (TaskSkipped t r))|intros [] s3 Hs3 He3 Ha].
  eapply go_bind; [apply task_completeoutright_go; [done|by eexists]|intros [] s4 Hs4 He4 _].
  repeat go_step.
Qed.
(** ** Setscene tasks *)

(** The setscene queue stays as it is, and no task gets covered after all. *)
Definition scene_grows (s s' : rqe G) : Prop :=
  sqdata s' = sqdata s ∧ scenequeue_notcovered s ⊆ scenequeue_notcovered s'.

(** The tasks of the queue that may still fail. *)
Definition may_fail (s : rqe G) : nat :=
  size ((list_to_set (dkeys (sq_deps (sqdata s))) : gset string) ∖ scenequeue_notcovered s).

Lemma may_fail_grows s s' : scene_grows s s' → may_fail s' ≤ may_fail s.
Proof. intros [E Hn]. unfold may_fail. rewrite E. by apply left_le. Qed.

Lemma failoutright_go n s t :
  (∀ s, safe g0 s → 1 ≤ n → (t ∈ dkeys (sq_deps (sqdata s)) → may_fail s + 2 ≤ n) →
     go s (updatecounters cf n t true) (λ _ s', scene_grows s s')) →
  safe g0 s → 1 ≤ n → t ∉ scenequeue_notcovered s → may_fail s + 1 ≤ n →
  go s (failoutright (updatecounters cf n) t) (λ _ s', scene_grows s s').
Proof.
  intros IH Hs Hn Ht Hm. unfold failoutright.
  do 5 (eapply go_bind; [by apply go_quiet_eq|intros [] ? ? ? ->]).
  eapply go_mono; [apply IH; [done..|]|].
  - intros Hk. simpl in Hk. unfold may_fail in *. simpl.
    assert (size ((list_to_set (dkeys (sq_deps (sqdata s))) : gset string) ∖ ({[t]} ∪ scenequeue_notcovered s)) <
            size ((list_to_set (dkeys (sq_deps (sqdata s))) : gset string) ∖ scenequeue_notcovered s)); [|lia].
    apply (left_lt _ _ _ t); [by apply elem_of_list_to_set|done|set_solver..].
  - intros [] s' _ _ [E Hg]. split; [done|]. simpl in Hg. set_solver.
Qed.

Lemma updatecounters_go n s t b :
  safe g0 s → 1 ≤ n → (t ∈ dkeys (sq_deps (sqdata s)) → may_fail s + 2 ≤ n) →
  go s (updatecounters cf n t b) (λ _ s', scene_grows s s').
Proof.
  revert s t b. induction n as [|n IH]; intros s t b Hs H1 Hm; [lia|]. cbn [updatecounters].
  apply runs_get. apply go_lift; [done|fueled|]. intros deps Hd%of_option_Ok.
  assert (may_fail s + 2 ≤ S n) as Hm' by (apply Hm, elem_of_dkeys; by eexists).
  eapply go_bind.
  { apply (runs_for_each _ _ _ _ (scene_grows s)); [done|by split|].
    intros x s1 _ Hs1 He1 Hg1. cbv beta. apply runs_get. destruct (b && _).
    - destruct (_ || _) eqn:Ec; [by apply go_ret|]. apply orb_false_iff in Ec as [_ Ec].
      apply bool_decide_eq_false in Ec. pose proof (may_fail_grows _ _ Hg1).
      eapply go_mono; [apply failoutright_go; [intros; by apply IH|done|lia|done|lia]|].
      intros [] s2 _ _ [E2 Hg2]. destruct Hg1 as [E1 Hg1]. split; [congruence|set_solver].
    - apply go_lift; [done|fueled|]. intros revs _. destruct (bool_decide _); [|by apply go_ret].
      eapply go_mono; [by apply go_quiet_eq|]. intros [] ? _ _ ->. exact Hg1. }
  intros [] s1 Hs1 _ Hg1. apply runs_get. apply go_lift; [done|apply scene_done_enough|]. intros done _.
  eapply go_bind; [by apply go_quiet_eq|intros [] ? ? ? ->].
  eapply go_mono; [by apply go_quiet_eq|]. intros [] ? _ _ ->. exact Hg1.
Qed.

Lemma scenequeue_updatecounters_go s t b :
  safe g0 s → go s (scenequeue_updatecounters cf t b) (λ _ s', scene_grows s s').
Proof.
  intros Hs. unfold scenequeue_updatecounters. apply runs_get. apply updatecounters_go; [done|lia|].
  intros _. unfold may_fail.
  enough (size ((list_to_set (dkeys (sq_deps (sqdata s))) : gset string) ∖ scenequeue_notcovered s) ≤
          List.length (sq_deps (sqdata s))) by lia.
  etrans; [apply subseteq_size; by apply subseteq_difference_l|].
  apply size_dkeys.
Qed.

Lemma sq_task_failoutright_go s t : safe g0 s → go s (sq_task_failoutright cf t) (λ _ _, True).
Proof.
  intros Hs. unfold sq_task_failoutright, failoutright. repeat go_step.
  eapply go_any. by apply scenequeue_updatecounters_go.
Qed.

#[local] Hint Resolve task_complete_go task_fail_go sq_task_failoutright_go : go.

Lemma updatecounters_any s t b : safe g0 s → go s (scenequeue_updatecounters cf t b) (λ _ _, True).
Proof. intros Hs. eapply go_any. by apply scenequeue_updatecounters_go. Qed.
#[local] Hint Resolve updatecounters_any : go.

Lemma sq_task_completeoutright_go s t : safe g0 s → go s (sq_task_completeoutright cf t) (λ _ _, True).
Proof. intros Hs. unfold sq_task_completeoutright. repeat go_step. Qed.
#[local] Hint Resolve sq_task_completeoutright_go : go.

Lemma sq_task_skip_go s t : safe g0 s → go s (sq_task_skip cf t) (λ _ _, True).
Proof. intros Hs. unfold sq_task_skip. repeat go_step. Qed.
#[local] Hint Resolve sq_task_skip_go : go.

Lemma sq_check_taskfail_go s t : safe g0 s → go s (sq_check_taskfail dataCaches cf t) (λ _ _, True).
Proof. intros Hs. unfold sq_check_taskfail. repeat go_step. Qed.
#[local] Hint Resolve sq_check_taskfail_go : go.

Lemma sq_task_complete_go s t : safe g0 s → go s (sq_task_complete cf t) (λ _ _, True).
Proof. intros Hs. unfold sq_task_complete. repeat go_step. Qed.
#[local] Hint Resolve sq_task_complete_go : go.

Lemma sq_task_fail_go s t r : safe g0 s → go s (sq_task_fail dataCaches cf t r) (λ _ _, True).
Proof. intros Hs. unfold sq_task_fail. repeat go_step. Qed.
#[local] Hint Resolve sq_task_fail_go : go.

(** ** Messages *)

Lemma release_stamp_go s t : safe g0 s → go s (release_stamp t) (λ _ _, True).
Proof. intros Hs. unfold release_stamp. repeat go_step. Qed.
#[local] Hint Resolve release_stamp_go : go.

Lemma runqueue_process_waitpid_go s t c :
  safe g0 s → go s (runqueue_process_waitpid dataCaches cf t c) (λ _ _, True).
Proof. intros Hs. unfold runqueue_process_waitpid. repeat go_step. Qed.
#[local] Hint Resolve runqueue_process_waitpid_go : go.

Lemma read_workers_go s inbox : safe g0 s → go s (read_workers dataCaches cf inbox) (λ _ _, True).
Proof. intros Hs. unfold read_workers. repeat go_step. Qed.
#[local] Hint Resolve read_workers_go : go.

Lemma end_state_go s : safe g0 s → go s end_state (λ _ _, True).
Proof. intros Hs. unfold end_state. repeat go_step. Qed.
#[local] Hint Resolve end_state_go : go.

Lemma finish_go s e : safe g0 s → go s (finish dataCaches cf e) (λ _ _, True).
Proof. intros Hs. unfold finish. repeat go_step. Qed.
#[local] Hint Resolve finish_go : go.

(** ** Checks *)

Lemma check_stamp_shape gen g mtime t tn r cache :
  same_shape g0 g → fueled (check_stamp dataCaches policy gen mtime g t tn r cache).
Proof.
  intros Hg. destruct (graph_rank g0 Hwf Hclosed Hacyclic) as (rank & Hr & Hb).
  destruct (same_shape_keys _ _ Hg) as [Ek El]. apply (check_stamp_fueled Hsiggen _ _ _ rank).
  - intros u d Hd. apply Hr. unfold dep in *. by rewrite <-(same_shape_deps _ _ _ Hg).
  - intros u Hu. rewrite El. apply Hb. by rewrite <-Ek.
Qed.

Lemma collapse_graph_shape g : same_shape g0 g → fueled (collapse_graph cf g).
Proof.
  intros Hg. destruct (graph_rank g0 Hwf Hclosed Hacyclic) as (rank & Hr & Hb).
  destruct (same_shape_keys _ _ Hg) as [Ek El]. apply (collapse_graph_fueled _ _ rank).
  - intros u d Hd. apply Hr. unfold dep in *. by rewrite <-(same_shape_deps _ _ _ Hg).
  - intros u Hu. rewrite El. apply Hb. by rewrite <-Ek.
Qed.
#[local] Hint Resolve check_stamp_shape collapse_graph_shape safe_shape : fueled.

Section env.
Context (e : env) (He : env_fueled e).

Lemma stamp_current_go s t tn r : safe g0 s → go s (stamp_current dataCaches policy e t tn r) (λ _ _, True).
Proof. intros Hs. unfold stamp_current. repeat go_step. Qed.
#[local] Hint Resolve stamp_current_go : go.

Lemma check_dependencies_go s t d : safe g0 s → go s (check_dependencies dataCaches cf e t d) (λ _ _, True).
Proof.
  intros Hs. unfold check_dependencies. repeat go_step.
  apply map_res_fueled. intros. fueled.
Qed.

Lemma validate_hashes_go s c : safe g0 s → go s (validate_hashes dataCaches cf e c) (λ _ _, True).
Proof.
  intros Hs. unfold validate_hashes. repeat go_step.
  apply map_res_fueled. intros. fueled.
Qed.

Lemma summarise_go s : safe g0 s → go s (summarise_scenequeue_errors cf) (λ _ _, True).
Proof. intros Hs. unfold summarise_scenequeue_errors. repeat go_step. Qed.
#[local] Hint Resolve check_dependencies_go validate_hashes_go summarise_go : go.

Lemma update_holdofftasks_go s : safe g0 s → go s (update_holdofftasks cf) (λ _ _, True).
Proof.
  intros Hs. unfold update_holdofftasks. repeat go_step.
  eapply go_any, setbuildable_go; [done|]. entry_facts. by eapply bool_decide_eq_true_1.
Qed.
#[local] Hint Resolve update_holdofftasks_go : go.

(** ** The setscene queue *)

Lemma update_one_go s t : safe g0 s → go s (update_one dataCaches policy cf e t) (λ _ _, True).
Proof. intros Hs. unfold update_one. repeat go_step. Qed.

Lemma defer_one_go s mc t : safe g0 s → go s (defer_one dataCaches mc t) (λ _ _, True).
Proof. intros Hs. unfold defer_one. repeat go_step. Qed.

Lemma filter_each_go s l f :
  (∀ s t, safe g0 s → go s (f t) (λ _ _, True)) → safe g0 s → go s (filter_each f l) (λ _ _, True).
Proof.
  intros Hf. revert s. induction l as [|x l IH]; intros s Hs; simpl; [by apply go_ret|].
  eapply go_bind; [by apply Hf|]. intros b s1 Hs1 _ _. eapply go_bind; [by apply IH|].
  intros r s2 Hs2 _ _. by apply go_ret.
Qed.

Lemma update_scenequeue_data_go s l :
  safe g0 s → go s (update_scenequeue_data dataCaches policy cf e l) (λ _ _, True).
Proof.
  intros Hs. unfold update_scenequeue_data.
  eapply go_bind; [apply filter_each_go; [intros; by apply update_one_go|done]|intros tocheck s1 Hs1 _ _].
  repeat go_step. by apply defer_one_go.
Qed.
#[local] Hint Resolve update_scenequeue_data_go : go.

Lemma visit_unskippable_go s t :
  safe g0 s → go s (e ← entry_of t; if bool_decide (depends e = ∅) then setbuildable t else mret tt) (λ _ _, t ∈ keys g0).
Proof.
  intros Hs. eapply go_bind; [by apply entry_of_go|intros en s1 _ _ (-> & Hen & Hd)].
  apply dget_key in Hen. rewrite (proj1 (same_shape_keys _ _ (safe_shape _ _ Hs))) in Hen.
  case_bool_decide as Hemp; [|by apply go_ret].
  eapply go_mono; [apply setbuildable_go; [done|]|done]. rewrite <-Hd, Hemp. apply empty_subseteq.
Qed.

Lemma foldl_deps g l un :
  same_shape g0 g →
  un ⊆ foldl (λ un t, un ∪ deps_of g t) un l ∧ foldl (λ un t, un ∪ deps_of g t) un l ⊆ un ∪ keys g0.
Proof.
  intros Hg. revert un. induction l as [|t l IH]; intros un; simpl; [set_solver|].
  destruct (IH (un ∪ deps_of g t)) as [H1 H2].
  assert (deps_of g t ⊆ keys g0) as Ht.
  { rewrite (same_shape_deps _ _ _ Hg). intros d Hd. by eapply Hclosed. }
  set_solver.
Qed.

Lemma find_unskippable_go fuel s un :
  safe g0 s → size (keys g0 ∖ un) + 1 ≤ fuel → go s (find_unskippable cf fuel un) (λ _ _, True).
Proof.
  revert s un. induction fuel as [|fuel IH]; intros s un Hs Hf; cbn [find_unskippable]; [lia|].
  apply runs_get. set (visited := List.filter _ _).
  apply (go_bind _ _ _ _ (λ _ _, True)).
  { apply go_for_each; [done|]. intros. eapply go_any. by apply visit_unskippable_go. }
  intros [] s1 Hs1 _ _. set (un' := foldl _ _ _). case_bool_decide as Eun; [by apply go_ret|].
  assert (un ⊆ un' ∧ un' ⊆ un ∪ keys g0) as [H1 H2] by by apply foldl_deps, safe_shape.
  apply IH; [done|].
  destruct (strictly_more un un' H1) as (x & Hx & Hxn); [congruence|].
  pose proof (left_lt (keys g0) un un' x) as Hlt. pose proof (H2 x Hx) as Hk. apply elem_of_union in Hk.
  enough (size (keys g0 ∖ un') < size (keys g0 ∖ un)) by lia.
  apply Hlt; [tauto|done..].
Qed.

Lemma build_scenequeue_data_go s :
  safe g0 s → go s (build_scenequeue_data dataCaches taskData policy cf e) (λ _ _, True).
Proof.
  intros Hs. unfold build_scenequeue_data. apply runs_get. go_step.
  eapply go_bind; [apply find_unskippable_go; [done|]|intros un s1 Hs1 _ _].
  { destruct (same_shape_keys _ _ (safe_shape _ _ Hs)) as [_ ->]. pose proof (size_keys g0).
    pose proof (left_le (keys g0) ∅ (list_to_set (dkeys (List.filter
      (λ kv : string * RunTaskEntry, bool_decide (revdeps kv.2 = ∅)) (rq_graph s))) ∪ cantskip s)
      (empty_subseteq _)) as Hle. rewrite difference_empty_L in Hle. lia. }
  repeat go_step.
Qed.

(** ** Changed hashes *)

Lemma on_siggen_go {A} s (m : M G A) : safe g0 s → (∀ g, fueled (m g).2) → go s (on_siggen m) (λ _ _, True).
Proof.
  intros Hs Hm. unfold runs, on_siggen. specialize (Hm (rq_siggen s)). destruct (m (rq_siggen s)) as [g r].
  destruct (core_safe g0 s (set_rq_siggen g s) eq_refl Hs). simpl in *. split; [done|].
  destruct r; [done|]. split; [done|]. intros ->. by apply Hm.
Qed.

Lemma update_entry_go s t f :
  safe g0 s → (∀ e, edges (f e) = edges e) → go s (update_entry t f) (λ _ _, True).
Proof.
  intros Hs Hf. unfold update_entry. eapply go_bind; [by apply entry_of_go|intros en s1 _ _ (-> & Hen & _)].
  destruct Hs. apply runs_modify; [by split| |done]. split; try done. by apply same_shape_dset.
Qed.

Lemma fold_exec_go {A B} (I : A → Prop) s (f : A → B → M (rqe G) A) acc l :
  safe g0 s → I acc → (∀ a x s, x ∈ l → safe g0 s → I a → go s (f a x) (λ a' _, I a')) →
  go s (fold_exec f acc l) (λ a _, I a).
Proof.
  intros Hs Ha Hf. revert s acc Hs Ha. induction l as [|x l IH]; intros s acc Hs Ha; simpl; [by apply go_ret|].
  eapply go_bind; [apply Hf; [apply list_elem_of_here|done..]|].
  intros a s1 Hs1 _ Ha1. apply IH; [|done..]. intros. apply Hf; [by apply list_elem_of_further|done..].
Qed.

Lemma queue_one_go s acc m : safe g0 s → go s (queue_one acc m) (λ _ _, True).
Proof.
  intros Hs. unfold queue_one. repeat go_step; [by apply update_entry_go|].
  apply on_siggen_go; [done|]. intros. fueled.
Qed.

(** A task that is rehashed leaves [total]. *)
Definition shrinks (total : gset string) (st : gset string * gset string * gset string) : Prop :=
  st.1.2 ⊆ total ∧ (st.1.1 = ∅ ∨ size st.1.2 < size total).

Lemma rehash_one_go s p total st t :
  safe g0 s → shrinks total st → go s (rehash_one p st t) (λ st _, shrinks total st).
Proof.
  destruct st as [[next tot] ch]. intros Hs [Hsub Hlt]. simpl in *. unfold rehash_one.
  eapply go_bind; [by apply entry_of_go|intros ep s1 _ _ (-> & _ & _)].
  eapply go_bind; [by apply entry_of_go|intros e' s2 _ _ (-> & _ & _)].
  destruct (_ && _); [by apply go_ret|].
  eapply go_bind; [apply on_siggen_go; [done|intros; fueled]|intros nh s3 Hs3 _ _].
  eapply go_bind; [apply on_siggen_go; [done|intros; fueled]|intros nu s4 Hs4 _ _].
  apply runs_get. apply (go_bind _ _ _ _ (λ _ _, True)).
  { repeat go_step; [apply on_siggen_go; [done|intros; fueled]|by apply update_entry_go]. }
  intros ch' s5 Hs5 _ _. case_bool_decide as Ht; [|by apply go_raise].
  apply go_ret; [done|]. assert (size (tot ∖ {[t]}) < size tot).
  { apply subset_size. clear -Ht. set_solver. }
  pose proof (subseteq_size _ _ Hsub). split; simpl; [clear -Hsub; set_solver|right; lia].
Qed.

Lemma rehash_go fuel s p next total ch :
  safe g0 s → 1 ≤ fuel → (next = ∅ ∨ size total + 2 ≤ fuel) → go s (rehash p fuel next total ch) (λ _ _, True).
Proof.
  revert s next total ch. induction fuel as [|fuel IH]; intros s next total ch Hs H1 Hf; [lia|].
  cbn [rehash]. case_bool_decide as Hn; [by apply go_ret|]. destruct Hf as [?|Hf]; [done|].
  eapply go_bind.
  { apply (fold_exec_go (shrinks total)); [done|split; simpl; [done|by left]|].
    intros. by apply rehash_one_go. }
  intros [[n t] c] s1 Hs1 _ [Hsub Hlt]. simpl in *. apply IH; [done|lia|]. destruct Hlt; [by left|right; lia].
Qed.

Lemma rehash_dependees_go s tp : safe g0 s → go s (rehash_dependees tp) (λ _ _, True).
Proof.
  intros Hs. unfold rehash_dependees. apply runs_get. go_step.
  apply go_lift; [done| |intros total Ht].
  { apply dependees_fueled; [apply disjoint_empty_r|]. rewrite difference_empty_L.
    pose proof (size_keys (rq_graph s)). lia. }
  apply dependees_keys in Ht; [|apply empty_subseteq]. go_step. apply rehash_go; [done|lia|right].
  pose proof (subseteq_size _ _ Ht). pose proof (size_keys (rq_graph s)). lia.
Qed.

Lemma undo_covered_go s t l : safe g0 s → go s (undo_covered t l) (λ _ _, True).
Proof.
  revert s. induction l as [|d l IH]; intros s Hs; cbn [undo_covered]; repeat go_step.
Qed.
#[local] Hint Resolve undo_covered_go : go.

Lemma migrate_one_go s t : safe g0 s → go s (migrate_one dataCaches t) (λ _ _, True).
Proof. intros Hs. unfold migrate_one. repeat go_step. Qed.
#[local] Hint Resolve migrate_one_go : go.

Lemma migrate_go s l : safe g0 s → go s (migrate dataCaches l) (λ _ _, True).
Proof. revert s. induction l as [|t l IH]; intros s Hs; cbn [migrate]; repeat go_step. Qed.
#[local] Hint Resolve migrate_go rehash_dependees_go : go.

Lemma process_possible_migrations_go s :
  safe g0 s → go s (process_possible_migrations dataCaches policy cf e) (λ _ _, True).
Proof.
  intros Hs. unfold process_possible_migrations. apply runs_get.
  eapply go_bind; [apply (fold_exec_go (λ _, True)); [done..|intros; by apply queue_one_go]|intros tp s1 Hs1 _ _].
  repeat go_step.
Qed.
#[local] Hint Resolve process_possible_migrations_go : go.

(** ** [execute] *)

Lemma undefer_go s t : safe g0 s → go s (undefer dataCaches cf e t) (λ _ _, True).
Proof. intros Hs. unfold undefer. repeat go_step. Qed.
#[local] Hint Resolve undefer_go : go.

Lemma consider_scene_go s t : safe g0 s → go s (consider_scene dataCaches cf e t) (λ _ _, True).
Proof. intros Hs. unfold consider_scene. repeat go_step. Qed.
#[local] Hint Resolve consider_scene_go : go.

Lemma find_scene_go s l : safe g0 s → go s (find_scene dataCaches cf e l) (λ _ _, True).
Proof. revert s. induction l as [|t l IH]; intros s Hs; cbn [find_scene]; repeat go_step. Qed.
#[local] Hint Resolve find_scene_go : go.

Lemma hold_stamp_go s f t : safe g0 s → go s (hold_stamp dataCaches f t) (λ _ _, True).
Proof. intros Hs. unfold hold_stamp. repeat go_step. Qed.

Lemma ensure_fakeworker_go s t : safe g0 s → go s (ensure_fakeworker e t) (λ _ _, True).
Proof. intros Hs. unfold ensure_fakeworker. repeat go_step. Qed.
#[local] Hint Resolve hold_stamp_go ensure_fakeworker_go : go.

Lemma start_scene_go s t : safe g0 s → go s (start_scene dataCaches taskData policy cf e t) (λ _ _, True).
Proof. intros Hs. unfold start_scene, send_task. repeat go_step. Qed.

Lemma setscene_completed_go s : safe g0 s → go s (setscene_completed cf) (λ _ _, True).
Proof. intros Hs. unfold setscene_completed. repeat go_step. Qed.
#[local] Hint Resolve start_scene_go setscene_completed_go : go.

Lemma sched_next_go s :
  safe g0 s →
  go s (sched_next number_threads cf) (λ o s', match o with Some t => t ∈ runq_buildable s' | None => True end).
Proof.
  intros Hs. unfold sched_next. apply runs_get. destruct (negb _); [by apply go_ret|].
  apply go_lift; [done|fueled|]. intros [sch task] E. destruct (next_buildable_subset _ _ _ _ _ _ E) as [H1 H2].
  assert (s_buildable sch ⊆ runq_buildable s) as Hsub.
  { rewrite H1. destruct Hs. clear -safe_sched0. set_solver. }
  assert (match task with Some t => t ∈ runq_buildable s | None => True end) as Ht.
  { destruct task as [t|]; [|done]. apply (safe_sched _ _ Hs), H2. }
  apply go_modify_bind; [by split|]. apply go_ret; [|by destruct task].
  destruct Hs. by split.
Qed.

Lemma check_setscenewhitelist_go s t :
  safe g0 s → go s (check_setscenewhitelist dataCaches policy cf e t) (λ _ _, True).
Proof. intros Hs. unfold check_setscenewhitelist. repeat go_step. apply map_res_fueled. intros. fueled. Qed.
#[local] Hint Resolve check_setscenewhitelist_go : go.

(** A task chosen may start: everything it depends on has ended. *)
Lemma may_start (s : rqe G) t d : safe g0 s → t ∈ runq_buildable s → dep g0 t d → ended (log s) d.
Proof. intros Hs Ht Hd. apply Hs. by apply (safe_buildable _ _ Hs t). Qed.

Lemma set_running_go s t :
  safe g0 s → t ∈ runq_buildable s →
  go s (modify (λ s, set_runq_running ({[t]} ∪ runq_running s) s)) (λ _ _, True).
Proof.
  intros Hs Ht. destruct Hs. apply runs_modify; [split; simpl; set_solver| |done].
  split; simpl; try done. set_solver.
Qed.

Lemma start_event_go s t a :
  safe g0 s → t ∈ runq_buildable s → starts a = Some t → go s (act a) (λ _ _, True).
Proof.
  intros Hs Ht Ha. eapply go_any, go_act; [done|]. intros u d. rewrite Ha. intros [= ->]. by apply may_start.
Qed.

Lemma run_noexec_go s n t : safe g0 s → t ∈ runq_buildable s → go s (run_noexec cf n t) (λ _ _, True).
Proof.
  intros Hs Ht. unfold run_noexec.
  eapply go_bind; [by eapply start_event_go|intros [] s1 Hs1 He1 _].
  eapply go_bind; [apply set_running_go; [done|by apply He1]|intros [] s2 Hs2 He2 _]. repeat go_step.
Qed.

Lemma run_task_go s t : safe g0 s → t ∈ runq_buildable s → go s (run_task dataCaches cf e t) (λ _ _, True).
Proof.
  intros Hs Ht. unfold run_task.
  eapply go_bind; [by eapply start_event_go|intros [] s1 Hs1 He1 _]. do 3 go_step.
  apply (go_bind _ _ _ _ (λ _ _, True)); [repeat go_step|intros b s2 Hs2 He2 _]. destruct (negb b); [repeat go_step|].
  eapply go_bind; [eapply (start_event_go _ t); [done|by apply He2, He1|done]|intros [] s3 Hs3 He3 _]. go_step.
  eapply go_bind; [apply set_running_go; [done|]|intros [] s4 Hs4 He4 _]; [|repeat go_step].
  match goal with Hev : evolves s3 _ |- _ => by apply Hev, He3, He2, He1 end.
Qed.

Lemma start_task_go s t :
  safe g0 s → t ∈ runq_buildable s → go s (start_task dataCaches policy cf e t) (λ _ _, True).
Proof.
  intros Hs Ht. unfold start_task. go_step. destruct a as [[[mc fn] tn] tf].
  apply (go_bind _ _ _ _ (λ _ _, True)); [repeat go_step|intros u s1 Hs1 He1 _].
  apply He1 in Ht as Ht1. destruct u; [repeat go_step|]. go_step. destruct (bool_decide _).
  { eapply go_bind; [by apply task_skip_go|intros [] s2 Hs2 _ _]. repeat go_step. }
  eapply go_bind; [by apply stamp_current_go|intros c s2 Hs2 He2 _]. apply He2 in Ht1 as Ht2. destruct c.
  { eapply go_bind; [by apply task_skip_go|intros [] s3 Hs3 _ _]. repeat go_step. }
  go_step. destruct a; [|by apply run_task_go].
  eapply go_bind; [by apply run_noexec_go|intros [] s3 Hs3 _ _]. repeat go_step.
Qed.

Lemma wait_or_end_go s : safe g0 s → go s (wait_or_end dataCaches cf e) (λ _ _, True).
Proof. intros Hs. unfold wait_or_end. repeat go_step. Qed.
#[local] Hint Resolve wait_or_end_go : go.

Lemma execute_go s :
  safe g0 s → go s (execute dataCaches taskData policy number_threads cf e) (λ _ _, True).
Proof.
  intros Hs. unfold execute. go_step. go_step.
  apply (go_bind _ _ _ _ (λ _ _, True)); [repeat go_step|intros [] s1 Hs1 _ _]. go_step.
  apply (go_bind _ _ _ _ (λ _ _, True)); [repeat go_step|intros choice s2 Hs2 _ _].
  apply (go_bind _ _ _ _ (λ _ _, True)); [repeat go_step|intros ret s3 Hs3 _ _]. go_step; [repeat go_step|].
  go_step. go_step. go_step; [repeat go_step|].
  eapply (go_bind _ _ _ _ (λ o s', match o with Some t => t ∈ runq_buildable s' | None => True end));
    [destruct (cf_setsceneonly cf); [by apply go_ret|by apply sched_next_go]|intros task s6 Hs6 _ Ht].
  apply (go_bind _ _ _ _ (λ _ _, True)); [|intros; repeat go_step].
  destruct task; [by apply start_task_go|repeat go_step].
Qed.

Lemma start_running_go s : safe g0 s → go s (start_running cf) (λ _ _, True).
Proof.
  intros Hs. unfold start_running. repeat go_step.
  eapply go_any, setbuildable_go; [done|].
  match goal with Hx : ?kv ∈ rq_graph s |- _ => destruct kv as [t en]; rename Hx into Hin end.
  apply elem_of_dget in Hin; [|change (NoDup (dkeys (rq_graph s))); rewrite (proj1 (safe_shape _ _ Hs)); exact Hwf].
  rewrite <-(same_shape_deps _ _ _ (safe_shape _ _ Hs)). simpl. unfold deps_of. rewrite Hin.
  match goal with Hb : bool_decide (depends _ = ∅) = true |- _ => apply bool_decide_eq_true_1 in Hb; simpl in Hb; rewrite Hb end.
  apply empty_subseteq.
Qed.

Lemma execute_runqueue_go s :
  safe g0 s → go s (execute_runqueue dataCaches taskData policy number_threads cf e) (λ _ _, True).
Proof.
  intros Hs. unfold execute_runqueue. go_step.
  apply (go_bind _ _ _ _ (λ _ _, True)); [repeat go_step; by apply start_running_go|intros [] s1 Hs1 _ _]. go_step.
  apply (go_bind _ _ _ _ (λ _ _, True)); [repeat go_step; by apply execute_go|intros r s2 Hs2 _ _]. repeat go_step.
Qed.
End env.

(** ** A build *)

Lemma init_basic_ok gen g s : init_basic dataCaches gen g ∅ = Ok s → s_buildable s = ∅.
Proof. unfold init_basic. intros Hs. by apply res_bind_Ok in Hs as (st & _ & [= <-]). Qed.

Lemma init_speed_ok' gen g s : init_speed dataCaches gen g ∅ = Ok s → s_buildable s = ∅.
Proof.
  unfold init_speed. intros Hs. apply res_bind_Ok in Hs as (b & Hb & [= <-]). simpl. by eapply init_basic_ok.
Qed.

Lemma make_scheduler_ok gen name g s : make_scheduler dataCaches gen name g ∅ = Ok s → s_buildable s = ∅.
Proof.
  unfold make_scheduler. case_bool_decide; [apply init_basic_ok|]. case_bool_decide; [apply init_speed_ok'|].
  case_bool_decide; [|done]. unfold init_completion. intros Hs. apply res_bind_Ok in Hs as (b & Hb & Hs).
  apply res_bind_Ok in Hs as (p & _ & [= <-]). simpl. by eapply init_speed_ok'.
Qed.

Lemma group_kind_fueled task l st : fueled (group_kind task l st).
Proof. revert st. induction l as [|i l IH]; intros [p t]; simpl; [done|]. fueled. Qed.

Lemma make_scheduler_fueled gen name g b : fueled (make_scheduler dataCaches gen name g b).
Proof.
  assert (fueled (init_basic dataCaches gen g b)) as Hb by (unfold init_basic, task_stamps; fueled).
  assert (fueled (init_speed dataCaches gen g b)) as Hsp by (unfold init_speed; fueled).
  unfold make_scheduler. fueled. unfold init_completion, completion_map, task_lists.
  fueled. apply group_kind_fueled.
Qed.

Lemma init_safe (gen : G) sch : s_buildable sch = ∅ → safe g0 (init_rqe cf g0 gen sch).
Proof.
  intros Hsch. split; simpl; try done.
  - rewrite Hsch. apply empty_subseteq.
  - intros [|b l1] a l2 t d E; simplify_eq/=.
Qed.

(** The states of a build: from a new [RunQueueExecute], by any number of
    calls of [_execute_runqueue] that return, each in an environment with
    [ok]: what happened outside until then.  A call that raises is the last. *)
Inductive reachable (ok : env → Prop) (scheduler_name : string) (gen : G) : rqe G → Prop :=
  | reachable_new e s :
      ok e → new_execute dataCaches taskData policy cf scheduler_name e g0 gen = Ok s →
      reachable ok scheduler_name gen s
  | reachable_call e s s' o :
      ok e → reachable ok scheduler_name gen s →
      execute_runqueue dataCaches taskData policy number_threads cf e s = (s', Ok o) →
      reachable ok scheduler_name gen s'.

Lemma new_execute_ok name e gen :
  env_fueled e →
  match new_execute dataCaches taskData policy cf name e g0 gen with Ok s => safe g0 s | Raise x => x ≠ OutOfFuel end.
Proof.
  intros He. unfold new_execute. destruct (_ <=? _)%Z; [done|].
  pose proof (make_scheduler_fueled gen name g0 ∅) as Hm.
  destruct (make_scheduler dataCaches gen name g0 ∅) as [sch|x] eqn:Es; simpl; [|by intros ->].
  apply make_scheduler_ok in Es. destruct (build_scenequeue_data_go e He _ (init_safe gen sch Es)) as [_ Hb].
  destruct (build_scenequeue_data _ _ _ _ _ _) as [s [a|x]]; by destruct Hb.
Qed.

Lemma reachable_safe ok name gen s :
  (∀ e, ok e → env_fueled e) → reachable ok name gen s → safe g0 s.
Proof.
  intros Hok. induction 1 as [e s He Hn|e s s' o He _ IH Hx]; apply Hok in He.
  - pose proof (new_execute_ok name e gen He) as Ho. by rewrite Hn in Ho.
  - destruct (execute_runqueue_go e He s IH) as [_ Ho]. rewrite Hx in Ho. apply Ho.
Qed.

Lemma execute_runqueue_safe ok name gen e s :
  (∀ e, ok e → env_fueled e) → ok e → reachable ok name gen s →
  safe g0 (execute_runqueue dataCaches taskData policy number_threads cf e s).1 ∧
  fueled (execute_runqueue dataCaches taskData policy number_threads cf e s).2.
Proof.
  intros Hok He Hr. destruct (execute_runqueue_go e (Hok e He) s (reachable_safe _ _ _ _ Hok Hr)) as [_ Ho].
  destruct (execute_runqueue _ _ _ _ _ _ _) as [s' [a|x]]; simpl; [by destruct Ho|]. destruct Ho as [? Ho].
  split; [done|]. by intros [= ->].
Qed.
End operations.
