(* ===== verification/ExecSteady.v ===== *)
(** * How many tasks run, and how a build ends (bb/runqueue.py)

    What holds between two calls of [execute]: the counters of active tasks
    agree with the log, no more tasks are in flight than [BB_NUMBER_THREADS]
    allows, no task was started twice, and the build is complete only when all
    its tasks are.  It holds when there is no setscene whitelist and fakeroot
    workers can be started: in both other cases the code counts a task as
    failed that it never counted as active. *)

From Stdlib Require Import Ascii String.
From S2P Require Import Prelude.
From S2P Require Import PyStr.
From S2P Require Import PyDict.
From S2P Require Import Runs.
From S2P Require Import TaskIds.
From S2P Require Import Cache.
From S2P Require Import TaskData.
From S2P Require Import TaskGraph.
From S2P Require Import Stamps.
From S2P Require Import Sched.
From S2P Require Import Exec.
From S2P Require Import Execute.
From S2P Require Import ExecFuel.
From S2P Require Import ExecSafe.

(** ** Tasks in flight *)

(** What an action changes about the number of tasks in flight. *)
Definition flight (a : action) : Z :=
  match a with
  | TaskStarted _ _ | SceneStarted _ => 1
  | TaskCompleted _ | TaskFailed _ _ | SceneCompleted _ | SceneFailed _ _ => -1
  | _ => 0
  end.

Fixpoint in_flight (l : list action) : Z :=
  match l with [] => 0 | a :: l => flight a + in_flight l end.

(** The ordinary tasks that were started. *)
Fixpoint started (l : list action) : list string :=
  match l with
  | [] => []
  | TaskStarted t _ :: l => t :: started l
  | _ :: l => started l
  end.

Lemma in_flight_app l l' : in_flight (l ++ l') = (in_flight l + in_flight l')%Z.
Proof. induction l as [|a l IH]; simpl; [done|]. rewrite IH. lia. Qed.

Lemma started_app l l' : started (l ++ l') = started l ++ started l'.
Proof. induction l as [|[] l IH]; simpl; by rewrite ?IH. Qed.

Lemma started_nil a : starts a = None → started [a] = [].
Proof. by destruct a. Qed.

(** At no time more than [n] tasks were in flight. *)
Definition bounded (n : Z) (l : list action) : Prop := ∀ l1 l2, l = l1 ++ l2 → (in_flight l1 ≤ n)%Z.

Lemma bounded_snoc n l a : bounded n l → (in_flight l + flight a ≤ n)%Z → bounded n (l ++ [a]).
Proof.
  intros Hl Ha l1 l2 E. destruct l2 as [|b l2 _] using rev_ind.
  - rewrite app_nil_r in E. subst. rewrite in_flight_app. simpl. lia.
  - rewrite app_assoc in E. apply app_inj_tail in E as [-> _]. by eapply Hl.
Qed.

Section steady.
Context {G : Type} (cf : config) (g0 : graph).

Definition active_tasks (s : rqe G) : Z := (active (stats s) + active (sq_stats s))%Z.

(** [k]: tasks that started and are not counted yet; [p]: the task that
    started and is not noted as running yet. *)
Record counted (k : Z) (p : option string) (s : rqe G) : Prop := {
  st_count : (active_tasks s + k)%Z = in_flight (log s);
  st_bound : bounded (number_tasks cf) (log s);
  st_once : NoDup (started (log s));
  st_running : ∀ t, t ∈ started (log s) → t ∈ runq_running s ∨ p = Some t;
  st_failed : ∀ t c, TaskFailed t c ∈ log s → t ∈ failed_tids s;
  st_cleanup : rq_state s = RQCleanUp → failed_tids s ≠ [];
  st_total : total (stats s) = Z.of_nat (List.length g0);
  st_keys : dkeys (rq_graph s) = dkeys g0
}.

(** While the build goes on. *)
Definition steady (k : Z) (p : option string) (s : rqe G) : Prop :=
  counted k p s ∧ rq_state s ≠ RQComplete.

(** All is done. *)
Definition finished (s : rqe G) : Prop :=
  keys g0 ⊆ runq_complete s ∧ (failed_tids s = [] ∨ g0 = []).

(** After a call. *)
Definition settled (s : rqe G) : Prop :=
  counted 0 None s ∧ (rq_state s = RQComplete → cf_setsceneonly cf = false → finished s).

(** The fields [steady] is about. *)
Definition counters (s : rqe G) :=
  (stats s, sq_stats s, log s, runq_running s, failed_tids s, rq_state s, dkeys (rq_graph s)).

Lemma counters_steady k p s s' : counters s' = counters s → steady k p s → steady k p s'.
Proof.
  unfold counters. intros E [Hc Ho]. injection E as E1 E2 E3 E4 E5 E6 E7.
  split; [|by rewrite E6]. destruct Hc. unfold active_tasks in *.
  split; unfold active_tasks; rewrite ?E1, ?E2, ?E3, ?E4, ?E5, ?E6, ?E7; done.
Qed.

Lemma steady_settled s : steady 0 None s → settled s.
Proof. intros [Hc Ho]. by split. Qed.

Lemma quiet_st k p s f : steady k p s → (∀ s, counters (f s) = counters s) → returns s (modify f) (λ _ s', steady k p s').
Proof. intros Hs Hf. apply returns_modify. eapply counters_steady; [apply Hf|done]. Qed.

(** A task is counted, or no more. *)
Lemma on_stats_st k p s f :
  steady k p s → (∀ x, total (f x) = total x) →
  returns s (on_stats f) (λ _ s', steady (k + active (stats s) - active (f (stats s))) p s').
Proof.
  intros [[] Ho] Hf. split; [|done]. split; simpl; try done; [|by rewrite Hf].
  unfold active_tasks in *. simpl. lia.
Qed.

Lemma on_sq_stats_st k p s f :
  steady k p s → returns s (on_sq_stats f) (λ _ s', steady (k + active (sq_stats s) - active (f (sq_stats s))) p s').
Proof.
  intros [[] Ho]. split; [|done]. split; simpl; try done. unfold active_tasks in *. simpl. lia.
Qed.

Lemma act_st k p s a :
  steady k p s → (∀ t b, a ≠ TaskStarted t b) → (∀ t c, a = TaskFailed t c → t ∈ failed_tids s) →
  (flight a ≤ 0)%Z → returns s (act a) (λ _ s', steady (k + flight a) p s').
Proof.
  intros [[] Ho] Ha Hf Hfl. split; [|done].
  assert (started (log s ++ [a]) = started (log s)) as Es.
  { rewrite started_app. destruct a; simpl; try apply app_nil_r. by destruct (Ha tid noexec). }
  split; simpl; try done.
  - unfold active_tasks in *. simpl. rewrite in_flight_app. simpl. lia.
  - apply bounded_snoc; [done|]. pose proof (st_bound0 (log s) [] ltac:(by rewrite app_nil_r)). lia.
  - by rewrite Es.
  - intros t. rewrite Es. apply st_running0.
  - intros t c [?|Ht%list_elem_of_singleton]%elem_of_app; [by eapply st_failed0|]. by eapply Hf.
Qed.

(** A start that the limit allows. *)
Lemma act_start s a :
  steady 0 None s → can_start_task cf s = true → flight a = 1%Z →
  (∀ t b, a = TaskStarted t b → t ∉ runq_running s) →
  returns s (act a) (λ _ s', steady 1 (starts a) s').
Proof.
  intros [[] Ho] Hc Hfl Ha. split; [|done].
  assert (in_flight (log s) < number_tasks cf)%Z as Hlt.
  { unfold can_start_task in Hc. apply Z.ltb_lt in Hc. unfold active_tasks in *. lia. }
  split; simpl; try done.
  - unfold active_tasks in *. simpl. rewrite in_flight_app. simpl. lia.
  - apply bounded_snoc; [done|lia].
  - rewrite started_app. apply NoDup_app. split; [done|]. destruct a; simpl in *; try done.
    + split; [|apply NoDup_singleton]. intros t Ht ->%list_elem_of_singleton.
      destruct (Ha tid noexec eq_refl). by destruct (st_running0 tid Ht).
    + split; [|apply NoDup_nil_2]. by intros ? ? ?%elem_of_nil.
  - intros t. rewrite started_app, elem_of_app. intros [Ht|Ht].
    + destruct (st_running0 t Ht); [by left|done].
    + destruct a; simpl in *; try done; [|by apply elem_of_nil in Ht].
      apply list_elem_of_singleton in Ht as ->. by right.
  - intros t c [?|Ht%list_elem_of_singleton]%elem_of_app; [by eapply st_failed0|]. by subst.
Qed.
End steady.

Create HintDb st.

(** Take an operation apart, as [go_step] does for [safe]. *)
Ltac st_step :=
  lazymatch goal with
  | |- returns _ (mret _) _ => apply returns_ret; try done
  | |- returns _ (raise _) _ => apply returns_raise
  | |- returns _ (get ≫= _) _ => apply returns_get
  | |- returns _ (lift _ ≫= _) _ => apply returns_lift_bind; intros ? ?
  | |- returns _ (lift _) _ => apply returns_lift; intros; try done
  | Hs : steady ?cf ?g ?k ?p ?s |- returns ?s (_ ≫= _) _ =>
      first [ solve [eauto 3 with st]
            | eapply returns_bind; [solve [eauto with st]|intros ? ? ?]
            | eapply returns_bind; [eapply quiet_st; [exact Hs|intros; reflexivity]|intros ? ? ?]
            | apply (returns_bind _ _ _ (λ _, steady cf g k p)); [|intros ? ? ?] ]; cbv beta in *
  | Hs : steady ?cf ?g ?k ?p ?s |- returns ?s (modify _) _ =>
      first [ solve [eauto with st]
            | eapply returns_mono; [eapply quiet_st; [exact Hs|intros; reflexivity]|intros; try done] ]
  | Hs : steady ?cf ?g ?k ?p ?s |- returns ?s (for_each _ _) _ =>
      eapply returns_mono; [apply (returns_for_each (steady cf g k p)); [exact Hs|intros ? ? ? ?]|intros ? ? ?; try done]
  | |- returns _ (match ?x with _ => _ end) _ => destruct x eqn:?
  | |- returns _ (if ?b then _ else _) _ => destruct b eqn:?
  | |- _ => solve [eauto with st]
  end.

Section operations.
Context {G : Type} `{SigGen G} `{!SetOrder string}.
Context (dataCaches : dict CacheData) (taskData : dict TaskData) (policy : stamp_policy).
Context (number_threads : string → res (option string)) (cf : config) (g0 : graph).
Hypothesis Hwhitelist : setscenewhitelist cf = None.

Abbreviation steady := (steady (G := G) cf g0).
Implicit Types (k : Z) (p : option string) (s : rqe G).

Lemma skipped_st k p s : steady k p s → returns s (on_stats taskSkipped) (λ _, steady (k - 1) p).
Proof.
  intros Hs. eapply returns_mono; [by apply on_stats_st|]. intros ? s'; simpl.
  by replace (k + active (stats s) - (active (stats s) + 1))%Z with (k - 1)%Z by lia.
Qed.
Lemma completed_st k p s : steady k p s → returns s (on_stats taskCompleted) (λ _, steady (k + 1) p).
Proof.
  intros Hs. eapply returns_mono; [by apply on_stats_st|]. intros ? s'; simpl.
  by replace (k + active (stats s) - (active (stats s) - 1))%Z with (k + 1)%Z by lia.
Qed.
Lemma failed_st k p s : steady k p s → returns s (on_stats taskFailed) (λ _, steady (k + 1) p).
Proof.
  intros Hs. eapply returns_mono; [by apply on_stats_st|]. intros ? s'; simpl.
  by replace (k + active (stats s) - (active (stats s) - 1))%Z with (k + 1)%Z by lia.
Qed.
Lemma sq_skipped_st k p s : steady k p s → returns s (on_sq_stats taskSkipped) (λ _, steady (k - 1) p).
Proof.
  intros Hs. eapply returns_mono; [by apply on_sq_stats_st|]. intros ? s'; simpl.
  by replace (k + active (sq_stats s) - (active (sq_stats s) + 1))%Z with (k - 1)%Z by lia.
Qed.
Lemma sq_completed_st k p s : steady k p s → returns s (on_sq_stats taskCompleted) (λ _, steady (k + 1) p).
Proof.
  intros Hs. eapply returns_mono; [by apply on_sq_stats_st|]. intros ? s'; simpl.
  by replace (k + active (sq_stats s) - (active (sq_stats s) - 1))%Z with (k + 1)%Z by lia.
Qed.
Lemma sq_failed_st k p s : steady k p s → returns s (on_sq_stats taskFailed) (λ _, steady (k + 1) p).
Proof.
  intros Hs. eapply returns_mono; [by apply on_sq_stats_st|]. intros ? s'; simpl.
  by replace (k + active (sq_stats s) - (active (sq_stats s) - 1))%Z with (k + 1)%Z by lia.
Qed.

Lemma neutral_st k p s a :
  steady k p s → flight a = 0%Z → returns s (act a) (λ _, steady k p).
Proof.
  intros Hs Ha. eapply returns_mono; [apply act_st; [exact Hs|by intros ? ? ->|by intros ? ? ->|lia]|].
  intros ? s'; cbv beta; by rewrite Ha, Z.add_0_r.
Qed.

Lemma on_sqdata_st k p s f : steady k p s → returns s (on_sqdata f) (λ _, steady k p).
Proof. intros Hs. by eapply quiet_st. Qed.

Lemma entry_of_st k p s t : steady k p s → returns s (entry_of t) (λ _, steady k p).
Proof. intros Hs. unfold entry_of. repeat st_step. Qed.
#[local] Hint Resolve neutral_st on_sqdata_st entry_of_st : st.

(** An event that ends a task, after the task was counted. *)
Lemma end_act_st k p s a :
  steady (k + 1) p s → flight a = (-1)%Z → (∀ t c, a = TaskFailed t c → t ∈ failed_tids s) →
  returns s (act a) (λ _, steady k p).
Proof.
  intros Hs Ha Hf. eapply returns_mono; [apply act_st; [exact Hs|by intros ? ? ->|done|lia]|].
  intros ? s'; cbv beta; rewrite Ha. by replace (k + 1 + -1)%Z with k by lia.
Qed.

Lemma setbuildable_st k p s t : steady k p s → returns s (setbuildable t) (λ _, steady k p).
Proof. intros Hs. unfold setbuildable. repeat st_step. Qed.
#[local] Hint Resolve setbuildable_st : st.

Lemma task_completeoutright_st k p s t : steady k p s → returns s (task_completeoutright t) (λ _, steady k p).
Proof. intros Hs. unfold task_completeoutright. repeat st_step. Qed.
#[local] Hint Resolve task_completeoutright_st : st.

Lemma task_complete_st k p s t : steady k p s → returns s (task_complete t) (λ _, steady k p).
Proof.
  intros Hs. unfold task_complete. eapply returns_bind; [by apply completed_st|intros [] s1 Hs1].
  eapply returns_bind; [by eapply end_act_st|intros [] s2 Hs2]. repeat st_step.
Qed.
#[local] Hint Resolve task_complete_st : st.

Lemma set_state_st k p s st :
  steady k p s → st ≠ RQComplete → (st = RQCleanUp → failed_tids s ≠ []) → returns s (set_state st) (λ _, steady k p).
Proof. intros [[] Ho] H1 H2. split; [|done]. by split. Qed.

Lemma add_failed_st k p s t :
  steady k p s →
  returns s (modify (λ s, set_failed_tids (failed_tids s ++ [t]) s)) (λ _ s', steady k p s' ∧ t ∈ failed_tids s').
Proof.
  intros [[] Ho]. apply returns_modify. simpl. split; [|apply elem_of_app; right; apply list_elem_of_here].
  split; [|done]. split; simpl; try done.
  - intros u c Hu. apply elem_of_app. left. by eapply st_failed0.
  - intros _. apply snoc_ne.
Qed.

Lemma set_running_st k p s t :
  steady k p s → returns s (modify (λ s, set_runq_running ({[t]} ∪ runq_running s) s)) (λ _, steady k p).
Proof.
  intros [[] Ho]. split; [|done]. split; simpl; try done. intros u Hu.
  destruct (st_running0 u Hu); [left; by apply elem_of_union_r|by right].
Qed.

(** The task that started is noted. *)
Lemma set_running_now k s t :
  steady k (Some t) s → returns s (modify (λ s, set_runq_running ({[t]} ∪ runq_running s) s)) (λ _, steady k None).
Proof.
  intros [[] Ho]. split; [|done]. split; simpl; try done. intros u Hu. left.
  destruct (st_running0 u Hu) as [?|[= ->]]; [by apply elem_of_union_r|by apply elem_of_union_l, elem_of_singleton].
Qed.

Lemma task_fail_st k p s t c : steady k p s → returns s (task_fail cf t c) (λ _, steady k p).
Proof.
  intros Hs. unfold task_fail. eapply returns_bind; [by apply failed_st|intros [] s1 Hs1].
  eapply returns_bind; [by apply add_failed_st|intros [] s2 [Hs2 Ht]].
  eapply (returns_bind _ _ _ (λ _ s', steady k p s' ∧ t ∈ failed_tids s')).
  { assert (∀ u d, TaskFailed t c = TaskFailed u d → u ∈ failed_tids s2) as Hf by by intros u d [= <- _].
    pose proof (end_act_st k p s2 (TaskFailed t c) Hs2 eq_refl Hf) as Ha. apply returns_modify. by split; [exact Ha|]. }
  intros [] s3 [Hs3 Ht3]. destruct (cf_abort cf); [|by apply returns_ret].
  apply set_state_st; [done..|]. intros _ E. rewrite E in Ht3. by apply elem_of_nil in Ht3.
Qed.

Lemma stats_skip_st k p s : steady k p s → returns s (_ ← on_stats taskSkipped; on_stats taskCompleted) (λ _, steady k p).
Proof.
  intros Hs. eapply returns_bind; [by apply skipped_st|intros [] s1 Hs1].
  eapply returns_mono; [by apply completed_st|]. intros ? s2; cbv beta. by rewrite Z.sub_add.
Qed.

Lemma sq_stats_skip_st k p s :
  steady k p s → returns s (_ ← on_sq_stats taskSkipped; on_sq_stats taskCompleted) (λ _, steady k p).
Proof.
  intros Hs. eapply returns_bind; [by apply sq_skipped_st|intros [] s1 Hs1].
  eapply returns_mono; [by apply sq_completed_st|]. intros ? s2; cbv beta. by rewrite Z.sub_add.
Qed.
#[local] Hint Resolve set_running_st task_fail_st stats_skip_st sq_stats_skip_st : st.

Lemma task_skip_st k p s t r : steady k p s → returns s (task_skip t r) (λ _, steady k p).
Proof. intros Hs. unfold task_skip. repeat st_step. Qed.

(** ** Setscene tasks *)

Lemma failoutright_st k p s t up :
  (∀ s b, steady k p s → returns s (up t b) (λ _, steady k p)) →
  steady k p s → returns s (failoutright up t) (λ _, steady k p).
Proof.
  intros Hup Hs. unfold failoutright. do 2 st_step.
  eapply returns_bind; [by apply sq_skipped_st|intros [] s3 Hs3].
  eapply returns_bind; [by apply sq_completed_st|intros [] s4 Hs4]. rewrite Z.sub_add in Hs4.
  st_step. by apply Hup.
Qed.

Lemma updatecounters_st k p n s t b : steady k p s → returns s (updatecounters cf n t b) (λ _, steady k p).
Proof.
  revert s t b. induction n as [|n IH]; intros s t b Hs; cbn [updatecounters]; [done|].
  repeat st_step. by apply failoutright_st; [intros; apply IH|].
Qed.
#[local] Hint Resolve updatecounters_st : st.

Lemma scenequeue_updatecounters_st k p s t b :
  steady k p s → returns s (scenequeue_updatecounters cf t b) (λ _, steady k p).
Proof. intros Hs. unfold scenequeue_updatecounters. repeat st_step. Qed.
#[local] Hint Resolve scenequeue_updatecounters_st : st.

Lemma sq_task_failoutright_st k p s t : steady k p s → returns s (sq_task_failoutright cf t) (λ _, steady k p).
Proof. intros Hs. apply failoutright_st; [intros; by apply scenequeue_updatecounters_st|done]. Qed.

Lemma sq_task_completeoutright_st k p s t :
  steady k p s → returns s (sq_task_completeoutright cf t) (λ _, steady k p).
Proof. intros Hs. unfold sq_task_completeoutright. repeat st_step. Qed.
#[local] Hint Resolve sq_task_failoutright_st sq_task_completeoutright_st : st.

Lemma sq_task_skip_st k p s t : steady k p s → returns s (sq_task_skip cf t) (λ _, steady k p).
Proof. intros Hs. unfold sq_task_skip. repeat st_step. Qed.

Lemma sq_task_complete_st k p s t : steady k p s → returns s (sq_task_complete cf t) (λ _, steady k p).
Proof.
  intros Hs. unfold sq_task_complete. eapply returns_bind; [by apply sq_completed_st|intros [] s1 Hs1].
  eapply returns_bind; [by eapply end_act_st|intros [] s2 Hs2]. repeat st_step.
Qed.

Lemma sq_task_fail_st k p s t r : steady k p s → returns s (sq_task_fail dataCaches cf t r) (λ _, steady k p).
Proof.
  intros Hs. unfold sq_task_fail, sq_check_taskfail. rewrite Hwhitelist.
  eapply returns_bind; [by apply sq_failed_st|intros [] s1 Hs1].
  eapply returns_bind; [by eapply end_act_st|intros [] s2 Hs2]. repeat st_step.
Qed.
#[local] Hint Resolve task_skip_st sq_task_skip_st sq_task_complete_st sq_task_fail_st : st.

(** ** Messages *)

Lemma release_stamp_st k p s t : steady k p s → returns s (release_stamp t) (λ _, steady k p).
Proof. intros Hs. unfold release_stamp. repeat st_step. Qed.
#[local] Hint Resolve release_stamp_st : st.

Lemma runqueue_process_waitpid_st k p s t c :
  steady k p s → returns s (runqueue_process_waitpid dataCaches cf t c) (λ _, steady k p).
Proof. intros Hs. unfold runqueue_process_waitpid. repeat st_step. Qed.
#[local] Hint Resolve runqueue_process_waitpid_st : st.

Lemma read_workers_st k p s inbox : steady k p s → returns s (read_workers dataCaches cf inbox) (λ _, steady k p).
Proof. intros Hs. unfold read_workers. repeat st_step. Qed.
#[local] Hint Resolve read_workers_st : st.

(** ** Checks and the setscene queue *)

Section env.
Context (e : env).
Hypothesis Hspawn : ∀ mc, e_spawn e mc = true.

Lemma stamp_current_st k p s t n r : steady k p s → returns s (stamp_current dataCaches policy e t n r) (λ _, steady k p).
Proof. intros Hs. unfold stamp_current. repeat st_step. Qed.

Lemma check_dependencies_same s t d : returns s (check_dependencies dataCaches cf e t d) (λ _ s', s' = s).
Proof. unfold check_dependencies. repeat st_step. Qed.

Lemma validate_hashes_same s c : returns s (validate_hashes dataCaches cf e c) (λ _ s', s' = s).
Proof. unfold validate_hashes. repeat st_step. Qed.

Lemma check_dependencies_st k p s t d :
  steady k p s → returns s (check_dependencies dataCaches cf e t d) (λ _, steady k p).
Proof. intros Hs. eapply returns_mono; [apply check_dependencies_same|]. by intros ? ? ->. Qed.

Lemma validate_hashes_st k p s c : steady k p s → returns s (validate_hashes dataCaches cf e c) (λ _, steady k p).
Proof. intros Hs. eapply returns_mono; [apply validate_hashes_same|]. by intros ? ? ->. Qed.

Lemma summarise_st k p s : steady k p s → returns s (summarise_scenequeue_errors cf) (λ _, steady k p).
Proof. intros Hs. unfold summarise_scenequeue_errors. repeat st_step. Qed.
#[local] Hint Resolve stamp_current_st check_dependencies_st validate_hashes_st summarise_st : st.

Lemma update_holdofftasks_st k p s : steady k p s → returns s (update_holdofftasks cf) (λ _, steady k p).
Proof. intros Hs. unfold update_holdofftasks. repeat st_step. Qed.

Lemma update_one_st k p s t : steady k p s → returns s (update_one dataCaches policy cf e t) (λ _, steady k p).
Proof. intros Hs. unfold update_one. repeat st_step. Qed.
#[local] Hint Resolve update_holdofftasks_st update_one_st : st.

Lemma filter_each_st k p s l f :
  (∀ s t, steady k p s → returns s (f t) (λ _, steady k p)) → steady k p s → returns s (filter_each f l) (λ _, steady k p).
Proof.
  intros Hf. revert s. induction l as [|x l IH]; intros s Hs; simpl; [done|].
  eapply returns_bind; [by apply Hf|]. intros b s1 Hs1. cbv beta in *.
  eapply returns_bind; [by apply IH|]. intros r s2 Hs2. by apply returns_ret.
Qed.

Lemma defer_one_st k p s mc t : steady k p s → returns s (defer_one dataCaches mc t) (λ _, steady k p).
Proof. intros Hs. unfold defer_one. repeat st_step. Qed.
#[local] Hint Resolve defer_one_st : st.

Lemma update_scenequeue_data_st k p s l :
  steady k p s → returns s (update_scenequeue_data dataCaches policy cf e l) (λ _, steady k p).
Proof.
  intros Hs. unfold update_scenequeue_data.
  eapply returns_bind; [by apply filter_each_st; [intros; by apply update_one_st|]|intros tocheck s1 Hs1].
  cbv beta in *. repeat st_step.
Qed.
#[local] Hint Resolve update_scenequeue_data_st : st.

Lemma find_unskippable_st k p fuel s un : steady k p s → returns s (find_unskippable cf fuel un) (λ _, steady k p).
Proof.
  revert s un. induction fuel as [|fuel IH]; intros s un Hs; cbn [find_unskippable]; [done|]. repeat st_step.
Qed.
#[local] Hint Resolve find_unskippable_st : st.

Lemma build_scenequeue_data_st k p s :
  steady k p s → returns s (build_scenequeue_data dataCaches taskData policy cf e) (λ _, steady k p).
Proof. intros Hs. unfold build_scenequeue_data. repeat st_step. Qed.

(** ** Changed hashes *)

Lemma on_siggen_st {A} k p s (m : M G A) : steady k p s → returns s (on_siggen m) (λ _, steady k p).
Proof.
  intros Hs. unfold returns, on_siggen. destruct (m (rq_siggen s)) as [g [a|x]]; [|done].
  by apply (counters_steady _ _ _ _ s).
Qed.

Lemma update_entry_st k p s t f : steady k p s → returns s (update_entry t f) (λ _, steady k p).
Proof.
  intros Hs. unfold update_entry, entry_of. eapply returns_bind; [|intros x s1 Hx; exact Hx].
  eapply (returns_mono _ _ (λ x s', s' = s ∧ dget (rq_graph s) t = Some x)).
  - apply returns_get, returns_lift. by intros x Hx%of_option_Ok.
  - intros x s' [-> Hx]. apply returns_modify. apply (counters_steady _ _ _ _ s); [|done].
    unfold counters. simpl. rewrite dkeys_dset, (proj2 (dmem_spec (rq_graph s) t)); [done|].
    apply elem_of_dkeys. by eexists.
Qed.
#[local] Hint Resolve build_scenequeue_data_st on_siggen_st update_entry_st : st.

Lemma fold_exec_st {A B} k p s (f : A → B → M (rqe G) A) acc l :
  steady k p s → (∀ a x s, steady k p s → returns s (f a x) (λ _, steady k p)) →
  returns s (fold_exec f acc l) (λ _, steady k p).
Proof.
  intros Hs Hf. revert s acc Hs. induction l as [|x l IH]; intros s acc Hs; simpl; [done|].
  eapply returns_bind; [by apply Hf|]. intros a s1 Hs1. by apply IH.
Qed.

Lemma queue_one_st k p s acc m : steady k p s → returns s (queue_one acc m) (λ _, steady k p).
Proof. intros Hs. unfold queue_one. repeat st_step. Qed.

Lemma rehash_one_st k p s q st t : steady k p s → returns s (rehash_one q st t) (λ _, steady k p).
Proof. intros Hs. unfold rehash_one. repeat st_step. Qed.

Lemma rehash_st k p fuel s q next total ch : steady k p s → returns s (rehash q fuel next total ch) (λ _, steady k p).
Proof.
  revert s next total ch. induction fuel as [|fuel IH]; intros s next total ch Hs; cbn [rehash]; [done|].
  destruct (bool_decide _); [done|].
  eapply returns_bind; [apply fold_exec_st; [done|intros; by apply rehash_one_st]|]. intros [[n u] c] s1 Hs1. by apply IH.
Qed.
#[local] Hint Resolve queue_one_st rehash_st fold_exec_st : st.

Lemma rehash_dependees_st k p s tp : steady k p s → returns s (rehash_dependees tp) (λ _, steady k p).
Proof. intros Hs. unfold rehash_dependees. repeat st_step. Qed.

Lemma undo_covered_st k p s t l : steady k p s → returns s (undo_covered t l) (λ _, steady k p).
Proof.
  revert s. induction l as [|d l IH]; intros s Hs; cbn [undo_covered]; [done|]. st_step. destruct (_ && _); [|repeat st_step].
  eapply returns_bind; [by apply add_failed_st|intros [] s1 [Hs1 Ht]].
  eapply returns_bind; [apply set_state_st; [exact Hs1|done|]|intros [] s2 Hs2; repeat st_step].
  intros _ E. rewrite E in Ht. by apply elem_of_nil in Ht.
Qed.
#[local] Hint Resolve rehash_dependees_st undo_covered_st : st.

Lemma migrate_one_st k p s t : steady k p s → returns s (migrate_one dataCaches t) (λ _, steady k p).
Proof. intros Hs. unfold migrate_one. repeat st_step. Qed.
#[local] Hint Resolve migrate_one_st : st.

Lemma migrate_st k p s l : steady k p s → returns s (migrate dataCaches l) (λ _, steady k p).
Proof. revert s. induction l as [|t l IH]; intros s Hs; cbn [migrate]; repeat st_step. Qed.
#[local] Hint Resolve migrate_st : st.

Lemma process_possible_migrations_st k p s :
  steady k p s → returns s (process_possible_migrations dataCaches policy cf e) (λ _, steady k p).
Proof. intros Hs. unfold process_possible_migrations. repeat st_step. Qed.
#[local] Hint Resolve process_possible_migrations_st : st.

(** ** Starting a setscene task *)

(** The loop that finds a setscene task to run changes no counter then. *)
Definition unmoved (s s' : rqe G) : Prop := stats s' = stats s ∧ sq_stats s' = sq_stats s.

Lemma undefer_st k p s t : steady k p s → returns s (undefer dataCaches cf e t) (λ _, steady k p).
Proof. intros Hs. unfold undefer. repeat st_step. Qed.

Lemma undefer_unmoved s t :
  returns s (undefer dataCaches cf e t) (λ o s', match o with None => True | Some _ => unmoved s s' end).
Proof.
  unfold undefer. apply returns_get. destruct (dget _ _); [|done]. destruct (bool_decide _); [done|].
  apply returns_modify_bind. eapply returns_bind; [apply validate_hashes_same|]. intros v s1 ->.
  destruct (bool_decide _); [|apply returns_get; destruct (bool_decide _); [|done]; by apply returns_modify_bind].
  unfold returns. rewrite M_bind_eq. by destruct (sq_task_failoutright _ _ _) as [? [|]].
Qed.
#[local] Hint Resolve undefer_st : st.

Lemma consider_scene_st k p s t : steady k p s → returns s (consider_scene dataCaches cf e t) (λ _, steady k p).
Proof. intros Hs. unfold consider_scene. repeat st_step. Qed.
#[local] Hint Resolve consider_scene_st : st.

Lemma consider_scene_unmoved s t :
  returns s (consider_scene dataCaches cf e t) (λ c s', match c with Some SceneReturn => True | _ => unmoved s s' end).
Proof.
  unfold consider_scene. apply returns_get. destruct (_ || _); [done|]. apply returns_lift_bind. intros st _.
  destruct (bool_decide _); [done|]. eapply (returns_bind _ _ _ (λ _ s', s' = s)).
  { destruct (bool_decide _); [done|]. apply returns_lift_bind. intros revs _.
    destruct (_ || _); [done|]. apply check_dependencies_same. }
  intros un s1 ->. destruct (_ && _).
  { unfold returns. repeat (rewrite M_bind_eq; destruct (_ _ _) as [? [|]]; [|done]). done. }
  apply returns_lift_bind. intros cov _. eapply returns_bind; [apply undefer_unmoved|].
  intros [[]|] s1 H1; [|done..]. apply returns_get. destruct (bool_decide _); [|done].
  unfold returns. rewrite M_bind_eq. by destruct (sq_task_failoutright _ _ _) as [? [|]].
Qed.

Lemma find_scene_st k p s l : steady k p s → returns s (find_scene dataCaches cf e l) (λ _, steady k p).
Proof. revert s. induction l as [|t l IH]; intros s Hs; cbn [find_scene]; repeat st_step. Qed.

Lemma find_scene_unmoved s l :
  returns s (find_scene dataCaches cf e l) (λ c s', match c with SceneReturn => True | _ => unmoved s s' end).
Proof.
  revert s. induction l as [|t l IH]; intros s; cbn [find_scene]; [done|].
  eapply returns_bind; [apply consider_scene_unmoved|]. intros [[]|] s1 H1; [done..|].
  eapply returns_mono; [apply IH|]. intros [] s2; [done|..]; destruct H1 as [E1 E2]; intros [E3 E4];
    (split; congruence).
Qed.

Lemma active_st k p s : steady k p s → returns s (on_stats taskActive) (λ _, steady (k - 1) p).
Proof.
  intros Hs. eapply returns_mono; [by apply on_stats_st|]. intros ? s'; simpl.
  by replace (k + active (stats s) - (active (stats s) + 1))%Z with (k - 1)%Z by lia.
Qed.
Lemma sq_active_st k p s : steady k p s → returns s (on_sq_stats taskActive) (λ _, steady (k - 1) p).
Proof.
  intros Hs. eapply returns_mono; [by apply on_sq_stats_st|]. intros ? s'; simpl.
  by replace (k + active (sq_stats s) - (active (sq_stats s) + 1))%Z with (k - 1)%Z by lia.
Qed.

Lemma hold_stamp_st k p s x t : steady k p s → returns s (hold_stamp dataCaches x t) (λ _, steady k p).
Proof. intros Hs. unfold hold_stamp. repeat st_step. Qed.

Lemma ensure_fakeworker_st k p s t :
  steady k p s → returns s (ensure_fakeworker e t) (λ b s', b = true ∧ steady k p s').
Proof.
  intros Hs. unfold ensure_fakeworker. apply returns_get. destruct (bool_decide _); [done|]. rewrite Hspawn.
  apply returns_modify_bind, returns_ret. split; [done|]. by apply (counters_steady _ _ _ _ s).
Qed.

Lemma spawned_st k p s (f : bool) t :
  steady k p s → returns s (if f then ensure_fakeworker e t else mret true) (λ b s', b = true ∧ steady k p s').
Proof. intros Hs. destruct f; [by apply ensure_fakeworker_st|done]. Qed.

Lemma stamp_current_same s t n r :
  returns s (stamp_current dataCaches policy e t n r) (λ _ s', ∃ c, s' = set_stampcache c s).
Proof.
  unfold stamp_current. apply returns_get, returns_lift_bind. intros [b c] _.
  apply returns_modify_bind, returns_ret. by exists c.
Qed.
#[local] Hint Resolve hold_stamp_st : st.

(** A scene task may start. *)
Definition may_run (s : rqe G) : Prop := steady 0 None s ∧ can_start_task cf s = true.

Lemma stamp_current_may_run s t n r :
  may_run s → returns s (stamp_current dataCaches policy e t n r) (λ _, may_run).
Proof.
  intros [Hs Hc]. eapply returns_mono; [apply stamp_current_same|]. intros b s' [c ->].
  split; [by apply (counters_steady _ _ _ _ s)|done].
Qed.

Lemma start_scene_st s t :
  may_run s → returns s (start_scene dataCaches taskData policy cf e t) (λ _, steady 0 None).
Proof.
  intros Hs. unfold start_scene. st_step. destruct a as [[[mc fn] tn] tf].
  eapply returns_bind; [by apply stamp_current_may_run|intros b s1 [Hs1 Hc1]]. destruct b; [repeat st_step|].
  destruct (_ && _); [repeat st_step|].
  eapply returns_bind; [by apply stamp_current_may_run|intros b s2 [Hs2 Hc2]]. destruct b; [repeat st_step|].
  destruct (cf_skipsetscene cf); [repeat st_step|].
  eapply returns_bind; [by apply act_start|intros [] s3 Hs3]. simpl in Hs3. do 2 st_step. do 2 st_step.
  eapply returns_bind; [by apply spawned_st|intros b s5 [-> Hs5]]. cbn [negb]. unfold send_task.
  do 4 st_step.
  eapply returns_bind; [by apply sq_active_st|intros [] s9 Hs9]. repeat st_step.
Qed.

(** ** Starting a task *)

Lemma complete_settled s :
  steady 0 None s → (cf_setsceneonly cf = false → finished g0 s) → returns s (set_state RQComplete) (λ _, settled cf g0).
Proof. intros [[] Ho] Hf. split; [by split|]. intros _. apply Hf. Qed.

Lemma state_settled s st :
  steady 0 None s → st = RQFailed → returns s (set_state st) (λ _, settled cf g0).
Proof.
  intros Hs ->. eapply returns_mono; [by apply (set_state_st 0 None)|].
  intros ? s' Hs'. by apply steady_settled.
Qed.

Lemma setscene_completed_st s :
  steady 0 None s → returns s (setscene_completed cf) (λ b s', if b then settled cf g0 s' else steady 0 None s').
Proof.
  intros Hs. unfold setscene_completed. st_step. destruct (_ && _); [|done]. st_step.
  destruct a; [eapply returns_bind; [by apply state_settled|intros [] s2 Hs2; done]|].
  destruct (cf_setsceneonly cf) eqn:Eo.
  { eapply returns_bind; [apply complete_settled; [eassumption|congruence]|intros [] s2 Hs2; done]. }
  st_step. case_match eqn:Et; [|done].
  eapply returns_bind; [apply complete_settled; [eassumption|]|intros [] s3 Hs3; done]. intros _.
  apply Z.eqb_eq in Et. rewrite (st_total _ _ _ _ _ (proj1 Hs)) in Et.
  destruct g0; [|simpl in Et; lia]. split; [apply empty_subseteq|by right].
Qed.

(** A task that was not started may run. *)
Definition may_start_task (t : string) (s : rqe G) : Prop := may_run s ∧ t ∉ runq_running s.

Lemma sched_next_st s :
  steady 0 None s →
  returns s (sched_next number_threads cf)
    (λ o s', match o with Some t => may_start_task t s' | None => steady 0 None s' end).
Proof.
  intros Hs. unfold sched_next. st_step. destruct (can_start_task cf s) eqn:Ec; cbn [negb]; [|done].
  st_step. destruct a as [sch task].
  match goal with Hn : next_buildable_task _ _ _ _ = _ |- _ => destruct (next_buildable_subset _ _ _ _ _ _ Hn) as [_ Ht] end.
  apply returns_modify_bind, returns_ret. pose proof (counters_steady _ _ _ _ s (set_sched sch s) eq_refl Hs).
  destruct task as [t|]; [|done]. by destruct Ht as (_ & ? & _).
Qed.

Lemma run_noexec_st s n t : may_start_task t s → returns s (run_noexec cf n t) (λ _, steady 0 None).
Proof.
  intros [[Hs Hc] Ht]. unfold run_noexec.
  eapply returns_bind; [apply act_start; [done..|by intros ? ? [= <- _]]|intros [] s1 Hs1].
  eapply returns_bind; [by apply set_running_now|intros [] s2 Hs2].
  eapply returns_bind; [by apply active_st|intros [] s3 Hs3]. repeat st_step.
Qed.

Lemma run_task_st s t : may_start_task t s → returns s (run_task dataCaches cf e t) (λ _, steady 0 None).
Proof.
  intros [[Hs Hc] Ht]. unfold run_task.
  eapply returns_bind; [apply act_start; [done..|by intros ? ? [= <- _]]|intros [] s1 Hs1]. do 3 st_step.
  eapply returns_bind; [by apply spawned_st|intros b s2 [-> Hs2]]. cbn [negb]. unfold send_task. do 2 st_step.
  eapply returns_bind; [by apply set_running_now|intros [] s5 Hs5].
  eapply returns_bind; [by apply active_st|intros [] s6 Hs6]. repeat st_step.
Qed.

Lemma start_task_st s t :
  may_start_task t s → returns s (start_task dataCaches policy cf e t) (λ _, steady 0 None).
Proof.
  intros Ht. assert (steady 0 None s) as Hs by apply Ht. unfold start_task. st_step.
  destruct a as [[[mc fn] tn] tf]. rewrite Hwhitelist.
  eapply (returns_bind _ _ _ (λ b s', b = false ∧ s' = s)); [by apply returns_ret|intros b s1 [-> ->]]. st_step.
  destruct (bool_decide _); [repeat st_step|].
  eapply (returns_bind _ _ _ (λ _, may_start_task t)).
  { eapply returns_mono; [apply stamp_current_same|]. intros b s' [c ->].
    destruct Ht as [[_ Hc] Ht]. split; [split; [by apply (counters_steady _ _ _ _ s)|done]|done]. }
  intros c s1 Ht1. assert (steady 0 None s1) as Hs1 by apply Ht1. destruct c; [repeat st_step|]. st_step.
  destruct a; [|by apply run_task_st].
  eapply returns_bind; [by apply run_noexec_st|intros [] s2 Hs2]. by apply returns_ret.
Qed.

Lemma summarise_failed s : returns s (summarise_scenequeue_errors cf) (λ _ s', failed_tids s' = failed_tids s).
Proof.
  unfold summarise_scenequeue_errors. apply returns_get. eapply (returns_bind _ _ _ (λ _ s', failed_tids s' = failed_tids s)).
  - destruct (sqdone s); [done|]. by apply returns_modify.
  - intros ? s' E. by apply returns_ret.
Qed.

Lemma wait_or_end_st s : steady 0 None s → returns s (wait_or_end dataCaches cf e) (λ _, settled cf g0).
Proof.
  intros Hs. unfold wait_or_end. st_step. destruct (_ || _).
  { eapply returns_bind; [by apply read_workers_st|intros [] s1 Hs1]. apply returns_ret. by apply steady_settled. }
  destruct (sq_deferred s) as [|[key tid] l].
  - destruct (failed_tids s) eqn:Ef; simpl.
    2: { eapply returns_bind; [by apply state_settled|]. by intros []. }
    eapply returns_bind; [apply returns_and; [by apply summarise_st|by apply summarise_failed]|].
    intros err s1 [Hs1 Hf1]. apply returns_get. destruct (err || _) eqn:Eerr.
    { eapply returns_bind; [by apply state_settled|]. by intros []. }
    apply orb_false_iff in Eerr as [_ Eun].
    eapply returns_bind; [apply complete_settled; [done|]|by intros []]. intros _. split; [|left; congruence].
    intros t Ht. apply elem_of_keys in Ht. rewrite <-(st_keys _ _ _ _ _ (proj1 Hs1)) in Ht.
    destruct (decide (t ∈ runq_complete s1)) as [?|Hn]; [done|].
    assert (existsb (λ t, bool_decide (t ∉ runq_buildable s1) || bool_decide (t ∉ runq_running s1)
      || bool_decide (t ∉ runq_complete s1)) (dkeys (rq_graph s1)) = true) as Htrue; [|congruence].
    apply existsb_exists. exists t. split; [by apply list_elem_of_In|].
    by rewrite (bool_decide_eq_true_2 _ Hn), orb_true_r.
  - apply returns_modify_bind. eapply returns_bind; [apply (sq_task_failoutright_st 0 None)|].
    + by apply (counters_steady _ _ _ _ s).
    + intros [] s1 Hs1. apply returns_ret. by apply steady_settled.
Qed.

Lemma execute_st s :
  steady 0 None s → returns s (execute dataCaches taskData policy number_threads cf e) (λ _, settled cf g0).
Proof.
  intros Hs. unfold execute. do 3 st_step. { repeat st_step. } st_step.
  eapply (returns_bind _ _ _ (λ c s', match c with SceneRun _ => may_run s' | _ => steady 0 None s' end)).
  { destruct (negb _ && _) eqn:Ec; [|by apply returns_ret]. apply andb_true_iff in Ec as [_ Ec].
    eapply returns_mono; [apply returns_and; [by apply (find_scene_st 0 None)|apply find_scene_unmoved]|].
    intros c s1 [Hs1 Hc]. destruct c; [done| |done]. destruct Hc as [E1 E2]. split; [done|].
    unfold can_start_task in *. by rewrite E1, E2. }
  intros c s2 Hs2. eapply (returns_bind _ _ _ (λ _, steady 0 None)).
  { destruct c; [by apply returns_ret|by apply start_scene_st|by apply returns_ret]. }
  intros ret s3 Hs3. destruct ret; [apply returns_ret; by apply steady_settled|]. st_step.
  eapply returns_bind; [by apply setscene_completed_st|intros b s5 Hs5]. destruct b; [by apply returns_ret|].
  eapply (returns_bind _ _ _ (λ o s', match o with Some t => may_start_task t s' | None => steady 0 None s' end)).
  { destruct (cf_setsceneonly cf); [by apply returns_ret|by apply sched_next_st]. }
  intros task s6 Hs6. eapply (returns_bind _ _ _ (λ _, steady 0 None)).
  { destruct task; [by apply start_task_st|by apply returns_ret]. }
  intros b s7 Hs7. destruct b; [apply returns_ret; by apply steady_settled|]. by apply wait_or_end_st.
Qed.

Lemma finish_st s :
  steady 0 None s → failed_tids s ≠ [] → returns s (finish dataCaches cf e) (λ _, settled cf g0).
Proof.
  intros Hs Hf. unfold finish.
  eapply (returns_bind _ _ _ (λ _ s', steady 0 None s' ∧ failed_tids s' ≠ [])).
  { apply returns_modify. split; [by apply (set_state_st 0 None s RQCleanUp)|done]. }
  intros [] s1 [Hs1 Hf1]. st_step. destruct (0 <? _)%Z.
  - do 2 st_step. apply returns_ret. by apply steady_settled.
  - eapply (returns_bind _ _ _ (λ _, settled cf g0)); [|by intros []].
    unfold end_state. apply returns_get. destruct (failed_tids s1) eqn:E; [done|]. by apply state_settled.
Qed.

Lemma start_running_st s : steady 0 None s → returns s (start_running cf) (λ _, steady 0 None).
Proof.
  intros Hs. unfold start_running. eapply (returns_bind _ _ _ (λ _, steady 0 None)); [repeat st_step|].
  intros [] s1 Hs1. by apply set_state_st.
Qed.

Lemma execute_runqueue_st s :
  settled cf g0 s →
  returns s (execute_runqueue dataCaches taskData policy number_threads cf e)
    (λ o s', settled cf g0 s' ∧ (o = RQDone → rq_state s' = RQComplete)).
Proof.
  intros Hs. unfold execute_runqueue. apply returns_get.
  eapply (returns_bind _ _ _ (λ _, settled cf g0)).
  { case_bool_decide as Ei; [|by apply returns_ret].
    eapply returns_mono; [apply start_running_st|intros; by apply steady_settled].
    split; [apply Hs|]. by rewrite Ei. }
  intros [] s1 Hs1. apply returns_get. eapply (returns_bind _ _ _ (λ _, settled cf g0)).
  { case_bool_decide as Ei; [|by apply returns_ret]. apply execute_st. split; [apply Hs1|]. by rewrite Ei. }
  intros r s2 Hs2. apply returns_get. eapply (returns_bind _ _ _ (λ _, settled cf g0)).
  { case_bool_decide as Ei; [|by apply returns_ret].
    apply finish_st; [split; [apply Hs2|by rewrite Ei]|]. by apply (st_cleanup _ _ _ _ _ (proj1 Hs2)). }
  intros r' s3 Hs3. apply returns_get. case_bool_decide; [by apply returns_ret|].
  case_bool_decide; by apply returns_ret.
Qed.
End env.

(** ** A build *)

(** Nothing keeps a fakeroot worker from starting. *)
Definition spawns (e : env) : Prop := env_fueled e ∧ ∀ mc, e_spawn e mc = true.

Lemma init_steady gen sch : (0 < number_tasks cf)%Z → steady 0 None (init_rqe cf g0 gen sch).
Proof.
  intros Hn. split; [|done]. split; simpl; try done.
  - intros l1 l2 E. symmetry in E. apply app_nil in E as [-> _]. simpl. lia.
  - apply NoDup_nil_2.
  - by intros ? ?%elem_of_nil.
  - by intros ? ? ?%elem_of_nil.
Qed.

Lemma reachable_settled name gen s :
  reachable dataCaches taskData policy number_threads cf g0 spawns name gen s → settled cf g0 s.
Proof.
  induction 1 as [e s _ Hn|e s s' o [_ Hsp] _ IH Hx].
  - unfold new_execute in Hn. destruct (number_tasks cf <=? 0)%Z eqn:E; [done|]. apply Z.leb_gt in E.
    apply res_bind_Ok in Hn as (sch & _ & Hn).
    pose proof (build_scenequeue_data_st e 0 None _ (init_steady gen sch E)) as Hb. unfold returns in Hb.
    destruct (build_scenequeue_data _ _ _ _ _ _) as [s1 [a|x]]; [|done]. injection Hn as <-. by apply steady_settled.
  - pose proof (execute_runqueue_st e Hsp s IH) as Hr. unfold returns in Hr. rewrite Hx in Hr. apply Hr.
Qed.
End operations.
