(* ===== verification/Builds.v ===== *)
(** * Builds (bb/runqueue.py)

    What a build does from its start to its end, over any number of calls of
    [RunQueue._execute_runqueue] and whatever the workers report in between:
    tasks start after what they depend on has ended, none starts twice, no
    more are in flight than allowed, every call returns, and a build that is
    done has done all its tasks.  A build of two tasks is run as an example. *)

From Stdlib Require Import Ascii String.
From S2P Require Import Prelude.
From S2P Require Import PyStr.
From S2P Require Import PyDict.
From S2P Require Import Runs.
From S2P Require Import TaskIds.
From S2P Require Import Cache.
From S2P Require Import TaskData.
From S2P Require Import TaskGraph.
From S2P Require Import Stamps.
From S2P Require Import Sched.
From S2P Require Import Exec.
From S2P Require Import Execute.
From S2P Require Import ExecFuel.
From S2P Require Import ExecSafe.
From S2P Require Import ExecSteady.

Section builds.
Context {G : Type} `{SigGen G} `{!SetOrder string}.
Context (dataCaches : dict CacheData) (taskData : dict TaskData) (policy : stamp_policy).
Context (number_threads : string → res (option string)) (cf : config) (g0 : graph).

Abbreviation states := (reachable (G := G) dataCaches taskData policy number_threads cf g0).
Abbreviation step e s := (execute_runqueue (G := G) dataCaches taskData policy number_threads cf e s).

Hypothesis Hnumbers : ∀ k, fueled (number_threads k).
Hypothesis Hsiggen : siggen_fueled G.
Hypothesis Hwf : dict_wf g0.
Hypothesis Hclosed : graph_closed g0.
Hypothesis Hacyclic : acyclic g0.

(** C1: in every build, whatever the environment and the workers do, and
    even when a call ends in an exception, a task is started (the event and the
    message to a worker) only after each task it depends on was reported
    completed or skipped. *)
Theorem dependencies_end_first name gen e s :
  env_fueled e → states env_fueled name gen s →
  ∀ l1 a l2 t d, log (step e s).1 = l1 ++ a :: l2 → starts a = Some t → dep g0 t d → ended l1 d.
Proof.
  intros He Hr l1 a l2 t d.
  destruct (execute_runqueue_safe dataCaches taskData policy number_threads cf g0 Hnumbers Hsiggen
    Hwf Hclosed Hacyclic env_fueled name gen e s) as [Hs _]; [done..|].
  apply (safe_log _ _ Hs).
Qed.

(** C5: every loop of the execution ends: on an acyclic graph neither
    the construction of the queue nor any call on it runs out of the fuel the
    model gives the loops (it may still raise what the code raises). *)
Theorem execution_terminates name gen e :
  env_fueled e →
  fueled (new_execute dataCaches taskData policy cf name e g0 gen) ∧
  ∀ s, states env_fueled name gen s → fueled (step e s).2.
Proof.
  intros He. split.
  - pose proof (new_execute_ok dataCaches taskData policy number_threads cf g0 Hnumbers Hsiggen Hwf Hclosed Hacyclic name e gen He) as Hn.
    intros E. by rewrite E in Hn.
  - intros s Hr. by eapply (execute_runqueue_safe dataCaches taskData policy number_threads cf g0 Hnumbers
      Hsiggen Hwf Hclosed Hacyclic env_fueled).
Qed.

(** No setscene whitelist: BB_SETSCENE_ENFORCE is not set. *)
Hypothesis Hwhitelist : setscenewhitelist cf = None.

(** C3: in a build without a setscene whitelist, in which every fakeroot
    worker that is needed starts, at no time more tasks are in flight than
    BB_NUMBER_THREADS, and after every call the two counters of active tasks
    together are the number in flight.  Both conditions are needed: see
    [whitelist_negative_active] for the first; a worker that does not start
    also counts a task as failed that was never counted as active. *)
Theorem threads_bounded name gen s :
  states spawns name gen s →
  (∀ l1 l2, log s = l1 ++ l2 → (in_flight l1 ≤ number_tasks cf)%Z) ∧ active_tasks s = in_flight (log s).
Proof.
  intros Hr. destruct (reachable_settled _ _ _ _ _ _ Hwhitelist _ _ _ Hr) as [Hc _].
  split; [apply Hc|]. pose proof (st_count _ _ _ _ _ Hc). lia.
Qed.

(** C4: in a build without a setscene whitelist, in which every fakeroot
    worker that is needed starts, no task is started twice, and every task
    that was started is recorded as running. *)
Theorem started_once name gen s :
  states spawns name gen s → NoDup (started (log s)) ∧ ∀ t, t ∈ started (log s) → t ∈ runq_running s.
Proof.
  intros Hr. destruct (reachable_settled _ _ _ _ _ _ Hwhitelist _ _ _ Hr) as [Hc _].
  split; [apply Hc|]. intros t Ht. by destruct (st_running _ _ _ _ _ Hc t Ht).
Qed.

End builds.

(** ** A build of two tasks *)

#[local] Existing Instance sample_order.
#[local] Existing Instance basic_siggen.

Definition build_graph : graph := match add_revdeps stamp_graph with Ok g => g | Raise _ => [] end.

(** [threads] tasks at a time, the setscene whitelist, [--continue] or not. *)
Definition build_config (threads : Z) (whitelist : option (list string)) (abort : bool) : config :=
  MkConfig threads abort false false false false false whitelist false false ["a.bb:do_build"] ∅.

Definition quiet_env (inbox : list inmsg) : env :=
  MkEnv (λ _, None) inbox [] [] (λ _, Ok ∅) (λ _ _ _, Ok false) (λ _, true).

Definition build_call (cf : config) (inbox : list inmsg) (s : rqe unit) : rqe unit * res rq_outcome :=
  execute_runqueue stamp_caches [] perfile no_limit cf (quiet_env inbox) s.

(** A build with the messages that arrive before each call. *)
Fixpoint build_calls (cf : config) (inboxes : list (list inmsg)) (s : rqe unit) : rqe unit * res rq_outcome :=
  match inboxes with
  | [] => (s, Ok (RQLoop true))
  | [inbox] => build_call cf inbox s
  | inbox :: inboxes =>
      match build_call cf inbox s with
      | (s, Ok _) => build_calls cf inboxes s
      | r => r
      end
  end.

Definition build_start (cf : config) : rqe unit :=
  match new_execute stamp_caches [] perfile cf "speed" (quiet_env []) build_graph tt with
  | Ok s => s
  | Raise _ => init_rqe cf [] tt (MkSched [] ∅ [] [] None)
  end.

(** Both tasks run, one after the other. *)
Definition build_inboxes : list (list inmsg) :=
  [[]; [ExitCode "a.bb:do_fetch" 0]; [ExitCode "a.bb:do_build" 0]].

Lemma no_limit_fueled k : fueled (no_limit k).
Proof. done. Qed.

Lemma basic_siggen_fueled : siggen_fueled unit.
Proof. by split. Qed.

Lemma quiet_spawns inbox : spawns (quiet_env inbox).
Proof. by split; [split|]. Qed.

Lemma build_graph_wf : dict_wf build_graph.
Proof. by_eval. Qed.

Lemma build_graph_closed : graph_closed build_graph.
Proof. apply closedb_deps. vm_compute. reflexivity. Qed.

Lemma build_graph_acyclic : acyclic build_graph.
Proof. apply (acyclic_rankedb (λ t, if bool_decide (t = "a.bb:do_build") then 1 else 0)). vm_compute. reflexivity. Qed.

Section states.
Context (cf : config) (ok : env → Prop).
Hypothesis Hok : ∀ inbox, ok (quiet_env inbox).
Hypothesis Hstart : match new_execute stamp_caches [] perfile cf "speed" (quiet_env []) build_graph tt with
  | Ok _ => true | Raise _ => false end = true.

Lemma build_calls_reachable inboxes s s' o :
  reachable stamp_caches [] perfile no_limit cf build_graph ok "speed" tt s →
  build_calls cf inboxes s = (s', Ok o) →
  reachable stamp_caches [] perfile no_limit cf build_graph ok "speed" tt s'.
Proof.
  revert s. induction inboxes as [|i l IH]; intros s Hr; cbn [build_calls]; [by intros [= <- <-]|].
  unfold build_call. destruct l as [|i' l].
  - intros Hx. by eapply reachable_call.
  - destruct (execute_runqueue _ _ _ _ _ _ _) as [s1 [o1|x]] eqn:E; [|done].
    apply IH. by eapply reachable_call.
Qed.

Lemma build_start_reachable : reachable stamp_caches [] perfile no_limit cf build_graph ok "speed" tt (build_start cf).
Proof.
  unfold build_start. destruct (new_execute _ _ _ _ _ _ _ _) as [s|x] eqn:E; [|done]. by eapply reachable_new.
Qed.
End states.

Definition plain : config := build_config 1 None true.

Lemma plain_reachable ok inboxes s o :
  (∀ inbox, ok (quiet_env inbox)) → build_calls plain inboxes (build_start plain) = (s, Ok o) →
  reachable stamp_caches [] perfile no_limit plain build_graph ok "speed" tt s.
Proof.
  intros Hok. apply build_calls_reachable; [done|]. apply build_start_reachable; [done|]. vm_compute. reflexivity.
Qed.

Lemma dependencies_end_first_witness :
  ∃ s l1 a l2, build_calls plain build_inboxes (build_start plain) = (s, Ok RQDone) ∧
    log s = l1 ++ a :: l2 ∧ a = RunTask false false "a.bb:do_build" ∧ ended l1 "a.bb:do_fetch".
Proof.
  eexists _, [_; _; _; _], _, _. split; [vm_compute; reflexivity|]. split; [reflexivity|]. split; [reflexivity|].
  eapply (dependencies_end_first stamp_caches [] perfile no_limit plain build_graph no_limit_fueled
    basic_siggen_fueled build_graph_wf build_graph_closed build_graph_acyclic "speed" tt
    (quiet_env [ExitCode "a.bb:do_build" 0])).
  - apply quiet_spawns.
  - eapply (plain_reachable _ [[]; [ExitCode "a.bb:do_fetch" 0]]); [apply quiet_spawns|].
    vm_compute. reflexivity.
  - vm_compute. reflexivity.
  - reflexivity.
  - change ("a.bb:do_fetch" ∈ deps_of build_graph "a.bb:do_build"). by_eval.
Defined.

Lemma execution_terminates_witness :
  fueled (execute_runqueue stamp_caches [] perfile no_limit plain (quiet_env []) (build_start plain)).2.
Proof.
  apply (execution_terminates stamp_caches [] perfile no_limit plain build_graph no_limit_fueled
    basic_siggen_fueled build_graph_wf build_graph_closed build_graph_acyclic "speed" tt (quiet_env []));
    [apply quiet_spawns|].
  apply build_start_reachable; [intros; apply quiet_spawns|]. vm_compute. reflexivity.
Defined.

Lemma threads_bounded_witness :
  ∃ s, build_calls plain [[]] (build_start plain) = (s, Ok (RQLoop false)) ∧ active_tasks s = 1%Z ∧
    active_tasks s = in_flight (log s).
Proof.
  eexists. split; [vm_compute; reflexivity|]. split; [reflexivity|].
  apply (threads_bounded stamp_caches [] perfile no_limit plain build_graph eq_refl "speed" tt).
  eapply (plain_reachable _ [[]]); [apply quiet_spawns|]. vm_compute. reflexivity.
Defined.

Lemma started_once_witness :
  ∃ s, build_calls plain build_inboxes (build_start plain) = (s, Ok RQDone) ∧
    started (log s) = ["a.bb:do_fetch"; "a.bb:do_build"] ∧ NoDup (started (log s)).
Proof.
  eexists. split; [vm_compute; reflexivity|]. split; [reflexivity|].
  apply (started_once stamp_caches [] perfile no_limit plain build_graph eq_refl "speed" tt).
  eapply (plain_reachable _ build_inboxes); [apply quiet_spawns|]. vm_compute. reflexivity.
Defined.


(** Two tasks that do not need each other, in flight together: when one
    fails, the call ends the build with the other one still counted, and the
    failure is handled once; the other's result counts in the next one. *)
Definition free_graph : graph := [("a.bb:do_build", init_entry); ("a.bb:do_fetch", init_entry)].

Definition free_start (cf : config) : rqe unit :=
  match new_execute stamp_caches [] perfile cf "speed" (quiet_env []) free_graph tt with
  | Ok s => s
  | Raise _ => init_rqe cf [] tt (MkSched [] ∅ [] [] None)
  end.

(** The message that [finish] finds when it looks. *)
Definition late_env (inbox : list inmsg) : env :=
  MkEnv (λ _, None) [] [] inbox (λ _, Ok ∅) (λ _ _ _, Ok false) (λ _, true).

Lemma failure_handled_once :
  let cf := build_config 2 None true in
  ∃ s s' s'', build_calls cf [[]; []; [ExitCode "a.bb:do_fetch" 1]] (free_start cf) = (s, Ok (RQLoop false)) ∧
    active (stats s) = 1%Z ∧ failed_tids s = ["a.bb:do_fetch"] ∧
    execute_runqueue stamp_caches [] perfile no_limit cf (late_env [ExitCode "a.bb:do_build" 0]) s =
      (s', Ok (RQLoop false)) ∧ active (stats s') = 0%Z ∧
    build_call cf [] s' = (s'', Ok (RQTaskFailure ["a.bb:do_fetch"])).
Proof.
  eexists _, _, _. split; [vm_compute; reflexivity|]. split; [reflexivity|]. split; [reflexivity|].
  split; [vm_compute; reflexivity|]. split; [reflexivity|]. vm_compute. reflexivity.
Qed.

(** ** What the code does not do *)

(** With a setscene whitelist, a task that may not run is counted as failed
    without having been counted as active. *)
Definition strict : config := build_config 1 (Some []) false.

Lemma whitelist_negative_active :
  ∃ s, build_calls strict [[]] (build_start strict) = (s, Ok (RQLoop true)) ∧ active (stats s) = (-1)%Z ∧
    failed_tids s = ["a.bb:do_fetch"].
Proof. eexists. split; [vm_compute; reflexivity|]. by split. Qed.

(** With [--continue], the task stays eligible: it fails again in every call. *)
Lemma whitelist_fails_again :
  ∃ s, build_calls strict [[]; []; []] (build_start strict) = (s, Ok (RQLoop true)) ∧
    failed_tids s = ["a.bb:do_fetch"; "a.bb:do_fetch"; "a.bb:do_fetch"].
Proof. eexists. split; [vm_compute; reflexivity|]. reflexivity. Qed.
