(* ===== verification/PrepareOk.v ===== *)
(** * Correctness of preparing a run queue (bb/runqueue.py)

    What [prepare] returns is a graph the execution can work on, its tasks are
    those the targets need, and every loop of it ends. *)

From Stdlib Require Import Ascii String.
From S2P Require Import Prelude.
From S2P Require Import PyStr.
From S2P Require Import PyDict.
From S2P Require Import Runs.
From S2P Require Import TaskIds.
From S2P Require Import Cache.
From S2P Require Import TaskData.
From S2P Require Import TaskGraph.
From S2P Require Import Stamps.
From S2P Require Import Sched.
From S2P Require Import Exec.
From S2P Require Import Execute.
From S2P Require Import ExecFuel.
From S2P Require Import ExecSafe.
From S2P Require Import Builds.
From S2P Require Import Depends.
From S2P Require Import DependsOk.
From S2P Require Import Prepare.

(** ** Marking in any graph *)

(** A set of tasks with all they depend on. *)
Definition closed_in (g : graph) (rb : gset string) : Prop := rb ⊆ keys g ∧ closed_set g rb.

Section marking.
Context `{!SetOrder string} (g : graph).

Definition marks (rb : gset string) (from : string → Prop) (rb' : gset string) : Prop :=
  rb ⊆ rb' ∧ rb' ⊆ keys g ∧ (∀ t, from t → t ∈ rb') ∧ ∀ u, u ∈ rb' → u ∉ rb → deps_of g u ⊆ rb'.

Lemma marks_fold fuel ds rb :
  (∀ t rb, rb ⊆ keys g → size (keys g) < fuel + size rb →
     yields (mark_active g fuel t rb) (marks rb (eq t))) →
  rb ⊆ keys g → size (keys g) < fuel + size rb →
  yields (fold_res (λ rb d, mark_active g fuel d rb) rb ds) (marks rb (λ d, d ∈ ds)).
Proof.
  intros IH. revert rb. induction ds as [|d ds IHds]; intros rb Hrb Hf; cbn [fold_res].
  { split; [done|]. split; [done|]. split; [by intros t ?%elem_of_nil|done]. }
  eapply yields_bind; [by apply IH|]. intros rb1 (H1 & H2 & H3 & H4).
  assert (size rb ≤ size rb1) by (by apply subseteq_size).
  eapply yields_mono; [apply IHds; [done|lia]|]. intros rb2 (K1 & K2 & K3 & K4).
  split; [by etrans|]. split; [done|]. split.
  { intros t [->|?]%elem_of_cons; [by apply K1, H3|by apply K3]. }
  intros u Hu Hn. destruct (decide (u ∈ rb1)) as [Hu1|Hu1]; [etrans; [by apply H4|done]|by apply K4].
Qed.

Lemma marks_active fuel t rb :
  rb ⊆ keys g → size (keys g) < fuel + size rb → yields (mark_active g fuel t rb) (marks rb (eq t)).
Proof.
  revert t rb. induction fuel as [|fuel IH]; intros t rb Hrb Hf.
  { apply subseteq_size in Hrb. lia. }
  cbn [mark_active]. case_bool_decide as Hin.
  { split; [done|]. split; [done|]. by split; [intros ? <-|]. }
  eapply yields_bind; [by apply yields_option|]. intros e He.
  assert (deps_of g t = depends e) as Hd by (unfold deps_of; by rewrite He).
  assert (t ∈ keys g) as Hk by (apply elem_of_keys, elem_of_dkeys; rewrite He; by eexists).
  eapply yields_mono.
  - apply (marks_fold fuel (set_iter (depends e)) ({[t]} ∪ rb)); [done|set_solver|].
    rewrite size_union by set_solver. rewrite size_singleton. lia.
  - intros rb' (H1 & H2 & H3 & H4). split; [set_solver|]. split; [done|]. split; [intros ? <-; set_solver|].
    intros u Hu Hn. destruct (decide (u = t)) as [->|Hne]; [|apply H4; set_solver].
    rewrite Hd. intros d Hdd. by apply H3, elem_of_set_iter.
Qed.

(** [mark] keeps a closed set closed, whatever the graph. *)
Lemma mark_closed t rb :
  closed_in g rb → yields (mark g t rb) (λ rb', closed_in g rb' ∧ rb ⊆ rb').
Proof.
  intros [Hrb Hcl]. eapply yields_mono.
  - apply marks_active; [done|]. pose proof (size_keys g). lia.
  - intros rb' (H1 & H2 & _ & H4). split; [|done]. split; [done|]. intros u Hu.
    destruct (decide (u ∈ rb)) as [Hr|Hr]; [etrans; [by apply Hcl|done]|by apply H4].
Qed.

(** In a closed graph, [mark] adds what can be reached. *)
Lemma mark_reach t rb :
  graph_closed g → closed_in g rb →
  yields (mark g t rb) (λ rb', closed_in g rb' ∧ ∀ u, u ∈ rb' ↔ u ∈ rb ∨ reach g t u).
Proof.
  intros Hg [Hrb Hcl]. destruct (decide (t ∈ keys g)) as [Ht|Ht].
  - destruct (mark_correct g Hg t rb Ht Hrb Hcl) as (rb' & -> & ? & ? & ?). by split.
  - pose proof (marks_active (2 + List.length g) t rb Hrb) as Hm. fold (mark g t rb) in Hm.
    destruct (mark g t rb) as [rb'|e]; cbn [yields] in *; [|apply Hm; pose proof (size_keys g); lia].
    destruct Ht. destruct Hm as (_ & Hk & Hin & _); [pose proof (size_keys g); lia|]. by apply Hk, Hin.
Qed.

Lemma mark_all_reach l rb :
  graph_closed g → closed_in g rb →
  yields (fold_res (λ rb i, mark g i rb) rb l)
    (λ rb', closed_in g rb' ∧ ∀ u, u ∈ rb' ↔ u ∈ rb ∨ ∃ r, r ∈ l ∧ reach g r u).
Proof.
  intros Hg. revert rb. induction l as [|x l IH]; intros rb Hrb; cbn [fold_res].
  { split; [done|]. intros u. setoid_rewrite elem_of_nil. naive_solver. }
  eapply yields_bind; [by apply mark_reach|]. intros rb1 [Hrb1 H1].
  eapply yields_mono; [by apply IH|]. intros rb2 [Hrb2 H2]. split; [done|]. intros u.
  rewrite H2, H1. setoid_rewrite elem_of_cons. naive_solver.
Qed.

Lemma mark_all_closed l rb :
  closed_in g rb → yields (fold_res (λ rb i, mark g i rb) rb l) (closed_in g).
Proof.
  intros Hrb. apply yields_fold; [done|]. intros a x _ Ha. eapply yields_mono; [by apply mark_closed|]. by intros ? [? _].
Qed.
End marking.

Lemma closed_in_empty g : closed_in g ∅.
Proof. by split; [|intros t ?%elem_of_empty]. Qed.

(** ** Pruning *)

(** A graph before its reverse dependencies are added. *)
Record fresh (g : graph) : Prop := {
  fr_wf : dict_wf g;
  fr_revdeps : ∀ t e, dget g t = Some e → revdeps e = ∅
}.

(** The pruned entries do not contradict those that are left. *)
Record pruned_ok (g delcount : graph) : Prop := {
  po_fresh : fresh g;
  po_revdeps : ∀ t e, dget delcount t = Some e → revdeps e = ∅;
  po_agree : ∀ t e e', dget delcount t = Some e → dget g t = Some e' → e' = e
}.

Lemma fresh_revdeps g t : fresh g → revdeps_of g t = ∅.
Proof. intros Hf. unfold revdeps_of. destruct (dget g t) eqn:E; [|done]. by eapply fr_revdeps. Qed.

Lemma dget_filter (p : string → bool) (g : graph) t :
  dget (List.filter (λ kv, p kv.1) g) t = if p t then dget g t else None.
Proof.
  induction g as [|[k e] g IH]; cbn [List.filter dget fst]; [by destruct (p t)|].
  destruct (p k) eqn:Ep; cbn [dget]; rewrite IH; case_decide as Hk; subst; [by rewrite Ep|done|by rewrite Ep|done].
Qed.

Lemma filter_wf (p : string → bool) (g : graph) : dict_wf g → dict_wf (List.filter (λ kv, p kv.1) g).
Proof.
  unfold dict_wf. induction g as [|[k e] g IH]; cbn [List.filter fst]; [done|].
  rewrite !fmap_cons, NoDup_cons. intros [Hk Hg]. destruct (p k); [|by apply IH].
  rewrite fmap_cons, NoDup_cons. split; [|by apply IH]. intros Hin. apply Hk.
  apply list_elem_of_fmap in Hin as (kv & -> & Hin). apply list_elem_of_fmap. exists kv. split; [done|].
  apply list_elem_of_In in Hin. apply filter_In in Hin as [Hin _]. by apply list_elem_of_In.
Qed.

Definition in_set (rb : gset string) (t : string) : bool := bool_decide (t ∈ rb).

Lemma prune_ok g rb dc :
  pruned_ok g dc → closed_in g rb →
  let '(g', dc') := prune g rb dc in
  pruned_ok g' dc' ∧ graph_closed g' ∧ keys g' = rb ∧ ∀ t, t ∈ rb → deps_of g' t = deps_of g t.
Proof.
  intros [[Hwf Hr] Hdr Ha] [Hrb Hcl]. cbn [prune].
  set (g' := List.filter _ g). set (dc' := foldl _ dc g).
  assert (∀ t, dget g' t = if bool_decide (t ∈ rb) then dget g t else None) as Hg'.
  { intros t. apply (dget_filter (in_set rb)). }
  assert (∀ l dc t e, dget (foldl (λ d (kv : string * RunTaskEntry), if bool_decide (kv.1 ∈ rb) then d
      else dset d kv.1 kv.2) dc l) t = Some e → dget dc t = Some e ∨ ((t, e) ∈ l ∧ t ∉ rb)) as Hdc.
  { induction l as [|[k v] l IH]; intros dc0 t e; cbn [foldl fst snd]; [by left|].
    intros [Hd|[? ?]]%IH; [|right; split; [by apply list_elem_of_further|done]].
    case_bool_decide; [by left|]. rewrite dget_dset in Hd. case_decide; [|by left]. simplify_eq. right.
    split; [apply list_elem_of_here|done]. }
  assert (keys g' = rb) as Hk.
  { apply set_eq. intros t. rewrite elem_of_keys, elem_of_dkeys, Hg'. case_bool_decide as Ht.
    - rewrite <-elem_of_dkeys, <-elem_of_keys. split; [done|by apply Hrb].
    - split; [by intros [? ?]|done]. }
  assert (∀ t, t ∈ rb → deps_of g' t = deps_of g t) as Hd.
  { intros t Ht. unfold deps_of. rewrite Hg'. by rewrite bool_decide_eq_true_2. }
  split; [split; [split|..]|split; [|done]].
  - by apply (filter_wf (in_set rb)).
  - intros t e. rewrite Hg'. case_bool_decide; [apply Hr|done].
  - intros t e [?|[Hin _]]%Hdc; [by eapply Hdr|]. eapply Hr, elem_of_dget; done.
  - intros t e e' Hd1 Hd2. rewrite Hg' in Hd2. case_bool_decide as Ht; [|done].
    apply Hdc in Hd1 as [Hd1|[_ ?]]; [by eapply Ha|done].
  - intros t d Htd. rewrite Hk. assert (t ∈ rb) as Ht by (rewrite <-Hk; by eapply dep_key).
    apply (Hcl t Ht). rewrite <-Hd by done. exact Htd.
Qed.

(** ** Choosing again *)

(** [g'] has the entries of [g] and maybe more. *)
Definition extends (g g' : graph) : Prop := ∀ t e, dget g t = Some e → dget g' t = Some e.

Lemma closed_in_extends g g' rb : extends g g' → closed_in g rb → closed_in g' rb.
Proof.
  intros Hx [Hrb Hcl].
  assert (∀ t, t ∈ keys g → t ∈ keys g' ∧ deps_of g' t = deps_of g t) as H.
  { intros t [e He]%elem_of_keys%elem_of_dkeys. pose proof (Hx _ _ He) as He'. split.
    - apply elem_of_keys, elem_of_dkeys. eauto.
    - unfold deps_of. by rewrite He, He'. }
  split; [intros t Ht; by apply H, Hrb|]. intros t Ht. destruct (H t (Hrb t Ht)) as [_ ->]. by apply Hcl.
Qed.

Lemma put_back_ok dc task g tids tid :
  pruned_ok g dc → let '(g', tids') := put_back dc task (g, tids) tid in pruned_ok g' dc ∧ extends g g'.
Proof.
  intros [[Hwf Hr] Hdr Ha]. cbn [put_back]. set (w := tid_of _ _).
  destruct (dget dc w) as [e|] eqn:E; [|by split; [split|intros ??]].
  assert (∀ t e', dget (dset g w e) t = Some e' → (t = w ∧ e' = e) ∨ (t ≠ w ∧ dget g t = Some e')) as Hget.
  { intros t e'. rewrite dget_dset. case_decide; [intros [= <-]; by left|]. right. by split. }
  split; [split; [split|..]|].
  - by apply dset_wf.
  - intros t e' [[_ ->]|[_ ?]]%Hget; [by eapply Hdr|by eapply Hr].
  - done.
  - intros t e1 e2 Hd [[-> ->]|[_ ?]]%Hget; [congruence|by eapply Ha].
  - intros t e' Ht. rewrite dget_dset. case_decide as Hw; [|done]. subst t. f_equal. symmetry. by eapply Ha.
Qed.

Lemma put_back_fold dc task l g tids :
  pruned_ok g dc → let '(g', tids') := foldl (put_back dc task) (g, tids) l in pruned_ok g' dc ∧ extends g g'.
Proof.
  revert g tids. induction l as [|x l IH]; intros g tids Hp; cbn [foldl]; [by split; [|intros ??]|].
  pose proof (put_back_ok dc task g tids x Hp) as H1. destruct (put_back dc task (g, tids) x) as [g1 tids1].
  destruct H1 as [Hp1 Hx1]. specialize (IH g1 tids1 Hp1). destruct (foldl _ _ l) as [g2 tids2].
  destruct IH as [Hp2 Hx2]. split; [done|]. intros t e Ht. by apply Hx2, Hx1.
Qed.

Lemma ay_fold_M {S A B} (I : list B → A → Prop) (f : A → B → M S A) acc l :
  I [] acc → (∀ seen a x, x ∈ l → I seen a → always_yields (f a x) (I (seen ++ [x]))) →
  always_yields (fold_M f acc l) (I l).
Proof.
  intros H0 Hf. assert (∀ l' seen acc, (∀ x, x ∈ l' → x ∈ l) → I seen acc → always_yields (fold_M f acc l') (I (seen ++ l'))) as H.
  { induction l' as [|x l' IH]; intros seen a Hl Ha; cbn [fold_M]; [rewrite app_nil_r; by apply ay_ret|].
    eapply ay_bind; [apply (Hf seen); [by apply Hl, list_elem_of_here|done]|]. intros a' Ha'.
    rewrite cons_middle, app_assoc. apply IH; [|done]. intros. apply Hl. by apply list_elem_of_further. }
  by apply (H l []).
Qed.

(** What the generator does raises no exception that is not Python's. *)
Record prepare_fueled (G : Type) `{PrepareSigGen G} : Prop := {
  pf_siggen : siggen_fueled G;
  pf_invalidate : ∀ n c f g, fueled (sg_invalidate_task (G := G) n c f g).2;
  pf_resolved : ∀ a b c g, fueled (sg_tasks_resolved (G := G) a b c g).2;
  pf_setscene : ∀ l g, fueled (sg_set_setscene_tasks (G := G) l g).2;
  pf_prep : ∀ t d g, fueled (sg_prep_taskhash (G := G) t d g).2;
  pf_writeout : ∀ g, fueled (sg_writeout_file_checksum_cache (G := G) g).2
}.

Section prepare.
Context {G : Type} `{PrepareSigGen G} `{!SetOrder string}.
Context (dataCaches : dict CacheData) (pc : prepare_config).
Hypothesis Hsiggen : prepare_fueled G.

Lemma ay_siggen {A} (m : M G A) : (∀ g, fueled (m g).2) → always_yields m (λ _, True).
Proof. intros Hm g. by apply yields_fueled. Qed.

Lemma ay_option_bind {S A B} e (o : option A) (f : A → M S B) Q :
  e ≠ OutOfFuel → (∀ a, o = Some a → always_yields (f a) Q) → always_yields (lift (of_option e o) ≫= f) Q.
Proof. intros He Hf. eapply ay_lift_bind; [by apply yields_option|done]. Qed.

Lemma ay_fueled_bind {S A B} (r : res A) (f : A → M S B) Q :
  fueled r → (∀ a, always_yields (f a) Q) → always_yields (lift r ≫= f) Q.
Proof. intros Hr Hf. eapply ay_lift_bind; [by apply yields_fueled|]. intros a _. apply Hf. Qed.

Lemma invalidate_task_ok td tid b : always_yields (invalidate_task dataCaches td tid b) (λ _, True).
Proof.
  unfold invalidate_task. apply ay_fueled_bind; [apply split_tid_fueled|]. intros [[[mc fn] taskname] taskfn].
  do 3 (apply ay_option_bind; [done|]; intros ? _). case_match.
  - destruct b; [by apply ay_raise|by apply ay_ret].
  - apply ay_siggen. intros. apply (pf_invalidate _ Hsiggen).
Qed.

Lemma mark_chosen_ok td g rb tids :
  closed_in g rb → always_yields (mark_chosen dataCaches pc td g rb tids) (closed_in g).
Proof.
  intros Hrb. apply (ay_fold_M (λ _, closed_in g)); [done|]. intros _ rb1 tid _ Hrb1.
  eapply ay_lift_bind; [by apply mark_closed|]. intros rb2 [Hrb2 _].
  eapply (ay_bind _ _ (λ _, True)); [|intros _ _; by apply ay_ret].
  case_match; [apply invalidate_task_ok|by apply ay_ret].
Qed.

Lemma runall_task_ok td dc st task :
  pruned_ok st.1 dc → closed_in st.1 st.2 →
  always_yields (runall_task dataCaches pc td dc st task) (λ st, pruned_ok st.1 dc ∧ closed_in st.1 st.2).
Proof.
  destruct st as [g rb]. cbn [fst snd]. intros Hp Hrb. unfold runall_task.
  pose proof (put_back_fold dc (do_name task) (dkeys g) g ∅ Hp) as Hx. destruct (foldl _ _ _) as [g1 tids]. destruct Hx as [Hp1 Hx].
  eapply ay_bind; [apply mark_chosen_ok; by eapply closed_in_extends|]. intros rb1 Hrb1. by apply ay_ret.
Qed.

(** A pruned graph: closed, with the entries that were pruned. *)
Definition chosen (r : graph * graph) : Prop := pruned_ok r.1 r.2 ∧ graph_closed r.1.

Lemma chosen_prune g rb dc : pruned_ok g dc → closed_in g rb → chosen (prune g rb dc).
Proof.
  intros Hp Hrb. pose proof (prune_ok g rb dc Hp Hrb) as Hx. destruct (prune g rb dc). unfold chosen. tauto.
Qed.

Lemma prune_or_fatal g rb dc :
  pruned_ok g dc → closed_in g rb →
  always_yields (S := G) (let '(g, delcount) := prune g rb dc in if nonempty g then mret (g, delcount) else raise Fatal) chosen.
Proof.
  intros Hp Hrb. pose proof (chosen_prune g rb dc Hp Hrb) as Hc. destruct (prune g rb dc) as [g' dc'].
  destruct (nonempty g'); [by apply ay_ret|by apply ay_raise].
Qed.

Lemma handle_runall_ok td g dc : chosen (g, dc) → always_yields (handle_runall dataCaches pc td g dc) chosen.
Proof.
  intros Hc. unfold handle_runall. destruct (runall pc) as [|t l]; [by apply ay_ret|].
  apply (ay_bind _ _ (λ st, pruned_ok st.1 dc ∧ closed_in st.1 st.2)); [|intros [g1 rb] [Hp Hrb]; by apply prune_or_fatal].
  apply (ay_fold_M (λ _ st, pruned_ok st.1 dc ∧ closed_in st.1 st.2)).
  - split; [apply Hc|apply closed_in_empty].
  - intros _ st task _ [Hp Hrb]. by apply runall_task_ok.
Qed.

Lemma handle_runonly_ok td g dc : chosen (g, dc) → always_yields (handle_runonly dataCaches pc td g dc) chosen.
Proof.
  intros Hc. unfold handle_runonly. destruct (runonly pc) as [|t l]; [by apply ay_ret|].
  apply (ay_bind _ _ (closed_in g)); [|intros rb Hrb; by apply prune_or_fatal; [apply Hc|]].
  apply (ay_fold_M (λ _, closed_in g)); [apply closed_in_empty|]. intros _ rb task _ Hrb. unfold runonly_task.
  apply ay_fueled_bind; [|intros tids; by apply mark_chosen_ok].
  apply fueled_fold. intros. unfold taskname_from_tid. fueled.
Qed.

(** The tasks that a target asks for, given the data of its configuration. *)
Definition wants (g : graph) (d : TaskData) (t : target) (r : string) : Prop :=
  have_build_target d (tg_target t) = true ∧ (tg_target t ∉ failed_deps d) ∧ (tg_fn t ∉ failed_fns d) ∧
  if endswith (tg_task t) "-" then dep g (tid_of (tg_fn t) (str_drop_last 1 (tg_task t))) r
  else r = tid_of (tg_fn t) (tg_task t).

Definition requested (td : dict TaskData) (g : graph) (l : list target) (r : string) : Prop :=
  ∃ t d, t ∈ l ∧ dget td (tg_mc t) = Some d ∧ wants g d t r.

(** One target adds what can be reached from what it asks for. *)
Lemma mark_target_ok td g st t :
  graph_closed g → closed_in g st.2 →
  yields (mark_target td g st t) (λ st', closed_in g st'.2 ∧
    ∀ u, u ∈ st'.2 ↔ u ∈ st.2 ∨ ∃ r, requested td g [t] r ∧ reach g r u).
Proof.
  destruct st as [tids rb]. cbn [snd]. intros Hg Hrb. unfold mark_target.
  eapply yields_bind; [by apply yields_option|]. intros d Hd. cbv beta in Hd.
  assert (∀ r, requested td g [t] r ↔ wants g d t r) as Hreq.
  { intros r. unfold requested. setoid_rewrite list_elem_of_singleton. naive_solver. }
  apply (yields_mono _ (λ st', closed_in g st'.2 ∧ ∀ u, u ∈ st'.2 ↔ u ∈ rb ∨ ∃ r, wants g d t r ∧ reach g r u)).
  2: { intros st' [? Hu]. split; [done|]. intros u. setoid_rewrite Hreq. apply Hu. }
  clear Hreq. unfold wants.
  destruct (have_build_target d (tg_target t)); cbn [negb orb]; [|split; [done|naive_solver]].
  case_bool_decide; [split; [done|naive_solver]|]. case_bool_decide; [split; [done|naive_solver]|].
  destruct (dmem (taskentries d) _); [|done]. set (tid := tid_of _ _).
  apply (yields_bind _ _ (λ rb', closed_in g rb' ∧ ∀ u, u ∈ rb' ↔ u ∈ rb ∨
    ∃ r, (if endswith (tg_task t) "-" then dep g tid r else r = tid) ∧ reach g r u)).
  - destruct (endswith (tg_task t) "-").
    + eapply yields_bind; [by apply yields_option|]. intros e He. cbv beta in He.
      eapply yields_mono; [by apply mark_all_reach|]. intros rb' [? Hu]. split; [done|]. intros u. rewrite Hu.
      unfold dep, deps_of. rewrite He. by setoid_rewrite elem_of_set_iter.
    + eapply yields_mono; [by apply mark_reach|]. intros rb' [? Hu]. split; [done|]. intros u. rewrite Hu. naive_solver.
  - intros rb' [? Hu]. split; [done|]. cbn [snd]. intros u. rewrite Hu. unfold tid.
    destruct (endswith (tg_task t) "-"); naive_solver.
Qed.

Lemma mark_targets_ok td g :
  graph_closed g →
  yields (mark_targets pc td g) (λ r, closed_in g r.2 ∧
    ∀ u, u ∈ r.2 ↔ ∃ r, requested td g (targets pc) r ∧ reach g r u).
Proof.
  intros Hg. unfold mark_targets.
  assert (∀ l st, closed_in g st.2 → yields (fold_res (mark_target td g) st l) (λ st', closed_in g st'.2 ∧
    ∀ u, u ∈ st'.2 ↔ u ∈ st.2 ∨ ∃ r, requested td g l r ∧ reach g r u)) as Hfold.
  { induction l as [|t l IH]; intros st Hst; cbn [fold_res].
    { split; [done|]. intros u. split; [by left|]. intros [?|(r & (? & ? & ?%elem_of_nil & _) & _)]; done. }
    eapply yields_bind; [by apply mark_target_ok|]. intros st1 [Hst1 H1].
    eapply yields_mono; [by apply IH|]. intros st2 [Hst2 H2]. split; [done|]. intros u.
    rewrite H2, H1. unfold requested. setoid_rewrite elem_of_cons. setoid_rewrite elem_of_nil. naive_solver. }
  eapply yields_mono; [apply Hfold, closed_in_empty|]. intros st [? Hu]. split; [done|]. intros u. rewrite Hu.
  cbn [snd]. set_solver.
Qed.

(** Without [--runall] and [--runonly] the tasks are those of step A that the
    targets need, with their dependencies. *)
Definition selected (td td' : dict TaskData) (g' : graph) : Prop :=
  runall pc = [] → runonly pc = [] →
  ∃ g, build_dependencies dataCaches td = Ok (td', g) ∧
    (∀ t, t ∈ keys g' ↔ ∃ r, requested td' g (targets pc) r ∧ reach g r t) ∧
    ∀ t, t ∈ keys g' → deps_of g' t = deps_of g t.

Lemma choose_tasks_ok td :
  always_yields (choose_tasks dataCaches pc td)
    (λ r, let '(td', g, tids) := r in fresh g ∧ graph_closed g ∧ g ≠ [] ∧ selected td td' g).
Proof.
  unfold choose_tasks. pose proof (build_dependencies_ok dataCaches td) as Hb.
  apply (ay_lift_bind _ _ (λ r, build_dependencies dataCaches td = Ok r ∧ fresh r.2 ∧ graph_closed r.2)).
  { destruct (build_dependencies _ _) as [[td' g]|e]; [|done]. destruct Hb as (Hwf & Hcl & Hr). split; [done|].
    split; [|done]. split; [done|]. intros t e Ht. specialize (Hr t). unfold revdeps_of in Hr.
    cbn [snd] in Ht. by rewrite Ht in Hr. }
  intros [td' g] (Eb & Hg & Hcl). cbn [snd] in *. eapply ay_lift_bind; [by apply mark_targets_ok|].
  intros [tids rb] [Hrb Hu]. cbn [snd] in *.
  assert (pruned_ok g []) as Hp by by split.
  pose proof (chosen_prune g rb [] Hp Hrb) as Hc. pose proof (prune_ok g rb [] Hp Hrb) as Hpr.
  destruct (prune g rb []) as [g1 dc1]. destruct Hpr as (_ & _ & Hk & Hd).
  assert (selected td td' g1) as Hsel.
  { intros _ _. exists g. split; [done|]. split; [intros t; by rewrite Hk, Hu|]. rewrite Hk. exact Hd. }
  apply (ay_bind _ _ (λ r, chosen r ∧ (runall pc = [] → r = (g1, dc1)))).
  { destruct (runall pc) eqn:Er.
    - unfold handle_runall. rewrite Er. by apply ay_ret.
    - eapply ay_mono; [by apply handle_runall_ok|]. intros r Hr. split; [done|]. discriminate. }
  intros [g2 dc2] [Hc2 He2].
  apply (ay_bind _ _ (λ r, chosen r ∧ (runonly pc = [] → r = (g2, dc2)))).
  { destruct (runonly pc) eqn:Er.
    - unfold handle_runonly. rewrite Er. by apply ay_ret.
    - eapply ay_mono; [by apply handle_runonly_ok|]. intros r Hr. split; [done|]. discriminate. }
  intros [g3 dc3] [[Hp3 Hcl3] He3]. cbn [fst snd] in *.
  destruct g3 as [|kv g3]; cbn [nonempty].
  - apply ay_option_bind; [done|]. intros ? _. by apply ay_raise.
  - apply ay_ret. split; [apply Hp3|]. split; [done|]. split; [done|]. intros Hra Hro.
    specialize (He2 Hra). specialize (He3 Hro). simplify_eq. by apply Hsel.
Qed.

(** ** The checks and the hashes *)

Lemma check_providers_fueled g : fueled (check_providers dataCaches pc g).
Proof.
  unfold check_providers, check_providers_of, provider_step, check_versions, report_providers.
  pose proof split_tid_fueled. fueled.
Qed.

Lemma make_stampfnwhitelist_fueled td : fueled (make_stampfnwhitelist pc td).
Proof. unfold make_stampfnwhitelist. fueled. Qed.

Lemma find_setscene_tids_ok td g : yields (find_setscene_tids pc td g) (λ l, l ⊆ keys g).
Proof.
  unfold find_setscene_tids. destruct (nosetscene pc); [apply empty_subseteq|].
  apply yields_fold; [apply empty_subseteq|]. intros acc tid Hin Hacc. apply elem_of_keys in Hin.
  eapply yields_bind; [apply yields_fueled, split_tid_fueled|]. intros [[[mc fn] taskname] taskfn] _.
  eapply yields_bind; [by apply yields_option|]. intros td1 _. cbn [yields]. destruct (dmem _ _); set_solver.
Qed.

Lemma invalidate_targets_ok td tids : always_yields (invalidate_targets dataCaches pc td tids) (λ _, True).
Proof.
  unfold invalidate_targets. apply (ay_bind _ _ (λ _, True)).
  { destruct (pc_force pc); [|by apply ay_ret]. apply ay_for_each. intros. apply invalidate_task_ok. }
  intros _ _. destruct (invalidate_stamp pc) as [[|c s]|]; [by apply ay_ret| |by apply ay_ret].
  apply ay_for_each. intros tid _. apply ay_for_each. intros. apply invalidate_task_ok.
Qed.

Lemma resolve_virtuals_ok td : always_yields (resolve_virtuals (G := G) dataCaches td) (λ _, True).
Proof.
  apply ay_for_each. intros kv _. apply ay_option_bind; [done|]. intros c _.
  apply ay_fueled_bind; [|intros; apply ay_siggen; intros; apply (pf_resolved _ Hsiggen)].
  fueled.
Qed.

(** The same tasks and dependencies. *)
Record same_shape (g g' : graph) : Prop := {
  ss_keys : dkeys g' = dkeys g;
  ss_deps : ∀ t, deps_of g' t = deps_of g t;
  ss_revdeps : ∀ t, revdeps_of g' t = revdeps_of g t
}.

Lemma same_shape_ok g g' : same_shape g g' → graph_ok g → graph_ok g'.
Proof.
  intros [K D R] [Hwf Hcl Hr]. assert (keys g' = keys g) as Hk by (unfold keys; by rewrite K).
  split; [unfold dict_wf; change (NoDup (dkeys g')); by rewrite K|..]; intros t d; unfold dep; rewrite ?D, ?R, Hk.
  - apply Hcl.
  - apply Hr.
Qed.

Definition hashed (g : graph) (t : string) : Prop :=
  ∀ e, dget g t = Some e → is_Some (rt_hash e) ∧ is_Some (rt_unihash e).

Lemma prepare_task_hash_ok g tid :
  always_yields (prepare_task_hash (G := G) g tid) (λ g', same_shape g g' ∧ hashed g' tid ∧ ∀ t, hashed g t → hashed g' t).
Proof.
  unfold prepare_task_hash. apply ay_option_bind; [done|]. intros e He.
  eapply ay_bind; [apply ay_siggen; intros; apply (pf_prep _ Hsiggen)|]. intros _ _.
  eapply ay_bind; [apply ay_siggen; intros; apply (get_taskhash_fueled _ (pf_siggen _ Hsiggen))|]. intros h _.
  eapply ay_bind; [apply ay_siggen; intros; apply (get_unihash_fueled _ (pf_siggen _ Hsiggen))|]. intros u _.
  apply ay_ret. assert (tid ∈ dkeys g) as Hk by (apply elem_of_dkeys; eauto). split; [split|split].
  - by rewrite dkeys_dset, (proj2 (dmem_spec g tid) Hk).
  - intros t. unfold deps_of. rewrite dget_dset. case_decide; subst; [by rewrite He|done].
  - intros t. unfold revdeps_of. rewrite dget_dset. case_decide; subst; [by rewrite He|done].
  - intros e'. rewrite dget_dset_eq. intros [= <-]. by split; eexists.
  - intros t Ht e'. rewrite dget_dset. case_decide; [intros [= <-]; by split; eexists|apply Ht].
Qed.

Lemma hash_all_ok g :
  graph_ok g → acyclic g →
  always_yields (hash_all (G := G) g) (λ g', same_shape g g' ∧ ∀ t, t ∈ keys g → hashed g' t).
Proof.
  intros Hg Ha. unfold hash_all. destruct (hash_tasks_ok g (go_closed _ Hg) Ha (go_wf _ Hg)) as (order & -> & Hp & _).
  apply (ay_lift_bind _ _ (λ o, o = order)); [done|]. intros _ ->. eapply ay_mono.
  - apply (ay_fold_M (λ seen g', same_shape g g' ∧ ∀ t, t ∈ seen → hashed g' t)).
    { split; [done|]. by intros t ?%elem_of_nil. }
    intros seen g1 x _ [Hs1 Hh1]. eapply ay_mono; [apply prepare_task_hash_ok|]. intros g2 (Hs2 & Hx & Hh2). split.
    { destruct Hs1 as [K1 D1 R1], Hs2 as [K2 D2 R2]. split; [congruence|intros; by rewrite D2|intros; by rewrite R2]. }
    intros t [Ht|Ht]%elem_of_app; [by apply Hh2, Hh1|]. by apply list_elem_of_singleton in Ht as ->.
  - intros g' [Hs Hh]. split; [done|]. intros t Ht. apply Hh. by rewrite Hp, <-elem_of_keys.
Qed.

(** What [prepare] promises the execution. *)
Record ready (p : prepared) : Prop := {
  rd_graph : graph_ok (pd_entries p);
  rd_acyclic : acyclic (pd_entries p);
  rd_nonempty : pd_entries p ≠ [];
  rd_hashed : ∀ t, hashed (pd_entries p) t;
  rd_setscene : runq_setscene_tids p ⊆ keys (pd_entries p)
}.

Lemma prepare_ok td :
  always_yields (prepare dataCaches pc td) (λ o,
    match o with
    | None => ∀ mc d, (mc, d) ∈ td → taskentries d = []
    | Some p => ready p ∧ selected td (pd_taskData p) (pd_entries p)
    end).
Proof.
  unfold prepare. destruct (existsb _ td) eqn:Hex; cbn [negb].
  2: { apply ay_ret. intros mc d Hin. destruct (taskentries d) eqn:Ed; [done|]. exfalso.
       apply not_true_iff_false in Hex. apply Hex, existsb_exists. exists (mc, d).
       split; [by apply list_elem_of_In|]. cbn [snd]. by rewrite Ed. }
  clear Hex. eapply ay_bind; [apply choose_tasks_ok|]. intros [[td' g] tids] (Hf & Hcl & Hne & Hsel).
  apply (ay_lift_bind _ _ (λ r, graph_ok r.1 ∧ acyclic r.1 ∧ r.1 ≠ [] ∧ same_deps g r.1)).
  { destruct (check_graph_ok g) as [(Hac & g' & w & -> & Hok & Hs & _)|[_ ->]];
      [apply Hf|done|intros; by apply fresh_revdeps| |done].
    split; [done|]. split; [by rewrite <-(acyclic_same g g' Hs)|]. cbn [fst]. split; [|done]. intros ->.
    destruct Hs as [K _]. apply Hne. destruct g; [done|discriminate]. }
  intros [g1 w] (Hok & Hac & Hne1 & Hs1). cbn [fst] in *.
  apply ay_fueled_bind; [apply check_providers_fueled|]. intros reports.
  apply ay_fueled_bind; [apply make_stampfnwhitelist_fueled|]. intros wl.
  eapply ay_lift_bind; [apply find_setscene_tids_ok|]. intros scenes Hsc.
  eapply ay_bind; [apply invalidate_targets_ok|]. intros _ _.
  eapply ay_bind; [apply resolve_virtuals_ok|]. intros _ _.
  eapply ay_bind; [apply ay_siggen; intros; apply (pf_setscene _ Hsiggen)|]. intros _ _.
  eapply ay_bind; [by apply hash_all_ok|]. intros g2 [Hs Hh].
  eapply ay_bind; [apply ay_siggen; intros; apply (pf_writeout _ Hsiggen)|]. intros _ _.
  apply ay_ret. assert (keys g2 = keys g1) as Hk by (unfold keys; by rewrite (ss_keys _ _ Hs)). split; [split|];
    cbn [pd_entries runq_setscene_tids pd_taskData].
  - by eapply same_shape_ok.
  - by rewrite <-(acyclic_same g1 g2 (conj (ss_keys _ _ Hs) (ss_deps _ _ Hs))).
  - intros ->. apply Hne1. destruct Hs as [K _ _]. destruct g1; [done|discriminate].
  - intros t e He. apply (Hh t); [|done]. rewrite <-Hk. apply elem_of_keys, elem_of_dkeys. eauto.
  - by rewrite Hk.
  - intros Hra Hro. destruct (Hsel Hra Hro) as (g0 & Eb & Hu & Hd). exists g0. split; [done|].
    assert (keys g2 = keys g) as Hkg by (rewrite Hk; unfold keys; by rewrite (proj1 Hs1)).
    rewrite Hkg. split; [done|]. intros t Ht. rewrite (ss_deps _ _ Hs), (proj2 Hs1). by apply Hd.
Qed.
(** ** The generator before the hashing *)

Section before.
Context (R : G → G → Prop) `{!PreOrder R}.
Hypothesis keeps_invalidate : ∀ n c f, preserves R (sg_invalidate_task n c f).
Hypothesis keeps_resolved : ∀ a b c, preserves R (sg_tasks_resolved a b c).
Hypothesis keeps_setscene : ∀ l, preserves R (sg_set_setscene_tasks l).
#[local] Hint Resolve keeps_invalidate keeps_resolved keeps_setscene : preserves.

Lemma fold_M_preserves {A B} (f : A → B → M G A) acc l : (∀ a x, preserves R (f a x)) → preserves R (fold_M f acc l).
Proof.
  intros Hf. revert acc. induction l as [|x l IH]; intros acc; cbn [fold_M]; [apply (preserves_ret _)|].
  by apply (preserves_bind _).
Qed.

Lemma invalidate_task_preserves td tid b : preserves R (invalidate_task dataCaches td tid b).
Proof. unfold invalidate_task. preserves. Qed.
#[local] Hint Resolve invalidate_task_preserves : preserves.

Lemma mark_chosen_preserves td g rb tids : preserves R (mark_chosen dataCaches pc td g rb tids).
Proof. apply fold_M_preserves. intros ? ?. preserves. Qed.
#[local] Hint Resolve mark_chosen_preserves : preserves.

Lemma choose_tasks_preserves td : preserves R (choose_tasks dataCaches pc td).
Proof.
  unfold choose_tasks, handle_runall, handle_runonly. preserves; apply fold_M_preserves.
  - intros [] ?. unfold runall_task. preserves.
  - intros ? ?. unfold runonly_task. preserves.
Qed.

Lemma invalidate_targets_preserves td tids : preserves R (invalidate_targets dataCaches pc td tids).
Proof. unfold invalidate_targets. preserves. Qed.

Lemma resolve_virtuals_preserves td : preserves R (resolve_virtuals dataCaches td).
Proof. unfold resolve_virtuals. preserves. Qed.

(** What is hashed is a graph in order, by a generator that is related to the
    one that [prepare] starts with; the entries are what comes out. *)
Lemma prepare_hashed td gen gen' p :
  prepare dataCaches pc td gen = (gen', Ok (Some p)) →
  ∃ g gen1 gen2, graph_ok g ∧ acyclic g ∧ R gen gen1 ∧ hash_all g gen1 = (gen2, Ok (pd_entries p)) ∧
    sg_writeout_file_checksum_cache gen2 = (gen', Ok tt).
Proof.
  unfold prepare. destruct (negb _); [done|]. intros E.
  apply M_bind_Ok in E as ([[td' g] tids] & s1 & E1 & E). pose proof (choose_tasks_ok td gen) as Hc. rewrite E1 in Hc.
  destruct Hc as (Hf & Hcl & Hne & _).
  apply lift_bind_Ok in E as ([g1 w] & Ec & E).
  assert (graph_ok g1 ∧ acyclic g1) as [Hok Hac].
  { destruct (check_graph_ok g) as [(Hac & g' & w' & E' & Hok & Hs & _)|[_ E']];
      [apply Hf|done|intros; by apply fresh_revdeps| |congruence].
    rewrite E' in Ec. injection Ec as <- <-. split; [done|]. by rewrite <-(acyclic_same g g' Hs). }
  apply lift_bind_Ok in E as (reports & _ & E). apply lift_bind_Ok in E as (wl & _ & E).
  apply lift_bind_Ok in E as (scenes & _ & E).
  apply M_bind_Ok in E as ([] & s2 & E2 & E). apply M_bind_Ok in E as ([] & s3 & E3 & E).
  apply M_bind_Ok in E as ([] & s4 & E4 & E). apply M_bind_Ok in E as (g2 & s5 & E5 & E).
  apply M_bind_Ok in E as ([] & s6 & E6 & E). injection E as <- <-.
  exists g1, s4, s5. do 2 (split; [done|]). split; [|by split].
  etrans; [by eapply preserves_run; [apply choose_tasks_preserves|]|].
  etrans; [by eapply preserves_run; [apply invalidate_targets_preserves|]|].
  etrans; [by eapply preserves_run; [apply resolve_virtuals_preserves|]|].
  by eapply preserves_run; [apply keeps_setscene|].
Qed.
End before.
End prepare.

(** ** Properties *)

(** C8: [prepare] ends.  It says that there is nothing to do only when the
    task data has no tasks in any configuration; when it returns otherwise, the
    graph has tasks, all dependencies and mirrored reverse dependencies among
    them, no circular dependency, every task is hashed, and the setscene tasks
    are tasks of the graph: what the execution relies on. *)
Theorem prepare_ready {G} `{PrepareSigGen G} `{!SetOrder string} dataCaches pc td gen :
  prepare_fueled G →
  match prepare dataCaches pc td gen with
  | (_, Ok None) => ∀ mc d, (mc, d) ∈ td → taskentries d = []
  | (_, Ok (Some p)) => ready p
  | (_, Raise e) => e ≠ OutOfFuel
  end.
Proof.
  intros Hf. pose proof (prepare_ok dataCaches pc Hf td gen) as Hp.
  destruct (prepare dataCaches pc td gen) as [gen' [[p|]|e]]; [apply Hp|done..].
Qed.

(** C9: without [--runall] and [--runonly] the tasks of the prepared graph
    are exactly those that a buildable target asks for (for [task-], those the
    task depends on) and everything these depend on, with the dependencies
    that step A found. *)
Theorem prepare_selects {G} `{PrepareSigGen G} `{!SetOrder string} dataCaches pc td gen gen' p :
  prepare_fueled G → runall pc = [] → runonly pc = [] →
  prepare dataCaches pc td gen = (gen', Ok (Some p)) →
  ∃ g, build_dependencies dataCaches td = Ok (pd_taskData p, g) ∧
    (∀ t, t ∈ keys (pd_entries p) ↔ ∃ r, requested (pd_taskData p) g (targets pc) r ∧ reach g r t) ∧
    ∀ t, t ∈ keys (pd_entries p) → deps_of (pd_entries p) t = deps_of g t.
Proof.
  intros Hf Hra Hro E. pose proof (prepare_ok dataCaches pc Hf td gen) as Hp. rewrite E in Hp.
  by apply (proj2 Hp).
Qed.

(** C10: a queue that was prepared can be executed: with its entries, targets
    and setscene tasks, the construction of the execution and every call on it
    end, and every task that is started comes after the end of all it depends
    on. *)
Theorem prepared_build_safe {G} `{PrepareSigGen G} `{!SetOrder string} dataCaches pc td policy number_threads cf
    gen gen' p name e s :
  prepare_fueled G → (∀ k, fueled (number_threads k)) →
  prepare dataCaches pc td gen = (gen', Ok (Some p)) →
  target_tids cf = pd_target_tids p → setscene_tids cf = runq_setscene_tids p →
  env_fueled e →
  reachable dataCaches (pd_taskData p) policy number_threads cf (pd_entries p) env_fueled name gen' s →
  fueled (new_execute dataCaches (pd_taskData p) policy cf name e (pd_entries p) gen') ∧
  let r := execute_runqueue dataCaches (pd_taskData p) policy number_threads cf e s in
  fueled r.2 ∧ ∀ l1 a l2 t d, log r.1 = l1 ++ a :: l2 → starts a = Some t → dep (pd_entries p) t d → ended l1 d.
Proof.
  intros Hf Hn E Ht Hs He Hr. pose proof (prepare_ok dataCaches pc Hf td gen) as Hp. rewrite E in Hp.
  destruct Hp as [[[Hwf Hcl Hrv] Hac Hne Hh Hsc] _]. split.
  - pose proof (new_execute_ok dataCaches (pd_taskData p) policy number_threads cf (pd_entries p) Hn (pf_siggen _ Hf)
      Hwf Hcl Hac name e gen' He) as Hx. intros Ex. by rewrite Ex in Hx.
  - destruct (execute_runqueue_safe dataCaches (pd_taskData p) policy number_threads cf (pd_entries p) Hn (pf_siggen _ Hf)
      Hwf Hcl Hac env_fueled name gen' e s) as [Hsafe Hfu]; [done..|]. split; [done|].
    intros l1 a l2 t d. apply (safe_log _ _ Hsafe).
Qed.

(** ** Preparing a build of one recipe *)

#[local] Existing Instance sample_order.
#[local] Existing Instance basic_siggen.

#[local] Instance basic_prepare : PrepareSigGen unit := {|
  sg_invalidate_task _ _ _ := mret tt;
  sg_tasks_resolved _ _ _ := mret tt;
  sg_set_setscene_tasks _ := mret tt;
  sg_prep_taskhash _ _ := mret tt;
  sg_writeout_file_checksum_cache := mret tt
|}.

Lemma basic_prepare_fueled : prepare_fueled unit.
Proof. by split; [split|..]. Qed.

Definition task_entry (deps : list string) : TaskEntry := MkTaskEntry deps [] [].

(** A recipe that builds after fetching and has two tasks more, one of which
    needs the other. *)
Definition one_recipe : dict TaskData :=
  [("", MkTaskData [("a", ["a.bb"])] [] ["a"] []
      [("a.bb:do_build", task_entry ["a.bb:do_fetch"]); ("a.bb:do_fetch", task_entry []);
       ("a.bb:do_check", task_entry ["a.bb:do_list"]); ("a.bb:do_list", task_entry [])]
      [("a.bb", [])] [("a.bb", [])] [] [] [] [] true false [] [])].

Definition build_a (all : list string) : prepare_config :=
  PrepareConfig [Target "" "a" "do_build" "a.bb"] all [] false false None [] "".

Definition prepared_a : option prepared :=
  match prepare stamp_caches (build_a []) one_recipe tt with (_, Ok o) => o | _ => None end.

Definition the_prepared : prepared :=
  default (Prepared [] [] [] [] ∅ [] []) prepared_a.

Lemma prepare_a : prepare stamp_caches (build_a []) one_recipe tt = (tt, Ok (Some the_prepared)).
Proof. vm_compute. reflexivity. Qed.

Lemma prepare_ready_witness : dkeys (pd_entries the_prepared) = ["a.bb:do_build"; "a.bb:do_fetch"] ∧ ready the_prepared.
Proof.
  split; [vm_compute; reflexivity|].
  pose proof (prepare_ready stamp_caches (build_a []) one_recipe tt basic_prepare_fueled) as Hp.
  rewrite prepare_a in Hp. exact Hp.
Defined.

Lemma prepare_selects_witness :
  ∃ g, build_dependencies stamp_caches one_recipe = Ok (pd_taskData the_prepared, g) ∧
    "a.bb:do_check" ∈ keys g ∧ ∀ t, t ∈ keys (pd_entries the_prepared) → deps_of (pd_entries the_prepared) t = deps_of g t.
Proof.
  destruct (prepare_selects stamp_caches (build_a []) one_recipe tt tt the_prepared basic_prepare_fueled eq_refl eq_refl
    prepare_a) as (g & E & _ & Hd).
  exists g. split; [exact E|]. split; [|exact Hd].
  assert (match build_dependencies stamp_caches one_recipe with
          | Ok (_, g) => bool_decide ("a.bb:do_check" ∈ keys g) | Raise _ => false end = true) as Hb by (vm_compute; reflexivity).
  rewrite E in Hb. exact (bool_decide_eq_true_1 _ Hb).
Defined.

(** [--runall] puts a pruned task back without the tasks it depends on:
    marking it raises KeyError. *)
Lemma runall_put_back_raises :
  prepare stamp_caches (build_a ["check"]) one_recipe tt = (tt, Raise KeyError).
Proof. vm_compute. reflexivity. Qed.

(** With a common dependee of two providers and none of the third, the common
    ones are those of the third: [if not commondeps] does not tell an empty set
    from none yet. *)
Lemma common_of_restarts : common_of [{["x"]}; {["y"]}; {["y"]}] = ({["y"]} : gset string).
Proof. by_eval. Qed.

(** The execution of what was prepared. *)
Definition prepared_start : rqe unit :=
  match new_execute stamp_caches (pd_taskData the_prepared) perfile plain "speed" (quiet_env []) (pd_entries the_prepared) tt with
  | Ok s => s
  | Raise _ => init_rqe plain [] tt (MkSched [] ∅ [] [] None)
  end.

Lemma prepared_build_safe_witness :
  ∃ s, execute_runqueue stamp_caches (pd_taskData the_prepared) perfile no_limit plain (quiet_env []) prepared_start
         = (s, Ok (RQLoop false)) ∧
    ∀ l1 a l2 t d, log s = l1 ++ a :: l2 → starts a = Some t → dep (pd_entries the_prepared) t d → ended l1 d.
Proof.
  destruct (prepared_build_safe stamp_caches (build_a []) one_recipe perfile no_limit plain tt tt the_prepared "speed"
    (quiet_env []) prepared_start) as (_ & _ & Hl).
  - exact basic_prepare_fueled.
  - exact no_limit_fueled.
  - exact prepare_a.
  - vm_compute. reflexivity.
  - by_eval.
  - apply quiet_spawns.
  - apply (reachable_new _ _ _ _ _ _ _ _ _ (quiet_env [])); [apply quiet_spawns|]. vm_compute. reflexivity.
  - eexists. split; [|exact Hl]. vm_compute. reflexivity.
Defined.
