(* ===== verification/Targets.v ===== *)
(** * From what is asked for to task data (bb/cooker.py)

    [checkPackages] and [buildTaskData] of the cooker: the names given on the
    command line, with "world", "universe" and the multiconfig prefixes, become
    the task data of every configuration and the list of targets that
    [RunQueueData.prepare] starts from. *)

From Stdlib Require Import Ascii String.
From S2P Require Import Prelude.
From S2P Require Import PyStr.
From S2P Require Import PyDict.
From S2P Require Import Cache.
From S2P Require Import Providers.
From S2P Require Import TaskData.
From S2P Require Import Prepare.

(** ** Names *)

(** [s.split(sep)] for a separator of several characters; [skip] counts those
    of a match still to be passed over. *)
Fixpoint split_sub_go (sep : string) (skip : nat) (s : string) : list string :=
  match s with
  | "" => [""]
  | String a s' =>
      match skip with
      | S k => split_sub_go sep k s'
      | O =>
          if String.prefix sep s then "" :: split_sub_go sep (String.length sep - 1) s'
          else match split_sub_go sep 0 s' with
               | p :: ps => String a p :: ps
               | [] => []
               end
      end
  end.

Definition split_sub (sep s : string) : list string := split_sub_go sep 0 s.

(** ["mc:" + mc + ":" + t], but for the default configuration *)
Definition mc_prefix (mc t : string) : string :=
  if str_empty mc then t else "mc:" +s+ mc +s+ ":" +s+ t.

(** The configuration, the name and the task of one target; a target that
    names no task gets the default one. *)
Definition parse_target (task k : string) : string * string * string :=
  let '(mc, k) := if startswith k "mc:" then
                    match split_on ":" k with _ :: mc :: rest => (mc, join ":" rest) | _ => ("", k) end
                  else ("", k) in
  match split_sub ":do_" k with
  | k' :: ktask :: _ => (mc, k', do_name ktask)
  | _ => (mc, k, do_name task)
  end.

(** The list a user interface is told, [<target>:do_<task>]. *)
Definition target_names (runlist : list target) : list string :=
  List.concat (List.map (λ t,
    (if str_empty (tg_mc t) then []
     else ["mc:" +s+ tg_mc t +s+ ":" +s+ tg_target t +s+ ":" +s+ tg_task t]) ++
    [tg_target t +s+ ":" +s+ tg_task t]) runlist).

(** The names of the event [BuildInit]. *)
Definition package_names (targets : list string) (task : string) : list string :=
  List.map (λ t, if char_in ":" t then t else t +s+ ":" +s+ task) targets.

(** ** Wildcards: "mc:*:bash" becomes "mc:A:bash mc:B:bash bash" *)

Record wildcards : Type := MkWildcards {
  fulltargetlist : list string;
  defaulttask_implicit : string;
  defaulttask_explicit : bool;
  wildcard : bool
}.

(** [for mc in self.multiconfigs] of one wildcard. *)
Definition expand_wildcard (k : string) (w : wildcards) (mc : string) : res wildcards :=
  if str_empty mc then
    t ← of_option IndexError (split_on ":" k !! 2);
    Ok (MkWildcards (fulltargetlist w) t (defaulttask_explicit w) (wildcard w))
  else Ok (MkWildcards (fulltargetlist w ++ [replace k "*" mc]) (defaulttask_implicit w)
             (defaulttask_explicit w) (wildcard w)).

Definition expand_target (multiconfigs : list string) (w : wildcards) (k : string) : res wildcards :=
  if startswith k "mc:" then
    if wildcard w then Raise Fatal
    else
      mc ← of_option IndexError (split_on ":" k !! 1);
      if bool_decide (mc = "*") then
        fold_res (expand_wildcard k)
          (MkWildcards (fulltargetlist w) (defaulttask_implicit w) (defaulttask_explicit w) true) multiconfigs
      else Ok (MkWildcards (fulltargetlist w ++ [k]) (defaulttask_implicit w) (defaulttask_explicit w) (wildcard w))
  else Ok (MkWildcards (fulltargetlist w ++ [k]) (defaulttask_implicit w) true (wildcard w)).

Definition expand_targets (multiconfigs targetlist : list string) : res (list string) :=
  w ← fold_res (expand_target multiconfigs) (MkWildcards [] "" false false) targetlist;
  Ok (fulltargetlist w ++
      (if negb (defaulttask_explicit w) && negb (str_empty (defaulttask_implicit w))
       then [defaulttask_implicit w] else [])).

Section targets.
Context {D : Type} `{DataStore D} `{!SetOrder string}.
(** [self.data], the copies made for the configurations, their names in the
    order of [self.multiconfigs], the default task and the recipes skipped. *)
Context (data : D) (localdata : string → D) (multiconfigs : list string) (cmd : string).
Context (skipped : dict SkippedPackage).
Context (re_compile : string → option (string → bool)).
Context (better_exec : string → list string → gset string → dict (list string) → string →
                       res (list string)).

(** ** [checkPackages]

    The state are the recipe caches of the configurations. *)
Abbreviation caches := (dict CacheData).

Definition cache_of (mc : string) : M caches CacheData :=
  s ← get; lift (of_option KeyError (dget s mc)).

Definition put_cache (mc : string) (c : CacheData) : M caches unit := modify (λ s, dset s mc c).

(** The old prefix "multiconfig:". *)
Definition rename_targets (pkgs : list string) : list string :=
  foldl (λ l pkg, if startswith pkg "multiconfig:"
                  then list_remove pkg l ++ [replace pkg "multiconfig:" "mc:"] else l) pkgs pkgs.

Definition add_world (task : option string) (l : list string) : M caches (list string) :=
  fold_state (λ l mc,
    c ← cache_of mc;
    c ← lift (buildWorldTargetList c task);
    _ ← put_cache mc c;
    mret (l ++ List.map (mc_prefix mc) (set_iter (world_target c)))) l multiconfigs.

(** [for provider_fn in providers[t]: if task in ...['tasks']: break] *)
Fixpoint task_found (c : CacheData) (task : string) (l : list string) : res bool :=
  match l with
  | [] => Ok false
  | fn :: l =>
      td ← of_option KeyError (dget (task_deps c) fn);
      if bool_decide (task ∈ td_tasks td) then Ok true else task_found c task l
  end.

(** One recipe of [universe_target]; looking its providers up in the
    [defaultdict] enters it. *)
Definition universe_step (task : option string) (mc : string) (l : list string) (t : string) :
    M caches (list string) :=
  match task with
  | Some (String _ _ as task) =>
      c ← cache_of mc;
      let c := if dmem (providers c) t then c else set_providers c (dset (providers c) t []) in
      _ ← put_cache mc c;
      found ← lift (task_found c task (default [] (dget (providers c) t)));
      mret (if (found : bool) then l ++ [mc_prefix mc t] else l)
  | _ => mret (l ++ [mc_prefix mc t])
  end.

Definition add_universe (task : option string) (l : list string) : M caches (list string) :=
  fold_state (λ l mc,
    c ← cache_of mc;
    fold_state (universe_step task mc) l (universe_target c)) l multiconfigs.

Definition checkPackages (pkgs : list string) (task : option string) : M caches (list string) :=
  match pkgs with
  | [] => raise NothingToBuild
  | _ =>
      _ ← lift (ds_getVar data "ASSUME_PROVIDED");
      let l := rename_targets pkgs in
      l ← (if bool_decide ("world" ∈ l) then add_world task (list_remove "world" l) else mret l);
      if bool_decide ("universe" ∈ l) then add_universe task (list_remove "universe" l) else mret l
  end.

(** ** [buildTaskData]

    The task data of the configurations, each with its recipe cache. *)

(** [taskdata[mc]] *)
Definition at_mc {A} (mc : string) (m : M tds A) : M (dict tds) A := λ s,
  match dget s mc with
  | Some t => let '(t', r) := m t in (dset s mc t', r)
  | None => (s, Raise KeyError)
  end.

Definition provide (mc item : string) : M (dict tds) unit :=
  at_mc mc (add_provider (localdata mc) re_compile better_exec item).

(** One target: its provider is added, and the target is run unless it has none
    (it is in ASSUME_PROVIDED, or cannot be built). *)
Definition add_build (task k : string) : M (dict tds) (option target) :=
  let '(mc, item, ktask) := parse_target task k in
  if bool_decide (mc ∈ multiconfigs) then
    _ ← provide mc item;
    t ← at_mc mc get;
    mret (match dget (build_targets (tds_td t)) item with
          | Some (fn :: _) => Some (Target mc item ktask fn)
          | _ => None
          end)
  else raise Fatal.

Definition add_builds (task : string) (l : list string) : M (dict tds) (list target) :=
  fold_state (λ runlist k, o ← add_build task k; mret (runlist ++ option_list o)) [] l.

(** One pass over the configurations; the result are the multiconfig
    dependencies they have then. *)
Definition resolve_mc (fuel : nat) (mc : string) : M (dict tds) unit :=
  at_mc mc (add_unresolved (localdata mc) re_compile better_exec fuel).

Definition collect_mcdeps (fuel : nat) : M (dict tds) (gset string) :=
  fold_state (λ mcdeps mc,
    _ ← resolve_mc fuel mc;
    t ← at_mc mc get;
    mret (mcdeps ∪ list_to_set (mcdepends (tds_td t)))) ∅ multiconfigs.

Definition provide_mcdep (k : string) : M (dict tds) unit :=
  depmc ← lift (of_option IndexError (split_on ":" k !! 2));
  if bool_decide (depmc ∈ multiconfigs) then
    item ← lift (of_option IndexError (split_on ":" k !! 3));
    provide depmc item
  else raise Fatal.

(** [for k in mcdeps: ...]; the accumulator is [seen] and [new]. *)
Definition provide_step (acc : gset string * bool) (k : string) : M (dict tds) (gset string * bool) :=
  if bool_decide (k ∈ acc.1) then mret acc
  else _ ← provide_mcdep k; mret ({[k]} ∪ acc.1, true).

Definition provide_mcdeps (mcdeps : gset string) (seen : gset string) : M (dict tds) (gset string * bool) :=
  fold_state (λ acc _, fold_state provide_step acc (set_iter mcdeps)) (seen, false) multiconfigs.

(** [while new] *)
Fixpoint mcdep_loop (fuel : nat) (seen : gset string) : M (dict tds) unit :=
  match fuel with
  | O => raise OutOfFuel
  | S n =>
      mcdeps ← collect_mcdeps fuel;
      '(seen, new) ← provide_mcdeps mcdeps seen;
      if (new : bool) then mcdep_loop n seen else mret tt
  end.

Definition have_mcdepends : M (dict tds) bool :=
  fold_state (λ havemc mc, t ← at_mc mc get; mret (havemc || nonempty (mcdepends (tds_td t)))) false multiconfigs.

(** What follows the expansion of the targets. *)
Definition resolve_targets (fuel : nat) (task : string) (l : list string) : M (dict tds) (list target) :=
  runlist ← add_builds task l;
  havemc ← have_mcdepends;
  _ ← (if (havemc : bool) || bool_decide (1 < List.length multiconfigs) then mcdep_loop fuel ∅ else mret tt);
  _ ← for_each multiconfigs (resolve_mc fuel);
  mret runlist.

(** New task data for every configuration, over its recipe cache, which stays
    changed. *)
Definition with_taskdata {A} (new : TaskData) (m : M (dict tds) A) : M caches (dict TaskData * A) := λ cs,
  match map_res (λ mc, c ← of_option KeyError (dget cs mc); Ok (mc, MkTds new c)) multiconfigs with
  | Ok s =>
      let '(s', r) := m s in
      (foldl (λ cs kv, dset cs kv.1 (tds_dc kv.2)) cs s',
       a ← r; Ok (List.map (λ kv, (kv.1, tds_td kv.2)) s', a))
  | Raise e => (cs, Raise e)
  end.

Definition buildTaskData (fuel : nat) (pkgs : list string) (task : option string) (abort allowincomplete : bool) :
    M caches (dict TaskData * list target) :=
  let task := do_name (default cmd task) in
  targetlist ← checkPackages pkgs (Some task);
  l ← lift (expand_targets multiconfigs targetlist);
  with_taskdata (init_taskdata abort skipped allowincomplete) (resolve_targets fuel task l).

Definition prepareTreeData (fuel : nat) (pkgs : list string) (task : option string) :
    M caches (list target * dict TaskData) :=
  '(taskdata, runlist) ← buildTaskData fuel pkgs task false true;
  mret (runlist, taskdata).

(** [buildTargets] up to the run queue: the names of [BuildInit], those of
    [BuildStarted], and what the run queue is made of. *)
Definition buildTargets (fuel : nat) (targets : list string) (task : option string) (abort : bool) :
    M caches (list string * list string * dict TaskData * list target) :=
  let task := do_name (default cmd task) in
  '(taskdata, runlist) ← buildTaskData fuel targets (Some task) abort false;
  mret (package_names targets task, target_names runlist, taskdata, runlist).
End targets.
