(* ===== verification/TargetsOk.v ===== *)
(** * Resolving the targets of a build (bb/cooker.py)

    [buildTaskData] ends, in every mode and for all recipe caches; and when a
    build that goes on after failures gets its task data, every configuration
    in it is resolved, and so is every multiconfig dependency between them. *)

From Stdlib Require Import Ascii String.
From S2P Require Import Prelude.
From S2P Require Import PyStr.
From S2P Require Import PyDict.
From S2P Require Import Runs.
From S2P Require Import Cache.
From S2P Require Import Providers.
From S2P Require Import TaskData.
From S2P Require Import TaskResolve.
From S2P Require Import ResolveEnds.
From S2P Require Import Prepare.
From S2P Require Import Targets.

Section ends.
Context {D : Type} `{DataStore D} `{!SetOrder string}.
Context (data : D) (localdata : string → D) (multiconfigs : list string) (cmd : string).
Context (skipped : dict SkippedPackage).
Context (re_compile : string → option (string → bool)).
Context (better_exec : string → list string → gset string → dict (list string) → string →
                       res (list string)).
Hypothesis data_fueled : ∀ v, fueled (ds_getVar data v).
Hypothesis local_fueled : ∀ mc v, fueled (ds_getVar (localdata mc) v).
Hypothesis exec_fueled : ∀ f l w d pn, fueled (better_exec f l w d pn).

(** ** Ends: the targets *)

Lemma checkPackages_fueled pkgs task : always_fueled (checkPackages data multiconfigs pkgs task).
Proof.
  assert (∀ c task l, fueled (task_found c task l)) as Ht.
  { intros c t l. induction l; cbn [task_found]; fueled. }
  pose proof buildWorldTargetList_fueled.
  unfold checkPackages, add_world, add_universe, universe_step, cache_of, put_cache. cbv zeta. always_fueled.
Qed.

Lemma expand_targets_fueled l : fueled (expand_targets multiconfigs l).
Proof.
  assert (∀ w k, fueled (expand_target multiconfigs w k)) as He.
  { intros w k. unfold expand_target, expand_wildcard. fueled. }
  unfold expand_targets. fueled.
Qed.

(** ** Ends: all configurations at once

    [W] has the multiconfig dependencies written in the recipes. *)
Record all_ok (W : gset string) (s : dict tds) : Prop := {
  ao_all : ∀ mc, mc ∈ multiconfigs → is_Some (dget s mc);
  ao_sound : ∀ mc t, dget s mc = Some t → sound t;
  ao_words : ∀ mc t w, dget s mc = Some t → w ∈ mcdep_words (tds_dc t) → w ∈ W
}.

Lemma all_ok_dset W s mc t t' :
  all_ok W s → dget s mc = Some t → sound t' → grows t t' → all_ok W (dset s mc t').
Proof.
  intros [Ha Hs Hw] Hmc Ht [Hg _]. split.
  - intros mc' Hin. rewrite dget_dset. case_decide; [by eexists|by apply Ha].
  - intros mc' t1. rewrite dget_dset. case_decide; [by intros [= <-]|apply Hs].
  - intros mc' t1 w. rewrite dget_dset. case_decide; [|apply Hw]. intros [= <-].
    rewrite (mcdep_words_deps (tds_dc t) (tds_dc t')); [by apply (Hw mc)|apply (g_tasks _ _ Hg)].
Qed.

Lemma at_mc_settles W mc {A} (m : nat → M tds A) (Q : A → tds → Prop) s :
  all_ok W s → mc ∈ multiconfigs →
  (∀ t, sound t → settles m t (λ a t', sound t' ∧ grows t t' ∧ Q a t')) →
  settles (λ n, at_mc mc (m n)) s (λ a s', all_ok W s' ∧ ∃ t', sound t' ∧ dget s' mc = Some t' ∧ Q a t').
Proof.
  intros HI Hmc Hm. destruct (ao_all _ _ HI mc Hmc) as [t Ht].
  destruct (Hm t (ao_sound _ _ HI mc t Ht)) as (n & t' & r & Hn & Hr).
  exists n, (dset s mc t'), r. split.
  - intros n' Hn'. unfold at_mc. by rewrite Ht, Hn.
  - destruct r as [a|]; [|done]. destruct Hr as (Hs & Hg & HQ). split; [by eapply all_ok_dset|].
    exists t'. split; [done|]. split; [|done]. rewrite dget_dset. by rewrite decide_True.
Qed.

Lemma provide_settles W mc item s : all_ok W s → mc ∈ multiconfigs →
  settles (λ _, provide localdata re_compile better_exec mc item) s (λ _ s', all_ok W s').
Proof.
  intros HI Hmc. eapply settles_mono; [eapply (at_mc_settles W mc (λ _, _) (λ _ _, True)); [done..|]|by intros ?? [? _]].
  intros t Ht. apply settles_const.
  destruct (add_provider_sound (localdata mc) re_compile better_exec (local_fueled mc) exec_fueled item t Ht) as [Hg Hr].
  destruct (add_provider _ _ _ item t) as [t' [[]|e]]; [|apply Hr]. by destruct Hr.
Qed.

Lemma get_settles W mc s : all_ok W s → mc ∈ multiconfigs →
  settles (λ _, at_mc mc get) s (λ t s', all_ok W s' ∧ sound t ∧ dget s' mc = Some t).
Proof.
  intros HI Hmc. eapply settles_mono; [eapply (at_mc_settles W mc (λ _, get) (λ a t, a = t)); [done..|]|].
  - intros t Ht. by apply settles_const.
  - intros t s' (HI' & t' & Hs & Hd & ->). done.
Qed.

Lemma resolve_mc_settles W mc s : all_ok W s → mc ∈ multiconfigs →
  settles (λ n, resolve_mc localdata re_compile better_exec n mc) s (λ _ s', all_ok W s').
Proof.
  intros HI Hmc. eapply settles_mono; [eapply (at_mc_settles W mc _ (λ _ _, True)); [done..|]|by intros ?? [? _]].
  intros t Ht. eapply settles_mono; [by apply add_unresolved_settles|]. by intros _ t' [? ?].
Qed.

Lemma add_builds_settles W task l s : all_ok W s →
  settles (λ _, add_builds localdata multiconfigs re_compile better_exec task l) s (λ _ s', all_ok W s').
Proof.
  intros HI. unfold add_builds. apply (settles_fold_state (λ _ _, all_ok W) (λ _ runlist k, _)); [done|].
  clear s HI. intros acc k _ s HI. unfold add_build. destruct (parse_target task k) as [[mc item] ktask].
  case_bool_decide as Hmc; [|by apply settles_const].
  apply (settles_bind (λ _, _) (λ _ o, mret (acc ++ option_list o)) s (λ _, all_ok W)); [|intros; by apply settles_ret].
  apply (settles_bind (λ _, _) (λ _ _, _) s (λ _, all_ok W)); [by apply provide_settles|]. intros ? s1 HI1.
  apply (settles_bind (λ _, _) (λ _ t, mret _) s1 (λ _, all_ok W)); [|intros; by apply settles_ret].
  eapply settles_mono; [by apply get_settles|]. by intros ?? [? _].
Qed.

Lemma collect_mcdeps_settles W s : all_ok W s →
  settles (collect_mcdeps localdata multiconfigs re_compile better_exec) s (λ mcdeps s', all_ok W s' ∧ mcdeps ⊆ W).
Proof.
  intros HI. eapply settles_mono.
  - apply (settles_fold_state (λ l acc s, l ⊆ multiconfigs ∧ all_ok W s ∧ acc ⊆ W)
      (λ fuel mcdeps mc, _ ← resolve_mc localdata re_compile better_exec fuel mc;
        t ← at_mc mc get; mret (mcdeps ∪ list_to_set (mcdepends (tds_td t))))); [done|].
    clear s HI. intros acc mc l s (Hl & HI & Hacc).
    assert (mc ∈ multiconfigs) as Hmc by (apply Hl, list_elem_of_here).
    eapply settles_bind; [by apply resolve_mc_settles|]. intros ? s1 HI1.
    eapply (settles_bind (λ _, _) (λ _ t, mret _)); [by apply (get_settles W)|]. intros t s2 (HI2 & Ht & Hd).
    apply settles_ret. split; [by intros x Hx; apply Hl, list_elem_of_further|]. split; [done|].
    intros w. rewrite elem_of_union, elem_of_list_to_set. intros [?|Hw]; [by apply Hacc|].
    apply (ao_words _ _ HI2 mc t); [done|]. by apply (so_words _ Ht).
  - by intros mcdeps s' (_ & ? & ?).
Qed.

Lemma provide_mcdep_settles W k s : all_ok W s →
  settles (λ _, provide_mcdep localdata multiconfigs re_compile better_exec k) s (λ _ s', all_ok W s').
Proof.
  intros HI. unfold provide_mcdep. eapply (settles_bind (λ _, _) (λ _ depmc, _) s (λ _, all_ok W)).
  { apply settles_const. cbn. by destruct (split_on ":" k !! 2). }
  intros depmc s1 HI1. case_bool_decide as Hmc; [|by apply settles_const].
  eapply (settles_bind (λ _, _) (λ _ item, _) s1 (λ _, all_ok W)).
  { apply settles_const. cbn. by destruct (split_on ":" k !! 3). }
  intros item s2 HI2. by apply provide_settles.
Qed.

(** What is new was not seen before. *)
Definition more_seen (W seen : gset string) (acc : gset string * bool) (s : dict tds) : Prop :=
  all_ok W s ∧ seen ⊆ acc.1 ∧ acc.1 ⊆ W ∧ (acc.2 = true → ∃ k, k ∈ acc.1 ∧ k ∉ seen).

Lemma provide_mcdeps_settles W mcdeps seen s : all_ok W s → mcdeps ⊆ W → seen ⊆ W →
  settles (λ _, provide_mcdeps localdata multiconfigs re_compile better_exec mcdeps seen) s (more_seen W seen).
Proof.
  intros HI Hm Hs. unfold provide_mcdeps.
  apply (settles_fold_state (λ _, more_seen W seen) (λ _ acc _, _)); [done|]. clear s HI. intros acc _ _ s HI.
  assert (∀ x, x ∈ set_iter mcdeps → x ∈ W) as Hl by (intros x Hx%elem_of_set_iter; set_solver).
  eapply settles_mono.
  { apply (settles_fold_state (λ l acc s, (∀ x, x ∈ l → x ∈ W) ∧ more_seen W seen acc s) (λ _ acc k, _)); [done|].
    clear acc s HI Hl. intros acc k l s [Hl (HI & H1 & H2 & H3)].
    assert (∀ x, x ∈ l → x ∈ W) as Hl' by (intros; apply Hl; by apply list_elem_of_further).
    unfold provide_step. case_bool_decide as Hk; [by apply settles_ret|].
    eapply (settles_bind (λ _, _) (λ _ _, _)); [by apply provide_mcdep_settles|]. intros [] s1 HI1.
    apply settles_ret. split; [done|]. split; [done|]. cbn. split; [set_solver|]. split.
    - pose proof (Hl k (list_elem_of_here _ _)). set_solver.
    - intros _. exists k. set_solver. }
  by intros a s' [_ ?].
Qed.

Lemma mcdep_loop_settles W seen s : all_ok W s → seen ⊆ W →
  settles (λ n, mcdep_loop localdata multiconfigs re_compile better_exec n seen) s (λ _, all_ok W).
Proof.
  remember (size (W ∖ seen)) as n eqn:En. revert seen s En. induction n as [n IH] using lt_wf_ind.
  intros seen s -> HI Hs.
  apply (settles_ext (λ fuel, mcdeps ← collect_mcdeps localdata multiconfigs re_compile better_exec fuel;
      '(seen, new) ← provide_mcdeps localdata multiconfigs re_compile better_exec mcdeps seen;
      if (new : bool) then mcdep_loop localdata multiconfigs re_compile better_exec (Nat.pred fuel) seen else mret tt) _ 1).
  { intros [|fuel] Hf; [lia|done]. }
  eapply settles_bind; [by apply collect_mcdeps_settles|]. intros mcdeps s1 [HI1 Hm].
  eapply (settles_bind (λ _, _) (λ fuel '(seen, new), _)); [by apply provide_mcdeps_settles|].
  intros [seen' new] s2 (HI2 & H1 & H2 & H3). cbn in H1, H2, H3. destruct new; [|by apply settles_ret].
  apply (settles_pred (λ fuel, mcdep_loop localdata multiconfigs re_compile better_exec fuel seen')).
  destruct (H3 eq_refl) as (k & Hk & Hn). eapply IH; [|done|done|done].
  apply subset_size. set_solver.
Qed.

Lemma have_mcdepends_settles W s : all_ok W s → settles (λ _, have_mcdepends multiconfigs) s (λ _, all_ok W).
Proof.
  intros HI. unfold have_mcdepends. eapply settles_mono.
  { apply (settles_fold_state (λ l _ s, l ⊆ multiconfigs ∧ all_ok W s) (λ _ acc mc, _)); [done|].
    clear s HI. intros acc mc l s [Hl HI].
    eapply (settles_bind (λ _, _) (λ _ t, _)); [apply (get_settles W); [done|apply Hl, list_elem_of_here]|].
    intros t s1 (HI1 & _). apply settles_ret. split; [|done]. intros x Hx. by apply Hl, list_elem_of_further. }
  by intros ? s' [_ ?].
Qed.

Lemma resolve_targets_settles W task l s : all_ok W s →
  settles (λ n, resolve_targets localdata multiconfigs re_compile better_exec n task l) s (λ _ _, True).
Proof.
  intros HI. unfold resolve_targets.
  eapply (settles_bind (λ _, _) (λ n runlist, _)); [exact (add_builds_settles W task l s HI)|]. intros runlist s1 HI1.
  eapply (settles_bind (λ _, _) (λ n havemc, _)); [exact (have_mcdepends_settles W s1 HI1)|]. intros havemc s2 HI2.
  eapply settles_bind; [|intros [] s3 HI3; eapply (settles_bind _ (λ _ _, _)); [|by intros; apply settles_ret]].
  - case_match; [exact (mcdep_loop_settles W ∅ s2 HI2 (empty_subseteq W))|by apply settles_ret].
  - apply (settles_for_each (λ l s, l ⊆ multiconfigs ∧ all_ok W s)
      (λ n mc, resolve_mc localdata re_compile better_exec n mc)); [done|].
    intros mc l' s4 [Hl HI4]. eapply settles_mono; [apply (resolve_mc_settles W); [done|apply Hl, list_elem_of_here]|].
    intros ? s5 HI5. split; [|done]. intros x Hx. by apply Hl, list_elem_of_further.
Qed.

(** Where [with_taskdata] starts. *)
Lemma start_ok new caches s :
  (∀ c, sound (MkTds new c)) →
  map_res (λ mc, c ← of_option KeyError (dget caches mc); Ok (mc, MkTds new c)) multiconfigs = Ok s →
  ∃ W, all_ok W s.
Proof.
  intros Hnew Es.
  assert (∀ l s, map_res (λ mc, c ← of_option KeyError (dget caches mc); Ok (mc, MkTds new c)) l = Ok s →
    (∀ mc, mc ∈ l → is_Some (dget s mc)) ∧ ∀ mc t, (mc, t) ∈ s → tds_td t = new) as H0.
  { clear Es s. induction l as [|mc l IH]; cbn [map_res]; intros s.
    { intros [= <-]. split; [by intros ? ?%elem_of_nil|by intros ?? ?%elem_of_nil]. }
    destruct (dget caches mc) as [c|]; [|done]. cbn [mbind res_bind of_option].
    destruct (map_res _ l) as [s'|]; [|done]. cbn [mbind res_bind]. intros [= <-].
    destruct (IH s' eq_refl) as [IH1 IH2]. split.
    - intros mc' Hin. cbn [dget]. case_decide; [by eexists|]. apply IH1. by apply elem_of_cons in Hin as [->|].
    - intros mc' t [[= -> ->]|Hin]%elem_of_cons; [done|by eapply IH2]. }
  destruct (H0 _ _ Es) as [H1 H2].
  exists (list_to_set (List.concat (List.map (λ kv : string * tds, mcdep_words (tds_dc kv.2)) s))). split; [done| |].
  - intros mc t Ht%dget_elem_of. destruct t as [t c]. specialize (H2 _ _ Ht). cbn in H2. subst t. apply Hnew.
  - intros mc t w Ht Hw. apply elem_of_list_to_set, elem_of_concat. eexists. split; [|exact Hw].
    apply elem_of_map. exists (mc, t). split; [done|]. by apply dget_elem_of.
Qed.

Lemma with_taskdata_settles {A} new (m : nat → M (dict tds) A) caches :
  (∀ c, sound (MkTds new c)) → (∀ W s, all_ok W s → settles m s (λ _ _, True)) →
  settles (λ n, with_taskdata multiconfigs new (m n)) caches (λ _ _, True).
Proof.
  intros Hnew Hm.
  destruct (map_res (λ mc, c ← of_option KeyError (dget caches mc); Ok (mc, MkTds new c)) multiconfigs) as [s|e] eqn:Es.
  - destruct (start_ok new caches s Hnew Es) as [W HI].
    destruct (Hm W s HI) as (n & s' & r & Hn & Hr).
    exists n. eexists _, _. split; [intros n' Hn'; unfold with_taskdata; rewrite Es, (Hn n' Hn'); reflexivity|].
    by destruct r.
  - exists 0, caches, (Raise e). split; [intros n' _; unfold with_taskdata; by rewrite Es|]. intros ->.
    assert (∀ l, fueled (map_res (λ mc, c ← of_option KeyError (dget caches mc); Ok (mc, MkTds new c)) l)) as Hf.
    { induction l; cbn [map_res]; fueled. }
    by apply (Hf multiconfigs).
Qed.

(** C7: [buildTaskData] always ends, whatever it is asked for, whatever the
    recipes depend on, with [abort] and without: with enough fuel the model
    never runs out of it, and more fuel changes nothing.  The loop over
    multiconfig dependencies stops because what it has not seen yet is among
    the finitely many of them written in the recipes. *)
Theorem buildTaskData_ends pkgs task abort allowincomplete caches :
  ∃ n, (buildTaskData data localdata multiconfigs cmd skipped re_compile better_exec n pkgs task abort
          allowincomplete caches).2 ≠ Raise OutOfFuel ∧
    ∀ n', n ≤ n' →
      buildTaskData data localdata multiconfigs cmd skipped re_compile better_exec n' pkgs task abort allowincomplete caches =
      buildTaskData data localdata multiconfigs cmd skipped re_compile better_exec n pkgs task abort allowincomplete caches.
Proof.
  apply (settles_ends (λ n, buildTaskData _ _ _ _ _ _ _ n pkgs task abort allowincomplete) _ (λ _ _, True)).
  unfold buildTaskData. cbv zeta.
  eapply (settles_bind (λ _, _) (λ n targetlist, _) _ (λ _ _, True)).
  { apply settles_const. pose proof (checkPackages_fueled pkgs (Some (do_name (default cmd task))) caches) as Hf.
    unfold fueled in Hf. destruct (checkPackages _ _ _ _ _) as [s' [l|e]]; cbn in Hf; [done|congruence]. }
  intros targetlist s1 _. eapply (settles_bind (λ _, _) (λ n l, _) _ (λ _ _, True)).
  { apply settles_const. pose proof (expand_targets_fueled targetlist) as Hf. unfold lift.
    unfold fueled in Hf. destruct (expand_targets multiconfigs targetlist) as [l|e]; [done|congruence]. }
  intros l s2 _. apply with_taskdata_settles; [intros; apply sound_init|].
  intros W s HI. by eapply resolve_targets_settles.
Qed.
End ends.

(** ** Complete: one configuration *)

Section complete.
Context {D : Type} `{DataStore D} `{!SetOrder string}.
Context (data : D) (localdata : string → D) (multiconfigs : list string) (cmd : string).
Context (skipped : dict SkippedPackage).
Context (re_compile : string → option (string → bool)).
Context (better_exec : string → list string → gset string → dict (list string) → string →
                       res (list string)).
Hypothesis better_exec_error : ∀ f l w d pn e, better_exec f l w d pn = Raise e → other_error e.
Hypothesis multiconfigs_NoDup : NoDup multiconfigs.

(** The item needs no more work in this configuration: it is ignored, has
    failed, or has a provider. *)
Definition item_done (item : string) (t : tds) : Prop := handled re_compile (λ t, resolved_build t item) item t.

Lemma item_done_grows item t t' : grows t t' → item_done item t → item_done item t'.
Proof. intros Hg. eapply handled_grows; [|done]. intros ???. by apply grows_resolved_build. Qed.

Lemma add_provider_done mc item t : td_inv None t →
  returns t (add_provider (localdata mc) re_compile better_exec item)
    (λ _ t', td_inv None t' ∧ grows t t' ∧ item_done item t').
Proof.
  intros HI. unfold add_provider.
  apply (returns_bind _ _ _ (λ _ t', td_inv None t' ∧ grows t t' ∧ item_done item t')).
  - unfold catch, returns.
    pose proof (add_provider_internal_spec (localdata mc) re_compile better_exec better_exec_error item t HI) as Hs.
    destruct (add_provider_internal _ _ _ item t) as [t1 [[]|e]]; destruct Hs as (HI1 & Hg & Hr).
    + split; [done|]. split; [done|]. destruct Hr as [Hi|Hr]; [left|by right].
      by rewrite (g_ignored _ _ (proj1 Hg)).
    + destruct (is_NoProvider e); [|done]. rewrite get_bind, (inv_abort _ _ HI1).
      destruct (on_td_fail_buildtarget t1 item HI1) as (t2 & -> & _ & Hf & HI2 & Hg2).
      split; [done|]. split; [by etrans|]. right. by left.
  - intros [] t1 (HI1 & Hg1 & Hd). destruct t1 as [td c].
    assert (harmless (mark_external_target item)) as Hm.
    { apply tables_harmless. intros t'. unfold mark_external_target. by case_bool_decide. }
    destruct (Hm None td c HI1) as [HI2 Hg2]. unfold returns. cbn.
    assert (grows (MkTds td c) (MkTds (mark_external_target item td) c)) as Hg.
    { split; [done|]. intros _. unfold mark_external_target. split; cbn; case_bool_decide; by left. }
    split; [done|]. split; [by etrans|by eapply item_done_grows].
Qed.

Lemma add_unresolved_done mc fuel t : td_inv None t → td_allowincomplete (tds_td t) = false →
  returns t (add_unresolved (localdata mc) re_compile better_exec fuel)
    (λ _ t', td_inv None t' ∧ grows t t' ∧ all_resolved re_compile t').
Proof.
  intros HI Ha. pose proof (add_unresolved_inv (localdata mc) re_compile better_exec better_exec_error fuel t HI) as Hs.
  unfold returns. destruct (add_unresolved _ _ _ fuel t) as [t' [[]|e]]; [|done]. naive_solver.
Qed.

(** Where everything is resolved, resolving changes nothing. *)
Lemma unresolved_none ign failed d l :
  unresolved_targets re_compile ign failed d = Ok l → dict_wf d →
  (∀ x, x ∈ dkeys d → re_match_strings re_compile x ign = Ok true ∨ x ∈ failed ∨ providers_in d x ≠ []) → l = [].
Proof.
  intros Hl Hwf Hall. destruct (unresolved_targets_spec _ _ _ _ _ Hl Hwf) as [_ Hs].
  destruct l as [|x l]; [done|]. destruct (proj1 (Hs x) (list_elem_of_here _ _)) as (Hk & Hr & Hf & Hp).
  destruct (Hall x Hk) as [Hi|[?|?]]; congruence.
Qed.

Lemma add_unresolved_fixed mc fuel t : td_inv None t → all_resolved re_compile t →
  returns t (add_unresolved (localdata mc) re_compile better_exec fuel) (λ _ t', t' = t).
Proof.
  intros HI [Hb Hr]. destruct fuel as [|fuel]; cbn [add_unresolved]; [done|].
  apply (returns_bind _ _ _ (λ n t', n = 0 ∧ t' = t)); [|by intros n t' [-> ->]].
  unfold unresolved_round. apply returns_get, returns_lift_bind. intros lb Eb.
  rewrite (unresolved_none _ _ _ lb Eb (proj1 (inv_wf _ _ HI)) Hb).
  apply (returns_bind _ _ _ (λ n t', n = 0 ∧ t' = t)); [done|]. intros ? ? [-> ->].
  apply returns_get, returns_lift_bind. intros lr Er.
  rewrite (unresolved_none _ _ _ lr Er (proj2 (inv_wf _ _ HI)) Hr). done.
Qed.

(** ** Complete: all configurations *)

Record all_good (s : dict tds) : Prop := {
  ag_keys : dkeys s = multiconfigs;
  ag_inv : ∀ mc t, dget s mc = Some t → td_inv None t;
  ag_incomplete : ∀ mc t, dget s mc = Some t → td_allowincomplete (tds_td t) = false
}.

(** The configurations of [s] in [s'], grown. *)
Definition grows_all (s s' : dict tds) : Prop :=
  ∀ mc t, dget s mc = Some t → ∃ t', dget s' mc = Some t' ∧ grows t t'.

#[local] Instance grows_all_preorder : PreOrder grows_all.
Proof.
  split; [intros s mc t Ht; by exists t|].
  intros s1 s2 s3 H1 H2 mc t Ht. destruct (H1 mc t Ht) as (t' & Ht' & Hg). destruct (H2 mc t' Ht') as (t2 & Ht2 & Hg2).
  exists t2. split; [done|by etrans].
Qed.

Lemma all_good_dset s mc t t' : all_good s → dget s mc = Some t → td_inv None t' → grows t t' →
  all_good (dset s mc t') ∧ grows_all s (dset s mc t').
Proof.
  intros [Hk Hi Ha] Ht HI Hg. split; [split|].
  - rewrite dkeys_dset. unfold dmem. by rewrite Ht.
  - intros mc' t1. rewrite dget_dset. case_decide; [by intros [= <-]|apply Hi].
  - intros mc' t1. rewrite dget_dset. case_decide; [|apply Ha]. intros [= <-].
    rewrite (g_incomplete _ _ (proj1 Hg)). by apply (Ha mc).
  - intros mc' t1 Ht1. rewrite dget_dset. case_decide as Hd; [|by exists t1].
    subst mc'. exists t'. split; [done|]. by simplify_eq.
Qed.

Lemma at_mc_good mc {A} (m : M tds A) (Q : A → tds → Prop) s : all_good s →
  (∀ t, dget s mc = Some t → returns t m (λ a t', td_inv None t' ∧ grows t t' ∧ Q a t')) →
  returns s (at_mc mc m) (λ a s', all_good s' ∧ grows_all s s' ∧
    ∃ t t', dget s mc = Some t ∧ s' = dset s mc t' ∧ Q a t').
Proof.
  intros HI Hm. unfold returns, at_mc. destruct (dget s mc) as [t|] eqn:Et; [|done].
  specialize (Hm t eq_refl). unfold returns in Hm. destruct (m t) as [t' [a|e]]; [|done].
  destruct Hm as (H1 & H2 & H3). destruct (all_good_dset s mc t t' HI Et H1 H2). eauto 10.
Qed.

(** The item is dealt with in the configuration [mc]. *)
Definition mc_done (mc item : string) (s : dict tds) : Prop := ∃ t, dget s mc = Some t ∧ item_done item t.

Lemma mc_done_grows mc item s s' : grows_all s s' → mc_done mc item s → mc_done mc item s'.
Proof.
  intros Hg (t & Ht & Hd). destruct (Hg mc t Ht) as (t' & Ht' & Hg'). exists t'. split; [done|].
  by eapply item_done_grows.
Qed.

(** A multiconfig dependency "mc:from:to:item:task" is dealt with. *)
Definition mcdep_done (w : string) (s : dict tds) : Prop := ∃ depmc item,
  split_on ":" w !! 2 = Some depmc ∧ split_on ":" w !! 3 = Some item ∧ depmc ∈ multiconfigs ∧ mc_done depmc item s.

Lemma mcdep_done_grows w s s' : grows_all s s' → mcdep_done w s → mcdep_done w s'.
Proof. intros Hg (depmc & item & ? & ? & ? & ?). exists depmc, item. eauto using mc_done_grows. Qed.

Lemma provide_good mc item s : all_good s →
  returns s (provide localdata re_compile better_exec mc item)
    (λ _ s', all_good s' ∧ grows_all s s' ∧ mc_done mc item s').
Proof.
  intros HI. eapply returns_mono; [apply (at_mc_good mc _ (λ _, item_done item)); [done|]|].
  - intros t Ht. apply add_provider_done. by apply (ag_inv _ HI mc).
  - intros [] s' (H1 & H2 & t & t' & Ht & -> & Hd). split; [done|]. split; [done|]. exists t'.
    split; [|done]. rewrite dget_dset. by rewrite decide_True.
Qed.

Lemma resolve_mc_good fuel mc s : all_good s →
  returns s (resolve_mc localdata re_compile better_exec fuel mc)
    (λ _ s', all_good s' ∧ grows_all s s' ∧
       ∃ t t', dget s mc = Some t ∧ s' = dset s mc t' ∧ all_resolved re_compile t').
Proof.
  intros HI. eapply (at_mc_good mc _ (λ _, all_resolved re_compile)); [done|]. intros t Ht.
  apply add_unresolved_done; [by apply (ag_inv _ HI mc)|by apply (ag_incomplete _ HI mc)].
Qed.

Lemma get_good mc s : all_good s → returns s (at_mc mc get) (λ t s', s' = s ∧ dget s mc = Some t).
Proof. intros HI. unfold returns, at_mc. destruct (dget s mc) as [t|] eqn:Et; [|done]. cbn. by rewrite dset_same. Qed.

(** What is in the list of targets to run. *)
Definition runs_of (task : string) (l : list string) (runlist : list target) : Prop :=
  List.map (λ t, (tg_mc t, tg_target t, tg_task t)) runlist `sublist_of` List.map (parse_target task) l.

Definition builds_done (task : string) (l : list string) (s : dict tds) : Prop :=
  ∀ k, k ∈ l → let '(mc, item, _) := parse_target task k in mc ∈ multiconfigs ∧ mc_done mc item s.

Lemma builds_done_grows task l s s' : grows_all s s' → builds_done task l s → builds_done task l s'.
Proof.
  intros Hg Hd k Hk. specialize (Hd k Hk). destruct (parse_target task k) as [[mc item] tk].
  destruct Hd. split; [done|]. by eapply mc_done_grows.
Qed.

Lemma add_build_good task k s : all_good s →
  returns s (add_build localdata multiconfigs re_compile better_exec task k)
    (λ o s', all_good s' ∧ grows_all s s' ∧ builds_done task [k] s' ∧ runs_of task [k] (option_list o)).
Proof.
  intros HI. unfold add_build, builds_done, runs_of. cbn [List.map].
  destruct (parse_target task k) as [[mc item] tk] eqn:Ep. case_bool_decide as Hmc; [|done].
  eapply returns_bind; [by apply provide_good|]. intros [] s1 (HI1 & Hg1 & Hd).
  eapply returns_bind; [by apply get_good|]. intros t s2 (-> & _).
  apply returns_ret. split; [done|]. split; [done|]. split.
  - intros k' ->%list_elem_of_singleton. by rewrite Ep.
  - destruct (dget (build_targets (tds_td t)) item) as [[|fn fns]|]; cbn; [apply sublist_nil_l|done|apply sublist_nil_l].
Qed.

Lemma add_builds_good task l s : all_good s →
  returns s (add_builds localdata multiconfigs re_compile better_exec task l)
    (λ runlist s', all_good s' ∧ grows_all s s' ∧ builds_done task l s' ∧ runs_of task l runlist).
Proof.
  intros HI. unfold add_builds.
  pose proof (returns_fold_list (λ l' runlist s', ∃ l0, l = l0 ++ l' ∧ all_good s' ∧ grows_all s s' ∧
    builds_done task l0 s' ∧ runs_of task l0 runlist) s [] l
    (λ runlist k, o ← add_build localdata multiconfigs re_compile better_exec task k; mret (runlist ++ option_list o))) as Hf.
  eapply returns_mono; [apply Hf|].
  - exists []. split; [done|]. split; [done|]. split; [done|]. split; [by intros ? ?%elem_of_nil|by apply sublist_nil].
  - clear Hf. intros runlist k l' s1 (l0 & -> & HI1 & Hg1 & Hd & Hr).
    eapply returns_bind; [by apply add_build_good|]. intros o s2 (HI2 & Hg2 & Hd2 & Hr2).
    apply returns_ret. exists (l0 ++ [k]). rewrite <-app_assoc. split; [done|]. split; [done|]. split; [by etrans|].
    split; [|unfold runs_of; rewrite !List.map_app; by apply sublist_app].
    intros k' [Hk|Hk]%elem_of_app; [|by apply Hd2]. by apply (builds_done_grows task l0 s1 s2).
  - cbn. intros runlist s' (l0 & El & ?). rewrite app_nil_r in El. by subst l0.
Qed.

(** What one pass over the configurations leaves: all are resolved, and their
    multiconfig dependencies collected. *)
Definition collected (done : list string) (mcdeps : gset string) (s : dict tds) : Prop := ∀ mc t,
  mc ∈ done → dget s mc = Some t → all_resolved re_compile t ∧ ∀ w, w ∈ mcdepends (tds_td t) → w ∈ mcdeps.

Lemma collect_mcdeps_good fuel s : all_good s →
  returns s (collect_mcdeps localdata multiconfigs re_compile better_exec fuel)
    (λ mcdeps s', all_good s' ∧ grows_all s s' ∧ collected multiconfigs mcdeps s').
Proof.
  intros HI. unfold collect_mcdeps.
  pose proof (returns_fold_list (λ l' mcdeps s', ∃ l0, multiconfigs = l0 ++ l' ∧ all_good s' ∧ grows_all s s' ∧
    collected l0 mcdeps s') s ∅ multiconfigs
    (λ mcdeps mc, _ ← resolve_mc localdata re_compile better_exec fuel mc;
      t ← at_mc mc get; mret (mcdeps ∪ list_to_set (mcdepends (tds_td t))))) as Hf.
  eapply returns_mono; [apply Hf|].
  - exists []. split; [done|]. split; [done|]. split; [done|]. by intros ?? ?%elem_of_nil.
  - clear Hf. intros mcdeps mc l' s1 (l0 & El & HI1 & Hg1 & Hc).
    eapply returns_bind; [by apply resolve_mc_good|]. intros [] s2 (HI2 & Hg2 & t & t' & Ht & -> & Hres).
    eapply returns_bind; [by apply get_good|]. intros t1 s3 (-> & Ht1).
    rewrite dget_dset, decide_True in Ht1 by done. injection Ht1 as <-.
    apply returns_ret. exists (l0 ++ [mc]). rewrite <-app_assoc. split; [done|]. split; [done|]. split; [by etrans|].
    intros mc' t1 Hin. rewrite dget_dset. case_decide as Hd.
    + intros [= <-]. split; [done|]. intros w Hw. set_solver.
    + intros Ht1. apply elem_of_app in Hin as [Hin|Hin]; [|by apply list_elem_of_singleton in Hin].
      destruct (Hc mc' t1 Hin Ht1) as [H1 H2]. split; [done|]. set_solver.
  - cbn. intros mcdeps s' (l0 & El & ?). rewrite app_nil_r in El. by subst l0.
Qed.

Lemma provide_mcdep_good k s : all_good s →
  returns s (provide_mcdep localdata multiconfigs re_compile better_exec k)
    (λ _ s', all_good s' ∧ grows_all s s' ∧ mcdep_done k s').
Proof.
  intros HI. unfold provide_mcdep. apply returns_lift_bind. intros depmc Ed. case_bool_decide as Hmc; [|done].
  apply returns_lift_bind. intros item Ei. eapply returns_mono; [by apply provide_good|].
  intros [] s' (H1 & H2 & H3). split; [done|]. split; [done|]. exists depmc, item.
  destruct (split_on ":" k !! 2); [|done]. destruct (split_on ":" k !! 3); [|done]. by simplify_eq/=.
Qed.

(** All that is in [seen] is dealt with; while nothing is new, nothing changed. *)
Record seen_good (s0 : dict tds) (seen0 : gset string) (acc : gset string * bool) (s : dict tds) : Prop := {
  sg_good : all_good s;
  sg_grows : grows_all s0 s;
  sg_done : ∀ k, k ∈ acc.1 → mcdep_done k s;
  sg_old : acc.2 = false → s = s0 ∧ acc.1 = seen0
}.

Lemma provide_step_good s0 seen0 acc k s : seen_good s0 seen0 acc s →
  returns s (provide_step localdata multiconfigs re_compile better_exec acc k)
    (λ acc' s', seen_good s0 seen0 acc' s' ∧ (acc.1 ⊆ acc'.1) ∧ k ∈ acc'.1).
Proof.
  intros [H1 H2 H3 H4]. unfold provide_step. case_bool_decide as Hk; [by apply returns_ret|].
  eapply returns_bind; [by apply provide_mcdep_good|]. intros [] s1 (HI1 & Hg1 & Hd). apply returns_ret.
  split; [|cbn; split; set_solver]. split; cbn; [done|by etrans| |done].
  intros k'. rewrite elem_of_union, elem_of_singleton. intros [->|Hk']; [done|]. by eapply mcdep_done_grows, H3.
Qed.

Lemma provide_mcdeps_good mcdeps seen s : all_good s → (∀ k, k ∈ seen → mcdep_done k s) →
  returns s (provide_mcdeps localdata multiconfigs re_compile better_exec mcdeps seen)
    (λ acc s', seen_good s seen acc s' ∧ (multiconfigs ≠ [] → mcdeps ⊆ acc.1)).
Proof.
  intros HI Hseen. unfold provide_mcdeps.
  assert (∀ acc s1 l, seen_good s seen acc s1 →
    returns s1 (fold_state (provide_step localdata multiconfigs re_compile better_exec) acc l)
      (λ acc' s', seen_good s seen acc' s' ∧ acc.1 ⊆ acc'.1 ∧ ∀ k, k ∈ l → k ∈ acc'.1)) as Hin.
  { intros acc s1 l. revert acc s1. induction l as [|k l IH]; intros acc s1 H1; cbn [fold_state].
    { apply returns_ret. split; [done|]. split; [done|]. by intros ? ?%elem_of_nil. }
    eapply returns_bind; [by apply provide_step_good|]. intros acc1 s2 (H2 & H3 & H4).
    eapply returns_mono; [by apply IH|]. intros acc2 s3 (H5 & H6 & H7). split; [done|]. split; [set_solver|].
    intros k' [->|?]%elem_of_cons; [by apply H6|by apply H7]. }
  eapply returns_mono.
  - apply (returns_fold_list (λ l acc s', seen_good s seen acc s' ∧ (l ≠ multiconfigs → mcdeps ⊆ acc.1) ∧
        ∃ l0, multiconfigs = l0 ++ l)).
    + split; [by split|]. split; [done|]. by exists [].
    + intros acc mc l s1 (H1 & H2 & l0 & El). eapply returns_mono; [by apply Hin|].
      intros acc' s' (H3 & H4 & H5). split; [done|]. split.
      * intros _ k Hk. apply H5. by apply elem_of_set_iter.
      * exists (l0 ++ [mc]). by rewrite <-app_assoc.
  - cbn. intros acc s' (H1 & H2 & _). split; [done|]. intros Hne. apply H2. by apply not_eq_sym.
Qed.

(** Everything is resolved, and so are the dependencies between the
    configurations. *)
Record complete (s : dict tds) : Prop := {
  cp_resolved : ∀ mc t, dget s mc = Some t → all_resolved re_compile t;
  cp_mcdeps : 1 < List.length multiconfigs →
    ∀ mc t w, dget s mc = Some t → w ∈ mcdepends (tds_td t) → mcdep_done w s
}.

Lemma good_mc s mc t : all_good s → dget s mc = Some t → mc ∈ multiconfigs.
Proof. intros HI Ht. rewrite <-(ag_keys _ HI). apply elem_of_dkeys. by eexists. Qed.

Lemma mcdep_loop_good fuel seen s : all_good s → (∀ k, k ∈ seen → mcdep_done k s) →
  returns s (mcdep_loop localdata multiconfigs re_compile better_exec fuel seen)
    (λ _ s', all_good s' ∧ grows_all s s' ∧ complete s').
Proof.
  revert seen s. induction fuel as [|fuel IH]; intros seen s HI Hseen; cbn [mcdep_loop]; [done|].
  eapply returns_bind; [by apply collect_mcdeps_good|]. intros mcdeps s1 (HI1 & Hg1 & Hc).
  eapply returns_bind; [apply provide_mcdeps_good; [done|]|].
  { intros k Hk. by eapply mcdep_done_grows, Hseen. }
  intros [seen' new] s2 ([HI2 Hg2 Hd Hold] & Hall). cbn in Hd, Hold, Hall. destruct new.
  - eapply returns_mono; [by apply IH|]. intros _ s3 (HI3 & Hg3 & Hcp). split; [done|]. split; [|done].
    etrans; [done|]. by etrans.
  - apply returns_ret. destruct (Hold eq_refl) as [-> ->]. split; [done|]. split; [done|]. split.
    + intros mc t Ht. apply (Hc mc t); [by eapply good_mc|done].
    + intros Hlen mc t w Ht Hw. apply Hd, Hall; [by intros E; rewrite E in Hlen; cbn in Hlen; lia|].
      apply (Hc mc t); [by eapply good_mc|done|done].
Qed.

(** Resolving all configurations once more changes nothing. *)
Lemma resolve_again fuel s : all_good s → (∀ mc t, dget s mc = Some t → all_resolved re_compile t) →
  returns s (for_each multiconfigs (resolve_mc localdata re_compile better_exec fuel)) (λ _ s', s' = s).
Proof.
  intros HI Hr. apply returns_for_each; [done|]. intros mc s1 _ ->. unfold returns, resolve_mc, at_mc.
  destruct (dget s mc) as [t|] eqn:Et; [|done].
  pose proof (add_unresolved_fixed mc fuel t (ag_inv _ HI mc t Et) (Hr mc t Et)) as Hf. unfold returns in Hf.
  destruct (add_unresolved _ _ _ fuel t) as [t' [[]|e]]; [|done]. subst t'. by rewrite dset_same.
Qed.

Lemma resolve_all_good fuel s : all_good s →
  returns s (for_each multiconfigs (resolve_mc localdata re_compile better_exec fuel))
    (λ _ s', all_good s' ∧ grows_all s s' ∧ ∀ mc t, dget s' mc = Some t → all_resolved re_compile t).
Proof.
  intros HI. eapply returns_mono.
  - apply (returns_for_list (λ l s', ∃ l0, multiconfigs = l0 ++ l ∧ all_good s' ∧ grows_all s s' ∧
      ∀ mc t, mc ∈ l0 → dget s' mc = Some t → all_resolved re_compile t)).
    + exists []. split; [done|]. split; [done|]. split; [done|]. by intros ?? ?%elem_of_nil.
    + intros mc l s1 (l0 & El & HI1 & Hg1 & Hr).
      eapply returns_mono; [by apply resolve_mc_good|]. intros [] s2 (HI2 & Hg2 & t & t' & Ht & -> & Hres).
      exists (l0 ++ [mc]). rewrite <-app_assoc. split; [done|]. split; [done|]. split; [by etrans|].
      intros mc' t1 Hin. rewrite dget_dset. case_decide as Hd; [by intros [= <-]|]. apply Hr.
      apply elem_of_app in Hin as [Hin|Hin]; [done|by apply list_elem_of_singleton in Hin].
  - cbn. intros _ s' (l0 & El & HI' & Hg' & Hr). rewrite app_nil_r in El. subst l0.
    split; [done|]. split; [done|]. intros mc t Ht. apply (Hr mc); [by eapply good_mc|done].
Qed.

Lemma resolve_targets_good fuel task l s : all_good s →
  returns s (resolve_targets localdata multiconfigs re_compile better_exec fuel task l)
    (λ runlist s', all_good s' ∧ complete s' ∧ builds_done task l s' ∧ runs_of task l runlist).
Proof.
  intros HI. unfold resolve_targets.
  eapply returns_bind; [by apply add_builds_good|]. intros runlist s1 (HI1 & _ & Hb & Hr).
  apply (returns_bind _ _ _ (λ _ s', s' = s1)).
  { unfold have_mcdepends. apply (returns_fold_state (λ _ s', s' = s1)); [done|]. intros acc mc s' _ ->.
    eapply returns_bind; [by apply get_good|]. by intros t s' (-> & _). }
  intros havemc ? ->. case_match eqn:Ec.
  - eapply returns_bind; [by apply (mcdep_loop_good fuel ∅)|]. intros [] s2 (HI2 & Hg2 & Hcp).
    eapply returns_bind; [apply resolve_again; [done|apply (cp_resolved _ Hcp)]|]. intros ? ? ->.
    apply returns_ret. split; [done|]. split; [done|]. split; [by eapply builds_done_grows|done].
  - apply (returns_bind _ _ _ (λ _ s', s' = s1)); [done|]. intros ? ? ->.
    eapply returns_bind; [by apply resolve_all_good|]. intros ? s2 (HI2 & Hg2 & Hres).
    apply returns_ret. split; [done|]. split; [|split; [by eapply builds_done_grows|done]]. split; [done|].
    intros Hlen. apply orb_false_iff in Ec as [_ Ec]. apply bool_decide_eq_false in Ec. done.
Qed.

Lemma dget_map_values {A B} (f : A → B) (d : dict A) k : dget (List.map (λ kv, (kv.1, f kv.2)) d) k = f <$> dget d k.
Proof. induction d as [|[k' a] d IH]; [done|]. cbn. by case_decide. Qed.

(** The state after [buildTaskData]: the task data it returns with the recipe
    caches it leaves. *)
Lemma with_taskdata_ok {A} new (m : M (dict tds) A) caches caches' td a (Q : A → dict tds → Prop) :
  (∀ s, dkeys s = multiconfigs → (∀ mc t, dget s mc = Some t → tds_td t = new) →
     returns s m (λ a s', dkeys s' = multiconfigs ∧ Q a s')) →
  with_taskdata multiconfigs new m caches = (caches', Ok (td, a)) →
  ∃ s, Q a s ∧ td = List.map (λ kv, (kv.1, tds_td kv.2)) s ∧
    (∀ mc t, dget s mc = Some t → dget caches' mc = Some (tds_dc t)).
Proof.
  intros Hm. unfold with_taskdata.
  assert (∀ l s, map_res (λ mc, c ← of_option KeyError (dget caches mc); Ok (mc, MkTds new c)) l = Ok s →
    dkeys s = l ∧ ∀ mc t, dget s mc = Some t → tds_td t = new) as H0.
  { induction l as [|mc l IH]; cbn [map_res]; intros s; [by intros [= <-]|].
    destruct (dget caches mc) as [c|]; [|done]. cbn [mbind res_bind of_option].
    destruct (map_res _ l) as [s'|]; [|done]. cbn [mbind res_bind]. intros [= <-].
    destruct (IH s' eq_refl) as [IH1 IH2]. split; [cbn; by rewrite <-IH1|].
    intros mc' t. cbn [dget]. case_decide; [by intros [= <-]|by apply (IH2 mc')]. }
  destruct (map_res _ multiconfigs) as [s|] eqn:Es; [|done]. destruct (H0 _ _ Es) as [Hk Hn].
  specialize (Hm s Hk Hn). unfold returns in Hm. destruct (m s) as [s' [a'|e]]; [|done].
  cbn [mbind res_bind]. intros [= <- <- <-]. destruct Hm as [Hk' HQ]. exists s'. split; [done|]. split; [done|].
  assert (NoDup (dkeys s')) as Hnd by (by rewrite Hk'). clear -Hnd. generalize caches as cs.
  induction s' as [|[k t0] s' IH]; [done|]. intros cs mc t. cbn in *. apply NoDup_cons in Hnd as [Hk Hnd].
  case_decide; [|by apply IH]. intros [= <-]. subst k.
  assert (∀ cs, mc ∉ dkeys s' → dget (foldl (λ cs kv, dset cs kv.1 (tds_dc kv.2)) cs s') mc = dget cs mc) as Hf.
  { clear. induction s' as [|[k t] s' IH]; [done|]. intros cs Hn. cbn in *. rewrite not_elem_of_cons in Hn.
    rewrite IH by tauto. rewrite dget_dset, decide_False; [done|]. intros ->. tauto. }
  rewrite Hf by done. by rewrite dget_dset, decide_True.
Qed.

(** C6: when [buildTaskData] returns, in a build that goes on after failures,
    its task data are complete.  There is one for every configuration, in
    which every target, for building or at run time, is ignored, has failed or
    has a provider, and all that a file that has not failed depends on is
    ignored or has a provider that has not failed.  Every target asked for,
    after the names of checkPackages and the wildcards are expanded, is dealt
    with in its configuration, and those to run are among them, in order.
    With several configurations, every multiconfig dependency of any of them
    names a configuration there is and is dealt with in it. *)
Theorem buildTaskData_complete fuel pkgs task caches caches' td runlist :
  buildTaskData data localdata multiconfigs cmd skipped re_compile better_exec fuel pkgs task false false caches =
    (caches', Ok (td, runlist)) →
  ∃ cs targetlist l,
    checkPackages data multiconfigs pkgs (Some (do_name (default cmd task))) caches = (cs, Ok targetlist) ∧
    expand_targets multiconfigs targetlist = Ok l ∧ runs_of (do_name (default cmd task)) l runlist ∧
  ∃ s, dkeys s = multiconfigs ∧
    (∀ mc t, dget s mc = Some t → dget td mc = Some (tds_td t) ∧ dget caches' mc = Some (tds_dc t)) ∧
    (∀ mc t, dget s mc = Some t → all_resolved re_compile t ∧
       ∀ f, f ∉ failed_fns (tds_td t) → deps_provided re_compile t f) ∧
    builds_done (do_name (default cmd task)) l s ∧
    (1 < List.length multiconfigs → ∀ mc t w, dget s mc = Some t → w ∈ mcdepends (tds_td t) → mcdep_done w s).
Proof.
  unfold buildTaskData. cbv zeta. intros E. apply M_bind_Ok in E as (targetlist & cs & Ec & E).
  apply lift_bind_Ok in E as (l & El & E).
  eapply (with_taskdata_ok _ _ _ _ _ _ (λ runlist s', all_good s' ∧ complete s' ∧
    builds_done (do_name (default cmd task)) l s' ∧ runs_of (do_name (default cmd task)) l runlist)) in E.
  - destruct E as (s & (HI & Hcp & Hb & Hr) & -> & Hc). exists cs, targetlist, l.
    split; [done|]. split; [done|]. split; [done|]. exists s. split; [apply (ag_keys _ HI)|].
    split; [|split; [|split; [done|apply (cp_mcdeps _ Hcp)]]].
    + intros mc t Ht. split; [|by apply Hc]. by rewrite dget_map_values, Ht.
    + intros mc t Ht. pose proof (cp_resolved _ Hcp mc t Ht) as Hres. split; [done|].
      intros f. apply resolved_provided; [by apply (ag_inv _ HI mc)|done].
  - intros s Hk Hn. assert (all_good s) as HI.
    { split; [done| |]; intros mc t Ht; specialize (Hn mc t Ht); [|by rewrite Hn].
      destruct t as [t c]. cbn in Hn. subst t. apply init_inv. }
    eapply returns_mono; [by apply resolve_targets_good|]. intros r s' (HI' & ?). split; [apply (ag_keys _ HI')|done].
Qed.
End complete.

(** ** A concrete build

    Two configurations: [app] of the default one needs [lib], and a task of it
    the task [do_deploy] of [bsp] of the other one, which needs [fw]. *)

#[local] Instance dict_store : DataStore (dict string) := {| ds_getVar d v := Ok (dget d v) |}.
#[local] Instance sample_order : SetOrder string := set_order_elements.

Definition mc_task : TaskDeps :=
  MkTaskDeps ["do_build"] [("do_build", [])] [("mcdepends", [("do_build", "mc::zynq:bsp:do_deploy")])].

Definition host_cache : CacheData :=
  set_bbfile_priority
    (add_sample (add_sample init_cacheData "app.bb" (recipe "app" mc_task ["lib"])) "lib.bb" (recipe "lib" one_task []))
    [("app.bb", 5%Z); ("lib.bb", 5%Z)].

Definition zynq_cache : CacheData :=
  set_bbfile_priority
    (add_sample (add_sample init_cacheData "bsp.bb" (recipe "bsp" one_task ["fw"])) "fw.bb" (recipe "fw" one_task []))
    [("bsp.bb", 5%Z); ("fw.bb", 5%Z)].

Abbreviation sample_build fuel pkgs :=
  (buildTaskData (D := dict string) [] (λ _, []) [""; "zynq"] "build" [] no_regexp no_exec fuel pkgs None false false
    [("", host_cache); ("zynq", zynq_cache)]).

Example sample_runlist :
  (snd <$> (sample_build 6 ["app:do_compile"; "mc:zynq:fw"]).2) =
  Ok [Target "" "app" "do_compile" "app.bb"; Target "zynq" "fw" "do_build" "fw.bb"].
Proof. vm_compute. reflexivity. Qed.

Lemma buildTaskData_ends_witness :
  ∃ n, (sample_build n ["app"]).2 ≠ Raise OutOfFuel ∧ ∀ n', n ≤ n' → sample_build n' ["app"] = sample_build n ["app"].
Proof.
  apply (buildTaskData_ends (D := dict string) [] (λ _, []) [""; "zynq"] "build" [] no_regexp no_exec); by intros.
Defined.

Lemma buildTaskData_complete_witness :
  ∃ caches' td runlist s, sample_build 6 ["app"] = (caches', Ok (td, runlist)) ∧
    (∀ mc t, dget s mc = Some t → dget td mc = Some (tds_td t)) ∧
    (∀ mc t f, dget s mc = Some t → f ∉ failed_fns (tds_td t) → deps_provided no_regexp t f) ∧
    ∀ mc t w, dget s mc = Some t → w ∈ mcdepends (tds_td t) → mcdep_done [""; "zynq"] no_regexp w s.
Proof.
  assert (match sample_build 6 ["app"] with (_, Ok _) => true | _ => false end = true) as Hok by (vm_compute; reflexivity).
  destruct (sample_build 6 ["app"]) as [caches' [[td runlist]|e]] eqn:E; [|discriminate].
  exists caches', td, runlist.
  destruct (buildTaskData_complete (D := dict string) [] (λ _, []) [""; "zynq"] "build" [] no_regexp no_exec no_exec_error
    ltac:(by_eval) 6 ["app"] None _ caches' td runlist E) as (_ & _ & _ & _ & _ & _ & s & _ & H1 & H2 & _ & H3).
  exists s. split; [reflexivity|]. split; [|split].
  - intros mc t Ht. by apply H1.
  - intros mc t f Ht. by apply (H2 mc t Ht).
  - apply H3. cbn. lia.
Defined.

(** In this build there is such a dependency, and it is dealt with: both
    recipes of the other configuration are found. *)
Example sample_mcdep :
  (λ r, List.map (λ kv : string * TaskData, (kv.1, mcdepends kv.2, build_targets kv.2)) r.1) <$> (sample_build 6 ["app"]).2 =
  Ok [("", ["mc::zynq:bsp:do_deploy"], [("app", ["app.bb"]); ("lib", ["lib.bb"])]);
      ("zynq", [], [("bsp", ["bsp.bb"]); ("fw", ["fw.bb"])])].
Proof. vm_compute. reflexivity. Qed.

(** ** Where the code does not do what it means to *)

Definition one_config (c : CacheData) (fuel : nat) (pkgs : list string) (abort : bool) :=
  buildTaskData [] (λ _, []) [""] "build" [] no_regexp no_exec fuel pkgs None abort false [("", c)].

(** Under [abort] a target that cannot be built stops the build; but here the
    exception that says so is caught by [add_unresolved], which is looking for
    another target: [mid] is being added when the failure of [app] is raised.
    The task data are returned, with nothing in them that can be built. *)
Definition provider_of (pn : string) (provides deps : list string) : RecipeInfo :=
  MkRecipeInfo pn "" "1.0" "r0" one_task 0 provides [] [] [] [] deps [] [] [] [] "" "" "" [] [] [] "" [] "" "" "" "".

Definition swallowed_cache : CacheData :=
  set_bbfile_priority
    (add_sample (add_sample (add_sample (add_sample init_cacheData
      "app.bb" (recipe "app" one_task ["virt"]))
      "v1.bb" (provider_of "v1" ["virt"] ["missing"]))
      "v2.bb" (provider_of "v2" ["virt"] ["mid"]))
      "mid.bb" (recipe "mid" one_task ["missing"]))
    [("app.bb", 5%Z); ("v1.bb", 5%Z); ("v2.bb", 5%Z); ("mid.bb", 5%Z)].

Lemma abort_swallowed :
  (λ r, (List.map (λ kv : string * TaskData, failed_deps kv.2) r.1, r.2)) <$> (one_config swallowed_cache 6 ["app"] true).2 =
  Ok ([["missing"; "mid"; "virt"; "app"; "mid"]], [Target "" "app" "do_build" "app.bb"]).
Proof. vm_compute. reflexivity. Qed.

(** When the only failure on the way is the one looked for, the build stops. *)
Lemma abort_raises :
  (one_config (set_bbfile_priority (add_sample init_cacheData "app.bb" (recipe "app" one_task ["missing"])) [("app.bb", 5%Z)])
     6 ["app"] true).2 = Raise (NoProvider "app").
Proof. vm_compute. reflexivity. Qed.

(** With one configuration, a dependency on another one that does not exist is
    refused if a target asked for has it, but not if it comes with a
    dependency of that target. *)
Definition stray_cache : CacheData :=
  set_bbfile_priority
    (add_sample (add_sample init_cacheData "top.bb" (recipe "top" one_task ["app"])) "app.bb" (recipe "app" mc_task []))
    [("top.bb", 5%Z); ("app.bb", 5%Z)].

Lemma stray_mcdepends :
  (one_config stray_cache 6 ["app"] false).2 = Raise Fatal ∧
  (λ r, List.map (λ kv : string * TaskData, mcdepends kv.2) r.1) <$> (one_config stray_cache 6 ["top"] false).2 =
  Ok [["mc::zynq:bsp:do_deploy"]].
Proof. vm_compute. done. Qed.

(** The wildcard includes the default configuration, but not when another
    target has no prefix; and there its task is lost. *)
Lemma wildcard_default :
  expand_targets [""; "zynq"] ["mc:*:bash"] = Ok ["mc:zynq:bash"; "bash"] ∧
  expand_targets [""; "zynq"] ["mc:*:bash"; "lib"] = Ok ["mc:zynq:bash"; "lib"] ∧
  expand_targets [""; "zynq"] ["mc:*:bash:do_compile"] = Ok ["mc:zynq:bash:do_compile"; "bash"].
Proof. vm_compute. done. Qed.
