(* ===== verification/DataStore.v ===== *)
(** * The data store (bb/data_smart.py)

    [DataSmart], the variables of a configuration or recipe: every variable is
    a dictionary of flags, its value the flag [_content].  Reading a variable
    takes the variant of an active override, adds what is appended and
    prepended, expands references and Python expressions, and drops what is
    removed.  A copy of a store reads through to the dictionaries of the store
    it was made from, so the dictionaries live in a heap of layers. *)

From Stdlib Require Import Ascii String.
From S2P Require Import Prelude.
From S2P Require Import PyStr.
From S2P Require Import PyDict.

Abbreviation dict V := (list (string * V)).

(** The value of a task's flag in [_task_deps]. *)
Inductive scalar : Type :=
  | Text (s : string)
  | Number (n : Z).

#[export] Instance scalar_eq_dec : EqDecision scalar.
Proof. solve_decision. Defined.

(** [_task_deps]: the tasks, those each must follow, and for every flag that
    counts the tasks that set it. *)
Record task_table : Type := TaskTable {
  tt_tasks : list string;
  tt_parents : dict (list string);
  tt_flags : dict (dict scalar)
}.

#[export] Instance task_table_eq_dec : EqDecision task_table.
Proof. solve_decision. Defined.

(** The value of a flag: [None], a string, a number or boolean, a list of
    names, the list of [_append], [_prepend] or [_remove] with the overrides
    they are for, the list of files with their times, the table of the tasks,
    or a set; a set that is stored is a reference, since it is changed in
    place. *)
Inductive value : Type :=
  | VNone
  | VStr (s : string)
  | VInt (n : Z)
  | VList (l : list string)
  | VOps (l : list (string * option string))
  | VFiles (l : list (string * Z))
  | VTable (t : task_table)
  | VSet (s : gset string)
  | VRef (loc : nat).

#[export] Instance value_eq_dec : EqDecision value.
Proof. solve_decision. Defined.

(** [self.dict]: flags by variable, and [_data], the dictionary of the store
    this one was copied from. *)
Record layer : Type := Layer {
  l_vars : dict (dict value);
  l_data : option nat
}.

Definition empty_layer : layer := Layer [] None.

(** [VariableParse] once it is filled; [p_removes] is the attribute
    [getVarFlag] may add. *)
Record parse : Type := Parse {
  p_value : option value;
  p_references : gset string;
  p_execs : gset string;
  p_contains : gmap string (gset string);
  p_removes : option (gset string)
}.

Definition empty_parse (v : option value) : parse := Parse v ∅ ∅ ∅ None.
Definition set_p_value (v : option value) (p : parse) : parse :=
  Parse v (p_references p) (p_execs p) (p_contains p) (p_removes p).

(** What evaluating a Python expression gives: the text of its value, none
    when a string literal of the code has no end, and what the Python parser
    finds in the code. *)
Record python_result : Type := PythonResult {
  pr_text : option string;
  pr_references : gset string;
  pr_execs : gset string;
  pr_contains : gmap string (gset string)
}.

(** The items of two [contains] together. *)
Definition add_contains (a b : gmap string (gset string)) : gmap string (gset string) :=
  union_with (λ x y, Some (x ∪ y)) a b.

(** The fields of a [DataSmart] but for the histories, which only record. *)
Record DataSmart : Type := MkDataSmart {
  d_dict : nat;
  expand_cache : dict parse;
  overridedata : dict (list (string * string));
  overrides : option (list string);
  overridesset : gset string;
  overridevars : gset string;
  inoverride : bool
}.

(** The heap of dictionaries and sets, and the store whose method runs. *)
Record world : Type := World {
  w_layers : gmap nat layer;
  w_sets : gmap nat (gset string);
  w_self : DataSmart
}.

Definition layer_at (w : world) (l : nat) : layer := default empty_layer (w_layers w !! l).

Definition set_self (f : DataSmart → DataSmart) (w : world) : world :=
  World (w_layers w) (w_sets w) (f (w_self w)).
Definition set_own (f : dict (dict value) → dict (dict value)) (w : world) : world :=
  let l := d_dict (w_self w) in
  World (<[l := Layer (f (l_vars (layer_at w l))) (l_data (layer_at w l))]> (w_layers w)) (w_sets w) (w_self w).

Definition set_expand_cache (c : dict parse) (d : DataSmart) : DataSmart :=
  MkDataSmart (d_dict d) c (overridedata d) (overrides d) (overridesset d) (overridevars d) (inoverride d).
Definition set_overridedata (o : dict (list (string * string))) (d : DataSmart) : DataSmart :=
  MkDataSmart (d_dict d) (expand_cache d) o (overrides d) (overridesset d) (overridevars d) (inoverride d).
Definition set_overrides (o : option (list string)) (d : DataSmart) : DataSmart :=
  MkDataSmart (d_dict d) (expand_cache d) (overridedata d) o (overridesset d) (overridevars d) (inoverride d).
Definition set_overridesset (o : gset string) (d : DataSmart) : DataSmart :=
  MkDataSmart (d_dict d) (expand_cache d) (overridedata d) (overrides d) o (overridevars d) (inoverride d).
Definition set_overridevars (o : gset string) (d : DataSmart) : DataSmart :=
  MkDataSmart (d_dict d) (expand_cache d) (overridedata d) (overrides d) (overridesset d) o (inoverride d).
Definition set_inoverride (b : bool) (d : DataSmart) : DataSmart :=
  MkDataSmart (d_dict d) (expand_cache d) (overridedata d) (overrides d) (overridesset d) (overridevars d) b.

Abbreviation data := (M world).

(** [self.dict[var]] of the store's own dictionary. *)
Definition own_var (w : world) (var : string) : option (dict value) :=
  dget (l_vars (layer_at w (d_dict (w_self w)))) var.

(** [_findVar]: the flags of the nearest dictionary that has the variable.  A
    copy is made after what it copies, so the indices of the heap decrease. *)
Fixpoint find_in (w : world) (n l : nat) (var : string) : option (dict value) :=
  match n with
  | O => None
  | S n =>
      match dget (l_vars (layer_at w l)) var with
      | Some flags => Some flags
      | None => match l_data (layer_at w l) with Some l' => find_in w n l' var | None => None end
      end
  end.

Definition _findVar (w : world) (var : string) : option (dict value) :=
  let l := d_dict (w_self w) in find_in w (S l) l var.

(** [if local_var:] *)
Definition found (o : option (dict value)) : bool :=
  match o with Some (_ :: _) => true | _ => false end.

Definition clear_cache : data unit := modify (set_self (set_expand_cache [])).

Definition initVar (var : string) : data unit :=
  _ ← clear_cache;
  modify (set_own (λ d, if dmem d var then d else dset d var [])).

Definition _makeShadowCopy (var : string) : data unit :=
  w ← get;
  match own_var w var with
  | Some _ => mret tt
  | None =>
      let local := _findVar w var in
      if found local then modify (set_own (λ d, dset d var (default [] local))) else initVar var
  end.

(** [self.dict[var][flag] = value] and [del self.dict[var][flag]]. *)
Definition write_flag (var flag : string) (v : value) : data unit :=
  w ← get;
  flags ← lift (of_option KeyError (own_var w var));
  modify (set_own (λ d, dset d var (dset flags flag v))).

Definition remove_flag (var flag : string) : data unit :=
  w ← get;
  flags ← lift (of_option KeyError (own_var w var));
  if dmem flags flag then modify (set_own (λ d, dset d var (ddel flags flag))) else mret tt.

(** ** Patterns *)

(** The keyword at the start of the text, up to the end of the name, and the
    overrides after it. *)
Definition keyword_at (s : string) : option (string * option string) :=
  match List.find (startswith s) ["_append"; "_prepend"; "_remove"] with
  | None => None
  | Some k =>
      match str_drop (String.length k) s with
      | "" => Some (k, None)
      | String "_" add => if str_all (λ c, negb (is_upper c)) add then Some (k, Some add) else None
      | rest => if bool_decide (rest = str1 newline) then Some (k, None) else None
      end
  end.

(** [__setvar_regexp__.match(var)]: base, keyword and overrides. *)
Fixpoint setvar_match (s : string) : option (string * string * option string) :=
  match keyword_at s with
  | Some (k, add) => Some ("", k, add)
  | None =>
      match s with
      | "" => None
      | String c s =>
          if Ascii.eqb c newline then None
          else match setvar_match s with
               | Some (base, k, add) => Some (String c base, k, add)
               | None => None
               end
      end
  end.

(** The pieces of a text: plain, or what [${...}] holds. *)
Inductive piece : Type :=
  | Lit (s : string)
  | Ref (key : string).

Definition is_key_char (c : ascii) : bool :=
  is_letter c || is_digit c || char_in c "-_+./~".

(** [\${[a-zA-Z0-9\-_+./~]+?}] at the start. *)
Definition var_at (s : string) : option (string * string) :=
  if startswith s "${" then
    match span is_key_char (str_drop 2 s) with
    | ("", _) => None
    | (key, String "}" rest) => Some (key, rest)
    | _ => None
    end
  else None.

(** [\${@.+?}] at the start. *)
Definition python_at (s : string) : option (string * string) :=
  if startswith s "${@" then
    match str_drop 3 s with
    | "" => None
    | String c s =>
        match span (λ c, negb (Ascii.eqb c "}") && negb (Ascii.eqb c newline)) s with
        | (code, String "}" rest) => if Ascii.eqb c newline then None else Some (String c code, rest)
        | _ => None
        end
    end
  else None.

(** The text cut at every match. *)
Fixpoint pieces (at_start : string → option (string * string)) (n : nat) (s : string) : list piece :=
  match n with
  | O => [Lit s]
  | S n =>
      match s with
      | "" => []
      | String c s' =>
          match at_start s with
          | Some (key, rest) => Ref key :: pieces at_start n rest
          | None => Lit (str1 c) :: pieces at_start n s'
          end
      end
  end.

Definition var_pieces (s : string) : list piece := pieces var_at (String.length s) s.
Definition python_pieces (s : string) : list piece := pieces python_at (String.length s) s.

(** [s.find('${') != -1] *)
Fixpoint has_ref (s : string) : bool :=
  match s with
  | "" => false
  | String _ s' => startswith s "${" || has_ref s'
  end.

(** [__whitespace_split__.split(s)]: the words and the blanks between them. *)
Fixpoint split_keep (s : string) : list string :=
  match s with
  | "" => [""]
  | String c s =>
      if is_space c then "" :: str1 c :: split_keep s
      else match split_keep s with w :: l => String c w :: l | [] => [str1 c] end
  end.

(** ** Reading *)

(** What is passed to [getVarFlag]; the result is the value and, when
    [retparser] asks for it, the parse. *)
Record flag_call : Type := FlagCall {
  fc_var : string;
  fc_flag : string;
  fc_expand : bool;
  fc_noweakdefault : bool;
  fc_parsing : bool;
  fc_retparser : bool
}.

Definition flag_result : Type := option value * option parse.

(** [self.getVar(var)] and [self.getVar(var, False)]. *)
Definition call_var (var : string) (expand : bool) : flag_call := FlagCall var "_content" expand false false false.

Definition truthy (v : option value) : bool :=
  match v with
  | None | Some VNone => false
  | Some (VStr s) => negb (str_empty s)
  | Some (VInt n) => negb (bool_decide (n = 0%Z))
  | Some (VList l) => match l with [] => false | _ => true end
  | Some (VOps l) => match l with [] => false | _ => true end
  | Some (VFiles l) => match l with [] => false | _ => true end
  | Some (VSet s) => negb (bool_decide (s = ∅))
  | Some (VTable _) | Some (VRef _) => true
  end.

(** A value used as a string. *)
Definition as_str (v : option value) : res string :=
  match v with Some (VStr s) => Ok s | _ => Raise TypeError end.

(** [(v or "").split(":")] *)
Definition override_list (v : option value) : res (list string) :=
  if truthy v then s ← as_str v; Ok (split_on ":" s) else Ok [""].

(** [copy.copy(local_var[flag])]: what is read from a stored set is a copy. *)
Definition copy_value (w : world) (v : value) : value :=
  match v with VRef l => VSet (default ∅ (w_sets w !! l)) | _ => v end.

(** A value read from a flag: none when [None] was stored. *)
Definition some_value (v : value) : option value := match v with VNone => None | _ => Some v end.

Definition cachename (var flag : string) : string :=
  if bool_decide (flag = "_content") then var else var +s+ "[" +s+ flag +s+ "]".

Section reading.
Context `{!SetOrder string}.
(** [python_sub] but for the parse it adds to: the expression evaluated and
    parsed, given the name of the variable that is expanded. *)
Context (python_eval : option string → string → data python_result).
(** Bounds of the loops of one expansion and of [_setvar_update_overridevars]. *)
Context (loop_fuel : nat).

Section calls.
(** The recursive call of [getVarFlag]. *)
Context (getVarFlag : flag_call → data flag_result).

(** [var_sub] on the pieces of a text. *)
Fixpoint sub_pieces (sub : string → parse → data (string * parse)) (l : list piece) (p : parse) :
    data (string * parse) :=
  match l with
  | [] => mret ("", p)
  | Lit s :: l => '(t, p) ← sub_pieces sub l p; mret (s +s+ t, p)
  | Ref key :: l =>
      '(s, p) ← sub key p;
      '(t, p) ← sub_pieces sub l p;
      mret (s +s+ t, p)
  end.

Definition var_sub (varname : option string) (key : string) (p : parse) : data (string * parse) :=
  if bool_decide (varname = Some key) then raise SelfReference
  else
    '(v, _) ← getVarFlag (call_var key true);
    let p := Parse (p_value p) ({[key]} ∪ p_references p) (p_execs p) (p_contains p) (p_removes p) in
    match v with
    | None => mret ("${" +s+ key +s+ "}", p)
    | Some _ => s ← lift (as_str v); mret (s, p)
    end.

Definition add_python (e : python_result) (p : parse) : parse :=
  Parse (p_value p) (pr_references e ∪ p_references p) (pr_execs e ∪ p_execs p)
    (add_contains (p_contains p) (pr_contains e)) (p_removes p).

(** The expressions of a text; one with an unfinished string literal ends it
    without a text. *)
Fixpoint python_sub (varname : option string) (l : list piece) (p : parse) : data (option string * parse) :=
  match l with
  | [] => mret (Some "", p)
  | Lit s :: l => '(t, p) ← python_sub varname l p; mret ((λ t, s +s+ t) <$> t, p)
  | Ref code :: l =>
      e ← python_eval varname code;
      let p := add_python e p in
      match pr_text e with
      | None => mret (None, p)
      | Some s => '(t, p) ← python_sub varname l p; mret ((λ t, s +s+ t) <$> t, p)
      end
  end.

(** [except Exception], after [except ExpansionError] and [except SkipRecipe];
    not the model's own. *)
Definition is_exception (e : exn) : bool :=
  match e with ExpansionError | SkipRecipe _ | OutOfFuel => false | _ => true end.

(** One round of the loop. *)
Definition expand_once (varname : option string) (s : string) (p : parse) : data (string * parse) :=
  catch
    ('(s, p) ← sub_pieces (var_sub varname) (var_pieces s) p;
     '(t, p) ← python_sub varname (python_pieces s) p;
     mret (default s t, p))
    is_exception (λ _, raise ExpansionError).

Fixpoint expand_loop (n : nat) (varname : option string) (s : string) (p : parse) : data (string * parse) :=
  match n with
  | O => raise OutOfFuel
  | S n =>
      if has_ref s then
        '(s', p) ← expand_once varname s p;
        if bool_decide (s' = s) then mret (s', p) else expand_loop n varname s' p
      else mret (s, p)
  end.

(** [expandWithRefs] *)
Definition expandWithRefs (v : option value) (varname : option string) : data parse :=
  match v with
  | Some (VStr s) =>
      '(s, p) ← expand_loop loop_fuel varname s (empty_parse None);
      mret (set_p_value (Some (VStr s)) p)
  | _ => mret (empty_parse v)
  end.

Definition expand (s : string) : data string :=
  p ← expandWithRefs (Some (VStr s)) None; lift (as_str (p_value p)).

(** ** Overrides *)

Definition read_overrides : data (list string) :=
  '(v, _) ← getVarFlag (call_var "OVERRIDES" true); lift (override_list v).

Definition assume_overrides (l : list string) : data unit :=
  modify (set_self (λ d, set_overridesset (list_to_set l) (set_overrides (Some l) d))).

(** [for count in range(5): ... else: fatal] *)
Fixpoint stabilise (count : nat) : data unit :=
  match count with
  | O => raise Fatal
  | S count =>
      _ ← modify (set_self (λ d, set_overridesset ∅ (set_overrides (Some []) (set_inoverride true d))));
      l ← read_overrides;
      _ ← assume_overrides l;
      _ ← modify (set_self (λ d, set_expand_cache [] (set_inoverride false d)));
      newoverrides ← read_overrides;
      if bool_decide (newoverrides = l) then mret tt
      else _ ← assume_overrides newoverrides; stabilise count
  end.

Definition need_overrides : data unit :=
  w ← get;
  if bool_decide (is_Some (overrides (w_self w))) || inoverride (w_self w) then mret tt
  else stabilise 5.

(** The variants of a variable that are active, by their overrides. *)
Definition is_active (set : gset string) (o : string) : bool :=
  bool_decide (o ∈ set) || (char_in "_" o && bool_decide (list_to_set (split_on "_" o) ⊆ set)).

Definition active_variants (set : gset string) (variants : list (string * string)) : dict string :=
  foldl (λ active ro, if is_active set ro.2 then dset active ro.2 ro.1 else active) [] variants.

(** One override of the inner loop: the variants for it, and those whose
    overrides end in it. *)
Definition take_override (o : string) (st : dict string * option string * bool) (a : string) :
    dict string * option string * bool :=
  let '(active, best, again) := st in
  if endswith a ("_" +s+ o) then
    match dget active a with
    | Some t => (dset (ddel active a) (replace a ("_" +s+ o) "") t, best, true)
    | None => st
    end
  else if bool_decide (a = o) then
    match dget active a with Some t => (ddel active a, Some t, again) | None => st end
  else st.

Definition take_round (ovs : list string) (st : dict string * option string) : dict string * option string * bool :=
  foldl (λ st o, foldl (take_override o) st (dkeys st.1.1)) (st, false) ovs.

Fixpoint choose_variant (n : nat) (ovs : list string) (st : dict string * option string) : res (option string) :=
  match n with
  | O => Raise OutOfFuel
  | S n =>
      let '(active, best, again) := take_round ovs st in
      if again then choose_variant n ovs (active, best) else Ok best
  end.

(** Enough rounds: each that goes on shortens a name. *)
Definition variant_fuel (active : dict string) : nat :=
  S (sum_list_with String.length (dkeys active)).

(** ** [getVarFlag] *)

(** The value of the active variant, and the removes it carries. *)
Definition variant_value (c : flag_call) (odata : option (list (string * string))) :
    data (option value * gset string) :=
  match odata with
  | Some variants =>
      if bool_decide (fc_flag c = "_content") && negb (fc_parsing c) then
        _ ← need_overrides;
        w ← get;
        let active := active_variants (overridesset (w_self w)) variants in
        ovs ← lift (of_option TypeError (overrides (w_self w)));
        best ← lift (choose_variant (variant_fuel active) ovs (active, None));
        match best with
        | Some v =>
            if str_empty v then mret (None, ∅)
            else
              '(value, sub) ← getVarFlag (FlagCall v "_content" false false false true);
              mret (value, default ∅ (sub ≫= p_removes))
        | None => mret (None, ∅)
        end
      else mret (None, ∅)
  | None => mret (None, ∅)
  end.

(** The stored value, or the weak default. *)
Definition stored_value (w : world) (c : flag_call) (local : option (dict value)) : option value :=
  match local with
  | None => None
  | Some flags =>
      match dget flags (fc_flag c) with
      | Some v => some_value (copy_value w v)
      | None =>
          if bool_decide (fc_flag c = "_content") && negb (fc_noweakdefault c)
          then dget flags "_defaultval" ≫= λ v, some_value (copy_value w v) else None
      end
  end.

(** Whether an operation for the overrides [o] applies. *)
Definition op_matches (ovs : list string) (o : option string) : bool :=
  match o with
  | None | Some "" => true
  | Some o => forallb (λ o2, bool_decide (o2 ∈ ovs)) (split_on "_" o)
  end.

(** The values to append, prepend or remove that apply. *)
Definition matching_ops (ovs : list string) (l : list (string * option string)) : list string :=
  List.map fst (List.filter (λ ro, op_matches ovs ro.2) l).

(** Without a list of overrides there is nothing to look in. *)
Definition ops_that_match (ovs : option (list string)) (l : list (string * option string)) : res (list string) :=
  match ovs with
  | Some ovs => Ok (matching_ops ovs l)
  | None => if forallb (λ ro, op_matches [] ro.2) l then Ok (matching_ops [] l) else Raise TypeError
  end.

(** [local_var[keyword]] when it is a list that counts. *)
Definition ops_of (c : flag_call) (local : option (dict value)) (keyword : string) : option value :=
  if bool_decide (fc_flag c = "_content") && negb (fc_parsing c)
  then flags ← local; dget flags keyword else None.

(** The operations of one keyword, with the overrides computed. *)
Definition active_ops (c : flag_call) (local : option (dict value)) (keyword : string) : data (option (list string)) :=
  match ops_of c local keyword with
  | None => mret None
  | Some (VOps l) =>
      _ ← need_overrides;
      w ← get;
      ops ← lift (ops_that_match (overrides (w_self w)) l);
      mret (Some ops)
  | Some (VList l) => _ ← need_overrides; if bool_decide (l = []) then mret (Some []) else raise ValueError
  | Some (VStr s) => _ ← need_overrides; if str_empty s then mret (Some []) else raise ValueError
  | Some _ => raise TypeError
  end.

(** [if not value: value = ""], then [value + r] or [r + value] each. *)
Definition joined (join : string → string → string) (v : option value) (ops : option (list string)) : res (option value) :=
  match ops with
  | None => Ok v
  | Some l =>
      s ← (if truthy v then as_str v else Ok "");
      Ok (Some (VStr (foldl join s l)))
  end.

(** The text without the words of [removes], and which of them removed any. *)
Definition drop_removed (expanded : list (string * list string)) (words : list string) : string * gset string :=
  foldl (λ '(val, used) v,
    let hit := List.filter (λ r, bool_decide (v ∈ r.2)) expanded in
    match hit with
    | [] => (val +s+ v, used)
    | _ => (val, list_to_set (List.map fst hit) ∪ used)
    end) ("", ∅) words.

Fixpoint expand_removes (l : list string) : data (list (string * list string)) :=
  match l with
  | [] => mret []
  | r :: l => s ← expand r; rest ← expand_removes l; mret ((r, split_ws s) :: rest)
  end.

(** The end: removed words are dropped from the expanded text. *)
Definition apply_removes (c : flag_call) (local : option (dict value)) (removes : gset string)
    (v : option value) (parser : option parse) : data flag_result :=
  removes ← (if truthy v then
               ops ← active_ops c local "_remove";
               mret (removes ∪ list_to_set (default [] ops))
             else mret removes);
  match parser with
  | Some p =>
      if truthy v && bool_decide (fc_flag c = "_content") && negb (fc_parsing c) && negb (bool_decide (removes = ∅)) then
        expanded ← expand_removes (set_iter removes);
        s ← lift (as_str (p_value p));
        let '(val, used) := drop_removed expanded (split_keep s) in
        let p := Parse (Some (VStr val)) (p_references p) (p_execs p) (p_contains p) (Some used) in
        mret (if fc_expand c then p_value p else v, Some p)
      else mret (v, Some p)
  | None => mret (v, None)
  end.

Definition getVarFlag_body (c : flag_call) : data flag_result :=
  let name := cachename (fc_var c) (fc_flag c) in
  w ← get;
  match (if fc_expand c then dget (expand_cache (w_self w)) name else None) with
  | Some p => mret (p_value p, None)
  | None =>
      let local := _findVar w (fc_var c) in
      '(v, removes) ← variant_value c (dget (overridedata (w_self w)) (fc_var c));
      w ← get;
      let v := match v with Some _ => v | None => stored_value w c local end in
      ops ← active_ops c local "_append";
      v ← lift (joined (λ s r, s +s+ r) v ops);
      ops ← active_ops c local "_prepend";
      v ← lift (joined (λ s r, r +s+ s) v ops);
      parser ← (if fc_expand c || fc_retparser c then p ← expandWithRefs v (Some name); mret (Some p) else mret None);
      let v := match parser with Some p => if fc_expand c then p_value p else v | None => v end in
      '(v, parser) ← apply_removes c local removes v parser;
      _ ← (match parser with
           | Some p => modify (set_self (λ d, set_expand_cache (dset (expand_cache d) name p) d))
           | None => mret tt
           end);
      mret (v, if fc_retparser c then parser else None)
  end.
End calls.

(** [getVarFlag] with at most [n] calls inside one another, more of which are
    a RecursionError.  An empty flag name is answered with [None]. *)
Fixpoint getVarFlag (n : nat) (c : flag_call) : data flag_result :=
  match n with
  | O => raise RecursionError
  | S n => if str_empty (fc_flag c) then mret (None, None) else getVarFlag_body (getVarFlag n) c
  end.

(** ** Writing *)

(** How deep reads may go. *)
Context (depth : nat).

Definition get_flag (c : flag_call) : data flag_result := getVarFlag depth c.
Definition getVar (var : string) (expand : bool) : data (option value) :=
  r ← get_flag (call_var var expand); mret r.1.
Definition read_flag (var flag : string) (expand : bool) : data (option value) :=
  r ← get_flag (FlagCall var flag expand false false false); mret r.1.

(** [(var[:var.rfind('_')], var[var.rfind('_')+1:])]; without an underscore the
    slices are all but the last character, and all. *)
Definition split_last (var : string) : string * string :=
  match rsplit1 "_" var with Some so => so | None => (str_drop_last 1 var, var) end.

(** The shorter base names with the overrides that then follow, until the base
    name is empty. *)
Fixpoint more_splits (n : nat) (var short : string) : list (string * string) :=
  match n with
  | O => []
  | S n =>
      match rsplit1 "_" short with
      | None | Some ("", _) => []
      | Some (short', _) => (short', str_drop (S (String.length short')) var) :: more_splits n var short'
      end
  end.

Fixpoint take_while {A} (p : A → bool) (l : list A) : list A :=
  match l with [] => [] | x :: l => if p x then x :: take_while p l else [] end.

(** The pairs of base name and overrides that the loops of
    [_setvar_update_overrides] and [delVar] go through. *)
Definition followed (test : string → bool) (var : string) : list (string * string) :=
  let so := split_last var in
  take_while (λ so, negb (str_empty so.2) && test so.2) (so :: more_splits (String.length var) var so.1).

(** [__override_regexp__.match(override)]: its first character. *)
Definition override_start (o : string) : bool :=
  match o with String c _ => is_lower c || is_digit c | "" => false end.

Definition _setvar_update_overrides (var : string) : data unit :=
  for_each (followed override_start var) (λ '(short, o),
    modify (set_self (λ d,
      let l := default [] (dget (overridedata d) short) in
      set_overridedata (dset (overridedata d) short (if bool_decide ((var, o) ∈ l) then l else l ++ [(var, o)])) d))).

Definition refs_of (p : parse) : gset string := p_references p ∪ dom (p_contains p).

(** [while not new.issubset(self.overridevars): ...] *)
Fixpoint follow_overridevars (n : nat) (new : gset string) : data unit :=
  match n with
  | O => raise OutOfFuel
  | S n =>
      w ← get;
      if bool_decide (new ⊆ overridevars (w_self w)) then mret tt
      else
        _ ← modify (set_self (λ d, set_overridevars (overridevars d ∪ new) d));
        nextnew ← (λ l, (fix go (l : list string) : data (gset string) :=
            match l with
            | [] => mret ∅
            | i :: l =>
                v ← getVar i true;
                p ← expandWithRefs (getVarFlag depth) v (Some i);
                rest ← go l;
                mret (refs_of p ∪ rest)
            end) l) (set_iter new);
        follow_overridevars n nextnew
  end.

Definition _setvar_update_overridevars (var : string) (v : option value) : data unit :=
  p ← expandWithRefs (getVarFlag depth) v (Some var);
  _ ← follow_overridevars loop_fuel (refs_of p);
  modify (set_self (set_overrides None)).

(** [str.islower()] *)
Definition islower (s : string) : bool := str_all (λ c, negb (is_upper c)) s && negb (str_all (λ c, negb (is_lower c)) s).

(** [l.remove(x)], ignoring that [x] is not there. *)
Fixpoint remove_variant (x : string * string) (l : list (string * string)) : list (string * string) :=
  match l with
  | [] => []
  | y :: l => if bool_decide (y = x) then l else y :: remove_variant x l
  end.

(** [delVar] *)
Definition delVar (var : string) : data unit :=
  _ ← clear_cache;
  _ ← modify (set_own (λ d, dset d var []));
  _ ← modify (set_self (λ d, set_overridedata (if dmem (overridedata d) var then ddel (overridedata d) var else overridedata d) d));
  if char_in "_" var then
    for_each (followed islower var) (λ '(short, o),
      modify (set_self (λ d,
        match dget (overridedata d) short with
        | Some l => set_overridedata (dset (overridedata d) short (remove_variant (var, o) l)) d
        | None => d
        end)))
  else mret tt.

(** [setVarFlag] *)
Definition setVarFlag (var flag : string) (v : value) : data unit :=
  _ ← clear_cache;
  _ ← _makeShadowCopy var;
  _ ← write_flag var flag v;
  _ ← (if bool_decide (flag = "_defaultval") && char_in "_" var then _setvar_update_overrides var else mret tt);
  w ← get;
  _ ← (if bool_decide (flag = "_defaultval") && bool_decide (var ∈ overridevars (w_self w))
       then _setvar_update_overridevars var (Some v) else mret tt);
  if bool_decide (flag = "unexport") || bool_decide (flag = "export") then
    _ ← _makeShadowCopy "__exportlist";
    w ← get;
    flags ← lift (of_option KeyError (own_var w "__exportlist"));
    match dget flags "_content" with
    | Some (VRef l) =>
        (* the set is changed in place, in whatever dictionaries it is *)
        modify (λ w, World (w_layers w) (<[l := {[var]} ∪ default ∅ (w_sets w !! l)]> (w_sets w)) (w_self w))
    | Some _ => raise AttributeError
    | None =>
        let l := fresh (dom (w_sets w)) in
        _ ← modify (λ w, World (w_layers w) (<[l := {[var]}]> (w_sets w)) (w_self w));
        write_flag "__exportlist" "_content" (VRef l)
    end
  else mret tt.

(** The variants of a variable that a plain assignment makes void. *)
Definition void_variants (w : world) (var : string) : list string :=
  List.map fst (List.filter (λ ro, is_active (overridesset (w_self w)) ro.2)
    (default [] (dget (overridedata (w_self w)) var))).

(** What a plain assignment forgets: the operations and the variants. *)
Definition forget_var (var : string) : data unit :=
  _ ← remove_flag var "_append";
  _ ← remove_flag var "_prepend";
  _ ← remove_flag var "_remove";
  w ← get;
  if dmem (overridedata (w_self w)) var then
    _ ← need_overrides (getVarFlag depth);
    w ← get;
    _ ← for_each (void_variants w var) delVar;
    w ← get;
    if dmem (overridedata (w_self w)) var
    then modify (set_self (λ d, set_overridedata (ddel (overridedata d) var) d))
    else raise KeyError
  else mret tt.

(** The lists of operations a value stands for. *)
Definition as_ops (v : option value) : res (list (string * option string)) :=
  if truthy v then match v with Some (VOps l) => Ok l | _ => Raise AttributeError end else Ok [].

(** What [setVar] does with a name that is no operation. *)
Definition assign (var : string) (v : value) (parsing : bool) : data unit :=
  _ ← _makeShadowCopy var;
  _ ← (if parsing then mret tt else forget_var var);
  _ ← (if char_in "_" var then _setvar_update_overrides var else mret tt);
  _ ← write_flag var "_content" v;
  w ← get;
  if bool_decide (var ∈ overridevars (w_self w)) then _setvar_update_overridevars var (some_value v) else mret tt.

(** [setVar] of a string; [parsing] is the flag of that name. *)
Definition setVar (var value : string) (parsing : bool) : data unit :=
  _ ← clear_cache;
  match setvar_match var with
  | Some (base, keyword, override) =>
      v ← read_flag base keyword false;
      l ← lift (as_ops v);
      _ ← setVarFlag base keyword (VOps (l ++ [(value, override)]));
      _ ← _setvar_update_overrides base;
      w ← get;
      if bool_decide (base ∈ overridevars (w_self w)) then _setvar_update_overridevars var (Some (VStr value)) else mret tt
  | None => assign var (VStr value) parsing
  end.

(** [setVar] of any value.  An operation takes a string: with another value
    every later read of the variable raises, here the assignment does. *)
Definition setVal (var : string) (v : value) (parsing : bool) : data unit :=
  match v with
  | VStr s => setVar var s parsing
  | _ =>
      _ ← clear_cache;
      match setvar_match var with Some _ => raise TypeError | None => assign var v parsing end
  end.

Definition appendVar (var value : string) : data unit := setVar (var +s+ "_append") value true.
Definition prependVar (var value : string) : data unit := setVar (var +s+ "_prepend") value true.

(** [delVarFlag] *)
Definition delVarFlag (var flag : string) : data unit :=
  _ ← clear_cache;
  w ← get;
  if found (_findVar w var) then
    _ ← _makeShadowCopy var;
    remove_flag var flag
  else mret tt.

Definition appendVarFlag (var flag value : string) : data unit :=
  v ← read_flag var flag false;
  s ← lift (if truthy v then as_str v else Ok "");
  setVarFlag var flag (VStr (s +s+ value)).

Definition prependVarFlag (var flag value : string) : data unit :=
  v ← read_flag var flag false;
  s ← lift (if truthy v then as_str v else Ok "");
  setVarFlag var flag (VStr (value +s+ s)).

Definition setVarFlags (var : string) (flags : dict value) : data unit :=
  _ ← clear_cache;
  _ ← _makeShadowCopy var;
  for_each flags (λ '(flag, v), if bool_decide (flag = "_content") then mret tt else write_flag var flag v).

(** [delVarFlags]: all flags but the value; a variable without value goes from
    the store's own dictionary. *)
Definition delVarFlags (var : string) : data unit :=
  _ ← clear_cache;
  _ ← _makeShadowCopy var;
  w ← get;
  match own_var w var with
  | None => mret tt
  | Some flags =>
      match dget flags "_content" with
      | Some v => modify (set_own (λ d, dset d var [("_content", v)]))
      | None => modify (set_own (λ d, ddel d var))
      end
  end.

(** [getVarFlags]: the flags, with some expanded; none is [None]. *)
Definition getVarFlags (var : string) (expanded : list string) (internalflags : bool) : data (option (dict value)) :=
  w ← get;
  flags ← (fix go (l : dict value) : data (dict value) :=
      match l with
      | [] => mret []
      | (i, v) :: l =>
          if startswith i "_" && negb internalflags then go l
          else
            v ← (if bool_decide (i ∈ expanded)
                 then p ← expandWithRefs (getVarFlag depth) (Some v) (Some (var +s+ "[" +s+ i +s+ "]"));
                      lift (of_option TypeError (p_value p))
                 else mret v);
            rest ← go l;
            mret ((i, v) :: rest)
      end) (default [] (_findVar w var));
  mret (match flags with [] => None | _ => Some flags end).

(** [renameVar], for the variants too; as deep as reads may go. *)
Fixpoint renameVar (n : nat) (key newkey : string) : data unit :=
  match n with
  | O => raise RecursionError
  | S n =>
      if bool_decide (key = newkey) then mret tt
      else
        r ← get_flag (FlagCall key "_content" false false true false);
        _ ← (match r.1 with
             | None => mret tt
             | Some v => s ← lift (as_str (Some v)); setVar newkey s true
             end);
        _ ← for_each ["_append"; "_prepend"; "_remove"] (λ i,
              src ← read_flag key i false;
              match src with
              | None => mret tt
              | Some _ =>
                  src ← lift (as_ops src);
                  v ← read_flag newkey i false;
                  dest ← lift (as_ops v);
                  setVarFlag newkey i (VOps (dest ++ src))
              end);
        w ← get;
        _ ← (match dget (overridedata (w_self w)) key with
             | None => mret tt
             | Some variants =>
                 _ ← modify (set_self (λ d, set_overridedata (dset (overridedata d) newkey []) d));
                 for_each variants (λ '(v, o),
                   w ← get;
                   l ← lift (of_option KeyError (dget (overridedata (w_self w)) newkey));
                   _ ← modify (set_self (λ d,
                         set_overridedata (dset (overridedata d) newkey (l ++ [(replace v key newkey, o)])) d));
                   renameVar n v (replace v key newkey))
             end);
        _ ← (if char_in "_" newkey && bool_decide (r.1 = None) then _setvar_update_overrides newkey else mret tt);
        delVar key
  end.

(** [__getitem__] *)
Definition getitem (item : string) : data value :=
  v ← getVar item false;
  lift (of_option KeyError v).

(** [__iter__]: the names that have flags in the nearest dictionary that has
    them, and those with an active variant. *)
Fixpoint keylist (w : world) (n l : nat) (ov deleted : gset string) : gset string :=
  match n with
  | O => ∅
  | S n =>
      let d := List.filter (λ kv, bool_decide (kv.1 ∉ ov ∪ deleted)) (l_vars (layer_at w l)) in
      let gone := List.filter (λ kv : string * dict value, bool_decide (kv.2 = [])) d in
      let there := List.filter (λ kv : string * dict value, negb (bool_decide (kv.2 = []))) d in
      list_to_set (dkeys there) ∪
      match l_data (layer_at w l) with
      | Some l' => keylist w n l' ov (deleted ∪ list_to_set (dkeys gone))
      | None => ∅
      end
  end.

Definition data_keys : data (gset string) :=
  _ ← need_overrides (getVarFlag depth);
  w ← get;
  let d := w_self w in
  let ov : gset string := list_to_set (dkeys (List.filter (λ kv : string * list (string * string),
    existsb (λ ro, is_active (overridesset d) ro.2) kv.2) (overridedata d))) in
  mret (keylist w (S (d_dict d)) (d_dict d) ov ∅ ∪ ov).
End reading.

(** The same heap, seen by another store. *)
Definition with_self (d : DataSmart) (w : world) : world := World (w_layers w) (w_sets w) d.

(** [createCopy]: the new store, and the heap with its dictionary. *)
Definition createCopy (w : world) : world * DataSmart :=
  let l := S (foldr Nat.max 0 (elements (dom (w_layers w)))) in
  let d := w_self w in
  (World (<[l := Layer [] (Some (d_dict d))]> (w_layers w)) (w_sets w) d,
   MkDataSmart l [] (overridedata d) None ∅ (overridevars d) false).

(** [e = self.createCopy()] and a call on [e], which is then dropped. *)
Definition in_copy {A} (m : data A) : data A := λ w,
  let '(w', copy) := createCopy w in
  let '(w', r) := m (with_self copy w') in
  (with_self (w_self w) w', r).

(** [DataSmart()] *)
Definition new_world : world :=
  World {[0 := empty_layer]} ∅ (MkDataSmart 0 [] [] None ∅ {["OVERRIDES"; "FILE"]} false).
