(* ===== verification/DataStoreOk.v ===== *)
(** * Correctness of the data store (bb/data_smart.py)

    What a read returns after plain assignments and [_append], [_prepend] and
    [_remove], and which variant of a variable is taken. *)

From Stdlib Require Import Ascii String.
From S2P Require Import Prelude.
From S2P Require Import PyStr.
From S2P Require Import PyDict.
From S2P Require Import Runs.
From S2P Require Import DataStore.

(** ** Words *)

(** Words with single blanks between them. *)
Inductive alternating : list string → list string → Prop :=
  | alt_word w : no_char is_space w = true → alternating [w] [w]
  | alt_cons w c l ws : no_char is_space w = true → is_space c = true → alternating l ws →
      alternating (w :: str1 c :: l) (w :: ws).

Definition str_concat (l : list string) : string := foldr (λ a b, a +s+ b) "" l.

Lemma split_keep_alternating s : alternating (split_keep s) (split_pred is_space s).
Proof.
  induction s as [|c s IH]; cbn [split_keep split_pred]; [by apply alt_word|].
  destruct (is_space c) eqn:Ec; [by apply alt_cons|].
  destruct IH as [w Hw|w c' l ws Hw Hc IH].
  - apply alt_word. cbn. by rewrite Ec.
  - apply alt_cons; [|done..]. cbn. by rewrite Ec.
Qed.

Lemma split_alternating l ws : alternating l ws → split_pred is_space (str_concat l) = ws.
Proof.
  induction 1 as [w Hw|w c l ws Hw Hc _ IH]; cbn [str_concat foldr].
  - rewrite app_empty_r. by apply split_pred_word.
  - change (split_pred is_space (w +s+ String c (str_concat l)) = w :: ws). by rewrite split_pred_cons, IH.
Qed.

(** Emptying some of the words. *)
Definition emptied (p : string → bool) (w : string) : string := if p w then "" else w.

Lemma alternating_emptied p l ws :
  (∀ c, is_space c = true → p (str1 c) = false) → alternating l ws →
  alternating (List.map (emptied p) l) (List.map (emptied p) ws).
Proof.
  intros Hp. induction 1 as [w Hw|w c l ws Hw Hc _ IH]; cbn [List.map].
  - apply alt_word. unfold emptied. by destruct (p w).
  - replace (emptied p (str1 c)) with (str1 c) by (unfold emptied; by rewrite Hp).
    apply alt_cons; [|done..]. unfold emptied. by destruct (p w).
Qed.

Section removed.
Context (expanded : list (string * list string)).
Hypothesis Hwords : ∀ r, r ∈ expanded → Forall is_word r.2.

Definition hit (w : string) : bool := existsb (λ r, bool_decide (w ∈ r.2)) expanded.

Lemma hit_filter w :
  hit w = match List.filter (λ r : string * list string, bool_decide (w ∈ r.2)) expanded with [] => false | _ => true end.
Proof.
  unfold hit. clear Hwords. induction expanded as [|r l IH]; [done|]. cbn [existsb List.filter].
  by destruct (bool_decide (w ∈ r.2)).
Qed.

Lemma drop_removed_fold l val used :
  (foldl (λ '(val, used) v,
    let hit := List.filter (λ r : string * list string, bool_decide (v ∈ r.2)) expanded in
    match hit with
    | [] => (val +s+ v, used)
    | _ => (val, list_to_set (List.map fst hit) ∪ used)
    end) (val, used : gset string) l).1 = val +s+ str_concat (List.map (emptied hit) l).
Proof.
  revert val used. induction l as [|v l IH]; intros val used; cbn [foldl List.map str_concat foldr]; [by rewrite app_empty_r|].
  unfold emptied at 1. rewrite hit_filter. destruct (List.filter _ expanded) as [|r rs] eqn:E; rewrite IH.
  - by rewrite app_str_assoc.
  - done.
Qed.

Lemma space_no_hit c : is_space c = true → hit (str1 c) = false.
Proof.
  intros Hc. apply not_true_iff_false. unfold hit. intros (r & Hr & Hin%bool_decide_eq_true_1)%existsb_exists.
  apply list_elem_of_In in Hr. pose proof (Hwords r Hr) as Hw. rewrite Forall_forall in Hw.
  destruct (Hw _ Hin) as [_ Hs]. cbn in Hs. by rewrite Hc in Hs.
Qed.

(** The words of the text that is left. *)
Lemma drop_removed_words s :
  split_ws (drop_removed expanded (split_keep s)).1 = List.filter (λ w, negb (hit w)) (split_ws s).
Proof.
  unfold drop_removed. rewrite drop_removed_fold. change ("" +s+ ?x) with x.
  unfold split_ws. rewrite (split_alternating _ (List.map (emptied hit) (split_pred is_space s))).
  2: { apply alternating_emptied; [apply space_no_hit|apply split_keep_alternating]. }
  assert (hit "" = false) as He.
  { apply not_true_iff_false. unfold hit. intros (r & Hr & Hin%bool_decide_eq_true_1)%existsb_exists.
    apply list_elem_of_In in Hr. pose proof (Hwords r Hr) as Hw. rewrite Forall_forall in Hw.
    by destruct (Hw _ Hin) as [? _]. }
  induction (split_pred is_space s) as [|w l IH]; [done|]. cbn [List.map List.filter]. unfold emptied at 1.
  destruct w as [|a w]; [rewrite He; exact IH|]. destruct (hit (String a w)) eqn:Eh; cbn [str_empty negb List.filter];
    rewrite ?Eh; cbn [negb]; [exact IH|].
  rewrite IH. f_equal. unfold emptied. by rewrite Eh.
Qed.
End removed.

(** ** Variants *)

Fixpoint contains_str (old s : string) : bool :=
  String.prefix old s || match s with "" => false | String _ s' => contains_str old s' end.

Lemma replace_go_le old skip s : String.length (replace_go old "" skip s) ≤ String.length s.
Proof.
  revert skip. induction s as [|a s IH]; intros skip; cbn [replace_go String.length]; [done|].
  destruct skip; [|etrans; [apply IH|lia]]. destruct (String.prefix old _); cbn [String.length].
  - change ("" +s+ ?x) with x. etrans; [apply IH|lia].
  - pose proof (IH 0). lia.
Qed.

Lemma replace_shorter old s :
  old ≠ "" → contains_str old s = true → String.length (replace s old "") < String.length s.
Proof.
  intros Ho. unfold replace. induction s as [|a s IH]; cbn [contains_str replace_go String.length].
  - rewrite orb_false_r. by destruct old.
  - destruct (String.prefix old (String a s)) eqn:E; cbn [orb String.length].
    + intros _. change ("" +s+ ?x) with x. pose proof (replace_go_le old (String.length old - 1) s). lia.
    + intros H%IH. lia.
Qed.

Lemma endswith_contains s suf : endswith s suf = true → contains_str suf s = true.
Proof.
  intros [p ->]%endswith_spec. induction p as [|a p IH]; cbn [contains_str].
  - change ("" +s+ suf) with suf. assert (String.prefix suf suf = true) as E.
    { apply (startswith_spec suf suf). exists "". by rewrite app_empty_r. }
    destruct suf; cbn [contains_str]; by rewrite E.
  - change (String a p +s+ suf) with (String a (p +s+ suf)). cbn [contains_str]. rewrite IH. by rewrite orb_true_r.
Qed.

(** The length of all names. *)
Definition names_length (d : dict string) : nat := sum_list_with String.length (dkeys d).

Lemma sum_length_app (l1 l2 : list string) :
  sum_list_with String.length (l1 ++ l2) = sum_list_with String.length l1 + sum_list_with String.length l2.
Proof. induction l1; simpl; lia. Qed.

Lemma names_dset d k v : names_length (dset d k v) ≤ names_length d + String.length k.
Proof.
  unfold names_length. rewrite dkeys_dset. destruct (dmem d k); [lia|]. rewrite sum_length_app. simpl. lia.
Qed.

Lemma names_ddel d k v : dget d k = Some v → names_length (ddel d k) + String.length k = names_length d.
Proof.
  unfold names_length. induction d as [|[k' v'] d IH]; cbn [dget ddel]; [done|].
  case_decide as Hk; [subst; unfold dkeys; cbn; lia|]. intros E. specialize (IH E). unfold dkeys in *. cbn in *. lia.
Qed.

(** One step: what is not finished gets shorter. *)
Lemma take_override_shorter o st a :
  let st' := take_override o st a in
  names_length st'.1.1 ≤ names_length st.1.1 ∧ (st'.2 = true → st.2 = false → names_length st'.1.1 < names_length st.1.1).
Proof.
  destruct st as [[active best] again]. cbn [take_override]. destruct (endswith a _) eqn:E.
  - destruct (dget active a) as [t|] eqn:Ea; cbn [fst snd]; [|split; [done|congruence]].
    pose proof (names_ddel _ _ _ Ea) as H1. pose proof (names_dset (ddel active a) (replace a ("_" +s+ o) "") t) as H2.
    assert (String.length (replace a ("_" +s+ o) "") < String.length a) as H3.
    { apply replace_shorter; [done|by apply endswith_contains]. }
    lia.
  - case_bool_decide; cbn [fst snd]; [|split; [done|congruence]].
    destruct (dget active a) as [t|] eqn:Ea; cbn [fst snd]; [|split; [done|congruence]].
    pose proof (names_ddel _ _ _ Ea). split; [lia|congruence].
Qed.

Definition shorter (st st' : dict string * option string * bool) : Prop :=
  names_length st'.1.1 ≤ names_length st.1.1 ∧ (st'.2 = true → st.2 = false → names_length st'.1.1 < names_length st.1.1).

Lemma shorter_trans a b c : shorter a b → shorter b c → shorter a c.
Proof. intros [? H1] [? H2]. split; [lia|]. intros Hc Ha. destruct (b.2) eqn:Eb; [specialize (H1 eq_refl Ha)|specialize (H2 Hc eq_refl)]; lia. Qed.

Lemma foldl_shorter {B} (f : dict string * option string * bool → B → dict string * option string * bool) l st :
  (∀ st x, shorter st (f st x)) → shorter st (foldl f st l).
Proof.
  intros Hf. revert st. induction l as [|x l IH]; intros st; cbn [foldl]; [split; [done|congruence]|].
  eapply shorter_trans; [apply Hf|apply IH].
Qed.

(** The choice of a variant always ends. *)
Lemma choose_variant_ends n ovs active best :
  names_length active < n → ∃ r, choose_variant n ovs (active, best) = Ok r.
Proof.
  revert active best. induction n as [|n IH]; intros active best Hn; [lia|]. cbn [choose_variant].
  assert (shorter ((active, best), false) (take_round ovs (active, best))) as [Hle Hlt].
  { apply foldl_shorter. intros st o. apply foldl_shorter. intros st' a. apply take_override_shorter. }
  destruct (take_round ovs (active, best)) as [[active' best'] again]. destruct again; [|eauto].
  apply IH. specialize (Hlt eq_refl eq_refl). cbn [fst] in Hlt. lia.
Qed.

(** Names without an underscore are only compared. *)
Lemma take_override_simple o st a :
  char_in "_" a = false →
  take_override o st a =
    if bool_decide (a = o)
    then match dget st.1.1 a with Some t => (ddel st.1.1 a, Some t, st.2) | None => st end else st.
Proof.
  intros Ha. destruct st as [[active best] again]. cbn [take_override fst snd].
  destruct (endswith a ("_" +s+ o)) eqn:E; [|done]. exfalso. apply endswith_spec in E as [p ->].
  rewrite char_in_app in Ha. apply orb_false_iff in Ha as [_ Ha]. done.
Qed.

Lemma take_override_fold o active best again l :
  dict_wf active → (∀ a, a ∈ l → char_in "_" a = false) →
  foldl (take_override o) (active, best, again) l =
    if bool_decide (o ∈ l) then match dget active o with
      | Some t => (ddel active o, Some t, again) | None => (active, best, again) end
    else (active, best, again).
Proof.
  revert active best. induction l as [|a l IH]; intros active best Hwf Hl; cbn [foldl].
  { by rewrite bool_decide_eq_false_2 by apply not_elem_of_nil. }
  rewrite take_override_simple by apply Hl, list_elem_of_here. cbn [fst snd].
  assert (∀ a, a ∈ l → char_in "_" a = false) as Hl' by (intros; apply Hl; by apply list_elem_of_further).
  destruct (decide (a = o)) as [->|Hao];
    [rewrite (bool_decide_eq_true_2 (o = o)) by done|rewrite (bool_decide_eq_false_2 (a = o)) by done].
  - rewrite (bool_decide_eq_true_2 (o ∈ o :: l)) by apply list_elem_of_here.
    destruct (dget active o) as [t|] eqn:E.
    + rewrite IH by (try apply ddel_wf; done). rewrite dget_ddel_eq by done. by case_bool_decide.
    + rewrite IH by done. rewrite E. by case_bool_decide.
  - rewrite IH by done. rewrite (bool_decide_ext (o ∈ a :: l) (o ∈ l)); [done|].
    rewrite elem_of_cons. naive_solver.
Qed.

(** The last override that has a variant. *)
Definition rightmost (active : dict string) (ovs : list string) (best : option string) : option string :=
  foldl (λ best o, match dget active o with Some t => Some t | None => best end) best ovs.

Lemma take_round_simple ovs active best again :
  NoDup ovs → dict_wf active → (∀ a, a ∈ dkeys active → char_in "_" a = false) →
  ∃ active', foldl (λ st o, foldl (take_override o) st (dkeys st.1.1)) ((active, best), again) ovs =
    (active', rightmost active ovs best, again).
Proof.
  intros Hnd. revert active best. induction Hnd as [|o ovs Ho _ IH]; intros active best Hwf Hs; cbn [foldl]; [by eexists|].
  cbn [fst]. rewrite take_override_fold by done. unfold rightmost. cbn [foldl].
  case_bool_decide as Hk.
  - apply elem_of_dkeys in Hk as [t Ht]. rewrite Ht.
    destruct (IH (ddel active o) (Some t)) as (active' & ->).
    { by apply ddel_wf. }
    { intros a Ha. apply Hs. by apply (sublist_subseteq _ _ (dkeys_ddel_sublist active o)). }
    exists active'. f_equal. f_equal. unfold rightmost. clear -Ho.
    assert (∀ l best, (∀ x, x ∈ l → x ≠ o) →
      foldl (λ best o0, match dget (ddel active o) o0 with Some t => Some t | None => best end) best l =
      foldl (λ best o0, match dget active o0 with Some t => Some t | None => best end) best l) as H.
    { induction l as [|x l IH]; intros b Hl; cbn [foldl]; [done|]. rewrite dget_ddel_ne.
      - apply IH. intros. apply Hl. by apply list_elem_of_further.
      - intros ->. by apply (Hl x (list_elem_of_here _ _)). }
    apply H. intros x Hx ->. done.
  - apply dget_None in Hk. rewrite Hk. apply IH; done.
Qed.

Lemma rightmost_spec active ovs best :
  match rightmost active ovs best with
  | Some v => (∃ l1 o l2, ovs = l1 ++ o :: l2 ∧ dget active o = Some v ∧ ∀ o', o' ∈ l2 → dget active o' = None) ∨
      (best = Some v ∧ ∀ o, o ∈ ovs → dget active o = None)
  | None => best = None ∧ ∀ o, o ∈ ovs → dget active o = None
  end.
Proof.
  induction ovs as [|o ovs IH] using rev_ind; unfold rightmost in *; cbn [foldl].
  { destruct best; [right|]; (split; [done|]); by intros o ?%elem_of_nil. }
  rewrite foldl_app. cbn [foldl]. destruct (dget active o) as [t|] eqn:Et.
  { left. exists ovs, o, []. split; [done|]. split; [done|]. by intros ? ?%elem_of_nil. }
  destruct (foldl _ best ovs) as [v|].
  - destruct IH as [(l1 & o1 & l2 & -> & Hv & Hl)|[Hb Hl]].
    + left. exists l1, o1, (l2 ++ [o]). split; [by rewrite <-app_assoc|]. split; [done|].
      intros o' [?|Ho']%elem_of_app; [by apply Hl|]. by apply list_elem_of_singleton in Ho' as ->.
    + right. split; [done|]. intros o' [?|Ho']%elem_of_app; [by apply Hl|]. by apply list_elem_of_singleton in Ho' as ->.
  - destruct IH as [Hb Hl]. split; [done|].
    intros o' [?|Ho']%elem_of_app; [by apply Hl|]. by apply list_elem_of_singleton in Ho' as ->.
Qed.

Lemma active_variants_ok (set : gset string) variants :
  dict_wf (active_variants set variants) ∧
  (∀ o v, dget (active_variants set variants) o = Some v → (v, o) ∈ variants ∧ is_active set o = true) ∧
  (∀ o v, (v, o) ∈ variants → is_active set o = true → is_Some (dget (active_variants set variants) o)).
Proof.
  unfold active_variants. induction variants as [|[v o] l IH] using rev_ind.
  { split; [apply dict_wf_nil|]. split; [done|]. by intros ? ? ?%elem_of_nil. }
  rewrite foldl_app. cbn [foldl fst snd]. destruct IH as (Hwf & H1 & H2). destruct (is_active set o) eqn:Ea.
  - split; [by apply dset_wf|]. split.
    + intros o' v'. rewrite dget_dset. case_decide as Ho; [intros [= <-]; subst|intros [? ?]%H1]; (split; [|done]);
        apply elem_of_app; [right; apply list_elem_of_here|by left].
    + intros o' v' Hin Ha. rewrite dget_dset. case_decide as Ho; [by eexists|].
      apply elem_of_app in Hin as [Hin|Hin]; [by eapply H2|]. apply list_elem_of_singleton in Hin. congruence.
  - split; [done|]. split.
    + intros o' v' [? ?]%H1. split; [|done]. apply elem_of_app. by left.
    + intros o' v' Hin Ha. apply elem_of_app in Hin as [Hin|Hin]; [by eapply H2|].
      apply list_elem_of_singleton in Hin. congruence.
Qed.

(** The search for the active variant of a variable always ends.  When no
    override has an underscore in its name, it takes the variant of the last
    override in OVERRIDES that has one, and none only when no override of
    OVERRIDES has a variant. *)
Theorem variant_rightmost ovs variants :
  let active := active_variants (list_to_set ovs) variants in
  ∃ best, choose_variant (variant_fuel active) ovs (active, None) = Ok best ∧
    (NoDup ovs → (∀ v o, (v, o) ∈ variants → char_in "_" o = false) →
     match best with
     | Some v => ∃ l1 o l2, ovs = l1 ++ o :: l2 ∧ (v, o) ∈ variants ∧ ∀ o' v', o' ∈ l2 → (v', o') ∉ variants
     | None => ∀ v o, (v, o) ∈ variants → o ∉ ovs
     end).
Proof.
  cbv zeta. destruct (active_variants_ok (list_to_set ovs) variants) as (Hwf & H1 & H2).
  set (active := active_variants _ _) in *.
  destruct (choose_variant_ends (variant_fuel active) ovs active None) as [best E].
  { unfold variant_fuel, names_length. lia. }
  exists best. split; [done|]. intros Hnd Hs.
  assert (∀ a, a ∈ dkeys active → char_in "_" a = false) as Hk.
  { intros a [v Hv]%elem_of_dkeys. apply H1 in Hv as [Hv _]. by eapply Hs. }
  destruct (take_round_simple ovs active None false Hnd Hwf Hk) as (active' & Er).
  unfold variant_fuel in E. cbn [choose_variant] in E. unfold take_round in E. rewrite Er in E. injection E as <-.
  assert (∀ o v, (v, o) ∈ variants → o ∈ ovs → dget active o ≠ None) as Hsome.
  { intros o v Hin Ho Hn. destruct (H2 o v Hin) as [t Ht]; [|congruence]. unfold is_active.
    rewrite bool_decide_eq_true_2; [done|]. by apply elem_of_list_to_set. }
  pose proof (rightmost_spec active ovs None) as Hr. destruct (rightmost active ovs None) as [v|].
  - destruct Hr as [(l1 & o & l2 & -> & Hv & Hl)|[? _]]; [|done]. exists l1, o, l2. split; [done|].
    split; [by apply H1|]. intros o' v' Ho' Hin. apply (Hsome o' v' Hin); [|by apply Hl].
    apply elem_of_app. right. by apply list_elem_of_further.
  - destruct Hr as [_ Hl]. intros v o Hin Ho. apply (Hsome o v Hin Ho). by apply Hl.
Qed.

(** Three overrides, two of which have a variant. *)
Definition zynq_overrides : list string := ["arm"; "zynq"; "local"].
Definition zynq_variants : list (string * string) := [("A_arm", "arm"); ("A_zynq", "zynq"); ("A_x", "x")].

Lemma variant_rightmost_witness :
  let active := active_variants (list_to_set zynq_overrides) zynq_variants in
  choose_variant (variant_fuel active) zynq_overrides (active, None) = Ok (Some "A_zynq") ∧
  ∃ l1 o l2, zynq_overrides = l1 ++ o :: l2 ∧ ("A_zynq", o) ∈ zynq_variants ∧
    ∀ o' v', o' ∈ l2 → (v', o') ∉ zynq_variants.
Proof.
  cbv zeta. destruct (variant_rightmost zynq_overrides zynq_variants) as (best & E & H).
  assert (best = Some "A_zynq") as -> by (vm_compute in E; congruence).
  split; [exact E|]. apply H; [by_eval|]. intros v o Hin.
  repeat (apply elem_of_cons in Hin as [[= -> ->]|Hin]; [done|]). by apply elem_of_nil in Hin.
Defined.

(** ** Runs that succeed *)

(** The computation returns, with [Q]. *)
Definition succeeds {S A} (s : S) (m : M S A) (Q : A → S → Prop) : Prop :=
  match m s with (s', Ok a) => Q a s' | (_, Raise _) => False end.

Lemma succeeds_bind {S A B} (s : S) (m : M S A) (f : A → M S B) Q Q' :
  succeeds s m Q → (∀ a s', Q a s' → succeeds s' (f a) Q') → succeeds s (m ≫= f) Q'.
Proof. unfold succeeds. rewrite M_bind_eq. destruct (m s) as [s' [a|e]]; [|done]. intros Hm Hf. by apply Hf. Qed.

Lemma succeeds_mono {S A} (s : S) (m : M S A) (Q Q' : A → S → Prop) :
  succeeds s m Q → (∀ a s', Q a s' → Q' a s') → succeeds s m Q'.
Proof. unfold succeeds. destruct (m s) as [s' [a|e]]; auto. Qed.

Lemma succeeds_for_each {S A} (I : list A → S → Prop) s (l : list A) (f : A → M S unit) :
  I [] s → (∀ x l1 s', x ∈ l → I l1 s' → succeeds s' (f x) (λ _, I (l1 ++ [x]))) →
  succeeds s (for_each l f) (λ _, I l).
Proof.
  intros H0 Hf. assert (∀ l0 l2 s', l = l0 ++ l2 → I l0 s' → succeeds s' (for_each l2 f) (λ _, I l)) as H; [|by apply (H [])].
  clear H0. intros l0 l2. revert l0. induction l2 as [|x l2 IH]; intros l0 s' -> HI; cbn [for_each]; [by rewrite app_nil_r|].
  eapply succeeds_bind; [apply (Hf x l0); [|done]|].
  - apply elem_of_app. right. apply list_elem_of_here.
  - intros [] s'' HI'. apply (IH (l0 ++ [x])); [by rewrite <-app_assoc|done].
Qed.

(** ** Assignments and operations *)

(** [VAR_append], [VAR_prepend] or [VAR_remove], maybe for overrides. *)
Record operation : Type := Operation {
  op_keyword : string;
  op_text : string;
  op_override : option string
}.

Definition keywords : list string := ["_append"; "_prepend"; "_remove"].

Lemma content_no_keyword : "_content" ∉ keywords.
Proof. by_eval. Qed.

Definition op_name (var : string) (op : operation) : string :=
  var +s+ op_keyword op +s+ match op_override op with None => "" | Some o => "_" +s+ o end.

Definition op_ok (op : operation) : Prop :=
  op_keyword op ∈ keywords ∧
  match op_override op with None => True | Some o => str_all (λ c, negb (is_upper c)) o = true end.

(** The operations of a keyword, in order. *)
Definition ops_for (kw : string) (ops : list operation) : list (string * option string) :=
  List.map (λ op, (op_text op, op_override op)) (List.filter (λ op, bool_decide (op_keyword op = kw)) ops).

Lemma keyword_at_other c s : Ascii.eqb c "_" = false → keyword_at (String c s) = None.
Proof.
  intros Hc. unfold keyword_at, startswith. cbn [List.find String.prefix].
  destruct (Ascii.ascii_dec "_" c) as [<-|_]; [done|]. done.
Qed.

Lemma setvar_match_plain var : char_in "_" var = false → setvar_match var = None.
Proof.
  induction var as [|c var IH]; cbn [char_in]; [done|]. intros [Hc Hv]%orb_false_iff.
  cbn [setvar_match]. rewrite keyword_at_other by done. rewrite IH by done. by destruct (Ascii.eqb c newline).
Qed.

Lemma keyword_at_op op :
  op_ok op → keyword_at (op_name "" op) = Some (op_keyword op, op_override op).
Proof.
  intros [Hk Ho]. unfold op_name. change ("" +s+ ?x) with x. destruct op as [k t o]. cbn [op_keyword op_override] in *.
  repeat (apply elem_of_cons in Hk as [->|Hk]); [..|by apply elem_of_nil in Hk];
    (destruct o as [o|]; [|reflexivity]); unfold keyword_at; cbn; by rewrite Ho.
Qed.

Lemma setvar_match_op var op :
  char_in "_" var = false → char_in newline var = false → op_ok op →
  setvar_match (op_name var op) = Some (var, op_keyword op, op_override op).
Proof.
  intros Hu Hn Hop. induction var as [|c var IH].
  - destruct (op_name "" op) as [|c s] eqn:E; cbn [setvar_match]; rewrite <-E, keyword_at_op; done.
  - cbn [char_in] in *. apply orb_false_iff in Hu as [Hc Hu]. apply orb_false_iff in Hn as [Hc' Hn].
    change (op_name (String c var) op) with (String c (op_name var op)). cbn [setvar_match].
    rewrite keyword_at_other, Hc', IH by done. done.
Qed.

(** Looking up only reads the layers. *)
Lemma find_in_layers w w' n l var : w_layers w = w_layers w' → find_in w n l var = find_in w' n l var.
Proof.
  intros Hl. revert l. induction n as [|n IH]; intros l; cbn [find_in]; [done|]. unfold layer_at. rewrite Hl.
  destruct (dget _ var); [done|]. destruct (l_data _); [apply IH|done].
Qed.

Section operations.
Context `{!SetOrder string}.
Context (python_eval : option string → string → M world python_result) (loop_fuel depth : nat).

Abbreviation set_var var s := (setVar python_eval (S loop_fuel) (S depth) var s false).
Abbreviation get_var var := (getVar python_eval (S loop_fuel) (S depth) var true).

(** A text without references is its own expansion. *)
Lemma expand_plain get s varname w :
  has_ref s = false →
  expandWithRefs python_eval (S loop_fuel) get (Some (VStr s)) varname w = (w, Ok (empty_parse (Some (VStr s)))).
Proof. intros Hs. unfold expandWithRefs. rewrite M_bind_eq. cbn [expand_loop]. by rewrite Hs. Qed.

Lemma own_set_own f w var :
  own_var (set_own f w) var = dget (f (l_vars (layer_at w (d_dict (w_self w))))) var.
Proof. unfold own_var, set_own, layer_at. cbn. by rewrite lookup_insert_eq. Qed.

Lemma find_own w var fl : own_var w var = Some fl → _findVar w var = Some fl.
Proof. unfold _findVar, own_var. cbn [find_in]. by intros ->. Qed.


Lemma drop_last_plain n s : char_in "_" s = false → char_in "_" (str_drop_last n s) = false.
Proof.
  unfold str_drop_last. generalize (String.length s - n). intros k Hs. revert k.
  induction s as [|c s IH]; intros k; [by destruct k|]. cbn [char_in] in Hs. apply orb_false_iff in Hs as [Hc Hs].
  destruct k; cbn [str_take char_in]; [done|]. by rewrite Hc, IH.
Qed.

(** Without an underscore there is at most the pair that the slices give. *)
Lemma followed_plain test var :
  char_in "_" var = false →
  followed test var = [] ∨ (var ≠ "" ∧ followed test var = [(str_drop_last 1 var, var)]).
Proof.
  intros Hu. unfold followed, split_last. rewrite (proj2 (rsplit1_None _ _) Hu). cbn [fst].
  assert (more_splits (String.length var) var (str_drop_last 1 var) = []) as ->.
  { destruct (String.length var); [done|]. cbn [more_splits].
    by rewrite (proj2 (rsplit1_None _ _) (drop_last_plain _ _ Hu)). }
  cbn [take_while snd]. destruct var; [by left|]. destruct (_ && _); auto.
Qed.

Lemma drop_last_shorter s : s ≠ "" → str_drop_last 1 s ≠ s.
Proof.
  intros Hs E. destruct s as [|c s]; [done|]. unfold str_drop_last in E.
  assert (∀ n s, String.length (str_take n s) ≤ n) as Hle.
  { induction n as [|n IH]; intros [|a t]; cbn; [lia..|]. specialize (IH t). lia. }
  pose proof (Hle (String.length (String c s) - 1) (String c s)) as H. rewrite E in H. cbn in H. lia.
Qed.

(** [_setvar_update_overrides] on a name without underscore. *)
Lemma update_overrides_plain var w :
  char_in "_" var = false →
  ∃ od, _setvar_update_overrides var w = (set_self (set_overridedata od) w, Ok tt) ∧
    dget od var = dget (overridedata (w_self w)) var.
Proof.
  intros Hu. unfold _setvar_update_overrides. destruct (followed_plain override_start var Hu) as [->|[Hv ->]]; cbn [for_each].
  - exists (overridedata (w_self w)). by destruct w as [? ? []].
  - eexists. split; [reflexivity|]. rewrite dget_dset. case_decide as E; [|done].
    by apply drop_last_shorter in E.
Qed.


Context (ovs : list string) (var : string).
Hypothesis (Hu : char_in "_" var = false) (Hn : char_in newline var = false).

(** The variable has these flags in the store's own dictionary, and no
    variants; the overrides are known and nothing is cached. *)
Record settled (fl : dict value) (w : world) : Prop := {
  se_own : own_var w var = Some fl;
  se_overrides : overrides (w_self w) = Some ovs;
  se_variants : dget (overridedata (w_self w)) var = None;
  se_vars : var ∉ overridevars (w_self w);
  se_cache : expand_cache (w_self w) = []
}.

(** Flags after a plain assignment and operations. *)
Record operated (base : string) (ops : list operation) (fl : dict value) : Prop := {
  op_wf : dict_wf fl;
  op_base : dget fl "_content" = Some (VStr base);
  op_flags : ∀ kw, kw ∈ keywords → dget fl kw = match ops_for kw ops with [] => None | l => Some (VOps l) end
}.

Lemma settled_clear fl w : settled fl w → set_self (set_expand_cache []) w = w.
Proof. intros H. pose proof (se_cache _ _ H) as Hc. destruct w as [? ? []]. cbn in *. by subst. Qed.

Lemma clear_cache_settled fl w {B} (f : unit → M world B) :
  settled fl w → (clear_cache ≫= f) w = f tt w.
Proof. intros H. unfold clear_cache. rewrite modify_bind. by rewrite (settled_clear _ _ H). Qed.

Lemma shadow_settled fl w {B} (f : unit → M world B) v :
  own_var w v = Some fl → (_makeShadowCopy v ≫= f) w = f tt w.
Proof. intros H. unfold _makeShadowCopy. rewrite M_bind_eq, get_bind, H. done. Qed.

Lemma own_unfold w v : dget (l_vars (layer_at w (d_dict (w_self w)))) v = own_var w v.
Proof. done. Qed.

(** A new flag. *)
Lemma write_flag_settled fl w flag v :
  settled fl w → succeeds w (write_flag var flag v) (λ _, settled (dset fl flag v)).
Proof.
  intros H. unfold write_flag, succeeds. rewrite get_bind, (se_own _ _ H). cbn [of_option]. rewrite lift_bind.
  cbn [modify]. destruct H. split; [|done..]. by rewrite own_set_own, dget_dset_eq.
Qed.

Lemma remove_flag_settled fl w flag :
  dict_wf fl → settled fl w →
  succeeds w (remove_flag var flag) (λ _ w', ∃ fl', settled fl' w' ∧ dict_wf fl' ∧ dget fl' flag = None ∧
    ∀ k, k ≠ flag → dget fl' k = dget fl k).
Proof.
  intros Hwf H. unfold remove_flag, succeeds. rewrite get_bind, (se_own _ _ H). cbn [of_option]. rewrite lift_bind.
  destruct (dmem fl flag) eqn:Em; cbn [modify mret M_ret].
  - exists (ddel fl flag). split; [|split; [by apply ddel_wf|split; [by apply dget_ddel_eq|intros; by apply dget_ddel_ne]]].
    destruct H. split; [|done..]. by rewrite own_set_own, dget_dset_eq.
  - exists fl. split; [done|]. split; [done|]. split; [|done]. by apply dget_None, dmem_false.
Qed.

Lemma set_flag_settled fl w flag v :
  flag ∈ keywords → settled fl w →
  succeeds w (setVarFlag python_eval (S loop_fuel) (S depth) var flag v) (λ _, settled (dset fl flag v)).
Proof.
  intros Hk H. unfold setVarFlag.
  assert (bool_decide (flag = "_defaultval") = false ∧ bool_decide (flag = "unexport") = false ∧ bool_decide (flag = "export") = false)
    as (E1 & E2 & E3) by (repeat (apply elem_of_cons in Hk as [->|Hk]); [done..|by apply elem_of_nil in Hk]).
  rewrite E1, E2, E3. cbn [andb orb]. unfold succeeds. rewrite (clear_cache_settled _ _ _ H), (shadow_settled _ _ _ _ (se_own _ _ H)).
  pose proof (write_flag_settled fl w flag v H) as Hw. unfold succeeds in Hw. rewrite M_bind_eq.
  by destruct (write_flag var flag v w) as [w' [[]|]].
Qed.

(** Reading the list of a keyword. *)
Lemma read_keyword base ops fl w kw :
  settled fl w → operated base ops fl → kw ∈ keywords →
  ∃ v, read_flag python_eval (S loop_fuel) (S depth) var kw false w = (w, Ok v) ∧ as_ops v = Ok (ops_for kw ops).
Proof.
  intros H Ho Hk. pose proof (op_flags _ _ _ Ho kw Hk) as Hf.
  assert (bool_decide (kw = "_content") = false ∧ str_empty kw = false) as [Ec Ee]
    by (repeat (apply elem_of_cons in Hk as [->|Hk]); [done..|by apply elem_of_nil in Hk]).
  exists (dget fl kw). split.
  - unfold read_flag, get_flag. rewrite M_bind_eq. cbn [getVarFlag fc_flag]. rewrite Ee. unfold getVarFlag_body.
    rewrite get_bind. cbn [fc_expand fc_var fc_retparser orb]. rewrite (find_own _ _ _ (se_own _ _ H)), (se_variants _ _ H).
    cbn [variant_value]. unfold apply_removes, active_ops, ops_of, stored_value. cbn [fc_flag fc_parsing]. rewrite Ec. cbn [andb].
    rewrite Hf. by destruct (ops_for kw ops).
  - rewrite Hf. unfold as_ops. by destruct (ops_for kw ops).
Qed.

Lemma ops_for_snoc kw ops op :
  ops_for kw (ops ++ [op]) =
    if decide (op_keyword op = kw) then ops_for kw ops ++ [(op_text op, op_override op)] else ops_for kw ops.
Proof.
  unfold ops_for. rewrite List.filter_app, List.map_app. cbn [List.filter].
  destruct (decide (op_keyword op = kw)); [rewrite bool_decide_eq_true_2|rewrite bool_decide_eq_false_2]; cbn; [done..| |done].
  by rewrite app_nil_r.
Qed.

Lemma operated_snoc base ops op fl :
  operated base ops fl → op_keyword op ∈ keywords →
  operated base (ops ++ [op])
    (dset fl (op_keyword op) (VOps (ops_for (op_keyword op) ops ++ [(op_text op, op_override op)]))).
Proof.
  intros [Hwf Hb Hf] Hk. split.
  - by apply dset_wf.
  - rewrite dget_dset_ne; [done|]. intros E. rewrite E in Hk. by apply content_no_keyword in Hk.
  - intros kw Hkw. rewrite dget_dset, ops_for_snoc. destruct (decide (op_keyword op = kw)) as [->|]; [|by apply Hf].
    by destruct (ops_for kw ops).
Qed.

(** An operation adds itself at the end of its list. *)
Lemma set_operation base ops fl w op :
  settled fl w → operated base ops fl → op_ok op →
  succeeds w (set_var (op_name var op) (op_text op))
    (λ _ w', ∃ fl', settled fl' w' ∧ operated base (ops ++ [op]) fl').
Proof.
  intros H Ho Hop. pose proof Hop as [Hk _].
  destruct (read_keyword base ops fl w (op_keyword op) H Ho Hk) as (v & Er & Ev).
  unfold setVar, succeeds. rewrite (clear_cache_settled _ _ _ H), setvar_match_op by done.
  rewrite M_bind_eq, Er. cbn [fst snd]. rewrite Ev, lift_bind.
  pose proof (set_flag_settled fl w (op_keyword op) (VOps (ops_for (op_keyword op) ops ++ [(op_text op, op_override op)])) Hk H) as Hs.
  unfold succeeds in Hs. rewrite M_bind_eq. destruct (setVarFlag _ _ _ _ _ _ w) as [w1 [[]|]]; [|done].
  destruct (update_overrides_plain var w1 Hu) as (od & Eu & Ed). rewrite M_bind_eq, Eu, get_bind.
  rewrite bool_decide_eq_false_2 by apply (se_vars _ _ Hs). cbn [mret M_ret].
  eexists. split; [|by apply operated_snoc]. destruct Hs. split; [done..| |done|done]. cbn. by rewrite Ed.
Qed.

(** What a plain assignment starts from. *)
Record assignable (w : world) : Prop := {
  as_overrides : overrides (w_self w) = Some ovs;
  as_variants : dget (overridedata (w_self w)) var = None;
  as_vars : var ∉ overridevars (w_self w);
  as_wf : ∀ fl, _findVar w var = Some fl → dict_wf fl
}.

Lemma shadow_copy_settled w :
  assignable w → succeeds w (clear_cache ≫= λ _, _makeShadowCopy var) (λ _ w', ∃ fl, settled fl w' ∧ dict_wf fl).
Proof.
  intros [H1 H2 H3 H4]. unfold clear_cache, succeeds. rewrite modify_bind. unfold _makeShadowCopy. rewrite get_bind.
  set (w0 := set_self (set_expand_cache []) w).
  assert (_findVar w0 var = _findVar w var) as Ef.
  { by apply find_in_layers. }
  destruct (own_var w0 var) as [fl|] eqn:Eo; cbn [mret M_ret].
  - exists fl. split; [by split|]. apply H4. rewrite <-Ef. by apply find_own.
  - destruct (found (_findVar w0 var)) eqn:Eb.
    + cbn [modify]. destruct (_findVar w0 var) as [fl|] eqn:Efl; [|done]. exists fl. cbn [default].
      split; [|apply H4; congruence]. split; [|done..]. by rewrite own_set_own, dget_dset_eq.
    + unfold initVar, clear_cache. rewrite modify_bind. cbn [modify]. exists []. split; [|apply dict_wf_nil].
      split; [|done..]. rewrite own_set_own. change (dget (l_vars (layer_at w0 (d_dict (w_self w0)))) var = None) in Eo.
      change (layer_at (set_self _ w0) _) with (layer_at w0 (d_dict (w_self w0))).
      assert (dmem (l_vars (layer_at w0 (d_dict (w_self w0)))) var = false) as -> by by apply dmem_false, dget_None.
      by rewrite dget_dset_eq.
Qed.

Lemma assign_plain w base :
  assignable w → succeeds w (set_var var base) (λ _ w', ∃ fl, settled fl w' ∧ operated base [] fl).
Proof.
  intros Hw. pose proof (shadow_copy_settled w Hw) as Hs. unfold succeeds, clear_cache in Hs. rewrite modify_bind in Hs.
  unfold succeeds, setVar, clear_cache. rewrite modify_bind, setvar_match_plain by done. unfold assign.
  eapply (succeeds_bind _ _ _ (λ _ w', ∃ fl, settled fl w' ∧ dict_wf fl)); [exact Hs|]. clear Hs w Hw. intros _ w (fl & H & Hwf).
  rewrite Hu. cbn [andb].
  eapply (succeeds_bind _ _ _ (λ _ w', ∃ fl, settled fl w' ∧ dict_wf fl ∧ ∀ kw, kw ∈ keywords → dget fl kw = None)).
  - unfold forget_var.
    eapply succeeds_bind; [by apply (remove_flag_settled fl w "_append")|]. cbn beta. intros _ w1 (fl1 & S1 & W1 & N1 & K1).
    eapply succeeds_bind; [by apply (remove_flag_settled fl1 w1 "_prepend")|]. cbn beta. intros _ w2 (fl2 & S2 & W2 & N2 & K2).
    eapply succeeds_bind; [by apply (remove_flag_settled fl2 w2 "_remove")|]. cbn beta. intros _ w3 (fl3 & S3 & W3 & N3 & K3).
    unfold succeeds. rewrite get_bind. assert (dmem (overridedata (w_self w3)) var = false) as ->.
    { apply dmem_false, dget_None, (se_variants _ _ S3). }
    cbn [mret M_ret]. exists fl3. split; [done|]. split; [done|]. intros kw Hk.
    apply elem_of_cons in Hk as [->|Hk]; [by rewrite K3, K2|]. apply elem_of_cons in Hk as [->|Hk]; [by rewrite K3|].
    by apply list_elem_of_singleton in Hk as ->.
  - clear fl w H Hwf. intros _ w (fl & H & Hwf & Hk). unfold succeeds. rewrite M_bind_eq. cbn [mret M_ret].
    pose proof (write_flag_settled fl w "_content" (VStr base) H) as Hs. unfold succeeds in Hs. rewrite M_bind_eq.
    destruct (write_flag _ _ _ w) as [w1 [[]|]]; [|done]. rewrite get_bind.
    rewrite bool_decide_eq_false_2 by apply (se_vars _ _ Hs). cbn [mret M_ret]. exists (dset fl "_content" (VStr base)).
    split; [done|]. split; [by apply dset_wf|by rewrite dget_dset_eq|]. intros kw Hkw. rewrite dget_dset_ne; [by apply Hk|].
    intros <-. by apply content_no_keyword in Hkw.
Qed.

(** The operations of a keyword that apply, and what they make of a text. *)
Definition applied (kw : string) (ops : list operation) : list string :=
  List.map op_text (List.filter (λ op, bool_decide (op_keyword op = kw) && op_matches ovs (op_override op)) ops).

Definition full_text (base : string) (ops : list operation) : string :=
  foldl (λ s r, r +s+ s) (foldl (λ s r, s +s+ r) base (applied "_append" ops)) (applied "_prepend" ops).

Definition removed_word (ops : list operation) (w : string) : bool :=
  existsb (λ r, bool_decide (w ∈ split_ws r)) (applied "_remove" ops).

Lemma matching_applied kw ops : matching_ops ovs (ops_for kw ops) = applied kw ops.
Proof.
  unfold matching_ops, ops_for, applied. induction ops as [|op ops IH]; [done|]. cbn [List.filter].
  destruct (bool_decide (op_keyword op = kw)); cbn [andb List.map List.filter snd]; [|done].
  destruct (op_matches ovs (op_override op)); cbn [List.map]; [by rewrite IH|done].
Qed.

Lemma need_known get w {B} (f : unit → M world B) :
  overrides (w_self w) = Some ovs → (need_overrides get ≫= f) w = f tt w.
Proof. intros E. unfold need_overrides. rewrite M_bind_eq, get_bind, E. done. Qed.

(** The operations of a keyword when the value is read. *)
Lemma active_ops_settled get base ops fl w kw :
  settled fl w → operated base ops fl → kw ∈ keywords →
  ∃ o, active_ops get (call_var var true) (Some fl) kw w = (w, Ok o) ∧ default [] o = applied kw ops.
Proof.
  intros H Ho Hk. unfold active_ops. change (ops_of (call_var var true) (Some fl) kw) with (dget fl kw).
  rewrite (op_flags _ _ _ Ho kw Hk), <-matching_applied.
  destruct (ops_for kw ops) as [|op l] eqn:E; [by exists None|].
  eexists (Some _). rewrite need_known by apply (se_overrides _ _ H). rewrite get_bind, (se_overrides _ _ H).
  cbn [ops_that_match]. by rewrite lift_bind.
Qed.

Lemma joined_text jn s o : joined jn (Some (VStr s)) o = Ok (Some (VStr (foldl jn s (default [] o)))).
Proof. destruct o as [l|]; [|done]. unfold joined. cbn. by destruct s. Qed.

Lemma expand_removes_plain get l w :
  (∀ r, r ∈ l → has_ref r = false) →
  expand_removes python_eval (S loop_fuel) get l w = (w, Ok (List.map (λ r, (r, split_ws r)) l)).
Proof.
  induction l as [|r l IH]; intros Hl; cbn [expand_removes List.map]; [done|].
  rewrite M_bind_eq. unfold expand at 1. rewrite M_bind_eq, expand_plain by apply Hl, list_elem_of_here.
  cbn [p_value empty_parse as_str lift]. rewrite M_bind_eq, IH; [done|]. intros. apply Hl. by apply list_elem_of_further.
Qed.

Lemma hit_removed ops (l : list string) w :
  l ≡ₚ elements (list_to_set (applied "_remove" ops) : gset string) →
  hit (List.map (λ r, (r, split_ws r)) l) w = removed_word ops w.
Proof.
  intros Hl. apply eq_true_iff_eq. unfold hit, removed_word. rewrite !existsb_exists. split.
  - intros (x & (r & <- & Hr)%in_map_iff & Hw). exists r. split; [|done]. apply list_elem_of_In in Hr.
    rewrite Hl in Hr. by apply elem_of_elements, elem_of_list_to_set, list_elem_of_In in Hr.
  - intros (r & Hr & Hw). exists (r, split_ws r). split; [|done]. apply (in_map (λ r, (r, split_ws r))).
    apply list_elem_of_In. rewrite Hl. by apply elem_of_elements, elem_of_list_to_set, list_elem_of_In.
Qed.

(** What a read of the text gives when words are removed. *)
Definition left_over (full : string) (ops : list operation) (val : string) : Prop :=
  split_ws val = List.filter (λ w, negb (removed_word ops w)) (split_ws full) ∧ (applied "_remove" ops = [] → val = full).

Lemma filter_all_words {A} (f : A → bool) l : (∀ x, f x = true) → List.filter f l = l.
Proof. intros Hf. induction l as [|x l IH]; cbn; [done|]. by rewrite Hf, IH. Qed.

Lemma removes_applied get local ops w p full :
  (∃ o, active_ops get (call_var var true) local "_remove" w = (w, Ok o) ∧ default [] o = applied "_remove" ops) →
  p_value p = Some (VStr full) → (∀ r, r ∈ applied "_remove" ops → has_ref r = false) →
  succeeds w (apply_removes python_eval (S loop_fuel) get (call_var var true) local ∅ (Some (VStr full)) (Some p))
    (λ r _, ∃ val, r.1 = Some (VStr val) ∧ left_over full ops val).
Proof.
  intros (o & E & Eo) Hp Hr. unfold apply_removes, succeeds. cbn [truthy fc_flag fc_parsing fc_expand call_var andb].
  destruct full as [|c full]; cbn [str_empty negb].
  { rewrite M_bind_eq. cbn. by exists "". }
  rewrite !M_bind_eq, E. cbn [mret M_ret]. rewrite Eo. clear o E Eo. rewrite bool_decide_eq_true_2 by done. cbn [andb].
  replace (∅ ∪ list_to_set (applied "_remove" ops) : gset string) with (list_to_set (applied "_remove" ops) : gset string) by set_solver.
  destruct (decide (applied "_remove" ops = [])) as [E|E].
  { rewrite E. cbn. eexists. split; [done|]. split; [|done]. unfold removed_word. rewrite E. by rewrite filter_all_words. }
  rewrite bool_decide_eq_false_2. 2: { destruct (applied "_remove" ops); [done|]. set_solver. }
  cbn [negb]. rewrite M_bind_eq, expand_removes_plain.
  2: { intros r Hin. rewrite set_iter_perm in Hin. by apply Hr, (elem_of_list_to_set (C := gset string)), elem_of_elements. }
  rewrite Hp. cbn [as_str]. rewrite lift_bind. destruct (drop_removed _ _) as [val used] eqn:Ed. cbn [mret M_ret].
  exists val. split; [done|]. split; [|done]. change val with (val, used).1. rewrite <-Ed, drop_removed_words.
  - apply List.filter_ext. intros x. f_equal. apply hit_removed, set_iter_perm.
  - intros r (r' & <- & _)%list_elem_of_In%in_map_iff. apply split_ws_words.
Qed.

(** The value of a settled variable. *)
Lemma read_operated base ops fl w :
  settled fl w → operated base ops fl →
  has_ref (full_text base ops) = false → (∀ r, r ∈ applied "_remove" ops → has_ref r = false) →
  succeeds w (get_var var) (λ v _, ∃ val, v = Some (VStr val) ∧ left_over (full_text base ops) ops val).
Proof.
  intros H Ho Hf Hr. unfold getVar, get_flag, succeeds. rewrite M_bind_eq. cbn [getVarFlag fc_flag call_var]. cbn [str_empty].
  unfold getVarFlag_body. rewrite get_bind. cbn [fc_expand fc_var fc_retparser orb call_var]. rewrite (se_cache _ _ H). cbn [dget].
  rewrite (find_own _ _ _ (se_own _ _ H)), (se_variants _ _ H). cbn [variant_value]. rewrite M_bind_eq. cbn [mret M_ret].
  rewrite get_bind. unfold stored_value. cbn [fc_flag call_var]. rewrite (op_base _ _ _ Ho). cbn [copy_value some_value].
  destruct (active_ops_settled (getVarFlag python_eval (S loop_fuel) depth) base ops fl w "_append" H Ho) as (o1 & E1 & O1); [by_eval|].
  destruct (active_ops_settled (getVarFlag python_eval (S loop_fuel) depth) base ops fl w "_prepend" H Ho) as (o2 & E2 & O2); [by_eval|].
  rewrite M_bind_eq, E1, joined_text, lift_bind, M_bind_eq, E2, joined_text, lift_bind, O1, O2.
  fold (full_text base ops). rewrite !M_bind_eq, expand_plain by done. cbn [mret M_ret p_value empty_parse].
  pose proof (removes_applied (getVarFlag python_eval (S loop_fuel) depth) (Some fl) ops w
    (empty_parse (Some (VStr (full_text base ops)))) _ (active_ops_settled _ base ops fl w "_remove" H Ho ltac:(by_eval)) eq_refl Hr) as Hs.
  unfold succeeds in Hs. rewrite M_bind_eq. destruct (apply_removes _ _ _ _ _ _ _ _ w) as [w' [[v p]|]]; [|done].
  cbn [fst] in Hs. destruct p; rewrite M_bind_eq; exact Hs.
Qed.

End operations.

(** A store with two overrides, and a variable that is changed in four ways. *)
Definition two_overrides : world :=
  set_self (λ d, set_overridesset {["arm"; "zynq"]} (set_overrides (Some ["arm"; "zynq"]) d)) new_world.

Definition four_operations : list operation :=
  [Operation "_append" " x y" None; Operation "_prepend" "p " None;
   Operation "_remove" "x b" (Some "zynq"); Operation "_append" " z" (Some "mips")].

Definition no_python (_ : option string) (_ : string) : M world python_result :=
  raise RuntimeError.

#[local] Existing Instance set_order_elements.

Definition four_operations_run : M world (option value) :=
  _ ← setVar no_python 2 2 "A" "a b" false;
  _ ← for_each four_operations (λ op, setVar no_python 2 2 (op_name "A" op) (op_text op) false);
  getVar no_python 2 2 "A" true.

