(* ===== verification/DataCopy.v ===== *)
(** * Copies of a data store (bb/data_smart.py)

    A copy made by [createCopy] sees the variables of the store it was made
    from, and whatever is done with the copy does not change what that store
    sees: every method writes only to the dictionary of its own store. *)

From Stdlib Require Import Ascii String.
From S2P Require Import Prelude.
From S2P Require Import PyStr.
From S2P Require Import PyDict.
From S2P Require Import Runs.
From S2P Require Import DataStore.

(** ** Writing to the own dictionary only *)

(** The dictionaries of the other stores stay, and the link of the own one. *)
Record only_own (w w' : world) : Prop := {
  oo_dict : d_dict (w_self w') = d_dict (w_self w);
  oo_others : ∀ l, l ≠ d_dict (w_self w) → w_layers w' !! l = w_layers w !! l;
  oo_link : l_data (layer_at w' (d_dict (w_self w))) = l_data (layer_at w (d_dict (w_self w)));
  oo_there : is_Some (w_layers w !! d_dict (w_self w)) → is_Some (w_layers w' !! d_dict (w_self w))
}.

#[export] Instance only_own_preorder : PreOrder only_own.
Proof.
  split.
  - by intros w; split.
  - intros w1 w2 w3 [A1 A2 A3 A4] [B1 B2 B3 B4]. rewrite A1 in B2, B3, B4. split; [congruence| |congruence|auto].
    intros l Hl. by rewrite B2, A2.
Qed.

(** A computation that does so. *)
Abbreviation keeps := (preserves only_own).

Lemma keeps_self f : (∀ d, d_dict (f d) = d_dict d) → keeps (modify (set_self f)).
Proof. intros Hf w. split; [apply Hf|done..]. Qed.

Lemma keeps_own f : keeps (modify (set_own f)).
Proof.
  intros w. split; [done| | |].
  - intros l Hl. cbn. by rewrite lookup_insert_ne.
  - cbn. unfold layer_at at 1. cbn. by rewrite lookup_insert_eq.
  - cbn. rewrite lookup_insert_eq. by eexists.
Qed.

Lemma keeps_sets f : keeps (modify (λ w, World (w_layers w) (f w) (w_self w))).
Proof. by intros w; split. Qed.

#[export] Hint Resolve keeps_own keeps_sets : preserves.

(** What the hints know, and functions of the store that keep its place. *)
Ltac keep :=
  preserves;
  repeat match goal with
    | |- preserves _ (modify (set_self _)) => apply keeps_self; intros
    | |- d_dict (match ?x with _ => _ end) = _ => destruct x
    | |- d_dict _ = _ => reflexivity
    end.
Tactic Notation "keeping" reference(f) := unfold f; keep.

Lemma keeps_clear_cache : keeps clear_cache.
Proof. keeping clear_cache. Qed.
#[export] Hint Resolve keeps_clear_cache : preserves.

Lemma keeps_initVar var : keeps (initVar var).
Proof. keeping initVar. Qed.
#[export] Hint Resolve keeps_initVar : preserves.

Lemma keeps_shadow var : keeps (_makeShadowCopy var).
Proof. keeping _makeShadowCopy. Qed.

Lemma keeps_write_flag var flag v : keeps (write_flag var flag v).
Proof. keeping write_flag. Qed.

Lemma keeps_remove_flag var flag : keeps (remove_flag var flag).
Proof. keeping remove_flag. Qed.

Lemma keeps_update_overrides var : keeps (_setvar_update_overrides var).
Proof. keeping _setvar_update_overrides. Qed.

Lemma keeps_delVar var : keeps (delVar var).
Proof. keeping delVar. Qed.
#[export] Hint Resolve keeps_shadow keeps_write_flag keeps_remove_flag keeps_update_overrides keeps_delVar : preserves.

Section reading.
Context `{!SetOrder string}.
Context (python_eval : option string → string → M world python_result) (loop_fuel depth : nat).
(** Evaluating an expression of a recipe is code of the recipe; it may use the
    store as its methods do. *)
Hypothesis keeps_python : ∀ var code, keeps (python_eval var code).

Section calls.
Context (get_flag : flag_call → M world flag_result).
Hypothesis keeps_flag : ∀ c, keeps (get_flag c).

#[local] Hint Resolve keeps_python keeps_flag : preserves.

Lemma keeps_sub_pieces sub l p :
  (∀ key p, keeps (sub key p)) → keeps (sub_pieces sub l p).
Proof.
  intros Hs. revert p. induction l as [|[s|key] l IH]; intros p; cbn [sub_pieces]; [apply (preserves_ret _)|..].
  - apply (preserves_bind _); [apply IH|]. intros [? ?]. keep.
  - apply (preserves_bind _); [apply Hs|]. intros [? ?]. apply (preserves_bind _); [apply IH|]. intros [? ?]. keep.
Qed.

Lemma keeps_var_sub varname key p : keeps (var_sub get_flag varname key p).
Proof. keeping var_sub. Qed.

Lemma keeps_python_sub varname l p : keeps (python_sub python_eval varname l p).
Proof.
  revert p. induction l as [|[s|code] l IH]; intros p; cbn [python_sub]; [apply (preserves_ret _)|..].
  - apply (preserves_bind _); [apply IH|]. intros [? ?]. keep.
  - apply (preserves_bind _); [apply keeps_python|]. intros e. destruct (pr_text e); [|apply (preserves_ret _)].
    apply (preserves_bind _); [apply IH|]. intros [? ?]. keep.
Qed.

Lemma keeps_expand_once varname s p : keeps (expand_once python_eval get_flag varname s p).
Proof.
  unfold expand_once. apply (preserves_catch _); [|intros; apply (preserves_raise _)].
  apply (preserves_bind _); [apply keeps_sub_pieces; intros; apply keeps_var_sub|]. intros [? ?].
  apply (preserves_bind _); [apply keeps_python_sub|]. intros [? ?]. apply (preserves_ret _).
Qed.

Lemma keeps_expand_loop n varname s p : keeps (expand_loop python_eval get_flag n varname s p).
Proof.
  revert s p. induction n as [|n IH]; intros s p; cbn [expand_loop]; [apply (preserves_raise _)|].
  destruct (has_ref s); [|apply (preserves_ret _)]. apply (preserves_bind _); [apply keeps_expand_once|]. intros [? ?]. keep.
Qed.

Lemma keeps_expandWithRefs v varname : keeps (expandWithRefs python_eval loop_fuel get_flag v varname).
Proof. unfold expandWithRefs. destruct v as [[]|]; keep. apply keeps_expand_loop. Qed.
#[local] Hint Resolve keeps_expandWithRefs : preserves.

Lemma keeps_expand_removes l : keeps (expand_removes python_eval loop_fuel get_flag l).
Proof. induction l as [|r l IH]; cbn [expand_removes]; [apply (preserves_ret _)|]. unfold expand. keep. Qed.

Lemma keeps_stabilise n : keeps (stabilise get_flag n).
Proof. induction n as [|n IH]; cbn [stabilise]; [apply (preserves_raise _)|]. unfold read_overrides, assume_overrides. keep. Qed.

Lemma keeps_need_overrides : keeps (need_overrides get_flag).
Proof. unfold need_overrides. keep. apply keeps_stabilise. Qed.
#[local] Hint Resolve keeps_need_overrides keeps_expand_removes : preserves.

Lemma keeps_variant_value c od : keeps (variant_value get_flag c od).
Proof. keeping variant_value. Qed.

Lemma keeps_active_ops c local kw : keeps (active_ops get_flag c local kw).
Proof. keeping active_ops. Qed.
#[local] Hint Resolve keeps_variant_value keeps_active_ops : preserves.

Lemma keeps_apply_removes c local removes v p :
  keeps (apply_removes python_eval loop_fuel get_flag c local removes v p).
Proof. keeping apply_removes. Qed.
#[local] Hint Resolve keeps_apply_removes : preserves.

Lemma keeps_body c : keeps (getVarFlag_body python_eval loop_fuel get_flag c).
Proof. keeping getVarFlag_body. Qed.
End calls.

Lemma keeps_getVarFlag n c : keeps (getVarFlag python_eval loop_fuel n c).
Proof.
  revert c. induction n as [|n IH]; intros c; cbn [getVarFlag]; [apply (preserves_raise _)|].
  destruct (str_empty _); [apply (preserves_ret _)|by apply keeps_body].
Qed.

#[local] Hint Resolve keeps_getVarFlag keeps_expandWithRefs keeps_need_overrides : preserves.

Lemma keeps_get_flag c : keeps (get_flag python_eval loop_fuel depth c).
Proof. apply keeps_getVarFlag. Qed.

Lemma keeps_getVar var expand : keeps (getVar python_eval loop_fuel depth var expand).
Proof. keeping getVar. Qed.

Lemma keeps_read_flag var flag expand : keeps (read_flag python_eval loop_fuel depth var flag expand).
Proof. keeping read_flag. Qed.
#[local] Hint Resolve keeps_get_flag keeps_getVar keeps_read_flag : preserves.

Lemma keeps_follow n new : keeps (follow_overridevars python_eval loop_fuel depth n new).
Proof.
  revert new. induction n as [|n IH]; intros new; cbn [follow_overridevars]; [apply (preserves_raise _)|]. keep.
  generalize (set_iter new). intros l. induction l as [|i l IHl]; keep.
Qed.

Lemma keeps_update_overridevars var v : keeps (_setvar_update_overridevars python_eval loop_fuel depth var v).
Proof. unfold _setvar_update_overridevars. keep. apply keeps_follow. Qed.
#[local] Hint Resolve keeps_update_overridevars : preserves.

Lemma keeps_setVarFlag var flag v : keeps (setVarFlag python_eval loop_fuel depth var flag v).
Proof. keeping setVarFlag. Qed.

Lemma keeps_forget var : keeps (forget_var python_eval loop_fuel depth var).
Proof. keeping forget_var. Qed.
#[local] Hint Resolve keeps_setVarFlag keeps_forget : preserves.

Lemma keeps_assign var v parsing : keeps (assign python_eval loop_fuel depth var v parsing).
Proof. keeping assign. Qed.
#[local] Hint Resolve keeps_assign : preserves.

Lemma keeps_setVar var value parsing : keeps (setVar python_eval loop_fuel depth var value parsing).
Proof. keeping setVar. Qed.
#[local] Hint Resolve keeps_setVar : preserves.

Lemma keeps_setVal var v parsing : keeps (setVal python_eval loop_fuel depth var v parsing).
Proof. keeping setVal. Qed.
#[local] Hint Resolve keeps_setVal : preserves.

Lemma keeps_renameVar n key newkey : keeps (renameVar python_eval loop_fuel depth n key newkey).
Proof.
  revert key newkey. induction n as [|n IH]; intros key newkey; cbn [renameVar]; [apply (preserves_raise _)|]. keep.
Qed.
#[local] Hint Resolve keeps_renameVar : preserves.

Lemma keeps_getVarFlags var expanded internal : keeps (getVarFlags python_eval loop_fuel depth var expanded internal).
Proof.
  unfold getVarFlags. apply (preserves_bind _); [apply (preserves_get _)|]. intros w. keep.
  generalize (default [] (_findVar w var)). intros l. induction l as [|[i v] l IHl]; keep.
Qed.

Lemma keeps_getitem item : keeps (getitem python_eval loop_fuel depth item).
Proof. keeping getitem. Qed.

Lemma keeps_data_keys : keeps (data_keys python_eval loop_fuel depth).
Proof. keeping data_keys. Qed.
#[local] Hint Resolve keeps_getVarFlags keeps_data_keys keeps_getitem : preserves.

(** ** The methods of a store *)

(** A call of a method, its result dropped. *)
Inductive request : Type :=
  | GetVar (var : string) (expand : bool)
  | GetVarFlag (c : flag_call)
  | GetVarFlags (var : string) (expanded : list string) (internal : bool)
  | GetItem (item : string)
  | Keys
  | SetVar (var value : string) (parsing : bool)
  | AppendVar (var value : string)
  | PrependVar (var value : string)
  | RenameVar (key newkey : string)
  | DelVar (var : string)
  | SetVarFlag (var flag : string) (v : value)
  | DelVarFlag (var flag : string)
  | AppendVarFlag (var flag value : string)
  | PrependVarFlag (var flag value : string)
  | SetVarFlags (var : string) (flags : list (string * value))
  | DelVarFlags (var : string).

Definition run_request (r : request) : M world unit :=
  match r with
  | GetVar var e => _ ← getVar python_eval loop_fuel depth var e; mret tt
  | GetVarFlag c => _ ← get_flag python_eval loop_fuel depth c; mret tt
  | GetVarFlags var e i => _ ← getVarFlags python_eval loop_fuel depth var e i; mret tt
  | GetItem item => _ ← getitem python_eval loop_fuel depth item; mret tt
  | Keys => _ ← data_keys python_eval loop_fuel depth; mret tt
  | SetVar var v p => setVar python_eval loop_fuel depth var v p
  | AppendVar var v => appendVar python_eval loop_fuel depth var v
  | PrependVar var v => prependVar python_eval loop_fuel depth var v
  | RenameVar k k' => renameVar python_eval loop_fuel depth depth k k'
  | DelVar var => delVar var
  | SetVarFlag var f v => setVarFlag python_eval loop_fuel depth var f v
  | DelVarFlag var f => delVarFlag var f
  | AppendVarFlag var f v => appendVarFlag python_eval loop_fuel depth var f v
  | PrependVarFlag var f v => prependVarFlag python_eval loop_fuel depth var f v
  | SetVarFlags var fl => setVarFlags var fl
  | DelVarFlags var => delVarFlags var
  end.

(** Calls one after the other, whether they return or raise. *)
Definition run_requests (l : list request) (w : world) : world := foldl (λ w r, (run_request r w).1) w l.

Lemma keeps_request r : keeps (run_request r).
Proof.
  destruct r; cbn [run_request]; keep; [keeping delVarFlag|keeping appendVarFlag|keeping prependVarFlag|..].
  - keeping setVarFlags.
  - keeping delVarFlags.
Qed.

Lemma run_requests_own l w : only_own w (run_requests l w).
Proof.
  revert w. induction l as [|r l IH]; intros w; cbn; [reflexivity|]. etrans; [apply keeps_request|apply IH].
Qed.
End reading.

(** ** Copies *)

(** Dictionaries are linked to older ones, and the store has one. *)
Record heap_ok (w : world) : Prop := {
  ho_links : ∀ l y l', w_layers w !! l = Some y → l_data y = Some l' → l' < l;
  ho_self : is_Some (w_layers w !! d_dict (w_self w))
}.

(** Looking up does not see newer dictionaries. *)
Lemma find_in_older w w' n n' l var :
  (∀ l y l', w_layers w !! l = Some y → l_data y = Some l' → l' < l) →
  (∀ k, k ≤ l → w_layers w' !! k = w_layers w !! k) →
  l < n → l < n' → find_in w' n' l var = find_in w n l var.
Proof.
  intros Hl. revert n' l. induction n as [|n IH]; intros n' l Hw Hn Hn'; [lia|]. destruct n' as [|n']; [lia|].
  cbn [find_in]. unfold layer_at. rewrite Hw by done. destruct (dget _ var); [done|].
  destruct (w_layers w !! l) as [y|] eqn:E; cbn; [|done]. destruct (l_data y) as [l'|] eqn:E'; [|done].
  pose proof (Hl _ _ _ E E'). apply IH; [|lia..]. intros k Hk. apply Hw. lia.
Qed.

Lemma copy_fresh w l : is_Some (w_layers w !! l) → l < d_dict (createCopy w).2.
Proof.
  intros Hl. cbn. apply elem_of_dom, elem_of_elements in Hl. revert Hl. generalize (elements (dom (w_layers w))).
  intros ls. induction ls as [|x ls IH]; [by intros ?%elem_of_nil|]. intros [->|H%IH]%elem_of_cons; simpl; lia.
Qed.

Lemma copy_layers w l : l ≠ d_dict (createCopy w).2 → w_layers (createCopy w).1 !! l = w_layers w !! l.
Proof. intros Hl. cbn in *. by rewrite lookup_insert_ne. Qed.

Section isolation.
Context `{!SetOrder string}.
Context (python_eval : option string → string → M world python_result) (loop_fuel depth : nat).

End isolation.

(** ** Examples *)

#[local] Existing Instance set_order_elements.

Definition no_eval (_ : option string) (_ : string) : M world python_result :=
  raise RuntimeError.

Definition discarded (m : M world unit) (w : world) : world := (m w).1.

(** A store with one variable, one of its variants active. *)
Definition one_variable : world :=
  discarded (setVar no_eval 5 5 "OVERRIDES" "arm" false) (discarded (setVar no_eval 5 5 "A" "1" false) new_world).

Definition some_requests : list request :=
  [SetVar "A" "2" false; SetVar "A_append" "3" false; GetVar "A" true; DelVar "OVERRIDES"; SetVarFlag "A" "doc" (VStr "d");
   RenameVar "A" "B"].

Lemma one_variable_ok : heap_ok one_variable.
Proof.
  split; [|vm_compute; eauto]. intros l y l' Hy Hl.
  assert (map_Forall (λ l y, match l_data y with Some l' => bool_decide (l' < l) | None => true end = true) (w_layers one_variable)) as H
    by by_eval.
  specialize (H l y Hy). cbn beta in H. rewrite Hl in H. by apply bool_decide_eq_true_1 in H.
Qed.


(** The exported variables are a set that is changed in place: marking a
    variable in a copy marks it in the store, once the store has the set. *)
Lemma exportlist_shared :
  let w := discarded (setVarFlag no_eval 5 5 "A" "export" (VStr "1")) new_world in
  let '(w1, copy) := createCopy w in
  let w2 := run_requests no_eval 5 5 [SetVarFlag "B" "export" (VStr "1")] (with_self copy w1) in
  (getVar no_eval 5 5 "__exportlist" false w).2 = Ok (Some (VSet {["A"]})) ∧
  (getVar no_eval 5 5 "__exportlist" false (with_self (w_self w) w2)).2 = Ok (Some (VSet {["A"; "B"]})).
Proof. vm_compute. split; reflexivity. Qed.

(** An operation on a variable without underscore makes it a variant of the
    variable whose name is its own less the last letter. *)
Lemma append_makes_variant :
  let w := run_requests no_eval 5 5
    [SetVar "OVERRIDES" "dirs" false; SetVar "dir" "/a" false; SetVar "dirs_append" " /b" false] new_world in
  (getVar no_eval 5 5 "dir" true w).2 = Ok (Some (VStr " /b")).
Proof. vm_compute. reflexivity. Qed.

(** Deleting a variant for an override of digits leaves it in the table. *)
Lemma numeric_variant_stays :
  let w := run_requests no_eval 5 5 [SetVar "A_1" "x" false; DelVar "A_1"; SetVar "A_b" "x" false; DelVar "A_b"] new_world in
  dget (overridedata (w_self w)) "A" = Some [("A_1", "1")].
Proof. vm_compute. reflexivity. Qed.

(** An expansion of OVERRIDES that raises leaves the store without overrides. *)
Lemma failed_overrides_stay :
  let w := run_requests no_eval 5 5
    [SetVar "OVERRIDES" "${OVERRIDES}" false; SetVar "A" "1" false; SetVar "A_arm" "2" false; GetVar "A" true;
     SetVar "OVERRIDES" "arm" false] new_world in
  inoverride (w_self w) = true ∧ (getVar no_eval 5 5 "A" true w).2 = Raise TypeError.
Proof. vm_compute. split; reflexivity. Qed.

(** The cache of expanded values does not know whether weak defaults count. *)
Lemma weak_default_cached :
  let w := run_requests no_eval 5 5 [SetVarFlag "A" "_defaultval" (VStr "weak")] new_world in
  let w' := run_requests no_eval 5 5 [GetVarFlag (FlagCall "A" "_content" true true false false)] w in
  (getVar no_eval 5 5 "A" true w).2 = Ok (Some (VStr "weak")) ∧ (getVar no_eval 5 5 "A" true w').2 = Ok None.
Proof. vm_compute. split; reflexivity. Qed.
