(* ===== verification/VarDeps.v ===== *)
(** * Dependencies between variables (bb/data.py)

    What the value of a variable depends on, the closure of that over the tasks
    of a recipe, and the base hash of a task, which is made of the values of
    all it depends on. *)

From Stdlib Require Import Ascii String.
From S2P Require Import Prelude.
From S2P Require Import PyStr.
From S2P Require Import PyDict.
From S2P Require Import DataStore.

Abbreviation dict V := (list (string * V)).

(** What the Python parser finds in the code of a task. *)
Record python_code : Type := PythonCode {
  pc_references : gset string;
  pc_execs : gset string;
  pc_contains : gmap string (gset string)
}.

(** [sub in s] for strings. *)
Fixpoint str_in (sub s : string) : bool :=
  String.prefix sub s || match s with "" => false | String _ s' => str_in sub s' end.

(** A value whose string methods are called. *)
Definition as_text (v : option value) : res string :=
  match v with Some (VStr s) => Ok s | _ => Raise AttributeError end.

(** [(v or "").split()] *)
Definition words_of (v : option value) : res (list string) :=
  if truthy v then s ← as_text v; Ok (split_ws s) else Ok [].

(** [set(flags[name].split())] when the flag is there. *)
Definition flag_words (flags : dict value) (name : string) : res (gset string) :=
  match dget flags name with
  | None => Ok ∅
  | Some v => s ← as_text (Some v); Ok (list_to_set (split_ws s))
  end.

Definition set_sorted (s : gset string) : list string := py_sorted (elements s).

Section dependencies.
Context `{!SetOrder string}.
Context (python_eval : option string → string → data python_result) (loop_fuel depth : nat).
(** The parsers of codeparser.py, given the variable and its text. *)
Context (parse_python : string → option value → res python_code) (parse_shell : string → option value → res (gset string)).

Abbreviation get_flag := (get_flag python_eval loop_fuel depth).

(** [d.getVarFlag(key, flag, False, retparser=True)] *)
Definition read_parse (key flag : string) : data (option value * parse) :=
  '(v, p) ← get_flag (FlagCall key flag false false false true);
  p ← lift (of_option TypeError p);
  mret (v, p).

(** Whether every word of the item is in the value. *)
Definition item_set (l : list string) (item : string) : bool :=
  forallb (λ word, bool_decide (word ∈ l)) (split_ws item).

Definition item_line (k : string) (l : list string) (item : string) : string :=
  str1 newline +s+ k +s+ "{" +s+ item +s+ "} = " +s+ (if item_set l item then "Set" else "Unset").

Fixpoint contains_lines (contains : gmap string (gset string)) (keys : list string) : data string :=
  match keys with
  | [] => mret ""
  | k :: keys =>
      v ← getVar python_eval loop_fuel depth k true;
      l ← lift (words_of v);
      rest ← contains_lines contains keys;
      mret (String.concat "" (List.map (item_line k l) (set_sorted (default ∅ (contains !! k)))) +s+ rest)
  end.

(** [handle_contains] *)
Definition handle_contains (v : option value) (contains : gmap string (gset string)) : data (option value) :=
  newvalue ← contains_lines contains (set_sorted (dom contains));
  if str_empty newvalue then mret v
  else if truthy v then s ← lift (as_str v); mret (Some (VStr (s +s+ newvalue)))
  else mret (Some (VStr newvalue)).

Definition remove_line (r : string) : string := str1 newline +s+ "_remove of " +s+ r.

(** [handle_remove]: the new value, and what is added to the caller's [deps];
    after the first round [deps] is another set than the caller's. *)
Fixpoint handle_remove (first : bool) (removes : list string) (value : string) (deps : gset string) : data (string * gset string) :=
  match removes with
  | [] => mret (value, deps)
  | r :: removes =>
      p ← expandWithRefs python_eval loop_fuel (getVarFlag python_eval loop_fuel depth) (Some (VStr r)) None;
      handle_remove false removes (value +s+ remove_line r) (if first then p_references p ∪ deps else deps)
  end.

Definition removes_of (v : option value) (p : parse) (deps : gset string) : data (option value * gset string) :=
  match p_removes p with
  | None => mret (v, deps)
  | Some removes =>
      match set_sorted removes with
      | [] => mret (v, deps)
      | l => s ← lift (as_str v); '(s, deps) ← handle_remove true l s deps; mret (Some (VStr s), deps)
      end
  end.

(** [key[:-1].split('[')] for a flag of a variable. *)
Definition flag_key (key : string) : res (string * string) :=
  match split_on "[" (str_drop_last 1 key) with v :: f :: _ => Ok (v, f) | _ => Raise IndexError end.

Definition expanded_flags : list string :=
  ["vardeps"; "vardepvalue"; "vardepsexclude"; "exports"; "postfuncs"; "prefuncs"; "lineno"; "filename"].

(** The value of a function: Python code, or shell code that is expanded. *)
Definition function_value (key : string) (keys shelldeps : gset string) (flags : dict value) : data (option value * gset string) :=
  '(v, deps) ←
    (if truthy (dget flags "python") then
       v ← read_flag python_eval loop_fuel depth key "_content" false;
       c ← lift (parse_python key v);
       v ← handle_contains v (pc_contains c);
       mret (v, pc_references c ∪ (keys ∩ pc_execs c))
     else
       '(v, p) ← read_parse key "_content";
       execs ← lift (parse_shell key (p_value p));
       v ← handle_contains v (p_contains p);
       removes_of v p (shelldeps ∪ p_references p ∪ (keys ∩ execs) ∪ (keys ∩ p_execs p)));
  pre ← lift (flag_words flags "prefuncs");
  post ← lift (flag_words flags "postfuncs");
  exports ← lift (flag_words flags "exports");
  mret (v, deps ∪ pre ∪ post ∪ exports).

(** The value that is hashed and what it refers to, before the flags that list
    dependencies. *)
Definition variable_value (key : string) (keys shelldeps : gset string) (flags : dict value) : data (option value * gset string) :=
  match dget flags "vardepvalue" with
  | Some v => mret (Some v, ∅)
  | None =>
      if truthy (dget flags "func") then function_value key keys shelldeps flags
      else
        '(v, p) ← read_parse key "_content";
        v ← handle_contains v (p_contains p);
        removes_of v p (p_references p ∪ (keys ∩ p_execs p))
  end.

(** [vardepvalueexclude]: the texts that do not count. *)
Definition exclude_texts (flags : dict value) (v : option value) : res (option value) :=
  match dget flags "vardepvalueexclude" with
  | None => Ok v
  | Some x =>
      x ← as_text (Some x);
      fold_res (λ v excl, s ← as_text v; Ok (Some (VStr (replace s excl ""))))
        v (List.filter (λ e, negb (str_empty e)) (split_on "|" x))
  end.

(** The flags that count; the list of those that do not is a string, of which
    the name may be any part. *)
Definition flag_deps (key : string) (flags : dict value) (varflagsexcl : option value) : res (gset string) :=
  if truthy varflagsexcl then
    excl ← as_str varflagsexcl;
    Ok (list_to_set (List.map (λ f, key +s+ "[" +s+ f +s+ "]") (List.filter (λ f, negb (str_in f excl)) (dkeys flags))))
  else Ok ∅.

(** [build_dependencies] *)
Definition build_dependencies (key : string) (keys shelldeps : gset string) (varflagsexcl : option value) :
    data (gset string * option value) :=
  if str_empty key then raise IndexError
  else if endswith key "]" then
    '(var, flag) ← lift (flag_key key);
    '(v, p) ← read_parse var flag;
    mret (p_references p ∪ (keys ∩ p_execs p), v)
  else
    flags ← getVarFlags python_eval loop_fuel depth key expanded_flags false;
    let flags := default [] flags in
    '(v, deps) ← variable_value key keys shelldeps flags;
    v ← lift (exclude_texts flags v);
    fdeps ← lift (flag_deps key flags varflagsexcl);
    vardeps ← lift (words_of (dget flags "vardeps"));
    exclude ← lift (flag_words flags "vardepsexclude");
    mret ((deps ∪ fdeps ∪ list_to_set vardeps) ∖ exclude, v).

(** ** The closure *)

(** The tables [deps] and [values]. *)
Definition dep_tables : Type := dict (gset string) * dict (option value).

Section closure.
Context (build : string → data (gset string * option value)) (whitelist : gset string).

Definition build_into (key : string) (t : dep_tables) : data dep_tables :=
  '(deps, v) ← build key;
  mret (dset t.1 key deps, dset t.2 key v).

(** [for dep in nextdeps] *)
Fixpoint build_round (l : list string) (newdeps : gset string) (t : dep_tables) : data (gset string * dep_tables) :=
  match l with
  | [] => mret (newdeps, t)
  | dep :: l =>
      t ← (if dmem t.1 dep then mret t else build_into dep t);
      deps ← lift (of_option KeyError (dget t.1 dep));
      build_round l (newdeps ∪ deps) t
  end.

(** [while newdeps] *)
Fixpoint build_closure (n : nat) (newdeps seen : gset string) (t : dep_tables) : data dep_tables :=
  match n with
  | O => raise OutOfFuel
  | S n =>
      if bool_decide (newdeps = ∅) then mret t
      else
        let nextdeps := newdeps ∖ whitelist in
        let seen := seen ∪ nextdeps in
        '(newdeps, t) ← build_round (set_iter nextdeps) ∅ t;
        build_closure n (newdeps ∖ seen) seen t
  end.

Fixpoint build_tasks (l : list string) (t : dep_tables) : data dep_tables :=
  match l with
  | [] => mret t
  | task :: l =>
      t ← build_into task t;
      deps ← lift (of_option KeyError (dget t.1 task));
      t ← build_closure loop_fuel deps ∅ t;
      build_tasks l t
  end.
End closure.

(** The members of a set or list. *)
Definition members (v : option value) : res (list string) :=
  match v with
  | Some (VSet s) => Ok (set_iter s)
  | Some (VList l) => Ok l
  | Some (VStr s) => Ok (List.map str1 (list_ascii_of_string s))
  | _ => Raise TypeError
  end.

(** The exported variables. *)
Fixpoint exported (l : list string) : data (gset string) :=
  match l with
  | [] => mret ∅
  | key :: l =>
      e ← read_flag python_eval loop_fuel depth key "export" false;
      u ← (if truthy e then read_flag python_eval loop_fuel depth key "unexport" false else mret None);
      rest ← exported l;
      mret (if truthy e && negb (truthy u) then {[key]} ∪ rest else rest)
  end.

(** [generate_dependencies] *)
Definition generate_dependencies (whitelist : gset string) : data (list string * dep_tables) :=
  all ← data_keys python_eval loop_fuel depth;
  let keys : gset string := list_to_set (List.filter (λ k, negb (startswith k "__")) (elements all)) in
  exports ← getVar python_eval loop_fuel depth "__exportlist" false;
  exports ← lift (members exports);
  shelldeps ← exported exports;
  varflagsexcl ← getVar python_eval loop_fuel depth "BB_SIGNATURE_EXCLUDE_FLAGS" true;
  tasks ← getVar python_eval loop_fuel depth "__BBTASKS" false;
  tasklist ← lift (if truthy tasks then members tasks else Ok []);
  t ← build_tasks (λ key, build_dependencies key keys shelldeps varflagsexcl) whitelist tasklist ([], []);
  mret (tasklist, t).
End dependencies.

(** ** Base hashes *)

Section base_hash.
Context `{!SetOrder string}.
(** [hashlib.sha256(data.encode("utf-8")).hexdigest()] *)
Context (sha256 : string → string).
(** [str(v)] of a value that is no string. *)
Context (str_of : value → string).

Definition value_text (v : value) : string := match v with VStr s => s | _ => str_of v end.

Context (whitelist : gset string).

(** [gendeps[k] -= whitelist] *)
Definition drop_whitelist (gendeps : dict (gset string)) (k : string) : res (dict (gset string)) :=
  deps ← of_option KeyError (dget gendeps k);
  Ok (dset gendeps k (deps ∖ whitelist)).

(** One round of the loop over [nextdeps]. *)
Definition reach_round (l : list string) (gendeps : dict (gset string)) : res (gset string * dict (gset string)) :=
  fold_res (λ st dep,
    let '(newdeps, gendeps) := st in
    if bool_decide (dep ∈ whitelist) then Ok (newdeps, gendeps)
    else
      gendeps ← drop_whitelist gendeps dep;
      Ok (newdeps ∪ default ∅ (dget gendeps dep), gendeps)) (∅, gendeps) l.

Fixpoint reach_loop (n : nat) (newdeps seen : gset string) (gendeps : dict (gset string)) :
    res (gset string * dict (gset string)) :=
  match n with
  | O => Raise OutOfFuel
  | S n =>
      if bool_decide (newdeps = ∅) then Ok (seen, gendeps)
      else
        let seen := seen ∪ newdeps in
        '(newdeps, gendeps) ← reach_round (set_iter newdeps) gendeps;
        reach_loop n (newdeps ∖ seen) seen gendeps
  end.

(** The text of a task's value, then the names and values of what it depends on. *)
Definition base_data (lookupcache : dict (option value)) (start : string) (alldeps : list string) : res string :=
  fold_res (λ data dep,
    var ← of_option KeyError (dget lookupcache dep);
    Ok (data +s+ dep +s+ match var with Some v => value_text v | None => "" end)) start alldeps.

(** The text a task's hash starts with. *)
Definition start_text (data : option value) (alldeps : list string) : res string :=
  match data with
  | None => Ok ""
  | Some (VStr s) => Ok s
  | Some _ => Raise (if bool_decide (alldeps = []) then AttributeError else TypeError)
  end.

Definition hash_one (lookupcache : dict (option value)) (fn : string)
    (st : dict (gset string) * dict (list string) * dict string) (task : string) :
    res (dict (gset string) * dict (list string) * dict string) :=
  let '(gendeps, taskdeps, basehash) := st in
  data ← of_option KeyError (dget lookupcache task);
  gendeps ← drop_whitelist gendeps task;
  '(seen, gendeps) ← reach_loop (2 + List.length gendeps) (default ∅ (dget gendeps task)) ∅ gendeps;
  let alldeps := set_sorted seen in
  start ← start_text data alldeps;
  data ← base_data lookupcache start alldeps;
  Ok (gendeps, dset taskdeps task alldeps, dset basehash (fn +s+ ":" +s+ task) (sha256 data)).

(** [generate_dependency_hash]; the dependencies are left without the
    whitelist. *)
Definition generate_dependency_hash (tasklist : list string) (t : dep_tables) (fn : string) :
    res (dict (gset string) * dict (list string) * dict string) :=
  fold_res (hash_one t.2 fn) (t.1, [], []) tasklist.
End base_hash.
