(* ===== verification/VarDepsOk.v ===== *)
(** * What a base hash is made of (bb/data.py)

    The tables that [generate_dependencies] returns are closed, so that the
    base hashes can be computed from them, and the base hash of a task is the
    hash of the values of exactly the variables it depends on. *)

From Stdlib Require Import Ascii String.
From S2P Require Import Prelude.
From S2P Require Import PyStr.
From S2P Require Import PyDict.
From S2P Require Import Runs.
From S2P Require Import DataStore.
From S2P Require Import VarDeps.

Section tables.
Context `{!SetOrder string}.
Context (whitelist : gset string).

(** [k] refers to [d], which counts. *)
Definition uses (g : dict (gset string)) (k d : string) : Prop :=
  ∃ deps, dget g k = Some deps ∧ d ∈ deps ∧ d ∉ whitelist.

(** Every entry has a value, and what it refers to has an entry. *)
Definition complete (t : dep_tables) : Prop :=
  ∀ k, is_Some (dget t.1 k) → is_Some (dget t.2 k) ∧ ∀ d, uses t.1 k d → is_Some (dget t.1 d).

(** ** The tables are complete *)

Section closure.
Context (build : string → M world (gset string * option value)).

(** Entries are not changed, and each has a value. *)
Definition grows (t t' : dep_tables) : Prop :=
  ((∀ k, is_Some (dget t.1 k) → is_Some (dget t.2 k)) → ∀ k, is_Some (dget t'.1 k) → is_Some (dget t'.2 k)) ∧
  ∀ k deps, dget t.1 k = Some deps → dget t'.1 k = Some deps.

#[local] Instance grows_preorder : PreOrder grows.
Proof. split; [by split|]. intros a b c [A1 A2] [B1 B2]. split; [auto|]. intros k deps H. apply B2. by apply A2. Qed.

Lemma build_into_ok key t w :
  returns w (build_into build key t) (λ t' _,
    ((∀ k, is_Some (dget t.1 k) → is_Some (dget t.2 k)) → ∀ k, is_Some (dget t'.1 k) → is_Some (dget t'.2 k)) ∧
    is_Some (dget t'.1 key) ∧ ∀ k, k ≠ key → dget t'.1 k = dget t.1 k).
Proof.
  unfold build_into. eapply (returns_bind _ _ _ (λ _ _, True)); [unfold returns; by destruct (build key w) as [? []]|].
  intros [deps v] w' _. apply returns_ret. cbn [fst snd]. split; [|split].
  - intros Ht k. rewrite !dget_dset. case_decide; [by eexists|apply Ht].
  - rewrite dget_dset_eq. by eexists.
  - intros k Hk. by rewrite dget_dset_ne.
Qed.

Lemma build_round_ok l newdeps t w :
  returns w (build_round build l newdeps t) (λ r _,
    grows t r.2 ∧ newdeps ⊆ r.1 ∧ (∀ k, is_Some (dget r.2.1 k) → is_Some (dget t.1 k) ∨ k ∈ l) ∧
    ∀ dep, dep ∈ l → ∃ deps, dget r.2.1 dep = Some deps ∧ deps ⊆ r.1).
Proof.
  revert newdeps t w. induction l as [|dep l IH]; intros newdeps t w; cbn [build_round].
  { apply returns_ret. split; [reflexivity|]. split; [done|]. split; [by left|]. by intros ? ?%elem_of_nil. }
  eapply (returns_bind _ _ _ (λ t' _, grows t t' ∧ is_Some (dget t'.1 dep) ∧ ∀ k, k ≠ dep → dget t'.1 k = dget t.1 k)).
  { destruct (dmem t.1 dep) eqn:E.
    - apply returns_ret. split; [reflexivity|]. split; [|done]. apply dmem_spec, elem_of_dkeys in E as [? ?]. by eexists.
    - apply dmem_false, dget_None in E. eapply returns_mono; [apply build_into_ok|].
      intros t' _ (H1 & H2 & H3). split; [|done]. split; [done|]. intros k deps Hk. rewrite H3; [done|]. congruence. }
  intros t' w' (Hg & [deps Hd] & Hother). rewrite Hd. cbn [of_option]. apply returns_lift_bind. intros ? [= <-].
  eapply returns_mono; [apply IH|]. intros [nd t''] _ (Hg' & Hsub & Hnew & Hl). split; [by etrans|]. cbn [fst snd] in *.
  split; [set_solver|]. split.
  { intros k [Hk|Hk]%Hnew; [|right; by apply list_elem_of_further]. destruct (decide (k = dep)) as [->|Hkd].
    - right. apply list_elem_of_here.
    - left. by rewrite <-Hother. }
  intros x [->|Hx]%elem_of_cons; [|by apply Hl]. exists deps. split; [by apply Hg'|]. set_solver.
Qed.

(** Everything seen has an entry whose references are seen or to come. *)
Lemma build_closure_ok n newdeps seen t w :
  (∀ d, d ∈ seen → ∃ deps, dget t.1 d = Some deps ∧ deps ∖ whitelist ⊆ seen ∪ newdeps) →
  returns w (build_closure build whitelist n newdeps seen t) (λ t' _,
    grows t t' ∧ ∃ seen', seen ∪ (newdeps ∖ whitelist) ⊆ seen' ∧
      (∀ k, is_Some (dget t'.1 k) → is_Some (dget t.1 k) ∨ k ∈ seen') ∧
      ∀ d, d ∈ seen' → ∃ deps, dget t'.1 d = Some deps ∧ deps ∖ whitelist ⊆ seen').
Proof.
  revert newdeps seen t w. induction n as [|n IH]; intros newdeps seen t w Hseen; cbn [build_closure]; [apply returns_raise|].
  case_bool_decide as Hn.
  { apply returns_ret. split; [reflexivity|]. exists seen. subst. split; [set_solver|]. split; [by left|].
    intros d Hd. destruct (Hseen d Hd) as (deps & E & Hs). exists deps. split; [done|]. set_solver. }
  eapply returns_bind; [apply build_round_ok|]. intros [nd t'] w' (Hg & _ & Hnew & Hl). cbn [fst snd] in *.
  eapply returns_mono; [apply IH|].
  - intros d [Hd|Hd]%elem_of_union.
    + destruct (Hseen d Hd) as (deps & E & Hs). exists deps. split; [by apply Hg|]. clear -Hs.
      intros x Hx. specialize (Hs x Hx). set_solver.
    + destruct (Hl d) as (deps & E & Hs); [by apply elem_of_set_iter|]. exists deps. split; [done|]. clear -Hs.
      intros x Hx. destruct (decide (x ∈ seen ∪ newdeps ∖ whitelist)); set_solver.
  - intros t'' _ (Hg' & seen' & Hs & Hn' & Hc). split; [by etrans|]. exists seen'. split; [clear -Hs; set_solver|].
    split; [|done]. intros k [[Hk|Hk]%Hnew|Hk]%Hn'; [by left|right|by right]. apply elem_of_set_iter in Hk. clear -Hs Hk. set_solver.
Qed.

Lemma build_tasks_ok loop_fuel l t w :
  complete t →
  returns w (build_tasks loop_fuel build whitelist l t) (λ t' _,
    complete t' ∧ (∀ k, is_Some (dget t.1 k) → is_Some (dget t'.1 k)) ∧ ∀ task, task ∈ l → is_Some (dget t'.1 task)).
Proof.
  revert t w. induction l as [|task l IH]; intros t w Ht; cbn [build_tasks].
  { apply returns_ret. split; [done|]. split; [done|]. by intros ? ?%elem_of_nil. }
  eapply returns_bind; [apply build_into_ok|]. intros t1 w1 (Hv1 & [deps Hd] & Ho1). rewrite Hd. cbn [of_option].
  apply returns_lift_bind. intros ? [= <-].
  eapply returns_bind; [apply build_closure_ok; by intros ? ?%elem_of_empty|].
  intros t2 w2 ([Hv2 Hg2] & seen & Hs & Hnew & Hc).
  assert (complete t2) as Ht2.
  { intros k Hk. split; [apply Hv2; [apply Hv1; by apply Ht|done]|]. intros d (ds & Ek & Hin & Hw).
    assert (k ∈ seen → is_Some (dget t2.1 d)) as Hseen.
    { intros (ds' & E' & Hsub)%Hc. assert (ds' = ds) as -> by congruence. destruct (Hc d) as (? & ? & _); [set_solver|]. by eexists. }
    destruct (Hnew k Hk) as [Hk1|]; [|by apply Hseen]. destruct (decide (k = task)) as [->|Hkt].
    - destruct (Hc d) as (? & E & _); [|by eexists]. apply Hg2 in Hd. assert (deps = ds) as -> by congruence. set_solver.
    - rewrite Ho1 in Hk1 by done. destruct (Ht k Hk1) as [_ Hu]. destruct Hk1 as [ds' E'].
      assert (dget t2.1 k = Some ds') as E2 by (apply Hg2; by rewrite Ho1). assert (ds' = ds) as -> by congruence.
      destruct (decide (d = task)) as [->|Hdt]; [apply Hg2 in Hd; by eexists|].
      destruct (Hu d) as [? Ed]; [by exists ds|]. rewrite <-Ho1 in Ed by done. apply Hg2 in Ed. by eexists. }
  eapply returns_mono; [by apply IH|]. intros t3 _ (H1 & H2 & H3). split; [done|]. split.
  - intros k [ds Hk]. apply H2. destruct (decide (k = task)) as [->|Hkt]; [apply Hg2 in Hd; by eexists|].
    rewrite <-Ho1 in Hk by done. apply Hg2 in Hk. by eexists.
  - intros x [->|Hx]%elem_of_cons; [|by apply H3]. apply H2. apply Hg2 in Hd. by eexists.
Qed.

(** ** The loop over what is new ends *)

(** What is referred to has one of finitely many names. *)
Context (names : gset string).

Definition within (t : dep_tables) : Prop := ∀ k deps, dget t.1 k = Some deps → deps ⊆ names.

Section bounded.
Hypothesis Hbuild : ∀ key, always_yields (build key) (λ r, r.1 ⊆ names).

Lemma build_into_within key t : within t → always_yields (build_into build key t) within.
Proof.
  intros Ht. eapply ay_bind; [apply Hbuild|]. intros [deps v] Hd. apply ay_ret. intros k ds. cbn [fst].
  rewrite dget_dset. case_decide; [|apply Ht]. by intros [= <-].
Qed.

Lemma build_round_within l newdeps t :
  within t → newdeps ⊆ names →
  always_yields (build_round build l newdeps t) (λ r, within r.2 ∧ r.1 ⊆ names ∧ (l = [] → r.1 = newdeps)).
Proof.
  revert newdeps t. induction l as [|dep l IH]; intros newdeps t Ht Hn; cbn [build_round]; [by apply ay_ret|].
  eapply (ay_bind _ _ within).
  { destruct (dmem t.1 dep); [by apply ay_ret|by apply build_into_within]. }
  intros t' Ht'. eapply ay_lift_bind; [by apply yields_option|]. cbn beta. intros deps Hd.
  eapply ay_mono; [apply IH; [done|]|by intros r (? & ? & _)]. apply Ht' in Hd. set_solver.
Qed.

Lemma build_closure_ends n newdeps seen t :
  within t → newdeps ⊆ names ∖ seen → size (names ∖ seen) + 2 ≤ n →
  always_yields (build_closure build whitelist n newdeps seen t) within.
Proof.
  revert newdeps seen t. induction n as [|n IH]; intros newdeps seen t Ht Hn Hsize; cbn [build_closure]; [lia|].
  case_bool_decide; [by apply ay_ret|]. eapply ay_bind; [apply build_round_within; [done|set_solver]|].
  intros [nd t'] (Ht' & Hnd & Hempty). cbn [fst snd] in *.
  destruct (decide (newdeps ∖ whitelist = ∅)) as [E|[x Hx]%set_choose_L].
  - rewrite Hempty by (apply elem_of_nil_inv; intros x; rewrite elem_of_set_iter; set_solver). destruct n; [lia|]. cbn [build_closure].
    rewrite bool_decide_true by set_solver. by apply ay_ret.
  - apply IH; [done|set_solver|].
    assert (size (names ∖ (seen ∪ newdeps ∖ whitelist)) < size (names ∖ seen)); [|lia].
    apply subset_size. split; [set_solver|]. intros Hs. assert (x ∈ names ∖ seen) by set_solver.
    assert (x ∈ names ∖ (seen ∪ newdeps ∖ whitelist)) by by apply Hs. set_solver.
Qed.

Lemma build_tasks_ends n l t :
  within t → size names + 2 ≤ n → always_yields (build_tasks n build whitelist l t) within.
Proof.
  intros Ht Hn. revert t Ht. induction l as [|task l IH]; intros t Ht; cbn [build_tasks]; [by apply ay_ret|].
  eapply ay_bind; [by apply build_into_within|]. intros t1 Ht1.
  eapply ay_lift_bind; [by apply yields_option|]. cbn beta. intros deps Hd. apply Ht1 in Hd.
  eapply ay_bind; [apply build_closure_ends; [done|set_solver|]|apply IH].
  by replace (names ∖ ∅) with names by set_solver.
Qed.
End bounded.
End closure.

(** ** What is reached *)

Section reach.
Context (g0 : dict (gset string)) (vals : dict (option value)).
Hypothesis Hcomplete : complete (g0, vals).

(** The dependencies, some of them without the whitelist already. *)
Definition dropped (g : dict (gset string)) : Prop :=
  List.length g = List.length g0 ∧ ∀ k, (λ s, s ∖ whitelist) <$> dget g k = (λ s, s ∖ whitelist) <$> dget g0 k.

Lemma dropped_has g k : dropped g → is_Some (dget g0 k) → is_Some (dget g k).
Proof. intros [_ H] [s Hk]. specialize (H k). rewrite Hk in H. destruct (dget g k); [by eexists|done]. Qed.

Lemma drop_whitelist_ok g k :
  dropped g → is_Some (dget g0 k) →
  ∃ g' deps, drop_whitelist whitelist g k = Ok g' ∧ dropped g' ∧ dget g' k = Some deps ∧ ∀ d, d ∈ deps ↔ uses g0 k d.
Proof.
  intros Hg Hk. destruct (dropped_has g k Hg Hk) as [s E]. unfold drop_whitelist. rewrite E. cbn [of_option mbind res_bind].
  exists (dset g k (s ∖ whitelist)), (s ∖ whitelist). split; [done|]. destruct Hg as [Hl Hg]. split; [split|split].
  - rewrite <-Hl. assert (∀ v, List.length (dset g k v) = List.length (dkeys (dset g k v))) as H1 by (intros; unfold dkeys; by rewrite length_map).
    rewrite H1, dkeys_dset. assert (dmem g k = true) as -> by (apply dmem_spec, elem_of_dkeys; by eexists). unfold dkeys. by rewrite length_map.
  - intros x. rewrite <-Hg, dget_dset. case_decide; [subst; rewrite E; cbn; f_equal; set_solver|done].
  - by rewrite dget_dset_eq.
  - intros d. specialize (Hg k). rewrite E in Hg. destruct Hk as [s0 E0]. rewrite E0 in Hg. cbn in Hg. injection Hg as Hs.
    rewrite Hs, elem_of_difference. unfold uses. split; [intros []; by exists s0|intros (? & ? & ? & ?); by simplify_eq].
Qed.

Lemma reach_round_ok l g :
  dropped g → (∀ k, k ∈ l → is_Some (dget g0 k) ∧ k ∉ whitelist) →
  ∃ new g', reach_round whitelist l g = Ok (new, g') ∧ dropped g' ∧ ∀ d, d ∈ new ↔ ∃ k, k ∈ l ∧ uses g0 k d.
Proof.
  intros Hg Hl. unfold reach_round.
  assert (∀ new0, ∃ new g', fold_res (λ st dep, let '(newdeps, gendeps) := st in
      if bool_decide (dep ∈ whitelist) then Ok (newdeps, gendeps)
      else gendeps ← drop_whitelist whitelist gendeps dep; Ok (newdeps ∪ default ∅ (dget gendeps dep), gendeps))
      (new0, g) l = Ok (new, g') ∧ dropped g' ∧ ∀ d, d ∈ new ↔ d ∈ new0 ∨ ∃ k, k ∈ l ∧ uses g0 k d) as H.
  { revert g Hg. induction l as [|k l IH]; intros g Hg new0; cbn [fold_res].
    { exists new0, g. split; [done|]. split; [done|]. intros d. split; [by left|]. by intros [?|(? & ?%elem_of_nil & _)]. }
    destruct (Hl k (list_elem_of_here _ _)) as [Hk Hw]. rewrite bool_decide_eq_false_2 by done.
    destruct (drop_whitelist_ok g k Hg Hk) as (g1 & deps & -> & Hg1 & E1 & Hd). cbn [mbind res_bind]. rewrite E1. cbn [default].
    destruct (IH (λ k' H, Hl k' (list_elem_of_further _ _ _ H)) g1 Hg1 (new0 ∪ deps)) as (new & g' & E & Hg' & Hn).
    exists new, g'. split; [exact E|]. split; [done|]. intros d. rewrite Hn, elem_of_union, Hd. split.
    - intros [[?|?]|(k' & ? & ?)]; [by left|right; exists k; split; [apply list_elem_of_here|done]|].
      right. exists k'. split; [by apply list_elem_of_further|done].
    - intros [?|(k' & [->|?]%elem_of_cons & ?)]; eauto. }
  destruct (H ∅) as (new & g' & E & Hg' & Hn). exists new, g'. split; [exact E|]. split; [done|].
  intros d. rewrite Hn. set_solver.
Qed.

(** A round beyond what was seen. *)
Record frontier (task : string) (newdeps seen : gset string) : Prop := {
  fr_new : newdeps ## seen;
  fr_sound : ∀ d, d ∈ newdeps ∪ seen → tc (uses g0) task d;
  fr_first : ∀ d, uses g0 task d → d ∈ newdeps ∪ seen;
  fr_next : ∀ k d, k ∈ seen → uses g0 k d → d ∈ newdeps ∪ seen
}.

Lemma tc_known task d : is_Some (dget g0 task) → tc (uses g0) task d → is_Some (dget g0 d) ∧ d ∉ whitelist.
Proof.
  intros Ht Hd. induction Hd as [k d Hu|k x d Hu _ IH].
  - split; [by apply (Hcomplete k Ht)|]. by destruct Hu as (? & _ & _ & ?).
  - apply IH. by apply (Hcomplete k Ht).
Qed.

Lemma reach_loop_ok task n newdeps seen g :
  is_Some (dget g0 task) → dropped g → frontier task newdeps seen → List.length g0 < n + size seen →
  ∃ seen' g', reach_loop whitelist n newdeps seen g = Ok (seen', g') ∧ dropped g' ∧ ∀ d, d ∈ seen' ↔ tc (uses g0) task d.
Proof.
  intros Ht. revert newdeps seen g. induction n as [|n IH]; intros newdeps seen g Hg [F1 F2 F3 F4] Hn.
  - exfalso. assert (size seen ≤ List.length g0) as H; [|lia].
    assert (seen ⊆ list_to_set (dkeys g0)) as Hs.
    { intros d Hd. apply elem_of_list_to_set, elem_of_dkeys. apply (tc_known task d Ht). apply F2. set_solver. }
    apply subseteq_size in Hs. pose proof (size_dkeys g0). lia.
  - cbn [reach_loop]. case_bool_decide as Hnd.
    { exists seen, g. split; [done|]. split; [done|]. intros d. split; [intros; apply F2; set_solver|].
      intros Hd. subst newdeps.
      assert (∀ k d, tc (uses g0) k d → (k = task ∨ k ∈ seen) → d ∈ seen) as H; [|eapply H; [exact Hd|by left]].
      clear d Hd. intros k d Hd. induction Hd as [k d Hu|k x d Hu _ IHd]; intros Hk.
      - destruct Hk as [->|Hk]; [apply F3 in Hu|apply (F4 k) in Hu; [|done]]; set_solver.
      - apply IHd. right. destruct Hk as [->|Hk]; [apply F3 in Hu|apply (F4 k) in Hu; [|done]]; set_solver. }
    destruct (reach_round_ok (set_iter newdeps) g Hg) as (new & g' & -> & Hg' & Hnew).
    { intros k Hk. apply elem_of_set_iter in Hk. apply (tc_known task k Ht), F2. set_solver. }
    cbn [mbind res_bind]. assert (∀ d, d ∈ new ↔ ∃ k, k ∈ newdeps ∧ uses g0 k d) as Hnew'.
    { intros d. rewrite Hnew. by setoid_rewrite elem_of_set_iter. }
    apply IH; [done|split|].
    + set_solver.
    + intros d [Hd|Hd]%elem_of_union.
      * apply elem_of_difference in Hd as [(k & Hk & Hu)%Hnew' _]. eapply tc_r; [|exact Hu]. apply F2. set_solver.
      * apply F2. set_solver.
    + intros d Hd. apply F3 in Hd. set_solver.
    + intros k d Hk Hu. destruct (decide (d ∈ seen ∪ newdeps)); [set_solver|]. apply elem_of_union in Hk as [Hk|Hk].
      * apply (F4 k) in Hu; [|done]. set_solver.
      * assert (d ∈ new) by (apply Hnew'; eauto). set_solver.
    + rewrite size_union by set_solver. assert (size newdeps ≠ 0) by (by intros ?%size_empty_iff%leibniz_equiv). lia.
Qed.

(** ** The hash of one task *)

Context (sha256 : string → string) (str_of : value → string).

(** The text of a variable's value. *)
Definition text_of (v : string) : string :=
  match dget vals v with Some (Some x) => value_text str_of x | _ => "" end.

(** What is hashed for a task that depends on these variables. *)
Definition hashed_text (task : string) (alldeps : list string) : string :=
  text_of task +s+ String.concat "" (List.map (λ d, d +s+ text_of d) alldeps).

(** The value of a task is a text, or there is none. *)
Definition is_text (task : string) : Prop := ∃ v, dget vals task = Some v ∧ match v with None | Some (VStr _) => True | _ => False end.

Lemma concat_cons_str s l : String.concat "" (s :: l) = s +s+ String.concat "" l.
Proof. destruct l; cbn; [by rewrite app_empty_r|done]. Qed.

Lemma base_data_ok start l :
  (∀ d, d ∈ l → is_Some (dget vals d)) →
  base_data str_of vals start l = Ok (start +s+ String.concat "" (List.map (λ d, d +s+ text_of d) l)).
Proof.
  unfold base_data. revert start. induction l as [|d l IH]; intros start Hl; cbn [fold_res List.map]; [by rewrite app_empty_r|].
  destruct (Hl d (list_elem_of_here _ _)) as [v E]. rewrite E. cbn [of_option mbind res_bind].
  rewrite IH by (intros; apply Hl; by apply list_elem_of_further). rewrite concat_cons_str. unfold text_of at 2. rewrite E.
  by rewrite !app_str_assoc.
Qed.

(** The variables of a base hash, in order. *)
Record exact_deps (task : string) (alldeps : list string) : Prop := {
  ed_sorted : StronglySorted String.le alldeps;
  ed_nodup : NoDup alldeps;
  ed_all : ∀ v, v ∈ alldeps ↔ tc (uses g0) task v
}.

Lemma set_sorted_ok (s : gset string) : StronglySorted String.le (set_sorted s) ∧ NoDup (set_sorted s) ∧ ∀ x, x ∈ set_sorted s ↔ x ∈ s.
Proof.
  unfold set_sorted, py_sorted. split; [apply StronglySorted_merge_sort; apply _|].
  split; [rewrite merge_sort_Permutation; apply NoDup_elements|]. intros x. rewrite merge_sort_Permutation. apply elem_of_elements.
Qed.

Lemma hash_one_ok fn g td bh task :
  dropped g → is_Some (dget g0 task) → is_text task →
  ∃ g' alldeps, hash_one sha256 str_of whitelist vals fn (g, td, bh) task =
      Ok (g', dset td task alldeps, dset bh (fn +s+ ":" +s+ task) (sha256 (hashed_text task alldeps))) ∧
    dropped g' ∧ exact_deps task alldeps.
Proof.
  intros Hg Ht (v & Ev & Hv). unfold hash_one. rewrite Ev. cbn [of_option mbind res_bind].
  destruct (drop_whitelist_ok g task Hg Ht) as (g1 & deps & -> & Hg1 & E1 & Hd). cbn [mbind res_bind]. rewrite E1. change (default ∅ (Some deps)) with deps.
  destruct (reach_loop_ok task (2 + List.length g1) deps ∅ g1 Ht Hg1) as (seen & g2 & -> & Hg2 & Hs).
  { split; [set_solver|..].
    - intros d [Hin|?%elem_of_empty]%elem_of_union; [|done]. apply tc_once. by apply Hd.
    - intros d Hu. apply elem_of_union_l. by apply Hd.
    - by intros k d ?%elem_of_empty. }
  { rewrite size_empty. pose proof (proj1 Hg1). lia. }
  cbn [mbind res_bind]. destruct (set_sorted_ok seen) as (S1 & S2 & S3).
  assert (start_text v (set_sorted seen) = Ok (text_of task)) as ->.
  { unfold text_of. rewrite Ev. by destruct v as [[]|]. }
  cbn [mbind res_bind]. rewrite base_data_ok.
  - cbn [mbind res_bind]. exists g2, (set_sorted seen). split; [done|]. split; [done|]. split; [done|done|].
    intros x. by rewrite S3, Hs.
  - intros d Hin. apply S3, Hs, (tc_known task d Ht) in Hin as [Hin _]. by apply (Hcomplete d Hin).
Qed.

Lemma base_hashes_ok fn l g td bh :
  dropped g → (∀ task, task ∈ l → is_Some (dget g0 task) ∧ is_text task) →
  ∃ g' td' bh', fold_res (hash_one sha256 str_of whitelist vals fn) (g, td, bh) l = Ok (g', td', bh') ∧
    ∀ task, task ∈ l ∨ (∃ alldeps, dget td task = Some alldeps ∧ exact_deps task alldeps ∧
        dget bh (fn +s+ ":" +s+ task) = Some (sha256 (hashed_text task alldeps))) →
      ∃ alldeps, dget td' task = Some alldeps ∧ exact_deps task alldeps ∧
        dget bh' (fn +s+ ":" +s+ task) = Some (sha256 (hashed_text task alldeps)).
Proof.
  revert g td bh. induction l as [|x l IH]; intros g td bh Hg Hl; cbn [fold_res].
  { exists g, td, bh. split; [done|]. by intros task [?%elem_of_nil|?]. }
  destruct (Hl x (list_elem_of_here _ _)) as [Hx Hxt].
  destruct (hash_one_ok fn g td bh x Hg Hx Hxt) as (g1 & al & -> & Hg1 & Hal). cbn [mbind res_bind].
  destruct (IH g1 (dset td x al) (dset bh (fn +s+ ":" +s+ x) (sha256 (hashed_text x al))) Hg1) as (g' & td' & bh' & E & H).
  { intros; apply Hl; by apply list_elem_of_further. }
  exists g', td', bh'. split; [exact E|]. intros task Ht. apply H. destruct (decide (task = x)) as [->|Hne].
  - right. exists al. rewrite !dget_dset_eq. done.
  - destruct Ht as [[?|?]%elem_of_cons|(ds & H1 & H2 & H3)]; [done|by left|]. right. exists ds.
    rewrite !dget_dset_ne; [done| |done]. intros E'. apply (app_str_inj_l fn), (app_str_inj_l ":") in E'. by apply Hne.
Qed.
End reach.

(** ** Both steps *)

Context (python_eval : option string → string → M world python_result) (loop_fuel depth : nat).
Context (parse_python : string → option value → res python_code) (parse_shell : string → option value → res (gset string)).
Context (sha256 : string → string) (str_of : value → string).

Lemma generated_complete w :
  returns w (generate_dependencies python_eval loop_fuel depth parse_python parse_shell whitelist) (λ r _,
    complete r.2 ∧ ∀ task, task ∈ r.1 → is_Some (dget r.2.1 task)).
Proof.
  unfold generate_dependencies.
  apply returns_then. intros all w1. cbv zeta. apply returns_then. intros exports w2. apply returns_lift_bind. intros ex _.
  apply returns_then. intros sd w3. apply returns_then. intros excl w4. apply returns_then. intros tasks w5.
  apply returns_lift_bind. intros tasklist _. eapply returns_bind; [apply build_tasks_ok; by intros k [? ?]|].
  intros t w6 (Hc & _ & Ht). apply returns_ret. done.
Qed.

(** C23: whenever the dependencies of a recipe can be generated and the values
    of its tasks are texts, the base hashes can be computed from them.  A
    task's base hash is the hash of the text of the task followed by the names
    and values of exactly the variables that can be reached from it by
    references that are not in the whitelist, each once, in order; these
    variables are also what is recorded as the task's dependencies.  The loops
    that collect the dependencies of the tasks end, after at most two rounds
    more than there are names, when what is read has finitely many. *)
Theorem base_hash_exact fn w :
  (∀ names n build l, (∀ key, always_yields (build key) (λ r, r.1 ⊆ names)) → size names + 2 ≤ n →
    always_yields (build_tasks n build whitelist l ([], [])) (λ _, True)) ∧
  returns w (generate_dependencies python_eval loop_fuel depth parse_python parse_shell whitelist) (λ r _,
    let '(tasklist, t) := r in
    (∀ task, task ∈ tasklist → is_text t.2 task) →
    ∃ gendeps taskdeps basehash,
      generate_dependency_hash sha256 str_of whitelist tasklist t fn = Ok (gendeps, taskdeps, basehash) ∧
      ∀ task, task ∈ tasklist → ∃ alldeps,
        dget taskdeps task = Some alldeps ∧ exact_deps t.1 task alldeps ∧
        dget basehash (fn +s+ ":" +s+ task) = Some (sha256 (hashed_text t.2 str_of task alldeps))).
Proof.
  split; [intros names n build l Hb Hn; eapply ay_mono; [by eapply build_tasks_ends|done]|].
  eapply returns_mono; [apply generated_complete|]. intros [tasklist [g0 vals]] _ [Hc Ht] Htext.
  destruct (base_hashes_ok g0 vals Hc sha256 str_of fn tasklist g0 [] []) as (g' & td & bh & E & H).
  - done.
  - intros task Hin. split; [by apply Ht|by apply Htext].
  - exists g', td, bh. split; [exact E|]. intros task Hin. apply H. by left.
Qed.
End tables.

(** ** A recipe with one task *)

#[local] Existing Instance set_order_elements.

Definition no_python (_ : option string) (_ : string) : M world python_result := raise RuntimeError.
Definition no_code (_ : string) (_ : option value) : res python_code := Ok (PythonCode ∅ ∅ ∅).
(** The commands of shell code: its words. *)
Definition shell_words (_ : string) (v : option value) : res (gset string) :=
  match v with Some (VStr s) => Ok (list_to_set (split_ws s)) | _ => Ok ∅ end.

Definition run (l : list (M world unit)) : world := foldl (λ w m, (m w).1) new_world l.

Definition set (var v : string) : M world unit := setVar no_python 9 9 var v false.
Definition set_flag (var flag : string) (v : value) : M world unit := setVarFlag no_python 9 9 var flag v.

(** A task that calls a function, which uses two variables; one of them uses a
    variable of the whitelist. *)
Definition recipe_store : world := run [
  set "helper" "cp ${A} ${B}"; set_flag "helper" "func" (VInt 1);
  set "A" "a ${W}"; set "B" "b"; set "W" "w"; set "unused" "u";
  set "do_build" "helper all"; set_flag "do_build" "func" (VInt 1); set_flag "X" "export" (VInt 1);
  set_flag "__BBTASKS" "_content" (VList ["do_build"])].

Abbreviation recipe_generated := (generate_dependencies no_python 9 9 no_code shell_words {["W"]}).

Definition recipe_tables : list string * dep_tables :=
  match (recipe_generated recipe_store).2 with
  | Ok r => r
  | Raise _ => ([], ([], []))
  end.

Lemma recipe_returns : is_Ok (recipe_generated recipe_store).2.
Proof.
  assert (match (recipe_generated recipe_store).2 with Ok _ => true | Raise _ => false end = true) as H by (vm_compute; reflexivity).
  destruct (recipe_generated recipe_store).2 as [r|]; [by exists r|discriminate H].
Qed.

Lemma recipe_tables_ok : ∃ w', recipe_generated recipe_store = (w', Ok recipe_tables).
Proof.
  unfold recipe_tables. pose proof recipe_returns as [r Hr].
  destruct (recipe_generated recipe_store) as [w' x]. cbn [snd] in *. subst x. by exists w'.
Qed.

Lemma recipe_tasks : recipe_tables.1 = ["do_build"].
Proof. vm_compute. reflexivity. Qed.

Lemma recipe_texts : is_text recipe_tables.2.2 "do_build".
Proof. eexists. split; [vm_compute; reflexivity|exact I]. Qed.

Abbreviation hashes_of r := (generate_dependency_hash id (λ _, "") {["W"]} r.1 r.2 "r.bb").

(** What the theorem says of tables. *)
Definition hashes_exact (r : list string * dep_tables) : Prop :=
  ∃ gendeps taskdeps basehash, hashes_of r = Ok (gendeps, taskdeps, basehash) ∧
    ∀ task, task ∈ r.1 → ∃ alldeps,
      dget taskdeps task = Some alldeps ∧ exact_deps {["W"]} r.2.1 task alldeps ∧
      dget basehash ("r.bb" +s+ ":" +s+ task) = Some (id (hashed_text r.2.2 (λ _, "") task alldeps)).

Lemma recipe_deps :
  match hashes_of recipe_tables with Ok (_, td, _) => dget td "do_build" | Raise _ => None end = Some ["A"; "B"; "X"; "helper"].
Proof. vm_compute. reflexivity. Qed.

Lemma recipe_is_text task : task ∈ recipe_tables.1 → is_text recipe_tables.2.2 task.
Proof. rewrite recipe_tasks. intros ->%list_elem_of_singleton. exact recipe_texts. Qed.

Lemma hashes_exact_of (r : list string * dep_tables) :
  (let '(tasklist, t) := r in
    (∀ task, task ∈ tasklist → is_text t.2 task) →
    ∃ gendeps taskdeps basehash,
      generate_dependency_hash id (λ _, "") {["W"]} tasklist t "r.bb" = Ok (gendeps, taskdeps, basehash) ∧
      ∀ task, task ∈ tasklist → ∃ alldeps,
        dget taskdeps task = Some alldeps ∧ exact_deps {["W"]} t.1 task alldeps ∧
        dget basehash ("r.bb" +s+ ":" +s+ task) = Some (id (hashed_text t.2 (λ _, "") task alldeps))) →
  (∀ task, task ∈ r.1 → is_text r.2.2 task) → hashes_exact r.
Proof. destruct r as [tasklist t]. intros H Ht. exact (H Ht). Qed.

(** Every name depends on [A] and [W]. *)
Definition on_two (_ : string) : M world (gset string * option value) := mret ({["A"; "W"]}, None).

Lemma on_two_yields key : always_yields (on_two key) (λ r, r.1 ⊆ {["A"; "W"]}).
Proof. by apply ay_ret. Qed.

Lemma base_hash_exact_witness :
  always_yields (build_tasks 4 on_two {["W"]} ["do_build"] ([], [])) (λ _, True) ∧
  recipe_tables.1 = ["do_build"] ∧ hashes_exact recipe_tables.
Proof.
  split.
  { exact (proj1 (base_hash_exact {["W"]} no_python 9 9 no_code shell_words id (λ _, "") "r.bb" recipe_store)
      {["A"; "W"]} 4 on_two ["do_build"] on_two_yields (le_n 4)). }
  split; [exact recipe_tasks|]. destruct recipe_tables_ok as [w' Ew].
  exact (hashes_exact_of recipe_tables
    (returns_Ok _ _ _ _ _ Ew (proj2 (base_hash_exact {["W"]} no_python 9 9 no_code shell_words id (λ _, "") "r.bb" recipe_store)))
    recipe_is_text).
Defined.

(** Of several words that are removed, only the references of the first are
    dependencies. *)
Lemma second_remove_lost :
  let w := run [set "A" "x y z"; set "A_remove" "${P}"; set "A_remove" "${Q}"; set "P" "x"; set "Q" "y"] in
  match (build_dependencies no_python 9 9 no_code shell_words "A" ∅ ∅ None w).2 with
  | Ok (deps, _) => deps = {["P"]}
  | Raise _ => False
  end.
Proof. vm_compute. reflexivity. Qed.

(** The flags that do not count are looked up as parts of a string. *)
Lemma excluded_flag_part :
  flag_deps "do_build" [("func", VInt 1); ("dirs", VStr "d")] (Some (VStr "prefuncs postfuncs")) = Ok {["do_build[dirs]"]}.
Proof. vm_compute. reflexivity. Qed.

(** Names and values are joined without separators: different dependencies can
    give the same text to hash. *)
Lemma hashed_text_ambiguous :
  hashed_text [("do_build", None); ("A", Some (VStr "1B2"))] (λ _, "") "do_build" ["A"] =
  hashed_text [("do_build", None); ("A", Some (VStr "1")); ("B", Some (VStr "2"))] (λ _, "") "do_build" ["A"; "B"].
Proof. vm_compute. reflexivity. Qed.
