(* ===== verification/SigGen.v ===== *)
(** * Signature generators (bb/siggen.py)

    The hashes of tasks: [SignatureGenerator], [SignatureGeneratorBasic],
    [SignatureGeneratorBasicHash] and the mix-in that asks a hash equivalence
    server.  They are what the run queue calls through [SigGen] and
    [PrepareSigGen]; a generator that a class of recipes defines derives from
    one of these. *)

From Stdlib Require Import Ascii String.
From S2P Require Import Prelude.
From S2P Require Import PyStr.
From S2P Require Import PyDict.
From S2P Require Import TaskIds.
From S2P Require Import Cache.
From S2P Require Import Stamps.
From S2P Require Import Depends.
From S2P Require Import Prepare.
From S2P Require Import DataStore.
From S2P Require Import VarDeps.

(** ** Names without the place of their files *)

(** [s.split(sep, 1)[0]] for a separator of two characters. *)
Fixpoint before (sep s : string) : string :=
  if startswith s sep then "" else match s with "" => "" | String c s => String c (before sep s) end.

Definition first_is (c : ascii) (s : string) : res bool :=
  match s with "" => Raise IndexError | String a _ => Ok (Ascii.eqb a c) end.

Definition clean_basepath (tid : string) : res string :=
  '(rest, recipe_task) ← of_option ValueError (rsplit1 "/" tid);
  '(basepath, dir) ← of_option ValueError (rsplit1 "/" rest);
  let cleaned := dir +s+ "/" +s+ recipe_task in
  absolute ← first_is "/" basepath;
  if (absolute : bool) then Ok cleaned
  else
    '(basepath, mc_suffix) ←
      (if startswith basepath "mc:" then
         '(_, rest) ← of_option ValueError (split1 ":" basepath);
         '(mc_name, basepath) ← of_option ValueError (split1 ":" rest);
         Ok (basepath, ":mc:" +s+ mc_name)
       else Ok (basepath, ""));
    absolute ← first_is "/" basepath;
    Ok ((if (absolute : bool) then cleaned else cleaned +s+ ":" +s+ before ":/" basepath) +s+ mc_suffix).

Definition clean_basepaths {V} (a : dict V) : res (dict V) :=
  fold_res (λ b kv, k ← clean_basepath kv.1; Ok (dset b k kv.2)) [] a.

Definition clean_basepaths_list (a : list string) : res (list string) := map_res clean_basepath a.

(** [sorted(l, key=...)], stable. *)
Fixpoint insert_key (x : string * string) (l : list (string * string)) : list (string * string) :=
  match l with
  | [] => [x]
  | y :: l' => if bool_decide (String.le x.1 y.1) then x :: l else y :: insert_key x l'
  end.

Definition sort_keyed (l : list (string * string)) : list (string * string) := foldr insert_key [] l.

Definition sorted_by_basepath (l : list string) : res (list string) :=
  keyed ← map_res (λ x, k ← clean_basepath x; Ok (k, x)) l;
  Ok (List.map snd (sort_keyed keyed)).

(** ** The state *)

(** The attributes of a generator; a hash in [unihash] can be [None]. *)
Record siggen : Type := MkSigGen {
  sg_basehash : dict string;
  sg_taskhash : dict string;
  sg_unihash : dict (option string);
  sg_taskdeps : dict (dict (list string));
  sg_runtaskdeps : dict (list string);
  sg_file_checksum_values : dict (list (string * string));
  sg_taints : dict string;
  sg_gendeps : dict (dict (gset string));
  sg_lookupcache : dict (dict (option value));
  sg_setscenetasks : gset string;
  sg_unitaskhashes : dict (string * string);
  sg_tidtopn : dict string;
  (* how often the outside was asked: for a new uuid, or the server *)
  sg_asked : nat;
  (* the taint files written *)
  sg_written : dict string
}.

Definition new_siggen (unitaskhashes : dict (string * string)) : siggen :=
  MkSigGen [] [] [] [] [] [] [] [] [] ∅ unitaskhashes [] 0 [].

Definition set_basehash x s := MkSigGen x (sg_taskhash s) (sg_unihash s) (sg_taskdeps s) (sg_runtaskdeps s) (sg_file_checksum_values s) (sg_taints s) (sg_gendeps s) (sg_lookupcache s) (sg_setscenetasks s) (sg_unitaskhashes s) (sg_tidtopn s) (sg_asked s) (sg_written s).
Definition set_taskhash x s := MkSigGen (sg_basehash s) x (sg_unihash s) (sg_taskdeps s) (sg_runtaskdeps s) (sg_file_checksum_values s) (sg_taints s) (sg_gendeps s) (sg_lookupcache s) (sg_setscenetasks s) (sg_unitaskhashes s) (sg_tidtopn s) (sg_asked s) (sg_written s).
Definition set_unihashes x s := MkSigGen (sg_basehash s) (sg_taskhash s) x (sg_taskdeps s) (sg_runtaskdeps s) (sg_file_checksum_values s) (sg_taints s) (sg_gendeps s) (sg_lookupcache s) (sg_setscenetasks s) (sg_unitaskhashes s) (sg_tidtopn s) (sg_asked s) (sg_written s).
Definition set_tables td gd lc s := MkSigGen (sg_basehash s) (sg_taskhash s) (sg_unihash s) td (sg_runtaskdeps s) (sg_file_checksum_values s) (sg_taints s) gd lc (sg_setscenetasks s) (sg_unitaskhashes s) (sg_tidtopn s) (sg_asked s) (sg_written s).
Definition set_runtaskdeps x s := MkSigGen (sg_basehash s) (sg_taskhash s) (sg_unihash s) (sg_taskdeps s) x (sg_file_checksum_values s) (sg_taints s) (sg_gendeps s) (sg_lookupcache s) (sg_setscenetasks s) (sg_unitaskhashes s) (sg_tidtopn s) (sg_asked s) (sg_written s).
Definition set_file_checksum_values x s := MkSigGen (sg_basehash s) (sg_taskhash s) (sg_unihash s) (sg_taskdeps s) (sg_runtaskdeps s) x (sg_taints s) (sg_gendeps s) (sg_lookupcache s) (sg_setscenetasks s) (sg_unitaskhashes s) (sg_tidtopn s) (sg_asked s) (sg_written s).
Definition set_taints x s := MkSigGen (sg_basehash s) (sg_taskhash s) (sg_unihash s) (sg_taskdeps s) (sg_runtaskdeps s) (sg_file_checksum_values s) x (sg_gendeps s) (sg_lookupcache s) (sg_setscenetasks s) (sg_unitaskhashes s) (sg_tidtopn s) (sg_asked s) (sg_written s).
Definition set_setscenetasks x s := MkSigGen (sg_basehash s) (sg_taskhash s) (sg_unihash s) (sg_taskdeps s) (sg_runtaskdeps s) (sg_file_checksum_values s) (sg_taints s) (sg_gendeps s) (sg_lookupcache s) x (sg_unitaskhashes s) (sg_tidtopn s) (sg_asked s) (sg_written s).
Definition set_unitaskhashes x s := MkSigGen (sg_basehash s) (sg_taskhash s) (sg_unihash s) (sg_taskdeps s) (sg_runtaskdeps s) (sg_file_checksum_values s) (sg_taints s) (sg_gendeps s) (sg_lookupcache s) (sg_setscenetasks s) x (sg_tidtopn s) (sg_asked s) (sg_written s).
Definition set_tidtopn x s := MkSigGen (sg_basehash s) (sg_taskhash s) (sg_unihash s) (sg_taskdeps s) (sg_runtaskdeps s) (sg_file_checksum_values s) (sg_taints s) (sg_gendeps s) (sg_lookupcache s) (sg_setscenetasks s) (sg_unitaskhashes s) x (sg_asked s) (sg_written s).
Definition ask s := MkSigGen (sg_basehash s) (sg_taskhash s) (sg_unihash s) (sg_taskdeps s) (sg_runtaskdeps s) (sg_file_checksum_values s) (sg_taints s) (sg_gendeps s) (sg_lookupcache s) (sg_setscenetasks s) (sg_unitaskhashes s) (sg_tidtopn s) (S (sg_asked s)) (sg_written s).
Definition set_written x s := MkSigGen (sg_basehash s) (sg_taskhash s) (sg_unihash s) (sg_taskdeps s) (sg_runtaskdeps s) (sg_file_checksum_values s) (sg_taints s) (sg_gendeps s) (sg_lookupcache s) (sg_setscenetasks s) (sg_unitaskhashes s) (sg_tidtopn s) (sg_asked s) x.

(** Which generator it is. *)
Inductive flavour : Type := Basic | BasicHash | UniHash.

#[export] Instance flavour_eq_dec : EqDecision flavour.
Proof. solve_decision. Defined.

(** The configuration of a generator and what it reads from outside. *)
Record sig_env : Type := SigEnv {
  (* [hashlib.sha256(data.encode("utf-8")).hexdigest()] *)
  se_sha256 : string → string;
  se_basewhitelist : gset string;
  (* [self.twl.search], when BB_HASHTASK_WHITELIST is set *)
  se_twl : option (string → bool);
  (* [supports_multiconfig_datacaches] *)
  se_multiconfig : bool;
  (* the checksums of the files of a task of a recipe *)
  se_checksums : string → string → res (list (string * string));
  (* the text of a taint file *)
  se_taint_file : string → option string;
  (* [uuid.uuid4()], the n-th time *)
  se_uuid : nat → string;
  (* the method that names an output hash, and what a task adds to it *)
  se_method : string;
  se_extramethod : dict string;
  (* the server: no answer, or what it knows, the n-th time *)
  se_server : nat → string → string → option (option string);
  se_report_equiv : nat → string → string → option string → option (option string)
}.

Section generator.
Context `{!SetOrder string} (env : sig_env) (dataCaches : dict CacheData).

Abbreviation sig := (M siggen).

(** [self.table[key]] *)
Definition look {V} (table : siggen → dict V) (key : string) : sig V :=
  s ← get; lift (of_option KeyError (dget (table s) key)).

Definition cache (mc : string) : res CacheData := of_option KeyError (dget dataCaches mc).

(** [rundep_check] *)
Definition rundep_check (recipename depname : string) : bool :=
  match se_twl env with
  | Some search => search recipename || negb (search depname)
  | None => true
  end.

(** [read_taint] *)
Definition read_taint (s : siggen) (task stampbase : string) : option string :=
  let f := stampbase +s+ "." +s+ task +s+ ".taint" in
  match dget (sg_written s) f with Some t => Some t | None => se_taint_file env f end.

(** [bb.build.write_taint] *)
Definition write_taint (task : string) (c : CacheData) (fn : string) : sig unit :=
  stampbase ← lift (of_option KeyError (dget (stamp c) fn));
  modify (λ s, ask (set_written (dset (sg_written s) (stampbase +s+ "." +s+ task +s+ ".taint") (se_uuid env (sg_asked s))) s)).

(** ** [prep_taskhash] *)

Definition append_dep (tid dep : string) : sig unit :=
  l ← look sg_runtaskdeps tid;
  modify (λ s, set_runtaskdeps (dset (sg_runtaskdeps s) tid (l ++ [dep])) s).

(** One dependency of the task. *)
Definition prep_dep (mc recipename tid dep : string) : sig unit :=
  '(depmc, _, _, depmcfn) ← lift (split_tid_mcfn dep);
  c ← lift (cache depmc);
  depname ← lift (of_option KeyError (dget (pkg_fn c) depmcfn));
  if negb (se_multiconfig env) && negb (bool_decide (mc = depmc)) then mret tt
  else if negb (rundep_check recipename depname) then mret tt
  else
    s ← get;
    if dmem (sg_taskhash s) dep then append_dep tid dep else raise Fatal.

(** The checksums of the task's files. *)
Definition prep_checksums (c : CacheData) (fn task recipename tid : string) : sig unit :=
  files ← lift (of_option KeyError (dget (file_checksums c) fn));
  match dget files task with
  | None => mret tt
  | Some f =>
      l ← lift (se_checksums env f recipename);
      modify (λ s, set_file_checksum_values
        (dset (sg_file_checksum_values s) tid (default [] (dget (sg_file_checksum_values s) tid) ++ l)) s)
  end.

(** A task without stamp is tainted once; a taint file counts each time. *)
Definition prep_taint (c : CacheData) (fn task tid : string) : sig unit :=
  taskdep ← lift (of_option KeyError (dget (task_deps c) fn));
  _ ← (match task_flag taskdep "nostamp" task with
       | None => mret tt
       | Some _ =>
           s ← get;
           match dget (sg_taints s) tid with
           | Some t => if startswith t "nostamp:" then mret tt
                       else modify (λ s, ask (set_taints (dset (sg_taints s) tid ("nostamp:" +s+ se_uuid env (sg_asked s))) s))
           | None => modify (λ s, ask (set_taints (dset (sg_taints s) tid ("nostamp:" +s+ se_uuid env (sg_asked s))) s))
           end
       end);
  stampbase ← lift (of_option KeyError (dget (stamp c) fn));
  s ← get;
  match read_taint s task stampbase with
  | None | Some "" => mret tt
  | Some taint => modify (λ s, set_taints (dset (sg_taints s) tid taint) s)
  end.

Definition prep_taskhash (tid : string) (deps : gset string) : sig unit :=
  '(mc, _, task, fn) ← lift (split_tid_mcfn tid);
  c ← lift (cache mc);
  h ← lift (of_option KeyError (dget (basetaskhash c) tid));
  _ ← modify (λ s, set_basehash (dset (sg_basehash s) tid h) s);
  _ ← modify (λ s, set_runtaskdeps (dset (sg_runtaskdeps s) tid []) s);
  _ ← modify (λ s, set_file_checksum_values (dset (sg_file_checksum_values s) tid []) s);
  recipename ← lift (of_option KeyError (dget (pkg_fn c) fn));
  _ ← modify (λ s, set_tidtopn (dset (sg_tidtopn s) tid recipename) s);
  sorted ← lift (sorted_by_basepath (set_iter deps));
  _ ← for_each sorted (prep_dep mc recipename tid);
  _ ← prep_checksums c fn task recipename tid;
  prep_taint c fn task tid.

(** ** [get_taskhash] *)

(** The text a taint adds. *)
Definition taint_text (taint : string) : string := if startswith taint "nostamp:" then str_drop 8 taint else taint.

Section taskhash.
(** [self.get_unihash], which the derived generators have their own of. *)
Context (get_unihash : string → sig string).

Definition dep_hash (dep : string) : sig string :=
  s ← get;
  match dget (sg_unihash s) dep with
  | Some None => look sg_taskhash dep
  | Some (Some h) => mret h
  | None => get_unihash dep
  end.

Fixpoint dep_hashes (l : list string) : sig string :=
  match l with
  | [] => mret ""
  | dep :: l => h ← dep_hash dep; rest ← dep_hashes l; mret (h +s+ rest)
  end.

Definition get_taskhash (tid : string) (deps : gset string) : sig string :=
  base ← look sg_basehash tid;
  l ← look sg_runtaskdeps tid;
  hashes ← dep_hashes l;
  checksums ← look sg_file_checksum_values tid;
  s ← get;
  let taint := match dget (sg_taints s) tid with Some t => taint_text t | None => "" end in
  let h := se_sha256 env (base +s+ hashes +s+ String.concat "" (List.map snd checksums) +s+ taint) in
  _ ← modify (λ s, set_taskhash (dset (sg_taskhash s) tid h) s);
  mret h.
End taskhash.

(** ** [SignatureGenerator], [SignatureGeneratorBasic] *)

Definition noop_get_taskhash (tid : string) : sig string :=
  let h := se_sha256 env tid in
  _ ← modify (λ s, set_taskhash (dset (sg_taskhash s) tid h) s);
  mret h.

Definition basic_get_unihash (tid : string) : sig string := look sg_taskhash tid.

Definition noop_stampfile (stampbase taskname extrainfo : string) : string :=
  rstrip (Ascii.eqb ".") (stampbase +s+ "." +s+ taskname +s+ "." +s+ extrainfo).

Definition set_setscene_tasks (l : gset string) : sig unit := modify (set_setscenetasks l).

(** ** [SignatureGeneratorBasicHash] *)

Definition get_stampfile_hash (s : siggen) (tid : string) : res string :=
  match dget (sg_taskhash s) tid with
  | Some h => Ok h
  | None => of_option KeyError (dget (sg_basehash s) tid)
  end.

(** The task whose hash names the stamp. *)
Definition stamp_tid (fn taskname : string) : string :=
  if negb (bool_decide (taskname = "do_setscene")) && endswith taskname "_setscene"
  then fn +s+ ":" +s+ str_drop_last 9 taskname else fn +s+ ":" +s+ taskname.

Definition hash_stampfile (stampfile_hash : siggen → string → res string) (s : siggen)
    (stampbase fn taskname extrainfo : string) (clean : bool) : res string :=
  h ← (if clean then Ok "*" else stampfile_hash s (stamp_tid fn taskname));
  Ok (rstrip (Ascii.eqb ".") (stampbase +s+ "." +s+ taskname +s+ "." +s+ h +s+ "." +s+ extrainfo)).

Definition stampcleanmask (stampfile_hash : siggen → string → res string) (s : siggen)
    (stampbase fn taskname extrainfo : string) : res string :=
  hash_stampfile stampfile_hash s stampbase fn taskname extrainfo true.

(** ** [SignatureGeneratorUniHashMixIn] *)

(** The key of a task in [unitaskhashes]. *)
Definition unitask_key (s : siggen) (tid : string) : res string :=
  '(mc, _, taskname, _) ← split_tid_mcfn tid;
  pn ← of_option KeyError (dget (sg_tidtopn s) tid);
  Ok (mc +s+ ":" +s+ pn +s+ ":" +s+ taskname).

Definition uni_set_unihash (tid unihash : string) : sig unit :=
  s ← get;
  key ← lift (unitask_key s tid);
  h ← look sg_taskhash tid;
  _ ← modify (λ s, set_unitaskhashes (dset (sg_unitaskhashes s) key (h, unihash)) s);
  modify (λ s, set_unihashes (dset (sg_unihash s) tid (Some unihash)) s).

Definition _get_unihash (s : siggen) (tid : string) (checkkey : option string) : res (option string) :=
  if negb (dmem (sg_tidtopn s) tid) then Ok None
  else
    key ← unitask_key s tid;
    match dget (sg_unitaskhashes s) key with
    | None => Ok None
    | Some (h, unihash) =>
        checkkey ← (match checkkey with
                    | None | Some "" => of_option KeyError (dget (sg_taskhash s) tid)
                    | Some k => Ok k
                    end);
        Ok (if bool_decide (h = checkkey) then Some unihash else None)
    end.

Definition uni_stampfile_hash (s : siggen) (tid : string) : res string :=
  if dmem (sg_taskhash s) tid then
    u ← _get_unihash s tid None;
    match u with Some u => Ok u | None => get_stampfile_hash s tid end
  else get_stampfile_hash s tid.

(** [method + self.extramethod[tid]] *)
Definition method_of (tid : string) : string :=
  se_method env +s+ default "" (dget (se_extramethod env) tid).

Definition uni_get_unihash (tid : string) : sig string :=
  taskhash ← look sg_taskhash tid;
  s ← get;
  if negb (bool_decide (sg_setscenetasks s = ∅)) && bool_decide (tid ∉ sg_setscenetasks s) then
    _ ← modify (λ s, set_unihashes (dset (sg_unihash s) tid None) s);
    mret taskhash
  else
    known ← lift (_get_unihash s tid None);
    match known with
    | Some unihash =>
        _ ← modify (λ s, set_unihashes (dset (sg_unihash s) tid (Some unihash)) s);
        mret unihash
    | None =>
        let unihash := match se_server env (sg_asked s) (method_of tid) taskhash with
                       | Some (Some u) => if str_empty u then taskhash else u
                       | _ => taskhash
                       end in
        _ ← modify ask;
        _ ← uni_set_unihash tid unihash;
        _ ← modify (λ s, set_unihashes (dset (sg_unihash s) tid (Some unihash)) s);
        mret unihash
    end.

(** [report_unihash_equiv]: whether the wanted hash was taken. *)
Definition report_unihash_equiv (tid taskhash : string) (wanted : option string) (current : string) : sig bool :=
  s ← get;
  _ ← modify ask;
  match se_report_equiv env (sg_asked s) taskhash (method_of tid) wanted with
  | None | Some None => mret false
  | Some (Some final) =>
      if bool_decide (final = current) then mret false
      else if bool_decide (Some final = wanted) then
        _ ← uni_set_unihash tid final;
        mret true
      else mret false
  end.

(** ** The generators *)


Definition get_unihash_of (k : flavour) : string → sig string :=
  match k with UniHash => uni_get_unihash | _ => basic_get_unihash end.

Definition stampfile_of (k : flavour) (s : siggen) (stampbase fn taskname extrainfo : string) : res string :=
  match k with
  | Basic => Ok (noop_stampfile stampbase taskname extrainfo)
  | BasicHash => hash_stampfile get_stampfile_hash s stampbase fn taskname extrainfo false
  | UniHash => hash_stampfile uni_stampfile_hash s stampbase fn taskname extrainfo false
  end.

(** What the run queue calls; only the mix-in has the methods of the server. *)
Definition generator (k : flavour) : SigGen siggen := {|
  sg_stampfile := stampfile_of k;
  sg_get_taskhash := get_taskhash (get_unihash_of k);
  sg_get_unihash := get_unihash_of k;
  sg_set_unihash tid u := match k with UniHash => uni_set_unihash tid u | _ => raise AttributeError end;
  sg_report_unihash_equiv tid h wanted current :=
    match k with
    | UniHash => _ ← report_unihash_equiv tid h wanted current; mret tt
    | _ => raise AttributeError
    end
|}.

(** Deleting stamps and writing the checksum cache are only files. *)
Definition prepare_generator (k : flavour) : @PrepareSigGen siggen (generator k) := {|
  sg_invalidate_task task c fn := match k with Basic => mret tt | _ => write_taint task c fn end;
  sg_tasks_resolved _ _ _ := mret tt;
  sg_set_setscene_tasks := set_setscene_tasks;
  sg_prep_taskhash := prep_taskhash;
  sg_writeout_file_checksum_cache := mret tt
|}.

(** ** What is written of a signature *)

(** The dictionary [dump_sigtask] pickles. *)
Record sigdata : Type := MkSigData {
  sd_task : string;
  sd_taskdeps : list string;
  sd_basehash : string;
  sd_gendeps : dict (gset string);
  sd_varvals : dict (option value);
  sd_runtaskdeps : list string;
  sd_file_checksum_values : list (string * string);
  sd_runtaskhashes : dict string;
  sd_taskhash : option string;
  sd_unihash : option string;
  sd_taint : option string
}.

(** [str(v)] of a value that is no string. *)
Context (str_of : value → string).

Definition calc_basehash (d : sigdata) : res string :=
  basedata ← of_option KeyError (dget (sd_varvals d) (sd_task d));
  start ← start_text basedata (sd_taskdeps d);
  data ← base_data str_of (sd_varvals d) start (sd_taskdeps d);
  Ok (se_sha256 env data).

Definition calc_taskhash (d : sigdata) : res string :=
  data ← fold_res (λ data dep,
    h ← of_option KeyError (dget (sd_runtaskhashes d) dep); Ok (data +s+ h)) (sd_basehash d) (sd_runtaskdeps d);
  let data := data +s+ String.concat "" (List.map snd (sd_file_checksum_values d)) in
  let data := data +s+ match sd_taint d with
    | None => ""
    | Some t => if str_in "nostamp:" t then str_drop 8 t else t
    end in
  Ok (se_sha256 env data).

(** [os.path.basename] *)
Definition basename (f : string) : string := match rsplit1 "/" f with Some (_, r) => r | None => f end.

Section dump.
Context (get_unihash : string → sig string).

(** The entries of the variables, but for those of the whitelist. *)
Definition dump_vars (gendeps : dict (gset string)) (vals : dict (option value)) (task : string) (l : list string) :
    res (dict (gset string) * dict (option value)) :=
  v ← of_option KeyError (dget vals task);
  fold_res (λ st dep,
    if bool_decide (dep ∈ se_basewhitelist env) then Ok st
    else
      g ← of_option KeyError (dget gendeps dep);
      v ← of_option KeyError (dget vals dep);
      Ok (dset st.1 dep g, dset st.2 dep v)) ([], [(task, v)]) l.

Fixpoint dump_runhashes (l : list string) (acc : dict string) : sig (dict string) :=
  match l with
  | [] => mret acc
  | dep :: l => h ← get_unihash dep; dump_runhashes l (dset acc dep h)
  end.

(** [dump_sigtask] for a task of the run queue ([runtime=True]), up to writing
    the file: the dictionary, and whether the hashes computed from it are the
    ones the generator has. *)
Definition dump_sigtask (fn task stampbase : string) : sig (sigdata * bool * bool) :=
  let tid := fn +s+ ":" +s+ task in
  s ← get;
  let runtime := dmem (sg_taskhash s) tid in
  _ ← (if runtime then _ ← get_unihash tid; mret tt else _ ← look sg_basehash tid; mret tt);
  tds ← look sg_taskdeps fn;
  l ← lift (of_option KeyError (dget tds task));
  base ← look sg_basehash tid;
  vals ← look sg_lookupcache fn;
  gendeps ← look sg_gendeps fn;
  '(gd, vv) ← lift (dump_vars gendeps vals task l);
  d ← (if runtime then
         rdeps ← look sg_runtaskdeps tid;
         cs ← look sg_file_checksum_values tid;
         rh ← dump_runhashes rdeps [];
         th ← look sg_taskhash tid;
         u ← get_unihash tid;
         mret (MkSigData task l base gd vv rdeps (List.map (λ fc, (basename fc.1, fc.2)) cs) rh (Some th) (Some u) None)
       else mret (MkSigData task l base gd vv [] [] [] None None None));
  s ← get;
  let taint := match read_taint s task stampbase with None | Some "" => None | t => t end in
  let taint := match dget (sg_taints s) tid with
               | Some t => if runtime && str_in "nostamp:" t then Some t else taint
               | None => taint
               end in
  let d := MkSigData (sd_task d) (sd_taskdeps d) (sd_basehash d) (sd_gendeps d) (sd_varvals d) (sd_runtaskdeps d)
    (sd_file_checksum_values d) (sd_runtaskhashes d) (sd_taskhash d) (sd_unihash d) taint in
  b ← lift (calc_basehash d);
  base ← look sg_basehash tid;
  ok ← (if runtime then
          t ← lift (calc_taskhash d); th ← look sg_taskhash tid; mret (bool_decide (t = th))
        else mret true);
  mret (d, bool_decide (b = base), ok).
End dump.
End generator.

(** ** After a recipe is parsed *)

Section finalise.
Context `{!SetOrder string} (env : sig_env).
Context (python_eval : option string → string → M world python_result) (loop_fuel depth : nat).
Context (parse_python : string → option value → res python_code) (parse_shell : string → option value → res (gset string)).
Context (str_of : value → string).

(** [_build_data]: the new generator and the dependencies of the tasks.  That
    a base hash differs from the one of an earlier parse is only reported. *)
Definition _build_data (fn : string) (s : siggen) : M world (siggen * dict (list string)) :=
  '(tasklist, t) ← generate_dependencies python_eval loop_fuel depth parse_python parse_shell (se_basewhitelist env);
  '(gendeps, taskdeps, basehash) ← lift (generate_dependency_hash (se_sha256 env) str_of (se_basewhitelist env) tasklist t fn);
  h ← lift (fold_res (λ acc task,
    h ← of_option KeyError (dget basehash (fn +s+ ":" +s+ task)); Ok (dset acc (fn +s+ ":" +s+ task) h))
    (sg_basehash s) tasklist);
  mret (set_basehash h (set_tables (dset (sg_taskdeps s) fn taskdeps) (dset (sg_gendeps s) fn gendeps)
    (dset (sg_lookupcache s) fn t.2) s), taskdeps).

(** [finalise]: the base hashes go back to the store of the recipe. *)
Definition finalise (fn variant : string) (s : siggen) : M world siggen :=
  mc ← getVar python_eval loop_fuel depth "__BBMULTICONFIG" false;
  mc ← lift (if truthy mc then as_str mc else Ok "");
  let fn := if negb (str_empty variant) || negb (str_empty mc) then realfn2virtual fn variant mc else fn in
  '(s, taskdeps) ← _build_data fn s;
  _ ← for_each (dkeys taskdeps) (λ task,
    h ← lift (of_option KeyError (dget (sg_basehash s) (fn +s+ ":" +s+ task)));
    setVar python_eval loop_fuel depth ("BB_BASEHASH_task-" +s+ task) h false);
  mret s.
End finalise.

(** [postparsing_clean_cache] *)
Definition postparsing_clean_cache (s : siggen) : siggen := set_tables [] [] [] s.
