(* ===== verification/SigGenOk.v ===== *)
(** * What task hashes are made of (bb/siggen.py, bb/runqueue.py)

    The hashes that [RunQueueData.prepare] computes with the generators of
    [SigGen]: each is the hash of the task's base hash, the hashes of the tasks
    it depends on, the checksums of its files and its taint; and the
    generators are what the run queue relies on. *)

From Stdlib Require Import Ascii String.
From S2P Require Import Prelude.
From S2P Require Import PyStr.
From S2P Require Import PyDict.
From S2P Require Import Runs.
From S2P Require Import TaskIds.
From S2P Require Import Cache.
From S2P Require Import TaskData.
From S2P Require Import TaskGraph.
From S2P Require Import Stamps.
From S2P Require Import ExecFuel.
From S2P Require Import Depends.
From S2P Require Import DependsOk.
From S2P Require Import Prepare.
From S2P Require Import PrepareOk.
From S2P Require Import DataStore.
From S2P Require Import VarDeps.
From S2P Require Import VarDepsOk.
From S2P Require Import SigGen.

Section hashes.
Context `{!SetOrder string} (env : sig_env) (dataCaches : dict CacheData) (k : flavour).

Abbreviation get_unihash := (get_unihash_of env k).

(** ** The parts of a signature *)

(** Whether a dependency counts for the task's hash. *)
Definition keeps_dep (mc recipename dep : string) : res bool :=
  '(depmc, _, _, depmcfn) ← split_tid_mcfn dep;
  c ← cache dataCaches depmc;
  depname ← of_option KeyError (dget (pkg_fn c) depmcfn);
  Ok ((se_multiconfig env || bool_decide (mc = depmc)) && rundep_check env recipename depname).

Definition kept_deps (mc recipename : string) (kept : list string) (l : list string) : res (list string) :=
  fold_res (λ kept dep, b ← keeps_dep mc recipename dep; Ok (if (b : bool) then kept ++ [dep] else kept)) kept l.

Definition file_sums (c : CacheData) (fn task recipename : string) : res (list (string * string)) :=
  files ← of_option KeyError (dget (file_checksums c) fn);
  match dget files task with None => Ok [] | Some f => se_checksums env f recipename end.

(** The base hash, the dependencies that count in their order, and the
    checksums of the files, all from the cache. *)
Definition signature_parts (tid : string) (deps : gset string) : res (string * list string * list (string * string)) :=
  '(mc, _, task, fn) ← split_tid_mcfn tid;
  c ← cache dataCaches mc;
  base ← of_option KeyError (dget (basetaskhash c) tid);
  recipename ← of_option KeyError (dget (pkg_fn c) fn);
  sorted ← sorted_by_basepath (set_iter deps);
  kept ← kept_deps mc recipename [] sorted;
  sums ← file_sums c fn task recipename;
  Ok (base, kept, sums).

(** ** [prep_taskhash] *)

(** What preparing a task does not touch. *)
Record prepared_alike (tid : string) (s s' : siggen) : Prop := {
  pa_taskhash : sg_taskhash s' = sg_taskhash s;
  pa_unihash : sg_unihash s' = sg_unihash s;
  pa_taints : ∀ t, t ≠ tid → dget (sg_taints s') t = dget (sg_taints s) t
}.

#[local] Instance prepared_alike_preorder tid : PreOrder (prepared_alike tid).
Proof. split; [by intros s; split|]. intros a b c [A1 A2 A3] [B1 B2 B3]. split; [congruence..|]. intros t Ht. by rewrite B3, A3. Qed.

Definition parts_set (tid base : string) (kept : list string) (sums : list (string * string)) (s : siggen) : Prop :=
  dget (sg_basehash s) tid = Some base ∧ dget (sg_runtaskdeps s) tid = Some kept ∧
  dget (sg_file_checksum_values s) tid = Some sums.

Lemma prep_dep_ok mc rn tid dep base kept sums s :
  parts_set tid base kept sums s →
  returns s (prep_dep env dataCaches mc rn tid dep) (λ _ s', prepared_alike tid s s' ∧ ∃ b,
    keeps_dep mc rn dep = Ok b ∧ parts_set tid base (if b then kept ++ [dep] else kept) sums s').
Proof.
  intros (H1 & H2 & H3). unfold prep_dep, keeps_dep. apply returns_lift_bind. intros [[[depmc f] tn] depmcfn] ->. cbn [mbind res_bind].
  apply returns_lift_bind. intros c ->. cbn [mbind res_bind]. apply returns_lift_bind. intros depname ->. cbn [mbind res_bind].
  destruct (se_multiconfig env || bool_decide (mc = depmc)) eqn:Em; rewrite <-negb_orb, Em; cbn [negb andb].
  2: { apply returns_ret. split; [reflexivity|]. exists false. done. }
  destruct (rundep_check env rn depname); cbn [negb].
  2: { apply returns_ret. split; [reflexivity|]. exists false. done. }
  apply returns_get. destruct (dmem _ dep); [|apply returns_raise]. unfold append_dep, look.
  unfold returns. rewrite M_bind_eq, get_bind, H2. cbn [of_option lift modify]. split; [by split|]. exists true. split; [done|].
  split; [done|]. split; [|done]. cbn. by rewrite dget_dset_eq.
Qed.

Lemma prep_deps_ok mc rn tid l base kept sums s :
  parts_set tid base kept sums s →
  returns s (for_each l (prep_dep env dataCaches mc rn tid)) (λ _ s', prepared_alike tid s s' ∧ ∃ kept',
    kept_deps mc rn kept l = Ok kept' ∧ parts_set tid base kept' sums s').
Proof.
  revert kept s. induction l as [|dep l IH]; intros kept s H; cbn [for_each]; unfold kept_deps in *; cbn [fold_res].
  { apply returns_ret. split; [reflexivity|]. by exists kept. }
  eapply returns_bind; [by apply prep_dep_ok|]. cbn beta. intros _ s1 (H1 & b & -> & Hp). cbn [mbind res_bind].
  eapply returns_mono; [by apply IH|]. cbn beta. intros _ s2 (H2 & Hk). split; [by etrans|done].
Qed.

Lemma prep_checksums_ok c fn task rn tid base kept s :
  parts_set tid base kept [] s →
  returns s (prep_checksums env c fn task rn tid) (λ _ s', prepared_alike tid s s' ∧ ∃ sums,
    file_sums c fn task rn = Ok sums ∧ parts_set tid base kept sums s').
Proof.
  intros (H1 & H2 & H3). unfold prep_checksums, file_sums. apply returns_lift_bind. intros files ->. cbn [mbind res_bind].
  destruct (dget files task) as [f|].
  2: { apply returns_ret. split; [reflexivity|]. by exists []. }
  apply returns_lift_bind. intros sums ->. apply returns_modify. split; [by split|]. exists sums. split; [done|].
  split; [done|]. split; [done|]. cbn. by rewrite dget_dset_eq, H3.
Qed.

Lemma prep_taint_ok c fn task tid base kept sums s :
  parts_set tid base kept sums s →
  returns s (prep_taint env c fn task tid) (λ _ s', prepared_alike tid s s' ∧ parts_set tid base kept sums s').
Proof.
  intros Hp. unfold prep_taint. apply returns_lift_bind. intros taskdep _.
  assert (∀ s t, parts_set tid base kept sums s → prepared_alike tid s (ask (set_taints (dset (sg_taints s) tid t) s)) ∧
    parts_set tid base kept sums (ask (set_taints (dset (sg_taints s) tid t) s))) as Hask.
  { intros s1 t H1. split; [|exact H1]. split; [done..|]. intros t' Ht. cbn. by rewrite dget_dset_ne. }
  eapply (returns_bind _ _ _ (λ _ s', prepared_alike tid s s' ∧ parts_set tid base kept sums s')).
  { destruct (task_flag _ _ _); [|apply returns_ret; split; [reflexivity|done]]. apply returns_get.
    destruct (dget (sg_taints s) tid) as [t|]; [destruct (startswith t _); [apply returns_ret; split; [reflexivity|done]|]|];
      by apply returns_modify, Hask. }
  cbn beta. intros _ s1 [Ha H1]. apply returns_lift_bind. intros stampbase _. apply returns_get.
  destruct (read_taint _ _ _ _) as [[|a t]|]; [by apply returns_ret| |by apply returns_ret].
  apply returns_modify. split; [|exact H1]. etrans; [exact Ha|]. split; [done..|]. intros t' Ht. cbn. by rewrite dget_dset_ne.
Qed.

Lemma prep_taskhash_ok tid deps s :
  returns s (prep_taskhash env dataCaches tid deps) (λ _ s', prepared_alike tid s s' ∧ ∃ base kept sums,
    signature_parts tid deps = Ok (base, kept, sums) ∧ parts_set tid base kept sums s').
Proof.
  unfold prep_taskhash, signature_parts. apply returns_lift_bind. intros [[[mc f] task] fn] ->. cbn [mbind res_bind].
  apply returns_lift_bind. intros c ->. cbn [mbind res_bind]. apply returns_lift_bind. intros base ->. cbn [mbind res_bind].
  do 3 apply returns_modify_bind. apply returns_lift_bind. intros rn ->. cbn [mbind res_bind]. apply returns_modify_bind.
  apply returns_lift_bind. intros sorted ->. cbn [mbind res_bind].
  match goal with |- returns ?s1 _ _ => assert (prepared_alike tid s s1 ∧ parts_set tid base [] [] s1) as [Ha Hp] end.
  { split; [by split|]. repeat split; cbn; by rewrite dget_dset_eq. }
  eapply returns_bind; [by apply prep_deps_ok|]. cbn beta. intros _ s2 (A2 & kept & -> & P2). cbn [mbind res_bind].
  eapply returns_bind; [by apply prep_checksums_ok|]. cbn beta. intros _ s3 (A3 & sums & -> & P3). cbn [mbind res_bind].
  eapply returns_mono; [by apply prep_taint_ok|]. cbn beta. intros _ s4 (A4 & P4).
  split; [etrans; [exact Ha|]; etrans; [exact A2|]; by etrans|]. by exists base, kept, sums.
Qed.

(** ** [get_taskhash] and [get_unihash] *)

(** The task's hash, and the hash that counts where it is depended on. *)
Definition known (s : siggen) (t h u : string) : Prop :=
  dget (sg_taskhash s) t = Some h ∧
  match dget (sg_unihash s) t with Some None => u = h | Some (Some x) => u = x | None => k ≠ UniHash ∧ u = h end.

Lemma dep_hash_ok s d h u : known s d h u → dep_hash get_unihash d s = (s, Ok u).
Proof.
  intros [H1 H2]. unfold dep_hash. rewrite get_bind. destruct (dget (sg_unihash s) d) as [[x|]|]; subst.
  - done.
  - unfold look. by rewrite get_bind, H1.
  - destruct H2 as [Hk ->]. destruct k; [| |done]; cbn [get_unihash_of]; unfold basic_get_unihash, look; by rewrite get_bind, H1.
Qed.

Lemma dep_hashes_ok s l (u : string → string) :
  (∀ d, d ∈ l → ∃ h, known s d h (u d)) →
  dep_hashes get_unihash l s = (s, Ok (String.concat "" (List.map u l))).
Proof.
  induction l as [|d l IH]; intros Hl; cbn [dep_hashes List.map]; [done|].
  destruct (Hl d (list_elem_of_here _ _)) as [h Hd]. rewrite M_bind_eq, (dep_hash_ok _ _ _ _ Hd), M_bind_eq.
  rewrite IH by (intros; apply Hl; by apply list_elem_of_further). by rewrite VarDepsOk.concat_cons_str.
Qed.

Definition taint_of (s : siggen) (t : string) : string :=
  match dget (sg_taints s) t with Some t => taint_text t | None => "" end.

(** The hash of the parts. *)
Definition signature_hash (base : string) (hashes : list string) (sums : list (string * string)) (taint : string) : string :=
  se_sha256 env (base +s+ String.concat "" hashes +s+ String.concat "" (List.map snd sums) +s+ taint).

Lemma get_taskhash_ok s tid deps base kept sums (u : string → string) :
  parts_set tid base kept sums s → (∀ d, d ∈ kept → ∃ h, known s d h (u d)) →
  let h := signature_hash base (List.map u kept) sums (taint_of s tid) in
  get_taskhash env get_unihash tid deps s = (set_taskhash (dset (sg_taskhash s) tid h) s, Ok h).
Proof.
  intros (H1 & H2 & H3) Hk. unfold get_taskhash, look. rewrite M_bind_eq, get_bind, H1. cbn [of_option lift].
  rewrite M_bind_eq, get_bind, H2. cbn [of_option lift]. rewrite M_bind_eq, (dep_hashes_ok s kept u) by done.
  rewrite M_bind_eq, get_bind, H3. done.
Qed.

(** Getting the unified hash of a task that is hashed. *)
Lemma get_unihash_ok s tid h :
  dget (sg_taskhash s) tid = Some h → (k ≠ UniHash → dget (sg_unihash s) tid = None) →
  returns s (get_unihash tid) (λ u s',
    known s' tid h u ∧ (k ≠ UniHash → u = h ∧ s' = s) ∧ sg_taskhash s' = sg_taskhash s ∧ sg_taints s' = sg_taints s ∧
    ∀ t, t ≠ tid → dget (sg_unihash s') t = dget (sg_unihash s) t).
Proof.
  intros Hh Hk. destruct (decide (k = UniHash)) as [E|E].
  2: { assert (get_unihash = basic_get_unihash) as -> by (by destruct k). unfold basic_get_unihash, look, returns.
       rewrite get_bind, Hh. cbn [of_option lift]. split; [split; [done|]; by rewrite (Hk E)|]. done. }
  assert (get_unihash = uni_get_unihash env) as -> by (by rewrite E). unfold uni_get_unihash, look.
  apply (returns_bind _ _ _ (λ a s', s' = s ∧ a = h)).
  { unfold returns. by rewrite get_bind, Hh. }
  intros ? ? [-> ->]. apply returns_get.
  assert (∀ s1 v, sg_taskhash s1 = sg_taskhash s → sg_taints s1 = sg_taints s →
    (∀ t, t ≠ tid → dget (sg_unihash s1) t = dget (sg_unihash s) t) → let s2 := set_unihashes (dset (sg_unihash s1) tid v) s1 in
    known s2 tid h (default h v) ∧ (k ≠ UniHash → default h v = h ∧ s2 = s) ∧ sg_taskhash s2 = sg_taskhash s ∧ sg_taints s2 = sg_taints s ∧
    ∀ t, t ≠ tid → dget (sg_unihash s2) t = dget (sg_unihash s) t) as Hset.
  { intros s1 v H1 H2 H3. cbv zeta. split; [|split; [done|split; [done|split; [done|]]]].
    - split; cbn; [by rewrite H1|]. rewrite dget_dset_eq. by destruct v.
    - intros t Ht. cbn. rewrite dget_dset_ne by done. by apply H3. }
  destruct (negb _ && _).
  { apply returns_modify_bind, returns_ret. by apply (Hset s None). }
  apply returns_lift_bind. intros known _. destruct known as [u|].
  { apply returns_modify_bind, returns_ret. by apply (Hset s (Some u)). }
  apply returns_modify_bind. set (u := match se_server _ _ _ _ with Some (Some u) => _ | _ => h end).
  eapply (returns_bind _ _ _ (λ _ s1, sg_taskhash s1 = sg_taskhash s ∧ sg_taints s1 = sg_taints s ∧
    ∀ t, t ≠ tid → dget (sg_unihash s1) t = dget (sg_unihash s) t)).
  { unfold uni_set_unihash. apply returns_get, returns_lift_bind. intros key _. unfold look.
    apply (returns_bind _ _ _ (λ a s', s' = ask s)).
    { unfold returns. rewrite get_bind. cbn. by rewrite Hh. }
    intros ? ? ->. apply returns_modify_bind, returns_modify. split; [done|]. split; [done|]. intros t Ht. cbn.
    by rewrite dget_dset_ne. }
  cbn beta. intros _ s1 (H1 & H2 & H3). apply returns_modify_bind, returns_ret. by apply (Hset s1 (Some u)).
Qed.

(** ** All tasks, in the order of hashing *)

Section order.
Context (g0 : graph).

(** The unified hash of an entry. *)
Definition unihash_in (g : graph) (d : string) : string :=
  match dget g d with Some e => default "" (rt_unihash e) | None => "" end.

(** The entry's hash is the hash of its parts. *)
Definition signed (g : graph) (s : siggen) (t : string) : Prop :=
  ∃ e base kept sums, dget g t = Some e ∧ signature_parts t (depends e) = Ok (base, kept, sums) ∧
    rt_hash e = Some (signature_hash base (List.map (unihash_in g) kept) sums (taint_of s t)) ∧
    is_Some (rt_unihash e) ∧ (k ≠ UniHash → rt_unihash e = rt_hash e).

(** What holds when the tasks in [seen] are hashed. *)
Record hashed_all (seen : list string) (g : graph) (s : siggen) : Prop := {
  ha_shape : same_shape g0 g;
  ha_closed : ∀ t, t ∈ seen → deps_of g0 t ⊆ list_to_set seen;
  ha_signed : ∀ t, t ∈ seen → signed g s t;
  ha_known : ∀ t, t ∈ seen → ∃ h, known s t h (unihash_in g t);
  ha_unihash : k ≠ UniHash → ∀ t, dget (sg_unihash s) t = None
}.

Lemma kept_deps_subset mc rn kept l kept' : kept_deps mc rn kept l = Ok kept' → ∀ d, d ∈ kept' → d ∈ kept ∨ d ∈ l.
Proof.
  unfold kept_deps. revert kept. induction l as [|x l IH]; intros kept; cbn [fold_res]; [intros [= <-]; by left|].
  destruct (keeps_dep mc rn x) as [b|]; [|done]. cbn [mbind res_bind]. intros E d Hd. apply (IH _ E) in Hd as [Hd|Hd].
  - destruct b; [|by left]. apply elem_of_app in Hd as [?|Hd]; [by left|]. apply list_elem_of_singleton in Hd as ->.
    right. apply list_elem_of_here.
  - right. by apply list_elem_of_further.
Qed.

Lemma sort_keyed_perm l : sort_keyed l ≡ₚ l.
Proof.
  unfold sort_keyed. induction l as [|x l IH]; cbn [foldr]; [done|]. transitivity (x :: foldr insert_key [] l); [|by constructor].
  generalize (foldr insert_key [] l). clear. intros l'. induction l' as [|y l' IH]; cbn [insert_key]; [done|].
  case_bool_decide; [done|]. rewrite IH. constructor.
Qed.

Lemma sorted_by_basepath_elem l l' : sorted_by_basepath l = Ok l' → ∀ d, d ∈ l' ↔ d ∈ l.
Proof.
  unfold sorted_by_basepath. destruct (map_res _ l) as [keyed|] eqn:E; [|done]. cbn [mbind res_bind]. intros [= <-] d.
  assert (List.map snd keyed = l) as <-.
  { revert keyed E. induction l as [|x l IH]; intros keyed; cbn [map_res]; [by intros [= <-]|].
    destruct (clean_basepath x); [|done]. cbn [mbind res_bind]. destruct (map_res _ l) as [keyed'|]; [|done]. cbn [mbind res_bind].
    intros [= <-]. cbn [List.map snd]. f_equal. by apply IH. }
  by rewrite (Permutation_map snd (sort_keyed_perm keyed)).
Qed.

Lemma parts_kept t deps base kept sums : signature_parts t deps = Ok (base, kept, sums) → ∀ d, d ∈ kept → d ∈ deps.
Proof.
  unfold signature_parts. intros E.
  apply res_bind_Ok in E as ([[[mc ?] task] fn] & _ & E). apply res_bind_Ok in E as (c & _ & E).
  apply res_bind_Ok in E as (b & _ & E). apply res_bind_Ok in E as (rn & _ & E).
  apply res_bind_Ok in E as (sorted & Es & E). apply res_bind_Ok in E as (kept' & Ek & E).
  apply res_bind_Ok in E as (sums' & _ & E). injection E as <- <- <-. intros d Hd.
  apply (kept_deps_subset _ _ _ _ _ Ek) in Hd as [?%elem_of_nil|Hd]; [done|].
  by apply (sorted_by_basepath_elem _ _ Es), elem_of_set_iter in Hd.
Qed.

#[local] Existing Instance generator.
#[local] Existing Instance prepare_generator.
Abbreviation hash_task := (@prepare_task_hash siggen (generator env k) (prepare_generator env dataCaches k)).
Abbreviation hash_all_tasks := (@hash_all siggen (generator env k) (prepare_generator env dataCaches k) _).

Lemma unihash_in_other g t t' e : t ≠ t' → unihash_in (dset g t e) t' = unihash_in g t'.
Proof. intros Ht. unfold unihash_in. by rewrite dget_dset_ne. Qed.

(** Other tasks stay as they are. *)
Lemma signed_other g s s' t e0 t' :
  t' ≠ t → (∀ e, dget g t' = Some e → t ∉ depends e) → dget (sg_taints s') t' = dget (sg_taints s) t' →
  signed g s t' → signed (dset g t e0) s' t'.
Proof.
  intros Ht Hdep Hta (e & base & kept & sums & He & Hp & Hh & Hu). exists e, base, kept, sums.
  split; [by rewrite dget_dset_ne|]. split; [done|]. split; [|done]. rewrite Hh. do 2 f_equal.
  - apply List.map_ext_in. intros d Hd%list_elem_of_In. symmetry. apply unihash_in_other. intros ->.
    by apply (Hdep e He), (parts_kept _ _ _ _ _ Hp).
  - unfold taint_of. by rewrite Hta.
Qed.

Lemma hash_task_ok seen g s t :
  hashed_all seen g s → t ∉ seen → t ∉ deps_of g0 t → deps_of g0 t ⊆ list_to_set seen →
  returns s (hash_task g t) (λ g' s', hashed_all (seen ++ [t]) g' s').
Proof.
  intros [Hss Hcl Hsi Hkn Hun] Ht Hself Hdeps. unfold prepare_task_hash. apply returns_lift_bind.
  intros e He%of_option_Ok.
  assert (depends e = deps_of g0 t) as Hde by (rewrite <-(ss_deps _ _ Hss); unfold deps_of; by rewrite He).
  eapply returns_bind; [apply prep_taskhash_ok|]. cbn beta.
  intros _ s1 (Ha & base & kept & sums & Hp & Hset).
  assert (∀ d, d ∈ kept → ∃ h, known s1 d h (unihash_in g d)) as Hk.
  { intros d Hd. apply (parts_kept _ _ _ _ _ Hp) in Hd. rewrite Hde in Hd. apply Hdeps, elem_of_list_to_set, Hkn in Hd as [h Hd].
    exists h. unfold known. by rewrite (pa_taskhash _ _ _ Ha), (pa_unihash _ _ _ Ha). }
  pose proof (get_taskhash_ok s1 t (depends e) base kept sums (unihash_in g) Hset Hk) as Eh. cbv zeta in Eh.
  set (h := signature_hash base (List.map (unihash_in g) kept) sums (taint_of s1 t)) in *.
  apply (returns_bind _ _ _ (λ a s2, a = h ∧ s2 = set_taskhash (dset (sg_taskhash s1) t h) s1)).
  { unfold returns. cbn [sg_get_taskhash generator]. by rewrite Eh. }
  intros ? s2 [-> Es2].
  eapply returns_bind; [apply (get_unihash_ok s2 t h); subst s2; cbn; [by rewrite dget_dset_eq|]|].
  { intros Hn. rewrite (pa_unihash _ _ _ Ha). by apply Hun. }
  cbn beta. intros u s3 (Hkt & Hbasic & Hth & Hta & Huo). apply returns_ret.
  set (e' := set_unihash (set_hash e (Some h)) (Some u)).
  assert (dget (sg_taints s3) = dget (sg_taints s1)) as Hta3 by (rewrite Hta; by subst s2).
  assert (∀ t', t' ∈ seen → t' ≠ t) as Hne by (by intros t' Hin ->).
  assert (t ∈ dkeys g) as Htk by (apply elem_of_dkeys; eauto). split.
  - destruct Hss as [K D R]. split.
    + rewrite dkeys_dset. assert (dmem g t = true) as -> by (by apply dmem_spec). done.
    + intros t'. rewrite <-D. unfold deps_of. rewrite dget_dset. case_decide; subst; [by rewrite He|done].
    + intros t'. rewrite <-R. unfold revdeps_of. rewrite dget_dset. case_decide; subst; [by rewrite He|done].
  - intros t' [Hin|Hin]%elem_of_app; [specialize (Hcl t' Hin); set_solver|]. apply list_elem_of_singleton in Hin as ->. set_solver.
  - intros t' [Hin|Hin]%elem_of_app.
    + apply (signed_other g s); [by apply Hne| | |by apply Hsi].
      * intros e1 E1 Hd. assert (t ∈ deps_of g0 t') as Hd' by (rewrite <-(ss_deps _ _ Hss); unfold deps_of; by rewrite E1).
        apply Hcl in Hd'; [|done]. by apply elem_of_list_to_set in Hd'.
      * rewrite Hta3. apply (pa_taints _ _ _ Ha). by apply Hne.
    + apply list_elem_of_singleton in Hin as ->. exists e', base, kept, sums.
      split; [by rewrite dget_dset_eq|]. split; [exact Hp|]. split; [|split; [by eexists|]].
      * cbn. f_equal. unfold h. f_equal.
        -- apply List.map_ext_in. intros d Hd%list_elem_of_In. symmetry. apply unihash_in_other. intros <-.
           apply (parts_kept _ _ _ _ _ Hp) in Hd. by rewrite Hde in Hd.
        -- unfold taint_of. by rewrite Hta3.
      * intros Hn. cbn. f_equal. by apply Hbasic.
  - intros t' [Hin|Hin]%elem_of_app.
    + rewrite unihash_in_other by (intros <-; by apply (Hne t)). destruct (Hkn t' Hin) as (h' & K1 & K2). exists h'. split.
      * rewrite Hth. subst s2. cbn. rewrite dget_dset_ne by (intros <-; by apply (Hne t)). by rewrite (pa_taskhash _ _ _ Ha).
      * rewrite Huo by (by apply Hne). subst s2. cbn. by rewrite (pa_unihash _ _ _ Ha).
    + apply list_elem_of_singleton in Hin as ->. exists h. unfold unihash_in. rewrite dget_dset_eq. exact Hkt.
  - intros Hn t'. destruct (Hbasic Hn) as [_ ->]. subst s2. cbn. rewrite (pa_unihash _ _ _ Ha). by apply Hun.
Qed.

Lemma hash_all_signed s :
  graph_ok g0 → acyclic g0 → (k ≠ UniHash → sg_unihash s = []) →
  returns s (hash_all_tasks g0) (λ g' s', same_shape g0 g' ∧ ∀ t, t ∈ keys g0 → signed g' s' t).
Proof.
  intros Hg Hac Hun. unfold hash_all. destruct (hash_tasks_ok g0 (go_closed _ Hg) Hac (go_wf _ Hg)) as (order & -> & Hp & Ht).
  apply returns_lift_bind. intros ? [= <-].
  assert (∀ l seen g s, order = seen ++ l → hashed_all seen g s →
    returns s (fold_M hash_task g l) (λ g' s', hashed_all order g' s')) as H.
  { clear s Hun. assert (NoDup order) as Hnd by (rewrite Hp; apply (go_wf _ Hg)).
    induction l as [|t l IH]; intros seen g s E H; cbn [fold_M]; [rewrite app_nil_r in E; subst; by apply returns_ret|].
    eapply returns_bind; [apply hash_task_ok; [exact H|..]|].
    - intros Hin. rewrite E in Hnd. apply NoDup_app in Hnd as (_ & Hd & _). by apply (Hd t Hin), list_elem_of_here.
    - intros Hd. by apply (Hac t), tc_once.
    - by apply (Ht seen t l).
    - cbn beta. intros g' s' H'. apply (IH (seen ++ [t])); [by rewrite <-app_assoc|done]. }
  eapply returns_mono; [apply (H order [] g0)|].
  - done.
  - split; [done|by intros t ?%elem_of_nil..|]. intros Hn t. by rewrite Hun.
  - intros g' s' [Hss _ Hsi _ _]. split; [done|]. intros t Hin. apply Hsi. by rewrite Hp, <-elem_of_keys.
Qed.
End order.

(** ** What the run queue relies on *)

Section fueled.
Hypothesis Hchecksums : ∀ files pn, fueled (se_checksums env files pn).
#[local] Hint Resolve Hchecksums : fueled.

Lemma first_is_fueled c s : fueled (first_is c s).
Proof. unfold first_is. fueled. Qed.
#[local] Hint Resolve first_is_fueled : fueled.

Lemma sorted_fueled l : fueled (sorted_by_basepath l).
Proof.
  unfold sorted_by_basepath. apply fueled_bind; [|intros; fueled]. apply map_res_fueled. intros x. unfold clean_basepath. fueled.
Qed.
#[local] Hint Resolve sorted_fueled : fueled.

Lemma unitask_key_fueled s t : fueled (unitask_key s t).
Proof. unfold unitask_key. fueled. Qed.
#[local] Hint Resolve unitask_key_fueled : fueled.

Lemma get_uni_fueled s t c : fueled (_get_unihash s t c).
Proof. unfold _get_unihash. fueled. Qed.
#[local] Hint Resolve get_uni_fueled : fueled.

Lemma get_unihash_fueled_of t : always_fueled (get_unihash t).
Proof.
  destruct k; cbn [get_unihash_of]; unfold basic_get_unihash, uni_get_unihash, uni_set_unihash, look; always_fueled.
Qed.
#[local] Hint Resolve get_unihash_fueled_of : fueled.

Lemma get_taskhash_fueled_of t d : always_fueled (get_taskhash env get_unihash t d).
Proof.
  unfold get_taskhash, look. always_fueled.
  match goal with |- always_fueled (dep_hashes _ ?l) => induction l as [|x l IH]; cbn [dep_hashes] end; [apply af_ret|].
  unfold dep_hash, look. always_fueled.
Qed.
#[local] Hint Resolve get_taskhash_fueled_of : fueled.

Lemma uni_set_fueled t h : always_fueled (uni_set_unihash t h).
Proof. unfold uni_set_unihash, look. always_fueled. Qed.
#[local] Hint Resolve uni_set_fueled : fueled.

Lemma report_fueled_of t a b c : always_fueled (report_unihash_equiv env t a b c).
Proof. unfold report_unihash_equiv. always_fueled. Qed.
#[local] Hint Resolve report_fueled_of : fueled.

Lemma generator_fueled : @siggen_fueled siggen (generator env k).
Proof.
  split; cbn [sg_stampfile sg_get_taskhash sg_get_unihash sg_set_unihash sg_report_unihash_equiv generator].
  - intros g a b c d. unfold stampfile_of, hash_stampfile, uni_stampfile_hash, get_stampfile_hash. fueled.
  - intros t d. apply get_taskhash_fueled_of.
  - intros t. apply get_unihash_fueled_of.
  - intros t h. destruct k; [by intros g..|apply uni_set_fueled].
  - intros t a b c. destruct k; [by intros g..|]. assert (always_fueled (_ ← report_unihash_equiv env t a b c; mret tt)) as H
      by always_fueled. exact H.
Qed.

Lemma prep_fueled t d : always_fueled (prep_taskhash env dataCaches t d).
Proof.
  unfold prep_taskhash, prep_dep, append_dep, prep_checksums, prep_taint, look, cache. always_fueled.
Qed.

Lemma prepare_generator_fueled : @prepare_fueled siggen (generator env k) (prepare_generator env dataCaches k).
Proof.
  split; cbn [sg_invalidate_task sg_tasks_resolved sg_set_setscene_tasks sg_prep_taskhash sg_writeout_file_checksum_cache prepare_generator].
  - apply generator_fueled.
  - intros n c f. assert (always_fueled (write_taint env n c f)) as H by (unfold write_taint; always_fueled).
    destruct k; [by intros g|exact H..].
  - by intros a b c g.
  - by intros l g.
  - intros t d. apply prep_fueled.
  - by intros g.
Qed.
End fueled.
End hashes.

(** ** The hash of a dumped signature *)

Section dumped.
Context `{!SetOrder string} (env : sig_env) (str_of : value → string).
Context (g0 : dict (gset string)) (vals : dict (option value)).

(** The values that are dumped are those of the task and its dependencies. *)
Lemma dump_vars_ok g task l :
  is_Some (dget vals task) →
  (∀ d, d ∈ l → is_Some (dget g d) ∧ is_Some (dget vals d) ∧ d ∉ se_basewhitelist env) →
  ∃ gd vv, dump_vars env g vals task l = Ok (gd, vv) ∧ ∀ d, d ∈ task :: l → dget vv d = dget vals d.
Proof.
  intros [v Ev] Hl. unfold dump_vars. rewrite Ev. cbn [of_option mbind res_bind].
  assert (∀ l0 gd vv, (∀ d, d ∈ task :: l0 → dget vv d = dget vals d) →
    ∃ gd' vv', fold_res (λ st dep, if bool_decide (dep ∈ se_basewhitelist env) then Ok st
      else g ← of_option KeyError (dget g dep); v ← of_option KeyError (dget vals dep); Ok (dset st.1 dep g, dset st.2 dep v)) (gd, vv) l =
      Ok (gd', vv') ∧ ∀ d, d ∈ task :: l0 ∨ d ∈ l → dget vv' d = dget vals d) as H.
  { clear v Ev. induction l as [|x l IH]; intros l0 gd vv H0; cbn [fold_res].
    { exists gd, vv. split; [done|]. intros d [Hd|?%elem_of_nil]; [by apply H0|done]. }
    destruct (Hl x (list_elem_of_here _ _)) as ([gx Ex] & [vx Vx] & Hw). rewrite bool_decide_eq_false_2 by done.
    rewrite Ex, Vx. cbn [of_option mbind res_bind fst snd].
    destruct (IH (λ d H, Hl d (list_elem_of_further _ _ _ H)) (x :: l0) (dset gd x gx) (dset vv x vx)) as (gd' & vv' & E & H).
    - intros d Hd. rewrite dget_dset. case_decide as Hdx; [by subst|]. apply H0. clear -Hd Hdx. set_solver.
    - exists gd', vv'. split; [exact E|]. intros d Hd. apply H. clear -Hd. set_solver. }
  destruct (H [] [] [(task, v)]) as (gd & vv & E & Hv).
  - intros d ->%list_elem_of_singleton. cbn. by rewrite decide_True.
  - exists gd, vv. split; [exact E|]. intros d Hd. apply Hv. clear -Hd. set_solver.
Qed.

(** The base hash that [dump_sigtask] computes again is the one that was
    generated. *)
Lemma dump_basehash g task l base rd cs rh th u taint :
  is_Some (dget g0 task) → complete (se_basewhitelist env) (g0, vals) → exact_deps (se_basewhitelist env) g0 task l →
  is_text vals task → (∀ k, is_Some (dget g0 k) → is_Some (dget g k)) →
  ∃ gd vv, dump_vars env g vals task l = Ok (gd, vv) ∧
    calc_basehash env str_of (MkSigData task l base gd vv rd cs rh th u taint) =
      Ok (se_sha256 env (hashed_text vals str_of task l)).
Proof.
  intros Ht Hc [_ _ Hall] (v & Ev & Hv) Hg.
  destruct (dump_vars_ok g task l) as (gd & vv & E & Hvv); [by eexists|..].
  { intros d Hd. apply Hall, (tc_known (se_basewhitelist env) g0 vals Hc task d Ht) in Hd as [Hd Hw].
    split; [by apply Hg|]. split; [|done]. by apply (Hc d Hd). }
  exists gd, vv. split; [exact E|]. unfold calc_basehash. cbn [sd_varvals sd_task sd_taskdeps].
  rewrite (Hvv task), Ev by apply list_elem_of_here. cbn [of_option mbind res_bind].
  assert (start_text v l = Ok (text_of vals str_of task)) as ->.
  { unfold text_of. rewrite Ev. by destruct v as [[]|]. }
  cbn [mbind res_bind]. rewrite base_data_ok.
  - cbn [mbind res_bind]. do 2 f_equal. unfold hashed_text. f_equal. f_equal. apply List.map_ext_in.
    intros d Hd%list_elem_of_In. f_equal. unfold text_of. by rewrite Hvv by by apply list_elem_of_further.
  - intros d Hd. rewrite Hvv by by apply list_elem_of_further.
    apply Hall, (tc_known (se_basewhitelist env) g0 vals Hc task d Ht) in Hd as [Hd _]. by apply (Hc d Hd).
Qed.
End dumped.

(** ** Properties *)

#[local] Instance keeps_unihash : PreOrder (λ s s' : siggen, sg_unihash s' = sg_unihash s).
Proof. split; [by intros s|]. intros a b c H1 H2. congruence. Qed.


(** ** A recipe with two tasks, one of which is always run *)

#[local] Existing Instance set_order_elements.

Definition signed_recipe : RecipeInfo :=
  MkRecipeInfo "a" "" "1.0" "r0" (MkTaskDeps ["do_fetch"; "do_build"] [] [("nostamp", [("do_fetch", "1")])]) 0 [] [] [] [] [] [] [] [] [] []
    "" "/st/a" "" [] [("do_build", "list.txt")] [("do_fetch", "F"); ("do_build", "B")] "" [] "" "" "" "".

Definition signed_caches : dict CacheData :=
  [("", (add_cacheData "/l/a/a.bb" (init_cacheData, signed_recipe)).1.1)].

(** Hashes that can be read; the server knows another hash for one task. *)
Definition readable : sig_env :=
  SigEnv (λ s, "<" +s+ s +s+ ">") ∅ None true (λ f _, Ok [(f, "sum")]) (λ _, None) (λ n, "uuid")
    "m" [] (λ _ _ h, if bool_decide (h = "<Fuuid>") then Some (Some "known") else Some None) (λ _ _ _ _, None).

Definition signed_task_data : dict TaskData :=
  [("", MkTaskData [("a", ["/l/a/a.bb"])] [] ["a"] []
      [("/l/a/a.bb:do_build", task_entry ["/l/a/a.bb:do_fetch"]); ("/l/a/a.bb:do_fetch", task_entry [])]
      [("/l/a/a.bb", [])] [("/l/a/a.bb", [])] [] [] [] [] true false [] [])].

Definition signed_config : prepare_config :=
  PrepareConfig [Target "" "a" "do_build" "/l/a/a.bb"] [] [] false false None [] "".

Abbreviation prepare_signed := (@prepare siggen (generator readable UniHash) (prepare_generator readable signed_caches UniHash) _
  signed_caches signed_config signed_task_data (new_siggen [])).

Definition signed_prepared : prepared :=
  match prepare_signed.2 with Ok (Some p) => p | _ => Prepared [] [] [] [] ∅ [] [] end.

Lemma prepare_signed_ok : prepare_signed = (prepare_signed.1, Ok (Some signed_prepared)).
Proof.
  assert (match prepare_signed.2 with Ok (Some _) => true | _ => false end = true) as H by (vm_compute; reflexivity).
  unfold signed_prepared. destruct prepare_signed as [s [[p|]|x]]; done.
Qed.

Definition signed_entry (t : string) : RunTaskEntry := default (entry []) (dget (pd_entries signed_prepared) t).

Lemma signed_entry_ok t : t ∈ ["/l/a/a.bb:do_build"; "/l/a/a.bb:do_fetch"] → dget (pd_entries signed_prepared) t = Some (signed_entry t).
Proof.
  intros Ht. unfold signed_entry. assert (is_Some (dget (pd_entries signed_prepared) t)) as [e ->]; [|done].
  assert (Forall (λ t, is_Some (dget (pd_entries signed_prepared) t)) ["/l/a/a.bb:do_build"; "/l/a/a.bb:do_fetch"]) as H by by_eval.
  rewrite Forall_forall in H. by apply H.
Qed.


(** Two recipes of the same directory and file name in different layers have
    one place in the order: the order of a set decides, and with it the hash. *)
Lemma same_place_order :
  sorted_by_basepath ["/l1/x/r.bb:do_a"; "/l2/x/r.bb:do_a"] = Ok ["/l1/x/r.bb:do_a"; "/l2/x/r.bb:do_a"] ∧
  sorted_by_basepath ["/l2/x/r.bb:do_a"; "/l1/x/r.bb:do_a"] = Ok ["/l2/x/r.bb:do_a"; "/l1/x/r.bb:do_a"].
Proof. vm_compute. split; reflexivity. Qed.
