(* ===== verification/Ast.v ===== *)
(** * Statements of recipes (bb/parse/ast.py, bb/build.py)

    What a recipe or configuration file is parsed into, and how each statement
    changes the data store.  The statements that read other files, [include],
    [require] and [inherit], get the reading as an argument ([RecipeFiles]
    supplies it).  The tables of tasks, [addtask], [deltask] and [add_tasks],
    are functions of bb/build.py. *)

From Stdlib Require Import Ascii String.
From stdpp Require Import pretty.
From S2P Require Import Prelude.
From S2P Require Import PyStr.
From S2P Require Import PyDict.
From S2P Require Import DataStore.
From S2P Require Import VarDeps.

(** ** Statements *)

(** The operators of an assignment. *)
Inductive assign_op : Type :=
  | OpSet
  | OpLazyques
  | OpQues
  | OpColon
  | OpAppend
  | OpPrepend
  | OpPredot
  | OpPostdot.

#[export] Instance assign_op_eq_dec : EqDecision assign_op.
Proof. solve_decision. Defined.

(** The groups of the expression an assignment is matched with, of which one
    operator at most matched. *)
Record groupd : Type := Groupd {
  g_exp : bool;
  g_var : string;
  g_flag : option string;
  g_op : assign_op;
  g_value : string
}.

#[export] Instance groupd_eq_dec : EqDecision groupd.
Proof. solve_decision. Defined.

Inductive statement : Type :=
  | IncludeNode (what_file : string) (force : bool)
  | ExportNode (var : string)
  | UnsetNode (var : string)
  | UnsetFlagNode (var flag : string)
  | DataNode (g : groupd)
  | MethodNode (func_name : string) (body : list string) (python fakeroot : bool)
  | PythonMethodNode (function modulename : string) (body : list string)
  | ExportFuncsNode (n : list string) (classname : string)
  | AddTaskNode (func : string) (before after : option string)
  | DelTaskNode (tasks : string)
  | BBHandlerNode (hs : list string)
  | InheritNode (classes : string).

#[export] Instance statement_eq_dec : EqDecision statement.
Proof. solve_decision. Defined.

(** A statement with the place it is at. *)
Record AstNode : Type := MkNode {
  n_filename : string;
  n_lineno : Z;
  n_statement : statement
}.

#[export] Instance AstNode_eq_dec : EqDecision AstNode.
Proof. solve_decision. Defined.

(** [filename.translate(MethodNode.tr_tbl)] *)
Fixpoint translate (s : string) : string :=
  match s with
  | "" => ""
  | String c s => String (if char_in c "/.+-@%&" then "_" else c)%char (translate s)
  end.

(** [l.remove(x)] for an [x] that is there. *)
Fixpoint remove_first (x : string) (l : list string) : list string :=
  match l with
  | [] => []
  | y :: l => if bool_decide (y = x) then l else y :: remove_first x l
  end.

(** [v or []] for a value that is iterated, searched or appended to. *)
Definition or_empty (v : option value) : value :=
  if truthy v then default VNone v else VList [].

(** [x in v] *)
Definition value_has (v : value) (x : string) : res bool :=
  match v with
  | VList l => Ok (bool_decide (x ∈ l))
  | VStr s => Ok (str_in x s)
  | VSet s => Ok (bool_decide (x ∈ s))
  | VOps _ | VFiles _ => Ok false
  | VTable t => Ok (bool_decide (x ∈ "tasks" :: "parents" :: dkeys (tt_flags t)))
  | _ => Raise TypeError
  end.

(** [v.append(x)] *)
Definition value_append (v : value) (x : string) : res value :=
  match v with VList l => Ok (VList (l ++ [x])) | _ => Raise AttributeError end.

(** [v.remove(x)] for an [x] that is in [v]. *)
Definition value_remove (v : value) (x : string) : res value :=
  match v with
  | VList l => Ok (VList (remove_first x l))
  | VSet s => Ok (VSet (s ∖ {[x]}))
  | _ => Raise AttributeError
  end.

(** [if x not in v: v.append(x)] *)
Definition value_add (v : value) (x : string) : res value :=
  has ← value_has v x;
  if (has : bool) then Ok v else value_append v x.

(** [[x] + v] *)
Definition value_cons (x : string) (v : value) : res value :=
  match v with VList l => Ok (VList (x :: l)) | _ => Raise TypeError end.

(** ** Evaluation *)

Section evaluation.
Context `{!SetOrder string}.
Context (python_eval : option string → string → data python_result) (loop_fuel depth : nat).
(** [str(v)] of a value that is no string. *)
Context (str_of : value → string).
(** Compiles and runs the text of a function definition of a recipe. *)
Context (insert_method : string → string → res unit).

Abbreviation getVar := (getVar python_eval loop_fuel depth).
Abbreviation read_flag := (read_flag python_eval loop_fuel depth).
Abbreviation setVar := (setVar python_eval loop_fuel depth).
Abbreviation setVal := (setVal python_eval loop_fuel depth).
Abbreviation setVarFlag := (setVarFlag python_eval loop_fuel depth).

(** [data.expand(v)] *)
Definition expand_value (v : value) : data value :=
  p ← expandWithRefs python_eval loop_fuel (getVarFlag python_eval loop_fuel depth) (some_value v) None;
  mret (default VNone (p_value p)).

Definition expand_text (s : string) : data string :=
  v ← expand_value (VStr s); lift (as_str (Some v)).

(** *** [DataNode] *)

(** [getFunc] *)
Definition getFunc (g : groupd) : data (option value) :=
  r ← get_flag python_eval loop_fuel depth
    (match g_flag g with
     | Some flag => FlagCall (g_var g) flag false true false false
     | None => FlagCall (g_var g) "_content" false true true false
     end);
  mret r.1.

(** [(self.getFunc(key, data) or "")] in a format. *)
Definition old_text (g : groupd) : data string :=
  v ← getFunc g;
  mret (if truthy v then match v with Some v => value_text str_of v | None => "" end else "").

(** The value that is assigned. *)
Definition new_value (g : groupd) : data value :=
  match g_op g with
  | OpQues => v ← getFunc g; mret (default (VStr (g_value g)) v)
  | OpColon =>
      in_copy (p ← expandWithRefs python_eval loop_fuel (getVarFlag python_eval loop_fuel depth)
                     (Some (VStr (g_value g))) (Some (g_var g +s+ "[:=]"));
               mret (default VNone (p_value p)))
  | OpAppend => s ← old_text g; mret (VStr (s +s+ " " +s+ g_value g))
  | OpPrepend => s ← old_text g; mret (VStr (g_value g +s+ " " +s+ s))
  | OpPostdot => s ← old_text g; mret (VStr (s +s+ g_value g))
  | OpPredot => s ← old_text g; mret (VStr (g_value g +s+ s))
  | OpSet | OpLazyques => mret (VStr (g_value g))
  end.

(** The flag that is assigned to, when it is one. *)
Definition target_flag (g : groupd) : option string :=
  match g_flag g with
  | Some flag => Some flag
  | None => if bool_decide (g_op g = OpLazyques) then Some "_defaultval" else None
  end.

Definition eval_data (g : groupd) : data unit :=
  _ ← (if g_exp g then setVarFlag (g_var g) "export" (VInt 1) else mret tt);
  v ← new_value g;
  match target_flag g with
  | Some flag => if str_empty flag then setVal (g_var g) v true else setVarFlag (g_var g) flag v
  | None => setVal (g_var g) v true
  end.

(** *** Functions *)

(** The name of an anonymous function, its text, and its entry in the list of
    those to run. *)
Definition anonymous (filename : string) (lineno : Z) (text : string) : data (string * string) :=
  let funcname := "__anon_" +s+ pretty lineno +s+ "_" +s+ translate filename in
  let text := "def " +s+ funcname +s+ "(d):" +s+ str1 newline +s+ text in
  _ ← lift (insert_method funcname text);
  v ← getVar "__BBANONFUNCS" false;
  v ← lift (value_append (or_empty v) funcname);
  _ ← setVal "__BBANONFUNCS" v false;
  mret (funcname, text).

Definition eval_method (filename : string) (lineno : Z) (func_name : string) (body : list string) (python fakeroot : bool) : data unit :=
  let text := join (str1 newline) body in
  let anon := bool_decide (func_name = "__anonymous") in
  '(funcname, text) ← (if anon then anonymous filename lineno text else mret (func_name, text));
  old ← getVar funcname false;
  _ ← (if truthy old then _ ← delVarFlag funcname "python"; delVarFlag funcname "fakeroot" else mret tt);
  _ ← (if python || anon then setVarFlag funcname "python" (VStr "1") else mret tt);
  _ ← (if fakeroot then setVarFlag funcname "fakeroot" (VStr "1") else mret tt);
  _ ← setVarFlag funcname "func" (VInt 1);
  _ ← setVar funcname text true;
  _ ← setVarFlag funcname "filename" (VStr filename);
  setVarFlag funcname "lineno" (VStr (pretty (lineno - Z.of_nat (List.length body))%Z)).

Definition eval_python_method (filename : string) (lineno : Z) (function modulename : string) (body : list string) : data unit :=
  let text := join (str1 newline) body in
  _ ← lift (insert_method modulename text);
  _ ← setVarFlag function "func" (VInt 1);
  _ ← setVarFlag function "python" (VInt 1);
  _ ← setVar function text true;
  _ ← setVarFlag function "filename" (VStr filename);
  setVarFlag function "lineno" (VStr (pretty (lineno - Z.of_nat (List.length body) - 1)%Z)).

(** [data.getVarFlag(v, flag, False)] copied to another variable, when it
    counts. *)
Definition copy_flag (from to flag : string) : data unit :=
  v ← read_flag from flag false;
  if truthy v then setVarFlag to flag (default VNone v) else mret tt.

(** One function of EXPORT_FUNCTIONS. *)
Definition export_func (classname func : string) : data unit :=
  let calledfunc := classname +s+ "_" +s+ func in
  old ← getVar func false;
  exported ← (if truthy old then read_flag func "export_func" false else mret None);
  if truthy old && negb (truthy exported) then mret tt
  else
    old ← getVar func false;
    _ ← (if truthy old then _ ← setVarFlag func "python" VNone; setVarFlag func "func" VNone else mret tt);
    _ ← for_each ["func"; "python"] (copy_flag calledfunc func);
    _ ← for_each ["dirs"] (copy_flag func calledfunc);
    _ ← setVarFlag func "filename" (VStr "autogenerated");
    _ ← setVarFlag func "lineno" (VInt 1);
    python ← read_flag calledfunc "python" false;
    _ ← (if truthy python then
           setVar func ("    bb.build.exec_func('" +s+ calledfunc +s+ "', d)" +s+ str1 newline) true
         else if char_in "-" classname then raise Fatal
         else setVar func ("    " +s+ calledfunc +s+ str1 newline) true);
    setVarFlag func "export_func" (VStr "1").

(** *** Tasks *)

(** [if task[:3] != "do_": task = "do_" + task] *)
Definition task_name (task : string) : string :=
  if bool_decide (str_take 3 task = "do_") then task else "do_" +s+ task.

(** [d.getVarFlag(task, "deps", False) or []] *)
Definition read_deps (task : string) : data value :=
  v ← read_flag task "deps" false; mret (or_empty v).

Definition read_tasks : data value :=
  v ← getVar "__BBTASKS" false; mret (or_empty v).

(** The words of [before] or [after], when there are any. *)
Definition optional_words (s : option string) : list string :=
  match s with Some s => split_ws s | None => [] end.

Definition addtask (task : string) (before after : option string) : data unit :=
  let task := task_name task in
  _ ← setVarFlag task "task" (VInt 1);
  bbtasks ← read_tasks;
  bbtasks ← lift (value_add bbtasks task);
  _ ← setVal "__BBTASKS" bbtasks false;
  existing ← read_deps task;
  existing ← lift (fold_res value_add existing (optional_words after));
  _ ← setVarFlag task "deps" existing;
  for_each (optional_words before) (λ entry,
    existing ← read_deps entry;
    has ← lift (value_has existing task);
    if (has : bool) then mret tt
    else v ← lift (value_cons task existing); setVarFlag entry "deps" v).

Definition deltask (task : string) : data unit :=
  let task := task_name task in
  bbtasks ← read_tasks;
  has ← lift (value_has bbtasks task);
  _ ← (if (has : bool) then
         bbtasks ← lift (value_remove bbtasks task);
         _ ← delVarFlag task "task";
         setVal "__BBTASKS" bbtasks false
       else mret tt);
  _ ← delVarFlag task "deps";
  bbtasks ← read_tasks;
  tasks ← lift (members (Some bbtasks));
  for_each tasks (λ bbtask,
    deps ← read_deps bbtask;
    has ← lift (value_has deps task);
    if (has : bool) then v ← lift (value_remove deps task); setVarFlag bbtask "deps" v else mret tt).

(** The flags [add_tasks] collects. *)
Definition task_flags : list string :=
  ["mcdepends"; "depends"; "rdepends"; "deptask"; "rdeptask"; "recrdeptask"; "recideptask"; "nostamp"; "fakeroot"; "noexec"; "umask"].

(** The value of a flag that is kept; other values than texts and numbers do
    not occur there. *)
Definition scalar_of (v : value) : res scalar :=
  match v with VStr s => Ok (Text s) | VInt n => Ok (Number n) | _ => Raise TypeError end.

(** [getTask] *)
Definition getTask (task : string) (flags : dict value) (tt_fl : dict (dict scalar)) (name : string) : data (dict (dict scalar)) :=
  let tasks := default [] (dget tt_fl name) in
  match dget flags name with
  | None => mret (dset tt_fl name tasks)
  | Some v =>
      v ← expand_value v;
      x ← lift (scalar_of v);
      mret (dset tt_fl name (dset tasks task x))
  end.

(** One task of [add_tasks]. *)
Definition add_task (t : task_table) (task : string) : data task_table :=
  task ← expand_text task;
  _ ← setVarFlag task "task" (VInt 1);
  let tasks := if bool_decide (task ∈ tt_tasks t) then tt_tasks t else tt_tasks t ++ [task] in
  flags ← getVarFlags python_eval loop_fuel depth task [] false;
  flags ← lift (of_option TypeError flags);
  fl ← fold_state (getTask task flags) (tt_flags t) task_flags;
  deps ← lift (match dget flags "deps" with Some v => members (Some v) | None => Ok [] end);
  deps ← map_state expand_text deps;
  mret (TaskTable tasks (dset (tt_parents t) task deps) fl).

Definition add_tasks (tasklist : list string) : data unit :=
  v ← getVar "_task_deps" false;
  t ← lift (if truthy v then match v with Some (VTable t) => Ok t | _ => Raise TypeError end
            else Ok (TaskTable [] [] []));
  t ← fold_state add_task t tasklist;
  setVal "_task_deps" (VTable t) false.

(** [preceedtask] *)
Definition preceedtask (task : string) (with_recrdeptasks : bool) : data (gset string) :=
  tasks ← getVar "__BBTASKS" false;
  has ← lift (value_has (default VNone tasks) task);
  if negb has then mret ∅
  else
    deps ← read_flag task "deps" true;
    deps ← lift (members (Some (or_empty deps)));
    rec ← (if with_recrdeptasks then read_flag task "recrdeptask" true else mret None);
    words ← lift (words_of rec);
    mret (list_to_set (deps ++ words)).

(** [follow_chain], with at most [n] calls inside one another: the chains from
    [task] to [endtask] along the tasks that depend on one another; a task
    without the flag [deps] raises. *)
Fixpoint follow_chain (n : nat) (tasks : list string) (task endtask : string) (chain outtasks : list string) : data (list string) :=
  match n with
  | O => raise RecursionError
  | S n =>
      let chain := chain ++ [task] in
      fold_state (λ outtasks othertask,
        if String.eqb othertask task then mret outtasks
        else if String.eqb task endtask then
          mret (foldl (λ out ctask, if bool_decide (ctask ∈ out) then out else out ++ [ctask]) outtasks chain)
        else
          deps ← read_flag othertask "deps" false;
          has ← lift (value_has (default VNone deps) task);
          if (has : bool) then follow_chain n tasks othertask endtask chain outtasks else mret outtasks) outtasks tasks
  end.

(** [tasksbetween] *)
Definition tasksbetween (task_start task_end : string) : data (list string) :=
  keys ← data_keys python_eval loop_fuel depth;
  tasks ← fold_state (λ tasks k,
    v ← read_flag k "task" true;
    mret (if truthy v then tasks ++ [k] else tasks)) [] (set_iter keys);
  follow_chain depth tasks task_start task_end [] [].

(** *** Handlers of events *)

Definition eval_handlers (hs : list string) : data unit :=
  v ← getVar "__BBHANDLERS" false;
  v ← fold_state (λ v h,
        v ← lift (value_append v h);
        _ ← setVarFlag h "handler" (VInt 1);
        mret v) (or_empty v) hs;
  setVal "__BBHANDLERS" v false.

(** ** All statements but those that read files *)

Definition eval_plain (n : AstNode) : data unit :=
  match n_statement n with
  | ExportNode var => setVarFlag var "export" (VInt 1)
  | UnsetNode var => delVar var
  | UnsetFlagNode var flag => delVarFlag var flag
  | DataNode g => eval_data g
  | MethodNode f body python fakeroot => eval_method (n_filename n) (n_lineno n) f body python fakeroot
  | PythonMethodNode f m body => eval_python_method (n_filename n) (n_lineno n) f m body
  | ExportFuncsNode fs classname => for_each fs (export_func classname)
  | AddTaskNode func before after => addtask func before after
  | DelTaskNode tasks => s ← expand_text tasks; for_each (split_ws s) deltask
  | BBHandlerNode hs => eval_handlers hs
  | IncludeNode _ _ | InheritNode _ => mret tt
  end.
End evaluation.
