(* ===== verification/RecipeSyntax.v ===== *)
(** * Reading recipes and configuration files line by line
    (bb/parse/parse_py/ConfHandler.py, BBHandler.py)

    The regular expressions of both parsers as functions, and the two
    [feeder]s that turn a line into a statement.  The recipe parser keeps what
    it has read of an unfinished function or line in globals of its module
    ([bb_globals]).  A line never holds a newline, so the dot of an expression
    stands for every character and the dollar sign for the end; the characters
    of a word are those of ASCII. *)

From Stdlib Require Import Ascii String.
From S2P Require Import Prelude.
From S2P Require Import PyStr.
From S2P Require Import PyDict.
From S2P Require Import Ast.

(** ** Expressions *)

Definition last_char (s : string) : option ascii :=
  match str_drop (String.length s - 1) s with String c "" => Some c | _ => None end.

(** [s[-1] == c] *)
Definition last_is (c : ascii) (s : string) : res bool :=
  match last_char s with Some a => Ok (Ascii.eqb a c) | None => Raise IndexError end.

(** [s and s[-1] == c], [s and s[0] == c] *)
Definition ends_in (c : ascii) (s : string) : bool := match last_char s with Some a => Ascii.eqb a c | None => false end.
Definition starts_in (c : ascii) (s : string) : bool := match s with String a _ => Ascii.eqb a c | "" => false end.

(** [word\s+] at the start. *)
Definition after_word (word s : string) : option string :=
  if startswith s word then
    match span is_space (str_drop (String.length word) s) with
    | ("", _) => None
    | (_, rest) => Some rest
    end
  else None.

(** [word\s+(.+)]: when there is nothing after the blanks the last of them is
    the group, if another is left. *)
Definition word_arg (word s : string) : option string :=
  if startswith s word then
    match span is_space (str_drop (String.length word) s) with
    | ("", _) => None
    | (String _ "", "") => None
    | (blanks, "") => str1 <$> last_char blanks
    | (_, rest) => Some rest
    end
  else None.

(** *** Assignments *)

(** [[a-zA-Z0-9\-_+.${}/~]] and [[a-zA-Z0-9\-_+.]] *)
Definition is_flag_char (c : ascii) : bool := is_letter c || is_digit c || char_in c "-_+.".
Definition is_var_char (c : ascii) : bool := is_flag_char c || char_in c "${}/~".

(** [\[(?P<flag>...)\]] *)
Definition flag_at (s : string) : option (string * string) :=
  match s with
  | String "[" s =>
      match span is_flag_char s with
      | ("", _) => None
      | (flag, String "]" rest) => Some (flag, rest)
      | _ => None
      end
  | _ => None
  end.

Definition operators : list (string * assign_op) :=
  [(":=", OpColon); ("??=", OpLazyques); ("?=", OpQues); ("+=", OpAppend); ("=+", OpPrepend); ("=.", OpPredot);
   (".=", OpPostdot); ("=", OpSet)].

(** The first operator the text starts with.  Where a longer one matches, a
    shorter one leaves no quote to go on with. *)
Definition op_at (s : string) : option (assign_op * string) :=
  match List.find (λ o, startswith s o.1) operators with
  | Some (text, op) => Some (op, str_drop (String.length text) s)
  | None => None
  end.

Definition count_char (c : ascii) (s : string) : nat :=
  List.length (List.filter (Ascii.eqb c) (list_ascii_of_string s)).

(** ['[^']*'[^']*'$]: a third quote ends the text. *)
Definition three_quotes (q : ascii) (s : string) : bool :=
  starts_in q s && ends_in q s && bool_decide (count_char q s = 3).

Definition single_quote : ascii := "'".
Definition double_quote : ascii := "034".

(** The two lookaheads, the quote, the value and the same quote at the end. *)
Definition quoted_at (s : string) : option string :=
  if three_quotes single_quote s || three_quotes double_quote s then None
  else
    match s with
    | "" => None
    | String q s =>
        if (Ascii.eqb q single_quote || Ascii.eqb q double_quote) && ends_in q s then Some (str_drop_last 1 s) else None
    end.

(** What follows the name of the variable. *)
Definition config_tail (s : string) : option (option string * assign_op * string) :=
  let '(flag, s) := match flag_at s with Some (flag, s) => (Some flag, s) | None => (None, s) end in
  '(op, s) ← op_at (lstrip is_space s);
  v ← quoted_at (lstrip is_space s);
  Some (flag, op, v).

(** The shortest name after which the rest matches. *)
Fixpoint config_scan (s : string) : option (string * (option string * assign_op * string)) :=
  match s with
  | "" => None
  | String c s =>
      if is_var_char c then
        match config_tail s with
        | Some t => Some (str1 c, t)
        | None => match config_scan s with Some (var, t) => Some (String c var, t) | None => None end
        end
      else None
  end.

Definition config_groups (exp : bool) (m : string * (option string * assign_op * string)) : groupd :=
  let '(var, (flag, op, v)) := m in Groupd exp var flag op v.

(** [__config_regexp__.match(s)] *)
Definition config_match (s : string) : option groupd :=
  match after_word "export" s ≫= config_scan with
  | Some m => Some (config_groups true m)
  | None => config_groups false <$> config_scan s
  end.

(** *** Other lines of a configuration file *)

(** [(...)$] over the characters of a name. *)
Definition whole_name (s : string) : option string :=
  if negb (str_empty s) && str_all is_var_char s then Some s else None.

(** [__export_regexp__], [__unset_regexp__] and [__unset_flag_regexp__] *)
Definition export_match (s : string) : option string := after_word "export" s ≫= whole_name.
Definition unset_match (s : string) : option string := after_word "unset" s ≫= whole_name.

Definition unset_flag_match (s : string) : option (string * string) :=
  s ← after_word "unset" s;
  match span is_var_char s with
  | ("", _) => None
  | (var, s) => match flag_at s with Some (flag, "") => Some (var, flag) | _ => None end
  end.

(** [ConfHandler.feeder] *)
Definition conf_feeder (lineno : Z) (s fn : string) : res (list AstNode) :=
  let node st := Ok [MkNode fn lineno st] in
  match config_match s with Some g => node (DataNode g) | None =>
  match word_arg "include" s with Some f => node (IncludeNode f false) | None =>
  match word_arg "require" s with Some f => node (IncludeNode f true) | None =>
  match export_match s with Some v => node (ExportNode v) | None =>
  match unset_match s with Some v => node (UnsetNode v) | None =>
  match unset_flag_match s with Some (v, f) => node (UnsetFlagNode v f) | None =>
  Raise ParseError end end end end end end.

(** ** Configuration files *)

Definition backslash : ascii := "\".

(** The lines [readline] gives, without their ends. *)
Definition lines_of (text : string) : list string :=
  match List.rev (split_on newline text) with
  | "" :: l => List.rev l
  | l => List.rev l
  end.

Definition conf_line (fn : string) (lineno : Z) (s : string) : res (list AstNode) :=
  if starts_in "#" s then Ok [] else conf_feeder lineno s fn.

(** [s[:-1] + s2], for a line that ends in a backslash and the next one. *)
Definition continued (s s2 : string) : res string :=
  if negb (starts_in "#" s2) && starts_in "#" s then Raise Fatal
  else Ok (str_drop_last 1 s +s+ s2).

(** At the end of the file every [readline] gives the empty line. *)
Fixpoint conf_end (n : nat) (fn : string) (lineno : Z) (s : string) : res (list AstNode) :=
  match n with
  | O => Raise OutOfFuel
  | S n =>
      s ← continued s "";
      more ← last_is backslash s;
      if (more : bool) then conf_end n fn (lineno + 1) s else conf_line fn (lineno + 1) s
  end.

(** The loop of [ConfHandler.handle]; [pending] is the line that goes on. *)
Fixpoint conf_lines (fn : string) (pending : option string) (lineno : Z) (lines : list string) : res (list AstNode) :=
  match lines with
  | [] => match pending with Some s => conf_end (String.length s) fn lineno s | None => Ok [] end
  | line :: lines =>
      let lineno := (lineno + 1)%Z in
      if bool_decide (pending = None) && str_empty (strip is_space line) then conf_lines fn None lineno lines
      else
        s ← (match pending with
             | None => Ok (rstrip is_space line)
             | Some s => continued s (rstrip is_space line)
             end);
        more ← last_is backslash s;
        if (more : bool) then conf_lines fn (Some s) lineno lines
        else
          l1 ← conf_line fn lineno s;
          l2 ← conf_lines fn None lineno lines;
          Ok (l1 ++ l2)
  end.

(** The statements of a configuration file. *)
Definition conf_statements (fn text : string) : res (list AstNode) := conf_lines fn None 0 (lines_of text).

(** ** Expressions of recipes *)

Definition is_word_char (c : ascii) : bool := is_letter c || is_digit c || Ascii.eqb c "_".
Definition is_func_char (c : ascii) : bool := is_word_char c || char_in c ".-+{}$".

(** The words [python] and [fakeroot] at the start, with the blanks after
    each, and which of them occurred. *)
Fixpoint func_keywords (n : nat) (s : string) (py fr : bool) : string * bool * bool :=
  match n with
  | O => (s, py, fr)
  | S n =>
      if startswith s "python" then func_keywords n (lstrip is_space (str_drop 6 s)) true fr
      else if startswith s "fakeroot" then func_keywords n (lstrip is_space (str_drop 8 s)) py true
      else (s, py, fr)
  end.

(** Parentheses and a brace at the end, with blanks anywhere before them. *)
Definition func_open (s : string) : bool :=
  match lstrip is_space s with
  | String "(" s =>
      match lstrip is_space s with
      | String ")" s => String.eqb (lstrip is_space s) "{"
      | _ => false
      end
  | _ => false
  end.

(** [__func_start_regexp__]: name, and whether the function is Python or runs
    under fakeroot. *)
Definition func_start_match (s : string) : option (string * bool * bool) :=
  let '(s, py, fr) := func_keywords (String.length s) s false false in
  let '(func, s) := span is_func_char s in
  if func_open s then Some (func, py, fr) else None.

(** [__def_regexp__] *)
Definition def_match (s : string) : option string :=
  s ← after_word "def" s;
  match span is_word_char s with
  | ("", _) => None
  | (name, rest) => if char_in ":" rest then Some name else None
  end.

(** [__python_func_regexp__] *)
Definition python_func_match (s : string) : bool :=
  match s with "" => true | String c _ => is_space c || Ascii.eqb c "#" end.

(** The text before the last place where [w] starts, and from there. *)
Fixpoint cut_last (w s : string) : option (string * string) :=
  match s with
  | "" => if startswith "" w then Some ("", "") else None
  | String c s' =>
      match cut_last w s' with
      | Some (a, b) => Some (String c a, b)
      | None => if startswith s w then Some ("", s) else None
      end
  end.

(** The text up to the last [w], or all of it, and what is left. *)
Definition up_to (w s : string) : string * string := default (s, "") (cut_last w s).

(** The groups [before] and [after], of which the last ones stay. *)
Fixpoint addtask_groups (n : nat) (s : string) (before after : option string) : option string * option string :=
  match n with
  | O => (before, after)
  | S n =>
      if startswith s "before" then
        let '(w, s) := up_to "after" (lstrip is_space (str_drop 6 s)) in addtask_groups n s (Some w) after
      else if startswith s "after" then
        let '(w, s) := up_to "before" (lstrip is_space (str_drop 5 s)) in addtask_groups n s before (Some w)
      else (before, after)
  end.

(** [__addtask_regexp__] *)
Definition addtask_match (s : string) : option (string * option string * option string) :=
  s ← after_word "addtask" s;
  match span is_word_char s with
  | ("", _) => None
  | (func, s) =>
      let '(before, after) := addtask_groups (String.length s) (lstrip is_space s) None None in
      Some (func, before, after)
  end.

(** ** Recipes *)

(** [__infunc__]: the function whose body is read. *)
Record infunc : Type := MkInfunc {
  if_func : string;
  if_fn : string;
  if_lineno : Z;
  if_py : bool;
  if_fr : bool
}.

(** The globals of the parser. *)
Record bb_globals : Type := MkGlobals {
  gl_infunc : option infunc;
  gl_inpython : option string;
  gl_body : list string;
  gl_residue : list string;
  gl_classname : string
}.

Definition new_globals : bb_globals := MkGlobals None None [] [] "".

Abbreviation parser := (M bb_globals).

Definition set_infunc x g := MkGlobals x (gl_inpython g) (gl_body g) (gl_residue g) (gl_classname g).
Definition set_inpython x g := MkGlobals (gl_infunc g) x (gl_body g) (gl_residue g) (gl_classname g).
Definition set_body x g := MkGlobals (gl_infunc g) (gl_inpython g) x (gl_residue g) (gl_classname g).
Definition set_residue x g := MkGlobals (gl_infunc g) (gl_inpython g) (gl_body g) x (gl_classname g).

Definition add_body (s : string) : parser unit := modify (λ g, set_body (gl_body g ++ [s]) g).

(** A line of the function whose body is read. *)
Definition feed_body (f : infunc) (lineno : Z) (s fn : string) : parser (list AstNode) :=
  if String.eqb s "}" then
    _ ← add_body "";
    g ← get;
    _ ← modify (λ g, set_body [] (set_infunc None g));
    mret [MkNode fn lineno (MethodNode (if_func f) (gl_body g) (if_py f) (if_fr f))]
  else
    _ ← add_body s;
    mret [].

(** The end of a Python definition. *)
Definition feed_python (func : string) (lineno : Z) (fn root : string) : parser (list AstNode) :=
  g ← get;
  _ ← modify (λ g, set_inpython None (set_body [] g));
  mret [MkNode fn lineno (PythonMethodNode func root (gl_body g))].

(** [__residue__[0][0]] when there is one. *)
Definition residue_start (g : bb_globals) : res (option ascii) :=
  match gl_residue g with
  | [] => Ok None
  | "" :: _ => Raise IndexError
  | String c _ :: _ => Ok (Some c)
  end.

(** The checks of comments within a line that goes on. *)
Definition check_comment (s : string) (g : bb_globals) : res unit :=
  c ← residue_start g;
  match c with
  | Some c =>
      if starts_in "#" s && negb (Ascii.eqb c "#") then Raise Fatal
      else if Ascii.eqb c "#" && negb (starts_in "#" s) then Raise Fatal
      else Ok tt
  | None => Ok tt
  end.

(** A complete line. *)
Definition feed_line (lineno : Z) (s fn : string) : parser (list AstNode) :=
  let node st := mret [MkNode fn lineno st] in
  if str_empty s || starts_in "#" s then mret [] else
  match func_start_match s with
  | Some (func, py, fr) =>
      _ ← modify (set_infunc (Some (MkInfunc (if str_empty func then "__anonymous" else func) fn lineno py fr)));
      mret []
  | None =>
  match def_match s with
  | Some name => _ ← add_body s; _ ← modify (set_inpython (Some name)); mret []
  | None =>
  match word_arg "EXPORT_FUNCTIONS" s with
  | Some fs => g ← get; node (ExportFuncsNode (split_ws fs) (gl_classname g))
  | None =>
  match addtask_match s with Some (func, before, after) => node (AddTaskNode func before after) | None =>
  match word_arg "deltask" s with Some tasks => node (DelTaskNode tasks) | None =>
  match word_arg "addhandler" s with Some hs => node (BBHandlerNode (split_ws hs)) | None =>
  match word_arg "inherit" s with Some classes => node (InheritNode classes) | None =>
  lift (conf_feeder lineno s fn)
  end end end end end end end.

(** The part of [BBHandler.feeder] outside functions. *)
Definition feed_outside (lineno : Z) (s fn : string) : parser (list AstNode) :=
  g ← get;
  _ ← lift (check_comment s g);
  if ends_in backslash s then
    _ ← modify (λ g, set_residue (gl_residue g ++ [str_drop_last 1 s]) g);
    mret []
  else
    _ ← modify (set_residue []);
    feed_line lineno (String.concat "" (gl_residue g) +s+ s) fn.

(** [BBHandler.feeder] *)
Definition bb_feeder (lineno : Z) (s fn root : string) (eof : bool) : parser (list AstNode) :=
  g ← get;
  match gl_infunc g with
  | Some f => feed_body f lineno s fn
  | None =>
      match gl_inpython g with
      | Some func =>
          if python_func_match s && negb eof then _ ← add_body s; mret []
          else
            l1 ← feed_python func lineno fn root;
            if eof then mret l1
            else l2 ← feed_outside lineno s fn; mret (l1 ++ l2)
      | None => feed_outside lineno s fn
      end
  end.

Fixpoint bb_lines (fn root : string) (lineno : Z) (lines : list string) : parser (list AstNode) :=
  match lines with
  | [] =>
      g ← get;
      if bool_decide (gl_inpython g = None) then mret [] else bb_feeder (lineno + 1) "" fn root true
  | line :: lines =>
      l1 ← bb_feeder (lineno + 1) (rstrip is_space line) fn root false;
      l2 ← bb_lines fn root (lineno + 1) lines;
      mret (l1 ++ l2)
  end.

(** The statements of a recipe, class or include file. *)
Definition bb_statements (fn root text : string) : parser (list AstNode) := bb_lines fn root 0 (lines_of text).
