(* ===== verification/Events.v ===== *)
(** * Handlers of events (bb/event.py)

    The handlers that recipes and classes register for events, and which of
    them an event runs.  The part that sends events to user interfaces and
    workers is not modelled. *)

From Stdlib Require Import Ascii String.
From S2P Require Import Prelude.
From S2P Require Import PyStr.
From S2P Require Import PyDict.
From S2P Require Import Runs.

Abbreviation dict V := (list (string * V)).

(** A handler is the text of a Python function, or does nothing when the text
    could not be compiled. *)
Inductive handler : Type :=
  | Code (text : string)
  | Noop.

#[export] Instance handler_eq_dec : EqDecision handler.
Proof. solve_decision. Defined.

(** [_handlers], [_event_handler_map] and [_catchall_handlers]. *)
Record event_state : Type := MkEvents {
  ev_handlers : dict handler;
  ev_map : dict (gset string);
  ev_catchall : gset string
}.

Definition new_events : event_state := MkEvents [] [] ∅.

Definition set_ev_handlers (h : dict handler) (s : event_state) : event_state := MkEvents h (ev_map s) (ev_catchall s).

Inductive registration : Type := Registered | AlreadyRegistered | NotRegistered.

#[export] Instance registration_eq_dec : EqDecision registration.
Proof. solve_decision. Defined.

(** The events a handler is for, by the names in its mask. *)
Definition note_mask (name : string) (mask : list string) (s : event_state) : event_state :=
  if bool_decide (mask = []) || bool_decide ("*" ∈ mask) then MkEvents (ev_handlers s) (ev_map s) ({[name]} ∪ ev_catchall s)
  else MkEvents (ev_handlers s)
         (foldl (λ m e, dset m e ({[name]} ∪ default ∅ (dget m e))) (ev_map s) mask) (ev_catchall s).

(** [register] of a text; [compiles] says whether it has a syntax error. *)
Definition register (compiles : string → bool) (name : string) (text : option string) (mask : list string)
    (s : event_state) : event_state * registration :=
  if dmem (ev_handlers s) name then (s, AlreadyRegistered)
  else
    match text with
    | None => (s, NotRegistered)
    | Some text =>
        if compiles ("def " +s+ name +s+ "(e):" +s+ str1 newline +s+ text) then
          (note_mask name mask (set_ev_handlers (dset (ev_handlers s) name (Code text)) s), Registered)
        else (set_ev_handlers (dset (ev_handlers s) name Noop) s, NotRegistered)
    end.

(** [remove] *)
Definition remove (name : string) (s : event_state) : res event_state :=
  if dmem (ev_handlers s) name then
    Ok (MkEvents (ddel (ev_handlers s) name) (List.map (λ kv, (kv.1, kv.2 ∖ {[name]})) (ev_map s))
          (ev_catchall s ∖ {[name]}))
  else Raise KeyError.

(** Whether the event is one the handler is for. *)
Definition handles (s : event_state) (eid name : string) : bool :=
  bool_decide (name ∈ ev_catchall s) || bool_decide (name ∈ default ∅ (dget (ev_map s) eid)).

(** [fire_class_handlers]: the handlers in the order they were registered;
    the filter, when there is one, can leave some out. *)
Section fire.
Context {S : Type} (execute_handler : string → string → string → M S unit) (eventfilter : option (string → handler → string → bool)).

Definition run_handler (eid : string) (nh : string * handler) : M S unit :=
  match nh.2 with Code text => execute_handler nh.1 text eid | Noop => mret tt end.

Definition fired (s : event_state) (eid : string) : list (string * handler) :=
  List.filter (λ nh, handles s eid nh.1 && match eventfilter with Some f => f nh.1 nh.2 eid | None => true end) (ev_handlers s).

Definition fire_class_handlers (s : event_state) (eid : string) : M S unit :=
  for_each (fired s eid) (run_handler eid).
End fire.

(** ** Which handlers an event runs *)

(** Registrations one after the other, from no handlers. *)
Definition register_all (compiles : string → bool) (l : list (string * option string * list string)) : event_state :=
  foldl (λ s r, (register compiles r.1.1 r.1.2 r.2 s).1) new_events l.

(** The handlers of a recipe are dropped when it is finished, by restoring
    [_handlers]; for which events they were is not, so that a later handler of
    the same name is run for them too. *)
Lemma old_mask_stays :
  let '(s1, _) := register (λ _, true) "h" (Some "a") [] new_events in
  let s2 := set_ev_handlers (ev_handlers new_events) s1 in
  let '(s3, r) := register (λ _, true) "h" (Some "b") ["bb.event.RecipeParsed"] s2 in
  r = Registered ∧ fired None s3 "bb.event.RecipePreFinalise" = [("h", Code "b")].
Proof. vm_compute. split; reflexivity. Qed.
