(* ===== verification/RecipeFiles.v ===== *)
(** * Reading whole files (bb/parse, bb/parse/ast.py, bb/data.py)

    From the name of a recipe to the data stores of the recipe and its
    variants: finding and reading files, evaluating their statements, with
    those that include or inherit other files, and what is done when a recipe
    has been read: [finalize] and [multi_finalize].  Files, the directories
    they are looked for in and the code of recipes are parameters. *)

From Stdlib Require Import Ascii String.
From stdpp Require Import pretty.
From S2P Require Import Prelude.
From S2P Require Import PyStr.
From S2P Require Import PyDict.
From S2P Require Import DataStore.
From S2P Require Import VarDeps.
From S2P Require Import SigGen.
From S2P Require Import Ast.
From S2P Require Import RecipeSyntax.
From S2P Require Import Events.

(** ** Names of files (os.path) *)

Definition isabs (p : string) : bool := startswith p "/".

Definition path_join (p item : string) : string :=
  if isabs item then item
  else if str_empty p || ends_in "/" p then p +s+ item else p +s+ "/" +s+ item.

Definition path_basename (p : string) : string := match rsplit1 "/" p with Some (_, b) => b | None => p end.

(** The text before the last slash, less the slashes at its end unless there is
    nothing else. *)
Definition path_dirname (p : string) : string :=
  match rsplit1 "/" p with
  | None => ""
  | Some (head, _) => let r := rstrip (Ascii.eqb "/") head in if str_empty r then head +s+ "/" else r
  end.

(** [os.path.splitext]: a dot at the start of the name is part of the root. *)
Definition splitext (p : string) : string * string :=
  let base := path_basename p in
  match rsplit1 "." base with
  | None => (p, "")
  | Some (root, ext) =>
      if str_all (Ascii.eqb ".") root then (p, "")
      else (str_drop_last (S (String.length ext)) p, "." +s+ ext)
  end.

(** [os.path.normpath] of an absolute name. *)
Definition norm_step (acc : list string) (part : string) : list string :=
  if str_empty part || String.eqb part "." then acc
  else if String.eqb part ".." then match acc with [] => [] | _ :: acc => acc end
  else part :: acc.

Definition normpath (p : string) : string :=
  let slashes := if startswith p "//" && negb (startswith p "///") then "//" else "/" in
  slashes +s+ join "/" (List.rev (foldl norm_step [] (split_on "/" p))).

Definition abspath (cwd p : string) : string := normpath (path_join cwd p).

(** ** Variables in the name of a recipe *)

(** [vars_from_file]: name, version and revision, with what was found before.
    The list is put there before it is checked and filled. *)
Definition vars_from_file (mypkg : string) : M (dict (list (option string))) (list (option string)) :=
  if negb (endswith mypkg ".bb" || endswith mypkg ".bbappend") then mret [None; None; None]
  else
    cache ← get;
    match dget cache mypkg with
    | Some parts => mret parts
    | None =>
        let parts := List.map Some (split_on "_" (splitext (path_basename mypkg)).1) in
        if bool_decide (3 < List.length parts) then
          _ ← modify (λ c, dset c mypkg parts);
          raise ParseError
        else
          let parts := parts ++ replicate (3 - List.length parts) None in
          _ ← modify (λ c, dset c mypkg parts);
          mret parts
    end.

(** Too many underscores are an error the first time only. *)
Lemma underscores_pass_twice :
  let '(c, r) := vars_from_file "a_1_r0_x.bb" [] in
  r = Raise ParseError ∧ (vars_from_file "a_1_r0_x.bb" c).2 = Ok [Some "a"; Some "1"; Some "r0"; Some "x"].
Proof. vm_compute. split; reflexivity. Qed.

(** ** The state *)

(** The store that is filled, what the recipe parser keeps, the statements of
    the classes read before, the handlers and the signature generator. *)
Record engine : Type := Engine {
  en_world : world;
  en_globals : bb_globals;
  en_cached : dict (list AstNode);
  en_events : event_state;
  en_siggen : siggen
}.

Abbreviation parsing := (M engine).

Definition store {A} (m : data A) : parsing A := λ s,
  let '(w, r) := m (en_world s) in (Engine w (en_globals s) (en_cached s) (en_events s) (en_siggen s), r).

Definition with_globals {A} (m : parser A) : parsing A := λ s,
  let '(g, r) := m (en_globals s) in (Engine (en_world s) g (en_cached s) (en_events s) (en_siggen s), r).

Definition set_cached (c : dict (list AstNode)) (s : engine) : engine :=
  Engine (en_world s) (en_globals s) c (en_events s) (en_siggen s).
Definition set_events (e : event_state) (s : engine) : engine :=
  Engine (en_world s) (en_globals s) (en_cached s) e (en_siggen s).
Definition set_siggen (g : siggen) (s : engine) : engine :=
  Engine (en_world s) (en_globals s) (en_cached s) (en_events s) g.

(** What the outside supplies. *)
Record parse_env : Type := ParseEnv {
  pe_cwd : string;
  pe_exists : string → bool;
  pe_isfile : string → bool;
  pe_read : string → res string;
  (* the time of a file, 0 when there is none *)
  pe_mtime : string → Z;
  (* [bb.methodpool.insert_method] *)
  pe_insert_method : string → string → res unit;
  (* an anonymous function, called on the store *)
  pe_call : string → data unit;
  (* a handler, with its text and the event *)
  pe_handler : string → string → string → data unit;
  (* what a user interface has done after a configuration file *)
  pe_conf_filters : string → data unit;
  pe_compiles : string → bool;
  pe_str : value → string;
  pe_sig : sig_env
}.

Section files.
Context `{!SetOrder string}.
Context (python_eval : option string → string → data python_result) (loop_fuel depth : nat).
Context (parse_python : string → option value → res python_code) (parse_shell : string → option value → res (gset string)).
Context (env : parse_env).

Abbreviation getVar := (getVar python_eval loop_fuel depth).
Abbreviation read_flag := (read_flag python_eval loop_fuel depth).
Abbreviation setVar := (setVar python_eval loop_fuel depth).
Abbreviation setVal := (setVal python_eval loop_fuel depth).
Abbreviation expand_text := (expand_text python_eval loop_fuel depth).

(** ** Finding files *)

(** [which(path, item, history=True)]: the file, or the empty string, and the
    names that were tried. *)
Fixpoint which_in (paths : list string) (item : string) : string * list string :=
  match paths with
  | [] => ("", [])
  | p :: paths =>
      let next := path_join p item in
      if pe_exists env next then (if isabs next then next else abspath (pe_cwd env) next, [next])
      else let '(f, hist) := which_in paths item in (f, next :: hist)
  end.

Definition which (path : option value) (item : string) : res (string * list string) :=
  s ← (if truthy path then as_text path else Ok "");
  Ok (which_in (split_on ":" s) item).

(** [d.getVar('__depends', False) or []] *)
Definition read_files (var : string) : data (list (string * Z)) :=
  v ← getVar var false;
  lift (if truthy v then match v with Some (VFiles l) => Ok l | _ => Raise AttributeError end else Ok []).

Definition mark_dependency (f : string) : data unit :=
  let f := if startswith f "./" then pe_cwd env +s+ "/" +s+ str_drop 2 f else f in
  deps ← read_files "__depends";
  if bool_decide ((f, pe_mtime env f) ∈ deps) then mret tt
  else setVal "__depends" (VFiles (deps ++ [(f, pe_mtime env f)])) false.

Definition check_dependency (f : string) : data bool :=
  deps ← read_files "__depends";
  mret (bool_decide ((f, pe_mtime env f) ∈ deps)).

Definition resolve_file (fn : string) : data string :=
  fn ← (if isabs fn then _ ← mark_dependency fn; mret fn
        else
          bbpath ← getVar "BBPATH" true;
          '(newfn, attempts) ← lift (which bbpath fn);
          _ ← for_each attempts mark_dependency;
          if str_empty newfn then raise FileNotFound else mret newfn);
  if pe_isfile env fn then mret fn else raise FileNotFound.

(** [get_file_depends] *)
Definition get_file_depends : data string :=
  base ← read_files "__base_depends";
  own ← read_files "__depends";
  mret (join " " (List.map (λ f, abspath (pe_cwd env) f.1) (base ++ own))).

(** ** Reading one file *)

(** [init] of both parsers *)
Definition init_store : data unit :=
  topdir ← getVar "TOPDIR" false;
  if truthy topdir then mret tt else setVar "TOPDIR" (pe_cwd env) false.

(** [str(v)] in a format *)
Definition formatted (v : option value) : string :=
  match v with Some v => value_text (pe_str env) v | None => "None" end.

Section reading.
(** [bb.parse.handle(fn, data, True)] *)
Context (handle_file : string → parsing unit).

(** [except (IOError, OSError)]: a file that is not there is an error when
    [error_out] says so, any other failure always. *)
Definition include_file (fn : string) (error_out : bool) : parsing unit :=
  catch (handle_file fn)
    (λ e, bool_decide (e = FileNotFound) || bool_decide (e = OSError))
    (λ e, if bool_decide (e = FileNotFound) && negb error_out then mret tt else raise ParseError).

(** The warning about a file that is included twice reads [FILE]. *)
Definition warn_twice (f : string) : data unit :=
  twice ← check_dependency f;
  if (twice : bool) then _ ← getVar "FILE" true; mret tt else mret tt.

Definition include_single_file (parentfn fn : string) (error_out : bool) : parsing unit :=
  if String.eqb parentfn fn then mret tt
  else
    fn ← store (if isabs fn then _ ← warn_twice fn; mret fn
                else
                  bbpath ← getVar "BBPATH" true;
                  '(abs_fn, attempts) ← lift (which (Some (VStr (path_dirname parentfn +s+ ":" +s+ formatted bbpath))) fn);
                  _ ← (if str_empty abs_fn then mret tt else warn_twice abs_fn);
                  _ ← for_each attempts mark_dependency;
                  mret (if str_empty abs_fn then fn else abs_fn));
    include_file fn error_out.

(** [ConfHandler.include] *)
Definition include (parentfn fns : string) (error_out : bool) : parsing unit :=
  fns ← store (expand_text fns);
  parentfn ← store (expand_text parentfn);
  for_each (split_ws fns) (λ fn, include_single_file parentfn fn error_out).

Definition read_inherits : data value :=
  v ← getVar "__inherit_cache" false; mret (or_empty v).

(** The file of a class: looked for in the path, with all that was tried
    before noted. *)
Definition class_file (file : string) : data string :=
  let file := if negb (isabs file) && negb (endswith file ".bbclass") then path_join "classes" (file +s+ ".bbclass") else file in
  if isabs file then mret file
  else
    bbpath ← getVar "BBPATH" true;
    '(abs_fn, attempts) ← lift (which bbpath file);
    _ ← for_each (List.filter (λ af, negb (String.eqb af abs_fn)) attempts) mark_dependency;
    mret (if str_empty abs_fn then file else abs_fn).

(** One class of [inherit], with the list of classes inherited so far: each is
    read once. *)
Definition inherit_class (fn : string) (cache : value) (file : string) : parsing value :=
  file ← store (class_file file);
  has ← lift (value_has cache file);
  if (has : bool) then mret cache
  else
    cache ← lift (value_append cache file);
    _ ← store (setVal "__inherit_cache" cache false);
    _ ← include fn file true;
    store read_inherits.

Definition inherit (files fn : string) : parsing unit :=
  cache ← store read_inherits;
  files ← store (expand_text files);
  _ ← fold_state (inherit_class fn) cache (split_ws files);
  mret tt.

(** A statement; [statements.eval(data)]. *)
Definition eval_node (n : AstNode) : parsing unit :=
  match n_statement n with
  | IncludeNode what_file force =>
      s ← store (expand_text what_file);
      include (n_filename n) s force
  | InheritNode classes => inherit classes (n_filename n)
  | _ => store (eval_plain python_eval loop_fuel depth (pe_str env) (pe_insert_method env) n)
  end.

Definition eval_statements (l : list AstNode) : parsing unit := for_each l eval_node.

(** [ConfHandler.handle] of an included file. *)
Definition conf_handle (fn : string) : parsing unit :=
  _ ← store init_store;
  oldfile ← store (getVar "FILE" false);
  abs_fn ← store (resolve_file fn);
  text ← lift (pe_read env abs_fn);
  statements ← lift (conf_statements abs_fn text);
  _ ← store (setVar "FILE" abs_fn false);
  _ ← eval_statements statements;
  _ ← (if truthy oldfile then store (setVal "FILE" (default VNone oldfile) false) else mret tt);
  store (pe_conf_filters env fn).

(** [get_statements]: a class or include file is parsed once. *)
Definition get_statements (filename absolute_filename base_name : string) : parsing (list AstNode) :=
  s ← get;
  match dget (en_cached s) absolute_filename with
  | Some statements => mret statements
  | None =>
      text ← lift (pe_read env absolute_filename);
      statements ← with_globals (bb_statements filename base_name text);
      _ ← (if endswith filename ".bbclass" || endswith filename ".inc"
           then modify (λ s, set_cached (dset (en_cached s) absolute_filename statements) s) else mret tt);
      mret statements
  end.

(** What [BBHandler.handle] resets; whether a Python definition is read is not
    among it. *)
Definition reset_globals (classname : string) : parsing unit :=
  with_globals (modify (λ g, MkGlobals None (gl_inpython g) [] [] classname)).

(** The class is noted as inherited, also when it is included. *)
Definition note_class (fn : string) : data unit :=
  cache ← read_inherits;
  has ← lift (value_has cache fn);
  if (has : bool) then mret tt
  else cache ← lift (value_append cache fn); setVal "__inherit_cache" cache false.

(** What is left in the globals after the statements have been evaluated: the
    format of the second message takes two values and is given a list. *)
Definition check_complete : parsing unit :=
  s ← get;
  if bool_decide (gl_infunc (en_globals s) = None) then
    if bool_decide (gl_residue (en_globals s) = []) then mret tt else raise TypeError
  else raise ParseError.

(** [BBHandler.handle] up to the end of the file, with what [include == 0]
    does of it: a recipe that is skipped ends there.  Returns the name of the
    file, the one read before and whether it was skipped so. *)
Definition bb_read (fn : string) (included : bool) : parsing (string * option value * bool) :=
  let '(root, ext) := splitext (path_basename fn) in
  let bbclass := String.eqb ext ".bbclass" in
  _ ← reset_globals (if bbclass then root else "");
  _ ← store init_store;
  _ ← (if bbclass then store (note_class fn) else mret tt);
  oldfile ← (if included then store (getVar "FILE" false) else mret None);
  abs_fn ← store (resolve_file fn);
  statements ← get_statements fn abs_fn (path_basename fn);
  _ ← (if negb bbclass && negb (bool_decide (oldfile = Some (VStr abs_fn))) then store (setVar "FILE" abs_fn false) else mret tt);
  skipped ← catch (_ ← eval_statements statements; mret false)
    (λ e, match e with SkipRecipe _ => true | _ => false end)
    (λ _, _ ← store (setVal "__SKIPPED" (VInt 1) false); mret (negb included));
  _ ← (if (skipped : bool) then mret tt else check_complete);
  mret (abs_fn, oldfile, skipped).

(** [BBHandler.handle] of an included file. *)
Definition bb_handle (fn : string) : parsing unit :=
  '(abs_fn, oldfile, _) ← bb_read fn true;
  if negb (String.eqb (splitext (path_basename fn)).2 ".bbclass") && truthy oldfile && negb (bool_decide (oldfile = Some (VStr abs_fn)))
  then store (setVal "FILE" (default VNone oldfile) false) else mret tt.
End reading.

(** [bb.parse.handle(fn, data, True)], with at most [n] files inside one
    another, more of which are a RecursionError. *)
Fixpoint handle_file (n : nat) (fn : string) : parsing unit :=
  match n with
  | O => raise RecursionError
  | S n =>
      if endswith fn ".conf" then conf_handle (handle_file n) fn
      else if bool_decide ((splitext fn).2 ∈ [".bb"; ".bbclass"; ".inc"]) then bb_handle (handle_file n) fn
      else raise ParseError
  end.

(** ** After a recipe has been read *)

Definition fire (eid : string) : parsing unit :=
  s ← get;
  store (fire_class_handlers (pe_handler env) None (en_events s) eid).

(** One event handler of the recipe. *)
Definition register_handler (var : string) : parsing unit :=
  handlerfn ← store (read_flag var "filename" false);
  if negb (truthy handlerfn) then raise Fatal
  else
    handlerln ← store (read_flag var "lineno" false);
    _ ← lift (match handlerln with
              | Some (VStr s) => _ ← py_int s; Ok tt
              | Some (VInt _) => Ok tt
              | _ => Raise TypeError
              end);
    text ← store (getVar var false);
    mask ← store (read_flag var "eventmask" true);
    mask ← lift (words_of mask);
    modify (λ s, set_events (register (pe_compiles env) var (match text with Some (VStr t) => Some t | _ => None end) mask (en_events s)).1 s).

(** [bb.data.expandKeys(d)] *)
Definition expand_keys : data unit :=
  keys ← data_keys python_eval loop_fuel depth;
  todo ← fold_state (λ (todo : dict string) key,
           if has_ref key then
             ekey ← expand_text key;
             mret (if String.eqb key ekey then todo else dset todo key ekey)
           else mret todo) [] (set_iter keys);
  for_each (py_sorted (dkeys todo)) (λ key,
    ekey ← lift (of_option KeyError (dget todo key));
    newval ← getVar ekey false;
    _ ← (match newval with Some _ => getVar key false | None => mret None end);
    renameVar python_eval loop_fuel depth depth key ekey).

(** [runAnonFuncs] *)
Definition runAnonFuncs : data unit :=
  v ← getVar "__BBANONFUNCS" false;
  fs ← lift (members (Some (or_empty v)));
  for_each fs (pe_call env).

(** The body of the [try] of [finalize].  When the generator raises, what it
    has recorded of this recipe by then is dropped here. *)
Definition finalize_body (fn variant : string) : parsing unit :=
  v ← store (getVar "__BBHANDLERS" false);
  handlers ← lift (members (Some (or_empty v)));
  _ ← for_each handlers register_handler;
  _ ← fire "bb.event.RecipePreFinalise";
  _ ← store expand_keys;
  _ ← fire "bb.event.RecipePostKeyExpansion";
  _ ← store runAnonFuncs;
  v ← store (getVar "__BBTASKS" false);
  tasklist ← lift (members (Some (or_empty v)));
  _ ← fire "bb.event.RecipeTaskPreProcess";
  _ ← store (add_tasks python_eval loop_fuel depth tasklist);
  s ← get;
  gen ← store (finalise (pe_sig env) python_eval loop_fuel depth parse_python parse_shell (pe_str env) fn variant (en_siggen s));
  _ ← modify (set_siggen gen);
  files ← store get_file_depends;
  _ ← store (setVar "BBINCLUDED" files false);
  fire "bb.event.RecipeParsed".

(** [finalize]: the handlers are restored also when it raises. *)
Definition finalize (fn variant : string) : parsing unit :=
  s ← get;
  let saved_handlers := ev_handlers (en_events s) in
  let restore := modify (λ s, set_events (set_ev_handlers saved_handlers (en_events s)) s) in
  _ ← catch (finalize_body fn variant) (λ _, true) (λ e, _ ← restore; raise e);
  restore.

(** [except bb.parse.SkipRecipe as e: d.setVar("__SKIPPED", e.args[0])] *)
Definition finalize_or_skip (fn variant : string) : parsing unit :=
  catch (finalize fn variant)
    (λ e, match e with SkipRecipe _ => true | _ => false end)
    (λ e, store (setVar "__SKIPPED" (match e with SkipRecipe why => why | _ => "" end) false)).

(** ** Variants *)

(** A computation on another store of the same heap: the store it is left
    with, and the result. *)
Definition on_store {A} (d : DataSmart) (m : parsing A) : parsing (DataSmart * A) := λ s,
  let self := w_self (en_world s) in
  let at_store d s := Engine (with_self d (en_world s)) (en_globals s) (en_cached s) (en_events s) (en_siggen s) in
  let '(s', r) := m (at_store d s) in
  (at_store self s', match r with Ok a => Ok (w_self (en_world s'), a) | Raise e => Raise e end).

(** [createCopy] of a store. *)
Definition copy_store (d : DataSmart) : parsing DataSmart := λ s,
  let '(w, copy) := createCopy (with_self d (en_world s)) in
  (Engine (with_self (w_self (en_world s)) w) (en_globals s) (en_cached s) (en_events s) (en_siggen s), Ok copy).

(** [ext.split(':', 2)]: the class a variant extends with, and the argument
    when there is one. *)
Definition extension (ext : string) : string * option string :=
  match split_on ":" ext with
  | cls :: arg :: _ => (cls, Some arg)
  | _ => (ext, None)
  end.

Section variants.
(** How many files may be inside one another. *)
Context (n : nat).

(** [extendfunc] *)
Definition extendfunc (fn : string) (pn : option value) (maps : dict (string * option string)) (name : string) : parsing unit :=
  '(cls, arg) ← lift (of_option KeyError (dget maps name));
  _ ← (if negb (String.eqb name cls) then
         _ ← store (setVar "BBEXTENDCURR" cls false);
         arg ← lift (of_option KeyError arg);
         store (setVar "BBEXTENDVARIANT" arg false)
       else store (setVar "PN" (formatted pn +s+ "-" +s+ name) false));
  inherit (handle_file n) cls fn.

(** [if onlyfinalise and name not in onlyfinalise: return] *)
Definition is_wanted (onlyfinalise : option value) (name : string) : res bool :=
  if truthy onlyfinalise then value_has (default VNone onlyfinalise) name else Ok true.

(** [create_variant] *)
Definition create_variant (function : string → parsing unit) (onlyfinalise : option value) (datastores : dict DataSmart)
    (name : string) (orig_d : DataSmart) (arg : option string) : parsing (dict DataSmart) :=
  wanted ← lift (is_wanted onlyfinalise name);
  if negb wanted then mret datastores
  else
    new_d ← copy_store orig_d;
    '(new_d, _) ← on_store new_d (function (default name arg));
    mret (dset datastores name new_d).

(** [_create_variants] *)
Definition _create_variants (datastores : dict DataSmart) (names : list string) (function : string → parsing unit)
    (onlyfinalise : option value) : parsing (dict DataSmart) :=
  fold_state (λ datastores variant,
    fold_state (λ datastores name,
      d ← lift (of_option KeyError (dget datastores variant));
      if str_empty variant then create_variant function onlyfinalise datastores name d None
      else create_variant function onlyfinalise datastores (variant +s+ "-" +s+ name) d (Some name))
      datastores names) datastores (dkeys datastores).

(** The variants of a recipe before they are finished: [datastores] holds the
    store the recipe was read into. *)
Definition extend_recipe (fn : string) (extended : option value) (pn : option value) (onlyfinalise : option value)
    (datastores : dict DataSmart) : parsing (dict DataSmart) :=
  if truthy extended then
    text ← lift (as_text extended);
    let maps := foldl (λ m ext, dset m ext (extension ext)) [] (split_ws text) in
    safe_d ← lift (of_option KeyError (dget datastores ""));
    '(safe_d, _) ← on_store safe_d (store (setVar "BBCLASSEXTEND" text false));
    _create_variants (dset datastores "" safe_d) (dkeys maps) (extendfunc fn pn maps) onlyfinalise
  else mret datastores.

(** One variant of the last loop of [multi_finalize]. *)
Definition finish_variant (fn : string) (onlyfinalise : option value) (datastores : dict DataSmart) (variant : string) :
    parsing (dict DataSmart) :=
  wanted ← lift (is_wanted onlyfinalise variant);
  if str_empty variant || negb wanted then mret datastores
  else
    d ← lift (of_option KeyError (dget datastores variant));
    '(d, _) ← on_store d (finalize_or_skip fn variant);
    mret (dset datastores variant d).

(** [multi_finalize] *)
Definition multi_finalize (fn : string) : parsing (dict DataSmart) :=
  appends ← store (getVar "__BBAPPEND" true);
  appends ← lift (words_of appends);
  _ ← for_each appends (bb_handle (handle_file n));
  onlyfinalise ← store (getVar "__ONLYFINALISE" false);
  s ← get;
  let safe_d := w_self (en_world s) in
  d ← copy_store safe_d;
  '(d, _) ← on_store d (finalize_or_skip fn "");
  '(d, extended) ← on_store d (store (getVar "BBCLASSEXTEND" true));
  '(d, pn) ← on_store d (store (if truthy extended then getVar "PN" true else mret None));
  datastores ← extend_recipe fn extended pn onlyfinalise [("", safe_d)];
  datastores ← fold_state (finish_variant fn onlyfinalise) datastores (dkeys datastores);
  mret (dset datastores "" d).

(** [bb.parse.handle(fn, data)] of a recipe: its stores, by variant. *)
Definition handle_recipe (fn : string) : parsing (dict DataSmart) :=
  '(_, _, skipped) ← bb_read (handle_file n) fn false;
  if (skipped : bool) then s ← get; mret [("", w_self (en_world s))]
  else multi_finalize fn.
End variants.
End files.
