(* ===== verification/StoreView.v ===== *)
(** * What the methods of a store change (bb/data_smart.py)

    A store seen as a table from variables to flags, [_findVar]: which entry of
    the table a method changes, wherever the dictionary is it was found in. *)

From Stdlib Require Import Ascii String.
From S2P Require Import Prelude.
From S2P Require Import PyStr.
From S2P Require Import PyDict.
From S2P Require Import Runs.
From S2P Require Import DataStore.
From S2P Require Import DataStoreOk.
From S2P Require Import DataCopy.

(** The flags of a variable, none when it is not there. *)
Definition flags_of (w : world) (var : string) : dict value := default [] (_findVar w var).

(** The value of a flag as it is read. *)
Definition flag_value (w : world) (var flag : string) : option value :=
  v ← dget (flags_of w var) flag; some_value (copy_value w v).

(** What the methods that write leave of the rest of the store. *)
Record same_store (w w' : world) : Prop := {
  ss_dict : d_dict (w_self w') = d_dict (w_self w);
  ss_overridedata : overridedata (w_self w') = overridedata (w_self w);
  ss_overrides : overrides (w_self w') = overrides (w_self w);
  ss_overridevars : overridevars (w_self w') = overridevars (w_self w);
  ss_sets : w_sets w' = w_sets w;
  ss_heap : heap_ok w → heap_ok w'
}.

#[export] Instance same_store_preorder : PreOrder same_store.
Proof. split; [by split|]. intros a b c [] []. split; [congruence..|auto]. Qed.

Lemma same_store_self f w :
  d_dict (f (w_self w)) = d_dict (w_self w) → overridedata (f (w_self w)) = overridedata (w_self w) →
  overrides (f (w_self w)) = overrides (w_self w) → overridevars (f (w_self w)) = overridevars (w_self w) →
  same_store w (set_self f w).
Proof. intros H1 H2 H3 H4. split; [done..|]. intros [Hl Hs]. split; [exact Hl|]. cbn. by rewrite H1. Qed.

Lemma same_store_own f w : same_store w (set_own f w).
Proof.
  split; [done..|]. intros [Hl Hs]. split; [|cbn; rewrite lookup_insert_eq; by eexists].
  intros l y l'. cbn. destruct (decide (l = d_dict (w_self w))) as [->|Hne].
  - rewrite lookup_insert_eq. intros [= <-]. cbn. unfold layer_at. destruct Hs as [y Hy]. rewrite Hy. by apply Hl.
  - rewrite lookup_insert_ne by done. apply Hl.
Qed.

(** One variable has other flags. *)
Record changed (var : string) (fl : dict value) (w w' : world) : Prop := {
  ch_same : same_store w w';
  ch_var : _findVar w' var = Some fl;
  ch_others : ∀ v, v ≠ var → _findVar w' v = _findVar w v;
  ch_cache : expand_cache (w_self w') = []
}.

Lemma changed_flags var fl w w' v : changed var fl w w' → flags_of w' v = if decide (v = var) then fl else flags_of w v.
Proof.
  intros H. unfold flags_of. case_decide as E; [subst; by rewrite (ch_var _ _ _ _ H)|by rewrite (ch_others _ _ _ _ H)].
Qed.

Lemma changed_then var fl fl' w w' w'' : changed var fl w w' → changed var fl' w' w'' → changed var fl' w w''.
Proof.
  intros H H'. split; [etrans; [apply H|apply H']|apply H'| |apply H'].
  intros v Hv. rewrite (ch_others _ _ _ _ H'), (ch_others _ _ _ _ H); done.
Qed.

(** ** Looking up after a write *)

Lemma layer_set_own f w l :
  layer_at (set_own f w) l =
    if decide (l = d_dict (w_self w)) then Layer (f (l_vars (layer_at w l))) (l_data (layer_at w l)) else layer_at w l.
Proof.
  unfold layer_at at 1. unfold set_own. cbn [w_layers]. case_decide as Hl; [by rewrite Hl, lookup_insert_eq|].
  by rewrite lookup_insert_ne.
Qed.

Lemma find_own_other w var fl n l v :
  v ≠ var → find_in (set_own (λ d, dset d var fl) w) n l v = find_in w n l v.
Proof.
  intros Hv. revert l. induction n as [|n IH]; intros l; cbn [find_in]; [done|]. rewrite layer_set_own.
  case_decide as Hl; cbn [l_vars l_data]; [subst; rewrite dget_dset_ne by done|].
  - destruct (dget _ v); [done|]. destruct (l_data _); [apply IH|done].
  - destruct (dget _ v); [done|]. destruct (l_data _); [apply IH|done].
Qed.

Lemma find_set_own w var fl v :
  _findVar (set_own (λ d, dset d var fl) w) v = if decide (v = var) then Some fl else _findVar w v.
Proof.
  case_decide as E; [subst; apply find_own; by rewrite own_set_own, dget_dset_eq|].
  unfold _findVar. cbn [w_self set_own]. by apply find_own_other.
Qed.

(** What [set_self] changes is not seen. *)
Lemma find_set_self f w v : d_dict (f (w_self w)) = d_dict (w_self w) → _findVar (set_self f w) v = _findVar w v.
Proof. intros H. unfold _findVar. cbn [w_self set_self]. rewrite H. by apply find_in_layers. Qed.

Lemma own_found w var fl : own_var w var = Some fl → flags_of w var = fl.
Proof. intros H. unfold flags_of. by rewrite (find_own _ _ _ H). Qed.

(** ** The methods *)

(** After [clear_cache] and [_makeShadowCopy] the flags are in the own
    dictionary. *)
Record shadowed (var : string) (w w' : world) : Prop := {
  sh_changed : changed var (flags_of w var) w w';
  sh_own : own_var w' var = Some (flags_of w var)
}.

Lemma set_own_changed f var fl w :
  (∀ d, f d = dset d var fl) → expand_cache (w_self w) = [] → changed var fl w (set_own f w).
Proof.
  intros Hf Hc. assert (set_own f w = set_own (λ d, dset d var fl) w) as -> by (unfold set_own; by rewrite Hf).
  split; [apply same_store_own| | |done].
  - rewrite find_set_own. by destruct (decide (var = var)).
  - intros v Hv. rewrite find_set_own. by destruct (decide (v = var)).
Qed.

Lemma cleared w : expand_cache (w_self (set_self (set_expand_cache []) w)) = [].
Proof. done. Qed.

Lemma shadow_shadowed var w {B} (f : unit → M world B) Q :
  (∀ w', shadowed var w w' → succeeds w' (f tt) Q) →
  succeeds w (_ ← clear_cache; _ ← _makeShadowCopy var; f tt) Q.
Proof.
  intros Hf. unfold succeeds, clear_cache. rewrite modify_bind. unfold _makeShadowCopy at 1. rewrite M_bind_eq, get_bind.
  set (w0 := set_self (set_expand_cache []) w).
  assert (∀ v, _findVar w0 v = _findVar w v) as E0 by (intros v; by apply find_set_self).
  assert (same_store w w0) as S0 by by apply same_store_self.
  destruct (own_var w0 var) as [fl|] eqn:Eo.
  { apply Hf. assert (flags_of w var = fl) as E by (rewrite <-(own_found _ _ _ Eo); unfold flags_of; by rewrite E0).
    rewrite <-E in Eo. split; [|done]. split; [done|by apply find_own|by intros; apply E0|done]. }
  destruct (found (_findVar w0 var)) eqn:Ef.
  - cbn [modify]. apply Hf. rewrite E0 in *. fold (flags_of w var).
    pose proof (set_own_changed (λ d, dset d var (flags_of w var)) var (flags_of w var) w0 (λ _, eq_refl) eq_refl) as H.
    split; [|by rewrite own_set_own, dget_dset_eq]. split; [etrans; [exact S0|apply H]|apply H| |apply H].
    intros v Hv. rewrite (ch_others _ _ _ _ H) by done. apply E0.
  - unfold initVar, clear_cache. rewrite modify_bind. cbn [modify]. set (w1 := set_self (set_expand_cache []) w0).
    assert (flags_of w var = []) as E by (unfold flags_of; rewrite <-E0; by destruct (_findVar w0 var) as [[]|]).
    apply Hf.
    assert (own_var w1 var = None) as Eo' by exact Eo.
    assert (set_own (λ d, if dmem d var then d else dset d var []) w1 = set_own (λ d, dset d var []) w1) as ->.
    { unfold set_own. change (dget (l_vars (layer_at w1 (d_dict (w_self w1)))) var = None) in Eo'.
      by rewrite (proj2 (dmem_false _ _)) by by apply dget_None. }
    assert (same_store w w1) as S1 by (etrans; [exact S0|by apply same_store_self]).
    pose proof (set_own_changed (λ d, dset d var []) var [] w1 (λ _, eq_refl) eq_refl) as H.
    split; rewrite E; [|by rewrite own_set_own, dget_dset_eq]. split; [etrans; [exact S1|apply H]|apply H| |apply H].
    intros v Hv. rewrite (ch_others _ _ _ _ H) by done. transitivity (_findVar w0 v); [by apply find_set_self|apply E0].
Qed.

Lemma write_flag_changed var flag v fl w :
  own_var w var = Some fl → expand_cache (w_self w) = [] →
  succeeds w (write_flag var flag v) (λ _ w', changed var (dset fl flag v) w w' ∧ own_var w' var = Some (dset fl flag v)).
Proof.
  intros Ho Hc. unfold write_flag, succeeds. rewrite get_bind, Ho. cbn [of_option]. rewrite lift_bind. cbn [modify].
  split; [by apply set_own_changed|]. by rewrite own_set_own, dget_dset_eq.
Qed.

Lemma remove_flag_changed var flag fl w :
  own_var w var = Some fl → expand_cache (w_self w) = [] →
  succeeds w (remove_flag var flag) (λ _ w',
    let fl' := if dmem fl flag then ddel fl flag else fl in changed var fl' w w' ∧ own_var w' var = Some fl').
Proof.
  intros Ho Hc. unfold remove_flag, succeeds. rewrite get_bind, Ho. cbn [of_option]. rewrite lift_bind.
  destruct (dmem fl flag); cbn [modify mret M_ret].
  - split; [by apply set_own_changed|]. by rewrite own_set_own, dget_dset_eq.
  - split; [|done]. split; [done|by apply find_own|done|done].
Qed.

Section methods.
Context `{!SetOrder string}.
Context (python_eval : option string → string → M world python_result) (loop_fuel depth : nat).

(** A flag that means nothing to the store itself. *)
Definition plain_flag (flag : string) : bool :=
  negb (bool_decide (flag ∈ ["_defaultval"; "unexport"; "export"])).

Lemma plain_flag_tests flag :
  plain_flag flag = true →
  bool_decide (flag = "_defaultval") = false ∧ bool_decide (flag = "unexport") = false ∧ bool_decide (flag = "export") = false.
Proof.
  unfold plain_flag. rewrite negb_true_iff, bool_decide_eq_false. intros H.
  split; [|split]; apply bool_decide_eq_false_2; intros ->; apply H; by_eval.
Qed.

Lemma setVarFlag_changed var flag v w :
  plain_flag flag = true →
  succeeds w (setVarFlag python_eval loop_fuel depth var flag v) (λ _, changed var (dset (flags_of w var) flag v) w).
Proof.
  intros Hp. unfold setVarFlag. destruct (plain_flag_tests flag Hp) as (E1 & E2 & E3). rewrite E1, E2, E3. cbn [andb orb].
  apply (shadow_shadowed var w (λ _, _)). intros w1 [H1 Ho].
  eapply succeeds_bind; [apply (write_flag_changed _ _ _ _ _ Ho (ch_cache _ _ _ _ H1))|]. cbn beta.
  intros _ w2 [H2 _]. unfold succeeds. rewrite M_bind_eq. cbn [mret M_ret]. rewrite get_bind, M_bind_eq. cbn [mret M_ret].
  by eapply changed_then.
Qed.

Lemma setVarFlag_default var v w :
  char_in "_" var = false → var ∉ overridevars (w_self w) →
  succeeds w (setVarFlag python_eval loop_fuel depth var "_defaultval" v) (λ _, changed var (dset (flags_of w var) "_defaultval" v) w).
Proof.
  intros Hu Hv. unfold setVarFlag. rewrite Hu. rewrite !(bool_decide_eq_true_2 ("_defaultval" = "_defaultval")) by done.
  rewrite (bool_decide_eq_false_2 ("_defaultval" = "unexport")), (bool_decide_eq_false_2 ("_defaultval" = "export")) by done. cbn [andb orb].
  apply (shadow_shadowed var w (λ _, _)). intros w1 [H1 Ho].
  eapply succeeds_bind; [apply (write_flag_changed _ _ _ _ _ Ho (ch_cache _ _ _ _ H1))|]. cbn beta.
  intros _ w2 [H2 _]. unfold succeeds. rewrite M_bind_eq. cbn [mret M_ret]. rewrite get_bind, M_bind_eq.
  rewrite bool_decide_eq_false_2. { cbn [mret M_ret]. by eapply changed_then. }
  rewrite (ss_overridevars _ _ (ch_same _ _ _ _ H2)), (ss_overridevars _ _ (ch_same _ _ _ _ H1)). done.
Qed.

(** [delVarFlag] of a variable that has flags. *)
Lemma delVarFlag_changed var flag w :
  flags_of w var ≠ [] →
  succeeds w (delVarFlag var flag) (λ _,
    changed var (if dmem (flags_of w var) flag then ddel (flags_of w var) flag else flags_of w var) w).
Proof.
  intros Hne. unfold delVarFlag, succeeds, clear_cache at 1. rewrite modify_bind, get_bind.
  assert (found (_findVar (set_self (set_expand_cache []) w) var) = true) as ->.
  { rewrite find_set_self by done. unfold flags_of in Hne. by destruct (_findVar w var) as [[]|]. }
  pose proof (shadow_shadowed var w (λ _, remove_flag var flag)
    (λ _, changed var (if dmem (flags_of w var) flag then ddel (flags_of w var) flag else flags_of w var) w)) as H.
  unfold succeeds, clear_cache at 1 in H. rewrite modify_bind in H. apply H. clear H. intros w1 [H1 Ho].
  pose proof (remove_flag_changed var flag _ w1 Ho (ch_cache _ _ _ _ H1)) as H2. unfold succeeds in H2.
  destruct (remove_flag var flag w1) as [w2 [[]|]]; [|done]. eapply changed_then; [exact H1|apply H2].
Qed.

(** ... and of one that has none. *)
Lemma delVarFlag_missing var flag w :
  flags_of w var = [] →
  succeeds w (delVarFlag var flag) (λ _ w', same_store w w' ∧ (∀ v, _findVar w' v = _findVar w v) ∧ expand_cache (w_self w') = []).
Proof.
  intros Hne. unfold delVarFlag, succeeds, clear_cache. rewrite modify_bind, get_bind.
  assert (found (_findVar (set_self (set_expand_cache []) w) var) = false) as ->.
  { rewrite find_set_self by done. unfold flags_of in Hne. by destruct (_findVar w var) as [[]|]. }
  cbn [mret M_ret]. split; [by apply same_store_self|]. split; [|done]. intros v. by apply find_set_self.
Qed.

(** [_setvar_update_overrides] of a name that ends in no override. *)
Lemma update_overrides_none var w : followed override_start var = [] → _setvar_update_overrides var w = (w, Ok tt).
Proof. intros H. unfold _setvar_update_overrides. by rewrite H. Qed.

(** [setVar] while parsing, of a name that is neither an operation nor a
    variant. *)
Lemma assign_parsing var v w :
  (char_in "_" var = false ∨ followed override_start var = []) → var ∉ overridevars (w_self w) →
  succeeds w (_ ← clear_cache; assign python_eval loop_fuel depth var v true) (λ _, changed var (dset (flags_of w var) "_content" v) w).
Proof.
  intros Hu Hv. unfold assign. apply (shadow_shadowed var w (λ _, _)). intros w1 [H1 Ho].
  unfold succeeds. rewrite M_bind_eq. cbn [mret M_ret]. rewrite M_bind_eq.
  assert ((if char_in "_" var then _setvar_update_overrides var else mret tt) w1 = (w1, Ok tt)) as ->.
  { destruct Hu as [->|Hf]; [done|]. destruct (char_in "_" var); [by apply update_overrides_none|done]. }
  pose proof (write_flag_changed var "_content" v _ w1 Ho (ch_cache _ _ _ _ H1)) as H2. unfold succeeds in H2.
  rewrite M_bind_eq. destruct (write_flag _ _ _ w1) as [w2 [[]|]]; [|done]. destruct H2 as [H2 _]. rewrite get_bind.
  rewrite bool_decide_eq_false_2. { cbn [mret M_ret]. by eapply changed_then. }
  rewrite (ss_overridevars _ _ (ch_same _ _ _ _ H2)), (ss_overridevars _ _ (ch_same _ _ _ _ H1)). done.
Qed.

(** ** Reading a flag *)

Lemma stored_flag w c var :
  stored_value w c (_findVar w var) =
    match flag_value w var (fc_flag c) with
    | Some v => Some v
    | None =>
        if dmem (flags_of w var) (fc_flag c) then None
        else if bool_decide (fc_flag c = "_content") && negb (fc_noweakdefault c)
        then flag_value w var "_defaultval" else None
    end.
Proof.
  unfold stored_value, flag_value, flags_of, dmem. destruct (_findVar w var) as [fl|].
  - change (default [] (Some fl)) with fl. destruct (dget fl (fc_flag c)) as [v|]; cbn [mbind option_bind]; [|done].
    by destruct (some_value (copy_value w v)).
  - cbn. by destruct (_ && _).
Qed.

(** A flag of a variable, as it is stored. *)
Lemma read_flag_value var flag w :
  flag ≠ "_content" → flag ≠ "" →
  read_flag python_eval loop_fuel (S depth) var flag false w = (w, Ok (flag_value w var flag)).
Proof.
  intros Hc He. unfold read_flag, get_flag. rewrite M_bind_eq. cbn [getVarFlag fc_flag].
  assert (str_empty flag = false) as -> by by destruct flag. unfold getVarFlag_body. rewrite get_bind.
  cbn [fc_expand fc_var fc_retparser orb fc_flag]. unfold variant_value, active_ops, ops_of. cbn [fc_flag fc_parsing].
  rewrite (bool_decide_eq_false_2 (flag = "_content")) by done. cbn [andb].
  rewrite M_bind_eq. assert (∀ (od : option (list (string * string))), (match od with Some _ => mret (None, ∅) | None => mret (None, ∅) end : M world (option value * gset string)) w = (w, Ok (None, ∅))) as E
    by by intros [].
  rewrite E. rewrite get_bind, M_bind_eq. cbn [mret M_ret]. rewrite stored_flag.
  cbn [fc_flag fc_noweakdefault]. rewrite (bool_decide_eq_false_2 (flag = "_content")) by done. cbn [andb].
  assert (match flag_value w var flag with Some v => Some v | None => if dmem (flags_of w var) flag then None else None end = flag_value w var flag) as ->
    by (destruct (flag_value w var flag); [done|by destruct (dmem _ _)]).
  unfold apply_removes, active_ops, ops_of. cbn [fc_flag]. rewrite (bool_decide_eq_false_2 (flag = "_content")) by done. cbn [andb].
  cbv [joined mbind M_bind mret M_ret lift]. by destruct (truthy (flag_value w var flag)).
Qed.

(** The value of a variable without variants, as it is stored, while parsing. *)
Lemma getVar_parsing var w noweak :
  dget (overridedata (w_self w)) var = None →
  get_flag python_eval loop_fuel (S depth) (FlagCall var "_content" false noweak true false) w =
    (w, Ok (stored_value w (FlagCall var "_content" false noweak true false) (_findVar w var), None)).
Proof.
  intros Hod. unfold get_flag. cbn [getVarFlag fc_flag]. change (str_empty "_content") with false. cbv iota.
  unfold getVarFlag_body. rewrite get_bind. cbn [fc_expand fc_var fc_retparser orb fc_flag]. rewrite Hod.
  unfold variant_value, active_ops, ops_of. cbn [fc_flag fc_parsing andb negb]. rewrite !andb_false_r.
  unfold apply_removes, active_ops, ops_of. cbn [fc_flag fc_parsing negb andb]. rewrite !andb_false_r.
  cbv [joined mbind M_bind mret M_ret lift get]. by destruct (truthy (stored_value _ _ _)).
Qed.
End methods.
