(* ===== verification/AssignOk.v ===== *)
(** * What the assignments of recipes mean (bb/parse/ast.py)

    The statements about one variable, of all operators and the operations
    [_append], [_prepend] and [_remove], refine a variable that is a text, a
    weak default and a list of operations. *)

From Stdlib Require Import Ascii String.
From S2P Require Import Prelude.
From S2P Require Import PyStr.
From S2P Require Import PyDict.
From S2P Require Import Runs.
From S2P Require Import DataStore.
From S2P Require Import DataStoreOk.
From S2P Require Import DataCopy.
From S2P Require Import StoreView.
From S2P Require Import VarDeps.
From S2P Require Import Ast.

(** ** The abstract variable *)

Record avar : Type := AVar {
  av_content : option string;
  av_weak : option string;
  av_ops : list operation
}.

Definition new_avar : avar := AVar None None [].

(** An assignment with an operator, or an operation in the name. *)
Inductive var_stmt : Type :=
  | Assign (op : assign_op) (v : string)
  | Operate (op : operation).

Definition old_content (a : avar) : string := default "" (av_content a).
Definition set_content (v : string) (a : avar) : avar := AVar (Some v) (av_weak a) (av_ops a).

Definition step_var (a : avar) (s : var_stmt) : avar :=
  match s with
  | Assign OpSet v | Assign OpColon v => set_content v a
  | Assign OpQues v => set_content (default v (av_content a)) a
  | Assign OpLazyques v => AVar (av_content a) (Some v) (av_ops a)
  | Assign OpAppend v => set_content (old_content a +s+ " " +s+ v) a
  | Assign OpPrepend v => set_content (v +s+ " " +s+ old_content a) a
  | Assign OpPostdot v => set_content (old_content a +s+ v) a
  | Assign OpPredot v => set_content (v +s+ old_content a) a
  | Operate op => AVar (av_content a) (av_weak a) (av_ops a ++ [op])
  end.

(** The statement as the parser has it. *)
Definition var_node (var : string) (s : var_stmt) : groupd :=
  match s with
  | Assign op v => Groupd false var None op v
  | Operate op => Groupd false (op_name var op) None OpSet (op_text op)
  end.

(** What an immediate expansion sees is not part of the abstract variable. *)
Definition stmt_ok (s : var_stmt) : Prop :=
  match s with
  | Assign OpColon v => has_ref v = false
  | Assign _ _ => True
  | Operate op => op_ok op
  end.

(** The text that operations start from: none for a variable that was given no
    value and nothing to append or prepend. *)
Definition start_text (a : avar) : option string :=
  match av_content a, av_weak a with
  | Some v, _ => Some v
  | None, Some v => Some v
  | None, None => match ops_for "_append" (av_ops a), ops_for "_prepend" (av_ops a) with [], [] => None | _, _ => Some "" end
  end.

Section refinement.
Context `{!SetOrder string}.
Context (python_eval : option string → string → M world python_result) (loop_fuel depth : nat) (str_of : value → string).

Abbreviation eval_data := (eval_data python_eval (S loop_fuel) (S depth) str_of).
Abbreviation get_var var := (getVar python_eval (S loop_fuel) (S depth) var true).

Context (ovs : list string) (var : string).
Hypothesis (Hu : char_in "_" var = false) (Hn : char_in newline var = false).

(** The store holds the abstract variable; the overrides are known, and there
    are no variants. *)
Record holds (a : avar) (w : world) : Prop := {
  ho_overrides : overrides (w_self w) = Some ovs;
  ho_variants : dget (overridedata (w_self w)) var = None;
  ho_vars : var ∉ overridevars (w_self w);
  ho_cache : expand_cache (w_self w) = [];
  ho_heap : heap_ok w;
  ho_wf : dict_wf (flags_of w var);
  ho_content : dget (flags_of w var) "_content" = VStr <$> av_content a;
  ho_weak : dget (flags_of w var) "_defaultval" = VStr <$> av_weak a;
  ho_ops : ∀ kw, kw ∈ keywords →
    dget (flags_of w var) kw = match ops_for kw (av_ops a) with [] => None | l => Some (VOps l) end
}.

(** A store with other flags of the variable. *)
Lemma holds_changed a a' fl w w' :
  holds a w → changed var fl w w' → dict_wf fl →
  dget fl "_content" = VStr <$> av_content a' → dget fl "_defaultval" = VStr <$> av_weak a' →
  (∀ kw, kw ∈ keywords → dget fl kw = match ops_for kw (av_ops a') with [] => None | l => Some (VOps l) end) →
  holds a' w'.
Proof.
  intros [] H. assert (flags_of w' var = fl) as E by (rewrite (changed_flags _ _ _ _ _ H); by destruct (decide (var = var))).
  destruct H as [[] _ _ Hc]. intros. split; rewrite ?E; try done; try congruence. by auto.
Qed.

Lemma keyword_not kw : kw ∈ keywords → kw ≠ "_content" ∧ kw ≠ "_defaultval".
Proof. intros Hk. by repeat (apply elem_of_cons in Hk as [->|Hk]); [..|apply elem_of_nil in Hk]. Qed.

Lemma holds_content a v w w' :
  holds a w → changed var (dset (flags_of w var) "_content" (VStr v)) w w' → holds (set_content v a) w'.
Proof.
  intros H Hc. apply (holds_changed a _ _ _ _ H Hc).
  - apply dset_wf, H.
  - by rewrite dget_dset_eq.
  - rewrite dget_dset_ne by done. apply H.
  - intros kw Hk. rewrite dget_dset_ne by (intros <-; by apply keyword_not in Hk as []). by apply H.
Qed.

(** ** Reading while parsing *)

Lemma held_value a w flag v : holds a w → dget (flags_of w var) flag = VStr <$> v → flag_value w var flag = VStr <$> v.
Proof. intros H E. unfold flag_value. rewrite E. by destruct v. Qed.

Lemma getFunc_held a w op v :
  holds a w → getFunc python_eval (S loop_fuel) (S depth) (Groupd false var None op v) w = (w, Ok (VStr <$> av_content a)).
Proof.
  intros H. unfold getFunc. cbn [g_flag g_var]. rewrite M_bind_eq, getVar_parsing by apply H. cbn [mret M_ret fst].
  rewrite stored_flag. cbn [fc_flag fc_noweakdefault negb]. rewrite andb_false_r.
  rewrite (held_value _ _ _ _ H (ho_content _ _ H)). destruct (av_content a); [done|]. by destruct (dmem _ _).
Qed.

Lemma old_text_held a w op v :
  holds a w → old_text python_eval (S loop_fuel) (S depth) str_of (Groupd false var None op v) w = (w, Ok (old_content a)).
Proof.
  intros H. unfold old_text. rewrite M_bind_eq, (getFunc_held a) by done. cbn [mret M_ret]. unfold old_content.
  destruct (av_content a) as [s|]; [|done]. by destruct s.
Qed.

(** [in_copy] on a text without references. *)
Lemma in_copy_held a w v name :
  holds a w → has_ref v = false →
  succeeds w (in_copy (p ← expandWithRefs python_eval (S loop_fuel) (getVarFlag python_eval (S loop_fuel) (S depth)) (Some (VStr v)) name;
                       mret (default VNone (p_value p))))
    (λ r w', r = VStr v ∧ holds a w').
Proof.
  intros H Hv. unfold succeeds, in_copy. destruct (createCopy w) as [w1 copy] eqn:E.
  rewrite M_bind_eq, expand_plain by done. cbn [mret M_ret empty_parse p_value]. split; [done|].
  assert (w1 = (createCopy w).1 ∧ copy = (createCopy w).2) as [E1 E2] by by rewrite E.
  set (w' := with_self (w_self w) (with_self copy w1)).
  pose proof (ho_heap _ _ H) as [Hl Hs].
  pose proof (copy_fresh w _ Hs) as Hf. rewrite <-E2 in Hf.
  assert (∀ k, k ≠ d_dict copy → w_layers w' !! k = w_layers w !! k) as Hlay.
  { intros k Hk. cbn. rewrite E1. apply copy_layers. by rewrite <-E2. }
  assert (flags_of w' var = flags_of w var) as Ef.
  { unfold flags_of, _findVar. f_equal. apply (find_in_older w); [done| |cbn; lia..]. cbn. intros k Hk. apply Hlay. lia. }
  destruct H. split; rewrite ?Ef; try done. split.
  - intros l y l' Hy. destruct (decide (l = d_dict copy)) as [->|Hne]; [|rewrite Hlay in Hy by done; by apply (Hl _ _ _ Hy)].
    cbn in Hy. rewrite E1, E2 in Hy. cbn in Hy. rewrite lookup_insert_eq in Hy. injection Hy as <-. cbn. intros [= <-]. lia.
  - cbn [w_self w' with_self]. rewrite Hlay by lia. exact Hs.
Qed.

(** ** Assignments *)

Lemma assign_held a w v :
  holds a w → succeeds w (setVal python_eval (S loop_fuel) (S depth) var (VStr v) true) (λ _, holds (set_content v a)).
Proof.
  intros H. unfold setVal, setVar. rewrite setvar_match_plain by done.
  eapply succeeds_mono; [apply assign_parsing; [by left|apply H]|]. cbn beta. intros _ w' Hc. by eapply holds_content.
Qed.

Lemma weak_held a w v :
  holds a w →
  succeeds w (setVarFlag python_eval (S loop_fuel) (S depth) var "_defaultval" (VStr v)) (λ _, holds (AVar (av_content a) (Some v) (av_ops a))).
Proof.
  intros H. eapply succeeds_mono; [apply setVarFlag_default; [done|apply H]|]. cbn beta. intros _ w' Hc.
  apply (holds_changed a _ _ _ _ H Hc).
  - apply dset_wf, H.
  - rewrite dget_dset_ne by done. apply H.
  - by rewrite dget_dset_eq.
  - intros kw Hk. rewrite dget_dset_ne by (intros <-; by apply keyword_not in Hk as []). by apply H.
Qed.

(** An operation adds itself at the end of its list. *)
Lemma operate_held a w op :
  holds a w → op_ok op →
  succeeds w (setVal python_eval (S loop_fuel) (S depth) (op_name var op) (VStr (op_text op)) true)
    (λ _, holds (AVar (av_content a) (av_weak a) (av_ops a ++ [op]))).
Proof.
  intros H Hop. pose proof Hop as [Hk _]. set (kw := op_keyword op) in *.
  assert (kw ≠ "_content" ∧ kw ≠ "" ∧ plain_flag kw = true ∧ kw ≠ "_defaultval") as (K1 & K2 & K3 & K4).
  { repeat (apply elem_of_cons in Hk as [->|Hk]); [done..|by apply elem_of_nil in Hk]. }
  unfold setVal, setVar, succeeds, clear_cache. rewrite modify_bind, setvar_match_op by done. fold kw.
  assert (set_self (set_expand_cache []) w = w) as -> by (pose proof (ho_cache _ _ H); destruct w as [? ? []]; cbn in *; by subst).
  rewrite M_bind_eq, read_flag_value by done.
  assert (as_ops (flag_value w var kw) = Ok (ops_for kw (av_ops a))) as ->.
  { unfold flag_value. rewrite (ho_ops _ _ H) by done. by destruct (ops_for kw (av_ops a)). }
  rewrite lift_bind.
  pose proof (setVarFlag_changed python_eval (S loop_fuel) (S depth) var kw
    (VOps (ops_for kw (av_ops a) ++ [(op_text op, op_override op)])) w K3) as Hs.
  unfold succeeds in Hs. rewrite M_bind_eq. destruct (setVarFlag _ _ _ _ _ _ w) as [w1 [[]|]]; [|done].
  assert (holds (AVar (av_content a) (av_weak a) (av_ops a ++ [op])) w1) as H1.
  { apply (holds_changed a _ _ _ _ H Hs).
    - apply dset_wf, H.
    - rewrite dget_dset_ne by done. apply H.
    - rewrite dget_dset_ne by done. apply H.
    - intros kw' Hk'. cbn [av_ops]. rewrite dget_dset, ops_for_snoc. fold kw. destruct (decide (kw = kw')) as [->|]; [|by apply H].
      by destruct (ops_for kw' (av_ops a)). }
  destruct (update_overrides_plain var w1 Hu) as (od & Eu & Ed). rewrite M_bind_eq, Eu, get_bind.
  rewrite bool_decide_eq_false_2 by apply (ho_vars _ _ H1). cbn [mret M_ret].
  assert (flags_of (set_self (set_overridedata od) w1) var = flags_of w1 var) as Ef by (unfold flags_of; by rewrite find_set_self).
  destruct H1. split; rewrite ?Ef; try done. { cbn. by rewrite Ed. } by destruct ho_heap0; split.
Qed.

Lemma stmt_held a w s :
  holds a w → stmt_ok s → succeeds w (eval_data (var_node var s)) (λ _, holds (step_var a s)).
Proof.
  intros H Hs. unfold Ast.eval_data, succeeds. destruct s as [op v|op]; cbn [var_node g_exp g_var]; rewrite M_bind_eq; cbn [mret M_ret].
  - rewrite M_bind_eq. unfold new_value, target_flag. cbn [g_op g_value g_flag].
    destruct op; cbn [step_var]; rewrite ?M_bind_eq, ?(old_text_held a), ?(getFunc_held a) by done; cbn [mret M_ret].
    + by apply assign_held.
    + by apply weak_held.
    + destruct (av_content a); by apply assign_held.
    + cbn [stmt_ok] in Hs. pose proof (in_copy_held a w v (Some (var +s+ "[:=]")) H Hs) as Hc. unfold succeeds in Hc.
      destruct (in_copy _ w) as [w' [r|]]; [|done]. destruct Hc as [-> Hc]. by apply assign_held.
    + by apply assign_held.
    + by apply assign_held.
    + by apply assign_held.
    + by apply assign_held.
  - rewrite M_bind_eq. cbn [new_value g_op g_value]. cbn [mret M_ret]. unfold target_flag. cbn [g_flag g_op]. by apply operate_held.
Qed.

(** ** Reading *)

(** What a read gives. *)
Definition reads (a : avar) (v : option value) : Prop :=
  match start_text a with
  | None => v = None
  | Some base => ∃ val, v = Some (VStr val) ∧ left_over ovs (full_text ovs base (av_ops a)) (av_ops a) val
  end.

Lemma active_ops_held get a w kw :
  holds a w → kw ∈ keywords →
  active_ops get (call_var var true) (_findVar w var) kw w =
    (w, Ok (match ops_for kw (av_ops a) with [] => None | _ => Some (applied ovs kw (av_ops a)) end)).
Proof.
  intros H Hk. unfold active_ops.
  assert (ops_of (call_var var true) (_findVar w var) kw = dget (flags_of w var) kw) as ->.
  { unfold ops_of, flags_of. cbn [fc_flag fc_parsing call_var]. by destruct (_findVar w var). }
  rewrite (ho_ops _ _ H kw Hk), <-matching_applied. destruct (ops_for kw (av_ops a)) as [|op l]; [done|].
  rewrite (need_known ovs) by apply (ho_overrides _ _ H). rewrite get_bind, (ho_overrides _ _ H). cbn [ops_that_match]. by rewrite lift_bind.
Qed.

Lemma applied_none kw ops : ops_for kw ops = [] → applied ovs kw ops = [].
Proof. intros E. rewrite <-matching_applied. unfold matching_ops. by rewrite E. Qed.

Lemma joined_none jn l : joined jn None (Some l) = Ok (Some (VStr (foldl jn "" l))).
Proof. done. Qed.

Lemma joined_nothing jn v : joined jn v None = Ok v.
Proof. done. Qed.

(** The text with what is appended and prepended. *)
Lemma joined_start (a : avar) :
  let stored := VStr <$> match av_content a with Some v => Some v | None => av_weak a end in
  let ops kw := match ops_for kw (av_ops a) with [] => None | _ => Some (applied ovs kw (av_ops a)) end in
  (v ← joined (λ s r, s +s+ r) stored (ops "_append"); joined (λ s r, r +s+ s) v (ops "_prepend")) =
    Ok (match start_text a with Some base => Some (VStr (full_text ovs base (av_ops a))) | None => None end).
Proof.
  cbv zeta. unfold start_text, full_text.
  destruct (ops_for "_append" (av_ops a)) eqn:E1, (ops_for "_prepend" (av_ops a)) eqn:E2;
    rewrite ?(applied_none _ _ E1), ?(applied_none _ _ E2);
    destruct (av_content a), (av_weak a); cbn [fmap option_fmap option_map];
    rewrite ?joined_nothing, ?joined_none, ?joined_text; cbn [mbind res_bind];
    by rewrite ?joined_nothing, ?joined_none, ?joined_text.
Qed.

Lemma read_held a w :
  holds a w →
  match start_text a with Some base => has_ref (full_text ovs base (av_ops a)) = false | None => True end →
  (∀ r, r ∈ applied ovs "_remove" (av_ops a) → has_ref r = false) →
  succeeds w (get_var var) (λ v _, reads a v).
Proof.
  intros H Hf Hr. unfold getVar, get_flag, succeeds. rewrite M_bind_eq. cbn [getVarFlag fc_flag call_var]. cbn [str_empty].
  unfold getVarFlag_body. rewrite get_bind. cbn [fc_expand fc_var fc_retparser orb call_var]. rewrite (ho_cache _ _ H). cbn [dget].
  rewrite (ho_variants _ _ H). cbn [variant_value]. rewrite M_bind_eq. cbn [mret M_ret]. rewrite get_bind.
  rewrite stored_flag. cbn [fc_flag fc_noweakdefault call_var negb andb].
  assert (match flag_value w var "_content" with
          | Some v => Some v
          | None => if dmem (flags_of w var) "_content" then None
                    else if bool_decide ("_content" = "_content") && true then flag_value w var "_defaultval" else None
          end = VStr <$> match av_content a with Some v => Some v | None => av_weak a end) as ->.
  { rewrite (held_value _ _ _ _ H (ho_content _ _ H)). unfold dmem. rewrite (ho_content _ _ H).
    destruct (av_content a); [done|]. cbn [fmap option_fmap option_map]. rewrite bool_decide_eq_true_2 by done. cbn [andb].
    apply (held_value _ _ _ _ H (ho_weak _ _ H)). }
  rewrite M_bind_eq, (active_ops_held _ a) by (done || by_eval).
  pose proof (joined_start a) as Hj. cbv beta zeta in Hj.
  destruct (joined _ _ (match ops_for "_append" _ with [] => _ | _ => _ end)) as [v1|e1] eqn:E1; [|done].
  cbn [mbind res_bind] in Hj. rewrite lift_bind, M_bind_eq, (active_ops_held _ a) by (done || by_eval). rewrite Hj, lift_bind.
  unfold reads. destruct (start_text a) as [base|].
  - rewrite !M_bind_eq, expand_plain by done. cbn [mret M_ret p_value empty_parse].
    pose proof (removes_applied python_eval loop_fuel ovs var Hu Hn (getVarFlag python_eval (S loop_fuel) depth) (_findVar w var) (av_ops a) w
      (empty_parse (Some (VStr (full_text ovs base (av_ops a))))) (full_text ovs base (av_ops a))) as Hs.
    unfold succeeds in Hs. rewrite M_bind_eq.
    destruct (apply_removes _ _ _ _ _ _ _ _ w) as [w' [[v p]|]]; cbn [fst] in Hs.
    + destruct Hs as (val & -> & Hval); [|done..|].
      { eexists. split; [by apply active_ops_held, list_elem_of_In; cbn; auto|]. destruct (ops_for "_remove" _) eqn:E; [by rewrite applied_none|done]. }
      destruct p; rewrite M_bind_eq; by exists val.
    + apply Hs; [|done..]. eexists. split; [by apply active_ops_held, list_elem_of_In; cbn; auto|].
      destruct (ops_for "_remove" _) eqn:E; [by rewrite applied_none|done].
  - rewrite !M_bind_eq. cbn [mret M_ret expandWithRefs p_value empty_parse]. unfold apply_removes.
    rewrite !M_bind_eq. cbn. done.
Qed.

End refinement.

(** ** A variable with all of it *)

#[local] Existing Instance set_order_elements.

Definition some_statements : list var_stmt :=
  [Assign OpLazyques "weak"; Operate (Operation "_append" " d" None); Assign OpQues "b"; Assign OpPrepend "a";
   Assign OpPostdot "b c"; Operate (Operation "_remove" "d" (Some "zynq"));
   Operate (Operation "_prepend" "x" (Some "mips")); Assign OpQues "q"].

Definition final_var : avar := foldl step_var new_avar some_statements.

Lemma two_overrides_hold : holds ["arm"; "zynq"] "A" new_avar two_overrides.
Proof.
  assert (flags_of two_overrides "A" = []) as E by (vm_compute; reflexivity).
  split; rewrite ?E; try done; [|apply dict_wf_nil].
  split; [|by eexists]. intros l y l'. cbn. rewrite lookup_singleton_Some. intros [_ <-]. done.
Qed.

Lemma some_statements_ok : Forall stmt_ok some_statements.
Proof. repeat constructor; by_eval. Qed.

Abbreviation run_statements :=
  (_ ← for_each some_statements (λ s, eval_data no_python 5 5 (λ _, "") (var_node "A" s)); getVar no_python 5 5 "A" true).


(** A weak default is not what is added to: after [A ??= "w"], [A += "x"] loses
    it. *)
Lemma append_loses_default :
  start_text (foldl step_var new_avar [Assign OpLazyques "w"; Assign OpAppend "x"]) = Some " x".
Proof. reflexivity. Qed.
