(* ===== verification/RecipeSyntaxOk.v ===== *)
(** * Recipes are read as they are written (bb/parse/parse_py)

    A printer for the statements of recipes and configuration files, and that
    the two parsers read back what it prints, statement by statement and with
    their line numbers. *)

From Stdlib Require Import Ascii String.
From S2P Require Import Prelude.
From S2P Require Import PyStr.
From S2P Require Import PyDict.
From S2P Require Import Runs.
From S2P Require Import Ast.
From S2P Require Import RecipeSyntax.

(** ** Characters *)

(** A statement about all characters, by evaluation. *)
Ltac all_chars := intros [[] [] [] [] [] [] [] []]; vm_compute; try reflexivity; try discriminate; intuition congruence.

Lemma var_char_not c : is_var_char c = true → is_space c = false ∧ c ≠ "["%char ∧ c ≠ "#"%char ∧ c ≠ newline ∧
  c ≠ single_quote ∧ c ≠ double_quote ∧ c ≠ backslash ∧ c ≠ "="%char ∧ c ≠ ":"%char ∧ c ≠ "?"%char.
Proof. revert c. all_chars. Qed.

Lemma flag_char_not c : is_flag_char c = true → c ≠ "]"%char ∧ c ≠ newline.
Proof. revert c. all_chars. Qed.

Lemma func_char_not c : is_func_char c = true → is_space c = false ∧ c ≠ "("%char ∧ c ≠ "#"%char ∧ c ≠ newline.
Proof. revert c. all_chars. Qed.

Lemma word_char_not c : is_word_char c = true → is_space c = false ∧ c ≠ newline.
Proof. revert c. all_chars. Qed.

(** ** Texts and their ends *)

(** The first character, when there is one, is not one of [p]. *)
Definition stops (p : ascii → bool) (s : string) : Prop := match s with String c _ => p c = false | "" => True end.

Lemma span_app p a b : str_all p a = true → stops p b → span p (a +s+ b) = (a, b).
Proof.
  intros Ha Hb. induction a as [|c a IH]; cbn in *.
  - destruct b as [|c b]; [done|]. cbn in *. by rewrite Hb.
  - apply andb_true_iff in Ha as [-> Ha]. by rewrite IH.
Qed.

Lemma span_split p s : s = (span p s).1 +s+ (span p s).2.
Proof. induction s as [|c s IH]; cbn; [done|]. destruct (p c); [|done]. destruct (span p s). cbn in *. congruence. Qed.

Lemma lstrip_stops p s : stops p s → lstrip p s = s.
Proof. destruct s as [|c s]; cbn; [done|]. by intros ->. Qed.

Lemma lstrip_app p a b : str_all p a = true → stops p b → lstrip p (a +s+ b) = b.
Proof.
  intros Ha Hb. induction a as [|c a IH]; [by apply lstrip_stops|]. cbn in *.
  apply andb_true_iff in Ha as [-> Ha]. by apply IH.
Qed.

Lemma lstrip_suffix p s : ∃ a, s = a +s+ lstrip p s.
Proof.
  induction s as [|c s [a IH]]; cbn; [by exists ""|]. destruct (p c); [|by exists ""].
  exists (String c a). cbn. by rewrite <-IH.
Qed.

Lemma str_drop_suffix n s : ∃ a, s = a +s+ str_drop n s.
Proof.
  revert s. induction n as [|n IH]; intros s; [by exists ""|]. destruct s as [|c s]; [by exists ""|].
  destruct (IH s) as [a E]. exists (String c a). cbn. by rewrite <-E.
Qed.

Lemma last_char_app s c : last_char (s +s+ str1 c) = Some c.
Proof.
  unfold last_char. rewrite length_app_str. cbn [String.length str1].
  replace (String.length s + 1 - 1) with (String.length s) by lia. by rewrite str_drop_app.
Qed.

Lemma last_char_Some s c : last_char s = Some c ↔ ∃ a, s = a +s+ str1 c.
Proof.
  split; [|intros [a ->]; apply last_char_app]. unfold last_char. intros H.
  destruct (str_drop_suffix (String.length s - 1) s) as [a E]. exists a.
  destruct (str_drop _ s) as [|d [|]]; [done| |done]. by injection H as <-.
Qed.

Lemma last_char_prefix a s c : last_char s = Some c → last_char (a +s+ s) = Some c.
Proof. rewrite !last_char_Some. intros [b ->]. exists (a +s+ b). by rewrite app_str_assoc. Qed.

Lemma ends_in_last c s a : last_char s = Some a → ends_in c s = Ascii.eqb a c.
Proof. unfold ends_in. by intros ->. Qed.

Lemma str_snoc s : s ≠ "" → ∃ a c, s = a +s+ str1 c.
Proof.
  induction s as [|c s IH]; [done|]. intros _. destruct s as [|d s]; [by exists "", c|].
  destruct IH as (a & e & E); [done|]. exists (String c a), e. cbn. by rewrite <-E.
Qed.

Lemma rstrip_last p s c : last_char s = Some c → p c = false → rstrip p s = s.
Proof.
  rewrite last_char_Some. intros [a ->] Hc. induction a as [|d a IH]; cbn; [by rewrite Hc|].
  change (d) with d. cbn in IH. rewrite IH. destruct (a +s+ str1 c) eqn:E; [by destruct a|done].
Qed.

Lemma startswith_cons c s a w : startswith (String c s) (String a w) = Ascii.eqb a c && startswith s w.
Proof.
  unfold startswith. cbn [String.prefix]. destruct (Ascii.ascii_dec a c) as [->|H]; [by rewrite Ascii.eqb_refl|].
  apply Ascii.eqb_neq in H. by rewrite H.
Qed.

(** A name at the start: whether the text starts with a word is a question of
    the name alone, when what follows ends both. *)
Lemma startswith_name p name rest w :
  str_all p w = true → stops p rest → startswith (name +s+ rest) w = startswith name w.
Proof.
  unfold startswith. intros Hw Hr. revert name. induction w as [|c w IH]; intros name; [by destruct name, rest|].
  cbn in Hw. apply andb_true_iff in Hw as [Hc Hw]. destruct name as [|d name]; cbn [String.prefix].
  - change ("" +s+ rest) with rest. destruct rest as [|e rest]; [done|]. cbn in Hr |- *. destruct (Ascii.ascii_dec c e); [|done]. congruence.
  - change (String d name +s+ rest) with (String d (name +s+ rest)). cbn [String.prefix].
    destruct (Ascii.ascii_dec c d); [by apply IH|done].
Qed.

(** ** Assignments *)

Definition op_sign (op : assign_op) : string :=
  match op with
  | OpSet => "="
  | OpLazyques => "??="
  | OpQues => "?="
  | OpColon => ":="
  | OpAppend => "+="
  | OpPrepend => "=+"
  | OpPredot => "=."
  | OpPostdot => ".="
  end.

(** The quote that is not in the value. *)
Definition quote_of (v : string) : ascii := if char_in double_quote v then single_quote else double_quote.

Definition quoted (v : string) : string := String (quote_of v) (v +s+ str1 (quote_of v)).

Definition print_flag (flag : option string) : string :=
  match flag with Some f => "[" +s+ f +s+ "]" | None => "" end.

(** What follows the name. *)
Definition print_tail (flag : option string) (op : assign_op) (v : string) : string :=
  print_flag flag +s+ " " +s+ op_sign op +s+ " " +s+ quoted v.

Definition print_data (g : groupd) : string :=
  (if g_exp g then "export " else "") +s+ g_var g +s+ print_tail (g_flag g) (g_op g) (g_value g).

Definition name_ok (s : string) : bool := negb (str_empty s) && str_all is_var_char s.
Definition flag_ok (f : string) : bool := negb (str_empty f) && str_all is_flag_char f.

Definition data_ok (g : groupd) : bool :=
  name_ok (g_var g) && (g_exp g || negb (String.eqb (g_var g) "export")) &&
  match g_flag g with Some f => flag_ok f | None => true end &&
  negb (char_in newline (g_value g)) && negb (char_in double_quote (g_value g) && char_in single_quote (g_value g)).

Lemma quote_free v : negb (char_in double_quote v && char_in single_quote v) = true → char_in (quote_of v) v = false.
Proof. unfold quote_of. destruct (char_in double_quote v) eqn:E; [|done]. cbn. by intros ->%negb_true_iff. Qed.

Lemma count_char_none c s : char_in c s = false → count_char c s = 0.
Proof.
  unfold count_char. induction s as [|d s IH]; cbn; [done|]. intros [Hd Hs]%orb_false_iff.
  rewrite Ascii.eqb_sym, Hd. by apply IH.
Qed.

Lemma count_char_app c a b : count_char c (a +s+ b) = count_char c a + count_char c b.
Proof.
  unfold count_char. induction a as [|d a IH]; [done|]. cbn. destruct (Ascii.eqb c d); cbn; [|done]. f_equal. exact IH.
Qed.

Lemma quoted_last v : last_char (quoted v) = Some (quote_of v).
Proof. unfold quoted. apply (last_char_app (String (quote_of v) v)). Qed.

Lemma quote_of_quote v : quote_of v = single_quote ∨ quote_of v = double_quote.
Proof. unfold quote_of. destruct (char_in _ _); auto. Qed.

Lemma three_quotes_quoted q v : char_in (quote_of v) v = false → three_quotes q (quoted v) = false.
Proof.
  intros Hv. unfold three_quotes. destruct (Ascii.eqb_spec (quote_of v) q) as [<-|Hq].
  - rewrite (bool_decide_eq_false_2 (count_char _ _ = 3)); [by rewrite andb_false_r|].
    change (quoted v) with (str1 (quote_of v) +s+ (v +s+ str1 (quote_of v))).
    rewrite !count_char_app, (count_char_none _ v) by done. unfold count_char, str1. cbn. rewrite Ascii.eqb_refl. cbn. lia.
  - unfold quoted. cbn [starts_in]. apply Ascii.eqb_neq in Hq. by rewrite Hq.
Qed.

Lemma quoted_at_quoted v : char_in (quote_of v) v = false → quoted_at (quoted v) = Some v.
Proof.
  intros Hv. unfold quoted_at. rewrite !three_quotes_quoted by done. cbn [orb]. unfold quoted.
  rewrite (ends_in_last _ _ (quote_of v)) by apply last_char_app. rewrite Ascii.eqb_refl, andb_true_r.
  assert (Ascii.eqb (quote_of v) single_quote || Ascii.eqb (quote_of v) double_quote = true) as ->
    by (destruct (quote_of_quote v) as [->| ->]; reflexivity).
  f_equal. apply (str_drop_last_app v (str1 (quote_of v))).
Qed.

Lemma quoted_stops v : stops is_space (quoted v).
Proof. unfold quoted. cbn. by destruct (quote_of_quote v) as [->| ->]. Qed.

Lemma op_at_sign op s : op_at (op_sign op +s+ " " +s+ s) = Some (op, " " +s+ s).
Proof. unfold op_at. by destruct op. Qed.

Lemma flag_at_print flag s :
  match flag with Some f => flag_ok f = true | None => True end →
  flag_at (print_flag flag +s+ " " +s+ s) = (λ f, (f, " " +s+ s)) <$> flag.
Proof.
  destruct flag as [f|]; [|done]. intros [He Hf]%andb_true_iff. unfold print_flag. rewrite !app_str_assoc.
  change ("[" +s+ ?x) with (String "[" x). unfold flag_at. rewrite span_app by done. by destruct f.
Qed.

Lemma config_tail_print flag op v :
  match flag with Some f => flag_ok f = true | None => True end → char_in (quote_of v) v = false →
  config_tail (print_tail flag op v) = Some (flag, op, v).
Proof.
  intros Hf Hv. unfold config_tail, print_tail. rewrite flag_at_print by done.
  assert (lstrip is_space (" " +s+ op_sign op +s+ " " +s+ quoted v) = op_sign op +s+ " " +s+ quoted v) as E by by destruct op.
  assert (lstrip is_space (" " +s+ quoted v) = quoted v) as E2 by (apply (lstrip_app is_space " "); [done|apply quoted_stops]).
  destruct flag as [f|]; cbn [fmap option_fmap option_map print_flag].
  - rewrite E, op_at_sign. cbn [mbind option_bind]. by rewrite E2, quoted_at_quoted.
  - change ("" +s+ ?x) with x. rewrite E, op_at_sign. cbn [mbind option_bind]. by rewrite E2, quoted_at_quoted.
Qed.

(** Within a name there is no operator. *)
Lemma config_tail_name c s : is_var_char c = true → starts_in "=" s = false → config_tail (String c s) = None.
Proof.
  intros Hc Hs. destruct (var_char_not c Hc) as (H1 & H2 & _ & _ & _ & _ & _ & H3 & H4 & H5). unfold config_tail.
  assert (flag_at (String c s) = None) as ->.
  { unfold flag_at. destruct (Ascii.eqb_spec c "["); [done|]. revert H2. clear. destruct c as [[] [] [] [] [] [] [] []]; intros; try done. }
  rewrite lstrip_stops by done. assert (op_at (String c s) = None) as ->; [|done].
  assert (startswith s "=" = false) as Hs'.
  { destruct s as [|d s]; [done|]. rewrite startswith_cons. cbn [starts_in] in Hs. by rewrite Ascii.eqb_sym, Hs. }
  apply not_eq_sym, Ascii.eqb_neq in H3, H4, H5.
  unfold op_at, operators. cbn [List.find fst]. rewrite !startswith_cons, H3, H4, H5, Hs'. cbn [andb]. by rewrite !andb_false_r.
Qed.

Lemma tail_stops flag op v : stops is_var_char (print_tail flag op v) ∧ starts_in "=" (print_tail flag op v) = false.
Proof. by destruct flag. Qed.

Lemma config_scan_name var rest t :
  name_ok var = true → config_tail rest = Some t → starts_in "=" rest = false →
  config_scan (var +s+ rest) = Some (var, t).
Proof.
  intros [Hne Hv]%andb_true_iff Ht Hr. induction var as [|c var IH]; [done|]. cbn in Hv. apply andb_true_iff in Hv as [Hc Hv].
  change (String c var +s+ rest) with (String c (var +s+ rest)). cbn [config_scan]. rewrite Hc.
  destruct var as [|d var].
  - change ("" +s+ rest) with rest. by rewrite Ht.
  - pose proof Hv as Hv'. cbn in Hv'. apply andb_true_iff in Hv' as [Hd Hv'].
    change (String d var +s+ rest) with (String d (var +s+ rest)) at 1. rewrite config_tail_name; [by rewrite IH|done|].
    destruct var as [|e var]; [done|]. cbn in Hv' |- *. apply andb_true_iff in Hv' as [He _]. by apply Ascii.eqb_neq, var_char_not.
Qed.

(** [word\s+] before a name is the name itself. *)
Lemma after_word_name p w name rest :
  str_all p w = true → str_all p name = true → (∀ c, p c = true → is_space c = false) → stops p rest →
  after_word w (name +s+ rest) =
    if decide (name = w) then match span is_space rest with ("", _) => None | (_, r) => Some r end else None.
Proof.
  intros Hw Hn Hp Hr. unfold after_word. rewrite (startswith_name p) by done. case_decide as E.
  - subst name. rewrite <-(str_app_nil_r w) at 1. by rewrite startswith_app, str_drop_app.
  - destruct (startswith name w) eqn:Es; [|done]. apply startswith_spec in Es as [r ->]. rewrite app_str_assoc, str_drop_app.
    destruct r as [|c r]; [by rewrite str_app_nil_r in E|]. rewrite str_all_app in Hn. apply andb_true_iff in Hn as [_ Hn].
    cbn in Hn |- *. apply andb_true_iff in Hn as [Hc _]. by rewrite (Hp c Hc).
Qed.

Lemma word_arg_name p w name rest :
  str_all p w = true → str_all p name = true → (∀ c, p c = true → is_space c = false) → stops p rest →
  name ≠ w → word_arg w (name +s+ rest) = None.
Proof.
  intros Hw Hn Hp Hr E. unfold word_arg. rewrite (startswith_name p) by done.
  destruct (startswith name w) eqn:Es; [|done]. apply startswith_spec in Es as [r ->]. rewrite app_str_assoc, str_drop_app.
  destruct r as [|c r]; [by rewrite str_app_nil_r in E|]. rewrite str_all_app in Hn. apply andb_true_iff in Hn as [_ Hn].
  cbn in Hn |- *. apply andb_true_iff in Hn as [Hc _]. by rewrite (Hp c Hc).
Qed.

Lemma sign_stops p op s : (p ":" = false ∧ p "?" = false ∧ p "+" = false ∧ p "=" = false ∧ p "." = false)%char → stops p (op_sign op +s+ s).
Proof. intros (? & ? & ? & ? & ?). by destruct op. Qed.

Lemma span_tail op v : span is_space (print_tail None op v) = (" ", op_sign op +s+ " " +s+ quoted v).
Proof. by destruct op. Qed.

Lemma data_ok_spec g :
  data_ok g = true →
  name_ok (g_var g) = true ∧ (g_exp g = true ∨ g_var g ≠ "export") ∧
  match g_flag g with Some f => flag_ok f = true | None => True end ∧
  char_in newline (g_value g) = false ∧ char_in (quote_of (g_value g)) (g_value g) = false.
Proof.
  unfold data_ok. rewrite !andb_true_iff. intros ((((H1 & H2) & H3) & H4) & H5).
  split; [done|]. split; [apply orb_true_iff in H2 as [?|H2]; [by left|right; by apply negb_true_iff, String.eqb_neq in H2]|].
  split; [by destruct (g_flag g)|]. split; [by apply negb_true_iff|by apply quote_free].
Qed.

Lemma name_not_export var flag op v :
  name_ok var = true → var ≠ "export" → after_word "export" (var +s+ print_tail flag op v) = None.
Proof.
  intros [_ Hv]%andb_true_iff Hne. rewrite (after_word_name is_var_char); [|done..|by intros; apply var_char_not|apply tail_stops].
  by rewrite decide_False.
Qed.

Lemma after_export s : stops is_space s → after_word "export" ("export " +s+ s) = Some s.
Proof.
  intros Hs. change ("export " +s+ s) with ("export" +s+ (" " +s+ s)). unfold after_word.
  rewrite startswith_app, str_drop_app. rewrite (span_app is_space " ") by done. done.
Qed.

Lemma name_stops_space var rest : name_ok var = true → stops is_space (var +s+ rest).
Proof.
  intros [Hne Hv]%andb_true_iff. destruct var as [|c var]; [done|]. cbn in *. apply andb_true_iff in Hv as [Hc _].
  by apply var_char_not.
Qed.

(** An assignment is read as it was written. *)
Lemma config_match_print g : data_ok g = true → config_match (print_data g) = Some g.
Proof.
  intros (Hv & Hx & Hf & Hn & Hq)%data_ok_spec. destruct g as [exp var flag op v]. cbn in *.
  assert (config_scan (var +s+ print_tail flag op v) = Some (var, (flag, op, v))) as E.
  { apply config_scan_name; [done|by apply config_tail_print|apply tail_stops]. }
  unfold config_match, print_data. cbn [g_exp g_var g_flag g_op g_value]. destruct exp.
  - rewrite after_export by by apply name_stops_space. cbn [mbind option_bind]. by rewrite E.
  - change ("" +s+ ?x) with x. destruct Hx as [|Hx]; [done|]. rewrite name_not_export by done. cbn [mbind option_bind].
    by rewrite E.
Qed.

(** ** Every line that is an assignment ends in a quote *)

Definition is_quote (c : ascii) : Prop := c = single_quote ∨ c = double_quote.
Definition ends_quoted (s : string) : Prop := ∃ c, last_char s = Some c ∧ is_quote c.

Lemma ends_quoted_suffix a s : ends_quoted s → ends_quoted (a +s+ s).
Proof. intros (c & H & Hc). exists c. by split; [apply last_char_prefix|]. Qed.

Lemma ends_quoted_lstrip p s : ends_quoted (lstrip p s) → ends_quoted s.
Proof. destruct (lstrip_suffix p s) as [a E]. rewrite E at 2. apply ends_quoted_suffix. Qed.

Lemma ends_quoted_drop n s : ends_quoted (str_drop n s) → ends_quoted s.
Proof. destruct (str_drop_suffix n s) as [a E]. rewrite E at 2. apply ends_quoted_suffix. Qed.

Lemma ends_quoted_cons c s : ends_quoted s → ends_quoted (String c s).
Proof. apply (ends_quoted_suffix (str1 c)). Qed.

Lemma quoted_at_ends s v : quoted_at s = Some v → ends_quoted s.
Proof.
  unfold quoted_at. destruct (_ || _); [done|]. destruct s as [|q s]; [done|].
  destruct ((Ascii.eqb q single_quote || Ascii.eqb q double_quote) && ends_in q s) eqn:E; [|done]. intros _.
  apply andb_true_iff in E as [Hq He]. apply ends_quoted_cons. unfold ends_in in He.
  destruct (last_char s) as [a|] eqn:El; [|done]. apply Ascii.eqb_eq in He as ->. exists q. split; [done|].
  apply orb_true_iff in Hq as [->%Ascii.eqb_eq| ->%Ascii.eqb_eq]; [by left|by right].
Qed.

Lemma flag_at_bracket s : ∀ c, flag_at (String c s) ≠ None → c = "["%char.
Proof. all_chars. Qed.

Lemma flag_at_suffix s f r : flag_at s = Some (f, r) → ∃ a, s = a +s+ r.
Proof.
  intros H. destruct s as [|c s]; [done|]. assert (c = "["%char) as -> by by apply (flag_at_bracket s); rewrite H.
  cbn [flag_at] in H. pose proof (span_split is_flag_char s) as Hs. destruct (span is_flag_char s) as [g e]. cbn [fst snd] in Hs.
  destruct g as [|g0 g]; [done|]. destruct e as [|e0 e]; [done|].
  assert (r = e) as ->.
  { revert H. clear. revert e0. intros [[] [] [] [] [] [] [] []]; congruence. }
  exists (String "[" (String g0 g +s+ str1 e0)). rewrite Hs. cbn. by rewrite app_str_assoc.
Qed.

Lemma config_tail_ends s t : config_tail s = Some t → ends_quoted s.
Proof.
  unfold config_tail. destruct (match flag_at s with Some (flag, s') => (Some flag, s') | None => (None, s) end) as [flag s1] eqn:Ef.
  assert (∃ a, s = a +s+ s1) as [a ->].
  { destruct (flag_at s) as [[f r]|] eqn:E; injection Ef as <- <-; [by eapply flag_at_suffix|by exists ""]. }
  intros H. apply ends_quoted_suffix. destruct (op_at (lstrip is_space s1)) as [[op s2]|] eqn:Eo; cbn [mbind option_bind] in H; [|done].
  destruct (quoted_at (lstrip is_space s2)) as [v|] eqn:Eq; [|done]. apply (ends_quoted_lstrip is_space).
  unfold op_at in Eo. destruct (List.find _ operators) as [[text op']|]; [|done]. injection Eo as _ <-.
  eapply (ends_quoted_drop (String.length text)), (ends_quoted_lstrip is_space). by eapply quoted_at_ends.
Qed.

Lemma config_scan_ends s m : config_scan s = Some m → ends_quoted s.
Proof.
  revert m. induction s as [|c s IH]; intros m; cbn [config_scan]; [done|]. destruct (is_var_char c); [|done].
  destruct (config_tail s) as [t|] eqn:Et; [intros _; by eapply ends_quoted_cons, config_tail_ends|].
  destruct (config_scan s) as [m'|]; [|done]. intros _. by eapply ends_quoted_cons, IH.
Qed.

Lemma config_match_ends s g : config_match s = Some g → ends_quoted s.
Proof.
  unfold config_match. destruct (config_scan s) as [m|] eqn:E; [intros _; by eapply config_scan_ends|].
  unfold after_word. destruct (startswith s "export"); [|done]. pose proof (span_split is_space (str_drop (String.length "export") s)) as Hs.
  destruct (span is_space (str_drop (String.length "export") s)) as [b r]. cbn [fst snd] in Hs.
  destruct b as [|b0 b]; [done|]. cbn [mbind option_bind]. destruct (config_scan r) as [m|] eqn:Er; [|done]. intros _.
  apply (ends_quoted_drop (String.length "export")). rewrite Hs. by eapply ends_quoted_suffix, config_scan_ends.
Qed.

Lemma config_match_none s c : last_char s = Some c → c ≠ single_quote → c ≠ double_quote → config_match s = None.
Proof.
  intros Hl H1 H2. destruct (config_match s) as [g|] eqn:E; [|done]. apply config_match_ends in E as (d & Hd & [->| ->]); congruence.
Qed.

(** ** Lines *)

(** A line that is one statement by itself: the parsers take nothing off its
    ends and do not join it with another. *)
Record line_ok (s : string) : Prop := {
  lo_last : ∃ c, last_char s = Some c ∧ is_space c = false ∧ c ≠ backslash ∧ c ≠ "{"%char;
  lo_first : ∃ c r, s = String c r ∧ is_space c = false ∧ c ≠ "#"%char;
  lo_newline : char_in newline s = false
}.

Lemma str_all_not p x s : str_all p s = true → (∀ c, p c = true → c ≠ x) → char_in x s = false.
Proof.
  intros Hs Hp. induction s as [|c s IH]; [done|]. cbn in *. apply andb_true_iff in Hs as [Hc Hs].
  apply orb_false_iff. split; [by apply Ascii.eqb_neq, Hp|by apply IH].
Qed.

Lemma str_all_last p s c : str_all p s = true → last_char s = Some c → p c = true.
Proof. rewrite last_char_Some. intros Hs [a ->]. rewrite str_all_app in Hs. cbn in Hs. by rewrite andb_true_r in Hs; apply andb_true_iff in Hs as [_ ?]. Qed.

Lemma last_char_ne s : s ≠ "" → ∃ c, last_char s = Some c.
Proof. intros (a & c & ->)%str_snoc. exists c. apply last_char_app. Qed.

Lemma line_rstrip s : line_ok s → rstrip is_space s = s.
Proof. intros [(c & H & Hc & _) _ _]. by eapply rstrip_last. Qed.

Lemma line_backslash s : line_ok s → ends_in backslash s = false.
Proof. intros [(c & H & _ & Hc & _) _ _]. rewrite (ends_in_last _ _ _ H). by apply Ascii.eqb_neq. Qed.

Lemma line_comment s : line_ok s → starts_in "#" s = false ∧ str_empty s = false.
Proof. intros [_ (c & r & -> & _ & Hc) _]. split; [by apply Ascii.eqb_neq|done]. Qed.

(** What can stand after a word of the language: text that starts and ends
    visibly, and not with what would make another line of it. *)
Definition arg_ok (s : string) : bool :=
  match s with String c _ => negb (is_space c) | "" => false end &&
  match last_char s with
  | Some c => negb (is_space c) && negb (bool_decide (c ∈ [backslash; "{"%char; single_quote; double_quote]))
  | None => false
  end && negb (char_in newline s).

Lemma arg_ok_spec s :
  arg_ok s = true →
  stops is_space s ∧ s ≠ "" ∧ char_in newline s = false ∧
  ∃ c, last_char s = Some c ∧ is_space c = false ∧ c ≠ backslash ∧ c ≠ "{"%char ∧ c ≠ single_quote ∧ c ≠ double_quote.
Proof.
  unfold arg_ok. rewrite !andb_true_iff, negb_true_iff. intros [[H1 H2] H3]. destruct s as [|d s]; [done|].
  apply negb_true_iff in H1. split; [done|]. split; [done|]. split; [done|].
  destruct (last_char (String d s)) as [c|]; [|done]. exists c. split; [done|].
  apply andb_true_iff in H2 as [H2%negb_true_iff H4%negb_true_iff%bool_decide_eq_false]. split; [done|].
  repeat split; intros ->; apply H4; by_eval.
Qed.

Lemma word_line w s c r :
  w = String c r → is_space c = false → c ≠ "#"%char → char_in newline w = false → arg_ok s = true →
  line_ok (w +s+ " " +s+ s).
Proof.
  intros -> H1 H2 H3 (_ & _ & Hn & d & Hd & Hs & Hb & Hc & _)%arg_ok_spec. split.
  - exists d. split; [|done]. by apply last_char_prefix, (last_char_prefix " ").
  - exists c, (r +s+ " " +s+ s). done.
  - rewrite !char_in_app, H3, Hn. done.
Qed.

Lemma word_arg_line w s : arg_ok s = true → word_arg w (w +s+ " " +s+ s) = Some s.
Proof.
  intros (H1 & H2 & _)%arg_ok_spec. unfold word_arg. rewrite startswith_app, str_drop_app, (span_app is_space " ") by done.
  by destruct s.
Qed.

Lemma arg_line_no_config w s : arg_ok s = true → config_match (w +s+ " " +s+ s) = None.
Proof.
  intros (_ & _ & _ & c & Hc & _ & _ & _ & H1 & H2)%arg_ok_spec. apply (config_match_none _ c); [|done..].
  by apply last_char_prefix, (last_char_prefix " ").
Qed.

(** A name that ends no line early. *)
Definition last_name_ok (s : string) : bool := name_ok s && negb (ends_in "{" s).

Lemma last_name_arg s : last_name_ok s = true → arg_ok s = true.
Proof.
  intros [[He Hv]%andb_true_iff Hl]%andb_true_iff. unfold arg_ok. rewrite !andb_true_iff. split; [split|].
  - destruct s as [|c s]; [done|]. cbn in Hv. apply andb_true_iff in Hv as [Hc _]. apply negb_true_iff. by apply var_char_not.
  - destruct (last_char_ne s) as [c Hc]; [by destruct s|]. rewrite Hc.
    pose proof (str_all_last _ _ _ Hv Hc) as Hvc. destruct (var_char_not c Hvc) as (H1 & _ & _ & _ & H2 & H3 & H4 & _).
    rewrite H1. apply negb_true_iff, bool_decide_eq_false. rewrite (ends_in_last _ _ _ Hc) in Hl.
    apply negb_true_iff, Ascii.eqb_neq in Hl. rewrite !elem_of_cons, elem_of_nil. intuition.
  - apply negb_true_iff. apply (str_all_not _ _ _ Hv). intros. by apply var_char_not.
Qed.

(** ** Printing *)

Definition print_method (func : string) (py fr : bool) : string :=
  (if fr then "fakeroot " else "") +s+ (if py then "python " else "") +s+ func +s+ "() {".

(** What follows the name of the task.  The text after [before] goes up to the
    word [after], with the blanks between them. *)
Definition print_groups (before after : option string) : string :=
  (match before with Some b => " before " +s+ b | None => "" end) +s+
  (match before, after with Some _, Some a => "after " +s+ a | None, Some a => " after " +s+ a | _, None => "" end).

Definition print_addtask (func : string) (before after : option string) : string :=
  "addtask" +s+ " " +s+ func +s+ print_groups before after.

(** The lines of a statement.  Python definitions at the top level, which end
    where the next statement starts, are not printed. *)
Definition print_statement (st : statement) : list string :=
  match st with
  | DataNode g => [print_data g]
  | IncludeNode f force => [(if force then "require" else "include") +s+ " " +s+ f]
  | ExportNode v => ["export" +s+ " " +s+ v]
  | UnsetNode v => ["unset" +s+ " " +s+ v]
  | UnsetFlagNode v f => ["unset" +s+ " " +s+ v +s+ print_flag (Some f)]
  | MethodNode f body py fr => print_method f py fr :: removelast body ++ ["}"]
  | ExportFuncsNode n _ => ["EXPORT_FUNCTIONS" +s+ " " +s+ join " " n]
  | AddTaskNode f before after => [print_addtask f before after]
  | DelTaskNode tasks => ["deltask" +s+ " " +s+ tasks]
  | BBHandlerNode hs => ["addhandler" +s+ " " +s+ join " " hs]
  | InheritNode classes => ["inherit" +s+ " " +s+ classes]
  | PythonMethodNode _ _ _ => []
  end.

(** ** Configuration files *)

Definition conf_ok (st : statement) : bool :=
  match st with
  | DataNode g => data_ok g
  | IncludeNode f _ => arg_ok f
  | ExportNode v | UnsetNode v => last_name_ok v
  | UnsetFlagNode v f => name_ok v && flag_ok f
  | _ => false
  end.

Lemma flag_line v f :
  name_ok v = true → flag_ok f = true →
  line_ok ("unset" +s+ " " +s+ v +s+ print_flag (Some f)) ∧ last_char ("unset" +s+ " " +s+ v +s+ print_flag (Some f)) = Some "]"%char.
Proof.
  intros [_ Hv]%andb_true_iff [_ Hf]%andb_true_iff.
  assert (last_char ("unset" +s+ " " +s+ v +s+ print_flag (Some f)) = Some "]"%char) as El.
  { rewrite last_char_Some. exists ("unset" +s+ " " +s+ v +s+ "[" +s+ f). by rewrite !app_str_assoc. }
  split; [|done]. split.
  - by exists "]"%char.
  - by exists "u"%char, ("nset" +s+ " " +s+ v +s+ print_flag (Some f)).
  - rewrite !char_in_app, (str_all_not _ _ _ Hv) by (intros; by apply var_char_not). cbn [print_flag].
    rewrite !char_in_app, (str_all_not _ _ _ Hf) by (intros; by apply flag_char_not). done.
Qed.

Lemma data_line g : data_ok g = true → line_ok (print_data g).
Proof.
  intros (Hv & _ & Hf & Hn & _)%data_ok_spec. pose proof Hv as [Hne Hva]%andb_true_iff. split.
  - exists (quote_of (g_value g)). split; [|destruct (quote_of_quote (g_value g)) as [->| ->]; done].
    unfold print_data, print_tail. do 5 apply last_char_prefix. apply (last_char_prefix " "), quoted_last.
  - unfold print_data. destruct (g_exp g); [by eexists _, _|]. change ("" +s+ ?x) with x.
    destruct (g_var g) as [|c v]; [done|]. eexists c, _. split; [done|]. cbn in Hva. apply andb_true_iff in Hva as [Hc _].
    split; by apply var_char_not.
  - unfold print_data, print_tail. rewrite !char_in_app, (str_all_not _ _ _ Hva) by (intros; by apply var_char_not).
    assert (char_in newline (if g_exp g then "export " else "") = false) as -> by by destruct (g_exp g).
    assert (char_in newline (print_flag (g_flag g)) = false) as ->.
    { destruct (g_flag g) as [f|]; [|done]. apply andb_true_iff in Hf as [_ Hf]. cbn [print_flag].
      rewrite !char_in_app, (str_all_not _ _ _ Hf) by (intros; by apply flag_char_not). done. }
    assert (char_in newline (op_sign (g_op g)) = false) as -> by by destruct (g_op g).
    unfold quoted. cbn [char_in]. rewrite char_in_app, Hn. destruct (quote_of_quote (g_value g)) as [->| ->]; done.
Qed.

(** One line of a configuration file. *)
Lemma conf_feeder_print n fn st :
  conf_ok st = true → ∃ s, print_statement st = [s] ∧ line_ok s ∧ conf_feeder n s fn = Ok [MkNode fn n st].
Proof.
  destruct st as [f force|v|v|v f|g| | | | | | |]; cbn [conf_ok print_statement]; intros H; try done; eexists; (split; [reflexivity|]).
  - destruct force; (split; [by eapply word_line|]); unfold conf_feeder; rewrite arg_line_no_config by done.
    + assert (word_arg "include" ("require" +s+ " " +s+ f) = None) as -> by done. by rewrite word_arg_line.
    + by rewrite word_arg_line.
  - pose proof (last_name_arg v H) as Ha. split; [by eapply word_line|]. unfold conf_feeder. rewrite arg_line_no_config by done.
    assert (word_arg "include" ("export" +s+ " " +s+ v) = None ∧ word_arg "require" ("export" +s+ " " +s+ v) = None) as [-> ->] by done.
    unfold export_match. change ("export" +s+ " " +s+ v) with ("export " +s+ v).
    rewrite after_export by by apply arg_ok_spec in Ha as [? _]. cbn [mbind option_bind]. unfold whole_name.
    apply andb_true_iff in H as [[He Hv]%andb_true_iff _]. by rewrite He, Hv.
  - pose proof (last_name_arg v H) as Ha. split; [by eapply word_line|]. unfold conf_feeder. rewrite arg_line_no_config by done.
    assert (word_arg "include" ("unset" +s+ " " +s+ v) = None ∧ word_arg "require" ("unset" +s+ " " +s+ v) = None ∧
            export_match ("unset" +s+ " " +s+ v) = None) as (-> & -> & ->) by done.
    unfold unset_match, after_word. rewrite startswith_app, str_drop_app.
    rewrite (span_app is_space " ") by (done || by apply arg_ok_spec in Ha as [? _]). cbn [mbind option_bind]. unfold whole_name.
    apply andb_true_iff in H as [[He Hv]%andb_true_iff _]. by rewrite He, Hv.
  - apply andb_true_iff in H as [Hv Hf]. destruct (flag_line v f Hv Hf) as [Hl El]. split; [done|]. unfold conf_feeder.
    rewrite (config_match_none _ _ El) by done.
    assert (word_arg "include" ("unset" +s+ " " +s+ v +s+ print_flag (Some f)) = None ∧
            word_arg "require" ("unset" +s+ " " +s+ v +s+ print_flag (Some f)) = None ∧
            export_match ("unset" +s+ " " +s+ v +s+ print_flag (Some f)) = None) as (-> & -> & ->) by done.
    pose proof Hv as [Hne Hva]%andb_true_iff. pose proof Hf as [Hfe Hfa]%andb_true_iff.
    assert (after_word "unset" ("unset" +s+ " " +s+ v +s+ print_flag (Some f)) = Some (v +s+ print_flag (Some f))) as E.
    { unfold after_word. rewrite startswith_app, str_drop_app. by rewrite (span_app is_space " ") by (done || by apply name_stops_space). }
    unfold unset_match, unset_flag_match. rewrite E. cbn [mbind option_bind].
    assert (whole_name (v +s+ print_flag (Some f)) = None) as ->.
    { unfold whole_name. rewrite str_all_app, Hva. by rewrite andb_false_r. }
    rewrite span_app by done. destruct v as [|c v]; [done|].
    cbn [print_flag]. change ("[" +s+ f +s+ "]") with (String "[" (f +s+ "]")). cbn [flag_at]. rewrite span_app by done.
    by destruct f.
  - split; [by apply data_line|]. unfold conf_feeder. by rewrite config_match_print.
Qed.

(** The text of the lines. *)
Definition text_of (lines : list string) : string := join (str1 newline) (lines ++ [""]).

Lemma lines_of_text lines : Forall (λ s, char_in newline s = false) lines → lines_of (text_of lines) = lines.
Proof.
  intros H. unfold lines_of, text_of. rewrite split_on_join; [|by destruct lines|].
  - rewrite rev_app_distr. cbn. by rewrite rev_involutive.
  - apply Forall_app. split; [done|]. by constructor.
Qed.

(** The nodes of statements, each at its last line. *)
Fixpoint number (fn : string) (lineno : Z) (l : list statement) : list AstNode :=
  match l with
  | [] => []
  | st :: l =>
      let lineno := (lineno + Z.of_nat (List.length (print_statement st)))%Z in
      MkNode fn lineno st :: number fn lineno l
  end.

Definition print_file (l : list statement) : string := text_of (List.concat (List.map print_statement l)).

Lemma strip_line s : line_ok s → strip is_space s ≠ "" .
Proof.
  intros H. unfold strip. destruct (lo_first _ H) as (c & r & E & Hc & _).
  rewrite lstrip_stops by (by rewrite E). rewrite (line_rstrip _ H), E. done.
Qed.

Lemma conf_roundtrip fn l :
  Forall (λ st, conf_ok st = true) l → conf_statements fn (print_file l) = Ok (number fn 0 l).
Proof.
  intros Hl. unfold conf_statements, print_file. rewrite lines_of_text.
  - generalize 0%Z. induction Hl as [|st l Hst Hl IH]; intros n; [done|]. cbn [List.map List.concat number].
    destruct (conf_feeder_print (n + 1) fn st Hst) as (s & -> & Hs & E). cbn [List.length Z.of_nat].
    change ([s] ++ ?l) with (s :: l). cbn [conf_lines]. rewrite bool_decide_eq_true_2 by done. cbn [andb].
    pose proof (strip_line s Hs) as Hne. destruct (strip is_space s); [done|]. cbn [str_empty mbind res_bind].
    rewrite (line_rstrip _ Hs). unfold last_is. destruct (lo_last _ Hs) as (c & Hc & _ & Hb & _). rewrite Hc.
    apply Ascii.eqb_neq in Hb. cbn [mbind res_bind]. rewrite Hb. unfold conf_line. destruct (line_comment s Hs) as [-> _].
    rewrite E. cbn [mbind res_bind]. change (Pos.of_succ_nat 0) with 1%positive. by rewrite IH.
  - apply Forall_concat. rewrite Forall_map. eapply Forall_impl; [exact Hl|]. intros st Hst.
    destruct (conf_feeder_print 0 fn st Hst) as (s & -> & Hs & _). constructor; [apply Hs|constructor].
Qed.

(** ** Recipes *)

(** A line that starts a function ends in its brace. *)
Lemma func_open_last s : func_open s = true → last_char s = Some "{"%char.
Proof.
  unfold func_open. destruct (lstrip_suffix is_space s) as [a E]. intros H.
  rewrite E. apply last_char_prefix. destruct (lstrip is_space s) as [|c s1]; [done|]. clear E.
  assert (∀ d s, (match String d s with String "(" s => (match lstrip is_space s with String ")" s => String.eqb (lstrip is_space s) "{" | _ => false end) | _ => false end) = true →
            (match lstrip is_space s with String ")" s => String.eqb (lstrip is_space s) "{" | _ => false end) = true) as H1 by by intros [[] [] [] [] [] [] [] []].
  apply H1 in H. clear H1. apply (last_char_prefix (str1 c)). destruct (lstrip_suffix is_space s1) as [a1 E]. rewrite E. apply last_char_prefix.
  destruct (lstrip is_space s1) as [|d s2]; [done|]. clear E.
  assert (String.eqb (lstrip is_space s2) "{" = true) as H2 by (revert H; clear; revert d; by intros [[] [] [] [] [] [] [] []]).
  apply (last_char_prefix (str1 d)). destruct (lstrip_suffix is_space s2) as [a2 E]. rewrite E. apply last_char_prefix.
  by apply String.eqb_eq in H2 as ->.
Qed.

Lemma func_keywords_suffix n s py fr : ∃ a, s = a +s+ (func_keywords n s py fr).1.1.
Proof.
  revert s py fr. induction n as [|n IH]; intros s py fr; cbn [func_keywords]; [by exists ""|].
  assert (∀ k (py fr : bool), ∃ a, s = a +s+ (func_keywords n (lstrip is_space (str_drop k s)) py fr).1.1) as Hk.
  { intros k p f. destruct (str_drop_suffix k s) as [a1 E1], (lstrip_suffix is_space (str_drop k s)) as [a2 E2].
    destruct (IH (lstrip is_space (str_drop k s)) p f) as [a3 E3]. exists (a1 +s+ a2 +s+ a3). by rewrite !app_str_assoc, <-E3, <-E2. }
  destruct (startswith s "python"); [apply Hk|]. destruct (startswith s "fakeroot"); [apply Hk|by exists ""].
Qed.

Lemma func_start_last s m : func_start_match s = Some m → last_char s = Some "{"%char.
Proof.
  unfold func_start_match. destruct (func_keywords_suffix (String.length s) s false false) as [a E].
  destruct (func_keywords _ s false false) as [[s1 py] fr]. cbn [fst] in E. pose proof (span_split is_func_char s1) as Hs.
  destruct (span is_func_char s1) as [func s2]. cbn [fst snd] in Hs. destruct (func_open s2) eqn:Eo; [|done]. intros _.
  rewrite E. apply last_char_prefix. rewrite Hs. by apply last_char_prefix, func_open_last.
Qed.

Lemma line_no_func s : line_ok s → func_start_match s = None.
Proof.
  intros [(c & Hc & _ & _ & Hb) _ _]. destruct (func_start_match s) as [m|] eqn:E; [|done].
  apply func_start_last in E. congruence.
Qed.

(** *** Lines that are one statement *)

(** The parser between statements. *)
Definition between (classname : string) : bb_globals := MkGlobals None None [] [] classname.

(** The nodes before those of the lines that follow. *)
Definition prefix_nodes (l : list AstNode) (r : bb_globals * res (list AstNode)) : bb_globals * res (list AstNode) :=
  (r.1, match r.2 with Ok l2 => Ok (l ++ l2) | Raise e => Raise e end).

Lemma prefix_nil r : prefix_nodes [] r = r.
Proof. by destruct r as [g []]. Qed.

Lemma bb_lines_cons fn root n line rest g g' l1 :
  bb_feeder (n + 1) (rstrip is_space line) fn root false g = (g', Ok l1) →
  bb_lines fn root n (line :: rest) g = prefix_nodes l1 (bb_lines fn root (n + 1) rest g').
Proof.
  intros E. cbn [bb_lines]. rewrite M_bind_eq, E, M_bind_eq. unfold prefix_nodes.
  by destruct (bb_lines fn root (n + 1) rest g') as [g2 []].
Qed.

Lemma feed_outside_line n s fn cls :
  ends_in backslash s = false → feed_outside n s fn (between cls) = feed_line n s fn (between cls).
Proof. intros H. unfold feed_outside. rewrite get_bind. unfold check_comment. cbn. by rewrite H. Qed.

Lemma bb_lines_statement fn root n s rest cls st :
  line_ok s → feed_line (n + 1) s fn (between cls) = (between cls, Ok [MkNode fn (n + 1) st]) →
  bb_lines fn root n (s :: rest) (between cls) = prefix_nodes [MkNode fn (n + 1) st] (bb_lines fn root (n + 1) rest (between cls)).
Proof.
  intros Hs E. apply bb_lines_cons. rewrite line_rstrip by done. unfold bb_feeder. rewrite get_bind. cbn [gl_infunc gl_inpython between].
  by rewrite feed_outside_line by by apply line_backslash.
Qed.

(** The words that make a statement of their own of what follows them. *)
Definition recipe_words : list string := ["EXPORT_FUNCTIONS"; "deltask"; "addhandler"; "inherit"].

(** A line that none of the expressions of recipes takes. *)
Definition left_to_conf (s : string) : Prop :=
  def_match s = None ∧ addtask_match s = None ∧ ∀ w, w ∈ recipe_words → word_arg w s = None.

Lemma feed_line_conf n s fn cls st :
  line_ok s → left_to_conf s → conf_feeder n s fn = Ok [MkNode fn n st] →
  feed_line n s fn (between cls) = (between cls, Ok [MkNode fn n st]).
Proof.
  intros Hs (Hd & Ha & Hw) E. unfold feed_line. destruct (line_comment s Hs) as [-> ->]. cbn [orb].
  rewrite (line_no_func s Hs), Hd, Ha. rewrite !Hw by by_eval. by rewrite E.
Qed.

Lemma data_left g : data_ok g = true → g_exp g = true ∨ g_var g ∉ recipe_words → left_to_conf (print_data g).
Proof.
  intros (Hv & _ & _ & _ & _)%data_ok_spec Hw. unfold print_data. destruct (g_exp g) eqn:Ex.
  { split; [done|]. split; [done|]. intros w Hin. by repeat (apply elem_of_cons in Hin as [->|Hin]); [..|apply elem_of_nil in Hin]. }
  change ("" +s+ ?x) with x. destruct Hw as [|Hw]; [done|]. pose proof Hv as [_ Hva]%andb_true_iff.
  destruct (tail_stops (g_flag g) (g_op g) (g_value g)) as [Hts _].
  assert (∀ w, str_all is_var_char w = true →
    after_word w (g_var g +s+ print_tail (g_flag g) (g_op g) (g_value g)) =
      if decide (g_var g = w) then match span is_space (print_tail (g_flag g) (g_op g) (g_value g)) with ("", _) => None | (_, r) => Some r end else None) as Haw.
  { intros w H. apply (after_word_name is_var_char); [done..|by intros; apply var_char_not|done]. }
  assert (∀ w p, str_all is_var_char w = true → (p ":" = false ∧ p "?" = false ∧ p "+" = false ∧ p "=" = false ∧ p "." = false)%char →
    ∀ r, after_word w (g_var g +s+ print_tail (g_flag g) (g_op g) (g_value g)) = Some r → stops p r) as Hst.
  { intros w p H Hp r. rewrite Haw by done. case_decide; [|done]. destruct (g_flag g) as [f|]; [done|]. rewrite span_tail.
    intros [= <-]. by apply sign_stops. }
  assert (is_word_char ":" = false ∧ is_word_char "?" = false ∧ is_word_char "+" = false ∧ is_word_char "=" = false ∧ is_word_char "." = false)%char as Hwc by done.
  split; [|split].
  - unfold def_match. destruct (after_word "def" _) as [r|] eqn:E; [|done]. cbn [mbind option_bind].
    apply (Hst "def" is_word_char eq_refl Hwc) in E. by rewrite (span_app is_word_char "" r eq_refl E : span is_word_char r = _).
  - unfold addtask_match. destruct (after_word "addtask" _) as [r|] eqn:E; [|done]. cbn [mbind option_bind].
    apply (Hst "addtask" is_word_char eq_refl Hwc) in E. by rewrite (span_app is_word_char "" r eq_refl E : span is_word_char r = _).
  - intros w Hin. apply (word_arg_name is_var_char); [|done|by intros; apply var_char_not|done|by intros E; apply Hw; rewrite E].
    by repeat (apply elem_of_cons in Hin as [->|Hin]); [..|apply elem_of_nil in Hin].
Qed.

Lemma conf_left st s : conf_ok st = true → (∀ g, st ≠ DataNode g) → print_statement st = [s] → left_to_conf s.
Proof.
  destruct st as [f force|v|v|v f|g| | | | | | |]; cbn [conf_ok print_statement]; intros H Hg; try done; intros [= <-];
    try (by destruct (Hg g)); try destruct force;
    (split; [done|]; split; [done|]; intros w Hin; by repeat (apply elem_of_cons in Hin as [->|Hin]); [..|apply elem_of_nil in Hin]).
Qed.

(** *** The statements of recipes *)

Definition func_ok (f : string) : bool :=
  negb (str_empty f) && str_all is_func_char f && negb (startswith f "python") && negb (startswith f "fakeroot").

(** A line of the body of a function: as it is after [rstrip], and not its
    end. *)
Definition body_ok (s : string) : bool :=
  String.eqb (rstrip is_space s) s && negb (String.eqb s "}") && negb (char_in newline s).

Definition not_in (w s : string) : bool := bool_decide (cut_last w s = None).

(** Text that starts visibly. *)
Definition lead_ok (s : string) : bool :=
  match s with String c _ => negb (is_space c) | "" => false end && negb (char_in newline s).

Lemma lead_ok_spec s : lead_ok s = true → stops is_space s ∧ s ≠ "" ∧ char_in newline s = false.
Proof. unfold lead_ok. destruct s; [done|]. by intros [?%negb_true_iff ?%negb_true_iff]%andb_true_iff. Qed.

Lemma arg_lead s : arg_ok s = true → lead_ok s = true.
Proof. unfold arg_ok, lead_ok. rewrite !andb_true_iff. by intros [[-> _] ->]. Qed.

Definition addtask_ok (f : string) (before after : option string) : bool :=
  negb (str_empty f) && str_all is_word_char f &&
  match before, after with
  | Some b, Some a => lead_ok b && arg_ok a && not_in "after" a && not_in "before" a
  | Some b, None => arg_ok b && not_in "after" b
  | None, Some a => arg_ok a && not_in "before" a
  | None, None => true
  end.

Definition words_ok (l : list string) : bool := bool_decide (split_ws (join " " l) = l) && arg_ok (join " " l).

Definition recipe_ok (cls : string) (st : statement) : bool :=
  match st with
  | DataNode g => data_ok g && (g_exp g || negb (bool_decide (g_var g ∈ recipe_words)))
  | MethodNode f body _ _ => func_ok f && bool_decide (List.last body "}" = "") && forallb body_ok body
  | ExportFuncsNode n c => String.eqb c cls && words_ok n
  | AddTaskNode f before after => addtask_ok f before after
  | DelTaskNode tasks => arg_ok tasks
  | BBHandlerNode hs => words_ok hs
  | InheritNode classes => arg_ok classes
  | st => conf_ok st
  end.

(** A statement that starts with a word of the language. *)
Lemma word_statement n fn cls w s st :
  (w = "EXPORT_FUNCTIONS" ∧ (∃ l, words_ok l = true ∧ s = join " " l ∧ st = ExportFuncsNode l cls)) ∨
  (w = "deltask" ∧ st = DelTaskNode s) ∨
  (w = "addhandler" ∧ (∃ l, words_ok l = true ∧ s = join " " l ∧ st = BBHandlerNode l)) ∨
  (w = "inherit" ∧ st = InheritNode s) →
  arg_ok s = true →
  line_ok (w +s+ " " +s+ s) ∧ feed_line n (w +s+ " " +s+ s) fn (between cls) = (between cls, Ok [MkNode fn n st]).
Proof.
  intros H Ha. assert (line_ok (w +s+ " " +s+ s)) as Hl.
  { destruct H as [[-> _]|[[-> _]|[[-> _]|[-> _]]]]; by eapply word_line. }
  split; [done|]. unfold feed_line. destruct (line_comment _ Hl) as [-> ->]. cbn [orb]. rewrite (line_no_func _ Hl).
  destruct H as [[-> (l & Hw & -> & ->)]|[[-> ->]|[[-> (l & Hw & -> & ->)]|[-> ->]]]];
    try (apply andb_true_iff in Hw as [Hw%bool_decide_eq_true _]).
  - assert (def_match ("EXPORT_FUNCTIONS" +s+ " " +s+ join " " l) = None) as -> by done.
    rewrite word_arg_line by done. rewrite get_bind, Hw. done.
  - assert (def_match ("deltask" +s+ " " +s+ s) = None) as -> by done.
    assert (word_arg "EXPORT_FUNCTIONS" ("deltask" +s+ " " +s+ s) = None) as -> by done.
    assert (addtask_match ("deltask" +s+ " " +s+ s) = None) as -> by done. by rewrite word_arg_line.
  - assert (def_match ("addhandler" +s+ " " +s+ join " " l) = None) as -> by done.
    assert (word_arg "EXPORT_FUNCTIONS" ("addhandler" +s+ " " +s+ join " " l) = None) as -> by done.
    assert (addtask_match ("addhandler" +s+ " " +s+ join " " l) = None) as -> by done.
    assert (word_arg "deltask" ("addhandler" +s+ " " +s+ join " " l) = None) as -> by done.
    rewrite word_arg_line by done. by rewrite Hw.
  - assert (def_match ("inherit" +s+ " " +s+ s) = None) as -> by done.
    assert (word_arg "EXPORT_FUNCTIONS" ("inherit" +s+ " " +s+ s) = None) as -> by done.
    assert (addtask_match ("inherit" +s+ " " +s+ s) = None) as -> by done.
    assert (word_arg "deltask" ("inherit" +s+ " " +s+ s) = None) as -> by done.
    assert (word_arg "addhandler" ("inherit" +s+ " " +s+ s) = None) as -> by done.
    by rewrite word_arg_line.
Qed.

(** *** [addtask] *)

Lemma cut_last_app w p s a b : cut_last w s = Some (a, b) → cut_last w (p +s+ s) = Some (p +s+ a, b).
Proof. intros H. induction p as [|c p IH]; [done|]. cbn. by rewrite IH. Qed.

Lemma up_to_none w s : not_in w s = true → up_to w s = (s, "").
Proof. unfold not_in, up_to. intros H%bool_decide_eq_true. by rewrite H. Qed.

Lemma cut_last_after a : not_in "after" a = true → cut_last "after" ("after " +s+ a) = Some ("", "after " +s+ a).
Proof. unfold not_in. intros H%bool_decide_eq_true. cbn [String.append cut_last]. by rewrite H. Qed.

Lemma addtask_groups_end n b a : addtask_groups n "" b a = (b, a).
Proof. by destruct n. Qed.

Lemma groups_before n b s x y :
  lead_ok b = true → addtask_groups (S n) ("before " +s+ b +s+ s) x y =
    (let '(w, r) := up_to "after" (b +s+ s) in addtask_groups n r (Some w) y).
Proof.
  intros (Hb & Hne & _)%lead_ok_spec. cbn [addtask_groups]. change ("before " +s+ ?t) with ("before" +s+ (" " +s+ t)).
  rewrite startswith_app. change (str_drop 6 ("before" +s+ ?t)) with t.
  rewrite (lstrip_app is_space " ") by (done || by destruct b). done.
Qed.

Lemma groups_after n a x y :
  arg_ok a = true → not_in "before" a = true → addtask_groups (S n) ("after " +s+ a) x y = (x, Some a).
Proof.
  intros (Ha & Hne & _)%arg_ok_spec Hn. cbn [addtask_groups]. change ("after " +s+ a) with ("after" +s+ (" " +s+ a)).
  assert (startswith ("after" +s+ (" " +s+ a)) "before" = false) as -> by done. rewrite startswith_app.
  change (str_drop 5 ("after" +s+ ?t)) with t. rewrite (lstrip_app is_space " ") by done.
  rewrite up_to_none by done. apply addtask_groups_end.
Qed.

Lemma groups_print n before after f :
  addtask_ok f before after = true →
  addtask_groups (S (S n)) (lstrip is_space (print_groups before after)) None None = (before, after).
Proof.
  intros [_ H]%andb_true_iff. unfold print_groups. destruct before as [b|], after as [a|].
  - rewrite !andb_true_iff in H. destruct H as [[[Hb Ha] Hn] Hn2].
    change (lstrip is_space ((" before " +s+ b) +s+ ?t)) with ("before " +s+ (b +s+ t)). rewrite groups_before by done.
    unfold up_to. rewrite (cut_last_app _ _ _ _ _ (cut_last_after a Hn)). cbn [default from_option id]. rewrite str_app_nil_r. by apply groups_after.
  - apply andb_true_iff in H as [Hb Hn]. change (lstrip is_space ((" before " +s+ b) +s+ ?t)) with ("before " +s+ (b +s+ t)).
    rewrite groups_before by by apply arg_lead. rewrite str_app_nil_r, up_to_none by done. by destruct n.
  - apply andb_true_iff in H as [Ha Hn]. change (lstrip is_space ("" +s+ " after " +s+ a)) with ("after " +s+ a). by apply groups_after.
  - done.
Qed.

Lemma groups_stop before after : stops is_word_char (print_groups before after).
Proof. by destruct before, after. Qed.

Lemma addtask_line f before after : addtask_ok f before after = true → line_ok (print_addtask f before after).
Proof.
  intros [[Hne Hf]%andb_true_iff H]%andb_true_iff. unfold print_addtask, print_groups. split.
  - assert (∀ s, arg_ok s = true → ∃ c, last_char s = Some c ∧ is_space c = false ∧ c ≠ backslash ∧ c ≠ "{"%char) as Ha.
    { intros s (_ & _ & _ & c & ? & ? & ? & ? & _)%arg_ok_spec. by exists c. }
    destruct before as [b|], after as [a|].
    + rewrite !andb_true_iff in H. destruct H as [[[_ H] _] _]. destruct (Ha a H) as (c & Hc & ?). exists c. split; [|done].
      by do 5 apply last_char_prefix.
    + apply andb_true_iff in H as [H _]. destruct (Ha b H) as (c & Hc & ?). exists c. split; [|done].
      rewrite str_app_nil_r. by do 4 apply last_char_prefix.
    + apply andb_true_iff in H as [H _]. destruct (Ha a H) as (c & Hc & ?). exists c. split; [|done].
      by do 5 apply last_char_prefix.
    + change ("" +s+ "") with "". rewrite str_app_nil_r. destruct (last_char_ne f) as [c Hc]; [by destruct f|]. exists c.
      pose proof (str_all_last _ _ _ Hf Hc) as Hw. split; [by do 2 apply last_char_prefix|].
      revert Hw. clear. revert c. all_chars.
  - by eexists "a"%char, _.
  - rewrite !char_in_app, (str_all_not _ _ _ Hf) by (intros; by apply word_char_not). cbn [orb].
    assert (∀ s, lead_ok s = true → char_in newline s = false) as Hn by by intros s (_ & _ & ?)%lead_ok_spec.
    unfold print_groups. pose proof arg_lead.
    destruct before as [b|], after as [a|]; rewrite ?andb_true_iff in H; rewrite ?char_in_app; rewrite ?(Hn b), ?(Hn a) by intuition; done.
Qed.

Lemma addtask_statement n fn cls f before after :
  addtask_ok f before after = true →
  feed_line n (print_addtask f before after) fn (between cls) = (between cls, Ok [MkNode fn n (AddTaskNode f before after)]).
Proof.
  intros H. pose proof (addtask_line f before after H) as Hl. unfold feed_line.
  destruct (line_comment _ Hl) as [-> ->]. cbn [orb]. rewrite (line_no_func _ Hl).
  pose proof H as [[Hne Hf]%andb_true_iff _]%andb_true_iff.
  assert (def_match (print_addtask f before after) = None) as -> by done.
  assert (word_arg "EXPORT_FUNCTIONS" (print_addtask f before after) = None) as -> by done.
  assert (addtask_match (print_addtask f before after) = Some (f, before, after)) as ->; [|done].
  unfold addtask_match, print_addtask, after_word. rewrite startswith_app, str_drop_app.
  rewrite (span_app is_space " "); [|done|destruct f as [|c f]; [done|]; cbn in Hf |- *; apply andb_true_iff in Hf as [Hc _]; by apply word_char_not].
  cbn [mbind option_bind]. rewrite span_app by (done || apply groups_stop). destruct f as [|c f]; [done|].
  destruct (String.length (print_groups before after)) as [|[|m]] eqn:El.
  - by destruct before, after.
  - by destruct before, after.
  - by rewrite (groups_print m before after _ H).
Qed.

(** *** Functions *)

Lemma func_keywords_name n f rest py fr :
  func_ok f = true → stops is_func_char rest → func_keywords n (f +s+ rest) py fr = (f +s+ rest, py, fr).
Proof.
  intros H Hr. unfold func_ok in H. rewrite !andb_true_iff, !negb_true_iff in H. destruct H as [[_ Hp] Hf].
  destruct n; [done|]. cbn [func_keywords]. rewrite !(startswith_name is_func_char) by done. by rewrite Hp, Hf.
Qed.

Lemma func_lead f rest : func_ok f = true → stops is_space (f +s+ rest).
Proof.
  unfold func_ok. rewrite !andb_true_iff. intros [[[Hne H] _] _]. destruct f as [|c f]; [done|]. cbn in *.
  apply andb_true_iff in H as [Hc _]. by apply func_char_not.
Qed.

Lemma keywords_word w n s py fr :
  w = "python" ∨ w = "fakeroot" → stops is_space s →
  func_keywords (S n) (w +s+ " " +s+ s) py fr =
    func_keywords n s (py || String.eqb w "python") (fr || String.eqb w "fakeroot").
Proof.
  intros [-> | ->] Hs; cbn [func_keywords].
  - rewrite startswith_app. change (str_drop 6 ("python" +s+ ?t)) with t. rewrite (lstrip_app is_space " ") by done.
    by rewrite orb_true_r, orb_false_r.
  - assert (startswith ("fakeroot" +s+ " " +s+ s) "python" = false) as -> by done. rewrite startswith_app.
    change (str_drop 8 ("fakeroot" +s+ ?t)) with t. rewrite (lstrip_app is_space " ") by done.
    by rewrite orb_true_r, orb_false_r.
Qed.

Lemma keywords_print n f py fr :
  func_ok f = true → func_keywords (S (S n)) (print_method f py fr) false false = (f +s+ "() {", py, fr).
Proof.
  intros H. pose proof (func_lead f "() {" H) as Hl. destruct fr, py.
  - change (print_method f true true) with ("fakeroot" +s+ " " +s+ ("python" +s+ " " +s+ (f +s+ "() {"))).
    rewrite (keywords_word "fakeroot"), (keywords_word "python") by (auto; reflexivity || done). by apply func_keywords_name.
  - change (print_method f false true) with ("fakeroot" +s+ " " +s+ (f +s+ "() {")).
    rewrite (keywords_word "fakeroot") by auto. by apply func_keywords_name.
  - change (print_method f true false) with ("python" +s+ " " +s+ (f +s+ "() {")).
    rewrite (keywords_word "python") by auto. by apply func_keywords_name.
  - change (print_method f false false) with (f +s+ "() {"). by apply func_keywords_name.
Qed.

(** The first line of a function gives its name and its words. *)
Lemma func_start_print f py fr : func_ok f = true → func_start_match (print_method f py fr) = Some (f, py, fr).
Proof.
  intros H. unfold func_start_match.
  assert (2 ≤ String.length (print_method f py fr)) as Hn.
  { unfold print_method. rewrite !length_app_str. change (String.length "() {") with 4. lia. }
  destruct (String.length (print_method f py fr)) as [|[|n]]; [lia..|].
  rewrite keywords_print by done. unfold func_ok in H. rewrite !andb_true_iff in H. destruct H as [[[_ Hf] _] _]. by rewrite span_app.
Qed.

Lemma method_last f py fr : last_char (print_method f py fr) = Some "{"%char.
Proof. unfold print_method. by do 3 apply last_char_prefix. Qed.

Lemma method_first f py fr : func_ok f = true → starts_in "#" (print_method f py fr) = false ∧ str_empty (print_method f py fr) = false.
Proof.
  unfold print_method. destruct fr; [done|]. destruct py; [done|]. intros H. unfold func_ok in H. rewrite !andb_true_iff in H.
  destruct H as [[[Hne H] _] _]. destruct f as [|c f]; [done|]. cbn in H |- *. apply andb_true_iff in H as [Hc _].
  split; [|done]. by apply Ascii.eqb_neq, func_char_not.
Qed.

(** The parser within a function. *)
Definition within (f : infunc) (body : list string) (classname : string) : bb_globals :=
  MkGlobals (Some f) None body [] classname.

Lemma method_header fn root n f py fr cls :
  func_ok f = true →
  bb_feeder n (rstrip is_space (print_method f py fr)) fn root false (between cls) = (within (MkInfunc f fn n py fr) [] cls, Ok []).
Proof.
  intros H. rewrite (rstrip_last _ _ _ (method_last f py fr)) by done. unfold bb_feeder. rewrite get_bind.
  cbn [gl_infunc gl_inpython between].
  rewrite feed_outside_line by by rewrite (ends_in_last _ _ _ (method_last f py fr)).
  unfold feed_line. destruct (method_first f py fr H) as [-> ->]. cbn [orb]. rewrite func_start_print by done.
  unfold func_ok in H. rewrite !andb_true_iff in H. destruct H as [[[Hne _] _] _]. by destruct f.
Qed.

Lemma body_lines fn root n i body body0 rest cls :
  forallb body_ok body = true →
  bb_lines fn root n (body ++ rest) (within i body0 cls) =
    bb_lines fn root (n + Z.of_nat (List.length body)) rest (within i (body0 ++ body) cls).
Proof.
  revert n body0. induction body as [|s body IH]; intros n body0; cbn [forallb].
  - intros _. by rewrite app_nil_r, Z.add_0_r.
  - intros [Hs Hb]%andb_true_iff. unfold body_ok in Hs. rewrite !andb_true_iff, !negb_true_iff in Hs. destruct Hs as [[E%String.eqb_eq Hs] _].
    change ((s :: body) ++ rest) with (s :: (body ++ rest)).
    rewrite (bb_lines_cons _ _ _ _ _ _ (within i (body0 ++ [s]) cls) []), prefix_nil, IH by
      (done || (rewrite E; unfold bb_feeder; rewrite get_bind; cbn [gl_infunc within]; unfold feed_body; by rewrite Hs)).
    rewrite <-app_assoc. cbn [List.length]. f_equal. lia.
Qed.

Lemma body_end fn root n i body cls :
  bb_feeder n (rstrip is_space "}") fn root false (within i body cls) =
    (between cls, Ok [MkNode fn n (MethodNode (if_func i) (body ++ [""]) (if_py i) (if_fr i))]).
Proof. done. Qed.

Lemma removelast_last body : List.last body "}" = "" → body = removelast body ++ [""].
Proof.
  intros H. destruct body as [|s body]; [done|]. rewrite <-H. by apply app_removelast_last.
Qed.

Lemma forallb_removelast {A} (f : A → bool) l : forallb f l = true → forallb f (removelast l) = true.
Proof.
  induction l as [|a l IH]; [done|]. cbn [forallb]. intros [Ha Hl]%andb_true_iff. destruct l as [|b l]; [done|].
  change (removelast (a :: b :: l)) with (a :: removelast (b :: l)). cbn [forallb]. by rewrite Ha, IH.
Qed.

Lemma bb_lines_method fn root n f body py fr rest cls :
  recipe_ok cls (MethodNode f body py fr) = true →
  let m := (n + Z.of_nat (List.length (print_statement (MethodNode f body py fr))))%Z in
  bb_lines fn root n (print_statement (MethodNode f body py fr) ++ rest) (between cls) =
    prefix_nodes [MkNode fn m (MethodNode f body py fr)] (bb_lines fn root m rest (between cls)).
Proof.
  intros H m. cbn [recipe_ok] in H. rewrite !andb_true_iff in H. destruct H as [[Hf Hl%bool_decide_eq_true] Hb]. apply removelast_last in Hl.
  apply forallb_removelast in Hb. cbn [print_statement] in *.
  assert (m = n + 1 + Z.of_nat (List.length (removelast body)) + 1)%Z as ->.
  { subst m. cbn [List.length]. rewrite length_app. cbn [List.length]. lia. }
  change ((?x :: ?y) ++ rest) with (x :: (y ++ rest)).
  rewrite (bb_lines_cons _ _ _ _ _ _ _ _ (method_header fn root (n + 1) f py fr cls Hf)), prefix_nil.
  rewrite <-app_assoc, body_lines by done. change (["}"] ++ rest) with ("}" :: rest).
  rewrite (bb_lines_cons _ _ _ _ _ _ _ _ (body_end fn root _ _ _ cls)). cbn [if_func if_py if_fr app]. by rewrite <-Hl.
Qed.

(** *** Whole recipes *)

Lemma bb_lines_one fn root n s rest cls st :
  line_ok s → print_statement st = [s] → feed_line (n + 1) s fn (between cls) = (between cls, Ok [MkNode fn (n + 1) st]) →
  let m := (n + Z.of_nat (List.length (print_statement st)))%Z in
  bb_lines fn root n (print_statement st ++ rest) (between cls) =
    prefix_nodes [MkNode fn m st] (bb_lines fn root m rest (between cls)).
Proof. intros Hs -> E. cbn [app List.length Z.of_nat]. by apply bb_lines_statement. Qed.

Lemma conf_recipe_line cls st n fn :
  conf_ok st = true → recipe_ok cls st = true →
  ∃ s, print_statement st = [s] ∧ line_ok s ∧ feed_line n s fn (between cls) = (between cls, Ok [MkNode fn n st]).
Proof.
  intros Hc Hr. destruct (conf_feeder_print n fn st Hc) as (s & Hp & Hl & E). exists s. split; [done|]. split; [done|].
  apply feed_line_conf; [done| |done].
  destruct st as [f force|v|v|v f|g| | | | | | |]; try done; try by eapply conf_left.
  cbn [print_statement recipe_ok] in *. injection Hp as <-. apply andb_true_iff in Hr as [Hd Hx]. apply data_left; [done|].
  apply orb_true_iff in Hx as [?|Hx%negb_true_iff%bool_decide_eq_false]; auto.
Qed.

Lemma print_line cls st n fn :
  recipe_ok cls st = true → (∀ f body py fr, st ≠ MethodNode f body py fr) →
  ∃ s, print_statement st = [s] ∧ line_ok s ∧ feed_line n s fn (between cls) = (between cls, Ok [MkNode fn n st]).
Proof.
  intros H Hm. destruct (conf_ok st) eqn:Hc; [by apply conf_recipe_line|].
  destruct st as [f force|v|v|v f|g|f body py fr|f root body|names c|f before after|tasks|hs|classes]; cbn [recipe_ok conf_ok] in H, Hc; try congruence.
  - by rewrite Hc in H.
  - by destruct (Hm f body py fr).
  - apply andb_true_iff in H as [->%String.eqb_eq H]. eexists; split; [reflexivity|].
    pose proof H as [_ Ha]%andb_true_iff. apply word_statement; [left; eauto|done].
  - eexists; split; [reflexivity|]. split; [by apply addtask_line|by apply addtask_statement].
  - eexists; split; [reflexivity|]. apply word_statement; [auto|done].
  - eexists; split; [reflexivity|]. pose proof H as [_ Ha]%andb_true_iff. apply word_statement; [right; right; left; eauto|done].
  - eexists; split; [reflexivity|]. apply word_statement; [auto|done].
Qed.

Lemma bb_lines_print fn root n st rest cls :
  recipe_ok cls st = true →
  let m := (n + Z.of_nat (List.length (print_statement st)))%Z in
  bb_lines fn root n (print_statement st ++ rest) (between cls) =
    prefix_nodes [MkNode fn m st] (bb_lines fn root m rest (between cls)).
Proof.
  intros H.
  destruct st as [| | | | |f body py fr| | | | | |] eqn:Est; [..|by apply bb_lines_method| | | | | |]; rewrite <-Est in *;
    (destruct (print_line cls st (n + 1) fn) as (s & Hp & Hs & E); [done|by subst|by eapply bb_lines_one]).
Qed.

Lemma method_newline f py fr : func_ok f = true → char_in newline (print_method f py fr) = false.
Proof.
  unfold func_ok. rewrite !andb_true_iff. intros [[[_ Hf] _] _]. unfold print_method.
  rewrite !char_in_app, (str_all_not _ _ _ Hf) by (intros; by apply func_char_not). by destruct fr, py.
Qed.

Lemma print_newline cls st : recipe_ok cls st = true → Forall (λ s, char_in newline s = false) (print_statement st).
Proof.
  intros H. destruct (match st with MethodNode _ _ _ _ => true | _ => false end) eqn:Em.
  - destruct st as [| | | | |f body py fr| | | | | |]; try done. cbn [recipe_ok print_statement] in *.
    rewrite !andb_true_iff in H. destruct H as [[Hf _] Hb]. constructor; [by apply method_newline|].
    apply forallb_removelast in Hb. apply Forall_app. split; [|by constructor].
    rewrite forallb_forall in Hb. rewrite List.Forall_forall. intros s Hs%Hb. unfold body_ok in Hs.
    rewrite !andb_true_iff, !negb_true_iff in Hs. by destruct Hs.
  - destruct (print_line cls st 0 "") as (s & -> & Hs & _); [done|by intros ? ? ? ? ->|]. constructor; [apply Hs|constructor].
Qed.


Definition example_recipe : list statement :=
  [InheritNode "autotools systemd";
   DataNode (Groupd false "SRC_URI" None OpAppend " file://a.patch");
   DataNode (Groupd true "PATH" (Some "doc") OpLazyques ("say " +s+ str1 double_quote +s+ "x" +s+ str1 double_quote));
   MethodNode "do_install_append" ["    install -d ${D}"; ""; "    # } is not the end"; ""] true true;
   AddTaskNode "do_sign" (Some "do_build ") (Some "do_install");
   DelTaskNode "do_fetch do_unpack"; ExportFuncsNode ["do_compile"; "do_install"] "";
   UnsetFlagNode "do_sign" "noexec"; IncludeNode "common.inc" true].


(** ** What is not read as it is written *)

(** A shell function whose name starts with [python] is a Python function
    without that start. *)
Lemma python_name_cut : func_start_match "python_check () {" = Some ("_check", true, false).
Proof. reflexivity. Qed.

(** The words [export] and an operator are a variable named by its first sign,
    exported. *)
Lemma export_sign :
  config_match ("export += " +s+ quoted "x") = Some (Groupd true "+" None OpSet "x").
Proof. reflexivity. Qed.

(** A line of a backslash alone is no error of the recipe but one of the
    parser. *)
Lemma lone_backslash :
  (bb_statements "a.bb" "a" (text_of [str1 backslash; "A = 'b'"]) (between "")).2 = Raise IndexError ∧
  conf_statements "a.conf" (text_of [str1 backslash; ""]) = Raise IndexError.
Proof. split; vm_compute; reflexivity. Qed.
