(* ===== verification/TasksOk.v ===== *)
(** * The tasks a recipe declares (bb/build.py)

    The statements [addtask] and [deltask], in any order, give the tasks and
    the tasks each must follow that a pair of flags per pair of tasks says. *)

From Stdlib Require Import Ascii String.
From S2P Require Import Prelude.
From S2P Require Import PyStr.
From S2P Require Import PyDict.
From S2P Require Import Runs.
From S2P Require Import DataStore.
From S2P Require Import DataStoreOk.
From S2P Require Import DataCopy.
From S2P Require Import StoreView.
From S2P Require Import VarDeps.
From S2P Require Import Ast.

(** ** What the statements say of two tasks *)

Inductive task_stmt : Type :=
  | AddTask (func : string) (before after : option string)
  | DelTasks (names : string).

(** The statement as the parser has it. *)
Definition task_node (s : task_stmt) : AstNode :=
  MkNode "" 0 (match s with AddTask f b a => AddTaskNode f b a | DelTasks names => DelTaskNode names end).

(** Whether [t] is a task, and whether it must follow [p]. *)
Record pair_state : Type := Pair { is_task : bool; follows : bool }.

Definition pair_add (t p func : string) (before after : option string) (st : pair_state) : pair_state :=
  let n := task_name func in
  Pair (is_task st || bool_decide (n = t))
    (follows st || (bool_decide (n = t) && bool_decide (p ∈ optional_words after))
                || (bool_decide (n = p) && bool_decide (t ∈ optional_words before))).

(** Without [t] nothing must be followed; without [p] a task that is there need
    not follow it. *)
Definition pair_del (t p : string) (st : pair_state) (name : string) : pair_state :=
  let n := task_name name in
  Pair (is_task st && negb (bool_decide (n = t)))
    (follows st && negb (bool_decide (n = t)) && negb (bool_decide (n = p) && is_task st)).

Definition pair_step (t p : string) (st : pair_state) (s : task_stmt) : pair_state :=
  match s with
  | AddTask f b a => pair_add t p f b a st
  | DelTasks names => foldl (pair_del t p) st (split_ws names)
  end.

Definition pair_after (t p : string) (l : list task_stmt) : pair_state := foldl (pair_step t p) (Pair false false) l.

(** ** Lists of tasks *)

Record atasks : Type := ATasks {
  at_tasks : list string;
  at_deps : string → list string
}.

Definition add_unique (l : list string) (x : string) : list string := if bool_decide (x ∈ l) then l else l ++ [x].

Definition set_deps (a : atasks) (t : string) (l : list string) : atasks :=
  ATasks (at_tasks a) (λ t', if decide (t' = t) then l else at_deps a t').

Definition before_step (n : string) (a : atasks) (entry : string) : atasks :=
  if bool_decide (n ∈ at_deps a entry) then a else set_deps a entry (n :: at_deps a entry).

Definition add_step (n : string) (before after : list string) (a : atasks) : atasks :=
  let a1 := ATasks (add_unique (at_tasks a) n) (at_deps a) in
  foldl (before_step n) (set_deps a1 n (foldl add_unique (at_deps a n) after)) before.

Definition drop_step (n : string) (a : atasks) (t : string) : atasks :=
  if bool_decide (n ∈ at_deps a t) then set_deps a t (remove_first n (at_deps a t)) else a.

Definition del_step (n : string) (a : atasks) : atasks :=
  let tasks := if bool_decide (n ∈ at_tasks a) then remove_first n (at_tasks a) else at_tasks a in
  foldl (drop_step n) (set_deps (ATasks tasks (at_deps a)) n []) tasks.

(** No task is listed twice. *)
Record unique (a : atasks) : Prop := {
  un_tasks : NoDup (at_tasks a);
  un_deps : ∀ t, NoDup (at_deps a t)
}.

(** The lists are what the pairs say. *)
Definition agrees (a : atasks) (st : string → string → pair_state) : Prop :=
  unique a ∧ ∀ t p, (t ∈ at_tasks a ↔ is_task (st t p) = true) ∧ (p ∈ at_deps a t ↔ follows (st t p) = true).

Lemma agrees_ext a st st' : (∀ t p, st t p = st' t p) → agrees a st → agrees a st'.
Proof. intros E [Hu H]. split; [done|]. intros t p. rewrite <-E. apply H. Qed.

Lemma elem_of_add_unique x l y : y ∈ add_unique l x ↔ y ∈ l ∨ y = x.
Proof. unfold add_unique. case_bool_decide; rewrite ?elem_of_app, ?list_elem_of_singleton; naive_solver. Qed.

Lemma NoDup_add_unique l x : NoDup l → NoDup (add_unique l x).
Proof.
  unfold add_unique. case_bool_decide; [done|]. intros. apply NoDup_app. split; [done|]. split; [|apply NoDup_singleton].
  by intros y Hy ->%list_elem_of_singleton.
Qed.

Lemma elem_of_add_all l xs y : y ∈ foldl add_unique l xs ↔ y ∈ l ∨ y ∈ xs.
Proof. revert l. induction xs as [|x xs IH]; intros l; cbn; [set_solver|]. rewrite IH, elem_of_add_unique. set_solver. Qed.

Lemma NoDup_add_all l xs : NoDup l → NoDup (foldl add_unique l xs).
Proof. revert l. induction xs as [|x xs IH]; intros l Hl; cbn; [done|]. by apply IH, NoDup_add_unique. Qed.

Lemma remove_first_sublist x l : remove_first x l `sublist_of` l.
Proof. induction l as [|y l IH]; cbn; [done|]. case_bool_decide; [by constructor|by constructor]. Qed.

Lemma elem_of_remove_first x l y : NoDup l → y ∈ remove_first x l ↔ y ∈ l ∧ y ≠ x.
Proof. induction 1 as [|z l Hz Hl IH]; cbn; [set_solver|]. case_bool_decide as E; set_solver. Qed.

Lemma set_deps_unique a t l : unique a → NoDup l → unique (set_deps a t l).
Proof. intros [H1 H2] Hl. split; [done|]. intros t'. cbn. by case_decide. Qed.

Lemma before_unique n a entry : unique a → unique (before_step n a entry).
Proof. intros H. unfold before_step. case_bool_decide; [done|]. apply set_deps_unique; [done|]. constructor; [done|apply (un_deps _ H)]. Qed.

Lemma drop_unique n a t : unique a → unique (drop_step n a t).
Proof.
  intros H. unfold drop_step. case_bool_decide; [|done]. apply set_deps_unique; [done|].
  eapply sublist_NoDup; [apply (un_deps _ H)|apply remove_first_sublist].
Qed.

Lemma before_all n a es :
  unique a →
  let a' := foldl (before_step n) a es in
  unique a' ∧ at_tasks a' = at_tasks a ∧ ∀ t p, p ∈ at_deps a' t ↔ p ∈ at_deps a t ∨ (p = n ∧ t ∈ es).
Proof.
  revert a. induction es as [|e es IH]; intros a H; cbn [foldl]; [split; [done|]; split; [done|set_solver]|].
  destruct (IH (before_step n a e)) as (H1 & H2 & H3); [by apply before_unique|]. split; [done|]. split.
  - rewrite H2. unfold before_step. by case_bool_decide.
  - intros t p. rewrite H3. unfold before_step. case_bool_decide as E; cbn; [set_solver|]. case_decide; set_solver.
Qed.

Lemma drop_all n a ts :
  unique a →
  let a' := foldl (drop_step n) a ts in
  unique a' ∧ at_tasks a' = at_tasks a ∧ ∀ t p, p ∈ at_deps a' t ↔ p ∈ at_deps a t ∧ ¬ (p = n ∧ t ∈ ts).
Proof.
  revert a. induction ts as [|e ts IH]; intros a H; cbn [foldl]; [split; [done|]; split; [done|set_solver]|].
  destruct (IH (drop_step n a e)) as (H1 & H2 & H3); [by apply drop_unique|]. split; [done|]. split.
  - rewrite H2. unfold drop_step. by case_bool_decide.
  - intros t p. rewrite H3. unfold drop_step. case_bool_decide as E; cbn; [|set_solver].
    case_decide; [subst; rewrite elem_of_remove_first by apply (un_deps _ H)|]; set_solver.
Qed.

Lemma add_agrees a st func before after :
  agrees a st →
  agrees (add_step (task_name func) (optional_words before) (optional_words after) a) (λ t p, pair_add t p func before after (st t p)).
Proof.
  intros [Hu H]. unfold add_step. set (n := task_name func).
  set (a1 := set_deps _ n _). assert (unique a1) as Hu1.
  { apply set_deps_unique; [split; [apply NoDup_add_unique, (un_tasks _ Hu)|apply (un_deps _ Hu)]|apply NoDup_add_all, (un_deps _ Hu)]. }
  destruct (before_all n a1 (optional_words before) Hu1) as (H1 & H2 & H3). split; [done|].
  intros t p. destruct (H t p) as [Ht Hp]. rewrite H2, H3. cbn [at_tasks at_deps a1 set_deps].
  rewrite elem_of_add_unique, Ht. unfold pair_add. fold n. cbn [is_task follows]. rewrite !orb_true_iff, !andb_true_iff, !bool_decide_eq_true. split; [naive_solver|].
  case_decide; [subst; rewrite elem_of_add_all|]; rewrite Hp; naive_solver.
Qed.

Lemma del_agrees a st name :
  agrees a st → agrees (del_step (task_name name) a) (λ t p, pair_del t p (st t p) name).
Proof.
  intros [Hu H]. unfold del_step. set (n := task_name name). set (tasks := if bool_decide (n ∈ at_tasks a) then _ else _).
  assert (∀ t, t ∈ tasks ↔ t ∈ at_tasks a ∧ t ≠ n) as Ht.
  { intros t. subst tasks. case_bool_decide; [apply elem_of_remove_first, (un_tasks _ Hu)|]. naive_solver. }
  assert (NoDup tasks) as Hn.
  { subst tasks. case_bool_decide; [|apply (un_tasks _ Hu)]. eapply sublist_NoDup; [apply (un_tasks _ Hu)|apply remove_first_sublist]. }
  destruct (drop_all n (set_deps (ATasks tasks (at_deps a)) n []) tasks) as (H1 & H2 & H3).
  { apply set_deps_unique; [split; [done|apply (un_deps _ Hu)]|constructor]. }
  split; [done|]. intros t p. destruct (H t p) as [Hi Hp]. rewrite H2, H3. cbn [at_tasks at_deps set_deps]. rewrite Ht.
  unfold pair_del. fold n. cbn [is_task follows].
  rewrite !andb_true_iff, !negb_true_iff, andb_false_iff, !bool_decide_eq_false, <-(not_true_iff_false (is_task _)), <-Hi, <-Hp.
  split; [naive_solver|]. case_decide; [subst; set_solver|]. destruct (decide (n = p)), (decide (t ∈ at_tasks a)); naive_solver.
Qed.

(** ** The store *)

Section refinement.
Context `{!SetOrder string}.
Context (python_eval : option string → string → M world python_result) (loop_fuel depth : nat)
  (str_of : value → string) (insert_method : string → string → res unit).

Abbreviation setVal := (setVal python_eval loop_fuel (S depth)).
Abbreviation setVarFlag := (setVarFlag python_eval loop_fuel (S depth)).

(** A flag that is this list, or is not there and the list empty. *)
Definition stored_list (o : option value) (l : list string) : Prop :=
  o = Some (VList l) ∨ (o = None ∧ l = []).

(** The store holds the lists. *)
Record holds (a : atasks) (w : world) : Prop := {
  hl_wf : ∀ v, dict_wf (flags_of w v);
  hl_tasks : stored_list (dget (flags_of w "__BBTASKS") "_content") (at_tasks a);
  hl_deps : ∀ t, stored_list (dget (flags_of w t) "deps") (at_deps a t);
  hl_plain : ∀ kw, kw ∈ "_defaultval" :: keywords → dget (flags_of w "__BBTASKS") kw = None;
  hl_variants : dget (overridedata (w_self w)) "__BBTASKS" = None;
  hl_vars : "__BBTASKS" ∉ overridevars (w_self w)
}.

Lemma lists_changed a a' var fl w w' :
  holds a w → changed var fl w w' → dict_wf fl →
  stored_list (dget fl "deps") (at_deps a' var) → (∀ t, t ≠ var → at_deps a' t = at_deps a t) →
  (var = "__BBTASKS" → stored_list (dget fl "_content") (at_tasks a') ∧ ∀ kw, kw ∈ "_defaultval" :: keywords → dget fl kw = None) →
  (var ≠ "__BBTASKS" → at_tasks a' = at_tasks a) → holds a' w'.
Proof.
  intros [] H Hw Hd Ho Ht Hn. split.
  - intros v. rewrite (changed_flags _ _ _ _ v H). by case_decide.
  - rewrite (changed_flags _ _ _ _ _ H). case_decide as E; [by apply Ht|]. by rewrite Hn.
  - intros t. rewrite (changed_flags _ _ _ _ t H). case_decide as E; [by subst|]. by rewrite Ho.
  - intros kw Hk. rewrite (changed_flags _ _ _ _ _ H). case_decide as E; [by apply Ht|]. by apply hl_plain0.
  - by rewrite (ss_overridedata _ _ (ch_same _ _ _ _ H)).
  - by rewrite (ss_overridevars _ _ (ch_same _ _ _ _ H)).
Qed.

(** The flags of a task that are not read as its value. *)
Definition task_flag (k : string) : bool := bool_decide (k ∉ "_content" :: "_defaultval" :: keywords) && plain_flag k.

(** One such flag of a variable is another. *)
Lemma holds_flag a a' var k fl w w' :
  holds a w → changed var fl w w' → task_flag k = true → dict_wf fl →
  (∀ k', k' ≠ k → dget fl k' = dget (flags_of w var) k') →
  at_tasks a' = at_tasks a → stored_list (dget fl "deps") (at_deps a' var) → (∀ t, t ≠ var → at_deps a' t = at_deps a t) →
  holds a' w'.
Proof.
  intros H Hc [Hk%bool_decide_eq_true _]%andb_true_iff Hw Hfl Ht Hd Ho. apply (lists_changed a _ _ _ _ _ H Hc); [done..| |done].
  assert (∀ k', k' ∈ "_content" :: "_defaultval" :: keywords → dget fl k' = dget (flags_of w var) k') as Hfl'.
  { intros k' Hk'. apply Hfl. by intros ->. }
  intros ->. split; [rewrite Hfl', Ht by by_eval; apply H|]. intros kw Hkw. rewrite Hfl' by by apply list_elem_of_further. by apply H.
Qed.

(** The same flags everywhere. *)
Lemma holds_same a w w' :
  holds a w → same_store w w' → (∀ v, _findVar w' v = _findVar w v) → holds a w'.
Proof.
  intros [] Hs Hf. assert (∀ v, flags_of w' v = flags_of w v) as E by (intros v; unfold flags_of; by rewrite Hf).
  split; intros; rewrite ?E; auto.
  - by rewrite (ss_overridedata _ _ Hs).
  - by rewrite (ss_overridevars _ _ Hs).
Qed.

Lemma deps_held a w t l :
  holds a w → succeeds w (setVarFlag t "deps" (VList l)) (λ _, holds (set_deps a t l)).
Proof.
  intros H. eapply succeeds_mono; [by apply setVarFlag_changed|]. cbn beta. intros _ w' Hc.
  apply (holds_flag a _ _ "deps" _ _ _ H Hc); [done|apply dset_wf, H| |done| |].
  - intros k' Hk. by apply dget_dset_ne.
  - left. rewrite dget_dset_eq. cbn. by case_decide.
  - intros t' Ht. cbn. by case_decide.
Qed.

Lemma mark_held a w t v :
  holds a w → succeeds w (setVarFlag t "task" v) (λ _, holds a).
Proof.
  intros H. eapply succeeds_mono; [by apply setVarFlag_changed|]. cbn beta. intros _ w' Hc.
  apply (holds_flag a _ _ "task" _ _ _ H Hc); [done|apply dset_wf, H| |done| |done].
  - intros k' Hk. by apply dget_dset_ne.
  - rewrite dget_dset_ne by done. apply H.
Qed.

Lemma stored_flag_value w var flag l :
  stored_list (dget (flags_of w var) flag) l →
  or_empty (flag_value w var flag) = VList l.
Proof. unfold flag_value. intros [->|[-> ->]]; [by destruct l|done]. Qed.

Lemma read_deps_held a w t :
  holds a w → read_deps python_eval loop_fuel (S depth) t w = (w, Ok (VList (at_deps a t))).
Proof.
  intros H. unfold read_deps. rewrite M_bind_eq, read_flag_value by done. cbn [mret M_ret]. by rewrite (stored_flag_value _ _ _ _ (hl_deps _ _ H t)).
Qed.

(** A variable without operations and variants is read as it is stored. *)
Lemma getVar_stored var w :
  dget (overridedata (w_self w)) var = None → (∀ kw, kw ∈ keywords → dget (flags_of w var) kw = None) →
  getVar python_eval loop_fuel (S depth) var false w = (w, Ok (stored_value w (call_var var false) (_findVar w var))).
Proof.
  intros Hod Hk. unfold getVar, get_flag. rewrite M_bind_eq. cbn [getVarFlag fc_flag call_var]. change (str_empty "_content") with false. cbv iota.
  unfold getVarFlag_body. rewrite get_bind. cbn [fc_expand fc_var fc_retparser orb fc_flag call_var]. rewrite Hod.
  assert (∀ kw, kw ∈ keywords → ops_of (FlagCall var "_content" false false false false) (_findVar w var) kw = None) as Ho.
  { intros kw H%Hk. unfold ops_of, flags_of in *. cbn [fc_flag fc_parsing]. by destruct (_findVar w var). }
  unfold variant_value, active_ops at 1 2, apply_removes, active_ops, call_var. rewrite !Ho by by_eval.
  cbv [joined mbind M_bind mret M_ret lift get]. by destruct (truthy (stored_value _ _ _)).
Qed.

Lemma read_tasks_held a w :
  holds a w → read_tasks python_eval loop_fuel (S depth) w = (w, Ok (VList (at_tasks a))).
Proof.
  intros H. unfold read_tasks. rewrite M_bind_eq, getVar_stored; [|apply H|].
  2: { intros kw Hk. by apply H, list_elem_of_further. }
  cbn [mret M_ret]. rewrite stored_flag. cbn [fc_flag fc_noweakdefault call_var negb andb].
  pose proof (hl_tasks _ _ H) as Ht. pose proof (hl_plain _ _ H "_defaultval" ltac:(by_eval)) as Hp.
  unfold flag_value, dmem. rewrite Hp. destruct Ht as [-> | [-> ->]]; [by destruct (at_tasks a)|done].
Qed.

(** What [forget_var] has nothing to do for. *)
Lemma remove_flag_nothing var flag fl w :
  own_var w var = Some fl → dget fl flag = None → remove_flag var flag w = (w, Ok tt).
Proof.
  intros Ho Hf. unfold remove_flag. rewrite get_bind, Ho. cbn [of_option]. rewrite lift_bind.
  by rewrite (proj2 (dmem_false _ _)) by by apply dget_None.
Qed.

Lemma tasks_held a w l :
  holds a w → succeeds w (setVal "__BBTASKS" (VList l) false) (λ _, holds (ATasks l (at_deps a))).
Proof.
  intros H. unfold DataStore.setVal. change (setvar_match "__BBTASKS") with (@None (string * string * option string)). cbn match.
  unfold assign. apply (shadow_shadowed "__BBTASKS" w (λ _, _)). intros w1 [H1 Ho].
  assert (∀ kw, kw ∈ keywords → dget (flags_of w "__BBTASKS") kw = None) as Hk by (intros; by apply H, list_elem_of_further).
  assert (forget_var python_eval loop_fuel (S depth) "__BBTASKS" w1 = (w1, Ok tt)) as Hf.
  { unfold forget_var. rewrite !M_bind_eq, (remove_flag_nothing _ _ _ _ Ho) by by apply Hk; by_eval.
    rewrite !M_bind_eq, (remove_flag_nothing _ _ _ _ Ho) by by apply Hk; by_eval.
    rewrite !M_bind_eq, (remove_flag_nothing _ _ _ _ Ho) by by apply Hk; by_eval.
    rewrite get_bind. rewrite (proj2 (dmem_false _ _)); [done|]. apply dget_None.
    rewrite (ss_overridedata _ _ (ch_same _ _ _ _ H1)). apply H. }
  unfold succeeds. rewrite M_bind_eq, Hf. change (char_in "_" "__BBTASKS") with true. cbv iota.
  rewrite M_bind_eq, update_overrides_none by done.
  pose proof (write_flag_changed "__BBTASKS" "_content" (VList l) _ w1 Ho (ch_cache _ _ _ _ H1)) as H2. unfold succeeds in H2.
  rewrite M_bind_eq. destruct (write_flag _ _ _ w1) as [w2 [[]|]]; [|done]. destruct H2 as [H2 _]. rewrite get_bind.
  pose proof (changed_then _ _ _ _ _ _ H1 H2) as Hc.
  rewrite bool_decide_eq_false_2 by (rewrite (ss_overridevars _ _ (ch_same _ _ _ _ Hc)); apply H). cbn [mret M_ret].
  apply (lists_changed a _ _ _ _ _ H Hc); [apply dset_wf, H| |done| |done].
  - rewrite dget_dset_ne by done. apply (hl_deps _ _ H).
  - intros _. split; [left; by rewrite dget_dset_eq|]. intros kw Hk'. rewrite dget_dset_ne; [by apply H|].
    intros <-. by repeat (apply elem_of_cons in Hk' as [Hk'|Hk']; [done|]); apply elem_of_nil in Hk'.
Qed.

(** [delVarFlag] of such a flag. *)
Lemma del_flag_held a a' w t k :
  holds a w → task_flag k = true → at_tasks a' = at_tasks a →
  (if decide (k = "deps") then at_deps a' t = [] else at_deps a' t = at_deps a t) → (∀ t', t' ≠ t → at_deps a' t' = at_deps a t') →
  succeeds w (delVarFlag t k) (λ _, holds a').
Proof.
  intros H Hk Ht Hd Ho.
  set (fl := if dmem (flags_of w t) k then ddel (flags_of w t) k else flags_of w t).
  assert (∀ k', k' ≠ k → dget fl k' = dget (flags_of w t) k') as Hfl.
  { intros k' Hk'. subst fl. destruct (dmem _ _); [by apply dget_ddel_ne|done]. }
  assert (stored_list (dget fl "deps") (at_deps a' t)) as Hs.
  { case_decide as E; [|rewrite Hfl, Hd by done; apply H]. subst k. right. split; [|done]. subst fl.
    destruct (dmem (flags_of w t) "deps") eqn:E; [apply dget_ddel_eq, H|by apply dget_None, dmem_false]. }
  destruct (decide (flags_of w t = [])) as [E|Hne].
  - eapply succeeds_mono; [by apply delVarFlag_missing|]. cbn beta. intros _ w' (Hw & Hf & _).
    assert (holds a w') as H' by by eapply holds_same.
    assert (flags_of w' t = []) as E' by (unfold flags_of; by rewrite Hf).
    destruct H'. split; try done; [by rewrite Ht|]. intros t'. destruct (decide (t' = t)) as [->|Hn]; [|by rewrite Ho].
    rewrite E'. by subst fl; rewrite E in Hs.
  - eapply succeeds_mono; [by apply delVarFlag_changed|]. cbn beta. intros _ w' Hc.
    apply (holds_flag a _ _ k _ _ _ H Hc); [done| |done..]. destruct (dmem _ _); [apply ddel_wf|]; apply H.
Qed.

(** *** The statements *)

Lemma value_add_list l x : value_add (VList l) x = Ok (VList (add_unique l x)).
Proof. unfold value_add, add_unique. cbn. by case_bool_decide. Qed.

Lemma value_add_all l xs : fold_res value_add (VList l) xs = Ok (VList (foldl add_unique l xs)).
Proof. revert l. induction xs as [|x xs IH]; intros l; cbn [fold_res]; [done|]. rewrite value_add_list. cbn [mbind res_bind]. apply IH. Qed.

(** A loop over names that takes the lists a step at a time. *)
Lemma holds_for_each (step : atasks → string → atasks) (f : string → data unit) a w l :
  (∀ a w x, holds a w → succeeds w (f x) (λ _, holds (step a x))) →
  holds a w → succeeds w (for_each l f) (λ _, holds (foldl step a l)).
Proof.
  intros Hf H. apply (succeeds_for_each (λ l w, holds (foldl step a l) w)); [done|].
  intros x l1 w' _ H'. rewrite foldl_app. by apply Hf.
Qed.

Lemma addtask_held a w func before after :
  holds a w →
  succeeds w (addtask python_eval loop_fuel (S depth) func before after)
    (λ _, holds (add_step (task_name func) (optional_words before) (optional_words after) a)).
Proof.
  intros H. unfold addtask. set (n := task_name func). eapply succeeds_bind; [by apply mark_held|]. cbn beta. intros _ w1 H1.
  unfold succeeds. rewrite M_bind_eq, (read_tasks_held a) by done. rewrite value_add_list, lift_bind.
  eapply succeeds_bind; [by apply tasks_held|]. cbn beta. intros _ w2 H2. unfold succeeds.
  rewrite M_bind_eq, (read_deps_held _ _ _ H2). cbn [at_deps]. rewrite value_add_all, lift_bind.
  eapply succeeds_bind; [by apply deps_held|]. cbn beta. intros _ w3 H3. apply holds_for_each; [|exact H3].
  clear. intros a w e H. unfold before_step. unfold succeeds.
  rewrite M_bind_eq, (read_deps_held _ _ _ H). cbn [value_has]. rewrite lift_bind. case_bool_decide; [done|].
  cbn [value_cons]. rewrite lift_bind. by apply deps_held.
Qed.

Lemma deltask_held a w name :
  holds a w → succeeds w (deltask python_eval loop_fuel (S depth) name) (λ _, holds (del_step (task_name name) a)).
Proof.
  intros H. unfold deltask, del_step. set (n := task_name name). set (tasks := if bool_decide (n ∈ at_tasks a) then _ else _).
  unfold succeeds. rewrite M_bind_eq, (read_tasks_held _ _ H). cbn [value_has]. rewrite lift_bind.
  eapply (succeeds_bind _ _ _ (λ _, holds (ATasks tasks (at_deps a)))).
  { subst tasks. case_bool_decide; [|by destruct a]. unfold succeeds. cbn [value_remove]. rewrite lift_bind.
    eapply (succeeds_bind _ _ _ (λ _, holds a)); [by apply (del_flag_held a)|]. intros _ w1 H1. by apply (tasks_held a). }
  cbn beta. intros _ w1 H1. eapply succeeds_bind.
  { apply (del_flag_held (ATasks tasks (at_deps a)) (set_deps (ATasks tasks (at_deps a)) n [])); [exact H1|done..| |].
    - cbn. by destruct (decide (n = n)).
    - intros t' Ht. cbn. by destruct (decide (t' = n)). }
  cbn beta. intros _ w2 H2. unfold succeeds. rewrite M_bind_eq, (read_tasks_held _ _ H2). cbn [at_tasks set_deps members]. rewrite lift_bind.
  apply holds_for_each; [|exact H2]. clear. intros a w t H. unfold drop_step, succeeds.
  rewrite M_bind_eq, (read_deps_held _ _ _ H). cbn [value_has]. rewrite lift_bind. case_bool_decide; [|done].
  cbn [value_remove]. rewrite lift_bind. by apply deps_held.
Qed.
End refinement.

Section statements.
Context `{!SetOrder string}.
Context (python_eval : option string → string → M world python_result) (loop_fuel depth : nat)
  (str_of : value → string) (insert_method : string → string → res unit).

Abbreviation eval_task s := (eval_plain python_eval (S loop_fuel) (S depth) str_of insert_method (task_node s)).

Definition new_atasks : atasks := ATasks [] (λ _, []).

(** The names of a [deltask] are there and not computed. *)
Definition names_plain (s : task_stmt) : Prop :=
  match s with AddTask _ _ _ => True | DelTasks names => has_ref names = false end.

(** The store holds lists that are what the statements so far say. *)
Definition declared (l : list task_stmt) (w : world) : Prop :=
  ∃ a, holds a w ∧ agrees a (λ t p, pair_after t p l).

Lemma declared_snoc l s w :
  names_plain s → declared l w → succeeds w (eval_task s) (λ _, declared (l ++ [s])).
Proof.
  intros Hn (a & H & Ha). destruct s as [func before after|names]; cbn [eval_plain task_node n_statement].
  - eapply succeeds_mono; [by apply addtask_held|]. cbn beta. intros _ w' H'. eexists; split; [exact H'|].
    eapply agrees_ext; [|by apply add_agrees]. intros t p. unfold pair_after. by rewrite foldl_app.
  - unfold succeeds, expand_text, expand_value. cbn [some_value]. rewrite !M_bind_eq, expand_plain by done. cbn [mret M_ret p_value empty_parse default lift as_str].
    assert (∀ names a st w, holds a w → agrees a st →
      succeeds w (for_each names (deltask python_eval (S loop_fuel) (S depth)))
        (λ _ w', ∃ a', holds a' w' ∧ agrees a' (λ t p, foldl (pair_del t p) (st t p) names))) as Hd.
    { clear. intros names. induction names as [|n names IH]; intros a st w H Ha; cbn [for_each]; [by exists a|].
      eapply succeeds_bind; [by apply deltask_held|]. cbn beta. intros _ w' H'. eapply (IH _ (λ t p, pair_del t p (st t p) n)); [exact H'|].
      by apply del_agrees. }
    eapply succeeds_mono; [by apply (Hd _ a _ w H Ha)|]. cbn beta. intros _ w' (a' & H' & Ha'). exists a'. split; [done|].
    eapply agrees_ext; [|exact Ha']. intros t p. unfold pair_after. by rewrite foldl_app.
Qed.

(** C16: the [addtask] and [deltask] statements of a recipe, in any number and
    order, on a store without tasks, all succeed and leave tables in which,
    for any two names [t] and [p], [t] is listed exactly when it was added and
    not deleted after that, and has [p] among the tasks it follows exactly
    when a statement said so, with neither [t] deleted since, nor [p] deleted
    while [t] was a task; and in which no name is listed twice. *)
Theorem tasks_declared w stmts :
  holds new_atasks w → Forall names_plain stmts →
  succeeds w (for_each stmts (λ s, eval_task s)) (λ _ w',
    ∃ tasks, read_tasks python_eval (S loop_fuel) (S depth) w' = (w', Ok (VList tasks)) ∧ NoDup tasks ∧
    ∀ t, ∃ deps, read_deps python_eval (S loop_fuel) (S depth) t w' = (w', Ok (VList deps)) ∧ NoDup deps ∧
    ∀ p, (t ∈ tasks ↔ is_task (pair_after t p stmts) = true) ∧ (p ∈ deps ↔ follows (pair_after t p stmts) = true)).
Proof.
  intros H Hn. eapply succeeds_mono; [apply (succeeds_for_each declared)|].
  - exists new_atasks. split; [done|]. split; [split; [constructor|intros; constructor]|].
    intros t p. cbn. by split; split; [intros ?%elem_of_nil| |intros ?%elem_of_nil|].
  - intros s l w' Hs H'. apply declared_snoc; [|done]. rewrite Forall_forall in Hn. by apply Hn.
  - cbn beta. intros _ w' (a & Ha & [Hu Hp]). exists (at_tasks a). split; [by apply read_tasks_held|]. split; [apply Hu|].
    intros t. exists (at_deps a t). split; [by apply read_deps_held|]. split; [apply (un_deps _ Hu)|]. intros p. apply Hp.
Qed.
End statements.

#[local] Existing Instance set_order_elements.

Definition some_tasks : list task_stmt :=
  [AddTask "fetch" None None; AddTask "do_compile" (Some "do_install do_build") (Some "do_fetch do_patch");
   AddTask "do_install" None (Some "do_compile"); DelTasks "compile do_patch"; AddTask "do_build" None (Some "do_install")].

Lemma new_world_holds : holds new_atasks new_world.
Proof.
  split; try done; intros; try by right.
  apply dict_wf_nil.
Qed.

Abbreviation run_tasks :=
  (for_each some_tasks (λ s, eval_plain no_python 5 5 (λ _, "") (λ _ _, Ok tt) (task_node s))).

(** [do_build] follows [do_compile], which is deleted: it was no task then. *)
Lemma tasks_declared_witness :
  (_ ← run_tasks; read_tasks no_python 5 5) new_world = (_ ← run_tasks; mret (VList ["do_fetch"; "do_install"; "do_build"])) new_world ∧
  (pair_after "do_install" "do_compile" some_tasks = Pair true false ∧ pair_after "do_build" "do_compile" some_tasks = Pair true true) ∧
  succeeds new_world run_tasks (λ _ w',
    ∃ tasks, read_tasks no_python 5 5 w' = (w', Ok (VList tasks)) ∧ NoDup tasks ∧
    ∀ t, ∃ deps, read_deps no_python 5 5 t w' = (w', Ok (VList deps)) ∧ NoDup deps ∧
    ∀ p, (t ∈ tasks ↔ is_task (pair_after t p some_tasks) = true) ∧ (p ∈ deps ↔ follows (pair_after t p some_tasks) = true)).
Proof.
  split; [vm_compute; reflexivity|]. split; [split; vm_compute; reflexivity|].
  apply (tasks_declared no_python 4 4 (λ _, "") (λ _ _, Ok tt) new_world some_tasks new_world_holds).
  repeat constructor.
Defined.
