(* ===== verification/RecipeFilesOk.v ===== *)
(** * The stores of a recipe are apart (bb/parse)

    Reading a recipe writes to the store it is read into, whatever its
    statements, the files it includes and the code it runs; the stores of its
    variants are copies that nothing done with one of them changes another. *)

From Stdlib Require Import Ascii String.
From S2P Require Import Prelude.
From S2P Require Import PyStr.
From S2P Require Import PyDict.
From S2P Require Import Runs.
From S2P Require Import DataStore.
From S2P Require Import DataCopy.
From S2P Require Import VarDeps.
From S2P Require Import SigGen.
From S2P Require Import Ast.
From S2P Require Import RecipeSyntax.
From S2P Require Import Events.
From S2P Require Import RecipeFiles.

(** ** Writing to the own dictionary and to new ones *)

Definition links_down (w : world) : Prop := ∀ l y l', w_layers w !! l = Some y → l_data y = Some l' → l' < l.

(** The dictionaries that are there, and older ones, stay but for the own one,
    whose link stays. *)
Record isolated (w w' : world) : Prop := {
  is_dict : d_dict (w_self w') = d_dict (w_self w);
  is_others : ∀ l l0, is_Some (w_layers w !! l0) → l ≤ l0 → l ≠ d_dict (w_self w) → w_layers w' !! l = w_layers w !! l;
  is_there : ∀ y, w_layers w !! d_dict (w_self w) = Some y →
    ∃ y', w_layers w' !! d_dict (w_self w) = Some y' ∧ l_data y' = l_data y;
  is_heap : heap_ok w → heap_ok w'
}.

Lemma isolated_links w w' l y :
  isolated w w' → w_layers w !! l = Some y → ∃ y', w_layers w' !! l = Some y' ∧ l_data y' = l_data y.
Proof.
  intros H Hy. destruct (decide (l = d_dict (w_self w))) as [->|Hl]; [by apply (is_there _ _ H)|].
  exists y. by rewrite (is_others _ _ H l l) by eauto.
Qed.

#[export] Instance isolated_preorder : PreOrder isolated.
Proof.
  split.
  - intros w. split; eauto.
  - intros w1 w2 w3 A B. split.
    + by rewrite (is_dict _ _ B), (is_dict _ _ A).
    + intros l l0 [y Hy] Hl Hne. rewrite <-(is_others _ _ A l l0) by eauto.
      destruct (isolated_links _ _ _ _ A Hy) as (y' & Hy' & _). apply (is_others _ _ B l l0); [eauto|done|by rewrite (is_dict _ _ A)].
    + intros y Hy. destruct (is_there _ _ A y Hy) as (y' & Hy' & E). rewrite <-(is_dict _ _ A) in *.
      destruct (is_there _ _ B y' Hy') as (y'' & Hy'' & E'). exists y''. split; [done|congruence].
    + intros H. by apply B, A.
Qed.

Abbreviation isolates := (preserves isolated).

Lemma only_own_isolated w w' : only_own w w' → isolated w w'.
Proof.
  intros [A1 A2 A3 A4]. split; [done| | |].
  - intros l l0 _ _ Hl. by apply A2.
  - intros y Hy. destruct A4 as [y' Hy']; [eauto|]. exists y'. split; [done|]. unfold layer_at in A3. by rewrite Hy, Hy' in A3.
  - intros [Hl Hs]. split; [|rewrite A1; by apply A4]. intros l y l' Hy E.
    destruct (decide (l = d_dict (w_self w))) as [->|Hne]; [|rewrite A2 in Hy by done; by apply (Hl l y)].
    destruct Hs as [y0 Hy0]. apply (Hl _ y0); [done|]. unfold layer_at in A3. rewrite Hy, Hy0 in A3. cbn in A3. congruence.
Qed.

Lemma keeps_isolates {A} (m : data A) : keeps m → isolates m.
Proof. intros H w. apply only_own_isolated, H. Qed.

(** A call on a copy that is dropped. *)
Lemma in_copy_isolates {A} (m : data A) : keeps m → isolates (in_copy m).
Proof.
  intros Hm w. unfold in_copy. destruct (createCopy w) as [w1 copy] eqn:E.
  assert (w1 = (createCopy w).1 ∧ copy = (createCopy w).2) as [-> ->] by by rewrite E. clear E.
  specialize (Hm (with_self (createCopy w).2 (createCopy w).1)).
  destruct (m _) as [w2 r]. cbn [fst] in *. destruct Hm as [A1 A2 A3 A4]. cbn [w_self w_layers with_self] in *.
  assert (∀ l l0, is_Some (w_layers w !! l0) → l ≤ l0 → w_layers w2 !! l = w_layers w !! l) as Ho.
  { intros l l0 H0 Hl. pose proof (copy_fresh w l0 H0). rewrite A2 by lia. apply copy_layers. lia. }
  split; [done| | |].
  - intros l l0 H0 Hl _. by apply (Ho l l0).
  - intros y Hy. exists y. cbn [w_layers with_self]. split; [|done]. rewrite (Ho _ (d_dict (w_self w))); eauto.
  - intros [Hl Hs]. split; [|cbn [w_layers w_self with_self]; rewrite (Ho _ (d_dict (w_self w))); [done|done|lia]].
    intros l y l' Hy E. destruct (decide (l = d_dict (createCopy w).2)) as [->|Hne].
    + unfold layer_at in A3. cbn [w_layers with_self] in A3, Hy. rewrite Hy in A3. cbn in A3. rewrite lookup_insert_eq in A3. cbn in A3.
      assert (l' = d_dict (w_self w)) as -> by congruence. by apply copy_fresh.
    + cbn [w_layers with_self] in Hy. rewrite A2, copy_layers in Hy by done. by apply (Hl l y).
Qed.

(** ** Statements *)

(** A computation that isolates, or keeps to the own dictionary. *)
Ltac isolate :=
  repeat match goal with
    | |- isolates _ => solve [apply keeps_isolates; eauto with preserves]
    | |- isolates (match ?x with _ => _ end) => destruct x
    | |- isolates (_ ≫= _) => apply (preserves_bind _); [|intros]
    | |- isolates (for_each _ _) => apply (preserves_for_each _); intros
    | |- isolates (fold_state _ _ _) => apply (preserves_fold_state _); intros
    | |- isolates (map_state _ _) => apply (preserves_map_state _); intros
    | |- isolates _ => solve [eauto with preserves]
    end.

Section evaluation.
Context `{!SetOrder string}.
Context (python_eval : option string → string → data python_result) (loop_fuel depth : nat).
Context (parse_python : string → option value → res python_code) (parse_shell : string → option value → res (gset string)).
Context (str_of : value → string) (insert_method : string → string → res unit).
Hypothesis keeps_python : ∀ var code, keeps (python_eval var code).

#[local] Hint Resolve keeps_python keeps_getVarFlag keeps_expandWithRefs keeps_get_flag keeps_getVar keeps_read_flag
  keeps_setVarFlag keeps_setVar keeps_setVal keeps_renameVar keeps_getVarFlags keeps_data_keys : preserves.

Lemma keeps_delVarFlag var flag : keeps (delVarFlag var flag).
Proof. keeping delVarFlag. Qed.
#[local] Hint Resolve keeps_delVarFlag : preserves.

Lemma keeps_read_parse key flag : keeps (read_parse python_eval loop_fuel depth key flag).
Proof. keeping read_parse. Qed.

Lemma keeps_contains_lines contains keys : keeps (contains_lines python_eval loop_fuel depth contains keys).
Proof. induction keys; cbn [contains_lines]; keep. Qed.
#[local] Hint Resolve keeps_read_parse keeps_contains_lines : preserves.

Lemma keeps_handle_contains v contains : keeps (handle_contains python_eval loop_fuel depth v contains).
Proof. keeping handle_contains. Qed.

Lemma keeps_handle_remove first removes v deps : keeps (handle_remove python_eval loop_fuel depth first removes v deps).
Proof. revert first v deps. induction removes; intros; cbn [handle_remove]; keep. Qed.
#[local] Hint Resolve keeps_handle_contains keeps_handle_remove : preserves.

Lemma keeps_removes_of v p deps : keeps (removes_of python_eval loop_fuel depth v p deps).
Proof. keeping removes_of. Qed.
#[local] Hint Resolve keeps_removes_of : preserves.

Lemma keeps_function_value key keys shelldeps flags :
  keeps (function_value python_eval loop_fuel depth parse_python parse_shell key keys shelldeps flags).
Proof. keeping function_value. Qed.
#[local] Hint Resolve keeps_function_value : preserves.

Lemma keeps_variable_value key keys shelldeps flags :
  keeps (variable_value python_eval loop_fuel depth parse_python parse_shell key keys shelldeps flags).
Proof. keeping variable_value. Qed.
#[local] Hint Resolve keeps_variable_value : preserves.

Lemma keeps_build_dependencies key keys shelldeps excl :
  keeps (build_dependencies python_eval loop_fuel depth parse_python parse_shell key keys shelldeps excl).
Proof. keeping build_dependencies. Qed.

Section closure.
Context (build : string → data (gset string * option value)) (Hb : ∀ key, keeps (build key)).
#[local] Hint Resolve Hb : preserves.

Lemma keeps_build_into key t : keeps (build_into build key t).
Proof. keeping build_into. Qed.
#[local] Hint Resolve keeps_build_into : preserves.

Lemma keeps_build_round l newdeps t : keeps (build_round build l newdeps t).
Proof. revert newdeps t. induction l; intros; cbn [build_round]; keep. Qed.
#[local] Hint Resolve keeps_build_round : preserves.

Lemma keeps_build_closure whitelist n newdeps seen t : keeps (build_closure build whitelist n newdeps seen t).
Proof. revert newdeps seen t. induction n; intros; cbn [build_closure]; keep. Qed.
#[local] Hint Resolve keeps_build_closure : preserves.

Lemma keeps_build_tasks whitelist l t : keeps (build_tasks loop_fuel build whitelist l t).
Proof. revert t. induction l; intros; cbn [build_tasks]; keep. Qed.
End closure.

Lemma keeps_exported l : keeps (exported python_eval loop_fuel depth l).
Proof. induction l; cbn [exported]; keep. Qed.
#[local] Hint Resolve keeps_exported keeps_build_dependencies keeps_build_tasks : preserves.

Lemma keeps_generate whitelist : keeps (generate_dependencies python_eval loop_fuel depth parse_python parse_shell whitelist).
Proof. keeping generate_dependencies. Qed.
#[local] Hint Resolve keeps_generate : preserves.

Lemma keeps_finalise env fn variant s :
  keeps (finalise env python_eval loop_fuel depth parse_python parse_shell str_of fn variant s).
Proof. keeping finalise. keeping _build_data. Qed.

(** *** Each statement *)

Lemma keeps_expand_value v : keeps (expand_value python_eval loop_fuel depth v).
Proof. keeping expand_value. Qed.
#[local] Hint Resolve keeps_expand_value : preserves.

Lemma keeps_expand_text s : keeps (expand_text python_eval loop_fuel depth s).
Proof. keeping expand_text. Qed.
#[local] Hint Resolve keeps_expand_text : preserves.

Lemma keeps_getFunc g : keeps (getFunc python_eval loop_fuel depth g).
Proof. keeping getFunc. Qed.
#[local] Hint Resolve keeps_getFunc : preserves.

Lemma keeps_old_text g : keeps (old_text python_eval loop_fuel depth str_of g).
Proof. keeping old_text. Qed.
#[local] Hint Resolve keeps_old_text : preserves.

Lemma isolates_new_value g : isolates (new_value python_eval loop_fuel depth str_of g).
Proof. unfold new_value. destruct (g_op g); isolate. apply in_copy_isolates. keep. Qed.
#[local] Hint Resolve isolates_new_value : preserves.

Lemma isolates_eval_data g : isolates (eval_data python_eval loop_fuel depth str_of g).
Proof. unfold eval_data. isolate. Qed.

Lemma keeps_read_deps task : keeps (read_deps python_eval loop_fuel depth task).
Proof. keeping read_deps. Qed.

Lemma keeps_read_tasks : keeps (read_tasks python_eval loop_fuel depth).
Proof. keeping read_tasks. Qed.
#[local] Hint Resolve keeps_read_deps keeps_read_tasks : preserves.

Lemma keeps_addtask task before after : keeps (addtask python_eval loop_fuel depth task before after).
Proof. keeping addtask. Qed.

Lemma keeps_deltask task : keeps (deltask python_eval loop_fuel depth task).
Proof. keeping deltask. Qed.

Lemma keeps_copy_flag from to flag : keeps (copy_flag python_eval loop_fuel depth from to flag).
Proof. keeping copy_flag. Qed.
#[local] Hint Resolve keeps_copy_flag keeps_addtask keeps_deltask : preserves.

Lemma keeps_export_func classname func : keeps (export_func python_eval loop_fuel depth classname func).
Proof. keeping export_func. Qed.
#[local] Hint Resolve keeps_export_func isolates_eval_data : preserves.

Lemma keeps_add_task t task : keeps (add_task python_eval loop_fuel depth t task).
Proof. unfold add_task. keep. unfold getTask. keep. Qed.
#[local] Hint Resolve keeps_add_task : preserves.

Lemma keeps_add_tasks l : keeps (add_tasks python_eval loop_fuel depth l).
Proof. keeping add_tasks. Qed.

Lemma isolates_plain n : isolates (eval_plain python_eval loop_fuel depth str_of insert_method n).
Proof.
  unfold eval_plain. destruct (n_statement n); isolate.
  - unfold eval_method, anonymous. isolate.
  - unfold eval_python_method. isolate.
  - unfold eval_handlers. isolate.
Qed.
End evaluation.

(** ** Files *)

Definition engine_isolated (s s' : engine) : Prop := isolated (en_world s) (en_world s').

#[export] Instance engine_isolated_preorder : PreOrder engine_isolated.
Proof. split; [intros s; unfold engine_isolated; reflexivity|]. intros a b c ? ?. unfold engine_isolated. by etrans. Qed.

Abbreviation contained := (preserves engine_isolated).

Lemma contained_store {A} (m : data A) : isolates m → contained (store m).
Proof. intros H s. unfold store, engine_isolated. specialize (H (en_world s)). by destruct (m (en_world s)). Qed.

Lemma contained_globals {A} (m : parser A) : contained (with_globals m).
Proof. intros s. unfold with_globals, engine_isolated. destruct (m (en_globals s)). reflexivity. Qed.

Lemma contained_modify f : (∀ s, en_world (f s) = en_world s) → contained (modify f).
Proof. intros H s. unfold engine_isolated. cbn. by rewrite H. Qed.

(** A computation on the store, or on the rest of the engine. *)
Ltac contain :=
  repeat match goal with
    | |- contained (store _) => apply contained_store; isolate
    | |- contained (with_globals _) => apply contained_globals
    | |- contained (modify _) => by apply contained_modify
    | |- contained (match ?x with _ => _ end) => destruct x
    | |- contained (_ ≫= _) => apply (preserves_bind _); [|intros]
    | |- contained (catch _ _ _) => apply (preserves_catch _); [|intros]
    | |- contained (for_each _ _) => apply (preserves_for_each _); intros
    | |- contained (fold_state _ _ _) => apply (preserves_fold_state _); intros
    | |- contained _ => solve [eauto with preserves]
    end.

Section files.
Context `{!SetOrder string}.
Context (python_eval : option string → string → data python_result) (loop_fuel depth : nat).
Context (parse_python : string → option value → res python_code) (parse_shell : string → option value → res (gset string)).
Context (env : parse_env).
(** The code of recipes: expressions use the store as its methods do, and
    anonymous functions and handlers may make copies of it too. *)
Hypothesis keeps_python : ∀ var code, keeps (python_eval var code).
Hypothesis isolates_call : ∀ f, isolates (pe_call env f).
Hypothesis isolates_handler : ∀ name text eid, isolates (pe_handler env name text eid).
Hypothesis isolates_filters : ∀ fn, isolates (pe_conf_filters env fn).

#[local] Hint Resolve keeps_python keeps_getVarFlag keeps_expandWithRefs keeps_get_flag keeps_getVar keeps_read_flag
  keeps_setVarFlag keeps_setVar keeps_setVal keeps_renameVar keeps_getVarFlags keeps_data_keys keeps_delVarFlag keeps_expand_text
  keeps_finalise keeps_add_tasks isolates_plain isolates_call isolates_handler isolates_filters : preserves.

Lemma keeps_read_files var : keeps (read_files python_eval loop_fuel depth var).
Proof. keeping read_files. Qed.
#[local] Hint Resolve keeps_read_files : preserves.

Lemma keeps_mark_dependency f : keeps (mark_dependency python_eval loop_fuel depth env f).
Proof. keeping mark_dependency. Qed.

Lemma keeps_check_dependency f : keeps (check_dependency python_eval loop_fuel depth env f).
Proof. keeping check_dependency. Qed.
#[local] Hint Resolve keeps_mark_dependency keeps_check_dependency : preserves.

Lemma keeps_resolve_file fn : keeps (resolve_file python_eval loop_fuel depth env fn).
Proof. keeping resolve_file. Qed.

Lemma keeps_file_depends : keeps (get_file_depends python_eval loop_fuel depth env).
Proof. keeping get_file_depends. Qed.

Lemma keeps_init_store : keeps (init_store python_eval loop_fuel depth env).
Proof. keeping init_store. Qed.

Lemma keeps_warn_twice f : keeps (warn_twice python_eval loop_fuel depth env f).
Proof. keeping warn_twice. Qed.

Lemma keeps_read_inherits : keeps (read_inherits python_eval loop_fuel depth).
Proof. keeping read_inherits. Qed.

Lemma keeps_class_file f : keeps (class_file python_eval loop_fuel depth env f).
Proof. keeping class_file. Qed.
#[local] Hint Resolve keeps_resolve_file keeps_file_depends keeps_init_store keeps_warn_twice keeps_read_inherits keeps_class_file : preserves.

Lemma keeps_note_class fn : keeps (note_class python_eval loop_fuel depth fn).
Proof. keeping note_class. Qed.
#[local] Hint Resolve keeps_note_class : preserves.

Section reading.
Context (handle_file : string → parsing unit) (contained_file : ∀ fn, contained (handle_file fn)).
#[local] Hint Resolve contained_file : preserves.

Lemma contained_include parentfn fns error_out : contained (include python_eval loop_fuel depth env handle_file parentfn fns error_out).
Proof.
  unfold include. contain. unfold include_single_file. contain. unfold include_file. contain.
Qed.
#[local] Hint Resolve contained_include : preserves.

Lemma contained_inherit files fn : contained (inherit python_eval loop_fuel depth env handle_file files fn).
Proof. unfold inherit. contain. unfold inherit_class. contain. Qed.
#[local] Hint Resolve contained_inherit : preserves.

Lemma contained_statements l : contained (eval_statements python_eval loop_fuel depth env handle_file l).
Proof. unfold eval_statements. contain. unfold eval_node. contain. Qed.
#[local] Hint Resolve contained_statements : preserves.

Lemma contained_conf fn : contained (conf_handle python_eval loop_fuel depth env handle_file fn).
Proof. unfold conf_handle. contain. Qed.

Lemma contained_read fn included : contained (bb_read python_eval loop_fuel depth env handle_file fn included).
Proof. unfold bb_read, reset_globals, get_statements, check_complete. contain. Qed.
#[local] Hint Resolve contained_read : preserves.

Lemma contained_bb fn : contained (bb_handle python_eval loop_fuel depth env handle_file fn).
Proof. unfold bb_handle. contain. Qed.
End reading.

Lemma contained_handle_file n fn : contained (handle_file python_eval loop_fuel depth env n fn).
Proof.
  revert fn. induction n as [|n IH]; intros fn; cbn [handle_file]; [apply (preserves_raise _)|].
  destruct (endswith fn ".conf"); [by apply contained_conf|]. case_bool_decide; [by apply contained_bb|apply (preserves_raise _)].
Qed.
#[local] Hint Resolve contained_handle_file contained_inherit contained_read contained_bb : preserves.

(** ** After reading *)

Lemma contained_fire eid : contained (fire env eid).
Proof.
  unfold fire. contain. unfold fire_class_handlers. isolate. unfold run_handler. isolate.
Qed.

Lemma contained_register var : contained (register_handler python_eval loop_fuel depth env var).
Proof. unfold register_handler. contain. Qed.
#[local] Hint Resolve contained_fire contained_register : preserves.

Lemma keeps_expand_keys : keeps (expand_keys python_eval loop_fuel depth).
Proof. unfold expand_keys. keep. Qed.
#[local] Hint Resolve keeps_expand_keys : preserves.

Lemma isolates_anonymous : isolates (runAnonFuncs python_eval loop_fuel depth env).
Proof. unfold runAnonFuncs. isolate. Qed.
#[local] Hint Resolve isolates_anonymous : preserves.

Lemma contained_finalize fn variant :
  contained (finalize_or_skip python_eval loop_fuel depth parse_python parse_shell env fn variant).
Proof. unfold finalize_or_skip, finalize, finalize_body. contain. Qed.

Lemma contained_extend n fn pn maps name : contained (extendfunc python_eval loop_fuel depth env n fn pn maps name).
Proof. unfold extendfunc. contain. Qed.
#[local] Hint Resolve contained_finalize contained_extend : preserves.

(** ** Variants *)

(** The dictionary of a copy of the store with dictionary [base]. *)
Definition copy_of (base : nat) (w : world) (l : nat) : Prop :=
  base < l ∧ ∃ y, w_layers w !! l = Some y ∧ l_data y = Some base.

Lemma copy_of_isolated base w w' l : isolated w w' → copy_of base w l → copy_of base w' l.
Proof.
  intros H (Hl & y & Hy & E). split; [done|]. destruct (isolated_links _ _ _ _ H Hy) as (y' & Hy' & E'). exists y'. split; [done|congruence].
Qed.

(** The dictionaries [f] are of different copies of the store that is filled. *)
Record apart (base : nat) (f : string → option nat) (w : world) : Prop := {
  ap_heap : heap_ok w;
  ap_self : d_dict (w_self w) = base;
  ap_copies : ∀ n l, f n = Some l → copy_of base w l;
  ap_distinct : ∀ n1 n2 l, f n1 = Some l → f n2 = Some l → n1 = n2
}.

Lemma apart_isolated base f w w' : apart base f w → isolated w w' → apart base f w'.
Proof.
  intros [] H. split; [by apply H|by rewrite (is_dict _ _ H)| |done].
  intros n l Hn. eapply copy_of_isolated; [done|eauto].
Qed.

Lemma apart_mono base f g w : (∀ n l, g n = Some l → f n = Some l) → apart base f w → apart base g w.
Proof. intros H []. split; eauto. Qed.

(** A computation that runs on one of the copies, or on the store itself. *)
Lemma on_store_apart base f d s {A} (m : parsing A) :
  apart base f (en_world s) → d_dict d = base ∨ (∃ n, f n = Some (d_dict d)) → contained m →
  returns s (on_store d m) (λ r s', apart base f (en_world s') ∧ d_dict r.1 = d_dict d).
Proof.
  intros H Hd Hm. unfold returns, on_store. set (s0 := Engine (with_self d (en_world s)) _ _ _ _).
  specialize (Hm s0). destruct (m s0) as [s' [a|e]]; [|done]. cbn [fst en_world] in *.
  unfold engine_isolated in Hm. cbn [en_world s0] in Hm. split; [|apply Hm]. destruct H.
  assert (heap_ok (with_self d (en_world s))) as Hok.
  { split; [apply ap_heap0|]. cbn. destruct Hd as [->|[n Hn]]; [rewrite <-ap_self0; apply ap_heap0|].
    destruct (ap_copies0 _ _ Hn) as (_ & y & Hy & _). by exists y. }
  split; cbn [w_self with_self]; [|done| |done].
  - split; cbn [w_layers w_self with_self]; [by apply Hm|]. destruct (ho_self _ ap_heap0) as [y Hy].
    destruct (isolated_links _ _ (d_dict (w_self (en_world s))) y Hm Hy) as (y' & Hy' & _). by exists y'.
  - intros n l Hn. destruct (ap_copies0 _ _ Hn) as (Hl & y & Hy & E). split; [done|].
    destruct (isolated_links _ _ l y Hm Hy) as (y' & Hy' & E'). exists y'. split; [done|congruence].
Qed.

(** A new copy of the store. *)
Lemma copy_store_apart base f d s :
  apart base f (en_world s) → d_dict d = base →
  returns s (copy_store d) (λ c s', ∀ name,
    apart base (λ n, if decide (n = name) then Some (d_dict c) else f n) (en_world s')).
Proof.
  intros H Hd. unfold returns, copy_store. destruct (createCopy (with_self d (en_world s))) as [w c] eqn:E. cbn [en_world].
  assert (w = (createCopy (with_self d (en_world s))).1 ∧ c = (createCopy (with_self d (en_world s))).2) as [-> ->] by by rewrite E.
  clear E. intros name. destruct H.
  assert (∀ l, is_Some (w_layers (en_world s) !! l) → l < d_dict (createCopy (with_self d (en_world s))).2) as Hf.
  { intros l Hl. by apply (copy_fresh (with_self d (en_world s))). }
  assert (∀ l, is_Some (w_layers (en_world s) !! l) →
    w_layers (createCopy (with_self d (en_world s))).1 !! l = w_layers (en_world s) !! l) as Hs.
  { intros l Hl. apply (copy_layers (with_self d (en_world s))). specialize (Hf l Hl). lia. }
  split; cbn [w_self with_self]; [|done| |].
  - split; cbn [w_self with_self w_layers]; [|rewrite Hs by apply ap_heap0; apply ap_heap0].
    intros l y l' Hy E. destruct (decide (l = d_dict (createCopy (with_self d (en_world s))).2)) as [->|Hne].
    + cbn in Hy. rewrite lookup_insert_eq in Hy. injection Hy as <-. cbn in E. injection E as <-. rewrite Hd, <-ap_self0. apply Hf, ap_heap0.
    + rewrite (copy_layers (with_self d (en_world s))) in Hy by done. by apply (ho_links _ ap_heap0 l y).
  - intros n l Hn. case_decide as En.
    + injection Hn as <-. split; [rewrite <-ap_self0; apply Hf, ap_heap0|]. eexists. cbn. by rewrite lookup_insert_eq, Hd.
    + destruct (ap_copies0 n l Hn) as (Hl & y & Hy & E). split; [done|]. exists y. cbn [w_layers with_self]. by rewrite Hs by eauto.
  - intros n1 n2 l. assert (∀ n, f n = Some (d_dict (createCopy (with_self d (en_world s))).2) → False) as Hnew.
    { intros n Hn. destruct (ap_copies0 _ _ Hn) as (_ & y & Hy & _). specialize (Hf _ (mk_is_Some _ _ Hy)). lia. }
    do 2 case_decide; subst; [done|intros [= <-] ?; by edestruct Hnew|intros ? [= <-]; by edestruct Hnew|apply ap_distinct0].
Qed.

(** The dictionaries of the stores of the variants; the recipe's own store,
    under the empty name, is [own] instead. *)
Definition variant_dicts (own : option nat) (stores : list (string * DataSmart)) (n : string) : option nat :=
  if str_empty n then own else d_dict <$> dget stores n.

(** The variants are apart, and the empty name has the store that is filled. *)
Definition variants_apart (base own : nat) (stores : list (string * DataSmart)) (w : world) : Prop :=
  apart base (variant_dicts (Some own) stores) w ∧ (d_dict <$> dget stores "") = Some base.

Lemma variant_dicts_dset own stores n d m :
  n ≠ "" → variant_dicts own (dset stores n d) m = if decide (m = n) then Some (d_dict d) else variant_dicts own stores m.
Proof.
  intros Hn. unfold variant_dicts. case_decide as E; [subst; destruct n; [done|]; cbn [str_empty]; by rewrite dget_dset_eq|].
  destruct (str_empty m); [done|]. by rewrite dget_dset_ne.
Qed.

(** A store under its name is replaced by what it is after a computation. *)
Lemma variants_apart_set base own stores n d d' w :
  variants_apart base own stores w → n ≠ "" → dget stores n = Some d → d_dict d' = d_dict d →
  variants_apart base own (dset stores n d') w.
Proof.
  intros [H Hb] Hn Hd E. split; [|by rewrite dget_dset_ne]. eapply apart_mono; [|exact H]. intros m l.
  rewrite variant_dicts_dset by done. case_decide as Em; [subst|done]. intros [= <-]. unfold variant_dicts. destruct n; [done|].
  cbn [str_empty]. by rewrite Hd, E.
Qed.

Lemma create_variant_apart base own function onlyfinalise stores name d arg s :
  variants_apart base own stores (en_world s) → name ≠ "" → d_dict d = base → (∀ x, contained (function x)) →
  returns s (create_variant function onlyfinalise stores name d arg) (λ stores' s', variants_apart base own stores' (en_world s')).
Proof.
  intros [H Hb] Hn Hd Hf. unfold create_variant. apply returns_lift_bind. intros wanted _. destruct wanted; cbn [negb]; [|by split].
  eapply returns_bind; [by apply (copy_store_apart base _ d s H Hd)|]. cbn beta. intros c s1 H1. specialize (H1 name).
  eapply returns_bind; [apply (on_store_apart _ _ c s1 _ H1); [right; exists name; by destruct (decide (name = name))|apply Hf]|].
  intros [c' []] s2 [H2 E]. cbn [fst] in E. apply returns_ret. split; [|by rewrite dget_dset_ne].
  eapply apart_mono; [|exact H2]. intros m l. rewrite variant_dicts_dset by done. case_decide; [|done]. by rewrite E.
Qed.

Lemma create_variants_apart base own function onlyfinalise d names s :
  variants_apart base own [("", d)] (en_world s) → Forall (λ n, n ≠ "") names → (∀ x, contained (function x)) →
  returns s (_create_variants [("", d)] names function onlyfinalise) (λ stores' s', variants_apart base own stores' (en_world s')).
Proof.
  intros H Hn Hf. unfold _create_variants. change (dkeys [("", d)]) with [""]. cbn [fold_state].
  eapply (returns_bind _ _ _ (λ stores s, variants_apart base own stores (en_world s))); [|intros stores s' H'; exact H'].
  apply (returns_fold_state (λ stores s, variants_apart base own stores (en_world s))); [done|].
  intros stores name s' Hin H'. apply returns_lift_bind. intros d' Hd. cbn [str_empty].
  rewrite Forall_forall in Hn. apply create_variant_apart; [done|by apply Hn| |done].
  destruct H' as [_ Hb]. destruct (dget stores "") as [d0|]; [|done]. cbn in Hd, Hb. congruence.
Qed.

Lemma extension_names text : Forall (λ n, n ≠ "") (dkeys (foldl (λ m ext, dset m ext (extension ext)) [] (split_ws text))).
Proof.
  assert (∀ l m, Forall (λ n, n ≠ "") l → Forall (λ n, n ≠ "") (dkeys m) →
    Forall (λ n, n ≠ "") (dkeys (foldl (λ m ext, dset m ext (extension ext)) m l))) as H.
  { intros l. induction l as [|x l IH]; intros m Hl Hm; [done|]. apply Forall_cons in Hl as [Hx Hl]. apply IH; [done|].
    rewrite Forall_forall in *. intros k [->|Hk]%elem_of_dkeys_dset; auto. }
  apply H; [|constructor]. eapply Forall_impl; [apply split_ws_words|]. intros w Hw ->. by destruct Hw.
Qed.

Section recipe.
Context (n : nat) (fn : string).

Lemma extend_apart base own extended pn onlyfinalise d s :
  variants_apart base own [("", d)] (en_world s) →
  returns s (extend_recipe python_eval loop_fuel depth env n fn extended pn onlyfinalise [("", d)])
    (λ stores' s', variants_apart base own stores' (en_world s')).
Proof.
  intros H. unfold extend_recipe. destruct (truthy extended); [|by apply returns_ret].
  apply returns_lift_bind. intros text _. apply returns_lift_bind. intros d0 [= <-].
  eapply returns_bind; [apply (on_store_apart base _ d s _ (proj1 H)); [left; destruct H as [_ [= Hb]]; exact Hb|contain]|].
  intros [d' []] s' [H' E]. cbn [fst] in E. change (dset [("", d)] "" d') with [("", d')].
  apply create_variants_apart; [|apply extension_names|intros; by apply contained_extend].
  split; [|change (Some (d_dict d') = Some base); rewrite E; exact (proj2 H)]. eapply apart_mono; [|exact H']. intros m l. unfold variant_dicts.
  destruct m as [|c m]; [done|]. done.
Qed.

Lemma finish_apart base own onlyfinalise stores variant s :
  variants_apart base own stores (en_world s) →
  returns s (finish_variant python_eval loop_fuel depth parse_python parse_shell env fn onlyfinalise stores variant)
    (λ stores' s', variants_apart base own stores' (en_world s')).
Proof.
  intros H. unfold finish_variant. apply returns_lift_bind. intros wanted _.
  destruct (str_empty variant) eqn:Ev; [by apply returns_ret|]. destruct wanted; cbn [negb orb]; [|by apply returns_ret].
  apply returns_lift_bind. intros d Hd. destruct (dget stores variant) as [d0|] eqn:E0; [|done]. injection Hd as ->.
  eapply returns_bind; [apply (on_store_apart base _ d s _ (proj1 H)); [|by apply contained_finalize]|].
  { right. exists variant. unfold variant_dicts. by rewrite Ev, E0. }
  intros [d' []] s' [H' E]. apply returns_ret. eapply variants_apart_set; [|by intros ->|exact E0|exact E].
  split; [exact H'|]. apply H.
Qed.

Abbreviation multi_finalize := (multi_finalize python_eval loop_fuel depth parse_python parse_shell env n fn).

(** All the stores, by their names. *)
Definition store_dicts (stores : list (string * DataSmart)) (n : string) : option nat := d_dict <$> dget stores n.

Lemma multi_finalize_apart s :
  heap_ok (en_world s) →
  returns s multi_finalize (λ stores s', apart (d_dict (w_self (en_world s))) (store_dicts stores) (en_world s')).
Proof.
  intros Hh. set (base := d_dict (w_self (en_world s))). unfold RecipeFiles.multi_finalize.
  assert (apart base (λ _, None) (en_world s)) as H0 by by split.
  assert (∀ A (m : parsing A) f s, apart base f (en_world s) → contained m → returns s m (λ _ s', apart base f (en_world s'))) as Hc.
  { intros A m f s1 H1 Hm. unfold returns. specialize (Hm s1). destruct (m s1) as [s2 [a|]]; [|done]. by eapply apart_isolated. }
  eapply returns_bind; [apply (Hc _ _ _ _ H0); contain|]. cbn beta. intros v s1 H1. apply returns_lift_bind. intros appends _.
  eapply returns_bind; [apply (Hc _ _ _ _ H1); contain|]. cbn beta. intros _ s2 H2.
  eapply returns_bind; [apply (Hc _ _ _ _ H2); contain|]. cbn beta. intros only s3 H3. apply returns_get.
  set (safe_d := w_self (en_world s3)). assert (d_dict safe_d = base) as Hb by apply (ap_self _ _ _ H3).
  eapply returns_bind; [apply (copy_store_apart base _ safe_d s3 H3 Hb)|]. cbn beta. intros d s4 H4. specialize (H4 "").
  eapply returns_bind; [apply (on_store_apart base _ d s4 _ H4); [by right; exists ""|by apply contained_finalize]|].
  intros [d1 []] s5 [H5 E5]. cbn [fst] in E5.
  eapply returns_bind; [apply (on_store_apart base _ d1 s5 _ H5); [right; exists ""; cbn; by rewrite E5|contain]|].
  intros [d2 extended] s6 [H6 E6]. cbn [fst] in E6.
  eapply returns_bind; [apply (on_store_apart base _ d2 s6 _ H6); [right; exists ""; cbn; by rewrite E6, E5|contain]|].
  intros [d3 pn] s7 [H7 E7]. cbn [fst] in E7. assert (d_dict d3 = d_dict d) as E by congruence.
  assert (variants_apart base (d_dict d) [("", safe_d)] (en_world s7)) as Hv.
  { split; [|change (Some (d_dict safe_d) = Some base); by rewrite Hb]. eapply apart_mono; [|exact H7]. intros m l. unfold variant_dicts.
    by destruct m. }
  eapply returns_bind; [by apply (extend_apart base (d_dict d) extended pn only)|]. cbn beta. intros stores s8 H8.
  eapply returns_bind; [apply (returns_fold_state (λ stores s, variants_apart base (d_dict d) stores (en_world s))); [exact H8|];
    intros; by apply finish_apart|].
  cbn beta. intros stores' s9 [H9 _]. apply returns_ret. eapply apart_mono; [|exact H9]. intros m l. unfold store_dicts, variant_dicts.
  destruct m as [|c m]; [rewrite dget_dset_eq; cbn; by rewrite E|]. cbn [str_empty]. by rewrite dget_dset_ne.
Qed.
End recipe.

(** What a store with one of the dictionaries sees is not changed by what is
    done with another. *)
Lemma apart_sees base f w d1 d2 n1 n2 w' :
  apart base f w → f n1 = Some (d_dict d1) → f n2 = Some (d_dict d2) → n1 ≠ n2 → isolated (with_self d1 w) w' →
  ∀ var, _findVar (with_self d2 w') var = _findVar (with_self d2 w) var.
Proof.
  intros H H1 H2 Hn Hi var. assert (d_dict d1 ≠ d_dict d2) as Hd.
  { intros E. apply Hn. apply (ap_distinct _ _ _ H n1 n2 (d_dict d1)); [done|congruence]. }
  destruct (ap_copies _ _ _ H _ _ H1) as (Hb1 & _), (ap_copies _ _ _ H _ _ H2) as (Hb2 & y & Hy & E).
  pose proof (is_others _ _ Hi) as Ho. cbn [w_layers w_self with_self] in Ho.
  assert (w_layers w' !! d_dict d2 = Some y) as Hy' by (rewrite (Ho _ (d_dict d2)); eauto).
  unfold _findVar. cbn [find_in w_self with_self]. unfold layer_at. cbn [w_layers with_self]. rewrite Hy, Hy'. cbn [default from_option id].
  rewrite E. destruct (dget _ var); [done|]. apply (find_in_older (with_self d2 w)); [apply (ap_heap _ _ _ H)| |lia..].
  intros k Hk. cbn [w_layers with_self]. apply (Ho k base); [|done|lia]. rewrite <-(ap_self _ _ _ H). apply (ap_heap _ _ _ H).
Qed.

End files.

(** ** A recipe with a variant *)

#[local] Existing Instance set_order_elements.

Definition some_files (f : string) : option string :=
  (λ lines, join (str1 newline) (lines ++ [""])) <$>
  if bool_decide (f = "/r/a_1.bb") then
    Some ["inherit base"; "export PN = 'a'"; "A ?= 'x'"; "A += 'y'"; "require foo.inc"; "do_build() {"; "  ${A}"; "}";
          "addtask build after do_fetch"; "python() {"; "  pass"; "}"; "BBCLASSEXTEND = 'native'"; "B:= '${A}'"]
  else if bool_decide (f = "/l/classes/base.bbclass") then Some ["do_fetch() {"; " wget"; "}"; "addtask fetch before do_build"]
  else if bool_decide (f = "/l/classes/native.bbclass") then Some ["N = '1'"]
  else if bool_decide (f = "/r/foo.inc") then Some ["A .= 'z'"]
  else None.

(** Anonymous functions set a variable. *)
Definition some_env : parse_env :=
  ParseEnv "/w" (λ f, bool_decide (is_Some (some_files f))) (λ f, bool_decide (is_Some (some_files f)))
    (λ f, of_option FileNotFound (some_files f)) (λ _, 1%Z) (λ _ _, Ok tt) (λ f, setVar no_eval 9 9 "RUN" f false) (λ _ _ _, mret tt)
    (λ _, mret tt) (λ _, true) (λ _, "1")
    (SigEnv (λ s, "<" +s+ s +s+ ">") ∅ None true (λ f _, Ok [(f, "sum")]) (λ _, None) (λ n, "uuid") "m" []
      (λ _ _ h, Some None) (λ _ _ _ _, None)).

Definition some_engine : engine :=
  Engine (setVar no_eval 9 9 "BBPATH" "/l" false new_world).1 new_globals [] new_events (new_siggen []).

Definition read_recipe : engine * res (list (string * DataSmart)) :=
  handle_recipe no_eval 9 9 (λ _ _, Ok (PythonCode ∅ ∅ ∅)) (λ _ _, Ok ∅) some_env 9 "/r/a_1.bb" some_engine.

Definition some_stores : list (string * DataSmart) := match read_recipe.2 with Ok l => l | Raise _ => [] end.

Definition some_store (n : string) : DataSmart := default (w_self new_world) (dget some_stores n).

(** What the store of a variant has in a variable. *)
Definition in_variant (n var : string) : res (option value) :=
  (getVar no_eval 9 9 var true (with_self (some_store n) (en_world read_recipe.1))).2.

Lemma keeps_no_eval : ∀ var code, keeps (no_eval var code).
Proof. intros var code. apply (preserves_raise _). Qed.

Lemma isolates_set var v : isolates (setVar no_eval 9 9 var v false).
Proof. apply keeps_isolates. apply keeps_setVar. exact keeps_no_eval. Qed.

Lemma some_engine_ok : heap_ok (en_world some_engine).
Proof.
  split; [|vm_compute; eauto]. intros l y l' Hy Hl.
  assert (map_Forall (λ l y, l_data y = None) (w_layers (en_world some_engine))) as H by by_eval.
  specialize (H l y Hy). cbn beta in H. congruence.
Qed.


(** ** Errors of recipes that are not reported as they should be *)

(** A recipe of these lines, with a file it can include. *)
Definition one_recipe (lines : list string) (f : string) : option string :=
  (λ lines, join (str1 newline) (lines ++ [""])) <$>
  if bool_decide (f = "/r/a_1.bb") then Some lines
  else if bool_decide (f = "/r/foo.inc") then Some ["C = 'd'"]
  else None.

Definition one_env (lines : list string) : parse_env :=
  ParseEnv "/w" (λ f, bool_decide (is_Some (one_recipe lines f))) (λ f, bool_decide (is_Some (one_recipe lines f)))
    (λ f, of_option FileNotFound (one_recipe lines f)) (λ _, 1%Z) (λ _ _, Ok tt) (λ _, mret tt) (λ _ _ _, mret tt)
    (λ _, mret tt) (λ _, true) (λ _, "1") (pe_sig some_env).

Definition read_one (lines : list string) : res (list string) :=
  r ← (handle_recipe no_eval 9 9 (λ _ _, Ok (PythonCode ∅ ∅ ∅)) (λ _ _, Ok ∅) (one_env lines) 9 "/r/a_1.bb" some_engine).2;
  Ok (dkeys r).

(** A last line that goes on is to be a ParseError; making its text raises. *)
Lemma unfinished_line : read_one ["export A = 'b'"; "B = 'c' \"] = Raise TypeError.
Proof. vm_compute. reflexivity. Qed.

(** A function that is never closed is a ParseError, unless a file is included:
    reading that forgets the function. *)
Lemma unclosed_function :
  read_one ["export A = 'b'"; "do_a() {"; "  true"] = Raise ParseError ∧
  read_one ["export A = 'b'"; "require foo.inc"; "do_a() {"; "  true"] = Ok [""].
Proof. split; vm_compute; reflexivity. Qed.

(** Without an exported variable the signatures of a recipe cannot be computed. *)
Lemma nothing_exported : read_one ["A = 'b'"] = Raise TypeError.
Proof. vm_compute. reflexivity. Qed.
