(* ===== verification/RecipeInfos.v ===== *)
(** * What is kept of a recipe (bb/cache.py, bb/cache_extra.py)

    From the data stores of a parsed recipe to the recipe informations: the
    core one, which [Cache.add_cacheData] adds to the tables of the engine,
    and the extra one that a user interface can ask for.  [parse_recipe],
    [load_bbfile] and [Cache.parse] read a recipe file and make them for each
    of its variants. *)

From Stdlib Require Import Ascii String.
From stdpp Require Import pretty.
From S2P Require Import Prelude.
From S2P Require Import PyStr.
From S2P Require Import PyDict.
From S2P Require Import Versions.
From S2P Require Import Cache.
From S2P Require Import DataStore.
From S2P Require Import VarDeps.
From S2P Require Import Ast.
From S2P Require Import RecipeFiles.

(** ** Data *)

(** What is kept of a recipe that is skipped, and of others too. *)
Record RecipeNames : Type := MkRecipeNames {
  rn_pn : string;
  rn_provides : list string;
  rn_rprovides : list string;
  rn_packages : list string;
  rn_packages_dynamic : list string;
  rn_rprovides_pkg : dict (list string)
}.

(** [__init__] returns early for a recipe that is skipped. *)
Inductive recipe_body : Type :=
  | Skipped (skipreason : value) (names : RecipeNames)
  | Parsed (recipe : RecipeInfo).

Record CoreRecipeInfo : Type := MkCoreRecipeInfo {
  ci_file_depends : option (list (string * Z));
  ci_timestamp : Z;
  ci_variants : list string;
  ci_appends : list string;
  ci_nocache : string;
  ci_body : recipe_body
}.

Definition ci_skipped (c : CoreRecipeInfo) : bool :=
  match ci_body c with Skipped _ _ => true | Parsed _ => false end.

Definition names_of (ri : RecipeInfo) : RecipeNames :=
  MkRecipeNames (ri_pn ri) (ri_provides ri) (ri_rprovides ri) (ri_packages ri) (ri_packages_dynamic ri) (ri_rprovides_pkg ri).

Definition ci_names (c : CoreRecipeInfo) : RecipeNames :=
  match ci_body c with Skipped _ names => names | Parsed ri => names_of ri end.

Record HobRecipeInfo : Type := MkHobRecipeInfo {
  hi_summary : string;
  hi_license : string;
  hi_section : string;
  hi_description : string;
  hi_homepage : string;
  hi_bugtracker : string;
  hi_prevision : string;
  hi_files_info : string
}.

(** The classes of recipe informations, and the informations. *)
Inductive cache_class : Type := CoreClass | HobClass.

Inductive info : Type :=
  | Core (c : CoreRecipeInfo)
  | Hob (h : HobRecipeInfo).

Definition class_of (i : info) : cache_class := match i with Core _ => CoreClass | Hob _ => HobClass end.

Definition class_name (c : cache_class) : string :=
  match c with CoreClass => "CoreRecipeInfo" | HobClass => "HobRecipeInfo" end.

Definition class_cachefile (c : cache_class) : string :=
  match c with CoreClass => "bb_cache.dat" | HobClass => "bb_extracache_" +s+ class_name HobClass +s+ ".dat" end.

#[export] Instance cache_class_eq_dec : EqDecision cache_class.
Proof. solve_decision. Defined.

(** The tables the extra class adds to [CacheData]. *)
Record HobData : Type := MkHobData {
  hd_summary : dict string;
  hd_license : dict string;
  hd_section : dict string;
  hd_description : dict string;
  hd_homepage : dict string;
  hd_bugtracker : dict string;
  hd_prevision : dict string;
  hd_files_info : dict string
}.

Definition init_hobData : HobData := MkHobData [] [] [] [] [] [] [] [].

Definition add_hobData (h : HobRecipeInfo) (c : HobData) (fn : string) : HobData :=
  MkHobData
    (dset (hd_summary c) fn (hi_summary h)) (dset (hd_license c) fn (hi_license h))
    (dset (hd_section c) fn (hi_section h)) (dset (hd_description c) fn (hi_description h))
    (dset (hd_homepage c) fn (hi_homepage h)) (dset (hd_bugtracker c) fn (hi_bugtracker h))
    (dset (hd_prevision c) fn (hi_prevision h)) (dset (hd_files_info c) fn (hi_files_info h)).

(** [CacheData.add_from_recipeinfo]: the informations too, since the core one
    changes itself when it is added.  An exception ends the parsing, and with
    it the use of the cache. *)
Definition add_info_data (fn : string) (cd : CacheData * HobData) (i : info) : res (CacheData * HobData * info) :=
  match i with
  | Core c =>
      match ci_body c with
      | Skipped _ _ => Raise AttributeError
      | Parsed ri =>
          match add_cacheData fn (cd.1, ri) with
          | ((c', ri'), Ok _) =>
              Ok ((c', cd.2), Core (MkCoreRecipeInfo (ci_file_depends c) (ci_timestamp c) (ci_variants c) (ci_appends c) (ci_nocache c) (Parsed ri')))
          | (_, Raise e) => Raise e
          end
      end
  | Hob h => Ok ((cd.1, add_hobData h cd.2 fn), i)
  end.

Definition add_from_recipeinfo (fn : string) (cd : CacheData * HobData) (infos : list info) : res (CacheData * HobData * list info) :=
  fold_res (λ '(cd, out) i, '(cd, i) ← add_info_data fn cd i; Ok (cd, out ++ [i])) (cd, []) infos.

(** [SkippedPackage] *)
Record SkippedPackage : Type := MkSkippedPackage {
  sp_pn : string;
  sp_skipreason : option value;
  sp_provides : list string;
  sp_rprovides : list string
}.

Definition skipped_package (c : CoreRecipeInfo) : res SkippedPackage :=
  let n := ci_names c in
  rprovides ← fold_res (λ acc package,
    l ← of_option KeyError (dget (rn_rprovides_pkg n) package); Ok (acc ++ l)) (rn_packages n ++ rn_rprovides n) (rn_packages n);
  Ok (MkSkippedPackage (rn_pn n) (match ci_body c with Skipped why _ => Some why | Parsed _ => None end) (rn_provides n) rprovides).

(** [_task_deps] as the engine reads it.  Of a flag that is a number it only
    asks whether it is there, or reads it as text. *)
Definition scalar_text (x : scalar) : string := match x with Text s => s | Number n => pretty n end.

Definition task_deps_of (t : task_table) : TaskDeps :=
  MkTaskDeps (tt_tasks t) (tt_parents t) (List.map (λ kv, (kv.1, List.map (λ kv, (kv.1, scalar_text kv.2)) kv.2)) (tt_flags t)).

(** ** Reading the variables *)

Section infos.
Context `{!SetOrder string}.
Context (python_eval : option string → string → data python_result) (loop_fuel depth : nat).

Abbreviation getVar := (getVar python_eval loop_fuel depth).
Abbreviation read_flag := (read_flag python_eval loop_fuel depth).

Definition getvar (var : string) (expand : bool) : data value :=
  v ← getVar var expand; mret (if truthy v then default VNone v else VStr "").

(** [self.x = self.getvar(var, metadata)]: these variables hold text. *)
Definition textvar (var : string) : data string :=
  v ← getvar var true; lift (as_str (Some v)).

Definition listvar (var : string) : data (list string) :=
  v ← getvar var true; s ← lift (as_text (Some v)); mret (split_ws s).

(** [int(v or 0)] *)
Definition intvar (var : string) : data Z :=
  v ← getvar var true;
  lift (match v with
        | VStr s => if str_empty s then Ok 0%Z else py_int s
        | VInt n => Ok n
        | _ => Raise TypeError
        end).

Definition depvar (var : string) : data (list string) :=
  v ← getvar var true; s ← lift (as_text (Some v)); mret (explode_deps s).

Definition pkgvar (var : string) (packages : list string) : data (dict (list string)) :=
  fold_state (λ d pkg, l ← depvar (var +s+ "_" +s+ pkg); mret (dset d pkg l)) [] packages.

Definition taskvar (var : string) (tasks : list string) : data (dict string) :=
  fold_state (λ d task, s ← textvar (var +s+ "_task-" +s+ task); mret (dset d task s)) [] tasks.

(** A flag of each of the variables; texts, where they are set. *)
Definition flaglist (flag : string) (varlist : list string) : data (dict (option value)) :=
  fold_state (λ d var, v ← read_flag var flag true; mret (dset d var v)) [] varlist.

(** [squash]: those that are set only. *)
Definition squash (d : dict (option value)) : res (dict string) :=
  fold_res (λ out kv, if truthy kv.2 then s ← as_str kv.2; Ok (dset out kv.1 s) else Ok out) [] d.

Definition flag_texts (d : dict (option value)) : res (dict (option string)) :=
  fold_res (λ out kv, match kv.2 with
                      | None => Ok (dset out kv.1 None)
                      | Some v => s ← as_str (Some v); Ok (dset out kv.1 (Some s))
                      end) [] d.

(** ** The informations *)

(** Reading a recipe also changes what is known of names of files. *)
Record reader : Type := MkReader {
  rd_engine : engine;
  rd_names : dict (list (option string))
}.

Abbreviation reading := (M reader).

Definition on_engine {A} (m : parsing A) : reading A := λ s,
  let '(e, r) := m (rd_engine s) in (MkReader e (rd_names s), r).
Definition on_names {A} (m : M (dict (list (option string))) A) : reading A := λ s,
  let '(n, r) := m (rd_names s) in (MkReader (rd_engine s) n, r).
Definition in_store {A} (m : data A) : reading A := on_engine (store m).

(** A recipe without PN is named after its file; the name of any other file
    gives none, which no caller asks for. *)
Definition recipe_name (filename : string) : reading string :=
  pn ← in_store (textvar "PN");
  if negb (str_empty pn) then mret pn
  else
    parts ← on_names (vars_from_file filename);
    lift (match parts with Some pn :: _ => Ok pn | _ => Raise TypeError end).

Definition recipe_names (filename : string) : reading RecipeNames :=
  provides ← in_store (depvar "PROVIDES");
  rprovides ← in_store (depvar "RPROVIDES");
  pn ← recipe_name filename;
  packages ← in_store (listvar "PACKAGES");
  let packages := match packages with [] => [pn] | _ => packages end in
  packages_dynamic ← in_store (listvar "PACKAGES_DYNAMIC");
  rprovides_pkg ← in_store (pkgvar "RPROVIDES" packages);
  mret (MkRecipeNames pn provides rprovides packages packages_dynamic rprovides_pkg).

(** What is kept of a recipe that is not skipped. *)
Definition recipe_info (n : RecipeNames) : data RecipeInfo :=
  tasks ← getVar "__BBTASKS" false;
  tasks ← lift (members tasks);
  basetaskhashes ← taskvar "BB_BASEHASH" tasks;
  hashfilename ← textvar "BB_HASHFILENAME";
  td ← getVar "_task_deps" false;
  task_deps ← lift (if truthy td then match td with Some (VTable t) => Ok (task_deps_of t) | _ => Raise TypeError end
                    else Ok (MkTaskDeps [] [] []));
  pe ← textvar "PE";
  pv ← textvar "PV";
  pr ← textvar "PR";
  defaultpref ← intvar "DEFAULT_PREFERENCE";
  not_world ← textvar "EXCLUDE_FROM_WORLD";
  stamp ← textvar "STAMP";
  stampclean ← textvar "STAMPCLEAN";
  stamp_extrainfo ← flaglist "stamp-extra-info" tasks;
  stamp_extrainfo ← lift (flag_texts stamp_extrainfo);
  file_checksums ← flaglist "file-checksums" tasks;
  file_checksums ← lift (squash file_checksums);
  depends ← depvar "DEPENDS";
  rdepends ← depvar "RDEPENDS";
  rrecommends ← depvar "RRECOMMENDS";
  rdepends_pkg ← pkgvar "RDEPENDS" (rn_packages n);
  rrecommends_pkg ← pkgvar "RRECOMMENDS" (rn_packages n);
  inherits ← getvar "__inherit_cache" false;
  inherits ← lift (if truthy (Some inherits) then members (Some inherits) else Ok []);
  fakerootenv ← textvar "FAKEROOTENV";
  fakerootdirs ← textvar "FAKEROOTDIRS";
  fakerootnoenv ← textvar "FAKEROOTNOENV";
  extradepsfunc ← textvar "calculate_extra_depends";
  mret (MkRecipeInfo (rn_pn n) pe pv pr task_deps defaultpref (rn_provides n) (rn_rprovides n) (rn_packages n)
    (rn_packages_dynamic n) (rn_rprovides_pkg n) depends rdepends rrecommends rdepends_pkg rrecommends_pkg not_world
    stamp stampclean stamp_extrainfo file_checksums basetaskhashes hashfilename inherits fakerootenv fakerootnoenv
    fakerootdirs extradepsfunc).

Context (env : parse_env).

(** [bb.parse.cached_mtime] *)
Definition cached_mtime (f : string) : res Z :=
  if bool_decide (pe_mtime env f = 0%Z) then Raise FileNotFound else Ok (pe_mtime env f).

(** [CoreRecipeInfo.__init__] *)
Definition core_recipe_info (filename : string) : reading CoreRecipeInfo :=
  file_depends ← in_store (getVar "__depends" false);
  file_depends ← lift (match file_depends with
                       | None => Ok None
                       | Some (VFiles l) => Ok (Some l)
                       | Some _ => Raise TypeError
                       end);
  timestamp ← lift (cached_mtime filename);
  variants ← in_store (listvar "__VARIANTS");
  appends ← in_store (listvar "__BBAPPEND");
  nocache ← in_store (textvar "BB_DONT_CACHE");
  names ← recipe_names filename;
  skipreason ← in_store (getvar "__SKIPPED" true);
  body ← (if truthy (Some skipreason) then mret (Skipped skipreason names)
          else ri ← in_store (recipe_info names); mret (Parsed ri));
  mret (MkCoreRecipeInfo file_depends timestamp (variants ++ [""]) appends nocache body).

Definition hob_recipe_info : data HobRecipeInfo :=
  summary ← textvar "SUMMARY";
  license ← textvar "LICENSE";
  section ← textvar "SECTION";
  description ← textvar "DESCRIPTION";
  homepage ← textvar "HOMEPAGE";
  bugtracker ← textvar "BUGTRACKER";
  prevision ← textvar "PR";
  files_info ← textvar "FILES_INFO";
  mret (MkHobRecipeInfo summary license section description homepage bugtracker prevision files_info).

(** [cache_class(filename, data)] *)
Definition make_info (filename : string) (c : cache_class) : reading info :=
  match c with
  | CoreClass => i ← core_recipe_info filename; mret (Core i)
  | HobClass => i ← in_store hob_recipe_info; mret (Hob i)
  end.

(** ** Reading a recipe file *)

Context (parse_python : string → option value → res python_code) (parse_shell : string → option value → res (gset string)).
Context (n : nat).

(** [databuilder]: the store of the configuration, and those of the
    multiconfigs, the default one among them. *)
Record databuilder : Type := MkBuilder {
  db_data : DataSmart;
  db_mcdata : dict DataSmart
}.

Abbreviation setVar := (setVar python_eval loop_fuel depth).
Abbreviation setVal := (setVal python_eval loop_fuel depth).

(** [bb.parse.handle(bbfile, bb_data)] for a recipe, the only kind of file
    that is read so. *)
Definition handle_bb (bbfile : string) : parsing (dict DataSmart) :=
  if bool_decide ((splitext bbfile).2 ∈ [".bb"; ".inc"])
  then handle_recipe python_eval loop_fuel depth parse_python parse_shell env n bbfile
  else raise ParseError.

(** [parse_recipe], on the store that is read into. *)
Definition parse_recipe (bbfile : string) (appends : list string) (mc : string) : parsing (dict DataSmart) :=
  _ ← store (setVar "__BBMULTICONFIG" mc false);
  tmpdir ← store (getVar "TMPDIR" true);
  _ ← store (setVal "TMPDIR" (if truthy tmpdir then default VNone tmpdir else VStr "") false);
  topdir ← store (getVar "TOPDIR" false);
  _ ← (if truthy topdir then mret tt
       else store (setVar "TOPDIR" (abspath (pe_cwd env) (path_dirname bbfile)) false));
  _ ← (if bool_decide (appends = []) then mret tt else store (setVar "__BBAPPEND" (join " " appends) false));
  handle_bb bbfile.

(** [d.createCopy()] read into. *)
Definition parse_copy (d : DataSmart) (before : data unit) (bbfile : string) (appends : list string) (mc : string) :
    parsing (dict DataSmart) :=
  bb_data ← copy_store d;
  '(_, datastores) ← on_store bb_data (_ ← store before; parse_recipe bbfile appends mc);
  mret datastores.

(** [load_bbfile] with [virtonly]: the one variant of a virtual name. *)
Definition load_virtual (db : databuilder) (virtualfn : string) (appends : list string) : parsing (dict DataSmart) :=
  let '(bbfile, virtual, mc) := virtualfn2realfn virtualfn in
  d ← lift (of_option KeyError (dget (db_mcdata db) mc));
  parse_copy d (setVar "__ONLYFINALISE" (if str_empty virtual then "default" else virtual) false) bbfile appends mc.

(** [load_bbfile] otherwise: for one multiconfig, or for all of them. *)
Definition load_bbfile (db : databuilder) (bbfile : string) (appends : list string) (mc : option string) :
    parsing (dict DataSmart) :=
  match mc with
  | Some mc =>
      d ← lift (of_option KeyError (dget (db_mcdata db) mc));
      parse_copy d (mret tt) bbfile appends mc
  | None =>
      datastores ← parse_copy (db_data db) (mret tt) bbfile appends "";
      fold_state (λ datastores '(mc, d),
        if str_empty mc then mret datastores
        else
          newstores ← parse_copy d (mret tt) bbfile appends mc;
          mret (foldl (λ ds kv, dset ds ("mc:" +s+ mc +s+ ":" +s+ kv.1) kv.2) datastores newstores))
        datastores (db_mcdata db)
  end.

Definition loadDataFull (db : databuilder) (virtualfn : string) (appends : list string) : parsing DataSmart :=
  datastores ← load_virtual db virtualfn appends;
  lift (of_option KeyError (dget datastores (virtualfn2realfn virtualfn).1.2)).

(** ** [Cache.parse] *)

Definition set_reader_self (d : DataSmart) (s : reader) : reader :=
  let e := rd_engine s in
  MkReader (Engine (with_self d (en_world e)) (en_globals e) (en_cached e) (en_events e) (en_siggen e)) (rd_names s).

(** What is read from one of the stores, which is not used afterwards. *)
Definition on_variant {A} (d : DataSmart) (m : reading A) : reading A := λ s,
  let '(s', r) := m (set_reader_self d s) in (set_reader_self (w_self (en_world (rd_engine s))) s', r).

(** What is collected over the variants: the informations of each, the files
    they depend on and the names of the variants. *)
Definition parsed_variants : Type := list (string * list info) * list (string * Z) * list string.

(** The informations of one variant, its store changed before. *)
Definition variant_infos (caches : list cache_class) (filename variant virtualfn : string) (depends : list (string * Z)) (variants : list string) :
    reading (list (string * Z) * list info) :=
  own ← in_store (read_files python_eval loop_fuel depth "__depends");
  let depends := depends ++ own in
  _ ← (if negb (bool_decide (depends = [])) && str_empty variant then in_store (setVal "__depends" (VFiles depends) false) else mret tt);
  _ ← (if String.eqb virtualfn filename then in_store (setVar "__VARIANTS" (join " " variants) false) else mret tt);
  infos ← map_state (make_info filename) caches;
  mret (depends, infos).

Definition parse_variant (caches : list cache_class) (filename : string) (datastores : dict DataSmart) (acc : parsed_variants)
    (variant : string) : reading parsed_variants :=
  let '(infos, depends, variants) := acc in
  virtualfn ← lift (variant2virtual filename variant);
  let variants := variants ++ [variant] in
  d ← lift (of_option KeyError (dget datastores variant));
  '(depends, info_array) ← on_variant d (variant_infos caches filename variant virtualfn depends variants);
  mret (infos ++ [(virtualfn, info_array)], depends, variants).

(** The variants in falling order, so that the recipe itself, whose name is
    empty, is last. *)
Definition variants_in_order (datastores : dict DataSmart) : list string := List.rev (py_sorted (dkeys datastores)).

Definition cache_parse (db : databuilder) (mc : option string) (caches : list cache_class) (filename : string) (appends : list string) :
    reading (list (string * list info)) :=
  datastores ← on_engine (load_bbfile db filename appends mc);
  '(infos, _, _) ← fold_state (parse_variant caches filename datastores) ([], [], []) (variants_in_order datastores);
  mret infos.
End infos.
