(* ===== verification/RecipeCache.v ===== *)
(** * The recipe cache (bb/cache.py)

    [Cache] keeps the recipe informations between builds, so that a recipe
    whose files have not changed is not parsed again: [cacheValid] decides
    whether what is kept of a file holds still, [load] takes it from the cache,
    [add_info] enters it, [sync] and [prepare_cache] write and read the files.
    [CookerParser] of bb/cooker.py, which parses all the recipes of a build with
    a cache for each multiconfig, is here too. *)

From Stdlib Require Import Ascii String.
From S2P Require Import Prelude.
From S2P Require Import PyStr.
From S2P Require Import PyDict.
From S2P Require Import Cache.
From S2P Require Import DataStore.
From S2P Require Import VarDeps.
From S2P Require Import RecipeFiles.
From S2P Require Import RecipeInfos.

(** ** The state *)

(** The fields of a [Cache]; there is a cache when [cachedir] is set. *)
Record recipe_cache : Type := MkRecipeCache {
  rc_mc : option string;
  rc_cachedir : string;
  rc_data_hash : string;
  caches_array : list cache_class;
  clean : gset string;
  checked : gset string;
  depends_cache : dict (list info);
  cacheclean : bool
}.

Definition has_cache (s : recipe_cache) : bool := negb (str_empty (rc_cachedir s)).

(** [Cache.__init__] *)
Definition new_cache (mc : option string) (cachedir data_hash : string) (classes : list cache_class) : recipe_cache :=
  MkRecipeCache mc cachedir data_hash classes ∅ ∅ [] true.

Definition set_clean (x : gset string) (s : recipe_cache) : recipe_cache :=
  MkRecipeCache (rc_mc s) (rc_cachedir s) (rc_data_hash s) (caches_array s) x (checked s) (depends_cache s) (cacheclean s).
Definition set_checked (x : gset string) (s : recipe_cache) : recipe_cache :=
  MkRecipeCache (rc_mc s) (rc_cachedir s) (rc_data_hash s) (caches_array s) (clean s) x (depends_cache s) (cacheclean s).
Definition set_depends_cache (x : dict (list info)) (s : recipe_cache) : recipe_cache :=
  MkRecipeCache (rc_mc s) (rc_cachedir s) (rc_data_hash s) (caches_array s) (clean s) (checked s) x (cacheclean s).
Definition set_cacheclean (x : bool) (s : recipe_cache) : recipe_cache :=
  MkRecipeCache (rc_mc s) (rc_cachedir s) (rc_data_hash s) (caches_array s) (clean s) (checked s) (depends_cache s) x.

Abbreviation caching := (M recipe_cache).

(** [info_array[0]], used as a core information. *)
Definition core_of (l : list info) : res CoreRecipeInfo :=
  match l with
  | Core c :: _ => Ok c
  | Hob _ :: _ => Raise AttributeError
  | [] => Raise IndexError
  end.

(** ** Whether what is kept holds still *)

(** [filelist_regex.split(fl)]: cut at the blanks after [:True] or [:False], so
    that a name can have blanks.  [blanks] while those of a cut are passed
    over. *)
Fixpoint filelist_split (s piece : string) (blanks : bool) : list string :=
  match s with
  | "" => [piece]
  | String c s =>
      if blanks && is_space c then filelist_split s piece true
      else if is_space c && (endswith piece ":True" || endswith piece ":False") then piece :: filelist_split s "" true
      else filelist_split s (piece +s+ str1 c) false
  end.

(** [remove] *)
Definition cache_remove (fn : string) : caching unit :=
  _ ← modify (λ s, set_depends_cache (ddel (depends_cache s) fn) s);
  modify (λ s, set_clean (clean s ∖ {[fn]}) s).

Section valid.
(** The time of a file, 0 when there is none, and whether a file is there. *)
Context (mtime : string → Z) (path_exists : string → bool).

(** A file a recipe depends on, with the time it had. *)
Definition dep_changed (fo : string * Z) : bool :=
  let '(f, old_mtime) := fo in
  (negb (bool_decide (old_mtime = 0%Z)) && bool_decide (mtime f = 0%Z)) || negb (bool_decide (mtime f = old_mtime)).

(** An entry of a list of files, its name and whether it was there. *)
Definition listed_changed (f : string) : res bool :=
  if str_empty f then Ok false
  else
    match split_on ":" f with
    | [f; there] => Ok ((String.eqb there "True" && negb (path_exists f)) || (String.eqb there "False" && path_exists f))
    | _ => Raise ValueError
    end.

(** The first of [l] that changed ends the search. *)
Fixpoint any_res {A} (f : A → res bool) (l : list A) : res bool :=
  match l with
  | [] => Ok false
  | x :: l => b ← f x; if (b : bool) then Ok true else any_res f l
  end.

(** The files of the checksums of a task. *)
Definition checksum_changed (fl : string) : res bool :=
  let fl := strip is_space fl in
  if str_empty fl then Ok false else any_res listed_changed (filelist_split fl "" false).

Definition checksums_changed (c : CoreRecipeInfo) : res bool :=
  match ci_body c with
  | Skipped _ _ => Ok false
  | Parsed ri => any_res (λ kv, checksum_changed kv.2) (ri_file_checksums ri)
  end.

(** What is kept of the file is to be removed. *)
Definition stale (fn : string) (appends : list string) (info_array : list info) : res bool :=
  if bool_decide (mtime fn = 0%Z) then Ok true
  else
    c ← core_of info_array;
    if negb (bool_decide (mtime fn = ci_timestamp c)) then Ok true
    else if existsb dep_changed (default [] (ci_file_depends c)) then Ok true
    else
      changed ← checksums_changed c;
      if (changed : bool) then Ok true else Ok (negb (bool_decide (appends = ci_appends c))).

(** One variant is marked clean; [invalid] when there is no complete entry. *)
Definition check_variant (fn : string) (invalid : bool) (cls : string) : caching bool :=
  virtualfn ← lift (variant2virtual fn cls);
  _ ← modify (λ s, set_clean ({[virtualfn]} ∪ clean s) s);
  s ← get;
  mret (invalid || match dget (depends_cache s) virtualfn with
                   | None => true
                   | Some l => negb (bool_decide (List.length l = List.length (caches_array s)))
                   end).

Definition unmark_variant (fn cls : string) : caching unit :=
  virtualfn ← lift (variant2virtual fn cls);
  modify (λ s, set_clean (clean s ∖ {[virtualfn]}) s).

Definition cacheValidUpdate (fn : string) (appends : list string) : caching bool :=
  s ← get;
  if negb (has_cache s) then mret false
  else
    _ ← modify (λ s, set_checked ({[fn]} ∪ checked s) s);
    match dget (depends_cache s) fn with
    | None => mret false
    | Some info_array =>
        st ← lift (stale fn appends info_array);
        if (st : bool) then _ ← cache_remove fn; mret false
        else
          c ← lift (core_of info_array);
          invalid ← fold_state (check_variant fn) false (ci_variants c);
          if (invalid : bool) then
            _ ← for_each (ci_variants c) (unmark_variant fn);
            _ ← modify (λ s, set_clean (clean s ∖ {[fn]}) s);
            mret false
          else
            _ ← modify (λ s, set_clean ({[fn]} ∪ clean s) s);
            mret true
    end.

Definition cacheValid (fn : string) (appends : list string) : caching bool :=
  s ← get;
  _ ← (if bool_decide (fn ∈ checked s) then mret false else cacheValidUpdate fn appends);
  s ← get;
  mret (has_cache s && bool_decide (fn ∈ clean s)).

(** [load]: the call for a file that is not valid names a variable that does
    not exist. *)
Definition cache_load (fn : string) (appends : list string) : caching (bool * list (string * list info)) :=
  cached ← cacheValid fn appends;
  if (cached : bool) then
    s ← get;
    info_array ← lift (of_option KeyError (dget (depends_cache s) fn));
    c ← lift (core_of info_array);
    infos ← lift (map_res (λ variant,
      virtualfn ← variant2virtual fn variant;
      l ← of_option KeyError (dget (depends_cache s) virtualfn);
      Ok (virtualfn, l)) (ci_variants c));
    mret (true, infos)
  else raise NameError.

(** ** Entering *)

(** What is kept: not of a recipe that asks for that, nor of one whose
    version comes from a repository. *)
Definition is_kept (c : CoreRecipeInfo) : bool :=
  match ci_body c with
  | Skipped _ _ => true
  | Parsed ri => negb (str_in "SRCREVINACTION" (ri_pv ri))
  end && str_empty (ci_nocache c).

(** The name a recipe has in the tables of its multiconfig; none for a file of
    another one. *)
Definition table_name (mc : option string) (filename : string) : option string :=
  match mc with
  | Some own =>
      let '(fn, cls, mc) := virtualfn2realfn filename in
      if negb (str_empty mc) then None else Some (realfn2virtual fn cls own)
  | None => Some filename
  end.

(** [add_info]; the informations as they are kept are those that the tables
    changed.  The file watches are left out. *)
Definition add_info (filename : string) (info_array : list info) (cd : CacheData * HobData) (parsed : bool) :
    caching (CacheData * HobData) :=
  s ← get;
  match table_name (rc_mc s) filename with
  | None => mret cd
  | Some vfn =>
      '(cd, info_array) ← lift (match info_array with
        | Core c :: _ => if ci_skipped c then Ok (cd, info_array) else add_from_recipeinfo vfn cd info_array
        | Hob _ :: _ => Ok (cd, info_array)
        | [] => Raise IndexError
        end);
      if negb (has_cache s) then mret cd
      else
        c ← lift (core_of info_array);
        _ ← (if is_kept c then
               modify (λ s, set_depends_cache (dset (depends_cache s) filename info_array)
                              (if parsed then set_cacheclean false s else s))
             else mret tt);
        mret cd
  end.

(** [loadData] *)
Definition loadData (fn : string) (appends : list string) (cd : CacheData * HobData) :
    caching (CacheData * HobData * (bool * nat * nat)) :=
  '(cached, infos) ← cache_load fn appends;
  '(cd, skipped, virtuals) ← fold_state (λ '(cd, skipped, virtuals) '(virtualfn, info_array),
    c ← lift (core_of info_array);
    if ci_skipped c then mret (cd, S skipped, virtuals)
    else cd ← add_info virtualfn info_array cd (negb cached); mret (cd, skipped, S virtuals)) (cd, 0, 0) infos;
  mret (cd, (cached, skipped, virtuals)).
End valid.

(** ** The files *)

(** What [pickle.load] gives, one after the other; [PBroken] where it raises. *)
Inductive pickled : Type :=
  | PText (s : string)
  | PInfo (i : info)
  | POther
  | PBroken.

Definition cache_files : Type := dict (list pickled).

(** [__cache_version__] *)
Definition cache_version : string := "154".

(** [getCacheFile] *)
Definition getCacheFile (path filename : string) (mc : option string) (data_hash : string) : string :=
  let mcspec := match mc with Some mc => if str_empty mc then "" else "." +s+ mc | None => "" end in
  path_join path (filename +s+ mcspec +s+ "." +s+ data_hash).

Definition cache_file (s : recipe_cache) (c : cache_class) : string :=
  getCacheFile (rc_cachedir s) (class_cachefile c) (rc_mc s) (rc_data_hash s).

Section files.
(** [bb.__version__] *)
Context (bb_version : string).

(** The informations of one class. *)
Definition records_of (c : cache_class) (d : dict (list info)) : list pickled :=
  List.concat (List.map (λ kv, List.concat (List.map (λ i,
    if bool_decide (class_of i = c) then [PText kv.1; PInfo i] else []) kv.2)) d).

(** [sync], after which the cache is not used. *)
Definition sync (s : recipe_cache) (files : cache_files) : cache_files :=
  if negb (has_cache s) || cacheclean s then files
  else foldl (λ files c, dset files (cache_file s c) (PText cache_version :: PText bb_version :: records_of c (depends_cache s)))
         files (caches_array s).

(** The records of a file, up to the first that is none. *)
Definition add_record (d : dict (list info)) (key : string) (i : info) : dict (list info) :=
  dset d key (default [] (dget d key) ++ [i]).

Fixpoint load_records (l : list pickled) (d : dict (list info)) : dict (list info) :=
  match l with
  | PText key :: PInfo i :: l => load_records l (add_record d key i)
  | _ => d
  end.

(** The files of the classes, up to the first of another version. *)
Fixpoint load_classes (files : cache_files) (s : recipe_cache) (classes : list cache_class) (d : dict (list info)) :
    res (dict (list info) * bool) :=
  match classes with
  | [] => Ok (d, true)
  | c :: classes =>
      content ← of_option FileNotFound (dget files (cache_file s c));
      match content with
      | PText cache_ver :: PText bitbake_ver :: l =>
          if String.eqb cache_ver cache_version && String.eqb bitbake_ver bb_version
          then load_classes files s classes (load_records l d)
          else Ok (d, false)
      | _ => Ok (d, false)
      end
  end.

Definition load_cachefile (files : cache_files) : caching nat :=
  s ← get;
  '(d, complete) ← lift (load_classes files s (caches_array s) (depends_cache s));
  _ ← modify (set_depends_cache d);
  mret (if (complete : bool) then List.length d else 0).

(** [prepare_cache], but for the link to the file it leaves. *)
Definition prepare_cache (files : cache_files) : caching nat :=
  s ← get;
  if negb (has_cache s) then mret 0
  else if forallb (λ c, dmem files (cache_file s c)) (caches_array s) then load_cachefile files
  else mret 0.
End files.

(** ** Parsing all recipes ([CookerParser]) *)

Record cooker_parser : Type := MkCookerParser {
  cp_parsed : nat;
  cp_cached : nat;
  cp_error : nat;
  cp_skipped : nat;
  cp_virtuals : nat;
  cp_current : nat;
  bb_caches : dict recipe_cache;
  recipecaches : dict (CacheData * HobData);
  skiplist : dict SkippedPackage
}.

(** What [next(self.results)] gives: the informations of a file, parsed or from
    the cache, an exception, or the end. *)
Inductive next_result : Type :=
  | NextInfos (parsed : bool) (mc : string) (infos : list (string * list info))
  | NextFailed
  | NextStop.

(** A file to be looked at: its multiconfig, name and appends. *)
Definition parse_job : Type := string * string * list string.

Section cooker.
Context (mtime : string → Z) (path_exists : string → bool).

(** A method of the cache of a multiconfig. *)
Definition on_cache {A} (mc : string) (m : caching A) : M (dict recipe_cache) A := λ s,
  match dget s mc with
  | None => (s, Raise KeyError)
  | Some c => let '(c', r) := m c in (dset s mc c', r)
  end.

(** [__init__]: the files that are taken from the cache, and those to parse. *)
Definition classify (jobs : list parse_job) : M (dict recipe_cache) (list parse_job * list parse_job) :=
  fold_state (λ '(fromcache, willparse) '(mc, filename, appends),
    valid ← on_cache mc (cacheValid mtime path_exists filename appends);
    mret (if (valid : bool) then (fromcache ++ [(mc, filename, appends)], willparse)
          else (fromcache, willparse ++ [(mc, filename, appends)]))) ([], []) jobs.

(** One result of [load_cached]. *)
Definition load_cached (job : parse_job) : M (dict recipe_cache) next_result :=
  let '(mc, filename, appends) := job in
  '(cached, infos) ← on_cache mc (cache_load mtime path_exists filename appends);
  mret (NextInfos (negb cached) mc infos).

Definition count_result (parsed : bool) (infos : nat) (s : cooker_parser) : cooker_parser :=
  MkCookerParser (if parsed then S (cp_parsed s) else cp_parsed s) (if parsed then cp_cached s else S (cp_cached s)) (cp_error s)
    (cp_skipped s) (cp_virtuals s + infos) (S (cp_current s)) (bb_caches s) (recipecaches s) (skiplist s).
Definition count_error (s : cooker_parser) : cooker_parser :=
  MkCookerParser (cp_parsed s) (cp_cached s) (S (cp_error s)) (cp_skipped s) (cp_virtuals s) (cp_current s)
    (bb_caches s) (recipecaches s) (skiplist s).
Definition add_skipped (fn : string) (p : SkippedPackage) (s : cooker_parser) : cooker_parser :=
  MkCookerParser (cp_parsed s) (cp_cached s) (cp_error s) (S (cp_skipped s)) (cp_virtuals s) (cp_current s)
    (bb_caches s) (recipecaches s) (dset (skiplist s) fn p).
Definition set_caches (c : dict recipe_cache) (t : dict (CacheData * HobData)) (s : cooker_parser) : cooker_parser :=
  MkCookerParser (cp_parsed s) (cp_cached s) (cp_error s) (cp_skipped s) (cp_virtuals s) (cp_current s) c t (skiplist s).

(** One variant of a result. *)
Definition enter_result (parsed : bool) (mc : string) (r : string * list info) : M cooker_parser unit :=
  let '(virtualfn, info_array) := r in
  c ← lift (core_of info_array);
  _ ← (if ci_skipped c then p ← lift (skipped_package c); modify (add_skipped virtualfn p) else mret tt);
  s ← get;
  cd ← lift (of_option KeyError (dget (recipecaches s) mc));
  let '(caches, r) := on_cache mc (add_info virtualfn info_array cd parsed) (bb_caches s) in
  cd' ← lift r;
  modify (set_caches caches (dset (recipecaches s) mc cd')).

(** [parse_next]: whether there may be more. *)
Definition parse_next (r : next_result) : M cooker_parser bool :=
  match r with
  | NextStop => mret false
  | NextFailed => _ ← modify count_error; mret false
  | NextInfos parsed mc infos =>
      _ ← modify (count_result parsed (List.length infos));
      _ ← for_each infos (enter_result parsed mc);
      mret true
  end.

(** The calls of [parse_next] until there is no more. *)
Fixpoint parse_results (l : list next_result) : M cooker_parser unit :=
  match l with
  | [] => mret tt
  | r :: l => more ← parse_next r; if (more : bool) then parse_results l else mret tt
  end.
End cooker.
