(* ===== verification/RecipeCacheOk.v ===== *)
(** * The recipe cache is right (bb/cache.py)

    What is kept of a file is used exactly while nothing it was made from has
    changed; the files of the cache give back what was written; a recipe that
    was parsed is found by the next build; the informations are well formed, so
    that entering them cannot fail. *)

From Stdlib Require Import Ascii String.
From S2P Require Import Prelude.
From S2P Require Import PyStr.
From S2P Require Import PyDict.
From S2P Require Import Runs.
From S2P Require Import Cache.
From S2P Require Import DataStore.
From S2P Require Import VarDeps.
From S2P Require Import DataCopy.
From S2P Require Import RecipeFiles.
From S2P Require Import RecipeFilesOk.
From S2P Require Import RecipeInfos.
From S2P Require Import RecipeCache.

(** ** Lists of files *)

(** What the fetcher prints of a file that is checked: its name and whether it
    is there. *)
Definition mark (b : bool) : string := if b then ":True" else ":False".
Definition entry (fb : string * bool) : string := fb.1 +s+ mark fb.2.
Definition listing (l : list (string * bool)) : string := join " " (List.map entry l).

(** Blanks are allowed in the name, but not first, and no colons. *)
Definition file_name (f : string) : Prop :=
  char_in ":" f = false ∧ match f with String c _ => is_space c = false | "" => False end.

Lemma no_mark piece b : char_in ":" piece = false → endswith piece (mark b) = false.
Proof.
  intros H. destruct (endswith piece (mark b)) eqn:E; [|done]. apply endswith_spec in E as [p ->].
  rewrite char_in_app in H. by destruct b, (char_in ":" p).
Qed.

Lemma split_name name tail piece :
  char_in ":" piece = false → char_in ":" name = false →
  filelist_split (name +s+ tail) piece false = filelist_split tail (piece +s+ name) false.
Proof.
  revert piece. induction name as [|c name IH]; intros piece Hp Hn; [by rewrite app_empty_r|].
  cbn [char_in] in Hn. apply orb_false_iff in Hn as [Hc Hn]. cbn [String.append filelist_split andb].
  pose proof (no_mark piece true Hp) as E1. pose proof (no_mark piece false Hp) as E2. cbn [mark] in E1, E2.
  rewrite E1, E2, andb_false_r. cbn [andb]. rewrite IH; [by rewrite app_str_assoc| |done].
  by rewrite char_in_app, Hp; cbn [char_in str1]; rewrite Hc.
Qed.

Lemma split_mark b tail piece :
  filelist_split (mark b +s+ tail) piece false = filelist_split tail (piece +s+ mark b) false.
Proof. destruct b; cbn; by rewrite !app_str_assoc. Qed.

Lemma marked_end piece b : endswith (piece +s+ mark b) ":True" || endswith (piece +s+ mark b) ":False" = true.
Proof.
  apply orb_true_iff. destruct b; [left|right]; apply endswith_spec; by exists piece.
Qed.

Lemma split_entry fb tail :
  file_name fb.1 → filelist_split (entry fb +s+ tail) "" true = filelist_split tail (entry fb) false.
Proof.
  intros [Hc Hn]. unfold entry. destruct (fb.1) as [|c f]; [done|]. rewrite app_str_assoc.
  cbn [char_in] in Hc. apply orb_false_iff in Hc as [Hc Hf].
  cbn [String.append filelist_split andb]. rewrite Hn. cbn [andb].
  change ("" +s+ str1 c) with (str1 c). rewrite split_name; [|cbn; by rewrite Hc|done].
  by rewrite split_mark.
Qed.

Lemma filelist_split_listing l :
  Forall file_name l.*1 → l ≠ [] → filelist_split (listing l) "" true = List.map entry l.
Proof.
  induction l as [|fb l IH]; [done|]. intros Hl _. apply Forall_cons in Hl as [Hf Hl]. unfold listing. cbn [List.map].
  destruct l as [|fb2 l].
  - cbn [List.map join]. rewrite <-(app_empty_r (entry fb)) at 1. by rewrite split_entry.
  - rewrite join_cons by done. rewrite split_entry by done. change (" " +s+ ?x) with (String " " x). cbn [filelist_split andb].
    unfold entry at 1 2. rewrite marked_end. change (is_space " ") with true. cbn [andb].
    f_equal. by apply IH.
Qed.

(** Before anything is read it makes no difference whether blanks are passed
    over. *)
Lemma filelist_split_start f b s : file_name f → filelist_split (f +s+ s) "" b = filelist_split (f +s+ s) "" true.
Proof. intros [_ H]. destruct f as [|c f]; [done|]. cbn [String.append filelist_split]. by rewrite H, !andb_false_r. Qed.

Lemma rstrip_snoc p s c : p c = false → rstrip p (s +s+ str1 c) = s +s+ str1 c.
Proof.
  intros Hc. induction s as [|a s IH]; cbn; [by rewrite Hc|]. change (String.append s (str1 c)) with (s +s+ str1 c).
  rewrite IH. by destruct s.
Qed.

Lemma listing_ends l : l ≠ [] → ∃ s, listing l = s +s+ str1 "e".
Proof.
  induction l as [|fb l IH]; [done|]. intros _. unfold listing. cbn [List.map].
  destruct l as [|fb2 l].
  - cbn [List.map join]. unfold entry. destruct fb as [f []]; cbn [fst snd mark].
    + exists (f +s+ ":Tru"). by rewrite app_str_assoc.
    + exists (f +s+ ":Fals"). by rewrite app_str_assoc.
  - rewrite join_cons by done. destruct IH as [s E]; [done|]. unfold listing in E. rewrite E.
    exists (entry fb +s+ " " +s+ s). by rewrite !app_str_assoc.
Qed.

Lemma listing_starts l : Forall file_name l.*1 → l ≠ [] → ∃ f s, file_name f ∧ listing l = f +s+ s.
Proof.
  destruct l as [|fb l]; [done|]. intros Hl _. apply Forall_cons in Hl as [Hf _].
  exists fb.1. unfold listing, entry. cbn [List.map]. destruct l; [by eexists|].
  rewrite join_cons by done. eexists. split; [done|]. by rewrite app_str_assoc.
Qed.

Lemma strip_listing l : Forall file_name l.*1 → strip is_space (listing l) = listing l.
Proof.
  destruct (decide (l = [])) as [->|Hne]; [done|]. intros Hl. unfold strip.
  assert (lstrip is_space (listing l) = listing l) as ->.
  { destruct (listing_starts l Hl Hne) as (f & s & [_ Hf] & ->). destruct f; [done|]. cbn. by rewrite Hf. }
  destruct (listing_ends l Hne) as [s ->]. by rewrite rstrip_snoc.
Qed.

Lemma any_res_existsb {A} (f : A → res bool) (g : A → bool) l :
  (∀ x, x ∈ l → f x = Ok (g x)) → any_res f l = Ok (existsb g l).
Proof.
  induction l as [|x l IH]; intros H; cbn [any_res existsb]; [done|].
  rewrite H by apply list_elem_of_here. cbn [mbind res_bind]. destruct (g x); [done|].
  apply IH. intros. apply H. by apply list_elem_of_further.
Qed.

Lemma existsb_false {A} (g : A → bool) l : existsb g l = false ↔ ∀ x, x ∈ l → g x = false.
Proof.
  induction l as [|x l IH]; cbn [existsb]; [split; [by intros _ ? ?%elem_of_nil|done]|].
  rewrite orb_false_iff, IH. setoid_rewrite elem_of_cons. naive_solver.
Qed.

(** ** When what is kept of a file holds still *)

(** The files of the checksums of the tasks. *)
Definition checksums_of (c : CoreRecipeInfo) : dict string :=
  match ci_body c with Skipped _ _ => [] | Parsed ri => ri_file_checksums ri end.

(** They are lists that the fetcher printed. *)
Definition listed (c : CoreRecipeInfo) : Prop :=
  Forall (λ kv, ∃ l, kv.2 = listing l ∧ Forall file_name l.*1) (checksums_of c).

Section valid.
Context (mtime : string → Z) (path_exists : string → bool).

(** Nothing the recipe was made from has changed: the file is there and as old
    as it was, so are the files it depends on, the files of its checksums are
    there or not as before, and it has the same appends. *)
Record unchanged (fn : string) (appends : list string) (c : CoreRecipeInfo) : Prop := {
  un_there : mtime fn ≠ 0%Z;
  un_time : mtime fn = ci_timestamp c;
  un_depends : ∀ f t, (f, t) ∈ default [] (ci_file_depends c) → mtime f = t;
  un_checksums : ∀ task l, (task, listing l) ∈ checksums_of c → Forall file_name l.*1 →
    ∀ f b, (f, b) ∈ l → path_exists f = b;
  un_appends : appends = ci_appends c
}.

Lemma dep_changed_spec f t : dep_changed mtime (f, t) = negb (bool_decide (mtime f = t)).
Proof.
  unfold dep_changed. destruct (decide (mtime f = t)) as [E|E].
  - rewrite (bool_decide_eq_true_2 (mtime f = t)) by done. rewrite <-E. by destruct (bool_decide (mtime f = 0%Z)).
  - rewrite (bool_decide_eq_false_2 (mtime f = t)) by done. by rewrite orb_true_r.
Qed.

Lemma listed_changed_entry fb :
  file_name fb.1 → listed_changed path_exists (entry fb) = Ok (negb (eqb (path_exists fb.1) fb.2)).
Proof.
  intros [Hc Hn]. unfold listed_changed, entry. destruct fb as [f b]; cbn [fst snd] in *.
  assert (str_empty (f +s+ mark b) = false) as -> by by destruct f.
  assert (split_on ":" (f +s+ mark b) = [f; if b then "True" else "False"]) as ->.
  { destruct b; cbn [mark]; [change ":True" with (String ":" "True")|change ":False" with (String ":" "False")];
      rewrite split_on_app; by rewrite !split_on_word. }
  destruct b; cbn; by destruct (path_exists f).
Qed.

Lemma checksum_changed_listing l :
  Forall file_name l.*1 → checksum_changed path_exists (listing l) = Ok (existsb (λ fb, negb (eqb (path_exists fb.1) fb.2)) l).
Proof.
  intros Hl. unfold checksum_changed. rewrite strip_listing by done.
  destruct (decide (l = [])) as [->|Hne]; [done|].
  destruct (listing_starts l Hl Hne) as (f & s & Hf & E).
  assert (str_empty (listing l) = false) as -> by (rewrite E; destruct Hf; by destruct f).
  assert (filelist_split (listing l) "" false = List.map entry l) as ->.
  { rewrite E, filelist_split_start, <-E by done. by apply filelist_split_listing. }
  clear f s Hf E Hne. induction l as [|fb l IH]; cbn [List.map any_res existsb]; [done|].
  apply Forall_cons in Hl as [Hf Hl]. rewrite listed_changed_entry by done. cbn [mbind res_bind].
  destruct (negb _); [done|]. by apply IH.
Qed.

Lemma checksums_changed_spec c :
  listed c → ∃ b, checksums_changed path_exists c = Ok b ∧
    (b = false ↔ ∀ task l, (task, listing l) ∈ checksums_of c → Forall file_name l.*1 → ∀ f b, (f, b) ∈ l → path_exists f = b).
Proof.
  unfold listed, checksums_of, checksums_changed. destruct (ci_body c) as [why names|ri].
  { intros _. exists false. split; [done|]. split; [|done]. by intros _ ? ? ?%elem_of_nil. }
  intros Hl. rewrite Forall_forall in Hl.
  rewrite (any_res_existsb _ (λ kv, match checksum_changed path_exists kv.2 with Ok b => b | Raise _ => false end)).
  2: { intros kv Hkv. destruct (Hl kv Hkv) as (l & -> & Hf). by rewrite checksum_changed_listing. }
  eexists. split; [done|]. rewrite existsb_false. split.
  - intros H task l Hin Hf f b Hfb. specialize (H _ Hin). cbn [snd] in H. rewrite checksum_changed_listing in H by done.
    rewrite existsb_false in H. specialize (H _ Hfb). cbn [fst snd] in H. apply negb_false_iff, eqb_prop in H. done.
  - intros H kv Hkv. destruct (Hl kv Hkv) as (l & E & Hf). rewrite E, checksum_changed_listing by done.
    apply existsb_false. intros [f b] Hfb. apply negb_false_iff, eqb_true_iff. cbn [fst snd].
    destruct kv as [task fl]. cbn [snd] in E. subst fl. by eapply H.
Qed.

Lemma stale_spec fn appends c rest :
  listed c → ∃ b, stale mtime path_exists fn appends (Core c :: rest) = Ok b ∧ (b = false ↔ unchanged fn appends c).
Proof.
  intros Hl. unfold stale. case_bool_decide as E1; [exists true; split; [done|split; [done|by intros []]]|].
  cbn [core_of mbind res_bind]. case_bool_decide as E2; cbn [negb]; [|exists true; split; [done|split; [done|by intros []]]].
  destruct (existsb _ _) eqn:E3.
  { exists true. split; [done|]. split; [done|]. intros [_ _ Hd _ _].
    assert (existsb (dep_changed mtime) (default [] (ci_file_depends c)) = false) as E; [|congruence].
    apply existsb_false. intros [f t] Hf. rewrite dep_changed_spec, bool_decide_eq_true_2; eauto. }
  destruct (checksums_changed_spec c Hl) as (b & -> & Hb). cbn [mbind res_bind]. rewrite existsb_false in E3.
  destruct b.
  { exists true. split; [done|]. split; [done|]. intros H. apply Hb. apply (un_checksums _ _ _ H). }
  eexists. split; [done|]. rewrite negb_false_iff, bool_decide_eq_true. split; [|by intros []].
  intros Ha. split; [done|done| |by apply Hb|done].
  intros f t Hf. specialize (E3 _ Hf). rewrite dep_changed_spec, negb_false_iff, bool_decide_eq_true in E3. done.
Qed.

(** The names of the variants of a file. *)
Definition variant_names (fn : string) (vs names : list string) : Prop :=
  Forall2 (λ v n, variant2virtual fn v = Ok n) vs names.

(** All of the cache's classes have an information of the file. *)
Definition complete_entry (s : recipe_cache) (n : string) : Prop :=
  ∃ l, dget (depends_cache s) n = Some l ∧ List.length l = List.length (caches_array s).

Definition incomplete (s : recipe_cache) (n : string) : bool :=
  match dget (depends_cache s) n with
  | None => true
  | Some l => negb (bool_decide (List.length l = List.length (caches_array s)))
  end.

Lemma incomplete_spec s names : existsb (incomplete s) names = false ↔ ∀ n, n ∈ names → complete_entry s n.
Proof.
  rewrite existsb_false. unfold complete_entry, incomplete. split; intros H n Hn; specialize (H n Hn).
  - destruct (dget _ n) as [l|]; [|done]. apply negb_false_iff, bool_decide_eq_true in H. eauto.
  - destruct H as (l & -> & E). by rewrite bool_decide_eq_true_2.
Qed.

Lemma clean_same s x : x = clean s → set_clean x s = s.
Proof. intros ->. by destruct s. Qed.

Lemma check_variants fn vs names invalid s :
  variant_names fn vs names →
  fold_state (check_variant fn) invalid vs s = (set_clean (list_to_set names ∪ clean s) s, Ok (invalid || existsb (incomplete s) names)).
Proof.
  intros H. revert invalid s. induction H as [|v n vs names Hv _ IH]; intros invalid s; cbn [fold_state existsb].
  { rewrite orb_false_r. cbn [mret M_ret]. by rewrite clean_same by set_solver. }
  rewrite M_bind_eq. unfold check_variant at 1. rewrite Hv, lift_bind, modify_bind, get_bind. cbn [mret M_ret].
  rewrite IH. f_equal; [|by rewrite orb_assoc]. unfold set_clean. cbn. f_equal. set_solver.
Qed.

Lemma unmark_variants fn vs names s :
  variant_names fn vs names → for_each vs (unmark_variant fn) s = (set_clean (clean s ∖ list_to_set names) s, Ok tt).
Proof.
  intros H. revert s. induction H as [|v n vs names Hv _ IH]; intros s; cbn [for_each].
  { cbn [mret M_ret]. by rewrite clean_same by set_solver. }
  rewrite M_bind_eq. unfold unmark_variant at 1. rewrite Hv, lift_bind. cbn [modify]. rewrite IH.
  unfold set_clean. cbn. do 2 f_equal. set_solver.
Qed.

(** What the thorough check leaves. *)
Definition checked_state (fn : string) (names : list string) (st bad : bool) (s : recipe_cache) : recipe_cache :=
  let s := set_checked ({[fn]} ∪ checked s) s in
  if st then set_clean (clean s ∖ {[fn]}) (set_depends_cache (ddel (depends_cache s) fn) s)
  else if bad then set_clean (((list_to_set names ∪ clean s) ∖ list_to_set names) ∖ {[fn]}) s
  else set_clean ({[fn]} ∪ (list_to_set names ∪ clean s)) s.

Lemma update_spec s fn appends c rest names st :
  has_cache s = true → dget (depends_cache s) fn = Some (Core c :: rest) → variant_names fn (ci_variants c) names →
  stale mtime path_exists fn appends (Core c :: rest) = Ok st →
  cacheValidUpdate mtime path_exists fn appends s =
    (checked_state fn names st (existsb (incomplete s) names) s, Ok (negb st && negb (existsb (incomplete s) names))).
Proof.
  intros Hc Hd Hv Hs. unfold cacheValidUpdate. rewrite get_bind, Hc. cbn [negb]. rewrite modify_bind, Hd, lift_bind, Hs.
  destruct st; [done|]. rewrite lift_bind. cbn [core_of]. rewrite M_bind_eq, (check_variants _ _ names) by done.
  change (existsb (incomplete (set_checked ({[fn]} ∪ checked s) s)) names) with (existsb (incomplete s) names).
  cbn [orb andb negb]. unfold checked_state. destruct (existsb (incomplete s) names); cbn [negb]; [|done].
  rewrite M_bind_eq, (unmark_variants _ _ names) by done. done.
Qed.

(** A file that was checked is answered from what was found then. *)
Lemma valid_again s fn appends :
  fn ∈ checked s → cacheValid mtime path_exists fn appends s = (s, Ok (has_cache s && bool_decide (fn ∈ clean s))).
Proof. intros H. unfold cacheValid. rewrite get_bind, bool_decide_eq_true_2 by done. done. Qed.

Lemma valid_first s fn appends s' b :
  fn ∉ checked s → cacheValidUpdate mtime path_exists fn appends s = (s', Ok b) →
  cacheValid mtime path_exists fn appends s = (s', Ok (has_cache s' && bool_decide (fn ∈ clean s'))).
Proof.
  intros H E. unfold cacheValid. rewrite get_bind, bool_decide_eq_false_2 by done. by rewrite M_bind_eq, E, get_bind.
Qed.
End valid.

(** A file of a cache that has not been looked at. *)
Record fresh_entry (s : recipe_cache) (fn : string) (c : CoreRecipeInfo) (rest : list info) (names : list string) : Prop := {
  fe_has : has_cache s = true;
  fe_wf : dict_wf (depends_cache s);
  fe_checked : fn ∉ checked s;
  fe_clean : fn ∉ clean s;
  fe_entry : dget (depends_cache s) fn = Some (Core c :: rest);
  fe_listed : listed c;
  fe_names : variant_names fn (ci_variants c) names
}.

Lemma fresh_valid mtime path_exists s fn appends c rest names :
  fresh_entry s fn c rest names →
  ∃ st, stale mtime path_exists fn appends (Core c :: rest) = Ok st ∧ (st = false ↔ unchanged mtime path_exists fn appends c) ∧
    let bad := existsb (incomplete s) names in
    cacheValid mtime path_exists fn appends s = (checked_state fn names st bad s, Ok (negb st && negb bad)).
Proof.
  intros [Hc Hwf Hk Hn He Hl Hv]. destruct (stale_spec mtime path_exists fn appends c rest Hl) as (st & Es & Hst).
  exists st. split; [done|]. split; [done|]. cbn zeta.
  erewrite valid_first; [|done|by eapply update_spec]. f_equal. f_equal. unfold checked_state.
  destruct st; cbn [negb andb]; [|destruct (existsb _ _); cbn [negb]].
  - cbn. rewrite bool_decide_eq_false_2 by set_solver. by rewrite andb_false_r.
  - cbn. rewrite bool_decide_eq_false_2 by set_solver. by rewrite andb_false_r.
  - cbn. rewrite bool_decide_eq_true_2 by set_solver. by rewrite andb_true_r.
Qed.


(** ** The files of the cache *)

Lemma path_join_inj p x y : isabs x = false → isabs y = false → path_join p x = path_join p y → x = y.
Proof.
  unfold path_join. intros -> ->. destruct (_ || _); intros E; [by apply app_str_inj_l in E|].
  by apply app_str_inj_l, app_str_inj_l in E.
Qed.

Lemma cache_file_inj s c c' : cache_file s c = cache_file s c' → c = c'.
Proof.
  unfold cache_file, getCacheFile. intros E. apply path_join_inj in E; [|by destruct c|by destruct c'].
  destruct c, c'; [done|discriminate E|discriminate E|done].
Qed.

Lemma dget_foldl_dset {A V} (key : A → string) (v : A → V) (l : list A) (d : dict V) x :
  (∀ a b, key a = key b → a = b) → x ∈ l → dget (foldl (λ d a, dset d (key a) (v a)) d l) (key x) = Some (v x).
Proof.
  intros Hk. induction l as [|y l IH] using rev_ind; [by intros ?%elem_of_nil|].
  rewrite foldl_app. cbn [foldl]. rewrite dget_dset. case_decide as E; [by apply Hk in E as ->|].
  rewrite elem_of_app, list_elem_of_singleton. intros [?| ->]; [by apply IH|done].
Qed.

Lemma dset_middle {V} (a b : dict V) k v w : k ∉ dkeys a → dset (a ++ (k, v) :: b) k w = a ++ (k, w) :: b.
Proof.
  induction a as [|[k' v'] a IH]; cbn; [by rewrite decide_True|]. intros H.
  apply not_elem_of_cons in H as [Hne H]. rewrite decide_False by done. by rewrite IH.
Qed.

(** Of every file the informations of all classes, in order. *)
Record full_cache (s : recipe_cache) : Prop := {
  fc_wf : dict_wf (depends_cache s);
  fc_full : Forall (λ kv, List.map class_of kv.2 = caches_array s) (depends_cache s)
}.

(** What is loaded after [j] classes. *)
Definition partial (j : nat) (d : dict (list info)) : dict (list info) :=
  match j with O => [] | _ => List.map (λ kv, (kv.1, take j kv.2)) d end.

Lemma no_records c k l :
  c ∉ List.map class_of l → List.concat (List.map (λ i, if bool_decide (class_of i = c) then [PText k; PInfo i] else []) l) = [].
Proof.
  induction l as [|i l IH]; cbn; [done|]. rewrite not_elem_of_cons. intros [Hi Hl].
  rewrite bool_decide_eq_false_2 by congruence. by apply IH.
Qed.

Lemma one_record c k l j i :
  NoDup (List.map class_of l) → l !! j = Some i → class_of i = c →
  List.concat (List.map (λ i, if bool_decide (class_of i = c) then [PText k; PInfo i] else []) l) = [PText k; PInfo i].
Proof.
  intros Hnd Hj Hc. apply take_drop_middle in Hj. revert Hnd. rewrite <-Hj, List.map_app. cbn [List.map].
  intros Hnd. apply NoDup_app in Hnd as (_ & Hx & Hnd). apply NoDup_cons in Hnd as [Hy _].
  rewrite List.map_app, concat_app. cbn [List.map List.concat]. rewrite bool_decide_eq_true_2 by done.
  rewrite !no_records; [done|by rewrite <-Hc|]. intros Hin. apply (Hx _ Hin). rewrite Hc. apply list_elem_of_here.
Qed.

Lemma load_step d1 d2 cs c j :
  NoDup cs → cs !! j = Some c → NoDup (d1 ++ d2).*1 → Forall (λ kv, List.map class_of kv.2 = cs) d2 →
  load_records (records_of c d2) (partial (S j) d1 ++ partial j d2) = partial (S j) (d1 ++ d2).
Proof.
  intros Hnd Hj. revert d1. induction d2 as [|[k l] d2 IH]; intros d1 Hk Hd.
  { rewrite app_nil_r. destruct j; cbn; by rewrite app_nil_r. }
  apply Forall_cons in Hd as [Hl Hd]. cbn [snd] in Hl.
  assert (∃ i, l !! j = Some i ∧ class_of i = c) as (i & Hi & Hc).
  { rewrite <-Hl in Hj. rewrite list_lookup_fmap in Hj. destruct (l !! j) as [i|]; [|done]. injection Hj as <-. eauto. }
  unfold records_of. cbn [List.map List.concat fst snd]. rewrite (one_record c k l j i); [|by rewrite Hl|done|done].
  cbn [app load_records]. change (List.concat _) with (records_of c d2).
  assert (k ∉ dkeys (partial (S j) d1)) as Hout.
  { cbn [partial]. unfold dkeys. rewrite List.map_map. cbn. rewrite fmap_app in Hk. apply NoDup_app in Hk as (_ & Hx & _).
    intros Hin. apply (Hx k); [exact Hin|apply list_elem_of_here]. }
  assert (add_record (partial (S j) d1 ++ partial j ((k, l) :: d2)) k i = partial (S j) (d1 ++ [(k, l)]) ++ partial j d2) as ->.
  { unfold add_record. destruct j as [|j].
    - cbn [partial]. rewrite !app_nil_r. rewrite dset_fresh by done. cbn [partial] in Hout.
      rewrite (proj2 (dget_None _ _)) by done. rewrite List.map_app. cbn. destruct l as [|x l]; [done|]. by injection Hi as <-.
    - cbn [partial List.map fst snd].
      assert (∀ (a b : dict (list info)) v, k ∉ dkeys a → dget (a ++ (k, v) :: b) k = Some v) as Hget.
      { intros a b v. clear. induction a as [|[k' v'] a IH]; cbn; [by rewrite decide_True|].
        intros H. apply not_elem_of_cons in H as [Hne H]. rewrite decide_False by done. by apply IH. }
      rewrite Hget by exact Hout. cbn [default]. rewrite dset_middle by exact Hout. rewrite List.map_app. cbn [List.map fst snd].
      rewrite <-app_assoc. cbn [app]. by rewrite (take_S_r l (S j) i). }
  change (d1 ++ (k, l) :: d2) with (d1 ++ [(k, l)] ++ d2). rewrite (app_assoc d1). apply IH; [|done]. by rewrite <-app_assoc.
Qed.

Section roundtrip.
Context (bb_version : string) (s : recipe_cache) (files : cache_files).

Definition content (c : cache_class) : list pickled := PText cache_version :: PText bb_version :: records_of c (depends_cache s).

Lemma load_all new cs j :
  full_cache s → NoDup (caches_array s) → drop j (caches_array s) = cs →
  (∀ c, c ∈ caches_array s → dget files (cache_file new c) = Some (content c)) →
  load_classes bb_version files new cs (partial j (depends_cache s)) = Ok (partial (j + List.length cs) (depends_cache s), true).
Proof.
  intros Hf Hnd Hcs Hc. revert j Hcs. induction cs as [|c cs IH]; intros j Hcs; cbn [load_classes List.length].
  { by rewrite Nat.add_0_r. }
  assert (caches_array s !! j = Some c) as Hj by by rewrite <-(Nat.add_0_r j), <-lookup_drop, Hcs.
  rewrite Hc by by eapply list_elem_of_lookup_2. cbn [of_option mbind res_bind content]. rewrite !String.eqb_refl. cbn [andb].
  pose proof (load_step [] (depends_cache s) (caches_array s) c j Hnd Hj (fc_wf _ Hf) (fc_full _ Hf)) as E.
  change (partial (S j) [] ++ ?x) with x in E. cbn [app] in E. rewrite E.
  replace (j + S (List.length cs)) with (S j + List.length cs) by lia. apply IH.
  replace (S j) with (j + 1) by lia. by rewrite <-drop_drop, Hcs.
Qed.
End roundtrip.

Lemma partial_full s : full_cache s → caches_array s ≠ [] → partial (List.length (caches_array s)) (depends_cache s) = depends_cache s.
Proof.
  intros [_ Hf] Hne. unfold partial. destruct (caches_array s) as [|c cs] eqn:E; [done|]. cbn [List.length]. rewrite <-E in *.
  change (S (List.length cs)) with (List.length (c :: cs)). rewrite <-E.
  induction Hf as [|[k l] d Hl _ IH]; [done|]. cbn [List.map fst snd]. rewrite IH. cbn [snd] in Hl.
  rewrite <-Hl, List.length_map. by rewrite firstn_all.
Qed.

(** C22: what [sync] writes, [prepare_cache] of the next build reads: the same
    entries in the same order.  Another version of the program reads nothing. *)
Theorem cache_roundtrip bb_version s files :
  has_cache s = true → cacheclean s = false → full_cache s → NoDup (caches_array s) → caches_array s ≠ [] →
  let new := new_cache (rc_mc s) (rc_cachedir s) (rc_data_hash s) (caches_array s) in
  prepare_cache bb_version (sync bb_version s files) new =
    (set_depends_cache (depends_cache s) new, Ok (List.length (depends_cache s))) ∧
  ∀ other, other ≠ bb_version → prepare_cache other (sync bb_version s files) new = (new, Ok 0).
Proof.
  intros Hc Hd Hf Hnd Hne new. set (files' := sync bb_version s files).
  assert (∀ c, c ∈ caches_array s → dget files' (cache_file new c) = Some (content bb_version s c)) as Hget.
  { intros c Hin. unfold files', sync. rewrite Hc, Hd. cbn [negb orb]. change (cache_file new c) with (cache_file s c).
    apply (dget_foldl_dset (cache_file s) (content bb_version s)); [apply cache_file_inj|done]. }
  assert (forallb (λ c, dmem files' (cache_file new c)) (caches_array s) = true) as Hall.
  { apply forallb_forall. intros c Hin. unfold dmem. by rewrite Hget by by apply list_elem_of_In. }
  unfold prepare_cache. setoid_rewrite get_bind. change (has_cache new) with (has_cache s). rewrite Hc. cbn [negb].
  change (caches_array new) with (caches_array s). rewrite Hall. unfold load_cachefile. setoid_rewrite get_bind.
  change (caches_array new) with (caches_array s). change (depends_cache new) with (partial 0 (depends_cache s)). split.
  - rewrite lift_bind, (load_all bb_version s) by done. cbn [Nat.add]. rewrite partial_full by done. done.
  - intros other Ho. destruct (caches_array s) as [|c cs] eqn:E; [done|]. cbn [load_classes].
    rewrite Hget by apply list_elem_of_here. rewrite lift_bind. cbn [of_option mbind res_bind content].
    rewrite (proj2 (String.eqb_neq bb_version other)) by done. rewrite andb_false_r. done.
Qed.

(** ** The informations are well formed *)

(** What a computation gives, whatever the state, when it returns. *)
Definition gives {S A} (m : M S A) (Q : A → Prop) : Prop := ∀ s, returns s m (λ a _, Q a).

Lemma gives_bind {S A B} (m : M S A) (f : A → M S B) Q Q' : gives m Q → (∀ a, Q a → gives (f a) Q') → gives (m ≫= f) Q'.
Proof. intros Hm Hf s. eapply returns_bind; [apply Hm|]. intros a s' Ha. by apply Hf. Qed.

Lemma gives_then {S A B} (m : M S A) (f : A → M S B) Q : (∀ a, gives (f a) Q) → gives (m ≫= f) Q.
Proof. intros Hf. apply (gives_bind _ _ (λ _, True)); [intros s; unfold returns; by destruct (m s) as [? []]|auto]. Qed.

Lemma gives_lift {S A B} (r : res A) (f : A → M S B) Q : (∀ a, r = Ok a → gives (f a) Q) → gives (lift r ≫= f) Q.
Proof. intros H s. unfold returns. rewrite lift_bind. destruct r as [a|]; [|done]. apply (H a eq_refl s). Qed.

Lemma gives_ret {S A} (a : A) (Q : A → Prop) : Q a → gives (S := S) (mret a) Q.
Proof. intros HQ s. exact HQ. Qed.

Lemma gives_mono {S A} (m : M S A) (Q Q' : A → Prop) : gives m Q → (∀ a, Q a → Q' a) → gives m Q'.
Proof. intros Hm HQ s. eapply returns_mono; [apply Hm|auto]. Qed.

Lemma gives_Ok {S A} (m : M S A) Q s s' a : gives m Q → m s = (s', Ok a) → Q a.
Proof. intros Hm E. specialize (Hm s). unfold returns in Hm. by rewrite E in Hm. Qed.

(** A table filled for each of [l]. *)
Lemma gives_table {S V} (g : string → M S V) l d0 :
  gives (fold_state (λ d k, v ← g k; mret (dset d k v)) d0 l) (λ d, dkeys d = foldl append_new (dkeys d0) l).
Proof.
  revert d0. induction l as [|k l IH]; intros d0; cbn [fold_state foldl]; [by apply gives_ret|].
  apply (gives_bind _ _ (λ d, dkeys d = append_new (dkeys d0) k)).
  - apply gives_then. intros v. apply gives_ret. rewrite dkeys_dset. unfold append_new.
    destruct (dmem d0 k) eqn:E; [rewrite bool_decide_eq_true_2 by by apply dmem_spec|rewrite bool_decide_eq_false_2 by by apply dmem_false]; done.
  - intros d <-. apply IH.
Qed.

Lemma table_has {V} (d : dict V) l k : dkeys d = foldl append_new [] l → k ∈ l → is_Some (dget d k).
Proof. intros E Hk. apply elem_of_dkeys. rewrite E. apply elem_of_fold_append_new. auto. Qed.

(** There is a package, and all have an entry in the table of what they
    provide. *)
Record names_ok (n : RecipeNames) : Prop := {
  no_packages : rn_packages n ≠ [];
  no_provides : ∀ p, p ∈ rn_packages n → is_Some (dget (rn_rprovides_pkg n) p)
}.

(** Tables of the tasks have the same tasks, once each; checksums are of
    tasks. *)
Record tables_ok (ri : RecipeInfo) : Prop := {
  to_hashes : dkeys (ri_basetaskhashes ri) = dkeys (ri_stamp_extrainfo ri);
  to_wf : dict_wf (ri_basetaskhashes ri);
  to_checksums : ∀ t, t ∈ dkeys (ri_file_checksums ri) → t ∈ dkeys (ri_basetaskhashes ri)
}.

Record core_ok (c : CoreRecipeInfo) : Prop := {
  co_time : ci_timestamp c ≠ 0%Z;
  co_variants : ∃ vs, ci_variants c = vs ++ [""];
  co_names : names_ok (ci_names c);
  co_body : match ci_body c with
            | Skipped why _ => truthy (Some why) = true
            | Parsed ri => recipe_ok ri ∧ tables_ok ri
            end
}.

Definition info_ok (c : cache_class) (i : info) : Prop :=
  class_of i = c ∧ match i with Core c => core_ok c | Hob _ => True end.

Lemma squash_keys (d : dict (option value)) (out out' : dict string) :
  fold_res (λ out kv, if truthy kv.2 then s ← as_str kv.2; Ok (dset out kv.1 s) else Ok out) out d = Ok out' →
  ∀ t, t ∈ dkeys out' → t ∈ dkeys out ∨ t ∈ dkeys d.
Proof.
  revert out. induction d as [|[k v] d IH]; intros out; cbn [fold_res fst snd].
  { intros [= ->] t. auto. }
  intros E t Ht. unfold dkeys. cbn [fmap list_fmap fst]. change (list_fmap _ _ fst d) with (dkeys d). rewrite elem_of_cons. destruct (truthy v).
  - destruct (as_str v) as [s|]; [|done]. cbn [mbind res_bind] in E. destruct (IH _ E t Ht) as [H|H]; [|auto].
    apply elem_of_dkeys_dset in H as [->|H]; auto.
  - destruct (IH _ E t Ht); auto.
Qed.

Lemma flag_texts_keys (d : dict (option value)) (out out' : dict (option string)) :
  fold_res (λ out kv, match kv.2 with
                      | None => Ok (dset out kv.1 None)
                      | Some v => s ← as_str (Some v); Ok (dset out kv.1 (Some s))
                      end) out d = Ok out' →
  dkeys out' = foldl append_new (dkeys out) (dkeys d).
Proof.
  revert out. induction d as [|[k v] d IH]; intros out; cbn [fold_res fst snd].
  { by intros [= ->]. }
  assert (∀ x : option string, dkeys (dset out k x) = append_new (dkeys out) k) as Hd.
  { intros x. rewrite dkeys_dset. unfold append_new.
    destruct (dmem out k) eqn:E; [rewrite bool_decide_eq_true_2 by by apply dmem_spec|rewrite bool_decide_eq_false_2 by by apply dmem_false]; done. }
  unfold dkeys at 3. cbn [fmap list_fmap fst foldl]. change (list_fmap _ _ fst d) with (dkeys d).
  destruct v as [v|]; [destruct (as_str (Some v)) as [s|]; [|done]; cbn [mbind res_bind]|]; intros E; by rewrite (IH _ E), Hd.
Qed.

Lemma append_new_nodup l acc : NoDup (acc ++ l) → foldl append_new acc l = acc ++ l.
Proof.
  revert acc. induction l as [|k l IH]; intros acc H; cbn [foldl]; [by rewrite app_nil_r|].
  unfold append_new at 2. rewrite bool_decide_eq_false_2.
  - rewrite IH; by rewrite <-app_assoc.
  - apply NoDup_app in H as (_ & H & _). intros Hk. apply (H k Hk), list_elem_of_here.
Qed.

Lemma append_new_twice l : foldl append_new [] (foldl append_new [] l) = foldl append_new [] l.
Proof. apply append_new_nodup. cbn [app]. apply NoDup_fold_append_new, NoDup_nil_2. Qed.

Section infos.
Context `{!SetOrder string}.
Context (python_eval : option string → string → data python_result) (loop_fuel depth : nat).
Context (env : parse_env).

Lemma gives_in_store {A} (m : data A) Q : gives m Q → gives (in_store m) Q.
Proof.
  intros H s. specialize (H (en_world (rd_engine s))). unfold returns, in_store, on_engine, store in *.
  by destruct (m (en_world (rd_engine s))) as [w [a|e]].
Qed.

Lemma gives_recipe_names filename : gives (recipe_names python_eval loop_fuel depth filename) names_ok.
Proof.
  unfold recipe_names. apply gives_then. intros provides. apply gives_then. intros rprovides.
  apply gives_then. intros pn. apply gives_then. intros given. cbv zeta.
  set (packages := match given with [] => [pn] | _ => given end). apply gives_then. intros dynamic.
  eapply gives_bind; [apply gives_in_store, gives_table|]. intros d Hd. apply gives_ret. split; cbn.
  - subst packages. by destruct given.
  - intros p Hp. exact (table_has _ _ _ Hd Hp).
Qed.

Lemma gives_recipe_info n :
  names_ok n →
  gives (recipe_info python_eval loop_fuel depth n) (λ ri, names_of ri = n ∧ recipe_ok ri ∧ tables_ok ri).
Proof.
  intros [Hne Hp]. unfold recipe_info. apply gives_then. intros tasks. apply gives_lift. intros tasks' _.
  eapply gives_bind; [apply gives_table|]. intros hashes Hh. do 2 (apply gives_then; intros). apply gives_lift. intros td _.
  do 7 (apply gives_then; intros).
  eapply gives_bind; [apply gives_table|]. intros extra He. apply gives_lift. intros extra' He'.
  eapply gives_bind; [apply gives_table|]. intros sums Hs. apply gives_lift. intros sums' Hs'.
  do 3 (apply gives_then; intros).
  eapply gives_bind; [apply gives_table|]. intros rdepends Hrd.
  eapply gives_bind; [apply gives_table|]. intros rrecs Hrr.
  apply gives_then. intros inherits. apply gives_lift. intros inherits' _. do 4 (apply gives_then; intros).
  apply gives_ret. split; [by destruct n|]. split.
  - intros p Hin. cbn in *. split; [by apply Hp|]. split; [exact (table_has _ _ _ Hrd Hin)|exact (table_has _ _ _ Hrr Hin)].
  - split; cbn [ri_basetaskhashes ri_stamp_extrainfo ri_file_checksums].
    + rewrite (flag_texts_keys _ _ _ He'), He, Hh. exact (eq_sym (append_new_twice _)).
    + unfold dict_wf. change (NoDup (dkeys hashes)). rewrite Hh. apply NoDup_fold_append_new, NoDup_nil_2.
    + intros t Ht. apply (squash_keys _ _ _ Hs') in Ht as [?%elem_of_nil|Ht]; [done|]. rewrite Hh. rewrite Hs in Ht. exact Ht.
Qed.

Lemma gives_core filename : gives (core_recipe_info python_eval loop_fuel depth env filename) core_ok.
Proof.
  unfold core_recipe_info. apply gives_then. intros fd. apply gives_lift. intros fd' _. apply gives_lift. intros t Ht.
  do 3 (apply gives_then; intros). eapply gives_bind; [apply gives_recipe_names|]. intros names Hn.
  apply gives_then. intros why.
  eapply (gives_bind _ _ (λ body, match body with
    | Skipped why n => n = names ∧ truthy (Some why) = true
    | Parsed ri => names_of ri = names ∧ recipe_ok ri ∧ tables_ok ri end)).
  - destruct (truthy (Some why)) eqn:E; [by apply gives_ret|].
    eapply gives_bind; [apply gives_in_store, gives_recipe_info, Hn|]. intros ri Hri. by apply gives_ret.
  - intros body Hb. apply gives_ret. split; cbn.
    + unfold cached_mtime in Ht. case_bool_decide; [done|]. by injection Ht as <-.
    + by eexists.
    + unfold ci_names. cbn. destruct body as [w n|ri]; [by destruct Hb as [-> _]|by destruct Hb as [-> _]].
    + destruct body as [w n|ri]; apply Hb.
Qed.

Lemma gives_info filename c : gives (make_info python_eval loop_fuel depth env filename c) (info_ok c).
Proof.
  destruct c; cbn [make_info].
  - eapply gives_bind; [apply gives_core|]. intros c Hc. by apply gives_ret.
  - apply gives_then. intros h. by apply gives_ret.
Qed.

Lemma skipped_package_total c : names_ok (ci_names c) → ∃ p, skipped_package c = Ok p.
Proof.
  intros [_ H]. unfold skipped_package. revert H. generalize (rn_packages (ci_names c)) at 1 3 as l.
  generalize (rn_packages (ci_names c) ++ rn_rprovides (ci_names c)) as acc. intros acc l H.
  assert (∃ r, fold_res (λ acc package, l ← of_option KeyError (dget (rn_rprovides_pkg (ci_names c)) package); Ok (acc ++ l)) acc l = Ok r) as [r ->]; [|by eexists].
  revert acc. induction l as [|p l IH]; intros acc; cbn [fold_res]; [by eexists|].
  destruct (H p (list_elem_of_here _ _)) as [v ->]. cbn [mbind res_bind of_option]. apply IH. intros q Hq. apply H. by apply list_elem_of_further.
Qed.

(** What is made of a recipe, whatever its variables hold, is well formed: its
    tables have an entry for each of its packages, those of the tasks agree.
    So it can be entered: a skipped recipe in the list of those, any other in
    the tables of the engine, under any name and without an exception. *)
Theorem infos_typed filename c s s' i :
  make_info python_eval loop_fuel depth env filename c s = (s', Ok i) →
  info_ok c i ∧
  match i with
  | Core ci => if ci_skipped ci then ∃ p, skipped_package ci = Ok p
               else ∀ fn cd, ∃ cd' i', add_info_data fn cd i = Ok (cd', i')
  | Hob _ => ∀ fn cd, ∃ cd' i', add_info_data fn cd i = Ok (cd', i')
  end.
Proof.
  intros E. pose proof (gives_Ok _ _ _ _ _ (gives_info filename c) E) as [Hc Hi]. split; [done|].
  destruct i as [ci|h]; [|intros; by do 2 eexists].
  unfold ci_skipped. destruct (ci_body ci) as [why n|ri] eqn:Eb; [apply skipped_package_total, Hi|].
  intros fn cd. unfold add_info_data. rewrite Eb. pose proof (co_body _ Hi) as H. rewrite Eb in H.
  destruct (add_cacheData_total ri cd.1 fn) as (c' & -> & _); [apply H|]. by do 2 eexists.
Qed.
End infos.

(** ** A recipe that was parsed is found by the next build *)

(** The informations of a file, one of each class. *)
Definition infos_ok (caches : list cache_class) (l : list info) : Prop := Forall2 info_ok caches l.

Lemma infos_classes caches l : infos_ok caches l → List.map class_of l = caches.
Proof. induction 1 as [|c i caches l [Hc _] _ IH]; cbn; congruence. Qed.

(** An information as it is after it was entered: what the packages provide is
    now also provided by the recipe. *)
Definition entered (i : info) : info :=
  match i with
  | Core c =>
      match ci_body c with
      | Skipped _ _ => i
      | Parsed ri =>
          Core (MkCoreRecipeInfo (ci_file_depends c) (ci_timestamp c) (ci_variants c) (ci_appends c) (ci_nocache c)
                  (Parsed (set_rprovides ri (all_rprovides ri))))
      end
  | Hob _ => i
  end.

Lemma entered_class i : class_of (entered i) = class_of i.
Proof. destruct i as [c|h]; [|done]. cbn. by destruct (ci_body c). Qed.

Section parse.
Context `{!SetOrder string}.
Context (python_eval : option string → string → data python_result) (loop_fuel depth : nat).
Context (parse_python : string → option value → res python_code) (parse_shell : string → option value → res (gset string)).
Context (env : parse_env) (n : nat).

Lemma gives_infos filename caches : gives (map_state (make_info python_eval loop_fuel depth env filename) caches) (infos_ok caches).
Proof.
  induction caches as [|c caches IH]; cbn [map_state]; [apply gives_ret; constructor|].
  eapply gives_bind; [apply gives_info|]. intros i Hi. eapply gives_bind; [apply IH|]. intros l Hl.
  apply gives_ret. by constructor.
Qed.

Lemma gives_on_variant {A} d (m : M reader A) Q : gives m Q → gives (on_variant d m) Q.
Proof.
  intros H s. specialize (H (set_reader_self d s)). unfold returns, on_variant in *.
  by destruct (m (set_reader_self d s)) as [s' [a|e]].
Qed.

Lemma gives_fold {S A B} (f : A → B → M S A) (I : A → Prop) acc l :
  I acc → (∀ a x, I a → gives (f a x) I) → gives (fold_state f acc l) I.
Proof.
  intros H0 Hf. revert acc H0. induction l as [|x l IH]; intros acc H0; cbn [fold_state]; [by apply gives_ret|].
  eapply gives_bind; [by apply Hf|]. exact IH.
Qed.

(** What [Cache.parse] gives: the virtual names of some variants, and for each
    the informations of all classes. *)
Definition parsed_ok (caches : list cache_class) (filename : string) (infos : list (string * list info)) : Prop :=
  (∃ vs, variant_names filename vs infos.*1) ∧ Forall (λ ni, infos_ok caches ni.2) infos.

Lemma gives_parse db mc caches filename appends :
  gives (cache_parse python_eval loop_fuel depth env parse_python parse_shell n db mc caches filename appends)
    (parsed_ok caches filename).
Proof.
  unfold cache_parse. apply gives_then. intros stores.
  eapply (gives_bind _ _ (λ acc, parsed_ok caches filename acc.1.1)).
  - apply gives_fold; [split; [exists []; constructor|constructor]|].
    intros [[infos depends] variants] v [[vs Hvs] Hin]. cbn [fst] in *. unfold parse_variant. apply gives_lift. intros virtualfn Hv.
    cbv zeta. apply gives_lift. intros d _.
    eapply (gives_bind _ _ (λ r, infos_ok caches r.2)).
    + apply gives_on_variant. unfold variant_infos. apply gives_then. intros own. cbv zeta.
      apply gives_then. intros _. apply gives_then. intros _. eapply gives_bind; [apply gives_infos|].
      intros l Hl. by apply gives_ret.
    + intros [depends' l] Hl. apply gives_ret. cbn [fst snd] in *. split.
      * exists (vs ++ [v]). rewrite fmap_app. apply Forall2_app; [done|]. by repeat constructor.
      * apply Forall_app. split; [done|]. by repeat constructor.
  - intros [[infos depends] variants] Hp. by apply gives_ret.
Qed.
End parse.

(** The informations of a file entered one after the other. *)
Definition enter_all (infos : list (string * list info)) (cd : CacheData * HobData) : caching (CacheData * HobData) :=
  fold_state (λ cd '(name, l), add_info name l cd true) cd infos.

Definition kept_entries (infos : list (string * list info)) (d : dict (list info)) : dict (list info) :=
  foldl (λ d ni, dset d ni.1 (List.map entered ni.2)) d infos.

Lemma add_hobs vfn cd out l :
  CoreClass ∉ List.map class_of l →
  ∃ cd', fold_res (λ '(cd, out) i, '(cd, i) ← add_info_data vfn cd i; Ok (cd, out ++ [i])) (cd, out) l =
    Ok (cd', out ++ List.map entered l).
Proof.
  revert cd out. induction l as [|i l IH]; intros cd out; cbn [List.map fold_res]; [rewrite app_nil_r; eauto|].
  rewrite not_elem_of_cons. intros [Hi Hl]. destruct i as [c|h]; [done|]. cbn [add_info_data mbind res_bind entered].
  destruct (IH (cd.1, add_hobData h cd.2 vfn) (out ++ [Hob h]) Hl) as [cd' ->]. exists cd'. by rewrite <-app_assoc.
Qed.

Lemma enter_ok caches vfn cd c rest :
  infos_ok (CoreClass :: caches) (Core c :: rest) → CoreClass ∉ caches → ci_skipped c = false →
  ∃ cd', add_from_recipeinfo vfn cd (Core c :: rest) = Ok (cd', List.map entered (Core c :: rest)).
Proof.
  intros Hi Hn Hs. apply Forall2_cons_1 in Hi as [[_ Hc] Hr]. cbn in Hc.
  unfold add_from_recipeinfo. cbn [fold_res add_info_data]. unfold ci_skipped in Hs. pose proof (co_body _ Hc) as Hb.
  destruct (ci_body c) as [why names|ri] eqn:Eb; [done|]. destruct Hb as [Hri _].
  destruct (add_cacheData_total ri cd.1 vfn Hri) as (c' & -> & _). cbn [mbind res_bind app].
  destruct (add_hobs vfn (c', cd.2) [Core (MkCoreRecipeInfo (ci_file_depends c) (ci_timestamp c) (ci_variants c) (ci_appends c) (ci_nocache c) (Parsed (set_rprovides ri (all_rprovides ri))))] rest) as [cd' ->].
  { by rewrite (infos_classes _ _ Hr). }
  exists cd'. cbn [List.map entered app]. by rewrite Eb.
Qed.

Lemma skipped_entered caches c rest :
  infos_ok (CoreClass :: caches) (Core c :: rest) → CoreClass ∉ caches → ci_skipped c = true →
  List.map entered (Core c :: rest) = Core c :: rest.
Proof.
  intros Hi Hn Hs. apply Forall2_cons_1 in Hi as [_ Hr]. cbn [List.map entered]. unfold ci_skipped in Hs.
  destruct (ci_body c); [|done]. f_equal. rewrite <-(infos_classes _ _ Hr) in Hn. clear Hr Hs.
  induction rest as [|[c'|h] rest IH]; [done| |]; cbn in *; apply not_elem_of_cons in Hn as [Hx Hn]; [done|].
  by rewrite IH.
Qed.

Lemma add_info_entered caches s name c rest cd :
  has_cache s = true → is_Some (table_name (rc_mc s) name) → infos_ok (CoreClass :: caches) (Core c :: rest) → CoreClass ∉ caches →
  is_kept c = true →
  ∃ cd', add_info name (Core c :: rest) cd true s =
    (set_depends_cache (dset (depends_cache s) name (List.map entered (Core c :: rest))) (set_cacheclean false s), Ok cd').
Proof.
  intros Hc [vfn Hv] Hi Hn Hk. unfold add_info. rewrite get_bind, Hv, lift_bind, Hc. cbn [negb].
  destruct (ci_skipped c) eqn:Es.
  - exists cd. rewrite lift_bind. cbn [core_of]. rewrite Hk, modify_bind. by rewrite (skipped_entered caches).
  - destruct (enter_ok caches vfn cd c rest Hi Hn Es) as [cd' ->]. exists cd'. rewrite lift_bind.
    assert (core_of (List.map entered (Core c :: rest)) = Ok (match entered (Core c) with Core c => c | Hob _ => c end)) as ->.
    { cbn [List.map core_of entered]. by destruct (ci_body c). }
    assert (is_kept (match entered (Core c) with Core c => c | Hob _ => c end) = true) as ->.
    { unfold is_kept in *. cbn [entered]. destruct (ci_body c) as [|ri] eqn:Eb; [by rewrite Eb|done]. }
    by rewrite modify_bind.
Qed.

Definition enter_state (infos : list (string * list info)) (s : recipe_cache) : recipe_cache :=
  match infos with
  | [] => s
  | _ => set_depends_cache (kept_entries infos (depends_cache s)) (set_cacheclean false s)
  end.

(** What the recipes of a file must be for all of them to be kept: of this
    cache, and of versions that do not come from a repository. *)
Record keepable (s : recipe_cache) (infos : list (string * list info)) : Prop := {
  ke_names : NoDup infos.*1;
  ke_own : ∀ name, name ∈ infos.*1 → is_Some (table_name (rc_mc s) name);
  ke_kept : ∀ name c rest, (name, Core c :: rest) ∈ infos → is_kept c = true
}.

Lemma enter_all_state caches infos cd s :
  has_cache s = true → CoreClass ∉ caches → Forall (λ ni, infos_ok (CoreClass :: caches) ni.2) infos → keepable s infos →
  ∃ cd', enter_all infos cd s = (enter_state infos s, Ok cd').
Proof.
  intros Hc Hn Hi Hk. revert cd s Hc Hk. induction Hi as [|[name l] infos Hl _ IH]; intros cd s Hc Hk.
  { by exists cd. }
  unfold enter_all. cbn [fold_state]. rewrite M_bind_eq. destruct Hk as [Hnd Ho Hk].
  pose proof Hl as Hl'. apply Forall2_cons_inv_l in Hl' as (i & rest & [Hcl _] & _ & E). cbn [snd] in E. subst l.
  destruct i as [c|h]; [|done].
  destruct (add_info_entered caches s name c rest cd) as [cd1 E]; [done|apply Ho, list_elem_of_here|done|done|apply (Hk name c rest), list_elem_of_here|].
  rewrite E. apply NoDup_cons in Hnd as [_ Hnd].
  destruct (IH cd1 (set_depends_cache (dset (depends_cache s) name (List.map entered (Core c :: rest))) (set_cacheclean false s))) as [cd' E'].
  - done.
  - split; [done| |]; intros; [apply Ho|eapply Hk]; by apply list_elem_of_further.
  - exists cd'. unfold enter_all in E'. rewrite E'. f_equal. by destruct infos.
Qed.

Lemma kept_get infos d name l :
  NoDup infos.*1 → (name, l) ∈ infos → dget (kept_entries infos d) name = Some (List.map entered l).
Proof.
  unfold kept_entries. induction infos as [|[n l'] infos IH] using rev_ind; [by intros _ ?%elem_of_nil|].
  rewrite fmap_app. intros (Hnd & Hx & _)%NoDup_app. rewrite foldl_app, elem_of_app, list_elem_of_singleton. cbn [foldl fst snd].
  intros [Hin|[= -> ->]]; [|by rewrite dget_dset_eq]. rewrite dget_dset_ne; [by apply IH|].
  intros <-. apply (Hx n); [by apply (list_elem_of_fmap_2 fst) in Hin|apply list_elem_of_here].
Qed.

Lemma kept_full caches infos d :
  dict_wf d → Forall (λ kv, List.map class_of kv.2 = caches) d → Forall (λ ni, infos_ok caches ni.2) infos →
  dict_wf (kept_entries infos d) ∧ Forall (λ kv, List.map class_of kv.2 = caches) (kept_entries infos d).
Proof.
  unfold kept_entries. intros Hwf Hd Hi. revert d Hwf Hd. induction Hi as [|[n l] infos Hl _ IH]; intros d Hwf Hd; [done|].
  cbn [foldl fst snd]. apply IH; [by apply dset_wf|]. apply Forall_forall. intros kv [->|Hin]%elem_of_dset_inv.
  - cbn [snd] in *. rewrite List.map_map. setoid_rewrite entered_class. by apply infos_classes.
  - rewrite Forall_forall in Hd. by apply Hd.
Qed.

Lemma unchanged_entered mtime path_exists filename appends c c' :
  entered (Core c) = Core c' →
  (unchanged mtime path_exists filename appends c → unchanged mtime path_exists filename appends c') ∧
  (listed c → listed c') ∧ ci_variants c' = ci_variants c.
Proof.
  intros E. assert (ci_file_depends c' = ci_file_depends c ∧ ci_timestamp c' = ci_timestamp c ∧ ci_variants c' = ci_variants c ∧
    ci_appends c' = ci_appends c ∧ checksums_of c' = checksums_of c) as (E1 & E2 & E3 & E4 & E5).
  { cbn in E. unfold checksums_of. destruct (ci_body c) as [|ri] eqn:Eb; [injection E as <-; by rewrite Eb|].
    by injection E as <-. }
  split; [|split; [|done]].
  - intros [H1 H2 H3 H4 H5]. split; [done|congruence|by rewrite E1|by rewrite E5|congruence].
  - unfold listed. by rewrite E5.
Qed.

(** Loading from a cache that has all entries of the file. *)
Lemma load_hit mtime path_exists s fn appends c rest names infos :
  fresh_entry s fn c rest names → unchanged mtime path_exists fn appends c →
  names = infos.*1 → (∀ name l, (name, l) ∈ infos → dget (depends_cache s) name = Some l) →
  (∀ name l, (name, l) ∈ infos → List.length l = List.length (caches_array s)) →
  (cache_load mtime path_exists fn appends s).2 = Ok (true, infos).
Proof.
  intros H Hu -> Hget Hlen. destruct (fresh_valid mtime path_exists s fn appends c rest infos.*1 H) as (st & _ & Hst & Ev).
  cbn zeta in Ev. destruct st; [by apply Hst in Hu|].
  assert (existsb (incomplete s) infos.*1 = false) as Hb.
  { apply incomplete_spec. intros name ([name' l] & -> & Hin)%list_elem_of_fmap. exists l. eauto. }
  rewrite Hb in Ev. cbn [negb andb] in Ev. unfold cache_load. rewrite M_bind_eq, Ev, get_bind. unfold checked_state.
  cbn [depends_cache set_clean set_checked]. rewrite (fe_entry _ _ _ _ _ H). cbn [of_option]. rewrite !lift_bind. cbn [core_of].
  assert (map_res (λ variant, virtualfn ← variant2virtual fn variant;
      l ← of_option KeyError (dget (depends_cache s) virtualfn); Ok (virtualfn, l)) (ci_variants c) = Ok infos) as ->; [|done].
  pose proof (fe_names _ _ _ _ _ H) as Hv. clear Ev Hb Hlen Hst H Hu. revert Hv Hget.
  generalize (ci_variants c) as vs. induction infos as [|[name l] infos IH]; intros vs Hv Hget.
  - by apply Forall2_nil_inv_r in Hv as ->.
  - apply Forall2_cons_inv_r in Hv as (v & vs' & Hv & Hvs & ->). cbn [map_res]. rewrite Hv. cbn [mbind res_bind fst].
    rewrite (Hget name l) by apply list_elem_of_here. cbn [of_option mbind res_bind]. rewrite IH; [done|done|].
    intros. apply Hget. by apply list_elem_of_further.
Qed.


(** ** A recipe with a variant, and its cache *)

#[local] Existing Instance set_order_elements.

Definition some_reader : reader := MkReader some_engine [].
Definition some_builder : databuilder := MkBuilder (w_self (en_world some_engine)) [("", w_self (en_world some_engine))].

Definition parsed_recipe : reader * res (list (string * list info)) :=
  cache_parse no_eval 9 9 some_env (λ _ _, Ok (PythonCode ∅ ∅ ∅)) (λ _ _, Ok ∅) 9 some_builder (Some "")
    [CoreClass; HobClass] "/r/a_1.bb" [] some_reader.

Definition some_infos : list (string * list info) := match parsed_recipe.2 with Ok l => l | Raise _ => [] end.

Definition some_cache : recipe_cache := new_cache (Some "") "/c" "hash" [CoreClass; HobClass].
Definition filled_cache : recipe_cache := enter_state some_infos some_cache.

(** The informations of the recipe itself. *)
Definition own_infos : list info := default [] (dget some_infos "/r/a_1.bb").
Definition own_info : CoreRecipeInfo :=
  match own_infos with Core c :: _ => c | _ => MkCoreRecipeInfo None 0 [] [] "" (Skipped VNone (MkRecipeNames "" [] [] [] [] [])) end.

(** All files have the time 1; with [None] one of them has another. *)
Definition times (f : option string) (g : string) : Z := if bool_decide (f = Some g) then 2%Z else 1%Z.

Lemma some_infos_eq :
  some_infos.*1 = ["virtual:native:/r/a_1.bb"; "/r/a_1.bb"] ∧ ("/r/a_1.bb", Core own_info :: tail own_infos) ∈ some_infos ∧
  ci_variants own_info = ["native"; ""].
Proof.
  split; [vm_compute; reflexivity|]. split; [|vm_compute; reflexivity].
  apply dget_elem_of. vm_compute. reflexivity.
Qed.

Lemma no_checksums_listed c : checksums_of c = [] → listed c.
Proof. intros E. unfold listed. rewrite E. constructor. Qed.

Lemma all_times_one c path_exists filename :
  ci_timestamp c = 1%Z → ci_appends c = [] → checksums_of c = [] → forallb (λ ft, bool_decide (ft.2 = 1%Z)) (default [] (ci_file_depends c)) = true →
  unchanged (times None) path_exists filename [] c.
Proof.
  intros E1 E2 E3 E4. split; [done|by rewrite E1| | |by rewrite E2].
  - intros f t Hf. rewrite forallb_forall in E4. apply list_elem_of_In, E4, bool_decide_eq_true in Hf. exact (eq_sym Hf).
  - rewrite E3. by intros ? ? ?%elem_of_nil.
Qed.

Lemma own_listed : listed own_info.
Proof. apply no_checksums_listed. vm_compute. reflexivity. Qed.

Lemma own_unchanged path_exists : unchanged (times None) path_exists "/r/a_1.bb" [] own_info.
Proof. apply all_times_one; vm_compute; reflexivity. Qed.

Lemma own_names : variant_names "/r/a_1.bb" (ci_variants own_info) some_infos.*1.
Proof. destruct some_infos_eq as (-> & _ & ->). repeat constructor. Qed.

Lemma keepable_check s infos :
  NoDup infos.*1 → forallb (λ name, bool_decide (is_Some (table_name (rc_mc s) name))) infos.*1 = true →
  forallb (λ ni, match ni.2 with Core c :: _ => is_kept c | _ => true end) infos = true → keepable s infos.
Proof.
  intros H1 H2 H3. rewrite forallb_forall in H2, H3. split; [done| |].
  - intros name Hn. by apply list_elem_of_In, H2, bool_decide_eq_true in Hn.
  - intros name c rest Hin. by apply list_elem_of_In, H3 in Hin.
Qed.

Lemma some_keepable : keepable some_cache some_infos.
Proof.
  apply keepable_check; [|vm_compute; reflexivity|vm_compute; reflexivity].
  destruct some_infos_eq as (-> & _). by_eval.
Qed.


Lemma filled_full : full_cache filled_cache.
Proof.
  split; [|].
  - unfold dict_wf. assert ((depends_cache filled_cache).*1 = ["virtual:native:/r/a_1.bb"; "/r/a_1.bb"]) as -> by (vm_compute; reflexivity). by_eval.
  - by_eval.
Qed.

(** A small cache: of a skipped recipe, and of one file more. *)
Definition skipped_info : info :=
  Core (MkCoreRecipeInfo None 1 [""] [] "" (Skipped (VInt 1) (MkRecipeNames "b" [] [] ["b"] [] [("b", [])]))).
Definition small_cache : recipe_cache :=
  MkRecipeCache (Some "") "/c" "hash" [HobClass; CoreClass] ∅ ∅
    [("b.bb", [Hob (MkHobRecipeInfo "" "MIT" "" "" "" "" "" ""); skipped_info]); ("a.bb", [Hob (MkHobRecipeInfo "A" "" "" "" "" "" "" ""); skipped_info])] false.

Lemma cache_roundtrip_witness :
  let new := new_cache (Some "") "/c" "hash" [HobClass; CoreClass] in
  prepare_cache "1.48.0" (sync "1.48.0" small_cache []) new = (set_depends_cache (depends_cache small_cache) new, Ok 2) ∧
  ∀ other, other ≠ "1.48.0" → prepare_cache other (sync "1.48.0" small_cache []) new = (new, Ok 0).
Proof.
  apply (cache_roundtrip "1.48.0" small_cache []); [reflexivity|reflexivity| |by_eval|discriminate].
  split; [|repeat constructor]. unfold dict_wf. by_eval.
Defined.

(** The cache of the next build, before it is looked at. *)
Definition next_cache : recipe_cache := set_depends_cache (depends_cache filled_cache) some_cache.

Lemma fresh_new mc dir hash classes d fn c rest names :
  str_empty dir = false → dict_wf d → dget d fn = Some (Core c :: rest) → listed c → variant_names fn (ci_variants c) names →
  fresh_entry (set_depends_cache d (new_cache mc dir hash classes)) fn c rest names.
Proof.
  intros Hd Hwf He Hl Hv. split; [unfold has_cache; cbn; by rewrite Hd|done|apply not_elem_of_empty|apply not_elem_of_empty|done|done|done].
Qed.

Lemma next_fresh : fresh_entry next_cache "/r/a_1.bb" own_info (tail own_infos) some_infos.*1.
Proof.
  apply fresh_new; [reflexivity|exact (fc_wf _ filled_full)|vm_compute; reflexivity|exact own_listed|exact own_names].
Qed.


(** The store the recipe was read into. *)
Definition recipe_reader : reader := set_reader_self (some_store "") (MkReader read_recipe.1 []).
Definition made_info : reader * res info := make_info no_eval 9 9 some_env "/r/a_1.bb" CoreClass recipe_reader.
Definition the_info : info := match made_info.2 with Ok i => i | Raise _ => Hob (MkHobRecipeInfo "" "" "" "" "" "" "" "") end.

Lemma infos_typed_witness :
  made_info.2 = Ok the_info ∧
  (info_ok CoreClass the_info ∧
   match the_info with
   | Core ci => if ci_skipped ci then ∃ p, skipped_package ci = Ok p
                else ∀ fn cd, ∃ cd' i', add_info_data fn cd the_info = Ok (cd', i')
   | Hob _ => ∀ fn cd, ∃ cd' i', add_info_data fn cd the_info = Ok (cd', i')
   end).
Proof.
  split; [vm_compute; reflexivity|].
  apply (infos_typed no_eval 9 9 some_env "/r/a_1.bb" CoreClass recipe_reader made_info.1 the_info).
  vm_compute. reflexivity.
Defined.

(** ** What the cache does not do as it means to *)

(** Entering a recipe makes its RPROVIDES longer, in the information that is
    kept too: each build that enters what it has from the cache adds once more
    what the packages provide. *)
Lemma rprovides_grow :
  let ri := MkRecipeInfo "a" "" "1" "r0" (MkTaskDeps [] [] []) 0 [] [] ["a"] [] [("a", ["x"])] [] [] [] [("a", [])] [("a", [])]
    "" "" "" [] [] [] "" [] "" "" "" "" in
  let i := Core (MkCoreRecipeInfo None 1 [""] [] "" (Parsed ri)) in
  match entered (entered i) with Core c => rn_rprovides (ci_names c) | Hob _ => [] end = ["x"; "x"].
Proof. reflexivity. Qed.

(** Care is taken of blanks and colons in the names of files, but a name with a
    colon raises. *)
Lemma colon_in_name path_exists :
  filelist_split "/a b:c:True /d:False" "" false = ["/a b:c:True"; "/d:False"] ∧
  checksum_changed path_exists "/a b:c:True /d:False" = Raise ValueError.
Proof. split; reflexivity. Qed.

(** A file that is not valid is to be parsed by [load]; a variable that does
    not exist is read instead. *)
Lemma load_miss mtime path_exists fn appends s s' :
  cacheValid mtime path_exists fn appends s = (s', Ok false) → cache_load mtime path_exists fn appends s = (s', Raise NameError).
Proof. intros E. unfold cache_load. by rewrite M_bind_eq, E. Qed.
