(* ===== verification/SharedCaches.v ===== *)
(** * Caches shared by processes (bb/cache.py, bb/checksum.py)

    [MultiProcessCache]: every process that parses keeps what it finds that is
    not in the cache yet, and writes it to a file of its own; at the end these
    files are merged into the cache.  [FileChecksumCache] keeps the checksums of
    local files with their times.  Locks, which keep the processes from each
    other, are left out: the operations here are those done under a lock. *)

From Stdlib Require Import Ascii String.
From stdpp Require Import pretty.
From S2P Require Import Prelude.
From S2P Require Import PyStr.
From S2P Require Import PyDict.
From S2P Require Import Cache.
From S2P Require Import RecipeFiles.

(** ** [MultiProcessCache] *)

(** What a file in the directory of the cache holds: the tables with the
    version of the class, or nothing that can be read. *)
Inductive stored (V : Type) : Type :=
  | Stored (tables : list (dict V)) (version : Z)
  | Unreadable.
Arguments Stored {V} tables version.
Arguments Unreadable {V}.

(** The files of the directory by their names. *)
Abbreviation directory V := (dict (stored V)).

(** The fields; [cachefile] is the name in the directory, empty while there is
    no cache. *)
Record shared_cache (V : Type) : Type := MkSharedCache {
  cachefile : string;
  cachedata : list (dict V);
  cachedata_extras : list (dict V)
}.
Arguments MkSharedCache {V} cachefile cachedata cachedata_extras.
Arguments cachefile {V} s.
Arguments cachedata {V} s.
Arguments cachedata_extras {V} s.

Section multi.
Context {V : Type}.
(** [CACHE_VERSION] and [cache_file_name] of the class, and the number of its
    tables, which [create_cachedata] makes. *)
Context (class_version : Z) (class_file : string) (tables : nat).

Definition create_cachedata : list (dict V) := replicate tables [].

(** [__init__] *)
Definition new_shared : shared_cache V := MkSharedCache "" create_cachedata create_cachedata.

(** [init_cache]: without a directory there is no cache; a file that cannot be
    read or is of another version counts as none. *)
Definition init_cache (cachedir : string) (file_name : option string) (dir : directory V) (s : shared_cache V) : shared_cache V :=
  if str_empty cachedir then s
  else
    let name := match file_name with Some f => if str_empty f then class_file else f | None => class_file end in
    let data := match dget dir name with
                | Some (Stored data version) => if bool_decide (version = class_version) then data else cachedata s
                | _ => cachedata s
                end in
    MkSharedCache name data (cachedata_extras s).

(** The first number from [i] on for which there is no file. *)
Fixpoint free_number (n : nat) (i : Z) (name : string) (dir : directory V) : res Z :=
  match n with
  | O => Raise OutOfFuel
  | S n => if dmem dir (name +s+ "-" +s+ pretty i) then free_number n (i + 1)%Z name dir else Ok i
  end.

(** [save_extras] of the process [pid]. *)
Definition save_extras (pid : Z) (s : shared_cache V) (dir : directory V) : res (directory V) :=
  if str_empty (cachefile s) then Ok dir
  else
    i ← free_number (S (List.length dir)) pid (cachefile s) dir;
    Ok (dset dir (cachefile s +s+ "-" +s+ pretty i) (Stored (cachedata_extras s) class_version)).

(** [dest[j][h] = source[j][h]] for the names that are not there. *)
Definition merge_table (dest source : dict V) : dict V :=
  foldl (λ d kv, if dmem d kv.1 then d else dset d kv.1 kv.2) dest source.

(** [merge_data] *)
Fixpoint merge_data (source dest : list (dict V)) : res (list (dict V)) :=
  match dest, source with
  | [], _ => Ok []
  | _ :: _, [] => Raise IndexError
  | d :: dest, t :: source => l ← merge_data source dest; Ok (merge_table d t :: l)
  end.

Context (merge : list (dict V) → list (dict V) → res (list (dict V))).

(** The files of the processes. *)
Definition is_extra (name file : string) : bool := startswith file (name +s+ "-").

(** One file of a process: merged when it can be read and is of this version,
    and gone in any case. *)
Definition merge_file (acc : list (dict V) * directory V) (f : string) : res (list (dict V) * directory V) :=
  let '(data, dir) := acc in
  data ← (match dget dir f with
          | Some (Stored extra version) => if bool_decide (version = class_version) then merge extra data else Ok data
          | _ => Ok data
          end);
  Ok (data, ddel dir f).

(** [save_merge] *)
Definition save_merge (s : shared_cache V) (dir : directory V) : res (shared_cache V * directory V) :=
  if str_empty (cachefile s) then Ok (s, dir)
  else
    '(data, dir) ← fold_res merge_file (cachedata s, dir) (List.filter (is_extra (cachefile s)) (dkeys dir));
    Ok (MkSharedCache (cachefile s) data (cachedata_extras s), dset dir (cachefile s) (Stored data class_version)).
End multi.

(** ** [SimpleCache] *)

Definition simple_init {V} (cachedir : string) (name : string) (version : Z) (dir : directory V) (defaultdata : list (dict V)) :
    string * list (dict V) :=
  if str_empty cachedir then ("", defaultdata)
  else
    (name, match dget dir name with
           | Some (Stored data v) => if bool_decide (v = version) then data else defaultdata
           | _ => defaultdata
           end).

Definition simple_save {V} (name : string) (version : Z) (data : list (dict V)) (dir : directory V) : directory V :=
  if str_empty name then dir else dset dir name (Stored data version).

(** ** Checksums of files *)

(** A checksum with the time the file had. *)
Abbreviation checksum_entry := (Z * string)%type.

(** [FileChecksumCache.merge_data]: the newer entry stays. *)
Definition newer_table (dest source : dict checksum_entry) : dict checksum_entry :=
  foldl (λ d kv,
    match dget d kv.1 with
    | Some (dmtime, _) => if (dmtime <? kv.2.1)%Z then dset d kv.1 kv.2 else d
    | None => dset d kv.1 kv.2
    end) dest source.

Definition merge_newer (source dest : list (dict checksum_entry)) : res (list (dict checksum_entry)) :=
  match source, dest with
  | s :: _, d :: dest => Ok (newer_table d s :: dest)
  | _, _ => Raise IndexError
  end.

(** The cache and the times that were looked up. *)
Record checksum_state : Type := MkChecksums {
  ck_mtimes : dict Z;
  ck_cache : shared_cache checksum_entry
}.

Abbreviation summing := (M checksum_state).

Section checksums.
(** The files: the time of one, its checksum, what a pattern matches, what is a
    directory or a link, and what is in a directory: directories and files. *)
Context (stat_mtime : string → option Z) (md5_file : string → res string) (glob : string → list string).
Context (isdir islink : string → bool) (scandir : string → list string * list string).

(** [FileMtimeCache.cached_mtime] *)
Definition cached_mtime (f : string) : summing Z :=
  s ← get;
  match dget (ck_mtimes s) f with
  | Some t => mret t
  | None =>
      t ← lift (of_option FileNotFound (stat_mtime f));
      _ ← modify (λ s, MkChecksums (dset (ck_mtimes s) f t) (ck_cache s));
      mret t
  end.

(** The first table of a list. *)
Definition first_table {V} (l : list (dict V)) : res (dict V) := of_option IndexError (head l).

Definition add_extra (f : string) (e : checksum_entry) (c : shared_cache checksum_entry) : shared_cache checksum_entry :=
  MkSharedCache (cachefile c) (cachedata c)
    (match cachedata_extras c with t :: l => dset t f e :: l | [] => [] end).

(** [get_checksum] *)
Definition get_checksum (f : string) : summing string :=
  s ← get;
  t ← lift (first_table (cachedata (ck_cache s)));
  cmtime ← cached_mtime f;
  match dget t f with
  | Some (mtime, hashval) =>
      if bool_decide (cmtime = mtime) then mret hashval
      else
        hashval ← lift (md5_file f);
        _ ← modify (λ s, MkChecksums (ck_mtimes s) (add_extra f (cmtime, hashval) (ck_cache s)));
        mret hashval
  | None =>
      hashval ← lift (md5_file f);
      _ ← modify (λ s, MkChecksums (ck_mtimes s) (add_extra f (cmtime, hashval) (ck_cache s)));
      mret hashval
  end.

(** [checksum_file]: none for a file that cannot be read. *)
Definition checksum_file (f : string) : summing (option string) :=
  catch (h ← get_checksum f; mret (Some h)) (λ e, bool_decide (e = FileNotFound) || bool_decide (e = OSError)) (λ _, mret None).

(** The files that have a checksum. *)
Definition checksum_each (files : list string) (acc : list (string * string)) : summing (list (string * string)) :=
  fold_state (λ acc f,
    h ← checksum_file f;
    mret (match h with Some h => if str_empty h then acc else acc ++ [(f, h)] | None => acc end)) acc files.

(** [os.walk] without the excluded directories; links are not followed. *)
Fixpoint walk (n : nat) (exclude : list string) (root : string) : res (list string) :=
  match n with
  | O => Raise RecursionError
  | S n =>
      let '(dirs, files) := scandir root in
      let dirs := List.filter (λ d, negb (bool_decide (d ∈ exclude))) dirs in
      below ← map_res (λ d, if islink (path_join root d) then Ok [] else walk n exclude (path_join root d)) dirs;
      Ok (List.map (path_join root) files ++ List.concat below)
  end.

Context (depth : nat).

Definition checksum_dir (exclude : list string) (pth : string) (acc : list (string * string)) : summing (list (string * string)) :=
  if String.eqb pth "/" then raise Fatal
  else files ← lift (walk depth exclude pth); checksum_each files acc.

(** A directory or file: a link to a directory is passed over. *)
Definition checksum_path (exclude : list string) (acc : list (string * string)) (f : string) : summing (list (string * string)) :=
  if isdir f then if islink f then mret acc else checksum_dir exclude f acc
  else checksum_each [f] acc.

(** One word of the list. *)
Definition checksum_word (exclude : list string) (acc : list (string * string)) (word : string) : summing (list (string * string)) :=
  match split_on ":" word with
  | pth :: there :: _ =>
      if String.eqb there "False" then mret acc
      else if char_in "*" pth then fold_state (checksum_path exclude) acc (glob pth)
      else checksum_path exclude acc pth
  | _ => raise IndexError
  end.

(** [checksums.sort(key=operator.itemgetter(1))] *)
Definition checksum_le (x y : string * string) : Prop := String.le x.2 y.2.
#[local] Instance checksum_le_dec x y : Decision (checksum_le x y) := decide (String.le x.2 y.2).

(** [get_checksums] *)
Definition get_checksums (filelist : string) (exclude : list string) : summing (list (string * string)) :=
  checksums ← fold_state (checksum_word exclude) [] (split_ws filelist);
  mret (merge_sort checksum_le checksums).
End checksums.

(** ** Merging *)

(** The newer of two entries, the first one when they are as old. *)
Definition newer (a b : option checksum_entry) : option checksum_entry :=
  match a, b with
  | Some x, Some y => if (x.1 <? y.1)%Z then Some y else Some x
  | None, _ => b
  | _, None => a
  end.

Lemma dget_newer_table d s h : dict_wf s → dget (newer_table d s) h = newer (dget d h) (dget s h).
Proof.
  unfold newer_table. revert d. induction s as [|[k v] s IH]; intros d Hwf; cbn [foldl fst snd].
  { by destruct (dget d h). }
  apply NoDup_cons in Hwf as [Hk Hwf]. cbn [fst] in Hk. rewrite IH by done. cbn [dget fst snd].
  destruct (decide (k = h)) as [->|Hne].
  - rewrite (proj2 (dget_None s h)) by exact Hk. destruct (dget d h) as [[t0 x]|] eqn:E; cbn [newer fst].
    + destruct (t0 <? v.1)%Z; [by rewrite dget_dset_eq|by rewrite E].
    + by rewrite dget_dset_eq.
  - f_equal. destruct (dget d k) as [[t0 x]|]; [destruct (t0 <? v.1)%Z|]; by rewrite ?dget_dset_ne.
Qed.

Lemma newest_none (a : option checksum_entry) l : foldl newer a l = None → a = None ∧ ∀ e, Some e ∉ l.
Proof.
  induction l as [|b l IH] using rev_ind; [cbn; intros ->; split; [done|]; by intros e ?%elem_of_nil|].
  rewrite foldl_app. cbn [foldl]. destruct (foldl newer a l) as [x|] eqn:E; cbn [newer].
  - destruct b as [y|]; [by destruct (x.1 <? y.1)%Z|done].
  - intros ->. destruct (IH eq_refl) as [-> IH']. split; [done|].
    intros e' [?|?%list_elem_of_singleton]%elem_of_app; [by apply (IH' e')|done].
Qed.

(** The newest of several. *)
Lemma newest_spec (a : option checksum_entry) l e :
  foldl newer a l = Some e → (a = Some e ∨ Some e ∈ l) ∧ (∀ e', a = Some e' ∨ Some e' ∈ l → (e'.1 <= e.1)%Z).
Proof.
  induction l as [|b l IH] using rev_ind in e |- *; [cbn; intros ->; split; [auto|]; intros e' [[= ->]|?%elem_of_nil]; [lia|done]|].
  rewrite foldl_app. cbn [foldl]. setoid_rewrite elem_of_app. setoid_rewrite list_elem_of_singleton.
  destruct (foldl newer a l) as [x|] eqn:E; cbn [newer].
  - destruct (IH x eq_refl) as [H1 H2]. destruct b as [y|]; [destruct (x.1 <? y.1)%Z eqn:Et|]; intros [= <-].
    + apply Z.ltb_lt in Et. split; [auto|]. intros e' [He|[He|[= ->]]]; [specialize (H2 e' (or_introl He))|specialize (H2 e' (or_intror He))|]; lia.
    + apply Z.ltb_ge in Et. split; [tauto|]. intros e' [He|[He|[= ->]]]; [apply H2; auto..|done].
    + split; [tauto|]. intros e' [He|[He|?]]; [apply H2; auto..|done].
  - apply newest_none in E as [-> Hn].
    intros ->. split; [auto|]. intros e' [?|[?|[= ->]]]; [done|by apply Hn in H|lia].
Qed.

Section newest.
Context (version : Z).

(** What a file of a process says of [h]. *)
Definition entry_in (dir : directory checksum_entry) (h f : string) : option checksum_entry :=
  match dget dir f with
  | Some (Stored [t] v) => if bool_decide (v = version) then dget t h else None
  | _ => None
  end.

(** The files of the processes of this version have one table each. *)
Definition tables_ok (dir : directory checksum_entry) : Prop := ∀ f data,
  dget dir f = Some (Stored data version) → ∃ t, data = [t] ∧ dict_wf t.

Lemma merge_file_newer t dir f :
  tables_ok dir → ∃ t', merge_file version merge_newer ([t], dir) f = Ok ([t'], ddel dir f) ∧
    ∀ h, dget t' h = newer (dget t h) (entry_in dir h f).
Proof.
  intros Hok. unfold merge_file, entry_in.
  assert (∀ h, dget t h = newer (dget t h) None) as Hsame by (intros h; by destruct (dget t h)).
  destruct (dget dir f) as [[data v|]|] eqn:E; [|by exists t..].
  destruct (decide (v = version)) as [->|Hv].
  - rewrite bool_decide_eq_true_2 by done. destruct (Hok f data E) as (t1 & -> & Hwf). exists (newer_table t t1). split; [done|].
    intros h. by rewrite dget_newer_table.
  - rewrite bool_decide_eq_false_2 by done. exists t. split; [done|]. intros h. destruct data as [|? []]; apply Hsame.
Qed.

Lemma ddel_get_ne (dir : directory checksum_entry) f g : g ≠ f → dget (ddel dir f) g = dget dir g.
Proof. intros. by apply dget_ddel_ne. Qed.

Lemma merge_files fs t dir :
  tables_ok dir → dict_wf dir → NoDup fs →
  ∃ t' dir', fold_res (merge_file version merge_newer) ([t], dir) fs = Ok ([t'], dir') ∧
    (∀ h, dget t' h = foldl newer (dget t h) (List.map (entry_in dir h) fs)) ∧
    (∀ f, dget dir' f = if bool_decide (f ∈ fs) then None else dget dir f).
Proof.
  revert t dir. induction fs as [|f fs IH]; intros t dir Hok Hwf Hnd; cbn [fold_res List.map foldl].
  { exists t, dir. split; [done|]. split; [done|]. intros f. by rewrite bool_decide_eq_false_2 by apply not_elem_of_nil. }
  apply NoDup_cons in Hnd as [Hf Hnd].
  destruct (merge_file_newer t dir f Hok) as (t1 & -> & Ht1). cbn [mbind res_bind].
  destruct (IH t1 (ddel dir f)) as (t' & dir' & -> & Ht & Hd); [|by apply ddel_wf|done|].
  { intros g data Hg. destruct (decide (g = f)) as [->|Hne]; [by rewrite dget_ddel_eq in Hg|]. rewrite ddel_get_ne in Hg by done. by eapply Hok. }
  exists t', dir'. split; [done|]. split.
  - intros h. rewrite Ht, Ht1. f_equal. apply list_fmap_ext. intros i g Hg. unfold entry_in. rewrite ddel_get_ne; [done|].
    intros ->. by apply list_elem_of_lookup_2 in Hg.
  - intros g. rewrite Hd. destruct (decide (g ∈ fs)) as [Hg|Hg].
    + rewrite !bool_decide_eq_true_2; [done|by apply list_elem_of_further|done].
    + rewrite (bool_decide_eq_false_2 (g ∈ fs)) by done. destruct (decide (g = f)) as [->|Hne].
      * rewrite bool_decide_eq_true_2 by apply list_elem_of_here. by apply dget_ddel_eq.
      * rewrite bool_decide_eq_false_2 by (rewrite elem_of_cons; tauto). by apply ddel_get_ne.
Qed.
End newest.


Definition merged_cache : shared_cache checksum_entry := MkSharedCache "sums" [[("/a", (3%Z, "x")); ("/b", (9%Z, "y"))]] [].
Definition merged_dir : directory checksum_entry :=
  [("sums-12", Stored [[("/a", (5%Z, "z")); ("/c", (1%Z, "w"))]] 1); ("sums.lock", Unreadable); ("sums-13", Unreadable);
   ("sums-14", Stored [] 0); ("sums-15", Stored [[("/b", (7%Z, "v")); ("/c", (2%Z, "u"))]] 1)].

