(* ===== verification/Layers.v ===== *)
(** * Layers and the recipes in them (bb/cooker.py)

    [handleCollections] reads the layers of the configuration and works out
    their priorities; [CookerCollectFiles] finds the recipe files and the files
    that append to them, in the order of these priorities. *)

From Stdlib Require Import Ascii String.
From S2P Require Import Prelude.
From S2P Require Import PyStr.
From S2P Require Import PyDict.
From S2P Require Import Versions.
From S2P Require Import Cache.
From S2P Require Import Providers.
From S2P Require Import RecipeFiles.

(** ** Sorting by a key

    [sorted] keeps the order of what it does not tell apart, also with
    [reverse=True]. *)

Section sort.
Context {A : Type} (before : A → A → bool).

Fixpoint insert_by (x : A) (l : list A) : list A :=
  match l with
  | [] => [x]
  | y :: l' => if before x y then x :: l else y :: insert_by x l'
  end.

Definition sort_by (l : list A) : list A := foldr insert_by [] l.
End sort.

(** [l.sort(key=key)] and [sorted(l, key=key, reverse=True)] *)
Definition sort_up {A} (key : A → Z) : list A → list A := sort_by (λ x y, (key x <=? key y)%Z).
Definition sort_down {A} (key : A → string) : list A → list A := sort_by (λ x y, negb (str_lt (key x) (key y))).

(** ** Layers *)

(** An entry of [bbfile_config_priorities]: the layer, its pattern, the
    pattern of the compiled expression and the priority. *)
Record layer : Type := MkLayer {
  ly_name : string;
  ly_pattern : string;
  ly_cre : string;
  ly_pri : Z
}.

(** The local variables of the first loop of [handleCollections]; [prio] is
    unbound until a priority is read. *)
Record collecting : Type := MkCollecting {
  hc_errors : bool;
  hc_prio : option Z;
  hc_min : Z;
  collection_priorities : dict (option Z);
  collection_depends : dict (list (option string))
}.

Definition set_errors (h : collecting) : collecting :=
  MkCollecting true (hc_prio h) (hc_min h) (collection_priorities h) (collection_depends h).

(** [not v] for a number or None. *)
Definition no_priority (v : option Z) : bool := match v with None => true | Some z => (z =? 0)%Z end.

Section layers.
Context {D : Type} `{DataStore D} (data : D).
(** Python's regular expressions, by their patterns. *)
Context (re_compile : string → option (string → bool)).
(** The limit of the interpreter's stack. *)
Context (depth : nat).

(** The explicit priority of [c]. *)
Definition read_priority (h : collecting) (c : string) : res collecting :=
  priority ← ds_getVar data ("BBFILE_PRIORITY_" +s+ c);
  match priority with
  | Some (String _ _ as v) =>
      let '(prio, errors) := match py_int v with Ok z => (Some z, hc_errors h) | Raise _ => (hc_prio h, true) end in
      z ← of_option NameError prio;
      let m := if (hc_min h =? 0)%Z || (z <? hc_min h)%Z then z else hc_min h in
      Ok (MkCollecting errors prio m (dset (collection_priorities h) c (Some z)) (collection_depends h))
  | _ => Ok (MkCollecting (hc_errors h) (hc_prio h) (hc_min h) (dset (collection_priorities h) c None) (collection_depends h))
  end.

(** [except VersionStringException: bb.fatal] *)
Definition fatal_version {A} (r : res A) : res A :=
  match r with Raise VersionStringException => Raise Fatal | r => r end.

(** [(op, ver) = opstr.split()] *)
Definition split_op (opstr : string) : res (string * string) :=
  match split_ws opstr with [op; ver] => Ok (op, ver) | _ => Raise ValueError end.

(** One version a layer depends on; the result says whether it is there. *)
Definition check_version (dep opstr : string) : res bool :=
  layerver ← ds_getVar data ("LAYERVERSION_" +s+ dep);
  '(op, depver) ← split_op opstr;
  match layerver with
  | Some (String _ _ as v) => fatal_version (vercmp_string_op v depver op)
  | _ => Ok false
  end.

Definition check_depend (collection_list : list string) (ok : bool) (d : option string * list string) : res bool :=
  match d.1 with
  | Some dep =>
      if bool_decide (dep ∈ collection_list)
      then fold_res (λ ok opstr, b ← check_version dep opstr; Ok (ok && b)) ok d.2
      else Ok false
  | None => Ok false
  end.

Definition read_depends (collection_list : list string) (h : collecting) (c : string) : res collecting :=
  deps ← ds_getVar data ("LAYERDEPENDS_" +s+ c);
  match deps with
  | Some (String _ _ as v) =>
      depDict ← fatal_version (explode_dep_versions2 v true);
      ok ← fold_res (check_depend collection_list) true depDict;
      Ok (MkCollecting (hc_errors h || negb ok) (hc_prio h) (hc_min h) (collection_priorities h)
            (dset (collection_depends h) c (dkeys depDict)))
  | _ => Ok (MkCollecting (hc_errors h) (hc_prio h) (hc_min h) (collection_priorities h) (dset (collection_depends h) c []))
  end.

(** Whether a recommended layer is one to depend on. *)
Definition check_recommend (collection_list : list string) (d : option string * list string) : res bool :=
  match d.1 with
  | Some rec =>
      if bool_decide (rec ∈ collection_list) then
        match d.2 with
        | [] => Ok true
        | opstr :: _ =>
            layerver ← ds_getVar data ("LAYERVERSION_" +s+ rec);
            match layerver with
            | Some (String _ _ as v) =>
                '(op, recver) ← split_op opstr;
                fatal_version (vercmp_string_op v recver op)
            | _ => Ok false
            end
        end
      else Ok false
  | None => Ok false
  end.

Definition read_recommends (collection_list : list string) (h : collecting) (c : string) : res collecting :=
  recs ← ds_getVar data ("LAYERRECOMMENDS_" +s+ c);
  match recs with
  | Some (String _ _ as v) =>
      recDict ← fatal_version (explode_dep_versions2 v true);
      depends ← fold_res (λ depends d,
        b ← check_recommend collection_list d;
        Ok (if (b : bool) then dset depends c (default [] (dget depends c) ++ [d.1]) else depends))
        (collection_depends h) recDict;
      Ok (MkCollecting (hc_errors h) (hc_prio h) (hc_min h) (collection_priorities h) depends)
  | _ => Ok h
  end.

Definition read_collection (collection_list : list string) (h : collecting) (c : string) : res collecting :=
  h ← read_priority h c;
  h ← read_depends collection_list h c;
  read_recommends collection_list h c.

(** The priorities, worked out by recursion over the dependencies. *)
Fixpoint calc_layer_priority (min_prio : Z) (depends : dict (list (option string))) (n : nat)
    (collection : option string) : M (dict (option Z)) unit :=
  match n with
  | O => raise RecursionError
  | S n =>
      ps ← get;
      c ← lift (of_option KeyError collection);
      p ← lift (of_option KeyError (dget ps c));
      if no_priority p then
        deps ← lift (of_option KeyError (dget depends c));
        m ← fold_state (λ m dep,
          _ ← calc_layer_priority min_prio depends n dep;
          ps ← get;
          depprio ← lift (of_option KeyError (dep ≫= dget ps));
          z ← lift (of_option TypeError depprio);
          mret (if (m <? z)%Z then z else m)) min_prio deps;
        modify (λ ps, dset ps c (Some (m + 1)%Z))
      else mret tt
  end.

(** The pattern of one layer; [errors] is set, cleared or kept. *)
Definition read_pattern (c : string) (errors : bool) : res (option (string * string) * bool) :=
  regex ← ds_getVar data ("BBFILE_PATTERN_" +s+ c);
  match regex with
  | None => Ok (None, true)
  | Some "" => Ok (Some ("", "^NULL$"), false)
  | Some p => Ok (match re_compile p with Some _ => (Some (p, p), errors) | None => (None, true) end)
  end.

(** One layer of the second loop. *)
Definition add_layer (h : collecting) (acc : list layer * bool) (c : string) : M (dict (option Z)) (list layer * bool) :=
  let '(layers, errors) := acc in
  _ ← calc_layer_priority (hc_min h) (collection_depends h) depth (Some c);
  '(pattern, errors) ← lift (read_pattern c errors);
  match pattern with
  | None => mret (layers, errors)
  | Some (regex, cre) =>
      ps ← get;
      p ← lift (of_option KeyError (dget ps c));
      z ← lift (of_option TypeError p);
      mret (layers ++ [MkLayer c regex cre z], errors)
  end.

(** [handleCollections]: the new [bbfile_config_priorities]. *)
Definition handleCollections (collections : option string) : res (list layer) :=
  match collections with
  | Some (String _ _ as v) =>
      let collection_list := split_ws v in
      h ← fold_res (read_collection collection_list) (MkCollecting false None 0 [] []) collection_list;
      '(layers, errors) ← (fold_state (add_layer h) ([], hc_errors h) collection_list (collection_priorities h)).2;
      if (errors : bool) then Raise CollectionError else Ok layers
  | _ => Ok []
  end.
End layers.

(** ** Files *)

(** What the code asks of the file system; [os_walk] gives the directories
    below one with the names of their files, without those named SCCS, CVS and
    .svn. *)
Record file_env : Type := FileEnv {
  getcwd : string;
  listdir : string → list string;
  isdir : string → bool;
  isfile : string → bool;
  path_exists : string → bool;
  glob : string → list string;
  os_walk : string → list (string * list string)
}.

Record collector : Type := MkCollector {
  bbfile_config_priorities : list layer;
  bbappends : list (string * string);
  overlayed : dict (list string)
}.

(** [CookerCollectFiles.__init__] *)
Definition new_collector (priorities : list layer) : collector :=
  MkCollector (sort_down ly_pattern priorities) [] [].

Section collect.
Context `{!SetOrder string}.
(** Regular expressions by their patterns: [re.match] and [re.search]. *)
Context (re_compile re_search : string → option (string → bool)) (env : file_env).

Definition re_match (cre filename : string) : bool :=
  match re_compile cre with Some m => m filename | None => false end.

Fixpoint first_match (filename : string) (l : list layer) : Z * option string :=
  match l with
  | [] => (0%Z, None)
  | ly :: l => if re_match (ly_cre ly) filename then (ly_pri ly, Some (ly_cre ly)) else first_match filename l
  end.

Definition calc_bbfile_priority (cl : collector) (filename : string) : Z * option string :=
  first_match filename (bbfile_config_priorities cl).

Definition get_bbfiles : list string :=
  List.map (λ f, abspath (getcwd env) (path_join (getcwd env) f))
    (List.filter (λ f, endswith f ".bb") (listdir env (getcwd env))).

(** [f.endswith] is given a list. *)
Definition find_bbfiles (path : string) : res (list string) :=
  fold_res (λ found d, match d.2 with [] => Ok found | _ => Raise TypeError end) [] (os_walk env path).

(** [if g not in newfiles: newfiles.append(g)] *)
Definition add_files (newfiles l : list string) : list string := foldl append_new newfiles l.

(** One word of BBFILES. *)
Definition expand_file (newfiles : list string) (f : string) : res (list string) :=
  if isdir env f then
    dirfiles ← find_bbfiles f;
    Ok (add_files newfiles dirfiles)
  else
    let globbed := match glob env f with [] => if path_exists env f then [f] else [] | l => l end in
    Ok (add_files newfiles (py_sorted globbed)).

(** The compiled BBMASK; [None] masks nothing. *)
Definition compile_mask (bbmask : option string) : option (string → bool) :=
  match bbmask with
  | Some (String _ _ as v) =>
      let masks := List.map (λ mask, if startswith mask "|" then str_drop 1 mask else mask) (split_ws v) in
      let good := List.filter (λ mask, match re_search mask with Some _ => true | None => false end) masks in
      let mask := join "|" good in
      if str_empty mask then None else re_search mask
  | _ => None
  end.

Definition masked_by (mask : option (string → bool)) (f : string) : bool :=
  match mask with Some m => m f | None => false end.

(** [(os.path.basename(f).replace('.bbappend', '.bb'), f)] *)
Definition append_entry (f : string) : string * string := (replace (path_basename f) ".bbappend" ".bb", f).

(** One recipe file, from the last to the first: [bbfile_seen] and
    [overlayed]. *)
Definition overlay_step (acc : dict string * dict (list string)) (f : string) : dict string * dict (list string) :=
  let base := path_basename f in
  match dget acc.1 base with
  | None => (dset acc.1 base f, acc.2)
  | Some topfile => (acc.1, dset acc.2 topfile (default [] (dget acc.2 topfile) ++ [f]))
  end.

(** [collect_bbfiles] for the values of BBFILES and BBMASK: the recipe files
    and the number of masked ones, with the value of BBFILES_PRIORITIZED.  The
    directories searched are only watched. *)
Definition collect_bbfiles (cl : collector) (BBFILES BBMASK : option string) :
    res (collector * list string * nat * string) :=
  let files := sort_up (λ f, (calc_bbfile_priority cl f).1) (split_ws (default "" BBFILES)) in
  let prioritized := join " " files in
  let files := match files with [] => get_bbfiles | _ => files end in
  newfiles ← fold_res expand_file [] files;
  let mask := compile_mask BBMASK in
  let masked := List.filter (masked_by mask) newfiles in
  let kept := List.filter (λ f, negb (masked_by mask f)) newfiles in
  let bbfiles := List.filter (λ f, endswith f ".bb") kept in
  let bbappend := List.filter (λ f, negb (endswith f ".bb") && endswith f ".bbappend") kept in
  let '(_, over) := foldl overlay_step ([], []) (rev bbfiles) in
  Ok (MkCollector (bbfile_config_priorities cl) (bbappends cl ++ List.map append_entry bbappend) over,
      bbfiles, List.length masked, prioritized).

(** [s.index(c)] where [c] is in [s] *)
Definition index_of (c : char) (s : string) : nat := String.length (span (λ a, negb (Ascii.eqb a c)) s).1.

Definition append_applies (bbappend f : string) : bool :=
  String.eqb bbappend f ||
  (char_in "%" bbappend && startswith bbappend (str_take (index_of "%" bbappend) f)).

Definition get_file_appends (cl : collector) (fn : string) : list string :=
  let f := path_basename fn in
  List.map snd (List.filter (λ b, append_applies b.1 f) (bbappends cl)).

(** *** Which layers have recipes *)

Record matching : Type := MkMatching {
  mt_priorities : dict Z;
  mt_seen : gset string;
  mt_matched : gset string;
  mt_matched_regex : gset string;
  mt_unmatched_regex : gset string
}.

Definition match_file (cl : collector) (m : matching) (p : string) : matching :=
  let realfn := (virtualfn2realfn p).1.1 in
  let '(pri, regex) := calc_bbfile_priority cl realfn in
  let unmatched := match regex with Some r => mt_unmatched_regex m ∖ {[r]} | None => mt_unmatched_regex m end in
  let matched_regex := match regex with
    | Some r => if bool_decide (r ∈ mt_unmatched_regex m) then {[r]} ∪ mt_matched_regex m else mt_matched_regex m
    | None => mt_matched_regex m
    end in
  MkMatching (dset (mt_priorities m) p pri) ({[realfn]} ∪ mt_seen m)
    (match regex with Some _ => {[realfn]} ∪ mt_matched m | None => mt_matched m end) matched_regex unmatched.

Definition already_matched (m : matching) (fn : string) : bool :=
  existsb (λ regex, re_match regex fn) (set_iter (mt_matched_regex m)).

(** The expressions for which there is no file at all, also none that is
    skipped or appends. *)
Definition still_unmatched (cl : collector) (fns : list string) (m : matching) : gset string :=
  if bool_decide (mt_unmatched_regex m = ∅) then ∅
  else
    let seen := (mt_seen m ∪ list_to_set (List.map snd (bbappends cl)) ∪ list_to_set fns) ∖ mt_matched m in
    list_to_set (List.filter (λ unmatch,
      negb (existsb (λ fn, re_match unmatch fn && negb (already_matched m fn)) (set_iter seen)))
      (set_iter (mt_unmatched_regex m))).

(** [CookerCollectFiles.collection_priorities]: the priorities of the files
    and the layers and patterns it warns of. *)
Definition file_priorities {D} `{DataStore D} (d : D) (cl : collector) (pkgfns fns : list string) :
    res (dict Z * list (string * string)) :=
  let m := foldl (match_file cl)
    (MkMatching [] ∅ ∅ ∅ (list_to_set (List.map ly_cre (bbfile_config_priorities cl)))) pkgfns in
  let unmatched := still_unmatched cl fns m in
  warned ← fold_res (λ acc ly,
    if bool_decide (ly_cre ly ∈ unmatched) then
      v ← ds_getVar d ("BBFILE_PATTERN_IGNORE_EMPTY_" +s+ ly_name ly);
      Ok (if bool_decide (v = Some "1") then acc else acc ++ [(ly_name ly, ly_pattern ly)])
    else Ok acc) [] (bbfile_config_priorities cl);
  Ok (mt_priorities m, warned).

(** ** The cooker *)

(** The files of [bbappends] that apply to no recipe of the configuration. *)
Definition appends_without_recipes (skipped : list string) (c : CacheData) (cl : collector) : list string :=
  let applied := List.concat (List.map (get_file_appends cl) (dkeys (pkg_fn c) ++ skipped)) in
  List.filter (λ f, bool_decide (f ∉ applied)) (List.map snd (bbappends cl)).

(** [matchFiles] and [matchFile], for a collector that is made for them. *)
Definition matchFiles (priorities : list layer) (BBFILES BBMASK : option string) (bf : string) :
    res (list string) :=
  let bf := if startswith bf "/" || startswith bf "../" then abspath (getcwd env) bf else bf in
  '(_, filelist, _, _) ← collect_bbfiles (new_collector priorities) BBFILES BBMASK;
  if path_exists env bf then Ok [abspath (getcwd env) bf]
  else
    regexp ← of_option ReError (re_search bf);
    Ok (List.filter (λ f, (regexp f : bool) && isfile env f) filelist).

Definition matchFile (priorities : list layer) (BBFILES BBMASK : option string) (buildfile : string) : res string :=
  matches ← matchFiles priorities BBFILES BBMASK buildfile;
  match matches with [f] => Ok f | _ => Raise NoSpecificMatch end.
End collect.

(** [handlePrefProviders], for the configuration of one recipe cache. *)
Definition prefer_provider (c : CacheData) (p : string) : CacheData :=
  match split_on ":" p with
  | [providee; provider] => set_preferred c (dset (preferred c) providee provider)
  | _ => c
  end.

Definition handlePrefProviders {D} `{DataStore D} (localdata : D) (c : CacheData) : res CacheData :=
  v ← ds_getVar localdata "PREFERRED_PROVIDERS";
  Ok (foldl prefer_provider c (split_ws (default "" v))).
