(* ===== verification/LayersOk.v ===== *)
(** * Layers are ranked, and the best recipe wins (bb/cooker.py)

    A layer without a priority of its own comes above all it depends on; of the
    recipe files of one name, the one found through the layer of the highest
    priority is used and all others are overlayed. *)

From Stdlib Require Import Ascii String.
From S2P Require Import Prelude.
From S2P Require Import PyStr.
From S2P Require Import PyDict.
From S2P Require Import Runs.
From S2P Require Import Versions.
From S2P Require Import Cache.
From S2P Require Import Providers.
From S2P Require Import RecipeFiles.
From S2P Require Import Layers.

(** ** The priorities of layers *)

Section priorities.
(** The priorities that are set, what the layers depend on, and the least
    priority. *)
Context (ps0 : dict (option Z)) (depends : dict (list (option string))) (min_prio : Z).

(** The priority a layer should have: its own, or one more than the highest of
    what it depends on and of the least of all.  [max_pri m deps m']: [m'] is
    the highest of [m] and the priorities of [deps]. *)
Inductive has_pri : string → Z → Prop :=
  | pri_own c z : dget ps0 c = Some (Some z) → z ≠ 0%Z → has_pri c z
  | pri_above c p deps m :
      dget ps0 c = Some p → no_priority p = true → dget depends c = Some deps →
      max_pri min_prio deps m → has_pri c (m + 1)%Z
with max_pri : Z → list (option string) → Z → Prop :=
  | max_none m : max_pri m [] m
  | max_one m d z deps m' : has_pri d z → max_pri (Z.max m z) deps m' → max_pri m (Some d :: deps) m'.

Scheme has_pri_ind' := Minimality for has_pri Sort Prop
with max_pri_ind' := Minimality for max_pri Sort Prop.
Combined Scheme pri_ind from has_pri_ind', max_pri_ind'.

Lemma pri_unique :
  (∀ c z, has_pri c z → ∀ z', has_pri c z' → z = z') ∧
  (∀ m deps m1, max_pri m deps m1 → ∀ m2, max_pri m deps m2 → m1 = m2).
Proof.
  apply pri_ind.
  - intros c z H1 Hz z' H2. inversion H2 as [? ? H3|? p deps m H3 Hp]; subst; [congruence|].
    rewrite H1 in H3. injection H3 as <-. cbn in Hp. apply Z.eqb_eq in Hp. done.
  - intros c p deps m H1 Hp Hd _ IH z' H2. inversion H2 as [? ? H3 Hz|? p' deps' m' H3 Hp' Hd' Hm']; subst.
    + rewrite H1 in H3. injection H3 as ->. cbn in Hp. by apply Z.eqb_eq in Hp.
    + rewrite Hd in Hd'. injection Hd' as <-. by rewrite (IH m').
  - intros m m2 H. by inversion H.
  - intros m d z deps m' _ IH1 _ IH2 m2 H. inversion H as [|? ? z2 ? ? Hz Hm]; subst.
    apply IH2. by rewrite (IH1 z2).
Qed.

Lemma max_pri_above m deps m' : max_pri m deps m' →
  (m ≤ m')%Z ∧ ∀ d, Some d ∈ deps → ∃ z, has_pri d z ∧ (z ≤ m')%Z.
Proof.
  induction 1 as [m|m d z deps m' Hz _ [IH1 IH2]]; [split; [done|by intros ? ?%elem_of_nil]|].
  split; [lia|]. intros d' [[= ->]|Hin]%elem_of_cons; [exists z; split; [done|lia]|by apply IH2].
Qed.

(** While the priorities are worked out: each is as it was or as it should be. *)
Definition some_known (ps : dict (option Z)) : Prop := ∀ c,
  dget ps c = dget ps0 c ∨ ∃ z, dget ps c = Some (Some z) ∧ has_pri c z.

Definition known (c : string) (z : Z) (ps : dict (option Z)) : Prop := dget ps c = Some (Some z) ∧ has_pri c z.

Definition more_known (ps ps' : dict (option Z)) : Prop := ∀ c z, known c z ps → known c z ps'.

#[local] Instance more_known_preorder : PreOrder more_known.
Proof. split; [by intros ps c z|]. intros ps1 ps2 ps3 H1 H2 c z Hk. by apply H2, H1. Qed.

Lemma more_known_write c z ps : has_pri c z → more_known ps (dset ps c (Some z)).
Proof.
  intros Hz c' z' [Hd Hp]. split; [|done]. rewrite dget_dset. case_decide; [|done]. subst c'.
  by rewrite (proj1 pri_unique c z Hz z' Hp).
Qed.

Lemma calc_known n c ps : some_known ps →
  returns ps (calc_layer_priority min_prio depends n c)
    (λ _ ps', some_known ps' ∧ more_known ps ps' ∧ ∃ d z, c = Some d ∧ known d z ps').
Proof.
  revert c ps. induction n as [|n IH]; intros c ps HI; cbn [calc_layer_priority]; [done|].
  apply returns_get. apply returns_lift_bind. intros d Ed.
  assert (c = Some d) as -> by (destruct c; [by injection Ed as ->|done]). clear Ed.
  apply returns_lift_bind. intros p Ep. assert (dget ps d = Some p) as Hp by (destruct (dget ps d); [by injection Ep as ->|done]).
  destruct (no_priority p) eqn:En.
  2:{ apply returns_ret. split; [done|]. split; [done|]. destruct p as [z|]; [|done]. exists d, z. split; [done|].
      split; [done|]. destruct (HI d) as [Hd|(z' & Hz' & Hh)].
      - apply pri_own; [congruence|]. cbn in En. by apply Z.eqb_neq in En.
      - congruence. }
  apply returns_lift_bind. intros deps Edeps.
  assert (dget depends d = Some deps) as Hdeps by (destruct (dget depends d); [by injection Edeps as ->|done]).
  apply (returns_bind _ _ _ (λ m ps', some_known ps' ∧ more_known ps ps' ∧ max_pri min_prio deps m)).
  - pose proof (returns_fold_list (λ l m ps', some_known ps' ∧ more_known ps ps' ∧
      ∀ m', max_pri m l m' → max_pri min_prio deps m') ps min_prio deps
      (λ m dep, _ ← calc_layer_priority min_prio depends n dep;
        ps ← get;
        depprio ← lift (of_option KeyError (dep ≫= dget ps));
        z ← lift (of_option TypeError depprio);
        mret (if (m <? z)%Z then z else m))) as Hf.
    eapply returns_mono; [apply Hf|].
    + done.
    + intros m dep l ps1 (HI1 & Hg1 & Hm). eapply returns_bind; [by apply IH|].
      intros [] ps2 (HI2 & Hg2 & d' & z & -> & Hz & Hh). apply returns_get. cbn [mbind option_bind]. rewrite Hz.
      apply returns_lift_bind. intros ? [= <-]. apply returns_lift_bind. intros ? [= <-]. apply returns_ret.
      split; [done|]. split; [by etrans|]. intros m' Hm'. apply Hm. eapply max_one; [done|].
      replace (Z.max m z) with (if (m <? z)%Z then z else m); [done|]. destruct (Z.ltb_spec m z); lia.
    + intros m ps' (H1 & H2 & H3). split; [done|]. split; [done|]. apply H3. constructor.
  - intros m ps1 (HI1 & Hg1 & Hm).
    assert (has_pri d (m + 1)%Z) as Hh.
    { destruct (HI d) as [Hd|(z & Hz & Hh)].
      - eapply pri_above; [by rewrite <-Hd|done..].
      - rewrite Hp in Hz. injection Hz as ->. inversion Hh as [? ? H3 Hz|? p' deps' m' H3 Hp' Hd' Hm']; subst.
        + cbn in En. by apply Z.eqb_eq in En.
        + exact (pri_above d p' deps m H3 Hp' Hdeps Hm). }
    unfold returns. cbn. split; [|split].
    + intros c. rewrite dget_dset. case_decide as Hc; [|apply HI1]. subst c. right. eauto.
    + etrans; [exact Hg1|]. by apply more_known_write.
    + exists d, (m + 1)%Z. split; [done|]. split; [|done]. rewrite dget_dset. by rewrite decide_True.
Qed.

(** It ends well where the layers without a priority can be ranked, with what
    they depend on below them. *)
Definition ranked (rank : string → nat) : Prop := ∀ c p,
  dget ps0 c = Some p → no_priority p = true →
  ∃ deps, dget depends c = Some deps ∧ ∀ dep, dep ∈ deps → ∃ d, dep = Some d ∧ is_Some (dget ps0 d) ∧ rank d < rank c.

Lemma calc_returns rank n c ps : ranked rank → some_known ps → is_Some (dget ps0 c) → rank c < n →
  ∃ ps' z, calc_layer_priority min_prio depends n (Some c) ps = (ps', Ok tt) ∧
    some_known ps' ∧ more_known ps ps' ∧ known c z ps'.
Proof.
  intros Hr. revert c ps. induction n as [|n IH]; intros c ps HI Hc Hn; [lia|].
  enough (∃ ps', calc_layer_priority min_prio depends (S n) (Some c) ps = (ps', Ok tt)) as [ps' E].
  { pose proof (calc_known (S n) (Some c) ps HI) as Hk. unfold returns in Hk. rewrite E in Hk.
    destruct Hk as (H1 & H2 & d & z & [= <-] & H3). by exists ps', z. }
  cbn [calc_layer_priority]. rewrite get_bind, !lift_bind. cbn [of_option].
  destruct Hc as [p0 Hp0].
  assert (∃ p, dget ps c = Some p) as [p Hp] by (destruct (HI c) as [Hd|(z & Hz & _)]; [rewrite Hd, Hp0|]; eauto).
  rewrite lift_bind, Hp. cbn [of_option]. destruct (no_priority p) eqn:En; [|by eexists].
  assert (no_priority p0 = true) as En0.
  { destruct (HI c) as [Hd|(z & Hz & Hh)]; [congruence|]. rewrite Hp in Hz. injection Hz as ->.
    inversion Hh as [? ? H3 Hz|? p' deps' m' H3 Hp']; subst; [|congruence]. cbn in En. by apply Z.eqb_eq in En. }
  destruct (Hr c p0 Hp0 En0) as (deps & Hdeps & Hall). rewrite lift_bind, Hdeps. cbn [of_option].
  rewrite M_bind_eq.
  match goal with |- context [fold_state ?f min_prio deps ps] => assert (∀ l m ps, (∀ dep, dep ∈ l → dep ∈ deps) → some_known ps →
    ∃ m' ps', fold_state f m l ps = (ps', Ok m')) as Hf end.
  { clear -IH Hall Hn. induction l as [|dep l IHl]; intros m ps Hl HI; cbn [fold_state]; [by eexists _, _|].
    destruct (Hall dep (Hl dep (list_elem_of_here _ _))) as (d & -> & Hd & Hlt).
    destruct (IH d ps HI Hd ltac:(lia)) as (ps1 & z & E & HI1 & _ & Hz & _).
    rewrite !M_bind_eq, E, get_bind. cbn [mbind option_bind]. rewrite lift_bind. rewrite Hz. cbn [of_option]. rewrite lift_bind.
    cbn [of_option mret M_ret]. apply IHl; [|done]. intros. apply Hl. by apply list_elem_of_further. }
  destruct (Hf deps min_prio ps (λ _ H, H) HI) as (m' & ps' & ->). cbn. by eexists.
Qed.
End priorities.

(** ** [handleCollections] *)

Section collections.
Context {D : Type} `{DataStore D} (data : D).
Context (re_compile : string → option (string → bool)) (depth : nat).

(** The priorities that the first loop found, and those that follow. *)
Abbreviation layer_pri h := (has_pri (collection_priorities h) (collection_depends h) (hc_min h)).

Lemma add_layer_known h acc c ps :
  some_known (collection_priorities h) (collection_depends h) (hc_min h) ps →
  returns ps (add_layer data re_compile depth h acc c) (λ acc' ps',
    some_known (collection_priorities h) (collection_depends h) (hc_min h) ps' ∧
    ∃ l, acc'.1 = acc.1 ++ l ∧ List.map ly_name l `sublist_of` [c] ∧ ∀ ly, ly ∈ l → layer_pri h (ly_name ly) (ly_pri ly)).
Proof.
  intros HI. destruct acc as [layers errors]. unfold add_layer.
  eapply returns_bind; [by apply calc_known|]. intros [] ps1 (HI1 & _ & d & z & [= <-] & Hz & Hp).
  apply returns_lift_bind. intros [pattern errors'] _. destruct pattern as [[regex cre]|].
  - apply returns_get. rewrite Hz. apply returns_lift_bind. intros ? [= <-]. apply returns_lift_bind. intros ? [= <-].
    apply returns_ret. split; [done|]. exists [MkLayer c regex cre z]. split; [done|]. split; [done|].
    by intros ly ->%list_elem_of_singleton.
  - apply returns_ret. split; [done|]. exists []. split; [by rewrite app_nil_r|]. split; [apply sublist_nil_l|].
    by intros ? ?%elem_of_nil.
Qed.

End collections.

(** ** Sorting *)

Section sort.
Context {A : Type} (before : A → A → bool).

Lemma insert_by_perm x l : insert_by before x l ≡ₚ x :: l.
Proof.
  induction l as [|y l IH]; cbn [insert_by]; [done|]. destruct (before x y); [done|]. rewrite IH. constructor.
Qed.

Lemma sort_by_perm l : sort_by before l ≡ₚ l.
Proof. induction l as [|x l IH]; [done|]. cbn. by rewrite insert_by_perm, IH. Qed.

Lemma elem_of_sort_by x l : x ∈ sort_by before l ↔ x ∈ l.
Proof. by rewrite sort_by_perm. Qed.

Lemma sort_by_sorted l :
  (∀ x y, before x y = true ∨ before y x = true) →
  (∀ x y z, before x y = true → before y z = true → before x z = true) →
  StronglySorted (λ x y, before x y = true) (sort_by before l).
Proof.
  intros Htot Htr. induction l as [|x l IH]; [constructor|]. change (sort_by before (x :: l)) with (insert_by before x (sort_by before l)).
  revert IH. generalize (sort_by before l) as k. intros k. induction 1 as [|y k Hk IHk Hy]; cbn; [by constructor; constructor|].
  destruct (before x y) eqn:E.
  - constructor; [by constructor|]. constructor; [done|]. eapply Forall_impl; [exact Hy|]. intros z. by apply Htr.
  - constructor; [done|]. rewrite insert_by_perm. constructor; [|done]. destruct (Htot x y); [congruence|done].
Qed.

(** What it does not tell apart stays in order. *)
Lemma sort_by_stable (p : A → bool) l :
  (∀ x y, p x = true → p y = true → before x y = true) →
  List.filter p (sort_by before l) = List.filter p l.
Proof.
  intros Hp. induction l as [|x l IH]; [done|].
  change (sort_by before (x :: l)) with (insert_by before x (sort_by before l)). cbn [List.filter]. destruct (p x) eqn:Ex.
  - rewrite <-IH. generalize (sort_by before l) as k. clear IH. induction k as [|y k IHk]; cbn; [by rewrite Ex|].
    destruct (before x y) eqn:E; cbn; [by rewrite Ex|]. destruct (p y) eqn:Ey; [|done].
    rewrite (Hp x y Ex Ey) in E. done.
  - rewrite <-IH. generalize (sort_by before l) as k. clear IH. induction k as [|y k IHk]; cbn; [by rewrite Ex|].
    destruct (before x y) eqn:E; cbn; [by rewrite Ex|]. destruct (p y); by rewrite IHk.
Qed.
End sort.

Lemma sort_up_sorted {A} (key : A → Z) l : StronglySorted (λ x y, (key x ≤ key y)%Z) (sort_up key l).
Proof.
  assert (StronglySorted (λ x y, (key x <=? key y)%Z = true) (sort_up key l)) as Hs.
  { apply sort_by_sorted; intros; rewrite !Z.leb_le in *; lia. }
  induction Hs as [|x k _ IH Hx]; constructor; [done|]. eapply Forall_impl; [exact Hx|]. intros y. apply Z.leb_le.
Qed.

Lemma str_ge_spec s1 s2 : negb (str_lt s1 s2) = true ↔ s1 = s2 ∨ String.compare s2 s1 = Lt.
Proof.
  rewrite negb_true_iff. unfold str_lt, String.ltb. rewrite (String.compare_antisym s1 s2).
  destruct (String.compare s2 s1) eqn:E; cbn; [|by split; [right|]|].
  - apply String.compare_eq_iff in E as ->. tauto.
  - split; [done|]. intros [->|?]; [|done]. by rewrite string_compare_refl in E.
Qed.

Lemma sort_down_sorted {A} (key : A → string) l :
  StronglySorted (λ x y, negb (str_lt (key x) (key y)) = true) (sort_down key l).
Proof.
  apply sort_by_sorted.
  - intros x y. rewrite !str_ge_spec, (String.compare_antisym (key y) (key x)).
    destruct (String.compare (key x) (key y)) eqn:E; cbn; [|tauto..].
    apply String.compare_eq_iff in E. tauto.
  - intros x y z. rewrite !str_ge_spec. intros [->|H1] [H2|H2]; [by left|by right| |].
    + right. by rewrite <-H2.
    + right. by eapply string_compare_lt_trans.
Qed.

Lemma compare_longer s t : t ≠ "" → String.compare s (s +s+ t) = Lt.
Proof.
  intros Ht. induction s as [|a s IH]; cbn; [by destruct t|]. unfold Ascii.compare. by rewrite N.compare_refl.
Qed.

(** ** The layer of a file *)

Lemma first_match_spec re_compile f l (R : layer → layer → Prop) : StronglySorted R l →
  (first_match re_compile f l = (0%Z, None) ∧ ∀ ly, ly ∈ l → re_match re_compile (ly_cre ly) f = false) ∨
  ∃ ly, ly ∈ l ∧ re_match re_compile (ly_cre ly) f = true ∧ first_match re_compile f l = (ly_pri ly, Some (ly_cre ly)) ∧
    ∀ ly', ly' ∈ l → re_match re_compile (ly_cre ly') f = true → ly' = ly ∨ R ly ly'.
Proof.
  induction 1 as [|x l Hs IH Hx]; cbn [first_match]; [left; split; [done|]; by intros ? ?%not_elem_of_nil|].
  destruct (re_match re_compile (ly_cre x) f) eqn:E.
  - right. exists x. split; [by left|]. do 2 (split; [done|]). intros y [->|Hy]%elem_of_cons _; [by left|right].
    rewrite Forall_forall in Hx. by apply Hx.
  - destruct IH as [[-> Hn]|(ly & Hin & Hm & -> & Hall)].
    + left. split; [done|]. by intros y [->|Hy]%elem_of_cons; [|apply Hn].
    + right. exists ly. split; [by right|]. do 2 (split; [done|]). intros y [->|Hy]%elem_of_cons Hmy; [congruence|by apply Hall].
Qed.

(** A file has the priority of the innermost layer it is in: where layers
    match its name, it is that of a matching layer whose pattern no other
    matching one extends; and no layer matches it where it has none. *)
Theorem innermost_layer re_compile priorities f :
  match calc_bbfile_priority re_compile (new_collector priorities) f with
  | (pri, None) => pri = 0%Z ∧ ∀ ly, ly ∈ priorities → re_match re_compile (ly_cre ly) f = false
  | (pri, Some cre) => ∃ ly, ly ∈ priorities ∧ pri = ly_pri ly ∧ cre = ly_cre ly ∧ re_match re_compile cre f = true ∧
      ∀ inner s, inner ∈ priorities → re_match re_compile (ly_cre inner) f = true →
        ly_pattern inner = ly_pattern ly +s+ s → s = ""
  end.
Proof.
  unfold calc_bbfile_priority, new_collector. cbn.
  assert (∀ ly, ly ∈ sort_down ly_pattern priorities ↔ ly ∈ priorities) as Hp by (intros ly; apply elem_of_sort_by).
  destruct (first_match_spec re_compile f _ _ (sort_down_sorted ly_pattern priorities)) as [[-> Hn]|(ly & Hin & Hm & -> & Hall)].
  { split; [done|]. intros ly Hly. by apply Hn, Hp. }
  exists ly. split; [by apply Hp|]. do 3 (split; [done|]). intros inner s Hi%Hp Hmi Es. destruct (decide (s = "")) as [|Hs]; [done|]. exfalso.
  pose proof (compare_longer (ly_pattern ly) s Hs) as Hc. rewrite <-Es in Hc.
  destruct (Hall inner Hi Hmi) as [->|Hr]; [by rewrite string_compare_refl in Hc|].
  apply str_ge_spec in Hr as [Hr|Hr]; [by rewrite Hr, string_compare_refl in Hc|].
  pose proof (string_compare_lt_trans _ _ _ Hc Hr) as H. by rewrite string_compare_refl in H.
Qed.

(** ** The recipe files *)

Section collect.
Context (re_compile re_search : string → option (string → bool)) (env : file_env).

(** What one word of BBFILES stands for; a directory with files in it raises. *)
Definition word_files (f : string) : list string :=
  if isdir env f then [] else py_sorted (match glob env f with [] => if path_exists env f then [f] else [] | l => l end).

Lemma append_new_ok l x : append_new l x = l ∧ x ∈ l ∨ append_new l x = l ++ [x] ∧ x ∉ l.
Proof. unfold append_new. case_bool_decide; auto. Qed.

Lemma add_files_ok l k : ∃ new, add_files l k = l ++ new ∧ NoDup new ∧ ∀ f, f ∈ new ↔ f ∈ k ∧ f ∉ l.
Proof.
  revert l. induction k as [|x k IH]; intros l.
  { exists []. split; [cbn; by rewrite app_nil_r|]. split; [constructor|]. intros f. set_solver. }
  cbn. destruct (append_new_ok l x) as [[-> Hx]|[-> Hx]]; destruct (IH l) as (new & E & Hn & Hin).
  - exists new. split; [done|]. split; [done|]. intros f. rewrite Hin, elem_of_cons. naive_solver.
  - destruct (IH (l ++ [x])) as (new' & E' & Hn' & Hin'). exists (x :: new'). split; [unfold add_files in *; by rewrite E', <-app_assoc|].
    split; [constructor; [rewrite Hin'; set_solver|done]|]. intros f. rewrite !elem_of_cons, Hin', elem_of_app, list_elem_of_singleton.
    destruct (decide (f = x)); naive_solver.
Qed.

Lemma find_bbfiles_ok path l : find_bbfiles env path = Ok l → l = [].
Proof.
  unfold find_bbfiles. generalize (os_walk env path) as ds. intros ds.
  enough (∀ acc, fold_res (λ found (d : string * list string), match d.2 with [] => Ok found | _ => Raise TypeError end) acc ds = Ok l → l = acc)
    as H by apply H.
  induction ds as [|[d fs] ds IH]; intros acc; cbn [fold_res]; [by intros [= <-]|].
  destruct fs; cbn; [apply IH|done].
Qed.

Lemma expand_file_ok acc f acc' : expand_file env acc f = Ok acc' → acc' = add_files acc (word_files f).
Proof.
  unfold expand_file, word_files. destruct (isdir env f); [|by intros [= <-]].
  intros (l & E & [= <-])%res_bind_Ok. by apply find_bbfiles_ok in E as ->.
Qed.

(** The files that the words stand for, each where it is first found. *)
Lemma expand_files_ok acc ws l : fold_res (expand_file env) acc ws = Ok l → NoDup acc →
  ∃ new, l = acc ++ new ∧ NoDup l ∧ ∀ f, f ∈ new ↔ f ∉ acc ∧ ∃ w, w ∈ ws ∧ f ∈ word_files w.
Proof.
  revert acc. induction ws as [|w ws IH]; intros acc; cbn [fold_res].
  { intros [= <-] Hn. exists []. rewrite app_nil_r. split; [done|]. split; [done|]. intros f. set_solver. }
  intros (acc1 & E1 & E)%res_bind_Ok Hn. apply expand_file_ok in E1 as ->.
  destruct (add_files_ok acc (word_files w)) as (n1 & En1 & Hn1 & Hin1). rewrite En1 in E.
  destruct (IH _ E) as (n2 & -> & Hn2 & Hin2).
  { apply NoDup_app. split; [done|]. split; [|done]. intros x Hx Hx'. by apply Hin1 in Hx' as [_ ?]. }
  exists (n1 ++ n2). rewrite <-app_assoc in *. split; [done|]. split; [done|]. intros f.
  rewrite elem_of_app, Hin1, Hin2, elem_of_app, Hin1. setoid_rewrite elem_of_cons.
  destruct (decide (f ∈ word_files w)); naive_solver.
Qed.

(** A file that a word finds comes before the files that only later words
    find. *)
Lemma expand_files_order ws1 ws2 l f : fold_res (expand_file env) [] (ws1 ++ ws2) = Ok l →
  (∀ w, w ∈ ws1 → f ∉ word_files w) →
  ∃ p q, l = p ++ q ∧ f ∉ p ∧ ∀ w g, w ∈ ws1 → g ∈ word_files w → g ∈ p.
Proof.
  rewrite fold_res_app. intros (l1 & E1 & E2)%res_bind_Ok Hf.
  destruct (expand_files_ok _ _ _ E1 NoDup_nil_2) as (n1 & -> & Hn1 & Hin1).
  destruct (expand_files_ok _ _ _ E2 Hn1) as (n2 & -> & _ & _). exists n1, n2. split; [done|]. split.
  - intros (_ & w & Hw & Hw')%Hin1. by apply (Hf w Hw).
  - intros w g Hw Hg. apply Hin1. split; [apply not_elem_of_nil|]. eauto.
Qed.

(** *** Overlaid recipes *)

(** The files with a base name. *)
Definition same_base (b : string) (l : list string) : list string :=
  List.filter (λ g, String.eqb (path_basename g) b) l.

(** What is below the top file [f] of those of the same name. *)
Definition below (f : string) (l : list string) : list string :=
  match same_base (path_basename f) l with
  | top :: l' => if String.eqb top f then l' else []
  | [] => []
  end.

Lemma same_base_snoc b l f :
  same_base b (l ++ [f]) = same_base b l ++ (if String.eqb (path_basename f) b then [f] else []).
Proof. unfold same_base. rewrite List.filter_app. cbn. by destruct (String.eqb _ _). Qed.

Lemma same_base_head b l top l' : same_base b l = top :: l' → path_basename top = b.
Proof.
  intros E. assert (top ∈ same_base b l) as H by (rewrite E; left). unfold same_base in H.
  apply list_elem_of_In, filter_In in H as [_ H]. by apply String.eqb_eq.
Qed.

Lemma overlay_ok l acc : acc = foldl overlay_step ([], []) l →
  (∀ b, dget acc.1 b = head (same_base b l)) ∧ ∀ f, default [] (dget acc.2 f) = below f l.
Proof.
  revert acc. induction l as [|x l IH] using rev_ind; intros acc ->; [done|].
  rewrite foldl_snoc. destruct (IH _ eq_refl) as [Hs Ho]. set (acc := foldl _ _ l) in *. clearbody acc.
  unfold overlay_step. rewrite (Hs (path_basename x)).
  destruct (same_base (path_basename x) l) as [|top l'] eqn:E; cbn.
  - split; intros b; [rewrite dget_dset|]; rewrite ?Ho; unfold below; rewrite same_base_snoc.
    + case_decide as Hb; [subst b; by rewrite E, String.eqb_refl|].
      destruct (String.eqb_spec (path_basename x) b); [done|]. by rewrite app_nil_r, Hs.
    + destruct (String.eqb_spec (path_basename x) (path_basename b)) as [Eb|_]; [|by rewrite app_nil_r].
      rewrite <-Eb, E. cbn. by destruct (String.eqb _ _).
  - pose proof (same_base_head _ _ _ _ E) as Et. split; intros b.
    + rewrite Hs, same_base_snoc. destruct (String.eqb_spec (path_basename x) b) as [<-|_]; [by rewrite E|by rewrite app_nil_r].
    + rewrite dget_dset. case_decide as Hb.
      * subst b. cbn. rewrite Ho. unfold below. rewrite same_base_snoc, Et, E, !String.eqb_refl. cbn. by rewrite String.eqb_refl.
      * rewrite Ho. unfold below. rewrite same_base_snoc.
        destruct (String.eqb_spec (path_basename x) (path_basename b)) as [Eb|_]; [|by rewrite app_nil_r].
        rewrite <-Eb, E. cbn. destruct (String.eqb_spec top b); congruence.
Qed.

Lemma same_base_rev b l : same_base b (rev l) = rev (same_base b l).
Proof. apply filter_rev. Qed.

(** What a file hides is not all after it. *)
Lemma below_after f g p q : NoDup (p ++ q) → f ∈ p → g ∉ p → g ∉ below f (rev (p ++ q)).
Proof.
  intros Hn Hf Hg. unfold below. rewrite rev_app_distr. unfold same_base. rewrite List.filter_app.
  fold (same_base (path_basename f) (rev p)) (same_base (path_basename f) (rev q)).
  destruct (same_base _ (rev q)) as [|top l'] eqn:E.
  - cbn. intros H. assert (g ∈ same_base (path_basename f) (rev p)) as H'.
    { destruct (same_base _ (rev p)) as [|t l]; [done|]. destruct (String.eqb t f); [by right|by apply not_elem_of_nil in H]. }
    unfold same_base in H'. rewrite list_elem_of_In, filter_In, <-in_rev, <-list_elem_of_In in H'. tauto.
  - cbn. destruct (String.eqb_spec top f) as [->|_]; [|apply not_elem_of_nil]. exfalso.
    assert (f ∈ same_base (path_basename f) (rev q)) as H by (rewrite E; left).
    unfold same_base in H. apply list_elem_of_In, filter_In in H as [H _]. apply in_rev, list_elem_of_In in H.
    apply NoDup_app in Hn as (_ & Hn & _). by apply (Hn f Hf).
Qed.

Context `{!SetOrder string}.

(** The words of BBFILES, and the files that are searched. *)
Definition bbfile_words (BBFILES : option string) : list string := split_ws (default "" BBFILES).
Definition searched (BBFILES : option string) : list string :=
  match bbfile_words BBFILES with [] => get_bbfiles env | ws => ws end.

Lemma searched_sorted cl BBFILES :
  match sort_up (λ f, (calc_bbfile_priority re_compile cl f).1) (bbfile_words BBFILES) with
  | [] => get_bbfiles env | _ => sort_up (λ f, (calc_bbfile_priority re_compile cl f).1) (bbfile_words BBFILES) end ≡ₚ searched BBFILES.
Proof.
  unfold searched. pose proof (sort_by_perm (λ x y, ((calc_bbfile_priority re_compile cl x).1 <=?
    (calc_bbfile_priority re_compile cl y).1)%Z) (bbfile_words BBFILES)) as Hp.
  fold (sort_up (λ f, (calc_bbfile_priority re_compile cl f).1) (bbfile_words BBFILES)) in Hp.
  destruct (sort_up _ _), (bbfile_words BBFILES); [done|by apply Permutation_nil_l in Hp|by apply Permutation_nil_r in Hp|done].
Qed.

Lemma same_base_in b g l : g ∈ same_base b l ↔ g ∈ l ∧ path_basename g = b.
Proof. unfold same_base. by rewrite list_elem_of_In, filter_In, <-list_elem_of_In, String.eqb_eq. Qed.

Lemma same_base_NoDup b l : NoDup l → NoDup (same_base b l).
Proof. intros Hn. unfold same_base. by apply NoDup_ListNoDup, List.NoDup_filter, NoDup_ListNoDup. Qed.

Lemma below_facts f g l : NoDup l → g ∈ below f l →
  f ∈ l ∧ g ∈ l ∧ g ≠ f ∧ path_basename g = path_basename f ∧ below g l = [].
Proof.
  intros Hn Hg. unfold below in Hg. destruct (same_base _ l) as [|top l'] eqn:E; [by apply not_elem_of_nil in Hg|].
  destruct (String.eqb_spec top f) as [->|]; [|by apply not_elem_of_nil in Hg].
  pose proof (same_base_NoDup (path_basename f) l Hn) as Hn'. rewrite E in Hn'. apply NoDup_cons in Hn' as [Hf _].
  assert (g ∈ same_base (path_basename f) l) as [H1 H2]%same_base_in by (rewrite E; by right).
  assert (f ∈ same_base (path_basename f) l) as [H3 _]%same_base_in by (rewrite E; by left).
  assert (g ≠ f) as Hne by (intros ->; done). do 4 (split; [done|]). unfold below. rewrite H2, E.
  destruct (String.eqb_spec f g); [congruence|done].
Qed.

Lemma below_all g l : g ∈ l → ∃ f, f ∈ l ∧ path_basename f = path_basename g ∧ (g = f ∨ g ∈ below f l).
Proof.
  intros Hg. assert (g ∈ same_base (path_basename g) l) as H by by apply same_base_in.
  destruct (same_base _ l) as [|top l'] eqn:E; [by apply not_elem_of_nil in H|]. exists top.
  assert (top ∈ same_base (path_basename g) l) as [H1 H2]%same_base_in by (rewrite E; by left).
  split; [done|]. split; [done|]. apply elem_of_cons in H as [H|H]; [by left|right].
  unfold below. by rewrite H2, E, String.eqb_refl.
Qed.

Definition word_pri (cl : collector) (w : string) : Z := (calc_bbfile_priority re_compile cl w).1.

(** A word of BBFILES finds a file. *)
Definition finds (BBFILES : option string) (w f : string) : Prop := w ∈ searched BBFILES ∧ f ∈ word_files w.

(** The words in the order of their priorities. *)
Definition sorted_words (cl : collector) (BBFILES : option string) : list string :=
  sort_up (word_pri cl) (bbfile_words BBFILES).

Lemma sorted_words_split cl BBFILES w : w ∈ bbfile_words BBFILES →
  ∃ p q, sorted_words cl BBFILES = p ++ q ∧ w ∈ p ∧ ∀ w', w' ∈ p → w' ∈ bbfile_words BBFILES ∧ (word_pri cl w' ≤ word_pri cl w)%Z.
Proof.
  intros Hw. pose proof (sort_up_sorted (word_pri cl) (bbfile_words BBFILES)) as Hs.
  pose proof (sort_by_perm (λ x y, (word_pri cl x <=? word_pri cl y)%Z) (bbfile_words BBFILES)) as Hp.
  fold (sort_up (word_pri cl) (bbfile_words BBFILES)) in Hp. fold (sorted_words cl BBFILES) in *.
  pose proof Hw as Hw'. rewrite <-Hp in Hw'. apply list_elem_of_split in Hw' as (p & q & Eq).
  exists (p ++ [w]), q. rewrite <-app_assoc. split; [done|]. split; [set_solver|]. intros w' Hw'. split.
  - rewrite <-Hp, Eq. set_solver.
  - rewrite Eq in Hs. apply elem_of_app in Hw' as [Hw'|Hw'%list_elem_of_singleton]; [|by subst].
    clear -Hs Hw'. induction p as [|x p IH]; [by apply not_elem_of_nil in Hw'|]. cbn in Hs.
    apply StronglySorted_inv in Hs as [Hs Hx]. apply elem_of_cons in Hw' as [->|Hw']; [|by apply IH].
    rewrite Forall_forall in Hx. apply Hx. set_solver.
Qed.

Lemma found_ok cl BBFILES newfiles :
  fold_res (expand_file env) [] (match sorted_words cl BBFILES with [] => get_bbfiles env | _ => sorted_words cl BBFILES end) = Ok newfiles →
  NoDup newfiles ∧ (∀ f, f ∈ newfiles ↔ ∃ w, finds BBFILES w f) ∧
  ∀ f g w, w ∈ bbfile_words BBFILES → f ∈ word_files w → (∀ w', finds BBFILES w' g → (word_pri cl w < word_pri cl w')%Z) →
    ∃ p q, newfiles = p ++ q ∧ f ∈ p ∧ g ∉ p.
Proof.
  intros E. pose proof (searched_sorted cl BBFILES) as Hp.
  change (sort_up _ (bbfile_words BBFILES)) with (sorted_words cl BBFILES) in Hp.
  destruct (expand_files_ok _ _ _ E NoDup_nil_2) as (new & Enew & Hn & Hin). cbn in Enew. subst new.
  split; [done|]. split.
  { intros f. rewrite Hin. unfold finds. setoid_rewrite <-Hp. split; [by intros [_ ?]|]. intros ?.
    split; [apply not_elem_of_nil|done]. }
  intros f g w Hw Hf Hg. destruct (sorted_words_split cl BBFILES w Hw) as (p & q & Eq & Hwp & Hle).
  rewrite Eq in E. assert (match p ++ q with [] => get_bbfiles env | _ => p ++ q end = p ++ q) as Epq
    by (destruct p; [by apply not_elem_of_nil in Hwp|done]). rewrite Epq in E.
  destruct (expand_files_order p q newfiles g E) as (l1 & l2 & -> & Hg1 & Hfin).
  - intros w' Hw' Hg'. destruct (Hle w' Hw') as [Hw1 Hw2]. enough (finds BBFILES w' g) as H by (apply Hg in H; lia).
    split; [|done]. unfold searched. by destruct (bbfile_words BBFILES); [apply not_elem_of_nil in Hw1|].
  - exists l1, l2. split; [done|]. split; [by eapply Hfin|done].
Qed.

End collect.

(** ** A concrete configuration

    Three layers: [gr] recommends [zynq], which depends on [core]; only [core]
    has a priority. *)

Section sample.
#[local] Instance dict_store : DataStore (dict string) := {| ds_getVar d v := Ok (dget d v) |}.
#[local] Instance sample_order : SetOrder string := set_order_elements.

(** The expressions of the sample: a name starts with what is
    anchored and ends with the others. *)
Definition sample_re (p : string) : option (string → bool) :=
  match p with
  | String "^" q => Some (λ f, startswith f q)
  | String "(" _ => None
  | _ => Some (λ f, endswith f p)
  end.

Definition layer_vars : dict string :=
  [("BBFILE_PRIORITY_core", "5"); ("BBFILE_PATTERN_core", "^/core/"); ("LAYERVERSION_core", "11");
   ("LAYERDEPENDS_zynq", "core (>= 11)"); ("BBFILE_PATTERN_zynq", "^/zynq/"); ("LAYERRECOMMENDS_gr", "zynq extra");
   ("BBFILE_PATTERN_gr", "^/zynq/gr/")].

Definition sample_layers : list layer :=
  [MkLayer "gr" "^/zynq/gr/" "^/zynq/gr/" 7; MkLayer "zynq" "^/zynq/" "^/zynq/" 6; MkLayer "core" "^/core/" "^/core/" 5].

Lemma sample_collections : handleCollections layer_vars sample_re 3 (Some "gr zynq core") = Ok sample_layers.
Proof. vm_compute. reflexivity. Qed.


(** The stack ends the recursion where layers depend on each other. *)
Definition circular_vars : dict string :=
  [("LAYERDEPENDS_a", "b"); ("BBFILE_PATTERN_a", "^/a/"); ("LAYERDEPENDS_b", "a"); ("BBFILE_PATTERN_b", "^/b/")].

Lemma circular_raises n c : c = "a" ∨ c = "b" →
  calc_layer_priority 0 [("a", [Some "b"]); ("b", [Some "a"])] n (Some c) [("a", None); ("b", None)] =
  ([("a", None); ("b", None)], Raise RecursionError).
Proof.
  revert c. induction n as [|n IH]; intros c Hc; [done|]. cbn [calc_layer_priority].
  rewrite get_bind. cbn [of_option]. rewrite !lift_bind.
  replace (dget [("a", None); ("b", None)] c) with (Some (None : option Z)) by (by destruct Hc as [-> | ->]).
  cbn [of_option no_priority]. rewrite lift_bind.
  assert (∃ d, dget [("a", [Some "b"]); ("b", [Some "a"])] c = Some [Some d] ∧ (d = "a" ∨ d = "b")) as (d & -> & Hd)
    by (destruct Hc as [-> | ->]; by eexists; split; [reflexivity|auto]).
  cbn [of_option fold_state]. by rewrite !M_bind_eq, (IH d Hd).
Qed.

Lemma circular_layers depth : handleCollections circular_vars sample_re depth (Some "a b") = Raise RecursionError.
Proof.
  unfold handleCollections. 
  replace (split_ws _) with ["a"; "b"] by (vm_compute; reflexivity).
  match goal with |- context [fold_res ?f ?h ?l] => replace (fold_res f h l) with (Ok (MkCollecting false None 0
    [("a", None); ("b", None)] [("a", [Some "b"]); ("b", [Some "a"])])) by (vm_compute; reflexivity) end.
  cbn [mbind res_bind fold_state collection_priorities hc_errors]. unfold add_layer. cbn [hc_min collection_depends].
  rewrite !M_bind_eq. rewrite circular_raises by auto. done.
Qed.

(** A layer that depends on one that is not enabled is reported, but without a
    priority of its own it raises before the errors are looked at. *)
Lemma missing_layer :
  handleCollections [("LAYERDEPENDS_a", "b"); ("BBFILE_PATTERN_a", "^/a/"); ("BBFILE_PRIORITY_a", "5")] sample_re 9
    (Some "a") = Raise CollectionError ∧
  handleCollections [("LAYERDEPENDS_a", "b"); ("BBFILE_PATTERN_a", "^/a/")] sample_re 9 (Some "a") = Raise KeyError.
Proof. split; vm_compute; reflexivity. Qed.

(** An empty pattern clears the errors of the layers before. *)
Lemma errors_cleared :
  handleCollections [("LAYERDEPENDS_a", "b"); ("BBFILE_PATTERN_a", "^/a/"); ("BBFILE_PRIORITY_a", "5");
      ("BBFILE_PATTERN_c", "")] sample_re 9 (Some "a c") =
  Ok [MkLayer "a" "^/a/" "^/a/" 5; MkLayer "c" "" "^NULL$" 6].
Proof. vm_compute. reflexivity. Qed.

(** A priority that is no number raises where no priority was read before, and
    one of zero is worked out as if it were not set. *)
Lemma odd_priorities :
  handleCollections [("BBFILE_PATTERN_a", "^/a/"); ("BBFILE_PRIORITY_a", "high")] sample_re 9 (Some "a") = Raise NameError ∧
  handleCollections [("BBFILE_PATTERN_a", "^/a/"); ("BBFILE_PRIORITY_a", "0")] sample_re 9 (Some "a") =
  Ok [MkLayer "a" "^/a/" "^/a/" 1].
Proof. split; vm_compute; reflexivity. Qed.

(** Patterns are sorted by their text, not by their length. *)
Lemma pattern_order :
  List.map ly_pattern (bbfile_config_priorities (new_collector [MkLayer "long" "^/a/long/" "^/a/long/" 1; MkLayer "b" "^/b/" "^/b/" 1])) =
  ["^/b/"; "^/a/long/"].
Proof. vm_compute. reflexivity. Qed.

(** *** Its recipes *)

Definition sample_files : file_env := FileEnv "/build" (λ _, ["conf"; "local.bb"])
  (λ p, String.eqb p "/core/dir")
  (λ _, true) (λ p, String.eqb p "/zynq/gr/gr.bb")
  (λ p, if String.eqb p "/core/*.bb" then ["/core/lib.bb"; "/core/app.bb"; "/core/old.bb"]
        else if String.eqb p "/zynq/*.bb*" then ["/zynq/app.bb"; "/zynq/lib_%.bbappend"; "/zynq/lib.bb"]
        else if String.eqb p "/zynq/gr/*.bb" then ["/zynq/gr/gr.bb"; "/zynq/gr/app.bb"] else [])
  (λ p, if String.eqb p "/core/dir" then [(p, ["README"])] else []).

Abbreviation sample_bbfiles := (Some "/zynq/gr/*.bb /zynq/gr/gr.bb /zynq/*.bb* /core/*.bb").

(** The recipes of the layers of lower priority come first; those of [app] are
    overlaid by the one of the innermost layer. *)
Abbreviation sample_collected :=
  (MkCollector (sort_down ly_pattern sample_layers) [("lib_%.bb", "/zynq/lib_%.bbappend")]
     [("/zynq/gr/app.bb", ["/zynq/app.bb"; "/core/app.bb"]); ("/zynq/lib.bb", ["/core/lib.bb"])],
   ["/core/app.bb"; "/core/lib.bb"; "/zynq/app.bb"; "/zynq/lib.bb"; "/zynq/gr/app.bb"; "/zynq/gr/gr.bb"], 1,
   "/core/*.bb /zynq/*.bb* /zynq/gr/*.bb /zynq/gr/gr.bb").

Lemma sample_recipes :
  collect_bbfiles sample_re sample_re sample_files (new_collector sample_layers) sample_bbfiles (Some "|/old.bb (") =
  Ok sample_collected.
Proof. vm_compute. reflexivity. Qed.


(** A directory with any file in it cannot be a word of BBFILES. *)
Lemma directory_raises :
  collect_bbfiles sample_re sample_re sample_files (new_collector sample_layers) (Some "/core/dir") None = Raise TypeError.
Proof. vm_compute. reflexivity. Qed.

(** A name belongs to the inner layer, also where the outer one matches it. *)
Lemma sample_innermost :
  calc_bbfile_priority sample_re (new_collector sample_layers) "/zynq/gr/app.bb" = (7%Z, Some "^/zynq/gr/") ∧
  calc_bbfile_priority sample_re (new_collector sample_layers) "/zynq/app.bb" = (6%Z, Some "^/zynq/").
Proof. split; vm_compute; reflexivity. Qed.

(** *** What the other operations give *)

Lemma sample_matches :
  matchFile sample_re sample_re sample_files sample_layers sample_bbfiles None "^/zynq/lib.bb" = Ok "/zynq/lib.bb" ∧
  matchFile sample_re sample_re sample_files sample_layers sample_bbfiles None "app.bb" = Raise NoSpecificMatch ∧
  matchFile sample_re sample_re sample_files sample_layers sample_bbfiles None "/zynq/gr/gr.bb" = Ok "/zynq/gr/gr.bb".
Proof. split; [|split]; vm_compute; reflexivity. Qed.

Lemma sample_appends :
  List.map (get_file_appends sample_collected.1.1.1) ["/core/lib_1.0.bb"; "/core/lib.bb"] = [["/zynq/lib_%.bbappend"]; []].
Proof. vm_compute. reflexivity. Qed.

(** A layer whose pattern matches no file is reported. *)
Lemma sample_unmatched :
  snd <$> file_priorities sample_re layer_vars (new_collector sample_layers) ["/core/app.bb"; "/zynq/app.bb"] ["/zynq/skipped.bb"] =
  Ok [("gr", "^/zynq/gr/")].
Proof. vm_compute. reflexivity. Qed.
End sample.
