(* ===== verification/Fetch.v ===== *)
(** * Fetching sources (bb/fetch2/__init__.py)

    The addresses of sources, the mirrors that may have them, and [Fetch.download],
    which takes each source from the first place that has it and checks what
    it got.  The fetch methods (git, wget and so on) are an interface. *)

From Stdlib Require Import Ascii String.
From S2P Require Import Prelude.
From S2P Require Import PyStr.
From S2P Require Import PyDict.
From S2P Require Import Cache.
From S2P Require Import RecipeFiles.

(** ** Addresses *)

Definition lower_char (c : char) : char := if is_upper c then Ascii.ascii_of_N (code c + 32) else c.

(** [s.lower()] *)
Fixpoint str_lower (s : string) : string :=
  match s with
  | "" => ""
  | String a s => String (lower_char a) (str_lower s)
  end.

(** *** Quoting (urllib.parse) *)

Definition hex_digit (n : N) : char := Ascii.ascii_of_N (if (n <? 10)%N then n + 48 else n + 55)%N.

Definition hex_val (c : char) : option N :=
  if is_digit c then Some (code c - 48)%N
  else if ((65 <=? code c) && (code c <=? 70))%N then Some (code c - 55)%N
  else if ((97 <=? code c) && (code c <=? 102))%N then Some (code c - 87)%N
  else None.

(** The characters that [quote] keeps. *)
Definition always_safe (c : char) : bool := is_letter c || is_digit c || char_in c "_.-~/".

Fixpoint quote (s : string) : string :=
  match s with
  | "" => ""
  | String a s =>
      if always_safe a then String a (quote s)
      else String "%" (String (hex_digit (code a / 16)) (String (hex_digit (code a mod 16)) (quote s)))
  end.

Fixpoint unquote (s : string) : string :=
  match s with
  | String "%" (String a (String b s') as s1) =>
      match hex_val a, hex_val b with
      | Some x, Some y => String (Ascii.ascii_of_N (16 * x + y)) (unquote s')
      | _, _ => String "%" (unquote s1)
      end
  | String c s => String c (unquote s)
  | "" => ""
  end.

(** *** [decodeurl] and [encodeurl] *)

Record decoded : Type := MkDecoded {
  u_type : string;
  u_host : string;
  u_path : string;
  u_user : string;
  u_pswd : string;
  u_parm : dict string
}.

(** The places where [((?P<user>[^/;]+)@)?] can end, the last one first: what
    is before the sign and what is after it. *)
Fixpoint user_splits (s : string) : list (string * string) :=
  match s with
  | "" => []
  | String c s =>
      if Ascii.eqb c "/" || Ascii.eqb c ";" then []
      else
        List.map (λ p : string * string, (String c p.1, p.2)) (user_splits s) ++
        match s with String "@" s' => [(str1 c, s')] | _ => [] end
  end.

(** The location, up to a semicolon, and the parameters after it, up to the end
    of the line. *)
Definition match_location (s : string) : option (string * option string) :=
  let '(location, rest) := span (λ c, negb (Ascii.eqb c ";")) s in
  if str_empty location then None
  else Some (location, match rest with String _ parm => Some (span (λ c, negb (Ascii.eqb c newline)) parm).1 | "" => None end).

Fixpoint first_user (l : list (string * string)) : option (string * (string * option string)) :=
  match l with
  | [] => None
  | (user, rest) :: l => match match_location rest with Some r => Some (user, r) | None => first_user l end
  end.

(** The groups type, user, location and parm. *)
Definition match_url (url : string) : option (string * option string * string * option string) :=
  let '(type, rest) := span (λ c, negb (Ascii.eqb c ":")) url in
  if startswith rest "://" then
    let rest := str_drop 3 rest in
    match first_user (user_splits rest) with
    | Some (user, (location, parm)) => Some (type, Some user, location, parm)
    | None => match match_location rest with Some (location, parm) => Some (type, None, location, parm) | None => None end
    end
  else None.

(** The user, up to a colon, and the password after it, up to the end of the
    line. *)
Definition match_user (user : string) : option (string * string) :=
  let '(name, rest) := span (λ c, negb (Ascii.eqb c ":")) user in
  if str_empty name then None
  else Some (name, (span (λ c, negb (Ascii.eqb c newline)) (match rest with String ":" r => r | _ => rest end)).1).

(** One [name=value] of the parameters. *)
Definition add_parm (p : dict string) (s : string) : res (dict string) :=
  if str_empty s then Ok p
  else if negb (char_in "=" s) then Raise MalformedUrl
  else match split_on "=" s with [s1; s2] => Ok (dset p s1 s2) | _ => Raise ValueError end.

Definition decodeurl (url : string) : res decoded :=
  '(type, user, location, parm) ← of_option MalformedUrl (match_url url);
  let '(host, path) :=
    if String.eqb (str_lower type) "file" then ("", location)
    else match split1 "/" location with Some (h, p) => (h, "/" +s+ p) | None => (location, "/") end in
  let '(user, pswd) := match user with
    | Some u => match match_user u with Some (u, p) => (u, Some p) | None => (u, None) end
    | None => ("", Some "")
    end in
  p ← fold_res add_parm [] (split_on ";" (default "" parm));
  pswd ← of_option NameError pswd;
  Ok (MkDecoded type host (unquote path) user pswd p).

(** [p in s] *)
Fixpoint str_in (p s : string) : bool :=
  startswith s p || match s with String _ s => str_in p s | "" => false end.

(** [while '//' in path: path = path.replace('//', '/')]; every round makes
    the path shorter. *)
Fixpoint one_slash (fuel : nat) (path : string) : string :=
  match fuel with
  | O => path
  | S fuel => if str_in "//" path then one_slash fuel (replace path "//" "/") else path
  end.

Definition encodeurl (u : decoded) : res string :=
  if str_empty (u_type u) then Raise MissingParameterError
  else
    let is_file := String.eqb (u_type u) "file" in
    Ok (u_type u +s+ "://"
      +s+ (if negb (str_empty (u_user u)) && negb is_file
           then u_user u +s+ (if str_empty (u_pswd u) then "" else ":" +s+ u_pswd u) +s+ "@" else "")
      +s+ (if negb (str_empty (u_host u)) && negb is_file then u_host u else "")
      +s+ (if str_empty (u_path u) then "" else quote (one_slash (String.length (u_path u)) (u_path u)))
      +s+ join "" (List.map (λ kv : string * string, ";" +s+ kv.1 +s+ "=" +s+ kv.2) (u_parm u))).

(** ** Variables *)

(** What is read of a data store: variables, expanded or not, flags, and the
    expansion of a text; [set_no_network] sets BB_NO_NETWORK. *)
Class FetchStore (D : Type) : Type := {
  fetch_store :: DataStore D;
  expand : D → string → res string;
  raw_var : D → string → res (option string);
  var_flag : D → string → string → res (option string);
  raw_flag : D → string → string → res (option string);
  set_no_network : option string → D → D
}.

(** [bb.utils.to_boolean], as a condition: None is false. *)
Definition to_boolean (v : option string) : res bool :=
  match v with
  | None | Some "" => Ok false
  | Some s =>
      let n := str_lower s in
      if bool_decide (n ∈ ["y"; "yes"; "1"; "true"]) then Ok true
      else if bool_decide (n ∈ ["n"; "no"; "0"; "false"]) then Ok false
      else Raise ValueError
  end.

Section networks.
Context {D : Type} `{FetchStore D}.

(** One word of BB_ALLOWED_NETWORKS. *)
Definition allows (network host : string) : bool :=
  let host := str_lower host in
  startswith host "*." && endswith ("." +s+ network) (str_drop 1 host) || String.eqb host network.

Definition allowed_networks (d : D) : res (option string) :=
  raw ← raw_var d "PN";
  pkgname ← match raw with Some r => Some <$> expand d r | None => Ok None end;
  trusted ← match pkgname with
    | Some (String _ _ as pn) => raw_flag d "BB_ALLOWED_NETWORKS" pn
    | _ => Ok None
    end;
  if unset trusted then ds_getVar d "BB_ALLOWED_NETWORKS" else Ok trusted.

Definition trusted_network (d : D) (url : string) : res bool :=
  no_network ← ds_getVar d "BB_NO_NETWORK";
  off ← to_boolean no_network;
  if (off : bool) then Ok true
  else
    trusted_hosts ← allowed_networks d;
    match trusted_hosts with
    | None | Some "" => Ok true
    | Some hosts =>
        u ← decodeurl url;
        if str_empty (u_host u) then Ok true
        else
          let network := str_lower (default "" (head (split_on ":" (u_host u)))) in
          Ok (existsb (allows network) (split_on " " hosts))
    end.

Definition check_network_access (d : D) (url : string) : res unit :=
  no_network ← ds_getVar d "BB_NO_NETWORK";
  off ← to_boolean no_network;
  if (off : bool) then Raise NetworkAccess
  else
    t ← trusted_network d url;
    if (t : bool) then Ok tt else Raise UntrustedUrl.
End networks.

(** ** Sources *)

(** An address with what its fetch method makes of it: [ud_expected] are the
    checksums that the recipe gives, [ud_method] is the class of the method. *)
Record urldata : Type := MkUrldata {
  ud_url : string;
  ud_dec : decoded;
  ud_date : option string;
  ud_expected : list (string * option string);
  ud_names : list string;
  ud_method : string;
  ud_needdonestamp : bool;
  ud_localfile : string;
  ud_localpath : option string;
  ud_basename : option string;
  ud_basepath : option string;
  ud_mirrortarballs : list string;
  ud_donestamp : option string;
  ud_lockfile : option string
}.

Definition set_dec (u : decoded) (ud : urldata) : urldata :=
  MkUrldata (ud_url ud) u (ud_date ud) (ud_expected ud) (ud_names ud) (ud_method ud) (ud_needdonestamp ud) (ud_localfile ud)
    (ud_localpath ud) (ud_basename ud) (ud_basepath ud) (ud_mirrortarballs ud) (ud_donestamp ud) (ud_lockfile ud).

Definition set_method (m : string) (ud : urldata) : urldata :=
  MkUrldata (ud_url ud) (ud_dec ud) (ud_date ud) (ud_expected ud) (ud_names ud) m (ud_needdonestamp ud) (ud_localfile ud)
    (ud_localpath ud) (ud_basename ud) (ud_basepath ud) (ud_mirrortarballs ud) (ud_donestamp ud) (ud_lockfile ud).

Definition set_localpath (p : option string) (ud : urldata) : urldata :=
  MkUrldata (ud_url ud) (ud_dec ud) (ud_date ud) (ud_expected ud) (ud_names ud) (ud_method ud) (ud_needdonestamp ud)
    (ud_localfile ud) p (ud_basename ud) (ud_basepath ud) (ud_mirrortarballs ud) (ud_donestamp ud) (ud_lockfile ud).

Definition set_names (need : bool) (localfile : string) (base path : option string) (ud : urldata) : urldata :=
  MkUrldata (ud_url ud) (ud_dec ud) (ud_date ud) (ud_expected ud) (ud_names ud) (ud_method ud) need localfile
    (ud_localpath ud) base path (ud_mirrortarballs ud) (ud_donestamp ud) (ud_lockfile ud).

Definition set_stamps (stamp lock : option string) (ud : urldata) : urldata :=
  MkUrldata (ud_url ud) (ud_dec ud) (ud_date ud) (ud_expected ud) (ud_names ud) (ud_method ud) (ud_needdonestamp ud)
    (ud_localfile ud) (ud_localpath ud) (ud_basename ud) (ud_basepath ud) (ud_mirrortarballs ud) stamp lock.

Definition CHECKSUM_LIST : list string := ["md5"; "sha256"; "sha1"; "sha384"; "sha512"].

(** The fetch methods, in the order in which they are asked. *)
Definition methods : list string :=
  ["Local"; "Wget"; "Svn"; "Git"; "GitSM"; "GitANNEX"; "Cvs"; "SSH"; "SFTP"; "S3"; "Perforce"; "Bzr"; "Hg"; "Osc"; "Repo";
   "ClearCase"; "Npm"; "NpmShrinkWrap"].

(** What a method does when an address is read. *)
Class FetchMethods (D : Type) : Type := {
  supports : string → urldata → bool;
  urldata_init : D → urldata → res urldata;
  localpath : D → urldata → res string
}.

Section sources.
Context {D : Type} `{FetchStore D} `{FetchMethods D} (d : D).

Definition parm_of (u : decoded) (k : string) : option string := dget (u_parm u) k.

Definition set_user_pswd (user pswd : string) (u : decoded) : decoded :=
  MkDecoded (u_type u) (u_host u) (u_path u) user pswd (u_parm u).

Definition set_parm (p : dict string) (u : decoded) : decoded :=
  MkDecoded (u_type u) (u_host u) (u_path u) (u_user u) (u_pswd u) p.

(** [a or b] for variables *)
Definition or_var (a b : res (option string)) : res (option string) :=
  v ← a;
  if unset v then b else Ok v.

Definition getSRCDate (u : decoded) : res (option string) :=
  match parm_of u "srcdate" with
  | Some date => Ok (Some date)
  | None =>
      pn ← ds_getVar d "PN";
      match pn with
      | Some (String _ _ as pn) =>
          or_var (ds_getVar d ("SRCDATE_" +s+ pn)) (or_var (ds_getVar d "SRCDATE") (ds_getVar d "DATE"))
      | _ => or_var (ds_getVar d "SRCDATE") (ds_getVar d "DATE")
      end
  end.

Definition configure_checksum (u : decoded) (checksum_id : string) : res (string * option string) :=
  let checksum_name := (match parm_of u "name" with Some n => n +s+ "." | None => "" end) +s+ checksum_id +s+ "sum" in
  match parm_of u checksum_name with
  | Some v => Ok (checksum_id, Some v)
  | None =>
      if negb (bool_decide (u_type u ∈ ["http"; "https"; "ftp"; "ftps"; "sftp"; "s3"])) then Ok (checksum_id, None)
      else v ← var_flag d "SRC_URI" checksum_name; Ok (checksum_id, v)
  end.

(** The names of the stamp and of the lock. *)
Definition stamp_base (dldir : option string) (ud : urldata) : res string :=
  match ud_localpath ud with
  | Some (String _ _ as p) =>
      dldir ← of_option TypeError dldir;
      Ok (if startswith p dldir then p else dldir +s+ "/" +s+ path_basename p)
  | _ =>
      match ud_basepath ud, ud_basename ud with
      | Some (String _ _ as b), _ | _, Some (String _ _ as b) => dldir ← of_option TypeError dldir; Ok (dldir +s+ "/" +s+ b)
      | _, _ => Raise Fatal
      end
  end.

(** [FetchData(url, d, localonly)] *)
Definition new_fetch_data (url : string) (localonly : bool) : res urldata :=
  text ← expand d url;
  u ← decodeurl text;
  date ← getSRCDate u;
  let user := if str_empty (u_user u) then default (u_user u) (parm_of u "user") else u_user u in
  let pswd := if str_empty (u_pswd u) then default (u_pswd u) (parm_of u "pswd") else u_pswd u in
  let u := set_user_pswd user pswd u in
  expected ← fold_res (λ l id, kv ← configure_checksum u id; Ok (l ++ [kv])) [] CHECKSUM_LIST;
  let ud := MkUrldata url u date expected (split_on "," (default "default" (parm_of u "name"))) "" true "" None None None []
    None None in
  m ← of_option NoMethodError (List.find (λ m, supports m ud) methods);
  if localonly && negb (String.eqb m "Local") then Raise NonLocalMethod
  else
    let u := match parm_of u "proto", parm_of u "protocol" with
      | Some (String _ _ as proto), None => set_parm (dset (u_parm u) "protocol" proto) u
      | _, _ => u
      end in
    ud ← urldata_init d (set_method m (set_dec u ud));
    ud ← match parm_of (ud_dec ud) "localpath" with
      | Some p => Ok (set_localpath (Some p) (set_names (ud_needdonestamp ud) (ud_localfile ud) (Some (path_basename p)) (ud_basepath ud) ud))
      | None =>
          if str_empty (ud_localfile ud) then Ok ud
          else p ← localpath d ud; Ok (set_localpath (Some p) ud)
      end;
    dldir ← ds_getVar d "DL_DIR";
    if negb (ud_needdonestamp ud) then Ok ud
    else
      base ← stamp_base dldir ud;
      Ok (set_stamps (Some (base +s+ ".done")) (Some (base +s+ ".lock")) ud).

Definition setup_localpath (ud : urldata) : res urldata :=
  if unset (ud_localpath ud) then p ← localpath d ud; Ok (set_localpath (Some p) ud) else Ok ud.

(** *** Revisions *)

(** The variables that can give the revision for [name]. *)
Definition srcrev_attempts (pn : option string) (name : string) : list string :=
  (if negb (String.eqb name "") && negb (unset pn) then ["SRCREV_" +s+ name +s+ "_pn-" +s+ default "" pn] else []) ++
  (if negb (String.eqb name "") then ["SRCREV_" +s+ name] else []) ++
  (if negb (unset pn) then ["SRCREV_pn-" +s+ default "" pn] else []) ++ ["SRCREV"].

Definition no_srcrev (v : option string) : bool := unset v || bool_decide (v = Some "INVALID").

(** The first that is set; the last one read otherwise. *)
Fixpoint first_srcrev (srcrev : option string) (l : list string) : res (option string) :=
  match l with
  | [] => Ok srcrev
  | a :: l =>
      v ← ds_getVar d a;
      if no_srcrev v then first_srcrev v l else Ok v
  end.

Definition srcrev_internal_helper (latest_revision : urldata → string → res string) (ud : urldata) (name : string) :
    res (option string) :=
  pn ← ds_getVar d "PN";
  srcrev ← first_srcrev None (srcrev_attempts pn name);
  let rev := parm_of (ud_dec ud) "rev" in
  let tag := parm_of (ud_dec ud) "tag" in
  match rev, tag with
  | Some _, Some _ => Raise FetchError
  | Some parmrev, None | None, Some parmrev =>
      if no_srcrev srcrev then Ok (Some parmrev)
      else if bool_decide (srcrev = Some parmrev) then Ok (Some parmrev)
      else Raise FetchError
  | None, None =>
      if no_srcrev srcrev then Raise FetchError
      else if bool_decide (srcrev = Some "AUTOINC") then Some <$> latest_revision ud name
      else Ok srcrev
  end.

Definition setup_revisions (latest_revision : urldata → string → res string) (ud : urldata) : res (dict (option string)) :=
  fold_res (λ revs name, r ← srcrev_internal_helper latest_revision ud name; Ok (dset revs name r)) [] (ud_names ud).
End sources.

(** ** Mirrors *)

(** [mirror_from_string]: the words in pairs; an odd one at the end is left
    out. *)
Fixpoint pairs (l : list string) : list (string * string) :=
  match l with a :: b :: l => (a, b) :: pairs l | _ => [] end.

Definition mirror_from_string (data : option string) : list (string * string) :=
  pairs (split_ws (replace (default "" data) "\n" " ")).

Definition url_fields (u : decoded) : list string := [u_type u; u_host u; u_path u; u_user u; u_pswd u].

(** [for k in replacements: s = s.replace(k, replacements[k])] *)
Definition replace_all (replacements : dict string) (s : string) : string :=
  foldl (λ s kv, replace s kv.1 kv.2) s replacements.

Section mirrors.
Context {D : Type} `{FetchStore D} `{FetchMethods D} (d : D).
(** [re.match(p, s)] and [re.sub(p, repl, s, 1)]. *)
Context (re_match : string → string → res bool) (re_sub : string → string → string → res string).
(** [ud.method.supports_checksum(ud)] *)
Context (supports_checksum : urldata → bool).

(** The local variables of the loop in [uri_replace]: the fields of the result,
    the replaced type and the parameters of the address. *)
Definition replacing : Type := list string * string * dict string.

(** The name of the file at the end of the path. *)
Definition end_in_name (ud : urldata) (u : decoded) (rep_type : string) (tarball : option string) (parm : dict string)
    (path : string) : string * dict string :=
  let '(basename, parm) :=
    match tarball with
    | Some (String _ _ as t) =>
        if negb (String.eqb (u_type u) rep_type) then (Some (path_basename t), [])
        else (if negb (unset (ud_localpath ud)) && supports_checksum ud
              then Some (path_basename (default "" (ud_localpath ud))) else None, parm)
    | _ => (if negb (unset (ud_localpath ud)) && supports_checksum ud
            then Some (path_basename (default "" (ud_localpath ud))) else None, parm)
    end in
  match basename with
  | Some (String _ _ as b) => (if endswith path b then path else path_join path b, parm)
  | _ => (path, parm)
  end.

(** One of the first five fields; [None]: the address does not match. *)
Definition replace_field (ud : urldata) (u : decoded) (replacements : dict string) (tarball : option string)
    (acc : option replacing) (field : nat * (string * (string * string))) : res (option replacing) :=
  match acc with
  | None => Ok None
  | Some (result, rep_type, parm) =>
      let '(loc, (value, (find, repl))) := field in
      let regexp := if (loc =? 0)%nat && negb (str_empty find) && negb (endswith find "$") then find +s+ "$" else find in
      m ← re_match regexp value;
      if (m : bool) then
        let repl' := if str_empty repl then "" else replace_all replacements repl in
        new ← if str_empty repl then Ok "" else re_sub regexp repl' value;
        let rep_type := if (loc =? 0)%nat then repl' else rep_type in
        let '(new, parm) := if (loc =? 2)%nat then end_in_name ud u rep_type tarball parm new else (new, parm) in
        Ok (Some (result ++ [new], rep_type, parm))
      else Ok None
  end.

(** Whether the parameters match those to find. *)
Fixpoint parms_match (parm find : dict string) : res bool :=
  match find with
  | [] => Ok true
  | (k, v) :: find =>
      v' ← of_option KeyError (dget parm k);
      if String.eqb v' v then parms_match parm find else Ok false
  end.

Definition uri_replace (ud : urldata) (uri_find uri_repl : string) (replacements : dict string) (tarball : option string) :
    res (option string) :=
  if str_empty (ud_url ud) || str_empty uri_find || str_empty uri_repl then Ok None
  else
    u ← decodeurl (ud_url ud);
    find ← decodeurl uri_find;
    repl ← decodeurl uri_repl;
    r ← fold_res (replace_field ud u replacements tarball) (Some ([], u_type repl, u_parm u))
      (List.combine (seq 0 5) (List.combine (url_fields u) (List.combine (url_fields find) (url_fields repl))));
    match r with
    | Some ([type; host; path; user; pswd], _, parm) =>
        m ← parms_match parm (u_parm find);
        if (m : bool) then
          let parm := foldl (λ p kv, dset p kv.1 (replace_all replacements kv.2)) parm (u_parm repl) in
          result ← encodeurl (MkDecoded type host path user pswd parm);
          Ok (if String.eqb result (ud_url ud) then None else Some result)
        else Ok None
    | _ => Ok None
    end.

Definition is_fetch_exception (e : exn) : bool :=
  match e with
  | MalformedUrl | UntrustedUrl | FetchError | ChecksumError _ | NoChecksumError | NoMethodError | MissingParameterError
  | ParameterError | NetworkAccess => true
  | _ => false
  end.

Definition mirror_replacements (u : decoded) : dict string :=
  [("TYPE", u_type u); ("HOST", u_host u); ("PATH", u_path u);
   ("BASENAME", path_basename (u_path u));
   ("MIRRORNAME", replace (u_host u) ":" "." +s+ replace (replace (u_path u) "/" ".") "*" ".")].

(** [localmirrors.remove(line)] *)
Fixpoint remove_line (line : string * string) (l : list (string * string)) : list (string * string) :=
  match l with
  | [] => []
  | x :: l => if bool_decide (x = line) then l else x :: remove_line line l
  end.

(** What [build_mirroruris] collects: [uris] and [uds]. *)
Definition mirrored : Type := list string * list urldata.

(** [newud = FetchData(newuri, ld); newud.setup_localpath(ld)]: what [newud] is
    bound to, and whether an exception of the fetcher was raised. *)
Definition mirror_data (newud : option urldata) (newuri : string) : res (option urldata * bool) :=
  match new_fetch_data d newuri false with
  | Ok ud =>
      match setup_localpath d ud with
      | Ok ud => Ok (Some ud, true)
      | Raise e => if is_fetch_exception e then Ok (Some ud, false) else Raise e
      end
  | Raise e => if is_fetch_exception e then Ok (newud, false) else Raise e
  end.

(** One line and one tarball; [newud] is the variable of the same name, which
    keeps its value from one round of the loops to the next. *)
Definition mirror_step (origud ud : urldata) (replacements : dict string)
    (adduri : urldata → mirrored → res mirrored) (line : string * string)
    (acc : mirrored * option urldata) (tarball : option string) : res (mirrored * option urldata) :=
  let '(found, newud) := acc in
  newuri ← uri_replace ud line.1 line.2 replacements tarball;
  match newuri with
  | Some (String _ _ as newuri) =>
      if bool_decide (newuri ∈ found.1) || String.eqb newuri (ud_url origud) then Ok (found, newud)
      else
        t ← trusted_network d newuri;
        if (t : bool) then
          '(newud, good) ← mirror_data newud newuri;
          match newud with
          | Some nu =>
              found ← adduri nu (if (good : bool) then (found.1 ++ [newuri], found.2 ++ [nu]) else found);
              Ok (found, newud)
          | None => Ok (found, newud)
          end
        else Ok (found, newud)
  | _ => Ok (found, newud)
  end.

(** [adduri]; each call has one line less, so that one more than their number
    is fuel enough. *)
Fixpoint adduri (origud : urldata) (replacements : dict string) (tarballs : list (option string)) (fuel : nat)
    (mirrors : list (string * string)) (ud : urldata) (found : mirrored) : res mirrored :=
  match fuel with
  | O => Raise OutOfFuel
  | S fuel =>
      r ← fold_res (λ acc line,
        fold_res (mirror_step origud ud replacements (adduri origud replacements tarballs fuel (remove_line line mirrors)) line)
          acc tarballs) (found, None) mirrors;
      Ok r.1
  end.

Definition build_mirroruris (origud : urldata) (mirrors : list (string * string)) : res mirrored :=
  let tarballs := match ud_mirrortarballs origud with [] => [None] | l => List.map Some l end in
  adduri origud (mirror_replacements (ud_dec origud)) tarballs (S (List.length mirrors)) mirrors origud ([], []).
End mirrors.

(** ** Files *)

Inductive content : Type :=
  | Text (s : string)
  | Pickled (checksums : dict string).

Inductive node : Type :=
  | File (c : content) (mtime : Z)
  | Dir (mtime : Z)
  | Symlink (target : string).

(** The file system, the time of the clock, and the data store. *)
Record fetching (D : Type) : Type := MkFetching {
  fs_nodes : gmap string node;
  fs_clock : Z;
  fs_data : D
}.
Arguments MkFetching {D} _ _ _.
Arguments fs_nodes {D} _.
Arguments fs_clock {D} _.
Arguments fs_data {D} _.

Section files.
Context {D : Type}.
Implicit Types s : fetching D.

Definition set_nodes (f : gmap string node → gmap string node) s : fetching D :=
  MkFetching (f (fs_nodes s)) (fs_clock s) (fs_data s).

(** The name that links lead to, at most forty of them. *)
Fixpoint realname (n : nat) (nodes : gmap string node) (p : string) : option string :=
  match n with
  | O => None
  | S n =>
      match nodes !! p with
      | Some (Symlink target) => realname n nodes (path_join (path_dirname p) target)
      | _ => Some p
      end
  end.

Definition os_stat s (p : string) : option node := q ← realname 40 (fs_nodes s) p; fs_nodes s !! q.

Definition os_exists s (p : string) : bool := match os_stat s p with Some _ => true | None => false end.
Definition os_lexists s (p : string) : bool := match fs_nodes s !! p with Some _ => true | None => false end.
Definition os_isdir s (p : string) : bool := match os_stat s p with Some (Dir _) => true | _ => false end.
Definition os_islink s (p : string) : bool := match fs_nodes s !! p with Some (Symlink _) => true | _ => false end.

Definition getmtime s (p : string) : res Z :=
  match os_stat s p with Some (File _ t) | Some (Dir t) => Ok t | _ => Raise FileNotFound end.

Definition os_unlink (p : string) : M (fetching D) unit :=
  s ← get;
  match fs_nodes s !! p with
  | Some (Dir _) => raise OSError
  | _ => modify (set_nodes (delete p))
  end.

(** [os.symlink], which does nothing where the name is in use. *)
Definition os_symlink (target p : string) : M (fetching D) unit :=
  s ← get;
  if os_lexists s p then mret tt else modify (set_nodes (<[p := Symlink target]>)).

(** [open(p, 'w')], with what is then written. *)
Definition open_w (p : string) (c : content) : M (fetching D) unit :=
  s ← get;
  match realname 40 (fs_nodes s) p with
  | None => raise OSError
  | Some q =>
      match fs_nodes s !! q with
      | Some (Dir _) => raise OSError
      | _ => modify (set_nodes (<[q := File c (fs_clock s)]>))
      end
  end.

(** [os.utime(p, None)] *)
Definition touch (p : string) : M (fetching D) unit :=
  s ← get;
  match q ← realname 40 (fs_nodes s) p; n ← fs_nodes s !! q; Some (q, n) with
  | Some (q, File c _) => modify (set_nodes (<[q := File c (fs_clock s)]>))
  | Some (q, Dir _) => modify (set_nodes (<[q := Dir (fs_clock s)]>))
  | _ => mret tt
  end.

(** The names a pattern stands for, where it has special characters. *)
Context (glob_magic : gmap string node → string → list string).

Definition has_magic (p : string) : bool := char_in "*" p || char_in "?" p || char_in "[" p.

Definition glob_names s (p : string) : list string :=
  if has_magic p then glob_magic (fs_nodes s) p else if os_lexists s p then [p] else [].

(** [bb.utils.remove(p)] *)
Definition remove (p : string) : M (fetching D) unit :=
  if str_empty p then mret tt else s ← get; for_each (glob_names s p) os_unlink.

(** [bb.utils.movefile(src, dest)] within a file system; what fails is only
    reported. *)
Definition movefile (src dest : string) : M (fetching D) unit :=
  s ← get;
  match fs_nodes s !! src with
  | None => mret tt
  | Some n =>
      match n, fs_nodes s !! dest with
      | _, Some (Dir _) | Dir _, Some (File _ _) => mret tt
      | _, _ => modify (set_nodes (λ m, <[dest := n]> (delete src m)))
      end
  end.
End files.

(** ** Checking what was fetched *)

(** What a fetch method does; [update] and the like are named after the methods
    of [FetchMethod].  A method without [build_mirror_data] does nothing there. *)
Class FetchActions (D : Type) : Type := {
  supports_checksum : urldata → fetching D → bool;
  recommends_checksum : urldata → bool;
  need_update : urldata → M (fetching D) bool;
  download_ud : urldata → M (fetching D) unit;
  build_mirror_data : urldata → M (fetching D) unit;
  clean_ud : urldata → M (fetching D) unit;
  try_premirror : urldata → bool;
  checkstatus_ud : urldata → M (fetching D) bool;
  fetched : urldata → fetching D → bool
}.

(** [ud.localpath] and [ud.donestamp] *)
Definition path_of (ud : urldata) : string := default "" (ud_localpath ud).
Definition stamp_of (ud : urldata) : string := default "" (ud_donestamp ud).

Section checks.
Context {D : Type} `{FetchStore D} `{FetchActions D}.
Context (glob_magic : gmap string node → string → list string).
(** The checksum of a kind of a file. *)
Context (file_sum : string → content → string).

(** What [FetchMethod] itself does. *)
Definition base_supports_checksum (ud : urldata) (s : fetching D) : bool := negb (os_isdir s (path_of ud)).
Definition base_need_update (ud : urldata) : M (fetching D) bool := gets (λ s, negb (os_exists s (path_of ud))).
Definition base_clean (ud : urldata) : M (fetching D) unit := remove glob_magic (path_of ud).
Definition base_done (ud : urldata) (s : fetching D) : bool := os_exists s (path_of ud).

(** [bb.utils.md5_file] and the others *)
Definition sum_file (id p : string) : M (fetching D) string :=
  s ← get;
  match os_stat s p with
  | Some (File c _) => mret (file_sum id c)
  | Some (Dir _) => raise OSError
  | _ => raise FileNotFound
  end.

Definition checksum_data (ud : urldata) (precomputed : dict string) (id : string) : M (fetching D) (string * string) :=
  match dget precomputed id with
  | Some v => mret (id, v)
  | None => v ← sum_file id (path_of ud); mret (id, v)
  end.

Definition expected (ud : urldata) (id : string) : option string := default None (dget (ud_expected ud) id).

(** The last checksum that is not the one expected. *)
Definition bad_checksum (ud : urldata) (sums : dict string) : option string :=
  foldl (λ bad kv,
    match expected ud kv.1 with
    | Some (String _ _ as e) => if String.eqb e kv.2 then bad else Some kv.2
    | _ => bad
    end) None sums.

(** [ud.ignore_checksums] is False wherever it is set. *)
Definition verify_checksum (ud : urldata) (precomputed : dict string) : M (fetching D) (dict string) :=
  s ← get;
  if negb (supports_checksum ud s) then mret []
  else
    sums ← map_state (checksum_data ud precomputed) CHECKSUM_LIST;
    _ ← (if recommends_checksum ud && forallb (λ id, bool_decide (expected ud id = None)) CHECKSUM_LIST then
           strict ← lift (ds_getVar (fs_data s) "BB_STRICT_CHECKSUM");
           if bool_decide (strict = Some "1") then raise NoChecksumError else mret tt
         else mret tt);
    match bad_checksum ud sums with
    | Some (String _ _ as bad) => raise (ChecksumError bad)
    | _ => mret sums
    end.

Definition rename_bad_checksum (ud : urldata) (suffix : string) : M (fetching D) unit :=
  match ud_localpath ud with
  | None => mret tt
  | Some p => movefile p (p +s+ "_bad-checksum_" +s+ suffix)
  end.

(** Whether two dicts are equal. *)
Definition dict_eqb (a b : dict string) : bool :=
  (List.length a =? List.length b)%nat && forallb (λ kv, bool_decide (dget b kv.1 = Some kv.2)) a.

(** The checksums in a stamp that is newer than the file. *)
Definition precomputed_checksums (ud : urldata) : M (fetching D) (dict string) :=
  s ← get;
  if os_exists s (stamp_of ud) then
    newer ← (if os_isdir s (path_of ud) then mret true
             else
               t1 ← lift (getmtime s (path_of ud));
               t2 ← lift (getmtime s (stamp_of ud));
               mret (t1 <? t2)%Z);
    mret (if (newer : bool) then match os_stat s (stamp_of ud) with Some (File (Pickled sums) _) => sums | _ => [] end else [])
  else mret [].

Definition is_checksum_error (e : exn) : bool := match e with ChecksumError _ => true | _ => false end.
Definition checksum_of (e : exn) : string := match e with ChecksumError c => c | _ => "" end.

(** [except ChecksumError]: the file is put aside and the stamp removed. *)
Definition checksum_failed (ud : urldata) (e : exn) : M (fetching D) unit :=
  s ← get;
  _ ← (if os_exists s (path_of ud) then rename_bad_checksum ud (checksum_of e) else mret tt);
  remove glob_magic (stamp_of ud).

Definition verify_donestamp (ud : urldata) (origud : option urldata) : M (fetching D) bool :=
  if negb (ud_needdonestamp ud) || match origud with Some o => negb (ud_needdonestamp o) | None => false end then mret true
  else
    s ← get;
    if negb (os_exists s (path_of ud)) then
      _ ← (if os_exists s (stamp_of ud) then remove glob_magic (stamp_of ud) else mret tt);
      mret false
    else if negb (supports_checksum ud s) || match origud with Some o => negb (supports_checksum o s) | None => false end then
      mret (os_exists s (stamp_of ud))
    else
      precomputed ← precomputed_checksums ud;
      catch
        (checksums ← verify_checksum ud precomputed;
         _ ← (if dict_eqb checksums precomputed then mret tt else open_w (stamp_of ud) (Pickled checksums));
         mret true)
        is_checksum_error
        (λ e, _ ← checksum_failed ud e; mret false).

Definition update_stamp (ud : urldata) : M (fetching D) unit :=
  if negb (ud_needdonestamp ud) then mret tt
  else
    s ← get;
    if os_exists s (stamp_of ud) then touch (stamp_of ud)
    else
      catch
        (checksums ← verify_checksum ud [];
         open_w (stamp_of ud) (Pickled checksums))
        is_checksum_error
        (λ e, _ ← checksum_failed ud e; raise e).
End checks.

(** ** Fetching *)

(** [except IOError] *)
Definition is_io_error (e : exn) : bool :=
  match e with OSError | FileNotFound | StaleHandle => true | _ => false end.

(** The exceptions that [try_mirror_url] handles. *)
Definition is_caught (e : exn) : bool :=
  match e with
  | StaleHandle => true
  | NetworkAccess | NoChecksumError => false
  | e => is_fetch_exception e
  end.

Section download.
Context {D : Type} `{FetchStore D} `{FetchMethods D} `{FetchActions D}.
Context (re_match : string → string → res bool) (re_sub : string → string → string → res string).
Context (glob_magic : gmap string node → string → list string).
Context (file_sum : string → content → string).

Definition fetch_one (ud : urldata) : M (fetching D) unit :=
  _ ← download_ud ud;
  build_mirror_data ud.

Definition ensure_symlink (target link_name : string) : M (fetching D) unit :=
  s ← get;
  if os_exists s link_name then mret tt
  else
    _ ← (if os_islink s link_name then os_unlink link_name else mret tt);
    os_symlink target link_name.

(** Whether what was fetched is an archive that the method of the address works
    on. *)
Definition is_mirror_tarball (origud ud : urldata) : bool :=
  bool_decide (path_basename (path_of ud) ∈ ud_mirrortarballs origud) &&
  negb (String.eqb (path_basename (path_of ud)) (path_basename (path_of origud))).

(** The archive is put where the method of the address looks for it. *)
Definition use_tarball (origud ud : urldata) : M (fetching D) unit :=
  s ← get;
  dldir ← lift (ds_getVar (fs_data s) "DL_DIR");
  _ ← match ud_donestamp ud with Some (String _ _ as p) => open_w p (Text "") | _ => mret tt end;
  dldir ← lift (of_option TypeError dldir);
  let dest := path_join dldir (path_basename (path_of ud)) in
  s ← get;
  _ ← (if os_exists s dest then mret tt else os_symlink (path_of ud) dest);
  verified ← verify_donestamp glob_magic file_sum origud None;
  update ← (if (verified : bool) then need_update origud else mret true);
  if (update : bool) then fetch_one origud else mret tt.

(** [except BBFetchException]: what is left of the source is removed. *)
Definition mirror_failed (ud : urldata) (e : exn) : M (fetching D) bool :=
  match e with
  | StaleHandle => mret false
  | _ =>
      s ← get;
      _ ← (if is_checksum_error e && os_exists s (path_of ud) then rename_bad_checksum ud (checksum_of e) else mret tt);
      _ ← clean_ud ud;
      mret false
  end.

(** [try_mirror_url], as a condition. *)
Definition try_mirror_url (origud ud : urldata) (check : bool) : M (fetching D) bool :=
  catch
    (if check then checkstatus_ud ud
     else
       verified ← verify_donestamp glob_magic file_sum ud (Some origud);
       update ← (if (verified : bool) then need_update ud else mret true);
       _ ← (if (update : bool) then fetch_one ud else mret tt);
       s ← get;
       if unset (ud_localpath ud) || negb (os_exists s (path_of ud)) then mret false
       else if bool_decide (ud_localpath ud = ud_localpath origud) then mret true
       else if is_mirror_tarball origud ud then _ ← use_tarball origud ud; mret true
       else
         _ ← ensure_symlink (path_of ud) (path_of origud);
         _ ← update_stamp glob_magic file_sum origud;
         mret true)
    is_caught (mirror_failed ud).

(** The first mirror that has it. *)
Fixpoint try_each (origud : urldata) (check : bool) (uds : list urldata) : M (fetching D) bool :=
  match uds with
  | [] => mret false
  | ud :: uds =>
      found ← try_mirror_url origud ud check;
      if (found : bool) then mret true else try_each origud check uds
  end.

Definition try_mirrors (origud : urldata) (mirrors : list (string * string)) (check : bool) : M (fetching D) bool :=
  s ← get;
  '(_, uds) ← lift (build_mirroruris (fs_data s) re_match re_sub (λ ud, supports_checksum ud s) origud mirrors);
  try_each origud check uds.

Definition set_data (f : D → D) (s : fetching D) : fetching D := MkFetching (fs_nodes s) (fs_clock s) (f (fs_data s)).

(** The premirrors, if there is no good copy yet. *)
Definition try_premirrors (ud : urldata) : M (fetching D) bool :=
  verified ← verify_donestamp glob_magic file_sum ud None;
  update ← (if (verified : bool) then need_update ud else mret true);
  if negb update then mret true
  else if try_premirror ud then
    s ← get;
    v ← lift (ds_getVar (fs_data s) "PREMIRRORS");
    found ← try_mirrors ud (mirror_from_string v) false;
    if (found : bool) then
      catch (_ ← update_stamp glob_magic file_sum ud; mret true) is_checksum_error (λ _, mret false)
    else mret false
  else mret false.

(** Where the address itself has failed, the mirrors. *)
Definition after_failure (ud : urldata) (verified : bool) (e : exn) : M (fetching D) bool :=
  s ← get;
  _ ← (if is_checksum_error e && os_exists s (path_of ud) then rename_bad_checksum ud (checksum_of e) else mret tt);
  _ ← (if verified then mret tt else clean_ud ud);
  s ← get;
  v ← lift (ds_getVar (fs_data s) "MIRRORS");
  try_mirrors ud (mirror_from_string v) false.

(** [except NetworkAccess] and [NoChecksumError] raise again. *)
Definition tries_mirrors (e : exn) : bool :=
  match e with NetworkAccess | NoChecksumError => false | e => is_fetch_exception e end.

Definition try_upstream (ud : urldata) (verified : bool) : M (fetching D) bool :=
  catch
    (s ← get;
     t ← lift (trusted_network (fs_data s) (ud_url ud));
     if (t : bool) then
       _ ← fetch_one ud;
       _ ← update_stamp glob_magic file_sum ud;
       mret true
     else raise UntrustedUrl)
    tries_mirrors (after_failure ud verified).

(** The body of the loop of [Fetch.download], in the [try]. *)
Definition fetch_body (network : option string) (premirroronly : bool) (ud : urldata) : M (fetching D) unit :=
  _ ← modify (set_data (set_no_network network));
  done ← try_premirrors ud;
  _ ← (if premirroronly then modify (set_data (set_no_network (Some "1"))) else mret tt);
  verified ← verify_donestamp glob_magic file_sum ud None;
  missing ← (if (done : bool) then mret false else if (verified : bool) then need_update ud else mret true);
  done ← (if (missing : bool) then try_upstream ud verified else mret done);
  s ← get;
  if negb done || negb (fetched ud s) then raise FetchError
  else update_stamp glob_magic file_sum ud.

(** A stale handle is an error of checksums; other errors of files are caught,
    and nothing is done about them. *)
Definition fetch_url (network : option string) (premirroronly : bool) (ud : urldata) : M (fetching D) unit :=
  catch (fetch_body network premirroronly ud) is_io_error
    (λ e, match e with StaleHandle => raise (ChecksumError "") | _ => mret tt end).

Definition download (uds : list urldata) : M (fetching D) unit :=
  s ← get;
  network ← lift (ds_getVar (fs_data s) "BB_NO_NETWORK");
  only ← lift (ds_getVar (fs_data s) "BB_FETCH_PREMIRRORONLY");
  premirroronly ← lift (to_boolean only);
  for_each uds (λ ud,
    s ← get;
    ud ← lift (setup_localpath (fs_data s) ud);
    fetch_url network premirroronly ud).

(** [Fetch.checkstatus] *)
Definition check_url (ud : urldata) : M (fetching D) unit :=
  s ← get;
  ud ← lift (setup_localpath (fs_data s) ud);
  v ← lift (ds_getVar (fs_data s) "PREMIRRORS");
  found ← try_mirrors ud (mirror_from_string v) true;
  found ← (if (found : bool) then mret true else checkstatus_ud ud);
  found ← (if (found : bool) then mret true
           else
             s ← get;
             v ← lift (ds_getVar (fs_data s) "MIRRORS");
             try_mirrors ud (mirror_from_string v) true);
  if (found : bool) then mret tt else raise FetchError.

Definition checkstatus (uds : list urldata) : M (fetching D) unit := for_each uds check_url.
End download.
