(* ===== verification/FetchOk.v ===== *)
(** * What is fetched is what the recipe asks for (bb/fetch2/__init__.py)

    Addresses are read back as they are written, only mirrors in allowed
    networks are tried, and a source is taken only if its checksums are those
    of the recipe. *)

From Stdlib Require Import Ascii String.
From S2P Require Import Prelude.
From S2P Require Import PyStr.
From S2P Require Import PyDict.
From S2P Require Import Runs.
From S2P Require Import Cache.
From S2P Require Import RecipeFiles.
From S2P Require Import Fetch.

(** ** Addresses *)

Lemma hex_char c : hex_val (hex_digit (code c / 16)) = Some (code c / 16)%N ∧ hex_val (hex_digit (code c mod 16)) = Some (code c mod 16)%N.
Proof. by destruct c as [[] [] [] [] [] [] [] []]. Qed.

Lemma unquote_quote s : unquote (quote s) = s.
Proof.
  induction s as [|a s IH]; [done|]. cbn [quote]. destruct (always_safe a) eqn:E.
  - destruct (Ascii.eqb_spec a "%") as [->|Ha]; [done|]. cbn [unquote]. rewrite IH.
    destruct a as [[] [] [] [] [] [] [] []]; done.
  - cbn [unquote]. destruct (hex_char a) as [-> ->]. rewrite IH. f_equal.
    replace (16 * (code a / 16) + code a mod 16)%N with (code a) by (rewrite <-N.div_mod'; done).
    apply Ascii.ascii_N_embedding.
Qed.

(** The characters of a quoted text. *)
Lemma quote_chars p s : p "%"%char = true → (∀ c, always_safe c = true → p c = true) → str_all p (quote s) = true.
Proof.
  intros Hp Hs. induction s as [|a s IH]; [done|]. cbn [quote]. destruct (always_safe a) eqn:E; cbn [str_all].
  - by rewrite (Hs a E).
  - rewrite Hp, IH. assert (always_safe (hex_digit (code a / 16)) = true ∧ always_safe (hex_digit (code a mod 16)) = true) as [H1 H2]
      by (by destruct a as [[] [] [] [] [] [] [] []]).
    by rewrite !Hs.
Qed.

Lemma span_stop p a c b : str_all p a = true → p c = false → span p (a +s+ String c b) = (a, String c b).
Proof.
  intros Ha Hc. induction a as [|x a IH]; cbn in *; [by rewrite Hc|].
  apply andb_prop in Ha as [-> Ha]. by rewrite IH.
Qed.

Lemma span_all p a : str_all p a = true → span p a = (a, "").
Proof. intros Ha. induction a as [|x a IH]; cbn in *; [done|]. apply andb_prop in Ha as [-> Ha]. by rewrite IH. Qed.

(** None of some characters is in a text. *)
Definition free (cs s : string) : Prop := str_all (λ c, negb (char_in c cs)) s = true.

Lemma free_app cs a b : free cs (a +s+ b) ↔ free cs a ∧ free cs b.
Proof. unfold free. by rewrite str_all_app, andb_true_iff. Qed.

Lemma free_cons cs c s : free cs (String c s) ↔ char_in c cs = false ∧ free cs s.
Proof. unfold free. cbn. by rewrite andb_true_iff, negb_true_iff. Qed.

Lemma free_span cs (p : char → bool) s : (∀ c, p c = false → char_in c cs = true) → free cs s → str_all p s = true.
Proof.
  intros Hp. induction s as [|a s IH]; [done|]. rewrite free_cons. intros [Ha Hs]. cbn. rewrite IH by done.
  destruct (p a) eqn:E; [done|]. apply Hp in E. congruence.
Qed.

Lemma free_sub cs cs' s : (∀ c, char_in c cs' = true → char_in c cs = true) → free cs s → free cs' s.
Proof. intros Hc. apply free_span. intros c H. apply Hc. by apply negb_false_iff. Qed.

Lemma free_char_in cs c s : char_in c cs = true → free cs s → char_in c s = false.
Proof.
  intros Hc. induction s as [|a s IH]; [done|]. rewrite free_cons. intros [Ha Hs]. cbn. rewrite IH by done.
  destruct (Ascii.eqb_spec a c); [congruence|done].
Qed.

Lemma quoted_free cs s : str_all (λ c, negb (always_safe c) && negb (Ascii.eqb c "%")) cs = true → free cs (quote s).
Proof.
  intros Hcs. unfold free. assert (∀ c, char_in c cs = true → always_safe c = false ∧ c ≠ "%"%char) as H.
  { intros c. induction cs as [|x cs IH]; [done|]. cbn in *. apply andb_prop in Hcs as [Hx Hcs].
    apply andb_prop in Hx as [Hx1 Hx2]. destruct (Ascii.eqb_spec x c) as [->|_]; [|by apply IH].
    intros _. apply negb_true_iff in Hx1, Hx2. by destruct (Ascii.eqb_spec c "%"). }
  apply quote_chars.
  - destruct (char_in "%" cs) eqn:E; [|done]. by apply H in E as [_ ?].
  - intros c Hc. destruct (char_in c cs) eqn:E; [|done]. apply H in E as [? _]. congruence.
Qed.

(** *** Who fetches *)

(** What follows the location. *)
Definition ends_location (t : string) : Prop := t = "" ∨ ∃ r, t = String ";" r.

Lemma user_splits_none q t : free "@" q → ends_location t → user_splits (q +s+ t) = [].
Proof.
  intros Hq Ht. induction q as [|c q IH]; cbn [String.append].
  - by destruct Ht as [->|[r ->]].
  - apply free_cons in Hq as [Hc Hq]. cbn [user_splits]. destruct (Ascii.eqb c "/" || Ascii.eqb c ";"); [done|].
    rewrite (IH Hq). cbn. destruct q as [|c' q]; cbn.
    + by destruct Ht as [->|[r ->]].
    + apply free_cons in Hq as [Hc' _]. by destruct c' as [[] [] [] [] [] [] [] []].
Qed.

Lemma user_splits_first u q t : u ≠ "" → free "/;" u → free "@" q → q ≠ "" → ends_location t →
  ∃ l, user_splits (u +s+ "@" +s+ q +s+ t) = (u, q +s+ t) :: l.
Proof.
  intros Hu Hf Hq Hqn Ht. induction u as [|c u IH]; [done|]. apply free_cons in Hf as [Hc Hf].
  assert (Ascii.eqb c "/" || Ascii.eqb c ";" = false) as Hs.
  { revert Hc. by destruct c as [[] [] [] [] [] [] [] []]. }
  destruct u as [|c' u].
  - cbn [String.append user_splits]. rewrite Hs. cbn [orb Ascii.eqb Bool.eqb]. rewrite user_splits_none by done. cbn.
    destruct q as [|x q]; [done|]. apply free_cons in Hq as [Hx _]. cbn. eexists.
    by destruct x as [[] [] [] [] [] [] [] []].
  - destruct (IH ltac:(done) Hf) as [l E]. cbn [String.append] in *. cbn [user_splits] in *. rewrite Hs. rewrite E.
    cbn. by eexists.
Qed.

Lemma match_location_ok q t : q ≠ "" → free ";" q → ends_location t → free (str1 newline) t →
  match_location (q +s+ t) = Some (q, match t with String _ r => Some r | "" => None end).
Proof.
  intros Hq Hf Ht Hn. unfold match_location.
  assert (str_all (λ c, negb (Ascii.eqb c ";")) q = true) as Ha.
  { eapply free_span; [|exact Hf]. intros c Hc. apply negb_false_iff, Ascii.eqb_eq in Hc. by subst c. }
  destruct Ht as [->|[r ->]].
  - rewrite app_empty_r, span_all by done. by destruct q.
  - rewrite span_stop by done. apply free_cons in Hn as [_ Hn]. rewrite (span_all _ r); [by destruct q|].
    eapply free_span; [|exact Hn]. intros c Hc. apply negb_false_iff, Ascii.eqb_eq in Hc. by subst c.
Qed.

(** *** Parameters *)

Definition parm_ok (kv : string * string) : Prop := free (String newline ";=") kv.1 ∧ free (String newline ";=") kv.2.

Definition parm_text (kv : string * string) : string := kv.1 +s+ "=" +s+ kv.2.

Definition parms_text (p : dict string) : string := join "" (List.map (λ kv : string * string, ";" +s+ kv.1 +s+ "=" +s+ kv.2) p).

Lemma join_empty_cons s l : join "" (s :: l) = s +s+ join "" l.
Proof. destruct l; [by rewrite app_empty_r|done]. Qed.

Lemma parms_text_ends p : ends_location (parms_text p).
Proof. destruct p as [|kv p]; [by left|right]. unfold parms_text. cbn [List.map]. rewrite join_empty_cons. cbn. by eexists. Qed.

Lemma parms_text_join kv p : parms_text (kv :: p) = ";" +s+ join ";" (List.map parm_text (kv :: p)).
Proof.
  revert kv. induction p as [|kv' p IH]; intros kv; [done|]. unfold parms_text in *. cbn [List.map] in *.
  rewrite join_empty_cons. rewrite (join_cons ";") by done. rewrite IH. unfold parm_text. cbn. by rewrite !app_str_assoc.
Qed.

Lemma parm_text_free kv cs : parm_ok kv → (∀ c, char_in c cs = true → char_in c (String newline ";") = true) → free cs (parm_text kv).
Proof.
  intros [H1 H2] Hc. unfold parm_text. rewrite !free_app.
  split; [|split]; [eapply free_sub; [|exact H1]| |eapply free_sub; [|exact H2]].
  - intros c H%Hc. revert H. by destruct c as [[] [] [] [] [] [] [] []].
  - apply free_cons. split; [|done]. destruct (char_in "=" cs) eqn:E; [by apply Hc in E|done].
  - intros c H%Hc. revert H. by destruct c as [[] [] [] [] [] [] [] []].
Qed.

Lemma add_parm_ok p kv : parm_ok kv → add_parm p (parm_text kv) = Ok (dset p kv.1 kv.2).
Proof.
  intros [H1 H2]. unfold add_parm, parm_text. destruct (str_empty _) eqn:E; [by destruct kv.1|].
  rewrite char_in_app. cbn [char_in String.append]. rewrite orb_true_r. cbn.
  rewrite split_on_app.
  by rewrite !split_on_word by (eapply free_char_in; [|eassumption]; done).
Qed.

Lemma add_parms_ok p l : Forall parm_ok l → dict_wf (p ++ l) → fold_res add_parm p (List.map parm_text l) = Ok (p ++ l).
Proof.
  revert p. induction l as [|kv l IH]; intros p Hl Hn; cbn [List.map fold_res]; [by rewrite app_nil_r|].
  apply Forall_cons in Hl as [Hkv Hl]. rewrite add_parm_ok by done. cbn.
  rewrite dset_fresh.
  - replace (p ++ kv :: l) with ((p ++ [kv]) ++ l) in * by (by rewrite <-app_assoc). destruct kv. by apply IH.
  - unfold dict_wf in Hn. rewrite fmap_app in Hn. apply NoDup_app in Hn as (_ & Hn & _). intros H. apply (Hn _ H). left.
Qed.

Lemma parms_read p : Forall parm_ok p → dict_wf p →
  fold_res add_parm [] (split_on ";" (default "" (match parms_text p with String _ r => Some r | "" => None end))) = Ok p.
Proof.
  intros Hp Hn. destruct p as [|kv p]; [done|]. rewrite parms_text_join. cbn [String.append default from_option id].
  change (join ";" ?l) with (join (str1 ";") l). rewrite split_on_join; [by apply (add_parms_ok [])|done|].
  apply Forall_map. eapply Forall_impl; [exact Hp|]. intros kv' Hk. apply (free_char_in ";"); [done|].
  apply parm_text_free; [done|]. intros c. by destruct c as [[] [] [] [] [] [] [] []].
Qed.

Lemma parms_text_line p : Forall parm_ok p → free (str1 newline) (parms_text p).
Proof.
  intros Hp. destruct p as [|kv p]; [done|]. unfold parms_text. induction Hp as [|kv' l Hk Hl IH]; [done|].
  cbn [List.map]. rewrite join_empty_cons. rewrite free_app. split; [|done].
  change (free (str1 newline) (";" +s+ parm_text kv')). rewrite free_app. split; [done|].
  apply parm_text_free; [done|]. intros c. by destruct c as [[] [] [] [] [] [] [] []].
Qed.

(** *** The addresses that are read back *)

(** Of a host: the user may be written with any character but a colon, a slash
    and a semicolon, also with an at sign. *)
Definition web_address (u : decoded) : Prop :=
  u_type u ≠ "" ∧ free ":" (u_type u) ∧ str_lower (u_type u) ≠ "file" ∧
  u_host u ≠ "" ∧ free "/;@" (u_host u) ∧ startswith (u_path u) "/" = true ∧
  free ":/;" (u_user u) ∧ free (String newline "/;") (u_pswd u) ∧ (u_user u = "" → u_pswd u = "").

(** Of a file. *)
Definition file_address (u : decoded) : Prop :=
  u_type u = "file" ∧ u_host u = "" ∧ u_user u = "" ∧ u_pswd u = "" ∧ u_path u ≠ "".

Definition address_ok (u : decoded) : Prop :=
  (web_address u ∨ file_address u) ∧ str_in "//" (u_path u) = false ∧ Forall parm_ok (u_parm u) ∧ dict_wf (u_parm u).

Lemma one_slash_same n p : str_in "//" p = false → one_slash n p = p.
Proof. intros H. destruct n; [done|]. cbn [one_slash]. by rewrite H. Qed.

Lemma match_url_type t rest : free ":" t →
  match_url (t +s+ "://" +s+ rest) =
  match first_user (user_splits rest) with
  | Some (user, (location, parm)) => Some (t, Some user, location, parm)
  | None => match match_location rest with Some (location, parm) => Some (t, None, location, parm) | None => None end
  end.
Proof.
  intros Ht. unfold match_url. rewrite (span_stop _ t ":" ("//" +s+ rest)).
  - change (startswith (String ":" ("//" +s+ rest)) "://") with (startswith ("://" +s+ rest) "://").
    change (str_drop 3 (String ":" ("//" +s+ rest))) with (str_drop (String.length "://") ("://" +s+ rest)).
    by rewrite startswith_app, str_drop_app.
  - eapply free_span; [|exact Ht]. intros c Hc. apply negb_false_iff, Ascii.eqb_eq in Hc. by subst c.
  - done.
Qed.

Definition userinfo (u : decoded) : string := u_user u +s+ (if str_empty (u_pswd u) then "" else ":" +s+ u_pswd u).

Lemma match_user_ok u : free ":/;" (u_user u) → free (String newline "/;") (u_pswd u) → u_user u ≠ "" →
  match_user (userinfo u) = Some (u_user u, u_pswd u).
Proof.
  intros Hu Hp Hn. unfold match_user, userinfo.
  assert (str_all (λ c, negb (Ascii.eqb c ":")) (u_user u) = true) as Ha.
  { eapply free_span; [|exact Hu]. intros c Hc. apply negb_false_iff, Ascii.eqb_eq in Hc. by subst c. }
  assert (str_all (λ c, negb (Ascii.eqb c newline)) (u_pswd u) = true) as Hb.
  { eapply free_span; [|exact Hp]. intros c Hc. apply negb_false_iff, Ascii.eqb_eq in Hc. by subst c. }
  destruct (u_pswd u) as [|a p] eqn:Ep; cbn [str_empty].
  - rewrite app_empty_r, span_all by done. by destruct (u_user u).
  - change (":" +s+ String a p) with (String ":" (String a p)). rewrite span_stop by done.
    rewrite (span_all _ (String a p)) by done. by destruct (u_user u).
Qed.

Lemma userinfo_free u : free ":/;" (u_user u) → free (String newline "/;") (u_pswd u) → free "/;" (userinfo u).
Proof.
  intros Hu Hp. unfold userinfo. rewrite free_app. split.
  - eapply free_sub; [|exact Hu]. intros c. by destruct c as [[] [] [] [] [] [] [] []].
  - destruct (str_empty (u_pswd u)); [done|]. apply free_cons. split; [done|].
    eapply free_sub; [|exact Hp]. intros c. by destruct c as [[] [] [] [] [] [] [] []].
Qed.

(** The location of an address. *)
Definition location (u : decoded) : string := u_host u +s+ quote (u_path u).

Lemma location_free u : free "/;@" (u_host u) → free "@" (location u) ∧ free ";" (location u).
Proof.
  intros Hh. unfold location. rewrite !free_app.
  split; (split; [eapply free_sub; [|exact Hh]; intros c; by destruct c as [[] [] [] [] [] [] [] []]|by apply quoted_free]).
Qed.

Lemma web_match u : web_address u → Forall parm_ok (u_parm u) →
  match_url (u_type u +s+ "://" +s+ (if str_empty (u_user u) then "" else userinfo u +s+ "@") +s+ location u +s+ parms_text (u_parm u)) =
  Some (u_type u, if str_empty (u_user u) then None else Some (userinfo u), location u,
    match parms_text (u_parm u) with String _ r => Some r | "" => None end).
Proof.
  intros (_ & Ht & _ & Hh & Hhf & Hp & Hu & Hw & _) Hparm. rewrite match_url_type by done.
  destruct (location_free u Hhf) as [Hat Hsc]. pose proof (parms_text_ends (u_parm u)) as He.
  pose proof (parms_text_line _ Hparm) as Hn.
  assert (location u ≠ "") as Hl by (unfold location; by destruct (u_host u)).
  destruct (u_user u) as [|a user] eqn:Eu; cbn [str_empty].
  - change ("" +s+ location u +s+ parms_text (u_parm u)) with (location u +s+ parms_text (u_parm u)).
    rewrite user_splits_none by done. cbn [first_user]. by rewrite match_location_ok.
  - rewrite app_str_assoc. destruct (user_splits_first (userinfo u) (location u) (parms_text (u_parm u))) as [l ->]; [|by apply userinfo_free; rewrite ?Eu|done..|].
    + unfold userinfo. by rewrite Eu.
    + cbn [first_user]. by rewrite match_location_ok.
Qed.

Lemma file_match u : file_address u → Forall parm_ok (u_parm u) →
  match_url (u_type u +s+ "://" +s+ location u +s+ parms_text (u_parm u)) =
  Some (u_type u, None, location u, match parms_text (u_parm u) with String _ r => Some r | "" => None end).
Proof.
  intros (Ht & Hh & _ & _ & Hp) Hparm. rewrite match_url_type by (by rewrite Ht).
  destruct (location_free u ltac:(by rewrite Hh)) as [Hat Hsc]. pose proof (parms_text_ends (u_parm u)) as He.
  assert (location u ≠ "") as Hl.
  { unfold location. rewrite Hh. destruct (u_path u) as [|c p]; [done|]. cbn. by destruct (always_safe c). }
  rewrite user_splits_none by done. cbn [first_user]. by rewrite match_location_ok by (done || by apply parms_text_line).
Qed.

Lemma encode_web u : web_address u → str_in "//" (u_path u) = false →
  encodeurl u = Ok (u_type u +s+ "://" +s+ (if str_empty (u_user u) then "" else userinfo u +s+ "@") +s+ location u +s+
    parms_text (u_parm u)).
Proof.
  intros (Ht & _ & Hlow & Hh & _ & Hpath & _) Hs. unfold encodeurl. rewrite one_slash_same by done.
  assert (String.eqb (u_type u) "file" = false) as -> by (apply String.eqb_neq; intros E; rewrite E in Hlow; done).
  destruct (str_empty (u_type u)) eqn:Et; [by destruct (u_type u)|].
  destruct (str_empty (u_host u)) eqn:Eh; [by destruct (u_host u)|].
  destruct (str_empty (u_path u)) eqn:Ep; [by destruct (u_path u)|]. cbn [negb]. rewrite !andb_true_r.
  unfold location, userinfo. destruct (str_empty (u_user u)); cbn [negb andb]; by rewrite !app_str_assoc.
Qed.

Lemma encode_file u : file_address u → str_in "//" (u_path u) = false →
  encodeurl u = Ok (u_type u +s+ "://" +s+ location u +s+ parms_text (u_parm u)).
Proof.
  intros (Ht & Hh & Hu & Hw & Hp) Hs. unfold encodeurl. rewrite one_slash_same by done. rewrite Ht, Hh, Hu. cbn [str_empty String.eqb].
  destruct (str_empty (u_path u)) eqn:Ep; [by destruct (u_path u)|]. unfold location. rewrite Hh. done.
Qed.

Lemma web_path u : free "/;@" (u_host u) → startswith (u_path u) "/" = true →
  ∃ p, u_path u = "/" +s+ p ∧ split1 "/" (location u) = Some (u_host u, quote p).
Proof.
  intros Hh [p Hp]%startswith_spec. exists p. split; [done|]. unfold location. rewrite Hp.
  change (quote ("/" +s+ p)) with (String "/" (quote p)). apply split1_app. by apply (free_char_in "/;@").
Qed.

(** C39: an address that is written by [encodeurl] is read back by [decodeurl]
    as it was: the type, the host, the path whatever its characters, the user
    and password, and the parameters in their order. *)
Theorem url_roundtrip u : address_ok u → ∃ url, encodeurl u = Ok url ∧ decodeurl url = Ok u.
Proof.
  intros ([Hw|Hf] & Hs & Hp & Hd).
  - rewrite (encode_web u Hw Hs). eexists. split; [reflexivity|]. unfold decodeurl. rewrite (web_match u Hw Hp).
    destruct Hw as (_ & _ & Hlow & _ & Hhf & Hpath & Hu & Hpw & Hup). cbn [of_option mbind res_bind].
    apply String.eqb_neq in Hlow as ->. destruct (web_path u Hhf Hpath) as (p & Ep & ->). rewrite parms_read by done.
    assert (unquote ("/" +s+ quote p) = u_path u) as Hq by (rewrite Ep; exact (unquote_quote ("/" +s+ p))).
    destruct (u_user u) as [|a user] eqn:Eu; cbn [str_empty].
    + specialize (Hup eq_refl). cbn. cbn in Hq. rewrite Hq. destruct u; cbn in *; by subst.
    + rewrite match_user_ok by (rewrite ?Eu; done). cbn. cbn in Hq. rewrite Hq. by destruct u.
  - rewrite (encode_file u Hf Hs). eexists. split; [reflexivity|]. unfold decodeurl. rewrite (file_match u Hf Hp).
    destruct Hf as (Ht & Hh & Hu & Hpw & _). cbn [of_option mbind res_bind]. rewrite Ht at 1.
    change (String.eqb (str_lower "file") "file") with true. cbv iota. rewrite parms_read by done. unfold location. rewrite Hh. cbn. rewrite unquote_quote. destruct u; cbn in *; by subst.
Qed.

(** ** Mirrors *)

(** No function of the outside raises the model's own exception. *)
Record outside_ok {D} `{FetchStore D} `{FetchMethods D} (d : D) (re_match : string → string → res bool)
    (re_sub : string → string → string → res string) : Prop := {
  ok_var v : fueled (ds_getVar d v);
  ok_raw v : fueled (raw_var d v);
  ok_flag v f : fueled (var_flag d v f);
  ok_raw_flag v f : fueled (raw_flag d v f);
  ok_expand t : fueled (expand d t);
  ok_init ud : fueled (urldata_init d ud);
  ok_localpath ud : fueled (localpath d ud);
  ok_match p t : fueled (re_match p t);
  ok_sub p r t : fueled (re_sub p r t)
}.

Create HintDb fetch.
#[export] Hint Resolve ok_var ok_raw ok_flag ok_raw_flag ok_expand ok_init ok_localpath ok_match ok_sub : fetch.

(** Runs of the model without fuel: all cases of what they are made of. *)
Ltac all_fueled := repeat first
  [ solve [eauto with fetch] | done
  | apply fueled_bind; [|intros ? _] | apply fueled_fold; intros ? ? _ | apply fueled_of_option; done
  | match goal with |- fueled (match ?x with _ => _ end) => destruct x end ].

Section mirrors.
Context {D : Type} `{FetchStore D} `{FetchMethods D} (d : D).
Context (re_match : string → string → res bool) (re_sub : string → string → string → res string).
Context (supports_checksum : urldata → bool).
Hypothesis Hout : outside_ok d re_match re_sub.

Lemma add_parm_fueled p t : fueled (add_parm p t).
Proof. unfold add_parm. all_fueled. Qed.

Lemma decodeurl_fueled url : fueled (decodeurl url).
Proof.
  unfold decodeurl. apply fueled_bind; [by apply fueled_of_option|]. intros [[[t u] l] p] _.
  destruct (if _ : bool then _ else _) as [h q]. destruct (match u with Some _ => _ | None => _ end) as [n w].
  apply fueled_bind; [apply fueled_fold; intros; apply add_parm_fueled|]. intros ps _. all_fueled.
Qed.
#[local] Hint Resolve add_parm_fueled decodeurl_fueled : fetch.

Lemma encodeurl_fueled u : fueled (encodeurl u).
Proof. unfold encodeurl. all_fueled. Qed.

Lemma to_boolean_fueled v : fueled (to_boolean v).
Proof. unfold to_boolean. all_fueled. Qed.
#[local] Hint Resolve encodeurl_fueled to_boolean_fueled : fetch.

Lemma trusted_network_fueled url : fueled (trusted_network d url).
Proof. unfold trusted_network, allowed_networks. all_fueled. Qed.

Lemma parms_match_fueled p f : fueled (parms_match p f).
Proof. induction f as [|[k v] f IH]; cbn [parms_match]; all_fueled. Qed.
#[local] Hint Resolve trusted_network_fueled parms_match_fueled : fetch.

Lemma uri_replace_fueled ud f r reps tb : fueled (uri_replace re_match re_sub supports_checksum ud f r reps tb).
Proof. unfold uri_replace, replace_field. all_fueled. Qed.

Lemma new_fetch_data_fueled url lo : fueled (new_fetch_data d url lo).
Proof. unfold new_fetch_data, getSRCDate, or_var, configure_checksum, stamp_base. all_fueled. Qed.

Lemma setup_localpath_fueled ud : fueled (setup_localpath d ud).
Proof. unfold setup_localpath. all_fueled. Qed.
#[local] Hint Resolve uri_replace_fueled new_fetch_data_fueled setup_localpath_fueled : fetch.

(** An address that may be tried: it is in an allowed network, it is not the
    one that is to be fetched, and a line of the mirrors gives it. *)
Definition may_try (origud : urldata) (mirrors : list (string * string)) (uri : string) : Prop :=
  uri ≠ "" ∧ uri ≠ ud_url origud ∧ trusted_network d uri = Ok true ∧
  ∃ line ud reps tarball, line ∈ mirrors ∧
    uri_replace re_match re_sub supports_checksum ud line.1 line.2 reps tarball = Ok (Some uri).

(** What is known of an address. *)
Definition data_of (uri : string) (ud : urldata) : Prop :=
  ∃ ud0, new_fetch_data d uri false = Ok ud0 ∧ setup_localpath d ud0 = Ok ud.

Definition found_ok (origud : urldata) (mirrors : list (string * string)) (found : mirrored) : Prop :=
  NoDup found.1 ∧ Forall2 data_of found.1 found.2 ∧ Forall (may_try origud mirrors) found.1.

Lemma remove_line_sub line l x : x ∈ remove_line line l → x ∈ l.
Proof.
  induction l as [|y l IH]; cbn [remove_line]; [done|]. case_bool_decide; [by right|].
  intros [->|Hx]%elem_of_cons; [left|right; by apply IH].
Qed.

Lemma remove_line_length line l : line ∈ l → S (List.length (remove_line line l)) = List.length l.
Proof.
  induction l as [|y l IH]; [by intros ?%not_elem_of_nil|]. cbn [remove_line]. case_bool_decide as E; [done|].
  intros [->|Hx]%elem_of_cons; [done|]. cbn [List.length]. by rewrite IH.
Qed.

Lemma mirror_data_ok newud uri : yields (mirror_data d newud uri) (λ r, r.2 = true → ∃ ud, r.1 = Some ud ∧ data_of uri ud).
Proof.
  unfold mirror_data. pose proof (new_fetch_data_fueled uri false) as Hf.
  destruct (new_fetch_data d uri false) as [ud0|e] eqn:E0.
  - pose proof (setup_localpath_fueled ud0) as Hs. destruct (setup_localpath d ud0) as [ud|e] eqn:E1.
    + cbn. intros _. exists ud. split; [done|]. by exists ud0.
    + destruct (is_fetch_exception e); [done|]. cbn. unfold fueled in Hs. congruence.
  - destruct (is_fetch_exception e); [done|]. cbn. unfold fueled in Hf. congruence.
Qed.

Lemma found_add origud mirrors found uri ud : found_ok origud mirrors found → uri ∉ found.1 → data_of uri ud →
  may_try origud mirrors uri → found_ok origud mirrors (found.1 ++ [uri], found.2 ++ [ud]).
Proof.
  intros (Hn & Hd & Ht) Hu Hdat Hm. split; [|split]; cbn.
  - apply NoDup_app. split; [done|]. split; [|by apply NoDup_singleton]. by intros x Hx ->%list_elem_of_singleton.
  - apply Forall2_app; [done|]. by constructor.
  - apply Forall_app. split; [done|]. by apply Forall_singleton.
Qed.

Lemma mirror_step_ok origud ud reps adduri line mirrors acc tarball :
  line ∈ mirrors → found_ok origud mirrors acc.1 →
  (∀ nu found, found_ok origud mirrors found → yields (adduri nu found) (found_ok origud mirrors)) →
  yields (mirror_step d re_match re_sub supports_checksum origud ud reps adduri line acc tarball) (λ acc', found_ok origud mirrors acc'.1).
Proof.
  intros Hl Hacc Ha. destruct acc as [found newud]. cbn in Hacc. unfold mirror_step.
  eapply (yields_bind _ _ (λ r, uri_replace re_match re_sub supports_checksum ud line.1 line.2 reps tarball = Ok r)).
  { apply yields_Ok. split; [by apply uri_replace_fueled|done]. }
  intros [[|c uri]|] Er; [done| |done]. set (u := String c uri) in *.
  destruct (bool_decide (u ∈ found.1)) eqn:E1; [done|]. destruct (String.eqb_spec u (ud_url origud)) as [|Hne]; [done|]. cbn [orb].
  apply bool_decide_eq_false in E1.
  eapply (yields_bind _ _ (λ t, trusted_network d u = Ok t)).
  { apply yields_Ok. split; [by apply trusted_network_fueled|done]. }
  intros [] Et; [|done]. eapply yields_bind; [apply mirror_data_ok|]. intros [[nu|] good] Hg; [|done].
  eapply yields_bind; [|by intros found' Hf'; exact Hf'].
  destruct good; [|by apply Ha]. destruct (Hg eq_refl) as (ud' & [= ->] & Hd).
  apply Ha. apply found_add; [done..|]. split; [done|]. split; [done|]. split; [done|]. by exists line, ud, reps, tarball.
Qed.

Lemma adduri_ok origud reps tarballs all fuel mirrors ud found :
  List.length mirrors < fuel → (∀ line, line ∈ mirrors → line ∈ all) → found_ok origud all found →
  yields (adduri d re_match re_sub supports_checksum origud reps tarballs fuel mirrors ud found) (found_ok origud all).
Proof.
  revert mirrors ud found. induction fuel as [|fuel IH]; intros mirrors ud found Hfuel Hall Hfound; [lia|]. cbn [adduri].
  eapply yields_bind; [|by intros acc Hacc; exact Hacc].
  apply (yields_fold (λ acc, found_ok origud all acc.1)); [done|]. intros acc line Hline Hacc.
  apply (yields_fold (λ acc, found_ok origud all acc.1)); [done|]. intros acc' tb _ Hacc'.
  apply mirror_step_ok; [by apply Hall|done|]. intros nu found' Hf'. apply IH; [|intros l Hl; by eapply Hall, remove_line_sub|done].
  pose proof (remove_line_length line mirrors Hline). lia.
Qed.

End mirrors.

(** ** Concrete sources

    An archive on [up], of which [mirror] has a copy; only these two hosts are
    allowed. *)

Definition store_of (vars : dict string) : FetchStore unit := {|
  fetch_store := {| ds_getVar _ v := Ok (dget vars v) |};
  expand _ t := Ok t;
  raw_var _ v := Ok (dget vars v);
  var_flag _ v f := Ok (dget [("sha256sum", "sum of good")] f);
  raw_flag _ _ _ := Ok None;
  set_no_network _ d := d
|}.

Abbreviation two_mirrors := "http://up/.* http://mirror/ \n http://mirror/.* http://evil.org/".

Definition sample_store : FetchStore unit := store_of [("DL_DIR", "/dl"); ("BB_ALLOWED_NETWORKS", "up *.mirror")].

Definition sample_methods : FetchMethods unit := {|
  supports m ud := String.eqb m "Wget" && String.eqb (u_type (ud_dec ud)) "http";
  urldata_init _ ud := Ok (set_names true (path_basename (u_path (ud_dec ud))) None None ud);
  localpath _ ud := Ok ("/dl/" +s+ ud_localfile ud)
|}.

(** A pattern that ends in [.*] matches what starts with the rest, one that ends
    in a dollar sign itself. *)
Definition sample_match (p s : string) : res bool :=
  Ok (if endswith p ".*" then startswith s (str_drop_last 2 p)
      else if endswith p "$" then String.eqb s (str_drop_last 1 p) else startswith s p).

Definition sample_sub (p repl s : string) : res string :=
  Ok (if endswith p ".*" || endswith p "$" then repl else repl +s+ str_drop (String.length p) s).

#[local] Existing Instance sample_store.
#[local] Existing Instance sample_methods.

Lemma sample_outside : outside_ok tt sample_match sample_sub.
Proof. split; intros; done. Qed.

Lemma url_roundtrip_witness :
  address_ok (MkDecoded "http" "up:80" "/a b%;c" "me@home" "x:@" [("name", "x"); ("rev", "1@2")]) ∧
  ∃ url, encodeurl (MkDecoded "http" "up:80" "/a b%;c" "me@home" "x:@" [("name", "x"); ("rev", "1@2")]) = Ok url ∧
    decodeurl url = Ok (MkDecoded "http" "up:80" "/a b%;c" "me@home" "x:@" [("name", "x"); ("rev", "1@2")]).
Proof.
  assert (address_ok (MkDecoded "http" "up:80" "/a b%;c" "me@home" "x:@" [("name", "x"); ("rev", "1@2")])) as Hok.
  { split; [left; vm_compute; done|]. split; [done|]. split; [repeat constructor|by_eval]. }
  split; [exact Hok|]. exact (url_roundtrip _ Hok).
Defined.

(** The address itself. *)
Lemma sample_address :
  encodeurl (MkDecoded "http" "up:80" "/a b%;c" "me@home" "x:@" [("name", "x"); ("rev", "1@2")]) =
  Ok "http://me@home:x:@@up:80/a%20b%25%3Bc;name=x;rev=1@2".
Proof. vm_compute. reflexivity. Qed.

Definition sample_ud (url : string) : urldata :=
  match new_fetch_data tt url false with
  | Ok ud => ud
  | Raise _ => MkUrldata "" (MkDecoded "" "" "" "" "" []) None [] [] "" false "" None None None [] None None
  end.


Lemma evil_mirror :
  uri_replace sample_match sample_sub (λ _, true) (sample_ud "http://mirror/foo.tar.gz") "http://mirror/.*" "http://evil.org/" [] None =
    Ok (Some "http://evil.org/foo.tar.gz") ∧
  trusted_network tt "http://evil.org/foo.tar.gz" = Ok false ∧ trusted_network tt "http://a.Mirror:80/foo.tar.gz" = Ok true.
Proof. split; [|split]; vm_compute; reflexivity. Qed.

(** *** Where the code does not do what it means to *)

(** A line of the mirrors with a parameter that the address does not have
    raises. *)
Lemma mirror_parameter :
  uri_replace sample_match sample_sub (λ _, true) (sample_ud "http://up/foo.tar.gz") "http://up/.*;name=x" "http://mirror/" [] None =
  Raise KeyError.
Proof. vm_compute. reflexivity. Qed.

(** A value with an equals sign, and a password without a user. *)
Lemma odd_addresses :
  decodeurl "http://up/foo;key=a=b" = Raise ValueError ∧ decodeurl "http://:secret@up/foo" = Raise NameError ∧
  decodeurl "http://up/foo;key" = Raise MalformedUrl.
Proof. split; [|split]; vm_compute; reflexivity. Qed.

(** A line is applied once to what it gave; but after a mirror that cannot be
    used, [newud] is still the one before, whose mirrors are worked out again,
    with the line that it came from. *)
Lemma stale_newud :
  (λ r : mirrored, r.1) <$> build_mirroruris tt sample_match sample_sub (λ _, true) (sample_ud "http://up/foo.tar.gz")
    [("http://.*/", "http://a.mirror/x/")] = Ok ["http://a.mirror/x/foo.tar.gz"] ∧
  (λ r : mirrored, r.1) <$> build_mirroruris tt sample_match sample_sub (λ _, true) (sample_ud "http://up/foo.tar.gz")
    [("http://.*/", "http://a.mirror/x/"); ("http://up/.*", "ssh://a.mirror/")] =
  Ok ["http://a.mirror/x/foo.tar.gz"; "http://a.mirror/x/x/foo.tar.gz"].
Proof. split; vm_compute; reflexivity. Qed.
