(* ===== verification/FetchChecked.v ===== *)
(** * What is fetched has the checksums of the recipe (bb/fetch2/__init__.py)

    Whatever the methods, mirrors and earlier builds left, [Fetch.download]
    returns with a file whose checksums are those expected, and with a stamp
    that says so; unless it met an error of the file system, which it forgets. *)

From Stdlib Require Import Ascii String.
From S2P Require Import Prelude.
From S2P Require Import PyStr.
From S2P Require Import PyDict.
From S2P Require Import Runs.
From S2P Require Import Cache.
From S2P Require Import RecipeFiles.
From S2P Require Import Fetch.
From S2P Require Import FetchOk.

(** ** How a computation ends *)

Section ends.
Context {S : Type}.

(** A result with [Q], or an exception in a state with [E]. *)
Definition ends {A} (m : M S A) (s : S) (Q : A → S → Prop) (E : S → Prop) : Prop :=
  match m s with (s', Ok a) => Q a s' | (s', Raise _) => E s' end.

Lemma ends_bind {A B} (m : M S A) (f : A → M S B) s Q Q' E :
  ends m s Q E → (∀ a s', Q a s' → ends (f a) s' Q' E) → ends (m ≫= f) s Q' E.
Proof. unfold ends. rewrite M_bind_eq. destruct (m s) as [s' [a|e]]; intros H1 H2; [by apply H2|done]. Qed.

Lemma ends_mono {A} (m : M S A) s (Q Q' : A → S → Prop) (E E' : S → Prop) :
  ends m s Q E → (∀ a s', Q a s' → Q' a s') → (∀ s', E s' → E' s') → ends m s Q' E'.
Proof. unfold ends. destruct (m s) as [s' [a|e]]; auto. Qed.

Lemma ends_get {B} (f : S → M S B) s Q E : ends (f s) s Q E → ends (get ≫= f) s Q E.
Proof. done. Qed.

Lemma ends_lift {A B} (r : res A) (f : A → M S B) s Q E :
  E s → (∀ a, r = Ok a → ends (f a) s Q E) → ends (lift r ≫= f) s Q E.
Proof. intros HE Hf. unfold ends. rewrite lift_bind. destruct r; [by apply Hf|done]. Qed.

Lemma ends_ret {A} (a : A) s (Q : A → S → Prop) E : Q a s → ends (mret a) s Q E.
Proof. done. Qed.

Lemma ends_raise {A} e s (Q : A → S → Prop) (E : S → Prop) : E s → ends (raise e) s Q E.
Proof. done. Qed.

(** The handler starts where the exception was raised. *)
Lemma ends_catch {A} (m : M S A) p h s Q E E' :
  ends m s Q E → (∀ s', E s' → E' s') → (∀ e s', E s' → ends (h e) s' Q E') → ends (catch m p h) s Q E'.
Proof.
  unfold ends, catch. destruct (m s) as [s' [a|e]]; [done|]. intros He HE Hh. destruct (p e); [by apply Hh|by apply HE].
Qed.

Lemma ends_preserves {A} (I : S → Prop) (m : M S A) s :
  preserves (λ s s', I s → I s') m → I s → ends m s (λ _, I) I.
Proof. intros Hm HI. specialize (Hm s HI). unfold ends. by destruct (m s) as [s' [a|e]]. Qed.
End ends.

(** ** Names and links *)

Section links.
Context (T : string).

(** No link leads to [T]. *)
Definition no_link (nodes : gmap string node) : Prop :=
  ∀ p target q, nodes !! p = Some (Symlink target) → path_join q target ≠ T.

Lemma realname_ne nodes n p q : no_link nodes → p ≠ T → realname n nodes p = Some q → q ≠ T.
Proof.
  intros Hl. revert p. induction n as [|n IH]; intros p Hp; cbn [realname]; [done|].
  destruct (nodes !! p) as [[| |t]|] eqn:E; try (by intros [= <-]). apply IH. by eapply Hl.
Qed.

Lemma realname_same nodes nodes' n p :
  no_link nodes → (∀ x, x ≠ T → nodes' !! x = nodes !! x) → p ≠ T → realname n nodes' p = realname n nodes p.
Proof.
  intros Hl Hs. revert p. induction n as [|n IH]; intros p Hp; cbn [realname]; [done|]. rewrite Hs by done.
  destruct (nodes !! p) as [[| |t]|] eqn:E; [done..| |done]. apply IH. by eapply Hl.
Qed.

Lemma stat_same {D} (s s' : fetching D) p :
  no_link (fs_nodes s) → (∀ x, x ≠ T → fs_nodes s' !! x = fs_nodes s !! x) → p ≠ T → os_stat s' p = os_stat s p.
Proof.
  intros Hl Hs Hp. unfold os_stat. rewrite (realname_same _ _ _ _ Hl Hs Hp).
  destruct (realname 40 (fs_nodes s) p) as [q|] eqn:E; [|done]. cbn. apply Hs. by eapply realname_ne.
Qed.

Lemma no_link_delete nodes p : no_link nodes → no_link (delete p nodes).
Proof. intros Hl x target q Hx. apply lookup_delete_Some in Hx as [_ Hx]. by eapply Hl. Qed.

Lemma no_link_insert nodes p n : no_link nodes → (∀ target q, n = Symlink target → path_join q target ≠ T) → no_link (<[p := n]> nodes).
Proof. intros Hl Hn x target q [[-> ->]|[_ Hx]]%lookup_insert_Some; [by apply Hn|by eapply Hl]. Qed.

(** [T] itself is no link. *)
Lemma realname_T nodes n : (∀ target, nodes !! T ≠ Some (Symlink target)) → realname (S n) nodes T = Some T.
Proof. intros Hn. cbn. destruct (nodes !! T) as [[| |t]|]; [done..| |done]. by destruct (Hn t). Qed.
End links.

Lemma realname_no_link nodes n p q : realname n nodes p = Some q → ∀ target, nodes !! q ≠ Some (Symlink target).
Proof.
  revert p. induction n as [|n IH]; intros p; cbn [realname]; [done|].
  destruct (nodes !! p) as [[| |t]|] eqn:E; [..|by apply IH|]; intros [= <-]; congruence.
Qed.

Lemma stat_no_link {D} (s : fetching D) p target : os_stat s p ≠ Some (Symlink target).
Proof.
  unfold os_stat. destruct (realname 40 (fs_nodes s) p) as [q|] eqn:E; [|done]. cbn. by apply (realname_no_link _ _ _ _ E).
Qed.

(** ** One source *)

Section source.
Context {D : Type} `{FetchStore D} `{FetchMethods D} `{FetchActions D}.
Context (glob_magic : gmap string node → string → list string).
Context (file_sum : string → content → string).
(** The source, the file it is fetched to and its stamp. *)
Context (ud : urldata).
Let L : string := path_of ud.
Let T : string := stamp_of ud.
Implicit Types s : fetching D.

(** What the source is assumed to be like: its method checks files as
    [FetchMethod] does, and names are not confused. *)
Record source_ok : Prop := {
  so_need : ud_needdonestamp ud = true;
  so_local : ud_localpath ud = Some L;
  so_path : L ≠ "";
  so_stamp : T ≠ "";
  so_magic : has_magic T = false;
  so_names : L ≠ T;
  so_bad c : L +s+ "_bad-checksum_" +s+ c ≠ T;
  so_supports s : supports_checksum ud s = base_supports_checksum ud s;
  so_update : need_update ud = base_need_update ud;
  so_sums id c : file_sum id c ≠ ""
}.
Hypothesis Hud : source_ok.

(** The checksums that the recipe gives are those of the file. *)
Definition as_expected (c : content) : Prop :=
  ∀ id e, id ∈ CHECKSUM_LIST → expected ud id = Some e → e ≠ "" → file_sum id c = e.

(** Checksums that are those of the file. *)
Definition sums_of (sums : dict string) (c : content) : Prop := ∀ id v, dget sums id = Some v → v = file_sum id c.

(** There is no stamp. *)
Definition absent s : Prop := no_link T (fs_nodes s) ∧ fs_nodes s !! T = None.

(** There is a stamp, and the file is as expected; a directory has no
    checksums. *)
Definition verified s : Prop :=
  no_link T (fs_nodes s) ∧ ∃ c t, fs_nodes s !! T = Some (File c t) ∧
  ∃ n, os_stat s L = Some n ∧ ∀ fc ft, n = File fc ft → as_expected fc ∧ ∃ sums, c = Pickled sums ∧ sums_of sums fc.

(** What an earlier build may have left: a stamp newer than the file holds its
    checksums, whatever was expected then. *)
Definition left_over s : Prop :=
  no_link T (fs_nodes s) ∧ (fs_nodes s !! T = None ∨ ∃ c t, fs_nodes s !! T = Some (File c t)) ∧
  ∀ sums t fc ft, fs_nodes s !! T = Some (File (Pickled sums) t) → os_stat s L = Some (File fc ft) → (ft < t)%Z → sums_of sums fc.

Lemma absent_left_over s : absent s → left_over s.
Proof. intros [Hl Ht]. split; [done|]. split; [by left|]. congruence. Qed.

Lemma verified_left_over s : verified s → left_over s.
Proof.
  intros (Hl & c & t & Ht & n & Hn & Hc). split; [done|]. split; [right; eauto|]. intros sums t' fc ft Ht' Hf _.
  rewrite Hn in Hf. injection Hf as ->. destruct (Hc fc ft eq_refl) as (_ & sums' & -> & Hs).
  rewrite Ht in Ht'. by injection Ht' as -> _.
Qed.

Lemma no_stamp_link s : left_over s → ∀ target, fs_nodes s !! T ≠ Some (Symlink target).
Proof. intros (_ & [Ht|(c & t & Ht)] & _); congruence. Qed.

Lemma stat_stamp s : left_over s → os_stat s T = fs_nodes s !! T.
Proof. intros Hs. unfold os_stat. rewrite (realname_T T _ 39) by by apply no_stamp_link. done. Qed.

Lemma stamp_exists s : left_over s → os_exists s T = os_lexists s T.
Proof. intros Hs. unfold os_exists, os_lexists. by rewrite stat_stamp. Qed.

(** *** Operations on other files *)

Abbreviation keeps m := (preserves (λ s s', absent s → absent s') m).

#[local] Instance keeps_preorder : PreOrder (λ s s', absent s → absent s').
Proof. split; [by intros s|]. intros s1 s2 s3 H12 H23 Hs. auto. Qed.

Lemma keeps_delete s p : absent s → absent (set_nodes (delete p) s).
Proof. intros [Hl Ht]. split; cbn; [by apply no_link_delete|]. by rewrite lookup_delete_None; right. Qed.

Lemma keeps_insert s p n : p ≠ T → (∀ target q, n = Symlink target → path_join q target ≠ T) →
  absent s → absent (set_nodes (<[p := n]>) s).
Proof. intros Hp Hn [Hl Ht]. split; cbn; [by apply no_link_insert|]. by rewrite lookup_insert_ne. Qed.

Lemma keeps_unlink p : keeps (os_unlink p).
Proof.
  intros s Hs. unfold os_unlink. rewrite get_bind. destruct (fs_nodes s !! p) as [[]|]; [|done|..]; by apply keeps_delete.
Qed.

Lemma keeps_remove p : keeps (remove glob_magic p).
Proof.
  unfold remove. destruct (str_empty p); [apply (preserves_ret _)|]. apply (preserves_bind _); [apply (preserves_get _)|].
  intros s. apply (preserves_for_each _). intros q. apply keeps_unlink.
Qed.

Lemma keeps_symlink target p : p ≠ T → (∀ q, path_join q target ≠ T) → keeps (os_symlink target p).
Proof.
  intros Hp Ht s Hs. unfold os_symlink. rewrite get_bind. destruct (os_lexists s p); [done|].
  apply keeps_insert; [done| |done]. intros ? q [= <-]. apply Ht.
Qed.

Lemma keeps_open p c : p ≠ T → keeps (open_w p c).
Proof.
  intros Hp s Hs. unfold open_w. rewrite get_bind. destruct (realname 40 (fs_nodes s) p) as [q|] eqn:E; [|done].
  assert (q ≠ T) as Hq by (eapply (realname_ne T); [apply Hs|exact Hp|exact E]).
  destruct (fs_nodes s !! q) as [[]|]; [|done|..]; by apply keeps_insert.
Qed.

Lemma keeps_move src dest : dest ≠ T → keeps (movefile src dest).
Proof.
  intros Hd s Hs. unfold movefile. rewrite get_bind. destruct (fs_nodes s !! src) as [n|] eqn:E; [|done].
  assert (absent (set_nodes (λ m, <[dest := n]> (delete src m)) s)) as Ha.
  { change (absent (set_nodes (<[dest := n]>) (set_nodes (delete src) s))). apply keeps_insert; [done| |by apply keeps_delete].
    intros target q ->. by apply (proj1 Hs src). }
  destruct n, (fs_nodes s !! dest) as [[]|]; done.
Qed.

Lemma keeps_verify_checksum u pre : keeps (verify_checksum file_sum u pre).
Proof. unfold verify_checksum, checksum_data, sum_file. preserves. Qed.

Lemma keeps_rename u suffix : (∀ c, path_of u +s+ "_bad-checksum_" +s+ c ≠ T) → keeps (rename_bad_checksum u suffix).
Proof.
  intros Hu. unfold rename_bad_checksum. destruct (ud_localpath u) as [p|] eqn:E; [|apply (preserves_ret _)].
  apply keeps_move. specialize (Hu suffix). unfold path_of in Hu. by rewrite E in Hu.
Qed.

Lemma keeps_checksum_failed u e : (∀ c, path_of u +s+ "_bad-checksum_" +s+ c ≠ T) → keeps (checksum_failed glob_magic u e).
Proof.
  intros Hu. unfold checksum_failed. preserves; try apply keeps_remove. by apply keeps_rename.
Qed.

(** Another source with a stamp of its own. *)
Lemma keeps_verify_donestamp u o : stamp_of u ≠ T → (∀ c, path_of u +s+ "_bad-checksum_" +s+ c ≠ T) →
  keeps (verify_donestamp glob_magic file_sum u o).
Proof.
  intros Ht Hu. unfold verify_donestamp, precomputed_checksums.
  preserves; first [apply keeps_remove|apply keeps_verify_checksum|by apply keeps_open|by apply keeps_checksum_failed].
Qed.

(** *** Checking the file *)

(** A source that is fetched to the same file: this one, or a mirror of it. *)
Record same_file (u : urldata) : Prop := {
  sf_path : path_of u = L;
  sf_stamp : stamp_of u = T;
  sf_expected id : expected u id = expected ud id;
  sf_supports s : supports_checksum u s = base_supports_checksum u s;
  sf_update : need_update u = base_need_update u
}.

Lemma same_file_refl : same_file ud.
Proof. split; [done..| |]; apply Hud. Qed.

(** All checksums of a file. *)
Definition all_sums (c : content) : dict string := List.map (λ id, (id, file_sum id c)) CHECKSUM_LIST.

Lemma checksum_data_ok u pre id s fc ft : same_file u → os_stat s L = Some (File fc ft) → sums_of pre fc →
  checksum_data file_sum u pre id s = (s, Ok (id, file_sum id fc)).
Proof.
  intros Hu Hf Hp. unfold checksum_data. destruct (dget pre id) as [v|] eqn:E; [by rewrite (Hp _ _ E)|].
  unfold sum_file. rewrite (sf_path u Hu). rewrite M_bind_eq, get_bind, Hf. done.
Qed.

Lemma checksums_ok u pre l s fc ft : same_file u → os_stat s L = Some (File fc ft) → sums_of pre fc →
  map_state (checksum_data file_sum u pre) l s = (s, Ok (List.map (λ id, (id, file_sum id fc)) l)).
Proof.
  intros Hu Hf Hp. induction l as [|id l IH]; [done|]. cbn [map_state].
  rewrite M_bind_eq, (checksum_data_ok u pre id s fc ft Hu Hf Hp), M_bind_eq, IH. done.
Qed.

Lemma bad_checksum_None u sums : (∀ kv, kv ∈ sums → kv.2 ≠ "") →
  (∃ c r, bad_checksum u sums = Some (String c r)) ∨
  bad_checksum u sums = None ∧ ∀ kv e, kv ∈ sums → expected u kv.1 = Some e → e ≠ "" → kv.2 = e.
Proof.
  unfold bad_checksum. induction sums as [|kv sums IH] using rev_ind; intros Hne; [right; split; [done|]; by intros ? ? ?%not_elem_of_nil|].
  rewrite foldl_snoc. destruct IH as [(c & r & E)|[E Hall]]; [intros kv' Hkv; apply Hne; set_solver|..].
  - rewrite E. left. assert (kv.2 ≠ "") as Hk by (apply Hne; set_solver).
    destruct (expected u kv.1) as [[|a e]|]; [by exists c, r| |by exists c, r].
    destruct (String.eqb _ _); [by exists c, r|]. destruct kv.2 as [|c' r']; [done|]. by exists c', r'.
  - rewrite E. assert (kv.2 ≠ "") as Hk by (apply Hne; set_solver).
    destruct (expected u kv.1) as [[|a e]|] eqn:Ex.
    + right. split; [done|]. intros kv' e' [Hin| ->%list_elem_of_singleton]%elem_of_app; [by apply Hall|congruence].
    + destruct (String.eqb_spec (String a e) kv.2) as [Heq|Hneq].
      * right. split; [done|]. intros kv' e' [Hin| ->%list_elem_of_singleton]%elem_of_app; [by apply Hall|congruence].
      * left. destruct kv.2 as [|c' r']; [done|]. by exists c', r'.
    + right. split; [done|]. intros kv' e' [Hin| ->%list_elem_of_singleton]%elem_of_app; [by apply Hall|congruence].
Qed.

Lemma verify_checksum_ok u pre s fc ft : same_file u → os_stat s L = Some (File fc ft) → sums_of pre fc →
  ends (verify_checksum file_sum u pre) s (λ sums s', s' = s ∧ sums = all_sums fc ∧ as_expected fc) (λ s', s' = s).
Proof.
  intros Hu Hf Hp. unfold verify_checksum. apply ends_get. rewrite (sf_supports u Hu). unfold base_supports_checksum, os_isdir.
  rewrite (sf_path u Hu), Hf. cbn [negb]. unfold ends. rewrite M_bind_eq, (checksums_ok u pre _ s fc ft Hu Hf Hp).
  fold (all_sums fc).
  apply (ends_bind _ _ _ (λ _ s', s' = s)).
  { destruct (_ && _); [|done]. apply ends_lift; [done|]. intros strict _. by destruct (bool_decide _). }
  intros [] s' ->. destruct (bad_checksum_None u (all_sums fc)) as [(c & r & ->)|[-> Hall]].
  - intros kv Hkv. apply elem_of_map in Hkv as (id & -> & _). apply Hud.
  - done.
  - apply ends_ret. split; [done|]. split; [done|]. intros id e Hid He Hne.
    apply (Hall (id, file_sum id fc) e); [|by rewrite (sf_expected u Hu)|done]. apply elem_of_map. by exists id.
Qed.

(** *** The stamp *)

(** The stamp is a file, or there is none. *)
Definition plain s : Prop := no_link T (fs_nodes s) ∧ (fs_nodes s !! T = None ∨ ∃ c t, fs_nodes s !! T = Some (File c t)).

Lemma left_over_plain s : left_over s → plain s.
Proof. intros (Hl & Ht & _). by split. Qed.

Lemma plain_move s src dest : src ≠ T → dest ≠ T → plain s → plain (movefile src dest s).1.
Proof.
  intros Hs Hd [Hl Ht]. unfold movefile. rewrite get_bind. destruct (fs_nodes s !! src) as [n|] eqn:E; [|done].
  assert (plain (set_nodes (λ m, <[dest := n]> (delete src m)) s)) as Ha.
  { split; cbn.
    - apply no_link_insert; [by apply no_link_delete|]. intros target q ->. by apply (Hl src).
    - by rewrite lookup_insert_ne, lookup_delete_ne. }
  destruct n, (fs_nodes s !! dest) as [[]|]; done.
Qed.

Lemma str_empty_false p : p ≠ "" → str_empty p = false.
Proof. by destruct p. Qed.

Lemma remove_stamp s : plain s → ends (remove glob_magic T) s (λ _, absent) (λ _, False).
Proof.
  intros [Hl Ht]. unfold remove. rewrite (str_empty_false T (so_stamp Hud)).
  apply ends_get. unfold glob_names. rewrite (so_magic Hud). unfold os_lexists.
  destruct Ht as [Ht|(c & t & Ht)]; rewrite Ht; cbn [for_each].
  - by split.
  - unfold ends. rewrite M_bind_eq. unfold os_unlink. rewrite get_bind, Ht. cbn. split; cbn; [by apply no_link_delete|].
    by rewrite lookup_delete_eq.
Qed.

Lemma checksum_failed_ok u e s : same_file u → plain s → ends (checksum_failed glob_magic u e) s (λ _, absent) (λ _, False).
Proof.
  intros Hu Hs. unfold checksum_failed. rewrite (sf_path u Hu), (sf_stamp u Hu). apply ends_get.
  apply (ends_bind _ _ _ (λ _, plain)); [|by intros [] s' Hs'; apply remove_stamp].
  destruct (os_exists s L); [|done]. unfold rename_bad_checksum. pose proof (sf_path u Hu) as Hp. unfold path_of in Hp.
  destruct (ud_localpath u) as [p|]; [|done]. cbn in Hp. rewrite Hp.
  pose proof (plain_move s L (L +s+ "_bad-checksum_" +s+ checksum_of e) (so_names Hud) (so_bad Hud _) Hs) as Hm.
  unfold ends. assert (∀ a b, (movefile a b s).2 = Ok tt) as Hok.
  { intros a b. unfold movefile. rewrite get_bind. destruct (fs_nodes s !! a) as [[]|]; [..|done];
      destruct (fs_nodes s !! b) as [[]|]; done. }
  specialize (Hok L (L +s+ "_bad-checksum_" +s+ checksum_of e)). destruct (movefile _ _ s) as [s' r]. cbn in *. by subst r.
Qed.

(** Writing the stamp of a checked file. *)
Lemma open_stamp s c n : left_over s → os_stat s L = Some n →
  (∀ fc ft, n = File fc ft → as_expected fc ∧ ∃ sums, c = Pickled sums ∧ sums_of sums fc) →
  ends (open_w T c) s (λ _, verified) (λ s', s' = s).
Proof.
  intros Hs Hn Hc. unfold open_w. apply ends_get. rewrite (realname_T T _ 39) by by apply no_stamp_link.
  assert (verified (set_nodes (<[T := File c (fs_clock s)]>) s)) as Hv.
  { split; [cbn; apply no_link_insert; [apply Hs|done]|]. exists c, (fs_clock s). split; [cbn; by rewrite lookup_insert_eq|].
    exists n. split; [|done]. rewrite <-Hn. apply (stat_same T); [apply Hs| |apply Hud].
    intros x Hx. cbn. by rewrite lookup_insert_ne. }
  destruct (fs_nodes s !! T) as [[]|]; done.
Qed.

Lemma precomputed_ok u s fc ft : same_file u → left_over s → os_stat s L = Some (File fc ft) →
  ends (precomputed_checksums u) s (λ pre s', s' = s ∧ sums_of pre fc ∧
    (pre ≠ [] → ∃ t, fs_nodes s !! T = Some (File (Pickled pre) t))) (λ s', s' = s).
Proof.
  intros Hu Hs Hf. unfold precomputed_checksums. apply ends_get. rewrite (sf_path u Hu), (sf_stamp u Hu).
  destruct (os_exists s T); [|apply ends_ret; by split; [|split]]. unfold os_isdir. rewrite Hf.
  apply (ends_bind _ _ _ (λ (b : bool) s', s' = s ∧ (b = true → ∀ sums t, fs_nodes s !! T = Some (File (Pickled sums) t) → sums_of sums fc))).
  { apply ends_lift; [done|]. unfold getmtime. rewrite Hf. intros t1 [= <-]. apply ends_lift; [done|]. rewrite stat_stamp by done.
    intros t2 Ht2. apply ends_ret. split; [done|]. intros Hlt%Z.ltb_lt sums t Ht. rewrite Ht in Ht2. injection Ht2 as ->.
    by eapply (proj2 (proj2 Hs)). }
  intros b s' [-> Hb]. destruct b; [|apply ends_ret; by split; [|split]]. rewrite stat_stamp by done.
  destruct (fs_nodes s !! T) as [[[x|sums] t| |]|] eqn:Et; apply ends_ret; (split; [done|]); (split; [|by eauto]); try done.
  by apply (Hb eq_refl sums t).
Qed.

Lemma dict_eqb_length (a b : dict string) : dict_eqb a b = true → List.length a = List.length b.
Proof. unfold dict_eqb. intros [Hl%Nat.eqb_eq _]%andb_prop. done. Qed.

(** [verify_donestamp]: if it says yes, the file is as expected and has a
    stamp; if it says no, there is no stamp any more. *)
Lemma verify_donestamp_ok u o s : same_file u → o = None ∨ o = Some ud → left_over s →
  ends (verify_donestamp glob_magic file_sum u o) s
    (λ b s', if (b : bool) then verified s' ∨ ud_needdonestamp u = false ∧ s' = s else absent s')
    (λ s', absent s → absent s').
Proof.
  intros Hu Ho Hs. unfold verify_donestamp.
  replace (match o with Some o' => negb (ud_needdonestamp o') | None => false end) with false
    by (destruct Ho as [-> | ->]; [done|by rewrite (so_need Hud)]).
  rewrite orb_false_r. destruct (ud_needdonestamp u); cbn [negb]; [|apply ends_ret; by right].
  apply ends_get. rewrite (sf_path u Hu), (sf_stamp u Hu), (sf_supports u Hu).
  destruct (os_exists s L) eqn:EL; cbn [negb].
  2:{ apply (ends_bind _ _ _ (λ _, absent)); [|done]. destruct (os_exists s T) eqn:ET.
      - eapply ends_mono; [by apply remove_stamp, left_over_plain|done|done].
      - apply ends_ret. rewrite stamp_exists in ET by done. unfold os_lexists in ET. split; [apply Hs|]. by destruct (_ !! T). }
  unfold os_exists in EL. destruct (os_stat s L) as [n|] eqn:En; [|done].
  replace (match o with Some o' => negb (supports_checksum o' s) | None => false end) with
    (match o with Some _ => os_isdir s L | None => false end)
    by (destruct Ho as [-> | ->]; [done|rewrite (so_supports Hud); unfold base_supports_checksum; by rewrite negb_involutive]).
  unfold base_supports_checksum. rewrite (sf_path u Hu), negb_involutive. unfold os_isdir. rewrite En.
  destruct n as [fc ft|dt|target]; [| |by apply stat_no_link in En].
  - replace (false || match o with Some _ => false | None => false end) with false by (by destruct o).
    eapply ends_bind; [eapply ends_mono; [by apply (precomputed_ok u s fc ft Hu Hs En)|by intros ? ? HQ; exact HQ|by intros s' ->]|].
    intros pre s' (-> & Hpre & Hnew).
    apply (ends_catch _ _ _ _ _ (λ s', s' = s)).
    + eapply ends_bind; [by apply (verify_checksum_ok u pre s fc ft Hu En Hpre)|]. intros sums s' (-> & -> & Hex).
      assert (sums_of (all_sums fc) fc) as Hsum.
      { intros id v Hv%dget_elem_of. apply elem_of_map in Hv as (id' & [= -> ->] & _). done. }
      apply (ends_bind _ _ _ (λ _, verified)); [|by intros; left].
      destruct (dict_eqb (all_sums fc) pre) eqn:Ed.
      * apply ends_ret. apply dict_eqb_length in Ed. destruct Hnew as [t Ht]; [by intros ->|].
        split; [apply Hs|]. exists (Pickled pre), t. split; [done|]. exists (File fc ft). split; [done|].
        intros fc' ft' [= <- <-]. split; [done|]. by exists pre.
      * eapply open_stamp; [done..|]. intros fc' ft' [= <- <-]. split; [done|]. by eexists.
    + by intros s' ->.
    + intros e s' ->. eapply ends_bind; [eapply ends_mono; [by apply checksum_failed_ok, left_over_plain|by intros ? ? HQ; exact HQ|done]|].
      intros [] s' Hs'. by apply ends_ret.
  - apply ends_ret. rewrite stamp_exists by done. unfold os_lexists. destruct Hs as (Hl & Ht & _). destruct Ht as [Ht|(c & t & Ht)]; rewrite Ht.
    + by split.
    + left. split; [done|]. exists c, t. split; [done|]. by exists (Dir dt).
Qed.

Lemma touch_stamp s : verified s → ends (touch T) s (λ _, verified) (λ _, False).
Proof.
  intros Hv. pose proof (verified_left_over s Hv) as Hs. unfold touch. apply ends_get.
  rewrite (realname_T T _ 39) by by apply no_stamp_link. destruct Hv as (Hl & c & t & Ht & n & Hn & Hc). cbn [mbind option_bind].
  rewrite Ht. unfold ends. cbn. split; [cbn; by apply no_link_insert|]. exists c, (fs_clock s). split; [cbn; by rewrite lookup_insert_eq|].
  exists n. split; [|done]. rewrite <-Hn. apply (stat_same T); [done| |apply Hud]. intros x Hx. cbn. by rewrite lookup_insert_ne.
Qed.

Lemma verify_new s : absent s →
  ends (verify_checksum file_sum ud []) s (λ sums s', s' = s ∧ ∃ n, os_stat s L = Some n ∧
    ∀ fc ft, n = File fc ft → as_expected fc ∧ sums_of sums fc) (λ s', s' = s).
Proof.
  intros Hs. destruct (os_stat s L) as [[fc ft|dt|target]|] eqn:En.
  - eapply ends_mono; [by apply (verify_checksum_ok ud [] s fc ft same_file_refl En)| |done].
    intros sums s' (-> & -> & Hex). split; [done|]. exists (File fc ft). split; [done|]. intros fc' ft' [= <- <-]. split; [done|].
    intros id v Hv%dget_elem_of. apply elem_of_map in Hv as (id' & [= -> ->] & _). done.
  - unfold verify_checksum. apply ends_get. rewrite (so_supports Hud). unfold base_supports_checksum, os_isdir. fold L. rewrite En.
    apply ends_ret. split; [done|]. by exists (Dir dt).
  - by apply stat_no_link in En.
  - unfold verify_checksum. apply ends_get. rewrite (so_supports Hud). unfold base_supports_checksum, os_isdir. fold L. rewrite En.
    cbn [negb].
    assert (map_state (checksum_data file_sum ud []) CHECKSUM_LIST s = (s, Raise FileNotFound)) as Hm.
    { change CHECKSUM_LIST with ("md5" :: tail CHECKSUM_LIST). cbn [map_state]. rewrite M_bind_eq. unfold checksum_data at 1. cbn [dget].
      rewrite M_bind_eq. unfold sum_file. fold L. by rewrite get_bind, En. }
    unfold ends. by rewrite M_bind_eq, Hm.
Qed.

(** [update_stamp] of the source itself. *)
Lemma update_stamp_ok s : absent s ∨ verified s →
  ends (update_stamp glob_magic file_sum ud) s (λ _, verified) (λ s', absent s → absent s').
Proof.
  intros Hs. unfold update_stamp. rewrite (so_need Hud). apply ends_get. fold T. destruct Hs as [Hs|Hs].
  - rewrite (stamp_exists s (absent_left_over s Hs)). unfold os_lexists. rewrite (proj2 Hs).
    apply (ends_catch _ _ _ _ _ (λ s', s' = s)); [|by intros s' ->|].
    + eapply ends_bind; [by apply verify_new|]. intros sums s' (-> & n & Hn & Hc).
      eapply open_stamp; [by apply absent_left_over|exact Hn|]. intros fc ft ->. destruct (Hc fc ft eq_refl) as [Hx1 Hx2]. split; [done|]. by eexists.
    + intros e s' ->. eapply ends_bind; [eapply ends_mono; [by apply checksum_failed_ok; [apply same_file_refl|apply left_over_plain, absent_left_over]|by intros ? ? HQ; exact HQ|done]|].
      intros [] s' Hs'. by apply ends_raise.
  - rewrite (stamp_exists s (verified_left_over s Hs)). unfold os_lexists. destruct Hs as (Hl & c & t & Ht & Hn). rewrite Ht.
    eapply ends_mono; [apply touch_stamp; split; eauto|done|done].
Qed.

(** *** Mirrors *)

(** What is assumed of what the methods do for a source or a mirror of it: they
    make no stamp, nor a link to one. *)
Record method_ok (u : urldata) : Prop := {
  mo_download : keeps (download_ud u);
  mo_build : keeps (build_mirror_data u);
  mo_clean : keeps (clean_ud u);
  mo_update : keeps (need_update u)
}.

(** A mirror is fetched to the same file, or to another one with another
    stamp. *)
Record mirror_ok (u : urldata) : Prop := {
  mi_method : method_ok u;
  mi_bad c : path_of u +s+ "_bad-checksum_" +s+ c ≠ T;
  mi_link q : path_join q (path_of u) ≠ T;
  mi_dest q : path_join q (path_basename (path_of u)) ≠ T;
  mi_same : path_of u = L → same_file u;
  mi_other : path_of u ≠ L → stamp_of u ≠ T
}.

Context (re_match : string → string → res bool) (re_sub : string → string → string → res string).
Hypothesis Hmethod : method_ok ud.

Definition held s : Prop := absent s ∨ verified s.

(** A yes leaves the source held, a no leaves no stamp. *)
Definition answer (b : bool) s : Prop := if b then held s else absent s.

Lemma held_left_over s : held s → left_over s.
Proof. intros [Hs|Hs]; [by apply absent_left_over|by apply verified_left_over]. Qed.

Lemma verified_exists s : verified s → os_exists s L = true.
Proof. intros (_ & _ & _ & _ & n & Hn & _). unfold os_exists. by rewrite Hn. Qed.

Lemma keeps_fetch_one u : method_ok u → keeps (fetch_one u).
Proof. intros Hu. unfold fetch_one. apply (preserves_bind _); [apply Hu|]. intros []. apply Hu. Qed.

Lemma no_update u s : need_update u = base_need_update u → path_of u = L → verified s →
  ends (need_update u) s (λ b s', b = false ∧ s' = s) (λ _, False).
Proof. intros -> Hp Hs. unfold ends, base_need_update, gets. rewrite Hp, verified_exists by done. done. Qed.

(** The source itself: verified, or there is no stamp and it is to be fetched. *)
Lemma check_source s : left_over s →
  ends (verified ← verify_donestamp glob_magic file_sum ud None; if (verified : bool) then need_update ud else mret true) s
    (λ (b : bool) s', if b then absent s' else verified s') (λ s', absent s → absent s').
Proof.
  intros Hs. eapply ends_bind.
  { eapply ends_mono; [by apply verify_donestamp_ok; [apply same_file_refl|left|]|by intros ? ? HQ; exact HQ|by intros ? HE; exact HE]. }
  intros [] s' Hb; [|by apply ends_ret]. destruct Hb as [Hb|[Hb _]]; [|by rewrite (so_need Hud) in Hb].
  eapply ends_mono; [by apply no_update; [apply Hud| |exact Hb]|by intros ? ? [-> ->]|done].
Qed.

Lemma use_tarball_ok u s : mirror_ok u → path_of u ≠ L → absent s →
  ends (use_tarball glob_magic file_sum ud u) s (λ _, held) absent.
Proof.
  intros Hu Hp Hs. unfold use_tarball. apply ends_get. apply ends_lift; [done|]. intros dldir _.
  apply (ends_bind _ _ _ (λ _, absent)).
  { pose proof (mi_other _ Hu Hp) as Ht. unfold stamp_of in Ht. destruct (ud_donestamp u) as [[|a p]|]; [done| |done].
    apply ends_preserves; [|done]. by apply keeps_open. }
  intros [] s1 Hs1. apply ends_lift; [done|]. intros dir _. apply ends_get.
  apply (ends_bind _ _ _ (λ _, absent)).
  { destruct (os_exists s1 _); [done|]. apply ends_preserves; [|done]. apply keeps_symlink; [apply Hu|apply Hu]. }
  intros [] s2 Hs2.
  pose proof (check_source s2 (absent_left_over s2 Hs2)) as Hc. unfold ends in Hc. rewrite M_bind_eq in Hc.
  unfold ends. rewrite M_bind_eq. destruct (verify_donestamp glob_magic file_sum ud None s2) as [s3 [v|e]]; [|by apply Hc].
  rewrite M_bind_eq. destruct ((if v then need_update ud else mret true) s3) as [s4 [b|e]]; [|by apply Hc].
  destruct b; [|by right]. pose proof (ends_preserves absent (fetch_one ud) s4 (keeps_fetch_one ud Hmethod) Hc) as Hf.
  unfold ends in Hf. destruct (fetch_one ud s4) as [s5 [[]|e]]; [by left|done].
Qed.

Lemma mirror_failed_ok u e s : mirror_ok u → absent s → ends (mirror_failed u e) s (λ b s', b = false ∧ absent s') (λ _, True).
Proof.
  intros Hu Hs.
  assert (∀ s', absent s' → ends (_ ← (if is_checksum_error e && os_exists s (path_of u) then rename_bad_checksum u (checksum_of e) else mret tt);
    _ ← clean_ud u; mret false) s' (λ b s', b = false ∧ absent s') (λ _, True)) as Hh.
  { intros s' Hs'. eapply ends_bind; [eapply ends_mono; [apply (ends_preserves absent); [|exact Hs']; preserves; apply keeps_rename, Hu|by intros ? ? HQ; exact HQ|done]|].
    intros [] s1 Hs1. eapply ends_bind; [eapply ends_mono; [apply (ends_preserves absent); [apply Hu|exact Hs1]|by intros ? ? HQ; exact HQ|done]|].
    intros [] s2 Hs2. by apply ends_ret. }
  unfold mirror_failed. destruct e; try (apply ends_get; by apply Hh). by apply ends_ret.
Qed.

(** What a mirror gives: [b] says whether it is to be fetched. *)
Definition mirror_state (u : urldata) (b : bool) s : Prop := absent s ∨ b = false ∧ verified s ∧ path_of u = L.

Lemma check_mirror u s : mirror_ok u → absent s →
  ends (verified ← verify_donestamp glob_magic file_sum u (Some ud); if (verified : bool) then need_update u else mret true) s
    (mirror_state u) absent.
Proof.
  intros Hu Hs. destruct (decide (path_of u = L)) as [Hp|Hp].
  - pose proof (mi_same _ Hu Hp) as Hsf. eapply ends_bind.
    { eapply ends_mono; [by apply (verify_donestamp_ok u (Some ud) s Hsf); [right|apply absent_left_over]|by intros ? ? HQ; exact HQ|auto]. }
    intros [] s' Hb; [|by apply ends_ret; left]. destruct Hb as [Hb|[_ ->]].
    + eapply ends_mono; [by apply no_update; [apply Hsf| |exact Hb]| |done]. intros b s'' [-> ->]. by right.
    + eapply ends_mono; [apply (ends_preserves absent); [apply Hu|exact Hs]| |done]. by left.
  - eapply ends_bind.
    { apply (ends_preserves absent); [apply keeps_verify_donestamp; [by apply Hu|apply Hu]|done]. }
    intros [] s' Hs'; [|by apply ends_ret; left].
    eapply ends_mono; [apply (ends_preserves absent); [apply Hu|exact Hs']| |done]. by left.
Qed.

Lemma ensure_symlink_ok u s : mirror_ok u → absent s → ends (ensure_symlink (path_of u) L) s (λ _, absent) absent.
Proof.
  intros Hu Hs. apply ends_preserves; [|done]. unfold ensure_symlink. preserves; [apply keeps_unlink|].
  apply keeps_symlink; [apply Hud|apply Hu].
Qed.

Lemma try_mirror_url_ok u s : mirror_ok u → absent s →
  ends (try_mirror_url glob_magic file_sum ud u false) s answer (λ _, True).
Proof.
  intros Hu Hs. unfold try_mirror_url. apply (ends_catch _ _ _ _ _ absent); [|done|].
  2:{ intros e s' Hs'. eapply ends_mono; [by apply mirror_failed_ok| |done]. by intros b s'' [-> ?]. }
  pose proof (check_mirror u s Hu Hs) as Hc. unfold ends in Hc. rewrite M_bind_eq in Hc.
  unfold ends. rewrite M_bind_eq. destruct (verify_donestamp glob_magic file_sum u (Some ud) s) as [s1 [v|e]]; [|done].
  rewrite M_bind_eq. destruct ((if v then need_update u else mret true) s1) as [s2 [b|e]]; [|done].
  change (ends (_ ← (if b then fetch_one u else mret tt); s ← get;
    if unset (ud_localpath u) || negb (os_exists s (path_of u)) then mret false
    else if bool_decide (ud_localpath u = ud_localpath ud) then mret true
    else if is_mirror_tarball ud u then _ ← use_tarball glob_magic file_sum ud u; mret true
    else _ ← ensure_symlink (path_of u) (path_of ud); _ ← update_stamp glob_magic file_sum ud; mret true) s2 answer absent).
  apply (ends_bind _ _ _ (λ _, mirror_state u false)).
  { destruct b; [|by apply ends_ret]. destruct Hc as [Hc|[? _]]; [|done].
    eapply ends_mono; [apply (ends_preserves absent); [by apply keeps_fetch_one, Hu|exact Hc]|by left|done]. }
  intros [] s3 Hs3. apply ends_get. destruct (decide (path_of u = L)) as [Hp|Hp].
  - assert (ud_localpath u = ud_localpath ud) as El.
    { rewrite (so_local Hud). pose proof (so_path Hud) as Hl. unfold path_of in Hp. destruct (ud_localpath u); cbn in Hp; congruence. }
    destruct (unset (ud_localpath u) || negb (os_exists s3 (path_of u))) eqn:Eu.
    + apply ends_ret. destruct Hs3 as [Hs3|(_ & Hs3 & _)]; [done|]. exfalso. rewrite Hp, verified_exists, El, (so_local Hud) in Eu by done.
      cbn in Eu. pose proof (so_path Hud) as Hl. by destruct L.
    + rewrite bool_decide_eq_true_2 by done. apply ends_ret. destruct Hs3 as [Hs3|(_ & Hs3 & _)]; [by left|by right].
  - destruct Hs3 as [Hs3|(_ & _ & ?)]; [|done]. destruct (_ || _); [by apply ends_ret|].
    destruct (bool_decide _); [by apply ends_ret; left|]. destruct (is_mirror_tarball ud u).
    + eapply ends_bind; [by apply use_tarball_ok|]. intros [] s4 Hs4. by apply ends_ret.
    + eapply ends_bind; [by apply ensure_symlink_ok|]. intros [] s4 Hs4.
      eapply ends_bind; [eapply ends_mono; [by apply update_stamp_ok; left|by intros ? ? HQ; exact HQ|auto]|].
      intros [] s5 Hs5. apply ends_ret. by right.
Qed.

Lemma try_each_ok uds s : Forall mirror_ok uds → absent s → ends (try_each glob_magic file_sum ud false uds) s answer (λ _, True).
Proof.
  intros Hu. revert s. induction Hu as [|u uds Hu _ IH]; intros s Hs; cbn [try_each]; [by apply ends_ret|].
  eapply ends_bind; [by apply try_mirror_url_ok|]. intros [] s' Hs'; [by apply ends_ret|by apply IH].
Qed.

(** What the lists of mirrors give. *)
Hypothesis Hmirrors : ∀ s var v uris uds, var = "PREMIRRORS" ∨ var = "MIRRORS" → ds_getVar (fs_data s) var = Ok v →
  build_mirroruris (fs_data s) re_match re_sub (λ u, supports_checksum u s) ud (mirror_from_string v) = Ok (uris, uds) →
  Forall mirror_ok uds.

Lemma try_mirrors_ok s var v : var = "PREMIRRORS" ∨ var = "MIRRORS" → ds_getVar (fs_data s) var = Ok v → absent s →
  ends (try_mirrors re_match re_sub glob_magic file_sum ud (mirror_from_string v) false) s answer (λ _, True).
Proof.
  intros Hvar Hv Hs. unfold try_mirrors. apply ends_get. apply ends_lift; [done|]. intros [uris uds] E.
  apply try_each_ok; [|done]. by eapply Hmirrors.
Qed.

(** *** The download *)

Lemma keeps_rename_own e s : absent s →
  ends (if is_checksum_error e && os_exists s L then rename_bad_checksum ud (checksum_of e) else mret tt) s (λ _, absent) (λ _, True).
Proof.
  intros Hs. eapply ends_mono; [apply (ends_preserves absent); [|exact Hs]|by intros ? ? HQ; exact HQ|done].
  preserves. apply keeps_rename, Hud.
Qed.

Lemma after_failure_ok e s : absent s →
  ends (after_failure re_match re_sub glob_magic file_sum ud false e) s answer (λ _, True).
Proof.
  intros Hs. unfold after_failure. apply ends_get. eapply ends_bind; [by apply keeps_rename_own|]. intros [] s1 Hs1.
  eapply ends_bind; [eapply ends_mono; [apply (ends_preserves absent); [apply Hmethod|exact Hs1]|by intros ? ? HQ; exact HQ|done]|].
  intros [] s2 Hs2. apply ends_get. apply ends_lift; [done|]. intros v Hv. apply (try_mirrors_ok s2 "MIRRORS"); auto.
Qed.

Lemma try_upstream_ok s : absent s →
  ends (try_upstream re_match re_sub glob_magic file_sum ud false) s answer (λ _, True).
Proof.
  intros Hs. unfold try_upstream. apply (ends_catch _ _ _ _ _ absent); [|done|by intros; apply after_failure_ok].
  apply ends_get. apply ends_lift; [done|]. intros [] _; [|by apply ends_raise].
  eapply ends_bind; [apply (ends_preserves absent); [by apply keeps_fetch_one|exact Hs]|]. intros [] s1 Hs1.
  eapply ends_bind; [eapply ends_mono; [by apply update_stamp_ok; left|by intros ? ? HQ; exact HQ|auto]|].
  intros [] s2 Hs2. apply ends_ret. by right.
Qed.

Lemma try_premirrors_ok s : left_over s →
  ends (try_premirrors re_match re_sub glob_magic file_sum ud) s (λ (b : bool) s', if b then verified s' else absent s') (λ _, True).
Proof.
  intros Hs. unfold try_premirrors.
  pose proof (check_source s Hs) as Hc. unfold ends in Hc. rewrite M_bind_eq in Hc. unfold ends. rewrite M_bind_eq.
  destruct (verify_donestamp glob_magic file_sum ud None s) as [s1 [v|e]]; [|done].
  rewrite M_bind_eq. destruct ((if v then need_update ud else mret true) s1) as [s2 [b|e]]; [|done].
  destruct b; cbn [negb]; [|done]. destruct (try_premirror ud); [|done].
  change (ends (s ← get; v ← lift (ds_getVar (fs_data s) "PREMIRRORS");
    found ← try_mirrors re_match re_sub glob_magic file_sum ud (mirror_from_string v) false;
    if (found : bool) then catch (_ ← update_stamp glob_magic file_sum ud; mret true) is_checksum_error (λ _, mret false)
    else mret false) s2 (λ (b : bool) s', if b then verified s' else absent s') (λ _, True)).
  apply ends_get. apply ends_lift; [done|]. intros pre Hpre.
  eapply ends_bind; [by apply (try_mirrors_ok s2 "PREMIRRORS"); auto|]. intros [] s3 Hs3; [|by apply ends_ret].
  destruct Hs3 as [Hs3|Hs3].
  - apply (ends_catch _ _ _ _ _ absent); [|done|by intros; apply ends_ret].
    eapply ends_bind; [eapply ends_mono; [by apply update_stamp_ok; left|by intros ? ? HQ; exact HQ|auto]|]. by intros [] s4 Hs4.
  - apply (ends_catch _ _ _ _ _ (λ _, False)); [|done|done]. unfold update_stamp. rewrite (so_need Hud). cbn [negb].
    unfold ends. rewrite M_bind_eq, get_bind.
    assert (os_exists s3 T = true) as HT.
    { rewrite (stamp_exists s3 (verified_left_over s3 Hs3)). unfold os_lexists. destruct Hs3 as (_ & c & t & Ht & _). by rewrite Ht. }
    fold T. rewrite HT. pose proof (touch_stamp s3 Hs3) as Ht. unfold ends in Ht. by destruct (touch T s3) as [s4 [[]|e]].
Qed.

Lemma set_data_left_over f s : left_over (set_data f s) ↔ left_over s.
Proof. done. Qed.

Lemma fetch_body_ok network only s : left_over s →
  ends (fetch_body re_match re_sub glob_magic file_sum network only ud) s (λ _, verified) (λ _, True).
Proof.
  intros Hs. unfold fetch_body. apply (ends_bind _ _ _ (λ _, left_over)); [done|]. intros [] s1 Hs1.
  eapply ends_bind; [by apply try_premirrors_ok|]. intros done1 s2 Hs2.
  apply (ends_bind _ _ _ (λ _ s', if done1 then verified s' else absent s')); [by destruct only|]. intros [] s3 Hs3.
  assert (left_over s3) as Hl3 by (destruct done1; [by apply verified_left_over|by apply absent_left_over]).
  eapply ends_bind; [eapply ends_mono; [by apply verify_donestamp_ok; [apply same_file_refl|left|]|by intros ? ? HQ; exact HQ|done]|].
  intros v s4 Hs4. assert (if v then verified s4 else absent s4) as Hs4'.
  { destruct v; [|done]. destruct Hs4 as [?|[Hn _]]; [done|]. by rewrite (so_need Hud) in Hn. }
  apply (ends_bind _ _ _ (λ (m : bool) s', held s' ∧ (m = true → v = false ∧ absent s'))).
  { destruct done1; [apply ends_ret; split; [destruct v; [by right|by left]|done]|]. destruct v.
    - eapply ends_mono; [by apply no_update; [apply Hud| |exact Hs4']| |done]. intros b s' [-> ->]. split; [by right|done].
    - apply ends_ret. split; [by left|done]. }
  intros missing s5 [Hs5 Hm]. apply (ends_bind _ _ _ (λ _, held)).
  { destruct missing; [|done]. destruct (Hm eq_refl) as [-> Ha].
    eapply ends_mono; [by apply try_upstream_ok| |done]. intros [] s' Hs'; [done|by left]. }
  intros done2 s6 Hs6. apply ends_get. destruct (_ || _); [done|].
  eapply ends_mono; [by apply update_stamp_ok|done|done].
Qed.

(** What a verified source is, in full. *)
Definition fetched_ok s : Prop :=
  os_exists s L = true ∧ os_exists s T = true ∧
  (os_isdir s L = true ∨ ∃ c t, os_stat s L = Some (File c t) ∧
    ∀ id e, id ∈ CHECKSUM_LIST → expected ud id = Some e → e ≠ "" → file_sum id c = e).

Lemma verified_fetched s : verified s → fetched_ok s.
Proof.
  intros Hv. split; [by apply verified_exists|]. split.
  - rewrite (stamp_exists s (verified_left_over s Hv)). unfold os_lexists. destruct Hv as (_ & c & t & Ht & _). by rewrite Ht.
  - destruct Hv as (_ & c & t & Ht & n & Hn & Hc). unfold os_isdir. rewrite Hn. destruct n as [fc ft|dt|target].
    + right. exists fc, ft. split; [done|]. by apply (Hc fc ft).
    + by left.
    + by apply stat_no_link in Hn.
Qed.


(** [verify_donestamp] keeps its word: when it answers yes the file is as
    expected and has its stamp, and when it answers no there is no stamp left,
    whatever it found. *)
Theorem verify_donestamp_spec s s' b :
  left_over s → verify_donestamp glob_magic file_sum ud None s = (s', Ok b) →
  if (b : bool) then fetched_ok s' else os_lexists s' T = false.
Proof.
  intros Hs E. pose proof (verify_donestamp_ok ud None s same_file_refl (or_introl eq_refl) Hs) as Hv. unfold ends in Hv. rewrite E in Hv.
  destruct b.
  - apply verified_fetched. destruct Hv as [?|[Hn _]]; [done|]. by rewrite (so_need Hud) in Hn.
  - unfold os_lexists. by rewrite (proj2 Hv).
Qed.
End source.

(** ** A concrete download

    The archive of [FetchOk]: [up] sends only a part of it, [down] breaks the
    connection, and the mirror has a good copy. *)

Definition one_mirror : FetchStore unit :=
  store_of [("DL_DIR", "/dl"); ("MIRRORS", "http://up/.* http://mirror/")].

#[local] Existing Instance one_mirror.
#[local] Existing Instance sample_methods.

Definition sample_glob (nodes : gmap string node) (p : string) : list string := [].

Definition sample_sum (id : string) (c : content) : string :=
  "sum of " +s+ match c with Text t => t | Pickled _ => "a stamp" end.

Definition sample_write (ud : urldata) : M (fetching unit) unit :=
  if String.eqb (u_host (ud_dec ud)) "down" then raise OSError
  else
    modify (set_nodes (<[path_of ud := File (Text (if String.eqb (u_host (ud_dec ud)) "up" then "a part" else "good")) 1]>)).

Definition sample_actions : FetchActions unit := {|
  supports_checksum := base_supports_checksum;
  recommends_checksum _ := true;
  need_update := base_need_update;
  download_ud := sample_write;
  build_mirror_data _ := mret tt;
  clean_ud := base_clean sample_glob;
  try_premirror _ := true;
  checkstatus_ud _ := mret true;
  fetched := base_done
|}.

#[local] Existing Instance sample_actions.

Abbreviation foo := (sample_ud "http://up/foo.tar.gz").
Abbreviation start := (MkFetching (D := unit) ∅ 5 tt).

Lemma sample_source : source_ok sample_sum foo.
Proof. split; [done..| | |done|done|]; by intros. Qed.

#[local] Instance sample_preorder : PreOrder (λ s s' : fetching unit, absent foo s → absent foo s').
Proof. split; [by intros s|]. intros s1 s2 s3 H12 H23 Hs. auto. Qed.

Lemma sample_keeps u : path_of u ≠ stamp_of foo → method_ok foo u.
Proof.
  intros Hp. split; cbn.
  - unfold sample_write. destruct (String.eqb _ _); [apply (preserves_raise _)|]. apply (preserves_modify _).
    intros s. by apply keeps_insert.
  - apply (preserves_ret _).
  - apply keeps_remove.
  - intros s Hs. exact Hs.
Qed.

(** If the archive were a directory, the mirror would have no name for it. *)
Lemma sample_mirrors sc :
  build_mirroruris tt sample_match sample_sub sc foo [("http://up/.*", "http://mirror/")] =
  if sc foo then Ok (["http://mirror/foo.tar.gz"], [sample_ud "http://mirror/foo.tar.gz"]) else Raise Fatal.
Proof. vm_compute. destruct (sc _); reflexivity. Qed.

Lemma path_join_end q p : isabs p = false → endswith (path_join q p) p = true.
Proof.
  intros Hp. apply endswith_spec. unfold path_join. rewrite Hp. destruct (_ || _); [by eexists|]. exists (q +s+ "/").
  by rewrite app_str_assoc.
Qed.

Lemma sample_mirror_ok : mirror_ok foo (sample_ud "http://mirror/foo.tar.gz").
Proof.
  split; [by apply sample_keeps|done|done| | |done].
  - intros q E. change (path_basename (path_of (sample_ud "http://mirror/foo.tar.gz"))) with "foo.tar.gz" in E.
    pose proof (path_join_end q "foo.tar.gz" eq_refl) as He. rewrite E in He. vm_compute in He. done.
  - intros _. by split.
Qed.

Lemma sample_mirrors_ok s var v uris uds : var = "PREMIRRORS" ∨ var = "MIRRORS" → ds_getVar (fs_data s) var = Ok v →
  build_mirroruris (fs_data s) sample_match sample_sub (λ u, supports_checksum u s) foo (mirror_from_string v) = Ok (uris, uds) →
  Forall (mirror_ok foo) uds.
Proof.
  destruct s as [nodes clock []]. cbn [fs_data]. intros [-> | ->] Hv.
  - injection Hv as <-. change (mirror_from_string None) with (@nil (string * string)). intros [= <- <-]. constructor.
  - injection Hv as <-. change (mirror_from_string _) with [("http://up/.*", "http://mirror/")]. rewrite sample_mirrors.
    destruct (supports_checksum _ _); [|done]. intros [= <- <-]. constructor; [apply sample_mirror_ok|constructor].
Qed.

Lemma sample_start : left_over sample_sum foo start.
Proof. split; [by intros p t q|]. split; [by left|]. by intros. Qed.

Abbreviation fetch_sample url :=
  (fetch_url sample_match sample_sub sample_glob sample_sum None false (sample_ud url) start).

(** What [up] sends is put aside, and the mirror is asked. *)
Lemma sample_fetched :
  (fetch_sample "http://up/foo.tar.gz").2 = Ok tt ∧
  let s := (fetch_sample "http://up/foo.tar.gz").1 in
  fs_nodes s !! "/dl/foo.tar.gz" = Some (File (Text "good") 1) ∧
  fs_nodes s !! "/dl/foo.tar.gz_bad-checksum_sum of a part" = Some (File (Text "a part") 1) ∧
  is_Some (fs_nodes s !! "/dl/foo.tar.gz.done").
Proof. vm_compute. split; [done|]. split; [done|]. split; [done|]. by eexists. Qed.


(** A file that was changed after it was checked. *)
Abbreviation changed := (MkFetching (D := unit) (<["/dl/foo.tar.gz.done" := File (Pickled (all_sums sample_sum (Text "good"))) 3]>
  (<["/dl/foo.tar.gz" := File (Text "changed") 4]> ∅)) 5 tt).

Lemma verify_donestamp_spec_witness :
  left_over sample_sum foo changed ∧
  os_lexists (verify_donestamp sample_glob sample_sum foo None changed).1 (stamp_of foo) = false.
Proof.
  assert (left_over sample_sum foo changed) as Hs.
  { split; [|split].
    - intros p t q Hp. cbn in Hp. apply lookup_insert_Some in Hp as [[_ ?]|[_ Hp]]; [done|].
      apply lookup_insert_Some in Hp as [[_ ?]|[_ Hp]]; [done|]. by rewrite lookup_empty in Hp.
    - right. by eexists _, _.
    - intros sums t fc ft Ht Hf Hlt. vm_compute in Ht, Hf. injection Ht as <- <-. injection Hf as <- <-. done. }
  split; [exact Hs|].
  apply (verify_donestamp_spec sample_glob sample_sum foo sample_source changed
    (verify_donestamp sample_glob sample_sum foo None changed).1 false Hs).
  vm_compute. reflexivity.
Defined.

(** *** Where the code does not do what it means to *)

(** An error of the file system is swallowed: the download returns, and there is
    no file. *)
Lemma io_error_swallowed :
  (fetch_sample "http://down/foo.tar.gz").2 = Ok tt ∧
  os_exists (fetch_sample "http://down/foo.tar.gz").1 "/dl/foo.tar.gz" = false.
Proof. split; vm_compute; reflexivity. Qed.
